(* ===== verification/_CoqProject ===== *)
-Q . S2P
Prelude.v
Cap.v
Thread.v
CapManager.v
CapSafety.v
Sched.v
Ipc.v
IpcTrace.v
IpcSafety.v
Pmm.v
PmmSafety.v
Vm.v
VmSafety.v
VmInit.v
VmRange.v
VmPages.v
AddrSpace.v
AddrSpaceSafety.v
SharedMem.v
SharedMemSafety.v
Exec.v
ExecSafety.v
ExecLoad.v
Services.v
ServicesSafety.v
Heap.v
Input.v
InputSafety.v
Graphics.v
Kernel.v
KernelSafety.v
Syscall.v
SyscallSafety.v
LibIpc.v
LibIpcSafety.v
TermParser.v
TermParserSafety.v
TermBuffer.v
TermBufferSafety.v
UserLib.v
Keys.v
MouseDriver.v
UserSafety.v
Canvas.v
CanvasSafety.v
Desktop.v
DesktopSafety.v
Gui.v
TermWindow.v
TermCommands.v
CommandSafety.v
Terminal.v
TerminalSafety.v
TerminalLoop.v
Programs.v
ProgramSafety.v
X86.v
Descriptors.v
Traps.v
Entry.v
Switch.v
Console.v
ConsoleSafety.v
Boot.v
BootSafety.v
Apic.v
InitProcess.v
InitSafety.v
KDesktop.v
KDesktopSafety.v
Faults.v
KMain.v
KMainMemory.v
KMainSafety.v
