(* ===== verification/Prelude.v ===== *)
(** * Atom: a verification development

    Atom is a capability-based microkernel for x86-64 with a small user space:
    drivers, a desktop and a terminal.  This library models the kernel and the
    user programs as Rocq functions, one definition per function of the source,
    and proves what makes each part correct.  Paths below are relative to
    [src/]; [kernel/] stands for [kernel/src/], [user/] for [userspace/].

    ** The system and its model

    Boot and processor
    - [X86.v]: the processor as far as the assembly files use it: registers,
      byte memory, one constructor per form of instruction, [run] and [iretq].
    - [Boot.v], [BootSafety.v]: [arch/x86_64/boot.asm], [uefi.rs], [mod.rs],
      [kernel/boot.rs], [kernel/system.rs]; the firmware is the class [Firmware].
    - [Descriptors.v]: [kernel/arch/gdt.rs] and [kernel/interrupts/idt.rs], as
      written by the code and as decoded by the processor from the bytes.
    - [Traps.v], [Faults.v]: the stubs of [kernel/interrupts/handlers.asm] and
      the exception and catch-all handlers of [handlers.rs].
    - [Switch.v]: [kernel/interrupts/switch.asm].
    - [Apic.v]: [kernel/interrupts/apic.rs] over a model of the chips.
    - [Entry.v]: [kernel/syscall/handler.asm] and the registers that
      [kernel/syscall/mod.rs] sets up for the [syscall] instruction.
    - [Console.v], [ConsoleSafety.v]: [vga.rs], [serial.rs], [log.rs], [util.rs]
      and [build_info.rs]; the serial port is the class [Uart].

    Kernel
    - [Cap.v], [CapManager.v], [CapSafety.v]: [kernel/cap.rs].
    - [Thread.v]: [kernel/thread.rs].  [Sched.v]: [kernel/sched.rs].
    - [Ipc.v], [IpcTrace.v], [IpcSafety.v]: [kernel/ipc.rs].
    - [Pmm.v], [PmmSafety.v]: [kernel/mm/pmm.rs].
    - [Vm.v], [VmSafety.v], [VmInit.v], [VmRange.v], [VmPages.v]:
      [kernel/mm/vm.rs] and [mm/mod.rs].
    - [AddrSpace.v], [AddrSpaceSafety.v]: [kernel/mm/addrspace.rs].
    - [SharedMem.v], [SharedMemSafety.v]: [kernel/shared_mem.rs].
    - [Exec.v], [ExecSafety.v], [ExecLoad.v]: [kernel/executable.rs].
    - [Services.v], [ServicesSafety.v]: [kernel/service_manager.rs].
    - [Heap.v]: [kernel/mm/heap.rs].  [Graphics.v]: [kernel/graphics.rs].
    - [Input.v], [InputSafety.v]: [kernel/input.rs]; the PS/2 controller is the
      class [Ps2].
    - [Kernel.v], [KernelSafety.v]: the globals of the kernel in one record,
      [mm/policy.rs], the interrupt registry and the interrupt handlers.
    - [Syscall.v], [SyscallSafety.v]: [kernel/syscall/mod.rs], the dispatcher and
      its handlers; user memory is the class [Mmu].
    - [InitProcess.v], [InitSafety.v]: the launch of the first process in
      [kernel/init_process.rs] and the start of scheduling in [kernel.rs].
    - [KDesktop.v], [KDesktopSafety.v]: the desktop that [init_process.rs] runs
      in a kernel thread.
    - [KMain.v]: [kmain] of [kernel/kernel.rs] with every initialisation it
      calls, in order, up to the jump into the first thread.
      [KMainMemory.v]: memory from the firmware's map to the loaded first
      process.  [KMainSafety.v]: what the machine is when it is handed over.

    User space
    - [LibIpc.v], [LibIpcSafety.v]: [user/libs/libipc].
    - [UserLib.v], [UserSafety.v]: [user/libs/syscall], on top of [Syscall.v].
    - [Keys.v]: the keyboard decoders of the keyboard driver, the terminal and
      the library.  [MouseDriver.v]: [user/drivers/mouse].
    - [Canvas.v], [CanvasSafety.v]: drawing in [user/libs/syscall], [libgui]
      and [user/drivers/display].  [Gui.v]: events and applications of [libgui].
    - [Desktop.v], [DesktopSafety.v]: [user/drivers/ui_shell].
    - [TermParser.v], [TermBuffer.v], [TermWindow.v], [TermCommands.v],
      [Terminal.v] with [TermParserSafety.v], [TermBufferSafety.v],
      [CommandSafety.v], [TerminalSafety.v], [TerminalLoop.v]:
      [user/drivers/terminal].
    - [Programs.v], [ProgramSafety.v]: the [main] functions of the desktop, the
      terminal and the drivers as rounds over the system calls, with [exit] and
      the framebuffer calls of [user/libs/syscall].

    The parts interact through their states.  [Kernel.v] puts the states of the
    kernel's components into one record; a system call or an interrupt handler
    is a function on it, and user programs call [Syscall.rust_syscall_dispatcher] through
    [UserLib.v].  The page-table functions run on [Vm.Vm], which contains the
    page allocator and physical memory.

    ** Conventions

    A machine integer is a [Z]; every operation that can leave its width is
    followed by [wrap64], [wrap32], [wrap16], [wrap8] or [to_signed].
    [Result] is [result], a panic is [None].  Statics are fields of a state that
    is passed along.  A mutex is held for the whole of the function that takes
    it, so it does not appear.  Physical memory is addressed directly, as the
    kernel does through its identity mapping; where that mapping is lost, a
    theorem says so ([InitSafety.load_replaces_identity]).

    Loops that are not structural take fuel, and each has a theorem that the
    fuel given is enough: the wait-for chain of [Ipc.v] (bounded by the number
    of ports), the revocation of a capability tree (bounded by the number of
    capabilities), the depth-first search of [Services.v] (bounded by the number
    of services), the descriptors of a memory map (bounded by its size), the
    desktop's event loop ([DESKTOP_FUEL], above the capacity of both input
    rings), the loops of the programs over an input buffer (its capacity, as the
    rings hold fewer bytes), the terminal's inner loop (the bytes queued),
    [wait_any] (the ticks
    until its deadline).  Polling a device is bounded by the retry counts of the
    source.

    ** What the theorems show

    - Authority: revoking reaches every descendant, no operation creates
      authority, the capability graph stays consistent ([CapSafety]).
    - Scheduling: fixed priority, round robin within a priority, and an
      invariant of the queues ([Sched]).
    - Messages: first in first out, bounded queues, exact deadlock detection and
      no deadlock ([IpcSafety]); the same through system calls ([SyscallSafety]).
    - Memory: mapping changes exactly one page of a tree that stays a tree,
      region operations are all or nothing, allocation returns disjoint free
      pages, shared regions own theirs, a loaded image reads back ([VmSafety],
      [VmInit], [AddrSpaceSafety], [PmmSafety], [SharedMemSafety], [ExecLoad]).
    - The kernel as a whole: every system call with any number and arguments
      keeps the kernel's invariant ([SyscallSafety.kernel_invariant]).
    - Boot: what the firmware hands over, bounds of the memory map, the tables
      the processor finds, the first process, its registers and its memory, and
      when the launch fails ([BootSafety], [Descriptors], [InitSafety]); and
      [kmain] as a whole, from the firmware's map to the first instruction of
      the first process ([KMainSafety.kmain_boots]).
    - Interrupts: every vector reaches its handler with a frame that describes
      the interrupted code, faults are reported, the controllers deliver
      keyboard and mouse ([Traps], [Faults], [Apic]).
    - Refinement: the text screen is the end of a roll of paper, the terminal is
      a session with an unbounded log, rings are bounded queues
      ([ConsoleSafety], [TerminalSafety], [InputSafety]).
    - Programs on the kernel: a round of the terminal and of the desktop returns,
      loses no input and changes nothing else of the kernel, and the desktop
      draws on the screen the kernel describes ([TerminalLoop],
      [ProgramSafety]).
    - Where the code does not do what it means to, a theorem states what it does
      instead: the clobbered registers of a resumed thread, a system call that
      is entered twice, remapping into the kernel half, a thread that gains
      kernel mode, the init stack that is already mapped, a page table at address
      0 that counts as none, a keyboard driver that drops what it reads.

    ** Not modelled

    Interrupts are taken between system calls, not inside one; the entry
    code is the exception ([Entry.entry_interleaved]).  Caches and the
    translation buffer appear as the invalidations the code issues.  The heap's
    use by the kernel's own collections, the text of log messages outside
    [Console.v], [Display] instances, floating point ([libgui] darken and
    lighten), the register dump of [Apic.v]'s source and the functions that only
    log are left out.  [capture_current_context] and the second
    [perform_context_switch] of [thread.rs] have no callers.  The endless loops of
    the programs are modelled by one round, up to the yield that ends it: what
    runs in between is [resume], a parameter.  The panic handler of the kernel
    only logs and halts. *)


From stdpp Require Export prelude gmap fin_maps sorting strings list relations.
From Stdlib Require Export ZArith.

Global Open Scope Z_scope.

(** ** Results

    Rust's [Result<A, E>]. *)

Inductive result (A E : Type) : Type :=
| Ok (a : A)
| Err (e : E).
Arguments Ok {A E} a.
Arguments Err {A E} e.

Definition is_ok {A E} (r : result A E) : bool :=
  match r with Ok _ => true | Err _ => false end.

Definition map_err {A E F} (f : E → F) (r : result A E) : result A F :=
  match r with Ok a => Ok a | Err e => Err (f e) end.

Declare Scope atom_scope.
Delimit Scope atom_scope with atom.

(** [ok_or o e] is [Option::ok_or]. *)
Definition ok_or {A E} (o : option A) (e : E) : result A E :=
  match o with Some a => Ok a | None => Err e end.

(** The [?] operator on results inside a pure computation. *)
Notation "'let?' x ':=' c 'in' k" :=
  (match c with Ok x => k | Err e => Err e end)
  (at level 10, x pattern, c at level 200, k at level 200)
  : atom_scope.
Global Open Scope atom_scope.

(** ** Machine integers

    A [w]-bit unsigned integer is a [Z] in [0 .. 2^w - 1]; the release build of
    the kernel wraps on overflow, so arithmetic that can overflow is written
    with [wrap]. *)

Definition wrap (w x : Z) : Z := x mod 2 ^ w.
#[global] Arguments wrap : simpl never.
Abbreviation wrap8 := (wrap 8).
Abbreviation wrap16 := (wrap 16).
Abbreviation wrap32 := (wrap 32).
Abbreviation wrap64 := (wrap 64).

Definition U64_MAX : Z := 2 ^ 64 - 1.

(** The range predicate of a [w]-bit unsigned integer. *)
Definition in_range (w x : Z) : Prop := 0 ≤ x < 2 ^ w.

Definition saturating_add (w a b : Z) : Z := Z.min (a + b) (2 ^ w - 1).
Definition saturating_sub (a b : Z) : Z := Z.max 0 (a - b).

(** Bitwise complement of a [w]-bit integer. *)
Definition not_w (w x : Z) : Z := Z.lxor x (Z.ones w).

(** Two's complement reading of a [w]-bit pattern. *)
Definition to_signed (w x : Z) : Z :=
  if 2 ^ (w - 1) <=? wrap w x then wrap w x - 2 ^ w else wrap w x.

Create HintDb atom discriminated.

Lemma wrap_small w x : in_range w x → wrap w x = x.
Proof. intros [??]. unfold wrap. by apply Z.mod_small. Qed.

Lemma wrap_range w x : 0 ≤ w → in_range w (wrap w x).
Proof. intros. unfold in_range, wrap. apply Z.mod_pos_bound. lia. Qed.

Lemma wrap_succ64 x : 0 ≤ x < U64_MAX → wrap64 (x + 1) = x + 1.
Proof. unfold U64_MAX. intros. apply wrap_small. unfold in_range. lia. Qed.

Lemma testbit_in_range w x i : 0 ≤ w → in_range w x → w ≤ i → Z.testbit x i = false.
Proof.
  intros Hw [H0 H1] Hi. rewrite <-(Z.mod_small x (2 ^ w)) by lia.
  by apply Z.mod_pow2_bits_high.
Qed.

Lemma not_w_spec w x i :
  0 ≤ w → 0 ≤ i → Z.testbit (not_w w x) i = xorb (Z.testbit x i) (bool_decide (i < w)).
Proof.
  intros. unfold not_w. rewrite Z.lxor_spec. f_equal.
  destruct (decide (i < w)).
  - rewrite Z.ones_spec_low by lia. by rewrite bool_decide_eq_true_2.
  - rewrite Z.ones_spec_high by lia. by rewrite bool_decide_eq_false_2.
Qed.

#[export] Hint Resolve wrap_range : atom.

(** Two integers of the same width that agree on every bit are equal. *)
Ltac bitwise i :=
  apply Z.bits_inj'; intros i ?;
  repeat first
    [ rewrite Z.land_spec | rewrite Z.lor_spec | rewrite Z.lxor_spec
    | rewrite Z.ldiff_spec | rewrite Z.bits_0 ].

(** Masking the [k] low bits away rounds down to a multiple of [2^k]. *)
Lemma mask_low k x : 0 ≤ k → in_range 64 x → Z.land x (not_w 64 (2 ^ k - 1)) = x / 2 ^ k * 2 ^ k.
Proof.
  intros Hk Hx. transitivity (Z.ldiff x (Z.ones k)).
  - bitwise i. rewrite not_w_spec by lia. rewrite Z.ones_equiv, <- Z.sub_1_r.
    case_bool_decide; [by rewrite xorb_true_r|].
    by rewrite (testbit_in_range 64 x i) by (done || lia).
  - rewrite Z.ldiff_ones_r, Z.shiftr_div_pow2, Z.shiftl_mul_pow2 by lia. done.
Qed.

(** ** Lists used as [Vec] and [VecDeque] *)

Section vec.
Context {A : Type}.
Implicit Types (l : list A) (p : A → bool) (f : A → A).

(** [iter().find(p)] *)
Fixpoint find_first p l : option A :=
  match l with
  | [] => None
  | x :: l => if p x then Some x else find_first p l
  end.

(** [iter_mut().find(p)] followed by an update of the element found. *)
Fixpoint update_first p f l : list A :=
  match l with
  | [] => []
  | x :: l => if p x then f x :: l else x :: update_first p f l
  end.

(** [position(p)] followed by [Vec::remove]. *)
Fixpoint remove_first p l : list A :=
  match l with
  | [] => []
  | x :: l => if p x then l else x :: remove_first p l
  end.

Lemma find_first_Some p l x :
  find_first p l = Some x → p x = true ∧ x ∈ l.
Proof.
  induction l as [|y l IH]; simpl; [done|].
  destruct (p y) eqn:E; intros; simplify_eq; [set_solver|].
  destruct IH; set_solver.
Qed.

Lemma find_first_None p l :
  find_first p l = None ↔ (∀ x, x ∈ l → p x = false).
Proof.
  induction l as [|y l IH]; simpl; [set_solver|].
  destruct (p y) eqn:E; [|rewrite IH; set_solver].
  split; [done|]. intros H. rewrite H in E; [done|set_solver].
Qed.

Lemma length_update_first p f l : length (update_first p f l) = length l.
Proof. induction l; simpl; [done|]. case_match; simpl; congruence. Qed.

Lemma update_first_None p f l :
  find_first p l = None → update_first p f l = l.
Proof.
  induction l as [|y l IH]; simpl; [done|].
  case_match; [done|]. intros; f_equal; auto.
Qed.

Lemma update_first_id p f l :
  (∀ x, find_first p l = Some x → f x = x) → update_first p f l = l.
Proof.
  induction l as [|y l IH]; simpl; [done|].
  case_match; intros H'; f_equal; auto.
Qed.

Lemma map_update_first {B} (g : A → B) p f l :
  (∀ x, g (f x) = g x) → map g (update_first p f l) = map g l.
Proof. intros H. induction l; simpl; [done|]. case_match; simpl; congruence. Qed.
End vec.

(** ** [BTreeMap] iteration: ascending key order *)

Definition entry_le {V} (a b : Z * V) : Prop := a.1 ≤ b.1.
#[export] Instance entry_le_dec {V} : RelDecision (@entry_le V).
Proof. intros a b. unfold entry_le. apply _. Defined.
#[export] Instance entry_le_total {V} : Total (@entry_le V).
Proof. intros a b. unfold entry_le. lia. Qed.

Definition btree_entries {V} (m : gmap Z V) : list (Z * V) :=
  merge_sort entry_le (map_to_list m).

Lemma elem_of_btree_entries {V} (m : gmap Z V) k v :
  (k, v) ∈ btree_entries m ↔ m !! k = Some v.
Proof.
  unfold btree_entries. rewrite merge_sort_Permutation. apply elem_of_map_to_list.
Qed.

Lemma length_btree_entries {V} (m : gmap Z V) : length (btree_entries m) = size m.
Proof. unfold btree_entries. rewrite merge_sort_Permutation. apply length_map_to_list. Qed.

(** ** Physical memory

    Every memory access of the modelled code is to an aligned 64-bit word or to
    bytes inside one, so memory maps the address of an aligned word to its
    [u64] value; words never written read as [0]. *)

Abbreviation Memory := (gmap Z Z).

Definition mem_read (m : Memory) (a : Z) : Z := default 0 (m !! a).
Definition mem_write (m : Memory) (a v : Z) : Memory := <[a := v]> m.

Lemma mem_read_write m a v : mem_read (mem_write m a v) a = v.
Proof. unfold mem_read, mem_write. by rewrite lookup_insert_eq. Qed.

Lemma mem_read_write_ne m a b v : a ≠ b → mem_read (mem_write m a v) b = mem_read m b.
Proof. intros. unfold mem_read, mem_write. by rewrite lookup_insert_ne. Qed.


Lemma omap_ext_in {A B} (f g : A → option B) (l : list A) :
  (∀ x, x ∈ l → f x = g x) → omap f l = omap g l.
Proof.
  induction l as [|x l IH]; intros H; [done|]. simpl.
  rewrite (H x) by set_solver. case_match; [f_equal|]; apply IH; set_solver.
Qed.

Lemma omap_lookup_seq {A} (l : list A) a n :
  omap (λ j, l !! (a + j)%nat) (seq 0 n) = take n (drop a l).
Proof.
  enough (∀ b, omap (λ j, l !! (a + j)%nat) (seq b n) = take n (drop (a + b) l)) as H
    by (by rewrite H, Nat.add_0_r).
  induction n as [|n IH]; intros b; [done|]. specialize (IH (S b)).
  rewrite Nat.add_succ_r in IH. simpl in *.
  destruct (l !! (a + b)%nat) eqn:E.
  - rewrite (drop_S _ _ _ E). simpl. by f_equal.
  - apply lookup_ge_None in E. rewrite drop_ge in IH |- * by lia. rewrite take_nil in IH. exact IH.
Qed.

(** The first index of a range that satisfies [f]. *)
Lemma find_first_seqZ (f : Z → bool) m n x :
  find_first f (seqZ m n) = Some x → f x = true ∧ m ≤ x < m + n ∧ ∀ y, m ≤ y < x → f y = false.
Proof.
  destruct (decide (0 ≤ n)) as [Hn|]; [|rewrite seqZ_nil by lia; done].
  revert m. pattern n. apply natlike_ind; [done| |done]. clear n Hn.
  intros n Hn IH m. rewrite seqZ_cons by lia. simpl. rewrite Z.pred_succ.
  destruct (f m) eqn:Hm.
  - intros [= <-]. split_and!; [done|lia..|]. lia.
  - intros (Hx & Hr & Hlt)%IH. split_and!; [done|lia..|]. intros y Hy.
    destruct (decide (y = m)) as [->|]; [done|]. apply Hlt. lia.
Qed.

Lemma find_first_seqZ_None (f : Z → bool) m n :
  find_first f (seqZ m n) = None ↔ ∀ y, m ≤ y < m + n → f y = false.
Proof. rewrite find_first_None. split; intros H y Hy; apply H; by apply elem_of_seqZ. Qed.

(** Testing one bit with a mask. *)
Lemma land_bit b k : 0 ≤ k → (Z.land b (Z.shiftl 1 k) =? 0) = negb (Z.testbit b k).
Proof.
  intros Hk. rewrite Z.shiftl_1_l. destruct (Z.testbit b k) eqn:E; simpl.
  - apply Z.eqb_neq. intros H. apply (f_equal (λ x, Z.testbit x k)) in H.
    by rewrite Z.land_spec, E, Z.pow2_bits_true, Z.bits_0 in H.
  - apply Z.eqb_eq. apply Z.bits_inj'. intros i Hi. rewrite Z.land_spec, Z.bits_0.
    destruct (decide (i = k)) as [->|]; [by rewrite E|].
    rewrite Z.pow2_bits_false by done. apply andb_false_r.
Qed.

Lemma testbit_bit k i : 0 ≤ k → 0 ≤ i → Z.testbit (Z.shiftl 1 k) i = bool_decide (i = k).
Proof.
  intros. rewrite Z.shiftl_1_l. case_bool_decide; subst.
  - by apply Z.pow2_bits_true.
  - by apply Z.pow2_bits_false.
Qed.

Lemma foldl_preserves {A B} (P : A → Prop) (f : A → B → A) (l : list B) a :
  P a → (∀ a b, b ∈ l → P a → P (f a b)) → P (foldl f a l).
Proof.
  revert a. induction l as [|b l IH]; intros a Ha Hf; [done|]. simpl. apply IH.
  - apply Hf; [set_solver|done].
  - intros a' b' Hb. apply Hf. set_solver.
Qed.

(** ** Bytes

    Little-endian fields, as [to_le_bytes] and [from_le_bytes] write and read
    them. *)

Definition is_byte (b : Z) : Prop := in_range 8 b.

Fixpoint le_value (l : list Z) : Z := match l with [] => 0 | b :: l => b + 256 * le_value l end.

Fixpoint le_bytes (n : nat) (x : Z) : list Z :=
  match n with O => [] | S n => x mod 256 :: le_bytes n (x / 256) end.

Definition field (image : list Z) (off len : nat) : Z := le_value (take len (drop off image)).

Lemma le_value_range l : Forall is_byte l → in_range (8 * Z.of_nat (length l)) (le_value l).
Proof.
  unfold in_range. induction 1 as [|b l Hb _ IH]; [done|]. cbn [le_value length].
  replace (8 * Z.of_nat (S (length l))) with (8 + 8 * Z.of_nat (length l)) by lia.
  rewrite Z.pow_add_r by lia. unfold is_byte, in_range in Hb. lia.
Qed.

Lemma field_range image off len w :
  Forall is_byte image → w = 8 * Z.of_nat len → in_range w (field image off len).
Proof.
  intros Hi ->. unfold field. pose proof (le_value_range (take len (drop off image))) as H.
  unfold in_range in *. assert (Forall is_byte (take len (drop off image))) as Hb by by apply Forall_take, Forall_drop.
  specialize (H Hb). assert (length (take len (drop off image)) ≤ len)%nat by (rewrite length_take; lia).
  pose proof (Z.pow_le_mono_r 2 (8 * Z.of_nat (length (take len (drop off image)))) (8 * Z.of_nat len)). lia.
Qed.

Lemma length_le_bytes n x : length (le_bytes n x) = n.
Proof. revert x. induction n as [|n IH]; intros x; [done|]. cbn [le_bytes length]. by rewrite IH. Qed.

Lemma le_bytes_byte n x : Forall is_byte (le_bytes n x).
Proof.
  revert x. induction n as [|n IH]; intros x; cbn [le_bytes]; constructor; [|done].
  unfold is_byte, in_range. pose proof (Z.mod_pos_bound x 256). lia.
Qed.

(** Reading back what was written: the value at its width. *)
Lemma le_value_bytes n x : le_value (le_bytes n x) = wrap (8 * Z.of_nat n) x.
Proof.
  unfold wrap. revert x. induction n as [|n IH]; intros x; cbn [le_bytes le_value].
  - by rewrite Z.mod_1_r.
  - rewrite IH. replace (8 * Z.of_nat (S n)) with (8 + 8 * Z.of_nat n) by lia.
    rewrite Z.pow_add_r by lia. change (2 ^ 8) with 256. rewrite Z.rem_mul_r by lia. done.
Qed.

Lemma le_bytes_value l : Forall is_byte l → le_bytes (length l) (le_value l) = l.
Proof.
  induction 1 as [|b l Hb _ IH]; [done|]. cbn [length le_bytes le_value]. unfold is_byte, in_range in Hb.
  rewrite (Z.mul_comm 256), Z.mod_add, Z.div_add, Z.mod_small, Z.div_small, Z.add_0_l by lia. by rewrite IH.
Qed.

(** Two's complement fields. *)
Definition in_signed (w x : Z) : Prop := - 2 ^ (w - 1) ≤ x < 2 ^ (w - 1).

Lemma to_signed_wrap w x : 0 < w → in_signed w x → to_signed w (wrap w x) = x.
Proof.
  unfold in_signed, to_signed, wrap. intros Hw Hx. rewrite Z.mod_mod by lia.
  assert (2 ^ w = 2 * 2 ^ (w - 1)) as E by (rewrite <- Z.pow_succ_r by lia; f_equal; lia).
  destruct (decide (0 ≤ x)).
  - rewrite Z.mod_small by lia. destruct (Z.leb_spec (2 ^ (w - 1)) x); lia.
  - rewrite <- (Z.mod_add x 1), Z.mod_small by lia. destruct (Z.leb_spec (2 ^ (w - 1)) (x + 1 * 2 ^ w)); lia.
Qed.

Lemma to_signed_range w x : 0 < w → in_signed w (to_signed w x).
Proof.
  intros Hw. unfold in_signed, to_signed. pose proof (wrap_range w x) as [H0 H1]; [lia|].
  assert (2 ^ w = 2 * 2 ^ (w - 1)) as E by (rewrite <- Z.pow_succ_r by lia; f_equal; lia).
  destruct (Z.leb_spec (2 ^ (w - 1)) (wrap w x)); lia.
Qed.
