(* ===== verification/Cap.v ===== *)
(** * Capabilities: handles, permissions, resources and per-thread tables

    The data half of [kernel/src/cap.rs]: [CapHandle], [CapPermissions],
    [ResourceType], [Capability], [AuditLogEntry], [CapError] and
    [CapabilityTable].  The global [CapabilityManager] is in [CapManager.v],
    because its operations reach into the thread list. *)

From S2P Require Import Prelude.

(** ** Permissions: a [u32] bit set *)

Record CapPermissions := mkPerms { bits : Z }.

#[export] Instance CapPermissions_eq_dec : EqDecision CapPermissions.
Proof. solve_decision. Defined.

Definition PERM_NONE : CapPermissions := mkPerms 0.
Definition PERM_READ : CapPermissions := mkPerms (Z.shiftl 1 0).
Definition PERM_WRITE : CapPermissions := mkPerms (Z.shiftl 1 1).
Definition PERM_EXECUTE : CapPermissions := mkPerms (Z.shiftl 1 2).
Definition PERM_GRANT : CapPermissions := mkPerms (Z.shiftl 1 3).
Definition PERM_REVOKE : CapPermissions := mkPerms (Z.shiftl 1 4).
Definition PERM_ALL : CapPermissions := mkPerms 0xFFFFFFFF.

Definition perms_from_bits (b : Z) : CapPermissions := mkPerms b.

Definition perms_contains (self other : CapPermissions) : bool :=
  Z.land (bits self) (bits other) =? bits other.

Definition perms_union (self other : CapPermissions) : CapPermissions :=
  mkPerms (Z.lor (bits self) (bits other)).

Definition perms_intersection (self other : CapPermissions) : CapPermissions :=
  mkPerms (Z.land (bits self) (bits other)).

Definition is_subset_of (self other : CapPermissions) : bool :=
  Z.land (bits self) (not_w 32 (bits other)) =? 0.

(** A permission set is a [u32]. *)
Definition perms_wf (p : CapPermissions) : Prop := in_range 32 (bits p).

(** ** Resources, capabilities and errors *)

Inductive ResourceType :=
| RThread (tid : Z)
| RMemoryRegion (virt_addr phys_addr size : Z)
| RIpcPort (port_id : Z)
| RIrq (irq_num : Z)
| RDevice (bdf : Z)
| RDmaBuffer (phys_addr size : Z)
| RSharedMemoryRegion (region_id : Z).

#[export] Instance ResourceType_eq_dec : EqDecision ResourceType.
Proof. solve_decision. Defined.

Record Capability := mkCap {
  cap_handle : Z;
  cap_resource : ResourceType;
  cap_permissions : CapPermissions;
  cap_owner : Z;
  cap_parent : option Z;
  cap_children : list Z;
}.

#[export] Instance Capability_eq_dec : EqDecision Capability.
Proof. solve_decision. Defined.

Inductive CapError :=
| CapNotFound
| CapPermissionDenied
| CapInvalidHandle
| CapAlreadyExists
| CapWrongResourceType
| CapNotOwner.

#[export] Instance CapError_eq_dec : EqDecision CapError.
Proof. solve_decision. Defined.

(** [transferred_cap.owner = target_thread], and the same write on the global copy. *)
Definition set_cap_owner (c : Capability) (o : Z) : Capability :=
  mkCap (cap_handle c) (cap_resource c) (cap_permissions c) o (cap_parent c) (cap_children c).

(** [self.children.push(child_handle)] *)
Definition push_child (c : Capability) (child : Z) : Capability :=
  mkCap (cap_handle c) (cap_resource c) (cap_permissions c) (cap_owner c) (cap_parent c)
    (cap_children c ++ [child]).

(** [CapHandle::new]: the atomic [NEXT_HANDLE] counter is the first argument;
    the result is the handle and the counter after [fetch_add]. *)
Definition CapHandle_new (next : Z) : Z * Z := (next, wrap64 (next + 1)).

Definition Capability_new_root (next : Z) (resource : ResourceType) (owner : Z)
    (permissions : CapPermissions) : Capability * Z :=
  let '(h, next') := CapHandle_new next in
  (mkCap h resource permissions owner None [], next').

(** [Capability::derive]: the parent with its new child recorded, the child, and
    the handle counter; on refusal neither the parent nor the counter changes. *)
Definition Capability_derive (next : Z) (self : Capability) (new_owner : Z)
    (reduced_permissions : CapPermissions) : result (Capability * Capability * Z) CapError :=
  if negb (is_subset_of reduced_permissions (cap_permissions self)) then
    Err CapPermissionDenied
  else
    let '(child_handle, next') := CapHandle_new next in
    Ok (push_child self child_handle,
        mkCap child_handle (cap_resource self) reduced_permissions new_owner
          (Some (cap_handle self)) [],
        next').

Definition has_permission (c : Capability) (perm : CapPermissions) : bool :=
  perms_contains (cap_permissions c) perm.

Definition is_owned_by (c : Capability) (tid : Z) : bool := cap_owner c =? tid.

(** ** Audit log entries *)

Inductive AuditEventType := AuditCreate | AuditDerive | AuditTransfer | AuditRevoke.

Record AuditLogEntry := mkAudit {
  audit_timestamp : Z;
  audit_event : AuditEventType;
  audit_thread : Z;
  audit_cap : Z;
  audit_parent : option Z;
  audit_target : option Z;
}.

(** [now] is [crate::interrupts::get_ticks()]. *)
Definition AuditLogEntry_new (now : Z) (ev : AuditEventType) (tid h : Z) : AuditLogEntry :=
  mkAudit now ev tid h None None.

Definition AuditLogEntry_new_derive (now tid child parent : Z) : AuditLogEntry :=
  mkAudit now AuditDerive tid child (Some parent) None.

Definition AuditLogEntry_new_transfer (now tid h target : Z) : AuditLogEntry :=
  mkAudit now AuditTransfer tid h None (Some target).

(** ** The per-thread capability table *)

Record CapabilityTable := mkTable {
  capabilities : gmap Z Capability;
  table_owner : Z;
}.

Definition CapabilityTable_new (owner : Z) : CapabilityTable := mkTable ∅ owner.

Definition table_insert (t : CapabilityTable) (cap : Capability)
    : CapabilityTable * result Z CapError :=
  match capabilities t !! cap_handle cap with
  | Some _ => (t, Err CapAlreadyExists)
  | None =>
      (mkTable (<[cap_handle cap := cap]> (capabilities t)) (table_owner t),
       Ok (cap_handle cap))
  end.

Definition table_get (t : CapabilityTable) (h : Z) : option Capability := capabilities t !! h.

Definition table_remove (t : CapabilityTable) (h : Z) : CapabilityTable * option Capability :=
  (mkTable (delete h (capabilities t)) (table_owner t), capabilities t !! h).

Definition table_contains (t : CapabilityTable) (h : Z) : bool :=
  bool_decide (is_Some (capabilities t !! h)).

Definition table_validate (t : CapabilityTable) (h : Z) (required : CapPermissions)
    : result Capability CapError :=
  match table_get t h with
  | None => Err CapNotFound
  | Some cap => if negb (has_permission cap required) then Err CapPermissionDenied else Ok cap
  end.

Definition table_list (t : CapabilityTable) : list Z := (btree_entries (capabilities t)).*1.

Definition table_count (t : CapabilityTable) : nat := size (capabilities t).

(** ** Lemmas on permission sets *)

Lemma contains_spec p q :
  perms_contains p q = true ↔ ∀ i, 0 ≤ i → Z.testbit (bits q) i = true → Z.testbit (bits p) i = true.
Proof.
  unfold perms_contains. rewrite Z.eqb_eq. split.
  - intros H i Hi Hq. rewrite <-H, Z.land_spec in Hq. by apply andb_prop in Hq as [??].
  - intros H. bitwise i. destruct (Z.testbit (bits q) i) eqn:E; [|by rewrite andb_false_r].
    by rewrite H.
Qed.

Lemma is_subset_of_spec p q :
  perms_wf p →
  is_subset_of p q = true ↔
    ∀ i, 0 ≤ i → Z.testbit (bits p) i = true → Z.testbit (bits q) i = true.
Proof.
  intros Hp. unfold is_subset_of. rewrite Z.eqb_eq. split.
  - intros H i Hi Hpi. apply (f_equal (λ x, Z.testbit x i)) in H.
    rewrite Z.land_spec, Z.bits_0, Hpi, not_w_spec in H by lia.
    case_bool_decide; simpl in H.
    + by destruct (Z.testbit (bits q) i).
    + rewrite (testbit_in_range 32 (bits p)) in Hpi by (done || lia). done.
  - intros H. bitwise i. rewrite not_w_spec by lia.
    destruct (Z.testbit (bits p) i) eqn:E; [|done]. rewrite (H i) by done. simpl.
    case_bool_decide; [done|].
    rewrite (testbit_in_range 32 (bits p)) in E by (done || lia). done.
Qed.

Lemma is_subset_of_contains p q :
  perms_wf p → is_subset_of p q = perms_contains q p.
Proof.
  intros. apply eq_bool_prop_intro. rewrite !Is_true_true.
  by rewrite is_subset_of_spec, contains_spec.
Qed.

Lemma is_subset_of_refl p : perms_wf p → is_subset_of p p = true.
Proof. intros. by rewrite is_subset_of_spec. Qed.

Lemma is_subset_of_trans p q r :
  perms_wf p → perms_wf q →
  is_subset_of p q = true → is_subset_of q r = true → is_subset_of p r = true.
Proof. intros Hp Hq. rewrite !is_subset_of_spec by done. eauto. Qed.

(** A subset grants nothing its superset does not. *)
Lemma contains_mono p q perm :
  perms_wf p → is_subset_of p q = true → perms_contains p perm = true → perms_contains q perm = true.
Proof. intros Hp. rewrite is_subset_of_spec, !contains_spec by done. eauto. Qed.

#[export] Hint Resolve is_subset_of_refl is_subset_of_trans contains_mono : atom.
