(* ===== verification/Thread.v ===== *)
(** * Threads: control blocks, the global thread list and CPU contexts

    Models [kernel/src/thread.rs]: [ThreadState], [ThreadPriority],
    [CpuContext], [Thread], [ThreadList] and the free functions that wrap the
    global [THREAD_LIST].  A thread list is a Rocq list in insertion order;
    [iter().find] takes the first match, as the source does. *)

From S2P Require Import Prelude Cap.

(** ** Data *)

Inductive ThreadState := Running | Ready | Blocked | Exited.

#[export] Instance ThreadState_eq_dec : EqDecision ThreadState.
Proof. solve_decision. Defined.

Inductive ThreadPriority := PrioIdle | PrioLow | PrioNormal | PrioHigh.

#[export] Instance ThreadPriority_eq_dec : EqDecision ThreadPriority.
Proof. solve_decision. Defined.

(** [priority as usize] *)
Definition prio_index (p : ThreadPriority) : nat :=
  match p with PrioIdle => 0 | PrioLow => 1 | PrioNormal => 2 | PrioHigh => 3 end.

(** The derived [Ord] compares discriminants. *)
Definition prio_lt (a b : ThreadPriority) : bool := (prio_index a <? prio_index b)%nat.
Definition prio_max (a b : ThreadPriority) : ThreadPriority := if prio_lt a b then b else a.

Definition STACK_CANARY : Z := 0xDEADBEEFCAFEBABE.

(** [arch/gdt.rs] selectors *)
Definition KERNEL_CODE_SELECTOR : Z := 0x08.
Definition KERNEL_DATA_SELECTOR : Z := 0x10.
Definition USER_CODE_SELECTOR : Z := Z.lor 0x18 3.
Definition USER_DATA_SELECTOR : Z := Z.lor 0x20 3.

Record CpuContext := mkCtx {
  rax : Z; rbx : Z; rcx : Z; rdx : Z; rsi : Z; rdi : Z; rbp : Z; rsp : Z;
  r8 : Z; r9 : Z; r10 : Z; r11 : Z; r12 : Z; r13 : Z; r14 : Z; r15 : Z;
  rip : Z; rflags : Z;
  cs : Z; ss : Z; ds : Z; es : Z; fs : Z; gs : Z;
  cr3 : Z;
}.

Definition CpuContext_zero : CpuContext :=
  mkCtx 0 0 0 0 0 0 0 0 0 0 0 0 0 0 0 0 0 0 0 0 0 0 0 0 0.

Definition CpuContext_new (entry_point stack_pointer page_table : Z) : CpuContext :=
  mkCtx 0 0 0 0 0 0 0 stack_pointer 0 0 0 0 0 0 0 0 entry_point 0x200
    0x08 0x10 0x10 0x10 0x10 0x10 page_table.

Definition CpuContext_new_user (entry_point user_stack page_table : Z) : CpuContext :=
  mkCtx 0 0 0 0 0 0 0 (wrap64 (user_stack - 16)) 0 0 0 0 0 0 0 0 entry_point 0x202
    USER_CODE_SELECTOR USER_DATA_SELECTOR USER_DATA_SELECTOR USER_DATA_SELECTOR
    USER_DATA_SELECTOR USER_DATA_SELECTOR page_table.

Record Thread := mkThread {
  th_id : Z;
  th_state : ThreadState;
  th_context : CpuContext;
  th_kernel_stack : Z;
  th_kernel_stack_size : Z;
  th_address_space : Z;
  th_priority : ThreadPriority;
  th_name : string;
  th_capability_table : CapabilityTable;
}.

Definition set_state (t : Thread) (s : ThreadState) : Thread :=
  mkThread (th_id t) s (th_context t) (th_kernel_stack t) (th_kernel_stack_size t)
    (th_address_space t) (th_priority t) (th_name t) (th_capability_table t).

Definition set_context (t : Thread) (c : CpuContext) : Thread :=
  mkThread (th_id t) (th_state t) c (th_kernel_stack t) (th_kernel_stack_size t)
    (th_address_space t) (th_priority t) (th_name t) (th_capability_table t).

Definition set_table (t : Thread) (ct : CapabilityTable) : Thread :=
  mkThread (th_id t) (th_state t) (th_context t) (th_kernel_stack t) (th_kernel_stack_size t)
    (th_address_space t) (th_priority t) (th_name t) ct.

(** ** Creation and per-thread operations *)

(** [ThreadId::new]: the identifier and the counter after [fetch_add]. *)
Definition ThreadId_new (next : Z) : Z * Z := (next, wrap64 (next + 1)).

(** The lowest word of the kernel stack, where the canary lives. *)
Definition canary_addr (kernel_stack kernel_stack_size : Z) : Z :=
  wrap64 (kernel_stack - kernel_stack_size).

(** [Thread::new] draws an identifier and writes the canary word. *)
Definition Thread_new (next_id : Z) (m : Memory)
    (entry_point kernel_stack kernel_stack_size address_space : Z)
    (priority : ThreadPriority) (name : string) : Thread * Z * Memory :=
  let '(id, next') := ThreadId_new next_id in
  let m' := mem_write m (canary_addr kernel_stack kernel_stack_size) STACK_CANARY in
  (mkThread id Ready (CpuContext_new entry_point kernel_stack address_space)
     kernel_stack kernel_stack_size address_space priority name (CapabilityTable_new id),
   next', m').

Definition Thread_new_idle (next_id : Z) (m : Memory)
    (entry_point kernel_stack kernel_stack_size : Z) : Thread * Z * Memory :=
  Thread_new next_id m entry_point kernel_stack kernel_stack_size 0 PrioIdle "idle".

Definition validate_stack (m : Memory) (t : Thread) : bool :=
  mem_read m (canary_addr (th_kernel_stack t) (th_kernel_stack_size t)) =? STACK_CANARY.

Definition is_runnable (t : Thread) : bool :=
  match th_state t with Ready | Running => true | _ => false end.

(** ** The thread list *)

Definition has_id (id : Z) (t : Thread) : bool := th_id t =? id.

Definition lookup_thread (ths : list Thread) (id : Z) : option Thread :=
  find_first (has_id id) ths.

Definition add_thread (ths : list Thread) (t : Thread) : list Thread := ths ++ [t].

Definition remove_thread (ths : list Thread) (id : Z) : list Thread * option Thread :=
  (remove_first (has_id id) ths, lookup_thread ths id).

Definition find_thread (ths : list Thread) (id : Z) : option Z :=
  th_id <$> lookup_thread ths id.

Definition get_runnable_threads (ths : list Thread) : list Z :=
  th_id <$> base.filter (λ t, is_runnable t = true) ths.

Definition set_thread_state (ths : list Thread) (id : Z) (s : ThreadState)
    : list Thread * bool :=
  match lookup_thread ths id with
  | Some _ => (update_first (has_id id) (λ t, set_state t s) ths, true)
  | None => (ths, false)
  end.

Record ThreadStats := mkThreadStats {
  ts_total : nat; ts_running : nat; ts_ready : nat; ts_blocked : nat; ts_exited : nat;
}.

(** One iteration of the counting loop of [get_stats]. *)
Definition count_thread (st : ThreadStats) (t : Thread) : ThreadStats :=
  let '(mkThreadStats n ru re bl ex) := st in
  match th_state t with
  | Running => mkThreadStats n (S ru) re bl ex
  | Ready => mkThreadStats n ru (S re) bl ex
  | Blocked => mkThreadStats n ru re (S bl) ex
  | Exited => mkThreadStats n ru re bl (S ex)
  end.

Definition get_thread_stats (ths : list Thread) : ThreadStats :=
  foldl count_thread (mkThreadStats (length ths) 0 0 0 0) ths.

(** [with_contexts]: the closure receives the [from] context by mutable
    reference and the [to] context by shared reference (a copy when both are
    the same thread); it returns the new [from] context and a result. *)
Definition with_contexts {R} (ths : list Thread) (from_id to_id : Z)
    (f : CpuContext → CpuContext → CpuContext * R) : list Thread * option R :=
  match lookup_thread ths from_id, lookup_thread ths to_id with
  | Some from, Some to =>
      let '(c, r) := f (th_context from) (th_context to) in
      (update_first (has_id from_id) (λ t, set_context t c) ths, Some r)
  | _, _ => (ths, None)
  end.

(** *** Capability operations of the thread list *)

Definition validate_thread_capability (ths : list Thread) (tid h : Z)
    (required : CapPermissions) : result unit CapError :=
  match lookup_thread ths tid with
  | None => Err CapNotFound
  | Some t =>
      match table_validate (th_capability_table t) h required with
      | Ok _ => Ok tt
      | Err e => Err e
      end
  end.

Definition add_thread_capability (ths : list Thread) (tid : Z) (cap : Capability)
    : list Thread * result Z CapError :=
  match lookup_thread ths tid with
  | None => (ths, Err CapNotFound)
  | Some t =>
      let '(ct, r) := table_insert (th_capability_table t) cap in
      (update_first (has_id tid) (λ t, set_table t ct) ths, r)
  end.

Definition remove_thread_capability (ths : list Thread) (tid h : Z)
    : list Thread * option Capability :=
  match lookup_thread ths tid with
  | None => (ths, None)
  | Some t =>
      let '(ct, r) := table_remove (th_capability_table t) h in
      (update_first (has_id tid) (λ t, set_table t ct) ths, r)
  end.

Definition thread_has_capability (ths : list Thread) (tid h : Z) : bool :=
  match lookup_thread ths tid with
  | Some t => table_contains (th_capability_table t) h
  | None => false
  end.

(** The loop of [validate_capability_by_type] over [capability_table.list()]. *)
Definition validate_thread_capability_by_type (ths : list Thread) (tid : Z)
    (required : CapPermissions) (resource_filter : ResourceType → bool) : bool :=
  match lookup_thread ths tid with
  | None => false
  | Some t =>
      existsb (λ h,
        match table_get (th_capability_table t) h with
        | Some cap => resource_filter (cap_resource cap) && has_permission cap required
        | None => false
        end) (table_list (th_capability_table t))
  end.

Definition kernel_stack_top (ths : list Thread) (tid : Z) : option Z :=
  th_kernel_stack <$> lookup_thread ths tid.

Definition snapshot_context (ths : list Thread) (tid : Z) : option CpuContext :=
  th_context <$> lookup_thread ths tid.

(** ** Context validation before [iret] *)

Definition is_canonical (addr : Z) : bool :=
  let sign_extension := Z.shiftr addr 48 in
  (sign_extension =? 0) || (sign_extension =? 0xFFFF).

Inductive CtxError :=
| NonCanonicalRipOrRsp | UserCsInvalid | UserSsInvalid | KernelCsInvalid | KernelSsInvalid.

Definition validate_context_for_iret (target : CpuContext) : result unit CtxError :=
  if negb (is_canonical (rip target)) || negb (is_canonical (rsp target)) then
    Err NonCanonicalRipOrRsp
  else if Z.land (cs target) 3 =? 3 then
    if negb (cs target =? USER_CODE_SELECTOR) then Err UserCsInvalid
    else if negb (ss target =? USER_DATA_SELECTOR) then Err UserSsInvalid
    else Ok tt
  else
    if negb (cs target =? KERNEL_CODE_SELECTOR) then Err KernelCsInvalid
    else if negb (ss target =? KERNEL_DATA_SELECTOR) then Err KernelSsInvalid
    else Ok tt.

(** ** Lemmas *)

Lemma lookup_thread_Some ths id t :
  lookup_thread ths id = Some t → th_id t = id ∧ t ∈ ths.
Proof.
  intros [H ?]%find_first_Some. unfold has_id in H. split; [lia|done].
Qed.

Lemma lookup_thread_None ths id :
  lookup_thread ths id = None ↔ id ∉ (th_id <$> ths).
Proof.
  unfold lookup_thread. rewrite find_first_None. unfold has_id. split.
  - intros H (t & -> & Ht)%list_elem_of_fmap. specialize (H t Ht). lia.
  - intros H t Ht. apply Z.eqb_neq. intros <-. apply H. by apply list_elem_of_fmap_2.
Qed.

Lemma lookup_update_thread ths id id' f :
  (∀ t, th_id (f t) = th_id t) →
  lookup_thread (update_first (has_id id) f ths) id' =
    if decide (id = id') then f <$> lookup_thread ths id' else lookup_thread ths id'.
Proof.
  intros Hf. unfold lookup_thread.
  induction ths as [|t ths IH]; simpl; [by case_decide|].
  unfold has_id in *.
  destruct (th_id t =? id) eqn:E1; simpl; rewrite ?Hf.
  - apply Z.eqb_eq in E1 as <-. case_decide as E; [subst; by rewrite Z.eqb_refl|].
    by rewrite (proj2 (Z.eqb_neq _ _) E).
  - destruct (th_id t =? id') eqn:E2; [|done].
    case_decide; [|done]. lia.
Qed.

Lemma lookup_add_thread ths t id :
  lookup_thread (add_thread ths t) id =
    match lookup_thread ths id with
    | Some t' => Some t'
    | None => if decide (th_id t = id) then Some t else None
    end.
Proof.
  unfold lookup_thread, add_thread.
  induction ths as [|t' ths IH]; simpl.
  - unfold has_id. case_decide; [subst; by rewrite Z.eqb_refl|].
    by rewrite (proj2 (Z.eqb_neq _ _)).
  - by destruct (has_id id t').
Qed.

Lemma update_first_ids p f (ths : list Thread) :
  (∀ t, th_id (f t) = th_id t) → th_id <$> update_first p f ths = th_id <$> ths.
Proof. apply map_update_first. Qed.

Lemma set_thread_state_ids ths id s : th_id <$> (set_thread_state ths id s).1 = th_id <$> ths.
Proof. unfold set_thread_state. case_match; [|done]. by apply update_first_ids. Qed.

(** The capability thread [tid] holds under handle [h]. *)
Definition thread_cap (ths : list Thread) (tid h : Z) : option Capability :=
  t ← lookup_thread ths tid; capabilities (th_capability_table t) !! h.

Lemma lookup_set_thread_state ths tid s tid' :
  lookup_thread (set_thread_state ths tid s).1 tid' =
    if decide (tid = tid') then (λ t, set_state t s) <$> lookup_thread ths tid'
    else lookup_thread ths tid'.
Proof.
  unfold set_thread_state. destruct (lookup_thread ths tid) eqn:E; simpl.
  - by rewrite lookup_update_thread.
  - case_decide; [subst; by rewrite E|done].
Qed.

Lemma thread_cap_set_state ths tid s tid' h :
  thread_cap (set_thread_state ths tid s).1 tid' h = thread_cap ths tid' h.
Proof.
  unfold thread_cap. rewrite lookup_set_thread_state.
  case_decide; [|done]. by destruct (lookup_thread ths tid').
Qed.

Lemma thread_cap_remove ths tid h tid' h' :
  thread_cap (remove_thread_capability ths tid h).1 tid' h' =
    if decide (tid = tid' ∧ h = h') then None else thread_cap ths tid' h'.
Proof.
  unfold thread_cap, remove_thread_capability.
  destruct (lookup_thread ths tid) as [t|] eqn:E; simpl.
  - rewrite lookup_update_thread by done. case_decide as E1; [subst tid'|].
    + rewrite E; simpl. case_decide as E2.
      * destruct E2 as [_ <-]. by rewrite lookup_delete_eq.
      * rewrite lookup_delete_ne; naive_solver.
    + case_decide; naive_solver.
  - case_decide as E1; [|done]. destruct E1 as [<- <-]. by rewrite E.
Qed.

Lemma remove_thread_capability_result ths tid h :
  (remove_thread_capability ths tid h).2 = thread_cap ths tid h.
Proof.
  unfold thread_cap, remove_thread_capability. by destruct (lookup_thread ths tid).
Qed.

Lemma remove_thread_capability_ids ths tid h :
  th_id <$> (remove_thread_capability ths tid h).1 = th_id <$> ths.
Proof.
  unfold remove_thread_capability. case_match; [|done]. by apply update_first_ids.
Qed.

Lemma add_thread_capability_ids ths tid c :
  th_id <$> (add_thread_capability ths tid c).1 = th_id <$> ths.
Proof.
  unfold add_thread_capability. case_match; [|done].
  case_match. by apply update_first_ids.
Qed.

(** Adding a capability succeeds exactly for a known thread without that handle,
    and then changes that one table entry only. *)
Lemma add_thread_capability_spec ths tid c :
  match lookup_thread ths tid, thread_cap ths tid (cap_handle c) with
  | None, _ => add_thread_capability ths tid c = (ths, Err CapNotFound)
  | Some _, Some _ =>
      (add_thread_capability ths tid c).2 = Err CapAlreadyExists ∧
      ∀ tid' h', thread_cap (add_thread_capability ths tid c).1 tid' h' = thread_cap ths tid' h'
  | Some _, None =>
      (add_thread_capability ths tid c).2 = Ok (cap_handle c) ∧
      ∀ tid' h', thread_cap (add_thread_capability ths tid c).1 tid' h' =
        if decide (tid = tid' ∧ cap_handle c = h') then Some c else thread_cap ths tid' h'
  end.
Proof.
  unfold thread_cap, add_thread_capability, table_insert.
  destruct (lookup_thread ths tid) as [t|] eqn:E; simpl; [|done].
  destruct (capabilities (th_capability_table t) !! cap_handle c) as [c'|] eqn:Ec; simpl;
    (split; [done|]); intros tid' h'; rewrite lookup_update_thread by done.
  - case_decide; [subst|done]. by rewrite E.
  - case_decide as E1; [subst tid'|case_decide; naive_solver].
    rewrite E; simpl. case_decide as E2.
    + destruct E2 as [_ <-]. by rewrite lookup_insert_eq.
    + rewrite lookup_insert_ne; naive_solver.
Qed.

Lemma thread_has_capability_spec ths tid h :
  thread_has_capability ths tid h = bool_decide (is_Some (thread_cap ths tid h)).
Proof.
  unfold thread_has_capability, thread_cap, table_contains.
  by destruct (lookup_thread ths tid).
Qed.
