(* ===== verification/CapManager.v ===== *)
(** * The global capability manager

    The operational half of [kernel/src/cap.rs]: the handle counter, the global
    capability map and the audit log ([CapabilityManager]), with registration,
    derivation, transfer and recursive revocation.  The operations that touch
    thread tables take the thread list of [Thread.v] next to the manager. *)

From S2P Require Import Prelude Cap Thread.

(** ** State *)

Record CapManager := mkCM {
  next_handle : Z;
  global_caps : gmap Z Capability;
  audit_log : list AuditLogEntry;
}.

Definition CapManager_new : CapManager := mkCM 1 ∅ [].

Definition MAX_AUDIT_LOG_ENTRIES : nat := 1000.

Definition set_global_caps (cm : CapManager) (g : gmap Z Capability) : CapManager :=
  mkCM (next_handle cm) g (audit_log cm).

(** ** Operations *)

(** The bounded [push_back] of the audit log. *)
Definition audit_push (log : list AuditLogEntry) (entry : AuditLogEntry) : list AuditLogEntry :=
  (if (MAX_AUDIT_LOG_ENTRIES <=? length log)%nat then tail log else log) ++ [entry].

Definition log_audit (cm : CapManager) (entry : AuditLogEntry) : CapManager :=
  mkCM (next_handle cm) (global_caps cm) (audit_push (audit_log cm) entry).

Definition get_audit_log (cm : CapManager) (max_entries : nat) : list AuditLogEntry :=
  let count := (max_entries `min` length (audit_log cm))%nat in
  take count (reverse (audit_log cm)).

Definition register (now : Z) (cm : CapManager) (cap : Capability)
    : CapManager * result Z CapError :=
  let h := cap_handle cap in
  match global_caps cm !! h with
  | Some _ => (cm, Err CapAlreadyExists)
  | None =>
      let cm := set_global_caps cm (<[h := cap]> (global_caps cm)) in
      (log_audit cm (AuditLogEntry_new now AuditCreate (cap_owner cap) h), Ok h)
  end.

Definition create_root_capability (now : Z) (cm : CapManager) (resource : ResourceType)
    (owner : Z) (permissions : CapPermissions) : CapManager * result Capability CapError :=
  let '(cap, next') := Capability_new_root (next_handle cm) resource owner permissions in
  let cm := mkCM next' (global_caps cm) (audit_log cm) in
  match register now cm cap with
  | (cm, Ok _) => (cm, Ok cap)
  | (cm, Err e) => (cm, Err e)
  end.

(** [CapabilityManager::revoke].  Each call that finds its handle removes one
    capability before it recurses, so [S (size caps)] calls deep is enough;
    [None] is running out of fuel. *)
Abbreviation RevokeState := (CapManager * list Thread)%type.

Definition revoke_one (now revoker handle : Z) (cap : Capability) (st : RevokeState)
    : RevokeState :=
  let '(cm, ths) := st in
  let cm := set_global_caps cm (delete handle (global_caps cm)) in
  let '(ths, _) := remove_thread_capability ths (cap_owner cap) handle in
  (log_audit cm (AuditLogEntry_new now AuditRevoke revoker handle), ths).

(** The loop over the children; [rec] is the recursive call, whose error is
    ignored as in [if let Ok(..)]. *)
Fixpoint revoke_children (rec : Z → RevokeState → option (RevokeState * result (list Z) CapError))
    (children : list Z) (st : RevokeState) (revoked : list Z)
    : option (RevokeState * list Z) :=
  match children with
  | [] => Some (st, revoked)
  | child :: children =>
      match rec child st with
      | None => None
      | Some (st, Ok child_revoked) => revoke_children rec children st (revoked ++ child_revoked)
      | Some (st, Err _) => revoke_children rec children st revoked
      end
  end.

Fixpoint revoke_fuel (fuel : nat) (now revoker handle : Z) (st : RevokeState)
    : option (RevokeState * result (list Z) CapError) :=
  match fuel with
  | O => None
  | S fuel =>
      match global_caps st.1 !! handle with
      | None => Some (st, Err CapNotFound)
      | Some cap =>
          match revoke_children (revoke_fuel fuel now revoker) (cap_children cap)
                  (revoke_one now revoker handle cap st) [handle] with
          | None => None
          | Some (st, revoked) => Some (st, Ok revoked)
          end
      end
  end.

Definition revoke_capability (now : Z) (cm : CapManager) (ths : list Thread)
    (handle revoker : Z) : option (RevokeState * result (list Z) CapError) :=
  revoke_fuel (S (size (global_caps cm))) now revoker handle (cm, ths).

Definition query_parent (cm : CapManager) (h : Z) : result (option Z) CapError :=
  match global_caps cm !! h with
  | None => Err CapNotFound
  | Some cap => Ok (cap_parent cap)
  end.

Definition query_children (cm : CapManager) (h : Z) : result (list Z) CapError :=
  match global_caps cm !! h with
  | None => Err CapNotFound
  | Some cap => Ok (cap_children cap)
  end.

Definition lookup_capability (cm : CapManager) (h : Z) : option Capability :=
  global_caps cm !! h.

(** [stats]: the counters of [by_type], summed over the map's values. *)
Definition resource_index (r : ResourceType) : nat :=
  match r with
  | RThread _ => 0
  | RMemoryRegion _ _ _ => 1
  | RIpcPort _ => 2
  | RIrq _ => 3
  | RDevice _ => 4
  | RDmaBuffer _ _ => 5
  | RSharedMemoryRegion _ => 6
  end.

Definition bump (l : list nat) (i : nat) : list nat := alter S i l.

Definition caps_by_type (cm : CapManager) : list nat :=
  foldl (λ acc e, bump acc (resource_index (cap_resource e.2))) (replicate 7 0%nat)
    (btree_entries (global_caps cm)).

Record CapabilityStats := mkCapStats {
  cs_total : nat; cs_thread : nat; cs_memory : nat; cs_ipc : nat;
  cs_irq : nat; cs_device : nat; cs_dma : nat;
}.

Definition get_capability_stats (cm : CapManager) : CapabilityStats :=
  let by_type := caps_by_type cm in
  let at_ i := default 0%nat (by_type !! i) in
  mkCapStats (size (global_caps cm)) (at_ 0%nat) (at_ 1%nat) (at_ 2%nat) (at_ 3%nat) (at_ 4%nat) (at_ 5%nat).

Definition transfer_capability (now : Z) (cm : CapManager) (ths : list Thread)
    (h source target : Z) : (CapManager * list Thread) * result unit CapError :=
  match remove_thread_capability ths source h with
  | (ths, None) => ((cm, ths), Err CapNotFound)
  | (ths, Some cap) =>
      if negb (is_owned_by cap source) then
        let '(ths, _) := add_thread_capability ths source cap in
        ((cm, ths), Err CapNotOwner)
      else if negb (has_permission cap PERM_GRANT) then
        let '(ths, _) := add_thread_capability ths source cap in
        ((cm, ths), Err CapPermissionDenied)
      else
        match add_thread_capability ths target (set_cap_owner cap target) with
        | (ths, Err _) => ((cm, ths), Err CapAlreadyExists)
        | (ths, Ok _) =>
            let cm :=
              match global_caps cm !! h with
              | Some g => set_global_caps cm (<[h := set_cap_owner g target]> (global_caps cm))
              | None => cm
              end in
            ((log_audit cm (AuditLogEntry_new_transfer now source h target), ths), Ok tt)
        end
  end.

Definition derive_capability (now : Z) (cm : CapManager) (ths : list Thread)
    (parent_handle owner_thread new_owner : Z) (reduced_perms : CapPermissions)
    : (CapManager * list Thread) * result Z CapError :=
  if negb (thread_has_capability ths owner_thread parent_handle) then
    ((cm, ths), Err CapNotFound)
  else
    match global_caps cm !! parent_handle with
    | None => ((cm, ths), Err CapNotFound)
    | Some parent =>
        if negb (is_owned_by parent owner_thread) then ((cm, ths), Err CapNotOwner)
        else if negb (has_permission parent PERM_GRANT) then ((cm, ths), Err CapPermissionDenied)
        else
          match Capability_derive (next_handle cm) parent new_owner reduced_perms with
          | Err e => ((cm, ths), Err e)
          | Ok (parent', child, next') =>
              let g := <[parent_handle := parent']> (global_caps cm) in
              let cm := mkCM next' (<[cap_handle child := child]> g) (audit_log cm) in
              match add_thread_capability ths new_owner child with
              | (ths, Err e) => ((cm, ths), Err e)
              | (ths, Ok _) =>
                  ((log_audit cm
                      (AuditLogEntry_new_derive now owner_thread (cap_handle child) parent_handle),
                    ths),
                   Ok (cap_handle child))
              end
          end
    end.

(** ** The derivation graph *)

(** [b] is recorded as a child of the live capability [a]. *)
Definition child_of (G : gmap Z Capability) (a b : Z) : Prop :=
  ∃ c, G !! a = Some c ∧ b ∈ cap_children c.

(** [D] is the set of live capabilities derived, directly or not, from [h]. *)
Definition descendants (G : gmap Z Capability) (h : Z) (D : list Z) : Prop :=
  ∀ x, x ∈ D ↔ rtc (child_of G) h x ∧ is_Some (G !! x).

(** The effect of removing the capabilities [D] on the manager, the audit log
    and the thread tables. *)
Record removes (now revoker : Z) (D : list Z) (st st' : RevokeState) : Prop := {
  rm_nodup : NoDup D;
  rm_live : ∀ x, x ∈ D → is_Some (global_caps st.1 !! x);
  rm_caps : ∀ x, global_caps st'.1 !! x = if decide (x ∈ D) then None else global_caps st.1 !! x;
  rm_tables : ∀ t h, thread_cap st'.2 t h =
    if decide (h ∈ D ∧ cap_owner <$> global_caps st.1 !! h = Some t) then None
    else thread_cap st.2 t h;
  rm_ids : th_id <$> st'.2 = th_id <$> st.2;
  rm_next : next_handle st'.1 = next_handle st.1;
  rm_log : audit_log st'.1 =
    foldl (λ l h, audit_push l (AuditLogEntry_new now AuditRevoke revoker h)) (audit_log st.1) D;
}.

(** Every child of a removed capability is gone as well. *)
Definition closes (D : list Z) (st st' : RevokeState) : Prop :=
  ∀ x y, x ∈ D → child_of (global_caps st.1) x y → global_caps st'.1 !! y = None.

Section revoke.
Context (now revoker : Z).
Abbreviation removes := (removes now revoker).

Lemma removes_nil st : removes [] st st.
Proof.
  split; try done; [apply NoDup_nil_2|set_solver|..]; intros; rewrite decide_False; set_solver.
Qed.

Lemma removes_one h cap st :
  global_caps st.1 !! h = Some cap → removes [h] st (revoke_one now revoker h cap st).
Proof.
  destruct st as [cm ths]. simpl. intros Hh. unfold revoke_one.
  destruct (remove_thread_capability ths (cap_owner cap) h) as [ths' r] eqn:E.
  assert (ths' = (remove_thread_capability ths (cap_owner cap) h).1) as -> by by rewrite E.
  split; simpl.
  - apply NoDup_singleton.
  - set_solver.
  - intros x. case_decide as Hx; [|rewrite lookup_delete_ne; set_solver].
    apply list_elem_of_singleton in Hx as ->. apply lookup_delete_eq.
  - intros t h'. rewrite thread_cap_remove. apply decide_ext.
    rewrite list_elem_of_singleton. split.
    + intros [? ?]. subst. rewrite Hh. split; reflexivity.
    + intros [-> Ho]. rewrite Hh in Ho. by injection Ho.
  - apply remove_thread_capability_ids.
  - done.
  - done.
Qed.

Lemma removes_app D1 D2 st1 st2 st3 :
  removes D1 st1 st2 → removes D2 st2 st3 → removes (D1 ++ D2) st1 st3.
Proof.
  intros H1 H2.
  assert (∀ x, x ∈ D2 → x ∉ D1) as Hdis.
  { intros x Hx Hx1. destruct (rm_live _ _ _ _ _ H2 x Hx) as [c Hc].
    rewrite (rm_caps _ _ _ _ _ H1) in Hc. by rewrite decide_True in Hc. }
  split.
  - apply NoDup_app. split_and!; [eapply rm_nodup; eauto|set_solver|eapply rm_nodup; eauto].
  - intros x [?|Hx]%elem_of_app; [by eapply rm_live|].
    destruct (rm_live _ _ _ _ _ H2 x Hx) as [c Hc].
    rewrite (rm_caps _ _ _ _ _ H1) in Hc. by case_decide.
  - intros x. rewrite (rm_caps _ _ _ _ _ H2), (rm_caps _ _ _ _ _ H1).
    repeat case_decide; set_solver.
  - intros t h. rewrite (rm_tables _ _ _ _ _ H2), (rm_tables _ _ _ _ _ H1),
      (rm_caps _ _ _ _ _ H1).
    repeat case_decide; set_solver.
  - rewrite (rm_ids _ _ _ _ _ H2). eapply rm_ids; eauto.
  - rewrite (rm_next _ _ _ _ _ H2). eapply rm_next; eauto.
  - rewrite foldl_app, (rm_log _ _ _ _ _ H2). by rewrite (rm_log _ _ _ _ _ H1).
Qed.

Lemma removes_child_of D st st' x y :
  removes D st st' → child_of (global_caps st'.1) x y → child_of (global_caps st.1) x y.
Proof.
  intros H (c & Hc & Hy). exists c. split; [|done].
  rewrite (rm_caps _ _ _ _ _ H) in Hc. by case_decide.
Qed.

Lemma removes_gone D st st' x :
  removes D st st' → global_caps st.1 !! x = None → global_caps st'.1 !! x = None.
Proof. intros H Hx. rewrite (rm_caps _ _ _ _ _ H). by case_decide. Qed.

Lemma closes_app D1 D2 st1 st2 st3 :
  removes D1 st1 st2 → removes D2 st2 st3 →
  closes D1 st1 st2 → closes D2 st2 st3 → closes (D1 ++ D2) st1 st3.
Proof.
  intros H1 H2 C1 C2 x y [Hx|Hx]%elem_of_app (c & Hc & Hy).
  - eapply removes_gone; [done|]. eapply C1; [done|]. by exists c.
  - eapply C2; [done|]. exists c. split; [|done].
    rewrite (rm_caps _ _ _ _ _ H1). case_decide; [|done].
    destruct (rm_live _ _ _ _ _ H2 x Hx) as [c' Hc'].
    rewrite (rm_caps _ _ _ _ _ H1) in Hc'. by rewrite decide_True in Hc'.
Qed.

Lemma removes_size D st st' :
  removes D st st' → (size (global_caps st'.1) ≤ size (global_caps st.1))%nat.
Proof.
  intros H. apply map_subseteq_size. apply map_subseteq_spec. intros x c Hc.
  rewrite (rm_caps _ _ _ _ _ H) in Hc. by case_decide.
Qed.

(** What one call of [revoke] promises, given enough fuel. *)
Definition revoke_ok (st : RevokeState) (h : Z)
    (res : option (RevokeState * result (list Z) CapError)) : Prop :=
  match global_caps st.1 !! h with
  | None => res = Some (st, Err CapNotFound)
  | Some _ => ∃ st' D, res = Some (st', Ok (h :: D)) ∧ removes (h :: D) st st' ∧
      closes (h :: D) st st' ∧ ∀ x, x ∈ h :: D → rtc (child_of (global_caps st.1)) h x
  end.

Lemma revoke_children_spec fuel children :
  (∀ st h, (size (global_caps st.1) < fuel)%nat →
     revoke_ok st h (revoke_fuel fuel now revoker h st)) →
  ∀ st R, (size (global_caps st.1) < fuel)%nat →
  ∃ st' D, revoke_children (revoke_fuel fuel now revoker) children st R = Some (st', R ++ D) ∧
    removes D st st' ∧ closes D st st' ∧
    (∀ x, x ∈ D → ∃ c, c ∈ children ∧ rtc (child_of (global_caps st.1)) c x) ∧
    (∀ c, c ∈ children → global_caps st'.1 !! c = None).
Proof.
  intros Hrec. induction children as [|c children IH]; intros st R Hsz; simpl.
  { exists st, []. rewrite app_nil_r. split_and!; [done|apply removes_nil|intros ??; set_solver..]. }
  pose proof (Hrec st c Hsz) as Hc. unfold revoke_ok in Hc.
  destruct (global_caps st.1 !! c) as [cc|] eqn:Ec.
  - destruct Hc as (st1 & D1 & -> & Hrm & Hcl & Hreach).
    destruct (IH st1 (R ++ c :: D1)) as (st2 & D2 & -> & Hrm2 & Hcl2 & Hreach2 & Hgone).
    { eapply Nat.le_lt_trans; [by eapply removes_size|done]. }
    exists st2, ((c :: D1) ++ D2). rewrite <-app_assoc.
    split_and!; [done|by eapply removes_app|by eapply closes_app|..].
    + intros x [Hx|Hx]%elem_of_app; [exists c; set_solver|].
      destruct (Hreach2 x Hx) as (c' & ? & Hr). exists c'. split; [set_solver|].
      revert Hr. apply rtc_subrel. intros ??. by apply removes_child_of with (c :: D1).
    + intros c' [->|?]%elem_of_cons; [|by apply Hgone].
      eapply removes_gone; [done|]. rewrite (rm_caps _ _ _ _ _ Hrm).
      rewrite decide_True; [done|set_solver].
  - rewrite Hc. destruct (IH st R Hsz) as (st2 & D2 & -> & Hrm2 & Hcl2 & Hreach2 & Hgone).
    exists st2, D2. split_and!; try done.
    + intros x Hx. destruct (Hreach2 x Hx) as (c' & ? & ?). exists c'. set_solver.
    + intros c' [->|?]%elem_of_cons; [by eapply removes_gone|by apply Hgone].
Qed.

Lemma revoke_fuel_spec fuel st h :
  (size (global_caps st.1) < fuel)%nat → revoke_ok st h (revoke_fuel fuel now revoker h st).
Proof.
  revert st h. induction fuel as [|fuel IH]; intros st h Hsz; [lia|].
  unfold revoke_ok. simpl. destruct (global_caps st.1 !! h) as [cap|] eqn:Eh; [|done].
  set (st1 := revoke_one now revoker h cap st).
  assert (removes [h] st st1) as Hrm by by apply removes_one.
  assert (global_caps st1.1 !! h = None) as Hgone.
  { rewrite (rm_caps _ _ _ _ _ Hrm). by rewrite decide_True by set_solver. }
  destruct (revoke_children_spec fuel (cap_children cap) IH st1 [h])
    as (st2 & D & -> & Hrm2 & Hcl2 & Hreach2 & Hgone2).
  { assert (global_caps st1.1 = delete h (global_caps st.1)) as ->.
    { apply map_eq. intros x. rewrite (rm_caps _ _ _ _ _ Hrm), lookup_delete.
      apply decide_ext. set_solver. }
    rewrite map_size_delete_Some by (by eexists).
    assert (size (global_caps st.1) ≠ 0%nat); [|lia].
    apply map_size_ne_0_lookup. exists h. by eexists. }
  exists st2, D. split_and!; [done|by apply (removes_app [h] D _ st1)|..].
  - intros x y Hx (c & Hc & Hy). apply elem_of_cons in Hx as [->|Hx]; [apply Hgone2; congruence|].
    apply (Hcl2 x); [done|]. exists c. split; [|done].
    rewrite (rm_caps _ _ _ _ _ Hrm). rewrite decide_False; [done|].
    intros ->%list_elem_of_singleton. apply (rm_live _ _ _ _ _ Hrm2) in Hx as [??]; congruence.
  - intros x [->|Hx]%elem_of_cons; [done|].
    destruct (Hreach2 x Hx) as (c & Hc & Hr). eapply rtc_l; [by exists cap|].
    revert Hr. apply rtc_subrel. intros ??. by apply removes_child_of with [h].
Qed.
End revoke.

Lemma revoke_capability_ok now cm ths h revoker :
  revoke_ok now revoker (cm, ths) h (revoke_capability now cm ths h revoker).
Proof. apply revoke_fuel_spec. simpl. lia. Qed.
