(* ===== verification/CapSafety.v ===== *)
(** * Safety of the capability system

    The invariant of the capability graph and the thread tables, its
    preservation by every operation of [CapManager.v], and the theorems about
    revocation, derivation and transfer that rest on it. *)

From S2P Require Import Prelude Cap Thread CapManager.

(** ** The invariant *)

(** A table entry [c] of thread [t] under handle [h] agrees with the live
    global capability [g]. *)
Record entry_ok (t h : Z) (c g : Capability) : Prop := {
  eo_handle : cap_handle c = h;
  eo_owner : cap_owner c = t;
  eo_gowner : cap_owner g = t;
  eo_perms : cap_permissions c = cap_permissions g;
  eo_resource : cap_resource c = cap_resource g;
}.

(** What a live capability [c] under handle [h] satisfies in the map [G]. *)
Record live_ok (next : Z) (G : gmap Z Capability) (h : Z) (c : Capability) : Prop := {
  lo_handle : cap_handle c = h;
  lo_range : 1 ≤ h < next;
  lo_perms : perms_wf (cap_permissions c);
  lo_children : ∀ b, b ∈ cap_children c → h < b < next;
  lo_child_parent : ∀ b d, b ∈ cap_children c → G !! b = Some d → cap_parent d = Some h;
  lo_parent : ∀ p, cap_parent c = Some p → ∃ d, G !! p = Some d ∧ h ∈ cap_children d ∧
    is_subset_of (cap_permissions c) (cap_permissions d) = true ∧ cap_resource c = cap_resource d;
}.

Record cap_wf (st : RevokeState) : Prop := {
  cw_next : 1 ≤ next_handle st.1 ≤ U64_MAX;
  cw_live : ∀ h c, global_caps st.1 !! h = Some c → live_ok (next_handle st.1) (global_caps st.1) h c;
  cw_tables : ∀ t h c, thread_cap st.2 t h = Some c →
    ∃ g, global_caps st.1 !! h = Some g ∧ entry_ok t h c g;
}.

(** ** Elementary facts *)

Lemma cap_wf_initial ths :
  (∀ t h, thread_cap ths t h = None) → cap_wf (CapManager_new, ths).
Proof.
  intros H. split; simpl.
  - unfold U64_MAX. lia.
  - intros h c. by rewrite lookup_empty.
  - intros t h c. by rewrite H.
Qed.

(** The audit log and the identity of the thread list do not matter. *)
Lemma cap_wf_ext cm ths cm' ths' :
  cap_wf (cm, ths) →
  next_handle cm' = next_handle cm → global_caps cm' = global_caps cm →
  (∀ t h c, thread_cap ths' t h = Some c → thread_cap ths t h = Some c) →
  cap_wf (cm', ths').
Proof.
  intros [H1 H2 H3] En Eg Et. split; simpl in *; rewrite ?En, ?Eg; [done..|]. eauto.
Qed.

Lemma cap_wf_fresh cm ths : cap_wf (cm, ths) → global_caps cm !! next_handle cm = None.
Proof.
  intros H. destruct (global_caps cm !! next_handle cm) eqn:E; [|done].
  apply (cw_live _ H) in E. apply lo_range in E. simpl in E. lia.
Qed.

Lemma cap_wf_table_owner cm ths t h c :
  cap_wf (cm, ths) → thread_cap ths t h = Some c → cap_owner c = t ∧ cap_handle c = h.
Proof. intros H Hc. apply (cw_tables _ H) in Hc as (g & _ & Ho). by destruct Ho. Qed.


(** A handle is held by at most one thread. *)
Lemma cap_wf_unique_holder cm ths t1 t2 h c1 c2 :
  cap_wf (cm, ths) → thread_cap ths t1 h = Some c1 → thread_cap ths t2 h = Some c2 → t1 = t2.
Proof.
  intros H (g1 & E1 & [])%(cw_tables _ H) (g2 & E2 & [])%(cw_tables _ H).
  simpl in *. congruence.
Qed.

#[export] Hint Resolve cap_wf_ext cap_wf_fresh : atom.

(** ** Preservation *)

Section preservation.
Context (now : Z).

(** A capability under the fresh handle [next], whose parent, if any, is live
    and records it, can be inserted. *)
Lemma live_ok_insert_fresh next G h c new :
  G !! next = None → next < U64_MAX → live_ok next G h c →
  (∀ b, b ∈ cap_children c → b ≠ next) →
  live_ok (next + 1) (<[next := new]> G) h c.
Proof.
  intros Hf Hn [] Hne. split; try done; try lia.
  - intros b Hb. specialize (lo_children0 b Hb). lia.
  - intros b d Hb. rewrite lookup_insert_ne by (intros ->; by eapply Hne). eauto.
  - intros p Hp. destruct (lo_parent0 p Hp) as (d & Hd & ?). exists d.
    rewrite lookup_insert_ne; [done|]. intros ->. congruence.
Qed.

Lemma cap_wf_add_entry cm ths t c g :
  cap_wf (cm, ths) → global_caps cm !! cap_handle c = Some g → entry_ok t (cap_handle c) c g →
  cap_wf (cm, (add_thread_capability ths t c).1).
Proof.
  intros H Hg He. pose proof (add_thread_capability_spec ths t c) as Ha.
  destruct (lookup_thread ths t) as [th|]; [|by rewrite Ha].
  destruct (thread_cap _ _ _) as [c0|]; destruct Ha as [_ Ha].
  - eapply cap_wf_ext; [done..|]. intros t' h' c'. by rewrite Ha.
  - destruct H as [H1 H2 H3]. split; [done..|]. intros t' h' c'. simpl. rewrite Ha.
    case_decide as E; [|apply H3]. destruct E as [<- <-]. intros [= <-]. by exists g.
Qed.

Lemma create_root_spec cm ths resource owner perms :
  cap_wf (cm, ths) → next_handle cm < U64_MAX →
  let cap := mkCap (next_handle cm) resource perms owner None [] in
  ∃ cm', create_root_capability now cm resource owner perms = (cm', Ok cap) ∧
    next_handle cm' = next_handle cm + 1 ∧
    global_caps cm' = <[next_handle cm := cap]> (global_caps cm).
Proof.
  intros H Hn cap. pose proof (cap_wf_fresh _ _ H) as Hf. pose proof (cw_next _ H).
  unfold create_root_capability, Capability_new_root, CapHandle_new, register. simpl in *.
  rewrite Hf. eexists. split_and!; [done| |done]. simpl. by rewrite wrap_succ64 by lia.
Qed.

Lemma cap_wf_create cm ths resource owner perms cm' cap :
  cap_wf (cm, ths) → next_handle cm < U64_MAX → perms_wf perms →
  create_root_capability now cm resource owner perms = (cm', Ok cap) →
  cap_wf (cm', ths) ∧ cap_wf (cm', (add_thread_capability ths owner cap).1).
Proof.
  intros H Hn Hp Hc.
  destruct (create_root_spec cm ths resource owner perms H Hn) as (cm2 & Hc2 & En & Eg).
  rewrite Hc in Hc2. simplify_eq. pose proof (cw_next _ H) as Hnx. simpl in Hnx.
  assert (cap_wf (cm2, ths)) as H'.
  { pose proof (cap_wf_fresh _ _ H) as Hf. split; simpl; rewrite ?En, ?Eg.
    - lia.
    - intros h c. rewrite lookup_insert_Some. intros [[<- <-]|[Hne Hc']].
      + split; simpl; try done; try lia; set_solver.
      + pose proof (cw_live _ H _ _ Hc') as Hl. apply live_ok_insert_fresh; try done.
        intros b Hb ->. apply (lo_children _ _ _ _ Hl) in Hb. simpl in Hb. lia.
    - intros t h c (g & Hg & He)%(cw_tables _ H). exists g. simpl in Hg.
      rewrite lookup_insert_ne; [done|]. intros <-. congruence. }
  split; [done|].
  eapply cap_wf_add_entry; [done|simpl; by rewrite Eg, lookup_insert_eq|by split].
Qed.

Lemma cap_wf_revoke cm ths h revoker st' r :
  cap_wf (cm, ths) → revoke_capability now cm ths h revoker = Some (st', r) → cap_wf st'.
Proof.
  intros H Hr. pose proof (revoke_capability_ok now cm ths h revoker) as Hs.
  rewrite Hr in Hs. unfold revoke_ok in Hs.
  simpl in Hs. destruct (global_caps cm !! h) as [cap|] eqn:Eh; [|by simplify_eq].
  destruct Hs as (st2 & D & ? & Hrm & Hcl & _). simplify_eq.
  split.
  - rewrite (rm_next _ _ _ _ _ Hrm). apply (cw_next _ H).
  - rewrite (rm_next _ _ _ _ _ Hrm). intros x c Hx.
    pose proof Hx as Hx'. rewrite (rm_caps _ _ _ _ _ Hrm) in Hx'. case_decide; [done|].
    destruct (cw_live _ H _ _ Hx') as []. split; try done.
    + intros b d Hb. rewrite (rm_caps _ _ _ _ _ Hrm). case_decide; [done|]. eauto.
    + intros p Hp. destruct (lo_parent0 p Hp) as (d & Hd & Hch & ?). exists d.
      split; [|done]. rewrite (rm_caps _ _ _ _ _ Hrm). rewrite decide_False; [done|].
      intros HpD. assert (global_caps st2.1 !! x = None); [|congruence].
      apply (Hcl p); [done|]. by exists d.
  - intros t x c. rewrite (rm_tables _ _ _ _ _ Hrm). case_decide as Hd; [done|].
    intros (g & Hg & He)%(cw_tables _ H). exists g. split; [|done].
    rewrite (rm_caps _ _ _ _ _ Hrm). rewrite decide_False; [done|].
    intros Hx. apply Hd. split; [done|]. rewrite Hg. simpl. f_equal. apply He.
Qed.

(** A successful derivation up to the thread-table insertion. *)
Lemma derive_graph_wf cm ths parent ph new_owner perms :
  cap_wf (cm, ths) → next_handle cm < U64_MAX → perms_wf perms →
  global_caps cm !! ph = Some parent →
  is_subset_of perms (cap_permissions parent) = true →
  let child := mkCap (next_handle cm) (cap_resource parent) perms new_owner (Some ph) [] in
  let g := <[next_handle cm := child]>
             (<[ph := push_child parent (next_handle cm)]> (global_caps cm)) in
  cap_wf (mkCM (next_handle cm + 1) g (audit_log cm), ths).
Proof.
  intros H Hn Hp Hph Hsub child g. pose proof (cw_next _ H) as Hnx. simpl in Hnx.
  pose proof (cap_wf_fresh _ _ H) as Hf.
  assert (ph ≠ next_handle cm) as Hne by congruence.
  assert (∀ x c, global_caps cm !! x = Some c → ∃ c', g !! x = Some c' ∧
    cap_permissions c' = cap_permissions c ∧ cap_resource c' = cap_resource c ∧
    cap_owner c' = cap_owner c ∧ cap_parent c' = cap_parent c ∧
    ∀ b, b ∈ cap_children c → b ∈ cap_children c') as Hmono.
  { intros x c Hx. subst g. rewrite lookup_insert_ne by congruence.
    destruct (decide (x = ph)) as [->|]; [|rewrite lookup_insert_ne by done; by exists c].
    rewrite lookup_insert_eq. simplify_eq. eexists. split_and!; try done. set_solver. }
  split; simpl.
  - lia.
  - intros x c. subst g. rewrite lookup_insert_Some. intros [[<- <-]|[Hx Hc]].
    { split; simpl; try done; try lia; try set_solver. intros p [= <-].
      exists (push_child parent (next_handle cm)). rewrite lookup_insert_ne by done.
      rewrite lookup_insert_eq. split_and!; try done. simpl. set_solver. }
    rewrite lookup_insert_Some in Hc. destruct Hc as [[<- <-]|[Hx' Hc]].
    + destruct (cw_live _ H _ _ Hph) as []. split; simpl in *; try done; try lia.
      * intros b [Hb|Hb%list_elem_of_singleton]%elem_of_app; [|lia].
        apply lo_children0 in Hb. lia.
      * intros b d Hb. rewrite lookup_insert_Some. intros [[<- <-]|[Hnb Hd]]; [done|].
        apply elem_of_app in Hb as [Hb|Hb%list_elem_of_singleton]; [|done].
        rewrite lookup_insert_ne in Hd by (apply lo_children0 in Hb; lia). eauto.
      * intros p Hpp. destruct (lo_parent0 p Hpp) as (d & Hd & Hch & ? & ?).
        destruct (Hmono p d Hd) as (d' & Hd' & Ep & Er & _ & _ & Ech). exists d'.
        rewrite Ep, Er. split_and!; try done. by apply Ech.
    + destruct (cw_live _ H _ _ Hc) as []. split; simpl in *; try done; try lia.
      * intros b Hb. apply lo_children0 in Hb. lia.
      * intros b d Hb. rewrite lookup_insert_ne by (apply lo_children0 in Hb; lia).
        rewrite lookup_insert_Some. intros [[<- <-]|[? Hd]]; [|eauto]. simpl. eauto.
      * intros p Hpp. destruct (lo_parent0 p Hpp) as (d & Hd & Hch & ? & ?).
        destruct (Hmono p d Hd) as (d' & Hd' & Ep & Er & _ & _ & Ech). exists d'.
        rewrite Ep, Er. split_and!; try done. by apply Ech.
  - intros t x c (gx & Hg & He)%(cw_tables _ H).
    destruct (Hmono x gx Hg) as (c' & Hc' & Ep & Er & Eo & _ & _). exists c'.
    split; [done|]. destruct He. split; congruence.
Qed.

Lemma cap_wf_derive cm ths ph owner new_owner perms st' r :
  cap_wf (cm, ths) → next_handle cm < U64_MAX → perms_wf perms →
  derive_capability now cm ths ph owner new_owner perms = (st', r) → cap_wf st'.
Proof.
  intros H Hn Hp. unfold derive_capability.
  destruct (thread_has_capability ths owner ph); [|by intros; simplify_eq/=]. simpl.
  destruct (global_caps cm !! ph) as [parent|] eqn:Hph; [|by intros; simplify_eq/=].
  destruct (is_owned_by parent owner); [|by intros; simplify_eq/=]. simpl.
  destruct (has_permission parent PERM_GRANT); [|by intros; simplify_eq/=]. simpl.
  unfold Capability_derive, CapHandle_new.
  destruct (is_subset_of perms (cap_permissions parent)) eqn:Hsub; [|by intros; simplify_eq/=].
  simpl. pose proof (cw_next _ H) as Hnx. simpl in Hnx. rewrite wrap_succ64 by lia.
  pose proof (lo_handle _ _ _ _ (cw_live _ H _ _ Hph)) as ->.
  pose proof (derive_graph_wf cm ths parent ph new_owner perms H Hn Hp Hph Hsub) as Hw.
  simpl in Hw. revert Hw. set (cm2 := mkCM _ _ _). set (child := mkCap _ _ _ _ _ _).
  intros Hw. assert (cap_wf (cm2, (add_thread_capability ths new_owner child).1)) as Hw2.
  { apply (cap_wf_add_entry _ _ _ _ child); [done| |by split].
    subst cm2. simpl. by rewrite lookup_insert_eq. }
  destruct (add_thread_capability ths new_owner child) as [ths' [?|?]]; simpl in Hw2;
    intros; simplify_eq; [|done].
  by eapply cap_wf_ext.
Qed.

Lemma cap_wf_transfer cm ths h source target st' r :
  cap_wf (cm, ths) → transfer_capability now cm ths h source target = (st', r) → cap_wf st'.
Proof.
  intros H. unfold transfer_capability.
  pose proof (remove_thread_capability_result ths source h) as Hres.
  pose proof (thread_cap_remove ths source h) as Hrm.
  destruct (remove_thread_capability ths source h) as [ths1 oc]. simpl in *. subst oc.
  assert (cap_wf (cm, ths1)) as H1.
  { eapply cap_wf_ext; [done..|]. intros t x c. rewrite Hrm. by case_decide. }
  destruct (thread_cap ths source h) as [c|] eqn:Ec; [|by intros; simplify_eq].
  destruct (cw_tables _ H _ _ _ Ec) as (g & Hg & He). simpl in Hg.
  pose proof (eo_owner _ _ _ _ He) as Eo. pose proof (eo_handle _ _ _ _ He) as Eh.
  unfold is_owned_by. rewrite Eo, Z.eqb_refl. simpl.
  destruct (has_permission c PERM_GRANT); simpl.
  2:{ destruct (add_thread_capability ths1 source c) as [ths2 r2] eqn:E.
      intros; simplify_eq. replace ths2 with (add_thread_capability ths1 (cap_owner c) c).1
        by by rewrite E.
      apply cap_wf_add_entry with g; by rewrite ?Eh. }
  pose proof (add_thread_capability_spec ths1 target (set_cap_owner c target)) as Ha.
  destruct (add_thread_capability ths1 target (set_cap_owner c target)) as [ths2 r2]. simpl in Ha.
  destruct (lookup_thread ths1 target) as [tt|]; [|by intros; simplify_eq].
  assert (thread_cap ths1 target h = None) as Hnone.
  { rewrite Hrm. case_decide as E; [done|]. destruct (thread_cap ths target h) eqn:E2; [|done].
    destruct E. split; [|done]. by apply (cap_wf_unique_holder _ _ _ _ _ _ _ H Ec E2). }
  rewrite Eh, Hnone in Ha. destruct Ha as [-> Ha]. rewrite Hg. intros [= <- <-].
  eapply (cap_wf_ext (set_global_caps cm (<[h:=set_cap_owner g target]> (global_caps cm))));
    [|done..]. split; simpl.
  - apply (cw_next _ H).
  - assert (∀ x d, global_caps cm !! x = Some d → ∃ d',
      <[h:=set_cap_owner g target]> (global_caps cm) !! x = Some d' ∧
      cap_children d' = cap_children d ∧ cap_permissions d' = cap_permissions d ∧
      cap_resource d' = cap_resource d) as Hm.
    { intros x d Hx. rewrite lookup_insert. case_decide; simplify_eq; eauto 10. }
    intros x d Hx.
    assert (∃ d0, global_caps cm !! x = Some d0 ∧ cap_handle d = cap_handle d0 ∧
      cap_permissions d = cap_permissions d0 ∧ cap_children d = cap_children d0 ∧
      cap_parent d = cap_parent d0 ∧ cap_resource d = cap_resource d0) as
      (d0 & Hd0 & E1 & E2 & E3 & E4 & E5).
    { rewrite lookup_insert in Hx. case_decide; simplify_eq; eauto 10. }
    destruct (cw_live _ H _ _ Hd0) as []. split; rewrite ?E1, ?E2, ?E3, ?E4, ?E5; try done.
    + intros b b' Hb. rewrite lookup_insert. case_decide; intros; simplify_eq; simpl; eauto.
    + intros p Hp. destruct (lo_parent0 p Hp) as (q & Hq & ? & ? & ?).
      destruct (Hm p q Hq) as (q' & ? & Eq1 & Eq2 & Eq3). exists q'. by rewrite Eq1, Eq2, Eq3.
  - intros t x d. rewrite Ha, Hrm. case_decide as E.
    + destruct E as [<- <-]. intros [= <-]. rewrite lookup_insert_eq.
      eexists. split; [done|]. destruct He. by split.
    + case_decide as E'; [done|]. intros Hd. destruct (cw_tables _ H _ _ _ Hd) as (gx & Hgx & Hex).
      exists gx. rewrite lookup_insert_ne; [done|]. intros <-. destruct E'.
      split; [|done]. by apply (cap_wf_unique_holder _ _ _ _ _ _ _ H Ec Hd).
Qed.
End preservation.

(** ** Every operation as a step *)

(** One operation on the capability state: creation followed by the insertion
    into the creator's table (as [sys_cap_create] and [sys_ipc_create_port] do),
    derivation, transfer, revocation, the creation of a thread and a change of
    thread state.  The handle counter is 64 bits wide; the two allocating steps
    ask that it has not been exhausted. *)
Inductive cap_step : RevokeState → RevokeState → Prop :=
| step_create now cm ths resource owner perms cm' cap :
    next_handle cm < U64_MAX → perms_wf perms →
    create_root_capability now cm resource owner perms = (cm', Ok cap) →
    cap_step (cm, ths) (cm', (add_thread_capability ths owner cap).1)
| step_derive now cm ths parent owner new_owner perms st' r :
    next_handle cm < U64_MAX → perms_wf perms →
    derive_capability now cm ths parent owner new_owner perms = (st', r) →
    cap_step (cm, ths) st'
| step_transfer now cm ths h source target st' r :
    transfer_capability now cm ths h source target = (st', r) →
    cap_step (cm, ths) st'
| step_revoke now cm ths h revoker st' r :
    revoke_capability now cm ths h revoker = Some (st', r) →
    cap_step (cm, ths) st'
| step_spawn cm ths t :
    th_capability_table t = CapabilityTable_new (th_id t) →
    cap_step (cm, ths) (cm, add_thread ths t)
| step_state cm ths tid s :
    cap_step (cm, ths) (cm, (set_thread_state ths tid s).1).

Lemma thread_cap_add_thread ths t tid h c :
  th_capability_table t = CapabilityTable_new (th_id t) →
  thread_cap (add_thread ths t) tid h = Some c → thread_cap ths tid h = Some c.
Proof.
  intros Ht. unfold thread_cap. rewrite lookup_add_thread.
  destruct (lookup_thread ths tid); [done|]. case_decide; [simpl|done].
  by rewrite Ht.
Qed.

Lemma cap_step_wf st st' : cap_step st st' → cap_wf st → cap_wf st'.
Proof.
  destruct 1; intros Hw.
  - by eapply cap_wf_create.
  - by eapply cap_wf_derive.
  - by eapply cap_wf_transfer.
  - by eapply cap_wf_revoke.
  - eapply cap_wf_ext; [done..|]. intros. by eapply thread_cap_add_thread.
  - eapply cap_wf_ext; [done..|]. intros ???. by rewrite thread_cap_set_state.
Qed.

Lemma cap_steps_wf st st' : rtc cap_step st st' → cap_wf st → cap_wf st'.
Proof. induction 1; eauto using cap_step_wf. Qed.


(** A set closed under live children that contains [h] contains all of [h]'s
    live descendants. *)
Lemma closed_contains_descendants D st st' h :
  h ∈ D → (∀ x, global_caps st'.1 !! x = if decide (x ∈ D) then None else global_caps st.1 !! x) →
  closes D st st' →
  ∀ x, rtc (child_of (global_caps st.1)) h x → is_Some (global_caps st.1 !! x) → x ∈ D.
Proof.
  intros Hh Hg Hcl x Hr. induction Hr as [h|h b x (c & Hc & Hb) Hr IH]; [done|].
  intros Hx. apply IH; [|done].
  assert (is_Some (global_caps st.1 !! b)) as [cb Hcb].
  { inversion Hr as [|? y ? (d & Hd & _) _]; subst; eauto. }
  assert (global_caps st'.1 !! b = None) as Hn by (eapply Hcl; [done|by exists c]).
  rewrite Hg in Hn. case_decide; congruence.
Qed.

Lemma length_audit_push log e :
  (length log ≤ MAX_AUDIT_LOG_ENTRIES)%nat → (length (audit_push log e) ≤ MAX_AUDIT_LOG_ENTRIES)%nat.
Proof.
  unfold audit_push. intros H. rewrite length_app. cbn [length].
  destruct (MAX_AUDIT_LOG_ENTRIES <=? length log)%nat eqn:E.
  - apply Nat.leb_le in E. destruct log; cbn [length tail] in *; unfold MAX_AUDIT_LOG_ENTRIES in *; lia.
  - apply Nat.leb_gt in E. lia.
Qed.

(** ** Theorems *)

(** C1: revocation is transitive and exact.  From a well-formed state, revoking
    a live handle terminates with the list of exactly its live descendants
    (itself included), each once; afterwards none of them is in the global map
    or in any thread's table, and every other capability and table entry is
    what it was. *)
Theorem revoke_transitive now cm ths h revoker cap :
  cap_wf (cm, ths) → global_caps cm !! h = Some cap →
  ∃ cm' ths' D,
    revoke_capability now cm ths h revoker = Some ((cm', ths'), Ok D) ∧
    descendants (global_caps cm) h D ∧ NoDup D ∧
    (∀ x, x ∈ D → global_caps cm' !! x = None ∧ ∀ t, thread_cap ths' t x = None) ∧
    (∀ x, x ∉ D → global_caps cm' !! x = global_caps cm !! x ∧
                  ∀ t, thread_cap ths' t x = thread_cap ths t x).
Proof.
  intros H Hh. pose proof (revoke_capability_ok now cm ths h revoker) as Hs.
  unfold revoke_ok in Hs. simpl in Hs. rewrite Hh in Hs.
  destruct Hs as ([cm' ths'] & D & Hr & Hrm & Hcl & Hreach).
  pose proof (rm_caps _ _ _ _ _ Hrm) as Hg. pose proof (rm_tables _ _ _ _ _ Hrm) as Ht.
  simpl in Hg, Ht.
  exists cm', ths', (h :: D). split_and!; [done|..].
  - intros x. split.
    + intros Hx. split; [by apply Hreach|]. by apply (rm_live _ _ _ _ _ Hrm).
    + intros [Hx Hl]. eapply (closed_contains_descendants _ (cm, ths) (cm', ths') h);
        [set_solver|done..].
  - by apply (rm_nodup _ _ _ _ _ Hrm).
  - intros x Hx. split; [by rewrite Hg, decide_True|]. intros t. rewrite Ht.
    case_decide as E; [done|]. destruct (thread_cap ths t x) eqn:Ex; [|done].
    destruct (cw_tables _ H _ _ _ Ex) as (g & Hgx & He). destruct E. split; [done|].
    simpl in Hgx. rewrite Hgx. simpl. f_equal. apply He.
  - intros x Hx. split; [by rewrite Hg, decide_False|]. intros t. rewrite Ht.
    rewrite decide_False; [done|]. tauto.
Qed.

(** C2: the capability invariant is inductive.  Starting from an empty manager
    and threads with empty tables, every sequence of creations, derivations,
    transfers, revocations, thread creations and state changes leads to a
    well-formed state: parents outlive children, derived permissions are subsets
    of their parent's, and every table entry is backed by a live global
    capability owned by that thread. *)
Theorem capability_invariant ths st :
  (∀ t h, thread_cap ths t h = None) → rtc cap_step (CapManager_new, ths) st → cap_wf st.
Proof. intros. eapply cap_steps_wf; [done|]. by apply cap_wf_initial. Qed.


(** C4: the behaviour of [derive_capability] on every branch.  It refuses, with
    the state unchanged, when the caller does not hold the parent, when the
    parent lacks GRANT and when the requested permissions are not all granted by
    the parent; otherwise it draws the next handle for a child with the requested
    permissions, given to the new owner if that thread exists, and reported as
    [NotFound] (the child staying in the derivation graph) if it does not.  Other
    table entries never change. *)
Theorem derive_capability_correct now cm ths ph owner new_owner perms :
  cap_wf (cm, ths) → next_handle cm < U64_MAX → perms_wf perms →
  let '(st', r) := derive_capability now cm ths ph owner new_owner perms in
  match thread_cap ths owner ph with
  | None => st' = (cm, ths) ∧ r = Err CapNotFound
  | Some c =>
      let child := mkCap (next_handle cm) (cap_resource c) perms new_owner (Some ph) [] in
      if negb (has_permission c PERM_GRANT) || negb (has_permission c perms) then
        st' = (cm, ths) ∧ r = Err CapPermissionDenied
      else
        global_caps st'.1 !! next_handle cm = Some child ∧
        child_of (global_caps st'.1) ph (next_handle cm) ∧
        (∀ t h, h ≠ next_handle cm → thread_cap st'.2 t h = thread_cap ths t h) ∧
        match lookup_thread ths new_owner with
        | None => r = Err CapNotFound ∧ ∀ t, thread_cap st'.2 t (next_handle cm) = None
        | Some _ => r = Ok (next_handle cm) ∧ thread_cap st'.2 new_owner (next_handle cm) = Some child
        end
  end.
Proof.
  intros H Hn Hp. unfold derive_capability. rewrite thread_has_capability_spec.
  destruct (thread_cap ths owner ph) as [c|] eqn:Ec; [|done].
  destruct (cw_tables _ H _ _ _ Ec) as (g & Hg & [_ _ Eo Ep Er]). simpl in Hg.
  rewrite bool_decide_eq_true_2 by by eexists. simpl. rewrite Hg.
  unfold is_owned_by. rewrite Eo, Z.eqb_refl. simpl. unfold has_permission. rewrite Ep, Er.
  destruct (perms_contains (cap_permissions g) PERM_GRANT) eqn:Eg; simpl; [|done].
  unfold Capability_derive. rewrite (is_subset_of_contains perms) by done.
  destruct (perms_contains (cap_permissions g) perms) eqn:Es; simpl; [|done].
  pose proof (lo_handle _ _ _ _ (cw_live _ H _ _ Hg)) as ->.
  assert (∀ t, thread_cap ths t (next_handle cm) = None) as Hf.
  { intros t. destruct (thread_cap ths t _) eqn:E; [|done].
    apply (cw_tables _ H) in E as (? & E & _). simpl in E. by rewrite (cap_wf_fresh _ _ H) in E. }
  set (child := mkCap _ _ _ _ _ _). set (par := push_child g _).
  assert (ph ≠ next_handle cm) as Hne by (intros ->; by rewrite (cap_wf_fresh _ _ H) in Hg).
  pose proof (add_thread_capability_spec ths new_owner child) as Ha. simpl in Ha.
  rewrite Hf in Ha.
  destruct (lookup_thread ths new_owner) as [th|].
  - destruct (add_thread_capability ths new_owner child) as [ths' r']. simpl in Ha.
    destruct Ha as [-> Ha]. simpl. split_and!.
    + by rewrite lookup_insert_eq.
    + exists par. rewrite lookup_insert_ne, lookup_insert_eq by done. subst par. simpl. set_solver.
    + intros t h Hh. rewrite Ha. rewrite decide_False; [done|]. by intros [_ <-].
    + done.
    + rewrite Ha. by rewrite decide_True.
  - rewrite Ha. simpl. split_and!; try done.
    + by rewrite lookup_insert_eq.
    + exists par. rewrite lookup_insert_ne, lookup_insert_eq by done. subst par. simpl. set_solver.
Qed.

(** C5: the behaviour of [transfer_capability] on every branch.  A caller that
    does not hold the handle, or holds it without GRANT, is refused and every
    table is as before; with a live target the target, and nobody else, holds
    the capability afterwards with the same resource and permissions, and the
    global owner is the target; with no such target the call reports
    [AlreadyExists] and the caller has lost its table entry. *)
Theorem transfer_capability_correct now cm ths h source target :
  cap_wf (cm, ths) →
  let '(st', r) := transfer_capability now cm ths h source target in
  (∀ t x, x ≠ h → thread_cap st'.2 t x = thread_cap ths t x) ∧
  match thread_cap ths source h with
  | None => r = Err CapNotFound ∧ ∀ t, thread_cap st'.2 t h = thread_cap ths t h
  | Some c =>
      if negb (has_permission c PERM_GRANT) then
        r = Err CapPermissionDenied ∧ ∀ t, thread_cap st'.2 t h = thread_cap ths t h
      else
        match lookup_thread ths target with
        | None => r = Err CapAlreadyExists ∧ ∀ t, thread_cap st'.2 t h = None
        | Some _ =>
            r = Ok tt ∧
            cap_owner <$> global_caps st'.1 !! h = Some target ∧
            (∀ t, thread_cap st'.2 t h =
                    if decide (t = target) then Some (set_cap_owner c target) else None)
        end
  end.
Proof.
  intros H. unfold transfer_capability.
  pose proof (remove_thread_capability_result ths source h) as Hres.
  pose proof (thread_cap_remove ths source h) as Hrm.
  pose proof (remove_thread_capability_ids ths source h) as Hids.
  destruct (remove_thread_capability ths source h) as [ths1 oc]. simpl in *. subst oc.
  assert (∀ t, is_Some (lookup_thread ths1 t) ↔ is_Some (lookup_thread ths t)) as Hlk.
  { intros t. rewrite <-!not_eq_None_Some, !lookup_thread_None. by rewrite Hids. }
  destruct (thread_cap ths source h) as [c|] eqn:Ec; simpl.
  2:{ split; [intros t x Hx; rewrite Hrm, decide_False; naive_solver|].
      split; [done|]. intros t. rewrite Hrm. case_decide as E; [|done].
      by destruct E as [-> _]. }
  destruct (cw_tables _ H _ _ _ Ec) as (g & Hg & [Eh Eo Ego _ _]). simpl in Hg.
  assert (∀ t, t ≠ source → thread_cap ths t h = None) as Honly.
  { intros t Ht. destruct (thread_cap ths t h) eqn:E; [|done].
    destruct Ht. by apply (cap_wf_unique_holder _ _ _ _ _ _ _ H E Ec). }
  assert (∀ t, thread_cap ths1 t h = None) as Hgone.
  { intros t. rewrite Hrm. case_decide; [done|]. apply Honly. naive_solver. }
  unfold is_owned_by. rewrite Eo, Z.eqb_refl. simpl.
  destruct (has_permission c PERM_GRANT) eqn:Egr; simpl.
  - pose proof (add_thread_capability_spec ths1 target (set_cap_owner c target)) as Ha.
    simpl in Ha. rewrite Eh, Hgone in Ha.
    destruct (lookup_thread ths1 target) as [th|] eqn:El.
    + destruct (add_thread_capability ths1 target _) as [ths2 r2]. simpl in Ha.
      destruct Ha as [-> Ha]. rewrite Hg. simpl.
      assert (is_Some (lookup_thread ths target)) as [th' ->] by (apply Hlk; by eexists).
      split; [intros t x Hx; rewrite Ha, Hrm, !decide_False; naive_solver|].
      split_and!; [done|by rewrite lookup_insert_eq|].
      intros t. rewrite Ha, Hgone. apply decide_ext. naive_solver.
    + rewrite Ha. assert (lookup_thread ths target = None) as ->.
      { apply eq_None_not_Some. rewrite <-Hlk, El. by intros [??]. }
      split; [intros t x Hx; simpl; rewrite Hrm, decide_False; naive_solver|]. done.
  - pose proof (add_thread_capability_spec ths1 source c) as Ha. rewrite Eh, Hgone in Ha.
    destruct (lookup_thread ths1 source) as [th|] eqn:El.
    + destruct (add_thread_capability ths1 source c) as [ths2 r2]. simpl in Ha.
      destruct Ha as [_ Ha]. simpl.
      split; [intros t x Hx; rewrite Ha, Hrm, !decide_False; naive_solver|].
      split; [done|]. intros t. rewrite Ha, Hgone. case_decide as E.
      * by destruct E as [<- _].
      * symmetry. apply Honly. naive_solver.
    + exfalso. unfold thread_cap in Ec. destruct (lookup_thread ths source) eqn:E; [|done].
      assert (is_Some (lookup_thread ths1 source)) as [??] by (apply Hlk; by eexists). congruence.
Qed.

(** ** A concrete derivation tree

    Thread 1 creates a port capability (handle 1), derives one with READ and
    GRANT for thread 2 (handle 2), which derives a read-only one for thread 1
    (handle 3). *)

Definition demo_thread (id : Z) : Thread :=
  (Thread_new id ∅ 0x400000 0x10000 0x4000 0 PrioNormal "demo").1.1.

Definition demo_threads : list Thread := [demo_thread 1; demo_thread 2].

Definition demo_perms (b : Z) : CapPermissions := perms_from_bits b.

Definition demo_state : RevokeState :=
  let '(cm, r) := create_root_capability 0 CapManager_new (RIpcPort 7) 1 (demo_perms 0xF) in
  let ths :=
    match r with Ok c => (add_thread_capability demo_threads 1 c).1 | Err _ => demo_threads end in
  let '((cm, ths), _) := derive_capability 1 cm ths 1 1 2 (demo_perms 0x9) in
  let '((cm, ths), _) := derive_capability 2 cm ths 2 2 1 (demo_perms 0x1) in
  (cm, ths).

Lemma demo_threads_empty t h : thread_cap demo_threads t h = None.
Proof.
  unfold thread_cap, lookup_thread, demo_threads. simpl. unfold has_id. simpl.
  repeat case_match; simplify_eq; done.
Qed.

Lemma demo_steps : rtc cap_step (CapManager_new, demo_threads) demo_state.
Proof.
  eapply rtc_l.
  { eapply (step_create 0 _ _ (RIpcPort 7) 1 (demo_perms 0xF)); [done| |vm_compute; reflexivity].
    by unfold perms_wf, in_range; simpl. }
  eapply rtc_l.
  { eapply (step_derive 1 _ _ 1 1 2 (demo_perms 0x9)); [done| |vm_compute; reflexivity].
    by unfold perms_wf, in_range; simpl. }
  apply rtc_once.
  eapply (step_derive 2 _ _ 2 2 1 (demo_perms 0x1)); [done| |vm_compute; reflexivity].
  by unfold perms_wf, in_range; simpl.
Qed.

Lemma demo_wf : cap_wf demo_state.
Proof. eapply cap_steps_wf; [apply demo_steps|]. apply cap_wf_initial, demo_threads_empty. Qed.

Lemma revoke_transitive_witness :
  ∃ cm' ths' D, revoke_capability 3 demo_state.1 demo_state.2 1 1 = Some ((cm', ths'), Ok D) ∧
    descendants (global_caps demo_state.1) 1 D.
Proof.
  edestruct (revoke_transitive 3 demo_state.1 demo_state.2 1 1) as (cm' & ths' & D & H1 & H2 & _).
  - exact demo_wf.
  - vm_compute. reflexivity.
  - exists cm', ths', D. split; assumption.
Defined.

Lemma capability_invariant_witness : cap_wf demo_state.
Proof. apply (capability_invariant demo_threads); [apply demo_threads_empty|apply demo_steps]. Defined.


Lemma derive_capability_correct_witness :
  (derive_capability 3 demo_state.1 demo_state.2 1 1 2 (demo_perms 0x3)).2 = Ok 4.
Proof.
  assert (perms_wf (demo_perms 0x3)) as Hp by (by unfold perms_wf, in_range; simpl).
  pose proof (derive_capability_correct 3 demo_state.1 demo_state.2 1 1 2 (demo_perms 0x3)
    demo_wf eq_refl Hp) as H.
  destruct (derive_capability _ _ _ _ _ _ _) as [st' r]. vm_compute in H.
  destruct H as (_ & _ & _ & -> & _). reflexivity.
Defined.

Lemma transfer_capability_correct_witness :
  (transfer_capability 3 demo_state.1 demo_state.2 2 2 1).2 = Ok tt.
Proof.
  pose proof (transfer_capability_correct 3 demo_state.1 demo_state.2 2 2 1 demo_wf) as H.
  destruct (transfer_capability _ _ _ _ _ _) as [st' r]. destruct H as [_ H].
  vm_compute in H. destruct H as (-> & _). reflexivity.
Defined.
