(* ===== verification/Sched.v ===== *)
(** * The scheduler

    Models [kernel/src/sched.rs]: the four ready queues, the base and effective
    priority maps, the current and idle threads, and the operations of
    [Scheduler].  The operations that change thread states take the thread list
    of [Thread.v] and return it. *)

From S2P Require Import Prelude Cap Thread.

(** ** Ready queues *)

Definition PRIORITY_LEVELS : nat := 4.

(** [queues: [VecDeque<ThreadId>; PRIORITY_LEVELS]], indexed by priority. *)
Abbreviation ReadyQueues := (list (list Z)).

Definition ReadyQueues_new : ReadyQueues := replicate PRIORITY_LEVELS [].

Definition rq_push (qs : ReadyQueues) (id : Z) (priority : ThreadPriority) : ReadyQueues :=
  let idx := prio_index priority in
  if (idx <? PRIORITY_LEVELS)%nat then alter (λ q, q ++ [id]) idx qs else qs.

(** The loop of [pop_next] over the remaining indices, highest first: the head
    of the first non-empty queue is moved to its back and returned. *)
Fixpoint rq_pop_loop (idxs : list nat) (qs : ReadyQueues) : ReadyQueues * option Z :=
  match idxs with
  | [] => (qs, None)
  | idx :: idxs =>
      match qs !! idx with
      | Some (id :: q) => (<[idx := q ++ [id]]> qs, Some id)
      | _ => rq_pop_loop idxs qs
      end
  end.

Definition rq_pop_next (qs : ReadyQueues) : ReadyQueues * option Z :=
  rq_pop_loop (reverse (seq 0 PRIORITY_LEVELS)) qs.

Definition rq_is_empty (qs : ReadyQueues) : bool :=
  forallb (λ q, match q with [] => true | _ => false end) qs.

(** ** The scheduler *)

Record Scheduler := mkSched {
  ready : ReadyQueues;
  base_priorities : gmap Z ThreadPriority;
  effective_priorities : gmap Z ThreadPriority;
  current : option Z;
  idle : option Z;
  initialized : bool;
}.

Definition Scheduler_new : Scheduler := mkSched ReadyQueues_new ∅ ∅ None None false.

Definition set_ready (s : Scheduler) (qs : ReadyQueues) : Scheduler :=
  mkSched qs (base_priorities s) (effective_priorities s) (current s) (idle s) (initialized s).

Definition set_current (s : Scheduler) (c : option Z) : Scheduler :=
  mkSched (ready s) (base_priorities s) (effective_priorities s) c (idle s) (initialized s).

Definition set_effective (s : Scheduler) (e : gmap Z ThreadPriority) : Scheduler :=
  mkSched (ready s) (base_priorities s) e (current s) (idle s) (initialized s).

Definition get_priority (s : Scheduler) (id : Z) : ThreadPriority :=
  default PrioNormal (effective_priorities s !! id).

Definition get_base_priority (s : Scheduler) (id : Z) : ThreadPriority :=
  default PrioNormal (base_priorities s !! id).

Definition sched_init (s : Scheduler) (ths : list Thread) (idle_thread : Thread)
    : Scheduler * list Thread * Z :=
  let idle_id := th_id idle_thread in
  let ths := Thread.add_thread ths idle_thread in
  let s := mkSched (ready s)
             (<[idle_id := PrioIdle]> (base_priorities s))
             (<[idle_id := PrioIdle]> (effective_priorities s))
             (Some idle_id) (Some idle_id) true in
  let '(ths, _) := set_thread_state ths idle_id Running in
  (s, ths, idle_id).

Definition sched_add_thread (s : Scheduler) (ths : list Thread) (t : Thread)
    : Scheduler * list Thread * Z :=
  let id := th_id t in
  let priority := th_priority t in
  let ths := Thread.add_thread ths t in
  let qs := match th_state t with Ready => rq_push (ready s) id priority | _ => ready s end in
  (mkSched qs (<[id := priority]> (base_priorities s))
     (<[id := priority]> (effective_priorities s)) (current s) (idle s) (initialized s),
   ths, id).

(** [next.or(previous).or_else(|| self.idle_id())] *)
Definition choose (s : Scheduler) (previous next : option Z) : option Z :=
  match next with
  | Some n => Some n
  | None => match previous with Some p => Some p | None => idle s end
  end.

Definition apply_switch_with_previous (s : Scheduler) (ths : list Thread)
    (previous next : option Z) : Scheduler * list Thread * option Z :=
  let chosen := choose s previous next in
  let ths :=
    match previous with
    | Some prev =>
        if bool_decide (Some prev = chosen) then ths
        else (set_thread_state ths prev Ready).1
    | None => ths
    end in
  match chosen with
  | Some id => (set_current s (Some id), (set_thread_state ths id Running).1, Some id)
  | None => (s, ths, None)
  end.

Definition schedule (s : Scheduler) (ths : list Thread) : Scheduler * list Thread * option Z :=
  if negb (initialized s) then (s, ths, None)
  else
    let '(qs, next) := rq_pop_next (ready s) in
    apply_switch_with_previous (set_ready s qs) ths (current s) next.

(** The block of [on_timer_tick] that holds both locks: requeue the current
    thread when something is ready, then pick the next one. *)
Definition tick_select (s : Scheduler) : Scheduler * option Z * option Z :=
  let previous := current s in
  let s :=
    match current s with
    | Some cur =>
        if negb (rq_is_empty (ready s)) then
          set_current (set_ready s (rq_push (ready s) cur (get_priority s cur))) None
        else s
    | None => s
    end in
  match current s with
  | None =>
      let '(qs, next) := rq_pop_next (ready s) in
      (set_ready s qs, previous, next)
  | Some _ => (s, previous, None)
  end.

Definition on_timer_tick (s : Scheduler) (ths : list Thread)
    : Scheduler * list Thread * (option Z * option Z) :=
  if negb (initialized s) then (s, ths, (None, None))
  else
    let '(s, previous, next) := tick_select s in
    let '(s, ths, chosen) := apply_switch_with_previous s ths previous next in
    (s, ths, (previous, chosen)).

Definition boost_priority (s : Scheduler) (id : Z) (new_priority : ThreadPriority)
    : Scheduler * bool :=
  if prio_lt (get_priority s id) new_priority then
    (set_effective s (<[id := new_priority]> (effective_priorities s)), true)
  else (s, false).

Definition restore_original_priority (s : Scheduler) (id : Z) : Scheduler :=
  set_effective s (<[id := get_base_priority s id]> (effective_priorities s)).

Definition mark_thread_ready (s : Scheduler) (ths : list Thread) (id : Z)
    : Scheduler * list Thread :=
  let priority := get_priority s id in
  let '(ths, _) := set_thread_state ths id Ready in
  (set_ready s (rq_push (ready s) id priority), ths).

(** ** Context switching

    [switch_context] is the assembly routine of [interrupts/switch.asm]; its
    argument here is what it stores into the outgoing context. *)

Record Cpu := mkCpu { tss_rsp0 : Z; usermode_entries : gset Z }.

(** [gdt::set_rsp0] *)
Definition set_rsp0 (cpu : Cpu) (rsp0 : Z) : Cpu :=
  mkCpu (Z.land rsp0 (not_w 64 0xF)) (usermode_entries cpu).

Definition log_user_entry_once (cpu : Cpu) (tid : Z) : Cpu :=
  mkCpu (tss_rsp0 cpu) ({[tid]} ∪ usermode_entries cpu).

Section switching.
Context (switch_context : CpuContext → CpuContext → CpuContext).

Definition perform_context_switch (cpu : Cpu) (ths : list Thread) (from_id to_id : Z)
    : Cpu * list Thread :=
  let target_kernel_stack := kernel_stack_top ths to_id in
  match with_contexts ths from_id to_id (λ from_ctx to_ctx,
    let cpu :=
      match target_kernel_stack with Some stack => set_rsp0 cpu stack | None => cpu end in
    let cpu := if Z.land (cs to_ctx) 3 =? 3 then log_user_entry_once cpu to_id else cpu in
    (switch_context from_ctx to_ctx, cpu))
  with
  | (ths, Some cpu) => (cpu, ths)
  | (ths, None) => (cpu, ths)
  end.

(** [on_timer_tick] followed by the switch, as in [drive_cooperative_tick]
    and the blocking system calls. *)
Definition drive_cooperative_tick (cpu : Cpu) (s : Scheduler) (ths : list Thread)
    : Cpu * Scheduler * list Thread :=
  let '(s, ths, (prev, next)) := on_timer_tick s ths in
  match prev, next with
  | Some prev_id, Some next_id =>
      if negb (prev_id =? next_id) then
        let '(cpu, ths) := perform_context_switch cpu ths prev_id next_id in (cpu, s, ths)
      else (cpu, s, ths)
  | _, _ => (cpu, s, ths)
  end.

Definition yield_current (cpu : Cpu) (s : Scheduler) (ths : list Thread)
    : Cpu * Scheduler * list Thread :=
  match current s with
  | None => (cpu, s, ths)
  | Some cur =>
      let '(s, ths, next) := schedule s ths in
      match next with
      | Some next =>
          if negb (next =? cur) then
            let '(cpu, ths) := perform_context_switch cpu ths cur next in (cpu, s, ths)
          else (cpu, s, ths)
      | None => (cpu, s, ths)
      end
  end.
End switching.

(** ** Selection order *)

(** [top_queue qs i q]: the highest non-empty queue is [q], at index [i]. *)
Definition top_queue (qs : ReadyQueues) (i : nat) (q : list Z) : Prop :=
  qs !! i = Some q ∧ q ≠ [] ∧ ∀ j q', (i < j)%nat → qs !! j = Some q' → q' = [].

(** Moving the head of a queue to its back. *)
Definition rotate1 (q : list Z) : list Z := tail q ++ take 1 q.

Lemma rq_pop_loop_spec qs n :
  (∀ j q, (n ≤ j)%nat → qs !! j = Some q → q = []) →
  (∃ i id q, (i < n)%nat ∧ top_queue qs i (id :: q) ∧
     rq_pop_loop (reverse (seq 0 n)) qs = (<[i := q ++ [id]]> qs, Some id)) ∨
  ((∀ j q, qs !! j = Some q → q = []) ∧ rq_pop_loop (reverse (seq 0 n)) qs = (qs, None)).
Proof.
  induction n as [|n IH]; intros Hhi.
  - right. split; [|done]. intros j q. apply Hhi. lia.
  - rewrite seq_S, reverse_app. simpl.
    destruct (qs !! n) as [[|id q]|] eqn:Hn.
    1, 3: destruct IH as [(i & id & q & ? & ? & ?)|]; [|left; exists i, id, q; auto with lia|by right];
      intros j q' Hj Hq'; destruct (decide (j = n)) as [->|]; [congruence|eapply Hhi; [|done]; lia].
    left. exists n, id, q. repeat split; [lia|done..|].
    intros j q' Hj Hq'. eapply Hhi; [|done]. lia.
Qed.

Definition rq_wf (qs : ReadyQueues) : Prop := length qs = PRIORITY_LEVELS.

Lemma rq_pop_next_spec qs :
  rq_wf qs →
  (∃ i id q, top_queue qs i (id :: q) ∧ rq_pop_next qs = (<[i := q ++ [id]]> qs, Some id)) ∨
  ((∀ j q, qs !! j = Some q → q = []) ∧ rq_pop_next qs = (qs, None)).
Proof.
  intros Hwf. destruct (rq_pop_loop_spec qs PRIORITY_LEVELS) as [(i & id & q & _ & ? & ?)|?].
  - intros j q Hj Hq. apply lookup_lt_Some in Hq. unfold rq_wf in Hwf. lia.
  - left. by exists i, id, q.
  - by right.
Qed.

Lemma top_queue_inj qs i j p q : top_queue qs i p → top_queue qs j q → i = j ∧ p = q.
Proof.
  intros (Hp & Hp0 & Hpa) (Hq & Hq0 & Hqa).
  destruct (lt_eq_lt_dec i j) as [[?|<-]|?].
  - destruct Hq0. by eapply Hpa.
  - split; congruence.
  - destruct Hp0. by eapply Hqa.
Qed.

Lemma top_queue_rotate qs i id q :
  top_queue qs i (id :: q) → top_queue (<[i := q ++ [id]]> qs) i (q ++ [id]).
Proof.
  intros (Hi & _ & Ha). pose proof (lookup_lt_Some _ _ _ Hi). split_and!.
  - by rewrite list_lookup_insert_eq.
  - by destruct q.
  - intros j q' Hj. rewrite list_lookup_insert_ne by lia. by apply Ha.
Qed.

Lemma rq_pop_next_top qs i q :
  rq_wf qs → top_queue qs i q →
  ∃ id, head q = Some id ∧ rq_pop_next qs = (<[i := rotate1 q]> qs, Some id) ∧
        rq_wf (<[i := rotate1 q]> qs) ∧ top_queue (<[i := rotate1 q]> qs) i (rotate1 q).
Proof.
  intros Hwf Ht. destruct (rq_pop_next_spec qs Hwf) as [(j & id & q' & Ht' & E)|[He _]].
  - destruct (top_queue_inj _ _ _ _ _ Ht Ht') as [-> ->]. exists id.
    split_and!; [done..| |by apply top_queue_rotate].
    unfold rq_wf. by rewrite length_insert.
  - destruct Ht as (Hi & Hne & _). destruct Hne. by eapply He.
Qed.

(** [n] consecutive selections. *)
Fixpoint rq_pops (n : nat) (qs : ReadyQueues) : list (option Z) :=
  match n with
  | O => []
  | S n => let '(qs, next) := rq_pop_next qs in next :: rq_pops n qs
  end.

Lemma rq_pops_prefix a b qs i :
  rq_wf qs → top_queue qs i (a ++ b) →
  rq_pops (length a) qs = Some <$> a ∧
  ∃ qs', rq_wf qs' ∧ top_queue qs' i (b ++ a) ∧
         ∀ n, rq_pops (length a + n) qs = (Some <$> a) ++ rq_pops n qs'.
Proof.
  revert b qs. induction a as [|x a IH]; intros b qs Hwf Ht; simpl.
  - split; [done|]. exists qs. rewrite app_nil_r. auto.
  - destruct (rq_pop_next_top _ _ _ Hwf Ht) as (id & [= <-] & -> & Hwf' & Ht').
    replace (rotate1 ((x :: a) ++ b)) with (a ++ (b ++ [x])) in *
      by (unfold rotate1; simpl; by rewrite app_assoc).
    destruct (IH (b ++ [x]) _ Hwf' Ht') as (-> & qs' & Hw & Hq & Hn).
    split; [done|]. exists qs'. rewrite <- app_assoc in Hq. split_and!; [done..|].
    intros n. by rewrite Hn.
Qed.

Lemma rq_is_empty_spec qs : rq_is_empty qs = true ↔ ∀ j q, qs !! j = Some q → q = [].
Proof.
  unfold rq_is_empty. rewrite forallb_forall. split.
  - intros H j q Hq. specialize (H q). destruct q; [done|].
    exfalso. apply list_elem_of_lookup_2, list_elem_of_In in Hq. by specialize (H Hq).
  - intros H q Hq. apply list_elem_of_In, list_elem_of_lookup in Hq as [j Hj].
    by rewrite (H _ _ Hj).
Qed.

Lemma prio_index_lt p : (prio_index p < PRIORITY_LEVELS)%nat.
Proof. unfold PRIORITY_LEVELS. destruct p; simpl; lia. Qed.

Lemma rq_push_alter qs id p : rq_push qs id p = alter (λ q, q ++ [id]) (prio_index p) qs.
Proof. unfold rq_push. by destruct p. Qed.

Lemma rq_push_wf qs id p : rq_wf qs → rq_wf (rq_push qs id p).
Proof. unfold rq_wf. by rewrite rq_push_alter, length_alter. Qed.

Lemma rq_push_lookup qs id p :
  rq_wf qs →
  ∃ q, qs !! prio_index p = Some q ∧ rq_push qs id p !! prio_index p = Some (q ++ [id]).
Proof.
  intros Hwf. pose proof (prio_index_lt p) as Hlt. rewrite <- Hwf in Hlt.
  apply lookup_lt_is_Some in Hlt as [q Hq]. exists q.
  by rewrite rq_push_alter, list_lookup_alter_eq, Hq.
Qed.

Lemma rq_pop_next_wf qs : rq_wf qs → rq_wf (rq_pop_next qs).1.
Proof.
  intros Hwf. destruct (rq_pop_next_spec qs Hwf) as [(i & id & q & _ & ->)|[_ ->]]; [|done].
  unfold rq_wf. simpl. by rewrite length_insert.
Qed.

(** ** Invariant of the scheduler *)

Abbreviation SchedState := (Scheduler * list Thread)%type.

Record sched_wf (st : SchedState) : Prop := {
  sw_queues : rq_wf (ready st.1);
  sw_running : ∀ id t, lookup_thread st.2 id = Some t → th_state t = Running → current st.1 = Some id;
  sw_inherit : ∀ id, (prio_index (get_base_priority st.1 id) ≤ prio_index (get_priority st.1 id))%nat;
  sw_current : initialized st.1 = true → is_Some (current st.1) ∧ is_Some (idle st.1);
  sw_uninit : initialized st.1 = false → current st.1 = None;
}.

(** Every way the kernel drives the scheduler.  Threads enter the list in the
    state [Ready] that [Thread::new] gives them, under fresh identifiers; the
    rest of the kernel only ever writes the states [Ready], [Blocked] and
    [Exited] itself. *)
Inductive sched_step : SchedState → SchedState → Prop :=
| ss_init s ths t s' ths' r :
    initialized s = false → th_state t = Ready → lookup_thread ths (th_id t) = None →
    sched_init s ths t = (s', ths', r) → sched_step (s, ths) (s', ths')
| ss_add s ths t s' ths' r :
    th_state t = Ready → lookup_thread ths (th_id t) = None →
    sched_add_thread s ths t = (s', ths', r) → sched_step (s, ths) (s', ths')
| ss_schedule s ths s' ths' r :
    schedule s ths = (s', ths', r) → sched_step (s, ths) (s', ths')
| ss_tick s ths s' ths' r :
    on_timer_tick s ths = (s', ths', r) → sched_step (s, ths) (s', ths')
| ss_ready s ths id s' ths' :
    mark_thread_ready s ths id = (s', ths') → sched_step (s, ths) (s', ths')
| ss_boost s ths id p s' b :
    boost_priority s id p = (s', b) → sched_step (s, ths) (s', ths)
| ss_restore s ths id :
    sched_step (s, ths) (restore_original_priority s id, ths)
| ss_state s ths id st :
    st ≠ Running → sched_step (s, ths) (s, (set_thread_state ths id st).1).

Lemma running_set_state ths id st id' t :
  lookup_thread (set_thread_state ths id st).1 id' = Some t → th_state t = Running →
  (id' = id ∧ st = Running) ∨
  (id' ≠ id ∧ ∃ t', lookup_thread ths id' = Some t' ∧ th_state t' = Running).
Proof.
  rewrite lookup_set_thread_state.
  destruct (decide (id = id')) as [<-|Hne].
  - destruct (lookup_thread ths id); simpl; intros [= <-] ?. by left.
  - intros. right. eauto.
Qed.

(** When [choose] yields a thread, that thread alone is running afterwards. *)
Lemma apply_switch_spec s ths prev next s' ths' r :
  apply_switch_with_previous s ths prev next = (s', ths', r) →
  (∀ id t, lookup_thread ths id = Some t → th_state t = Running → prev = Some id) →
  r = choose s prev next ∧
  ready s' = ready s ∧ base_priorities s' = base_priorities s ∧
  effective_priorities s' = effective_priorities s ∧ idle s' = idle s ∧
  initialized s' = initialized s ∧
  (∀ c, r = Some c → current s' = Some c) ∧
  (r = None → current s' = current s) ∧
  (∀ id t, lookup_thread ths' id = Some t → th_state t = Running → r = Some id).
Proof.
  unfold apply_switch_with_previous. intros E Hrun.
  set (ths1 := match prev with Some _ => _ | None => _ end) in E.
  assert (Hrun1 : ∀ id t, lookup_thread ths1 id = Some t → th_state t = Running →
                    prev = Some id ∧ choose s prev next = Some id).
  { intros id t Hl Ht. subst ths1. destruct prev as [p|].
    - case_bool_decide as Hc.
      + specialize (Hrun _ _ Hl Ht). by simplify_eq.
      + apply running_set_state in Hl as [[_ ?]|(Hne & t' & Hl & Ht')]; [done| |done].
        specialize (Hrun _ _ Hl Ht'). by simplify_eq.
    - by specialize (Hrun _ _ Hl Ht). }
  destruct (choose s prev next) as [c|] eqn:Hc; simplify_eq; simpl.
  - split_and!; [done..| |done|].
    + by intros ? [= <-].
    + intros id t Hl Ht. apply running_set_state in Hl as [[-> _]|(Hne & t' & Hl & Ht')]; [done| |done].
      destruct (Hrun1 _ _ Hl Ht'). congruence.
  - split_and!; [done..|]. intros id t Hl Ht. by destruct (Hrun1 _ _ Hl Ht).
Qed.

Lemma tick_select_spec s s' previous next :
  tick_select s = (s', previous, next) →
  rq_wf (ready s) →
  previous = current s ∧ rq_wf (ready s') ∧
  base_priorities s' = base_priorities s ∧ effective_priorities s' = effective_priorities s ∧
  idle s' = idle s ∧ initialized s' = initialized s ∧
  ((next = None ∧ s' = s) ∨
   ∃ qs n, next = Some n ∧ (qs = ready s ∨
             ∃ cur, current s = Some cur ∧ qs = rq_push (ready s) cur (get_priority s cur)) ∧
           rq_pop_next qs = (ready s', Some n)).
Proof.
  unfold tick_select. intros E Hwf.
  destruct (current s) as [cur|] eqn:Hcur; [destruct (rq_is_empty (ready s)) eqn:He|];
    simpl in E; try rewrite Hcur in E.
  - simplify_eq. split_and!; auto.
  - simpl in E. pose proof (rq_push_wf (ready s) cur (get_priority s cur) Hwf) as Hw.
    pose proof (rq_pop_next_wf _ Hw) as Hw'.
    destruct (rq_pop_next_spec _ Hw) as [(i & id & q & Ht & Ep)|[Hall _]].
    + rewrite Ep in *. simplify_eq. simpl. split_and!; try done. right.
      eexists _, _. split_and!; [done|right; eauto|done].
    + destruct (rq_push_lookup (ready s) cur (get_priority s cur) Hwf) as (q & _ & Hq).
      apply Hall in Hq. by destruct q.
  - pose proof (rq_pop_next_wf _ Hwf) as Hw'.
    destruct (rq_pop_next_spec _ Hwf) as [(i & id & q & Ht & Ep)|[Hall Ep]]; rewrite Ep in *; simplify_eq; simpl.
    + split_and!; try done. right. eexists _, _. split_and!; [done|by left|done].
    + split_and!; try done. left. split; [done|]. destruct s; by simplify_eq/=.
Qed.

Lemma rq_push_occupied qs id p i q :
  qs !! i = Some q → q ≠ [] → ∃ q', rq_push qs id p !! i = Some q' ∧ q' ≠ [].
Proof.
  intros Hq Hne. rewrite rq_push_alter. destruct (decide (prio_index p = i)) as [<-|].
  - rewrite list_lookup_alter_eq, Hq. eexists. split; [done|]. by destruct q.
  - rewrite list_lookup_alter_ne by done. eauto.
Qed.

(** A tick with an occupied queue always finds a next thread. *)
Lemma tick_select_nonempty s i q :
  rq_wf (ready s) → ready s !! i = Some q → q ≠ [] → is_Some (tick_select s).2.
Proof.
  intros Hwf Hq Hne.
  assert (Hpop : ∀ qs q', rq_wf qs → qs !! i = Some q' → q' ≠ [] → is_Some (rq_pop_next qs).2).
  { intros qs q' Hw Hl Hn. destruct (rq_pop_next_spec qs Hw) as [(j & n & ? & _ & ->)|[Hall _]];
      [by eexists|]. by destruct Hn; eapply Hall. }
  assert (rq_is_empty (ready s) = false) as He.
  { destruct (rq_is_empty (ready s)) eqn:He; [|done]. destruct Hne.
    by eapply (proj1 (rq_is_empty_spec _)). }
  unfold tick_select. destruct (current s) as [cur|] eqn:Hcur.
  - rewrite He. simpl. destruct (rq_push_occupied (ready s) cur (get_priority s cur) i q) as (q' & ? & ?);
      [done..|]. specialize (Hpop _ q' (rq_push_wf _ cur (get_priority s cur) Hwf)).
    destruct (rq_pop_next _). by apply Hpop.
  - rewrite Hcur. specialize (Hpop _ q Hwf). destruct (rq_pop_next _). by apply Hpop.
Qed.

Lemma sched_wf_switch s ths s1 prev next s' ths' r :
  sched_wf (s, ths) → prev = current s → initialized s1 = initialized s → idle s1 = idle s →
  rq_wf (ready s1) → base_priorities s1 = base_priorities s →
  effective_priorities s1 = effective_priorities s → initialized s = true →
  apply_switch_with_previous s1 ths prev next = (s', ths', r) →
  sched_wf (s', ths') ∧ r = choose s1 prev next ∧ is_Some r ∧ current s' = r ∧ ready s' = ready s1.
Proof.
  intros [Hq Hr Hi Hc Hu] -> Hin Hid Hq1 Hb He Hinit E. simpl in *.
  apply apply_switch_spec in E as (Hch & Hrd & Hb' & He' & Hid' & Hin' & Hcur & _ & Hrun); [|done].
  destruct (Hc Hinit) as [[c Hcs] [i His]].
  assert (is_Some r) as [x ->].
  { rewrite Hch. unfold choose. rewrite Hcs. destruct next; by eexists. }
  specialize (Hcur _ eq_refl).
  split_and!; [|done|by eexists|done|done].
  split; simpl.
  - by rewrite Hrd.
  - intros id t Hl Ht. rewrite Hcur. by apply (Hrun id t).
  - intros id. unfold get_base_priority, get_priority. rewrite Hb', He', Hb, He. apply Hi.
  - intros _. rewrite Hcur, Hid', Hid, His. split; by eexists.
  - rewrite Hin', Hin, Hinit. done.
Qed.

Lemma sched_wf_schedule s ths s' ths' r :
  sched_wf (s, ths) → initialized s = true → schedule s ths = (s', ths', r) →
  sched_wf (s', ths') ∧ is_Some r ∧ current s' = r ∧ ready s' = (rq_pop_next (ready s)).1 ∧
  r = choose s (current s) (rq_pop_next (ready s)).2.
Proof.
  intros Hwf Hin E. unfold schedule in E. rewrite Hin in E. simpl in E.
  pose proof (rq_pop_next_wf _ (sw_queues _ Hwf)) as Hq. simpl in Hq.
  destruct (rq_pop_next (ready s)) as [qs next] eqn:Ep.
  eapply (sched_wf_switch s) in E as (? & ? & ? & ? & ?); [|done..]. done.
Qed.

Lemma sched_wf_tick s ths s' ths' prev r :
  sched_wf (s, ths) → initialized s = true → on_timer_tick s ths = (s', ths', (prev, r)) →
  sched_wf (s', ths') ∧ is_Some r ∧ current s' = r ∧ prev = current s ∧
  ready s' = ready (tick_select s).1.1 ∧ r = choose s prev (tick_select s).2.
Proof.
  intros Hwf Hin E. unfold on_timer_tick in E. rewrite Hin in E. simpl in E.
  destruct (tick_select s) as [[s1 p] n] eqn:Et.
  apply tick_select_spec in Et as (-> & Hq & Hb & He & Hid & Hini & _); [|apply (sw_queues _ Hwf)].
  destruct (apply_switch_with_previous s1 ths (current s) n) as [[s2 ths2] c] eqn:Ea.
  simplify_eq.
  eapply (sched_wf_switch s) in Ea as (? & Hr & ? & ? & ?); [|done..].
  split_and!; try done. rewrite Hr. unfold choose. by rewrite Hid.
Qed.

Lemma prio_insert_base (b e : gmap Z ThreadPriority) id p :
  (∀ i, prio_index (default PrioNormal (b !! i)) ≤ prio_index (default PrioNormal (e !! i)))%nat →
  (prio_index (default PrioNormal (b !! id)) ≤ prio_index p)%nat →
  ∀ i, (prio_index (default PrioNormal (b !! i)) ≤
        prio_index (default PrioNormal (<[id := p]> e !! i)))%nat.
Proof.
  intros H Hp i. destruct (decide (i = id)) as [->|].
  - by rewrite lookup_insert_eq.
  - by rewrite lookup_insert_ne by done.
Qed.

Lemma prio_insert_both (b e : gmap Z ThreadPriority) id p :
  (∀ i, prio_index (default PrioNormal (b !! i)) ≤ prio_index (default PrioNormal (e !! i)))%nat →
  ∀ i, (prio_index (default PrioNormal (<[id := p]> b !! i)) ≤
        prio_index (default PrioNormal (<[id := p]> e !! i)))%nat.
Proof.
  intros H i. destruct (decide (i = id)) as [->|].
  - by rewrite !lookup_insert_eq.
  - by rewrite !lookup_insert_ne by done.
Qed.

Lemma running_add_thread ths t id t' :
  th_state t = Ready → lookup_thread (Thread.add_thread ths t) id = Some t' →
  th_state t' = Running → lookup_thread ths id = Some t'.
Proof.
  intros Ht. rewrite lookup_add_thread. destruct (lookup_thread ths id); [done|].
  case_decide; [|done]. intros [= <-]. congruence.
Qed.

Lemma sched_step_wf st st' : sched_step st st' → sched_wf st → sched_wf st'.
Proof.
  intros Hstep Hwf. pose proof Hwf as [Hq Hr Hi Hc Hun].
  destruct Hstep as [s ths t s' ths' r Hin Ht Hnew E|s ths t s' ths' r Ht Hnew E
    |s ths s' ths' r E|s ths s' ths' [p r] E|s ths id s' ths' E|s ths id p s' b E|s ths id|s ths id st Hst];
    simpl in *.
  - unfold sched_init in E. destruct (set_thread_state _ _ _) as [ths1 b] eqn:Es. simplify_eq.
    split; simpl; [done| |by apply prio_insert_both|by intros; split; eexists|done].
    intros id t' Hl Ht'. change ths' with (ths', b).1 in Hl. rewrite <- Es in Hl.
    apply running_set_state in Hl as [[-> _]|(Hne & t1 & Hl & Ht1)]; [done| |done].
    eapply running_add_thread in Hl; [|done..]. apply Hr in Hl; [|done]. by rewrite Hun in Hl.
  - unfold sched_add_thread in E. rewrite Ht in E. simplify_eq.
    split; simpl; [by apply rq_push_wf| |by apply prio_insert_both|done..].
    intros id t' Hl Ht'. eapply running_add_thread in Hl; eauto.
  - destruct (initialized s) eqn:Hin.
    + eapply sched_wf_schedule; done.
    + unfold schedule in E. rewrite Hin in E. by injection E as <- <- _.
  - destruct (initialized s) eqn:Hin.
    + eapply sched_wf_tick; done.
    + unfold on_timer_tick in E. rewrite Hin in E. by injection E as <- <- _ _.
  - unfold mark_thread_ready in E. destruct (set_thread_state ths id Ready) as [ths1 b] eqn:Es.
    simplify_eq. split; simpl; [by apply rq_push_wf| |done..].
    intros id' t' Hl Ht'. change ths' with (ths', b).1 in Hl. rewrite <- Es in Hl.
    apply running_set_state in Hl as [[_ ?]|(_ & t1 & Hl & Ht1)]; [done|eauto|done].
  - unfold boost_priority in E. destruct (prio_lt _ _) eqn:Hlt; simplify_eq; [|done].
    split; simpl; [done..| |done|done]. apply prio_insert_base; [done|].
    unfold prio_lt in Hlt. apply Nat.ltb_lt in Hlt.
    etrans; [apply (Hi id)|lia].
  - split; simpl; [done..| |done|done]. by apply prio_insert_base.
  - split; simpl; [done| |done..].
    intros id' t' Hl Ht'. apply running_set_state in Hl as [[_ ?]|(_ & t1 & Hl & Ht1)]; [done|eauto|done].
Qed.

Lemma sched_new_wf : sched_wf (Scheduler_new, []).
Proof. by split. Qed.

Lemma sched_steps_wf st : rtc sched_step (Scheduler_new, []) st → sched_wf st.
Proof.
  intros H. pose proof sched_new_wf as Hwf. revert Hwf.
  induction H as [|st1 st2 st3 Hs _ IH]; [done|]. intros Hwf. eapply IH, sched_step_wf; eauto.
Qed.

(** ** What the queues never lose *)

(** Queue [i] is not empty. *)
Definition occupied (s : Scheduler) (i : nat) : Prop := ∃ q, ready s !! i = Some q ∧ q ≠ [].

Lemma rq_pop_next_occupied qs i q :
  rq_wf qs → qs !! i = Some q → q ≠ [] → ∃ q', (rq_pop_next qs).1 !! i = Some q' ∧ q' ≠ [].
Proof.
  intros Hwf Hq Hne. destruct (rq_pop_next_spec qs Hwf) as [(j & id & q' & Ht & ->)|[_ ->]]; [|eauto].
  simpl. pose proof (lookup_lt_Some _ _ _ (proj1 Ht)). destruct (decide (j = i)) as [->|].
  - rewrite list_lookup_insert_eq by done. eexists. split; [done|]. by destruct q'.
  - rewrite list_lookup_insert_ne by done. eauto.
Qed.

Lemma tick_occupied s i : rq_wf (ready s) → occupied s i → occupied (tick_select s).1.1 i.
Proof.
  intros Hwf (q & Hq & Hne). destruct (tick_select s) as [[s1 p] n] eqn:Et.
  apply tick_select_spec in Et as (_ & _ & _ & _ & _ & _ & [[_ ->]|(qs & x & _ & Hqs & Ep)]);
    [by exists q| |done].
  assert (rq_wf qs) as Hw.
  { destruct Hqs as [->|(cur & _ & ->)]; [done|by apply rq_push_wf]. }
  assert (∃ q', qs !! i = Some q' ∧ q' ≠ []) as (q' & Hq' & Hne').
  { destruct Hqs as [->|(cur & _ & ->)]; [eauto|by eapply rq_push_occupied]. }
  pose proof (rq_pop_next_occupied qs i q' Hw Hq' Hne') as Hp. by rewrite Ep in Hp.
Qed.

Lemma sched_step_occupied st st' i :
  sched_wf st → sched_step st st' → occupied st.1 i → occupied st'.1 i.
Proof.
  intros Hwf Hstep Hocc. pose proof (sw_queues _ Hwf) as Hq. destruct Hocc as (q & Hi & Hne).
  destruct Hstep as [s ths t s' ths' r Hin Ht Hnew E|s ths t s' ths' r Ht Hnew E
    |s ths s' ths' r E|s ths s' ths' [p r] E|s ths id s' ths' E|s ths id p s' b E|s ths id|s ths id st Hst];
    simpl in *.
  - unfold sched_init in E. destruct (set_thread_state _ _ _). simplify_eq. by exists q.
  - unfold sched_add_thread in E. rewrite Ht in E. simplify_eq. by eapply rq_push_occupied.
  - destruct (initialized s) eqn:Hin.
    + eapply sched_wf_schedule in E as (_ & _ & _ & Hrd & _); [|done..].
      unfold occupied. rewrite Hrd. by eapply rq_pop_next_occupied.
    + unfold schedule in E. rewrite Hin in E. injection E as <- <- _. by exists q.
  - destruct (initialized s) eqn:Hin.
    + eapply sched_wf_tick in E as (_ & _ & _ & _ & Hrd & _); [|done..].
      unfold occupied. rewrite Hrd. apply tick_occupied; [done|by exists q].
    + unfold on_timer_tick in E. rewrite Hin in E. injection E as <- <- _ _. by exists q.
  - unfold mark_thread_ready in E. destruct (set_thread_state ths id Ready). simplify_eq.
    by eapply rq_push_occupied.
  - unfold boost_priority in E. destruct (prio_lt _ _); simplify_eq; by exists q.
  - by exists q.
  - by exists q.
Qed.

Lemma sched_steps_occupied st st' i :
  rtc sched_step st st' → sched_wf st → occupied st.1 i → sched_wf st' ∧ occupied st'.1 i.
Proof.
  induction 1 as [|st1 st2 st3 Hs _ IH]; [done|]. intros Hwf Ho.
  apply IH; [by eapply sched_step_wf|by eapply sched_step_occupied].
Qed.

(** A selection leaves the chosen thread in the highest occupied queue. *)
Lemma rq_pop_next_chosen qs qs' n :
  rq_wf qs → rq_pop_next qs = (qs', Some n) → ∃ i q, top_queue qs' i q ∧ n ∈ q.
Proof.
  intros Hwf E. destruct (rq_pop_next_spec qs Hwf) as [(i & id & q & Ht & E')|[_ E']]; [|congruence].
  rewrite E in E'. injection E' as -> ->. exists i, (q ++ [id]).
  split; [by apply top_queue_rotate|set_solver].
Qed.

Lemma top_queue_above qs i j q q' :
  top_queue qs j q → qs !! i = Some q' → q' ≠ [] → (i ≤ j)%nat.
Proof.
  intros (_ & _ & Ha) Hi Hne. destruct (decide (i ≤ j)%nat); [done|].
  destruct Hne. eapply Ha; [|done]. lia.
Qed.

(** [n] consecutive timer ticks. *)
Fixpoint ticks (n : nat) (st : SchedState) : SchedState :=
  match n with
  | O => st
  | S n => let '(s, ths, _) := on_timer_tick st.1 st.2 in ticks n (s, ths)
  end.

(** Number of entries over all queues. *)
Definition queued (s : Scheduler) : nat := length (concat (ready s)).

Lemma length_concat_insert (qs : ReadyQueues) i q q' :
  qs !! i = Some q →
  (length (concat (<[i := q']> qs)) + length q = length (concat qs) + length q')%nat.
Proof.
  revert i. induction qs as [|x qs IH]; intros [|i] H; simplify_eq/=; rewrite !length_app; [lia|].
  specialize (IH _ H). lia.
Qed.

Lemma rq_push_length qs id p :
  rq_wf qs → length (concat (rq_push qs id p)) = S (length (concat qs)).
Proof.
  intros Hwf. destruct (rq_push_lookup qs id p Hwf) as (q & Hq & _).
  rewrite rq_push_alter. revert Hq. generalize (prio_index p). clear Hwf.
  induction qs as [|x qs IH]; intros [|i] Hq; simplify_eq/=; rewrite !length_app; simpl; [lia|].
  rewrite (IH _ Hq). lia.
Qed.

Lemma rq_pop_next_length qs : rq_wf qs → length (concat (rq_pop_next qs).1) = length (concat qs).
Proof.
  intros Hwf. destruct (rq_pop_next_spec qs Hwf) as [(i & id & q & Ht & ->)|[_ ->]]; [|done].
  simpl. pose proof (length_concat_insert qs i _ (q ++ [id]) (proj1 Ht)) as H.
  rewrite length_app in H. simpl in H. lia.
Qed.

Lemma tick_growth s ths :
  sched_wf (s, ths) → initialized s = true → rq_is_empty (ready s) = false →
  let st := ticks 1 (s, ths) in
  sched_wf st ∧ initialized st.1 = true ∧ rq_is_empty (ready st.1) = false ∧
  queued st.1 = S (queued s).
Proof.
  intros Hwf Hin Hne. simpl. destruct (on_timer_tick s ths) as [[s' ths'] [p r]] eqn:E. simpl.
  pose proof (sw_queues _ Hwf) as Hq. simpl in Hq.
  destruct (proj1 (sw_current _ Hwf Hin)) as [cur Hcur]. simpl in Hcur.
  pose proof (sched_wf_tick _ _ _ _ _ _ Hwf Hin E) as (Hwf' & [x ->] & Hc' & -> & Hrd & _).
  assert (ready (tick_select s).1.1 = (rq_pop_next (rq_push (ready s) cur (get_priority s cur))).1) as Ht.
  { unfold tick_select. rewrite Hcur, Hne. simpl. by destruct (rq_pop_next _). }
  assert (queued s' = S (queued s)) as Hlen.
  { unfold queued. rewrite Hrd, Ht, rq_pop_next_length, rq_push_length; [done..|by apply rq_push_wf]. }
  split_and!; [done| | |done].
  - destruct (initialized s') eqn:Hi; [done|].
    pose proof (sw_uninit _ Hwf' Hi) as Hn. simpl in Hn. congruence.
  - destruct (rq_is_empty (ready s')) eqn:He; [|done].
    assert (queued s' = 0%nat) as H0; [|lia].
    unfold queued. clear -He. induction (ready s') as [|[|] qs IH]; simpl in *; [done|by apply IH|done].
Qed.

Definition is_queued (qs : ReadyQueues) (id : Z) : Prop := ∃ i q, qs !! i = Some q ∧ id ∈ q.

Lemma rq_pop_next_queued qs id : rq_wf qs → is_queued qs id → is_queued (rq_pop_next qs).1 id.
Proof.
  intros Hwf (i & q & Hq & Hid).
  destruct (rq_pop_next_spec qs Hwf) as [(j & x & q' & Ht & ->)|[_ ->]]; [|by exists i, q]. simpl.
  pose proof (lookup_lt_Some _ _ _ (proj1 Ht)). destruct (decide (j = i)) as [->|].
  - exists i, (q' ++ [x]). rewrite list_lookup_insert_eq by done. split; [done|].
    destruct Ht as [Ht _]. simplify_eq. set_solver.
  - exists i, q. by rewrite list_lookup_insert_ne.
Qed.

Lemma tick_requeues s ths cur n s' ths' :
  sched_wf (s, ths) → initialized s = true →
  on_timer_tick s ths = (s', ths', (Some cur, Some n)) → n ≠ cur → is_queued (ready s') cur.
Proof.
  intros Hwf Hin E Hne. pose proof (sw_queues _ Hwf) as Hq. simpl in Hq.
  apply sched_wf_tick in E as (_ & _ & _ & Hcur & Hrd & Hch); [|done..]. rewrite Hrd.
  unfold tick_select in *. rewrite <- Hcur in *.
  destruct (rq_is_empty (ready s)); simpl in *; [rewrite <- Hcur in Hch; simpl in Hch; congruence|].
  destruct (rq_push_lookup (ready s) cur (get_priority s cur) Hq) as (q & _ & Hl).
  assert (is_queued (rq_push (ready s) cur (get_priority s cur)) cur) as Hqd.
  { eexists _, _. split; [done|set_solver]. }
  apply rq_pop_next_queued in Hqd; [|by apply rq_push_wf]. by destruct (rq_pop_next _).
Qed.

(** ** Properties *)

(** C4. Fixed-priority selection over whole executions: once some queue [i] is
    occupied it stays occupied, whatever the kernel does next, and from then on
    [schedule] and [on_timer_tick] only ever choose a thread queued at the
    highest occupied level, which is at least [i].  (In particular a thread
    that is only queued below [i] is never chosen again.) *)
Theorem selection_fixed_priority s0 ths0 s ths i :
  sched_wf (s0, ths0) → occupied s0 i → rtc sched_step (s0, ths0) (s, ths) → initialized s = true →
  (∀ s' ths' r, schedule s ths = (s', ths', r) →
     ∃ n j q, r = Some n ∧ (i ≤ j)%nat ∧ top_queue (ready s') j q ∧ n ∈ q) ∧
  (∀ s' ths' p r, on_timer_tick s ths = (s', ths', (p, r)) →
     ∃ n j q, r = Some n ∧ (i ≤ j)%nat ∧ top_queue (ready s') j q ∧ n ∈ q).
Proof.
  intros Hwf0 Ho Hsteps Hin.
  destruct (sched_steps_occupied _ _ _ Hsteps Hwf0 Ho) as [Hwf (q & Hq & Hne)]. simpl in *.
  pose proof (sw_queues _ Hwf) as Hw. simpl in Hw. split.
  - intros s' ths' r E. apply sched_wf_schedule in E as (_ & _ & _ & Hrd & ->); [|done..].
    destruct (rq_pop_next_occupied _ _ _ Hw Hq Hne) as (q' & Hq' & Hne').
    destruct (rq_pop_next_spec _ Hw) as [(j & n & q1 & Ht & E)|[Hall _]];
      [|by destruct Hne; eapply Hall].
    destruct (rq_pop_next_chosen _ _ _ Hw E) as (j' & q2 & Ht2 & Hin2).
    rewrite E in Hq', Hrd. rewrite E. exists n, j', q2. rewrite Hrd.
    split_and!; [done|by eapply top_queue_above|done..].
  - intros s' ths' p r E.
    apply sched_wf_tick in E as (_ & _ & _ & _ & Hrd & ->); [|done..].
    destruct (tick_occupied s i Hw) as (q' & Hq' & Hne'); [by exists q|].
    destruct (tick_select s) as [[s1 p1] n1] eqn:Et. pose proof Et as Et'.
    apply tick_select_spec in Et as (_ & _ & _ & _ & _ & _ & Hsel); [|done].
    destruct (tick_select_nonempty s i q) as [x Hx]; [done..|]. rewrite Et' in Hx. simpl in *. subst n1.
    destruct Hsel as [[? _]|(qs & n & [= <-] & Hqs & Ep)]; [done|].
    destruct (rq_pop_next_chosen qs (ready s1) x) as (j' & q2 & Ht2 & Hin2); [|done|].
    { destruct Hqs as [->|(cur & _ & ->)]; [done|by apply rq_push_wf]. }
    exists x, j', q2. rewrite Hrd. split_and!; [done|by eapply top_queue_above|done..].
Qed.

(** C5. Round robin: consecutive selections go through the highest occupied
    queue in order and then start over, so that [k] rounds choose each of its
    entries exactly [k] times. *)
Theorem selection_round_robin qs i q k :
  rq_wf qs → top_queue qs i q →
  rq_pops (k * length q) qs = concat (replicate k (Some <$> q)).
Proof.
  revert qs. induction k as [|k IH]; intros qs Hwf Ht; [done|].
  destruct (rq_pops_prefix q [] qs i Hwf) as (_ & qs' & Hwf' & Ht' & Hn); [by rewrite app_nil_r|].
  simpl. rewrite Hn, (IH qs'); done.
Qed.

(** C6. Every reachable scheduler state is well formed: there are four queues,
    at most one thread is [Running] and it is the current one, an initialised
    scheduler has a current and an idle thread, and the effective priority of a
    thread is never below its base priority. *)
Theorem scheduler_invariant s ths :
  rtc sched_step (Scheduler_new, []) (s, ths) →
  length (ready s) = PRIORITY_LEVELS ∧
  (∀ id t, lookup_thread ths id = Some t → th_state t = Running → current s = Some id) ∧
  (initialized s = true → is_Some (current s) ∧ is_Some (idle s)) ∧
  (∀ id, prio_index (get_base_priority s id) ≤ prio_index (get_priority s id))%nat.
Proof. intros H. by destruct (sched_steps_wf _ H). Qed.

(** A timer tick that finds any queue occupied adds one entry to the
    queues: [n] ticks add [n] entries, because the requeued current thread is
    never taken out again by [pop_next]. *)
Theorem tick_queue_growth s ths n :
  sched_wf (s, ths) → initialized s = true → rq_is_empty (ready s) = false →
  queued (ticks n (s, ths)).1 = (queued s + n)%nat.
Proof.
  revert s ths. induction n as [|n IH]; intros s ths Hwf Hin Hne; [simpl; lia|].
  pose proof (tick_growth s ths Hwf Hin Hne) as H. simpl in H |- *.
  destruct (on_timer_tick s ths) as [[s' ths'] r]. simpl in H.
  destruct H as (Hwf' & Hin' & Hne' & Hlen). rewrite IH by done. lia.
Qed.

(** A tick that switches away from the current thread makes it [Ready]
    and leaves it queued, whatever state it was in: a thread that set itself to
    [Exited] or [Blocked] before the switch is runnable again after it. *)
Theorem tick_revives_previous s ths cur n t s' ths' :
  sched_wf (s, ths) → initialized s = true →
  on_timer_tick s ths = (s', ths', (Some cur, Some n)) → n ≠ cur →
  lookup_thread ths cur = Some t →
  lookup_thread ths' cur = Some (set_state t Ready) ∧ is_queued (ready s') cur.
Proof.
  intros Hwf Hin E Hne Hl. split; [|by eapply tick_requeues]. clear Hwf.
  unfold on_timer_tick in E. rewrite Hin in E. simpl in E.
  destruct (tick_select s) as [[s1 p] n1] eqn:Et.
  destruct (apply_switch_with_previous s1 ths p n1) as [[s2 ths2] c] eqn:Ea. simplify_eq.
  unfold apply_switch_with_previous in Ea.
  destruct (choose s1 (Some cur) n1) as [c|]; simplify_eq.
  rewrite bool_decide_eq_false_2 by congruence.
  rewrite !lookup_set_thread_state, decide_False, decide_True, Hl by done. done.
Qed.

(** ** Witnesses: an idle thread and two threads of normal priority. *)

Definition demo_sched_thread (id : Z) (p : ThreadPriority) : Thread :=
  mkThread id Ready CpuContext_zero 0x200000 0x4000 0x1000 p "demo" (CapabilityTable_new id).

Definition demo_sched : SchedState :=
  let '(s, ths, _) := sched_init Scheduler_new [] (demo_sched_thread 0 PrioIdle) in
  let '(s, ths, _) := sched_add_thread s ths (demo_sched_thread 1 PrioNormal) in
  let '(s, ths, _) := sched_add_thread s ths (demo_sched_thread 2 PrioNormal) in
  (s, ths).

Lemma demo_sched_steps : rtc sched_step (Scheduler_new, []) demo_sched.
Proof.
  unfold demo_sched. eapply rtc_l; [|eapply rtc_l; [|eapply rtc_l; [|apply rtc_refl]]].
  - by eapply ss_init with (t := demo_sched_thread 0 PrioIdle).
  - by eapply ss_add with (t := demo_sched_thread 1 PrioNormal).
  - by eapply ss_add with (t := demo_sched_thread 2 PrioNormal).
Qed.

Lemma selection_fixed_priority_witness :
  ∃ n j q, (schedule demo_sched.1 demo_sched.2).2 = Some n ∧ (2 ≤ j)%nat ∧
           top_queue (ready (schedule demo_sched.1 demo_sched.2).1.1) j q ∧ n ∈ q.
Proof.
  destruct (schedule demo_sched.1 demo_sched.2) as [[s' ths'] r] eqn:E. simpl.
  refine (proj1 (selection_fixed_priority demo_sched.1 demo_sched.2 demo_sched.1 demo_sched.2 2
                   _ _ _ _) s' ths' r E).
  - exact (sched_steps_wf _ demo_sched_steps).
  - exists [1; 2]. split; [reflexivity|discriminate].
  - apply rtc_refl.
  - reflexivity.
Defined.

Lemma selection_round_robin_witness :
  rq_pops 4 (ready demo_sched.1) = concat (replicate 2 (Some <$> [1; 2])).
Proof.
  apply (selection_round_robin (ready demo_sched.1) 2 [1; 2] 2); [reflexivity|].
  split_and!; [reflexivity|discriminate|].
  intros [|[|[|[|j]]]] q' Hj Hq'; try lia; vm_compute in Hq'; congruence.
Defined.

Lemma scheduler_invariant_witness :
  length (ready demo_sched.1) = PRIORITY_LEVELS ∧
  (∀ id t, lookup_thread demo_sched.2 id = Some t → th_state t = Running →
           current demo_sched.1 = Some id) ∧
  (initialized demo_sched.1 = true → is_Some (current demo_sched.1) ∧ is_Some (idle demo_sched.1)) ∧
  (∀ id, prio_index (get_base_priority demo_sched.1 id)
         ≤ prio_index (get_priority demo_sched.1 id))%nat.
Proof. apply (scheduler_invariant demo_sched.1 demo_sched.2). exact demo_sched_steps. Defined.

Lemma tick_queue_growth_witness : queued (ticks 5 demo_sched).1 = 7%nat.
Proof.
  apply (tick_queue_growth demo_sched.1 demo_sched.2 5);
    [exact (sched_steps_wf _ demo_sched_steps)|reflexivity..].
Defined.

(** Thread 1 runs, exits, and is runnable again after the next tick. *)
Definition demo_exited : SchedState :=
  let '(s, ths) := ticks 1 demo_sched in (s, (set_thread_state ths 1 Exited).1).

Lemma demo_exited_steps : rtc sched_step (Scheduler_new, []) demo_exited.
Proof.
  etrans; [apply demo_sched_steps|].
  eapply rtc_l; [by eapply ss_tick|]. eapply rtc_l; [|apply rtc_refl]. by apply (ss_state _ _ 1 Exited).
Qed.

Lemma tick_revives_previous_witness :
  lookup_thread demo_exited.2 1 = Some (set_state (demo_sched_thread 1 PrioNormal) Exited) ∧
  lookup_thread (ticks 1 demo_exited).2 1 = Some (demo_sched_thread 1 PrioNormal) ∧
  is_queued (ready (ticks 1 demo_exited).1) 1.
Proof.
  split; [reflexivity|].
  eapply (tick_revives_previous demo_exited.1 demo_exited.2 1 2
            (set_state (demo_sched_thread 1 PrioNormal) Exited) (ticks 1 demo_exited).1).
  - exact (sched_steps_wf _ demo_exited_steps).
  - reflexivity.
  - vm_compute; reflexivity.
  - lia.
  - reflexivity.
Defined.
