(* ===== verification/Ipc.v ===== *)
(** * Inter-process communication: data and operations

    Models [kernel/src/ipc.rs]: messages, the trace ring, the per-port metrics,
    the port table and the operations of [IpcManager].  The clock
    ([interrupts::get_ticks]) is read once per operation and passed as [ticks];
    the size of a shared region ([shared_mem::get_region_info]) is the argument
    [region_size], which gives the size of a live region. *)

From S2P Require Import Prelude Cap Thread Sched.

Definition MAX_MESSAGE_SIZE : Z := 256.
Definition ZERO_COPY_THRESHOLD : Z := 128.
Definition MAX_BATCH_SIZE : nat := 32.
Definition MAX_QUEUE_DEPTH : nat := 64.
Definition IPC_TRACE_RING_SIZE : nat := 1000.

Definition current_time_ms (ticks : Z) : Z := wrap64 (ticks * 10).

(** ** Messages *)

Inductive IpcCapability :=
| CapGrant (cap_handle : Z) (permissions : CapPermissions)
| CapMove (cap_handle : Z).

Record Message := mkMsg {
  sender : Z;
  message_type : Z;
  payload : list Z;
  capability : option IpcCapability;
  shared_region : option Z;
  timestamp_ms : Z;
}.

Definition Message_new (ticks sender message_type : Z) (payload : list Z) : Message :=
  mkMsg sender message_type payload None None (current_time_ms ticks).

Definition new_with_shared_region (ticks sender message_type region_id : Z) : Message :=
  mkMsg sender message_type [] None (Some region_id) (current_time_ms ticks).

Definition new_with_grant (ticks sender message_type : Z) (payload : list Z)
    (cap_handle : Z) (permissions : CapPermissions) : Message :=
  mkMsg sender message_type payload (Some (CapGrant cap_handle permissions)) None
    (current_time_ms ticks).

Definition new_with_move (ticks sender message_type : Z) (payload : list Z)
    (cap_handle : Z) : Message :=
  mkMsg sender message_type payload (Some (CapMove cap_handle)) None (current_time_ms ticks).

(** ** Trace ring *)

Inductive IpcEventKind := EvSend | EvReceive.

Record IpcTraceEvent := mkEvent {
  ev_timestamp_ms : Z;
  ev_kind : IpcEventKind;
  ev_port : Z;
  ev_sender : Z;
  ev_receiver : option Z;
  ev_size : Z;
}.

Record IpcTraceBuffer := mkTrace {
  tr_events : list (option IpcTraceEvent);
  tr_head : nat;
  tr_full : bool;
}.

Definition IpcTraceBuffer_new : IpcTraceBuffer :=
  mkTrace (replicate IPC_TRACE_RING_SIZE None) 0 false.

Definition trace_push (b : IpcTraceBuffer) (event : IpcTraceEvent) : IpcTraceBuffer :=
  let head' := ((tr_head b + 1) mod IPC_TRACE_RING_SIZE)%nat in
  mkTrace (<[tr_head b := Some event]> (tr_events b)) head'
    (if (head' =? 0)%nat then true else tr_full b).

Definition snapshot (b : IpcTraceBuffer) (max_events : nat) : list IpcTraceEvent :=
  let total := if tr_full b then IPC_TRACE_RING_SIZE else tr_head b in
  let to_collect := Nat.min total max_events in
  omap (λ i,
    let idx := if tr_full b then ((tr_head b + i) mod IPC_TRACE_RING_SIZE)%nat else i in
    mjoin (tr_events b !! idx))
  (seq 0 to_collect).

(** ** Metrics *)

Record IpcPortMetrics := mkMetrics {
  messages_sent : Z;
  messages_received : Z;
  bytes_sent : Z;
  bytes_received : Z;
  min_latency_ms : option Z;
  max_latency_ms : option Z;
  total_latency_ms : Z;
  first_message_timestamp_ms : option Z;
  last_message_timestamp_ms : option Z;
}.

Definition IpcPortMetrics_default : IpcPortMetrics :=
  mkMetrics 0 0 0 0 None None 0 None None.

Definition record_send (m : IpcPortMetrics) (size timestamp_ms : Z) : IpcPortMetrics :=
  mkMetrics (wrap64 (messages_sent m + 1)) (messages_received m)
    (wrap64 (bytes_sent m + size)) (bytes_received m)
    (min_latency_ms m) (max_latency_ms m) (total_latency_ms m)
    (match first_message_timestamp_ms m with None => Some timestamp_ms | o => o end)
    (Some timestamp_ms).

Definition record_receive (m : IpcPortMetrics) (size send_ts receive_ts : Z) : IpcPortMetrics :=
  let latency := saturating_sub receive_ts send_ts in
  mkMetrics (messages_sent m) (wrap64 (messages_received m + 1))
    (bytes_sent m) (wrap64 (bytes_received m + size))
    (Some (match min_latency_ms m with Some c => Z.min c latency | None => latency end))
    (Some (match max_latency_ms m with Some c => Z.max c latency | None => latency end))
    (saturating_add 128 (total_latency_ms m) latency)
    (match first_message_timestamp_ms m with None => Some send_ts | o => o end)
    (Some receive_ts).

Record IpcPortStats := mkPortStats {
  st_messages_sent : Z;
  st_messages_received : Z;
  st_bytes_sent : Z;
  st_bytes_received : Z;
  st_min_latency_ms : Z;
  st_max_latency_ms : Z;
  st_avg_latency_ms : Z;
  st_messages_per_second : Z;
}.

Definition to_stats (m : IpcPortMetrics) : IpcPortStats :=
  let avg :=
    if 0 <? messages_received m then wrap64 (total_latency_ms m / messages_received m) else 0 in
  let mps :=
    match first_message_timestamp_ms m, last_message_timestamp_ms m with
    | Some first, Some last =>
        let duration_ms := Z.max (saturating_sub last first) 1 in
        Z.min (messages_received m * 1000) U64_MAX / duration_ms
    | _, _ => 0
    end in
  mkPortStats (messages_sent m) (messages_received m) (bytes_sent m) (bytes_received m)
    (default 0 (min_latency_ms m)) (default 0 (max_latency_ms m)) avg mps.

(** ** Ports and the manager *)

Record PortState := mkPort {
  port_id : Z;
  port_owner : Z;
  port_messages : list Message;
  receiver_blocked : option Z;
  max_waiter_priority : option ThreadPriority;
  port_metrics : IpcPortMetrics;
}.

Definition PortState_new (id owner : Z) : PortState :=
  mkPort id owner [] None None IpcPortMetrics_default.

Record WaiterInfo := mkWaiter { wait_port : Z; wait_deadline : option Z }.

(** [IpcManager] with the [PortId] counter. *)
Record IpcManager := mkIpc {
  ports : gmap Z PortState;
  waiting_threads : gmap Z WaiterInfo;
  trace : IpcTraceBuffer;
  next_port : Z;
}.

Definition IpcManager_new : IpcManager := mkIpc ∅ ∅ IpcTraceBuffer_new 1.

Definition set_ports (m : IpcManager) (ps : gmap Z PortState) : IpcManager :=
  mkIpc ps (waiting_threads m) (trace m) (next_port m).

Definition set_waiting (m : IpcManager) (ws : gmap Z WaiterInfo) : IpcManager :=
  mkIpc (ports m) ws (trace m) (next_port m).

Definition record_trace_event (m : IpcManager) (e : IpcTraceEvent) : IpcManager :=
  mkIpc (ports m) (waiting_threads m) (trace_push (trace m) e) (next_port m).

Inductive IpcError :=
| InvalidPort | IpcPermissionDenied | MessageTooLarge | PortBusy | WouldBlock | BatchTooLarge
| Timeout | QueueFull | DeadlockDetected | InvalidSharedRegion | RequiresSharedMemory
| SharedMemoryPayloadConflict.

#[export] Instance IpcError_eq_dec : EqDecision IpcError.
Proof. solve_decision. Defined.

Definition create_port (m : IpcManager) (owner : Z) : IpcManager * Z :=
  let port_id := next_port m in
  (mkIpc (<[port_id := PortState_new port_id owner]> (ports m)) (waiting_threads m) (trace m)
     (wrap64 (next_port m + 1)),
   port_id).

Definition get_port_owner (m : IpcManager) (pid : Z) : option Z := port_owner <$> ports m !! pid.

Definition close_port (m : IpcManager) (pid caller : Z) : IpcManager * result unit IpcError :=
  match ports m !! pid with
  | Some port =>
      if negb (port_owner port =? caller) then (m, Err IpcPermissionDenied)
      else (set_ports m (delete pid (ports m)), Ok tt)
  | None => (m, Err InvalidPort)
  end.

Definition get_max_waiter_priority (m : IpcManager) (pid : Z) : option ThreadPriority :=
  p ← ports m !! pid; max_waiter_priority p.

(** The loop of [detect_deadlock], entered with [current_port = Some pid]; the
    loop body runs while [steps <= ports.len() + waiting.len()]. *)
Fixpoint deadlock_loop (fuel : nat) (m : IpcManager) (start pid : Z) : bool :=
  match fuel with
  | O => false
  | S fuel =>
      match ports m !! pid with
      | None => false
      | Some port =>
          if port_owner port =? start then true
          else match waiting_threads m !! port_owner port with
               | None => false
               | Some info => deadlock_loop fuel m start (wait_port info)
               end
      end
  end.

Definition detect_deadlock (m : IpcManager) (start target_port : Z) : bool :=
  deadlock_loop (S (size (ports m) + size (waiting_threads m))) m start target_port.

Definition block_recv (m : IpcManager) (pid caller : Z) (caller_priority : ThreadPriority)
    (deadline : option Z) : IpcManager * result unit IpcError :=
  match ports m !! pid with
  | None => (m, Err InvalidPort)
  | Some port =>
      if detect_deadlock m caller pid then (m, Err DeadlockDetected)
      else if bool_decide (is_Some (receiver_blocked port)) then (m, Err PortBusy)
      else
        let prio := match max_waiter_priority port with
                    | Some p => prio_max p caller_priority
                    | None => caller_priority
                    end in
        let port := mkPort (port_id port) (port_owner port) (port_messages port) (Some caller)
                      (Some prio) (port_metrics port) in
        (set_waiting (set_ports m (<[pid := port]> (ports m)))
           (<[caller := mkWaiter pid deadline]> (waiting_threads m)),
         Ok tt)
  end.

Record IpcStats := mkIpcStats { total_ports : nat; total_messages : nat; blocked_threads : nat }.

Definition get_stats (m : IpcManager) : IpcStats :=
  mkIpcStats (size (ports m))
    (sum_list ((λ e, length (port_messages e.2)) <$> btree_entries (ports m)))
    (size (waiting_threads m)).

Definition port_stats (m : IpcManager) (pid : Z) : result IpcPortStats IpcError :=
  match ports m !! pid with
  | None => Err InvalidPort
  | Some port => Ok (to_stats (port_metrics port))
  end.

Definition get_trace_events (m : IpcManager) (max_events : nat) : list IpcTraceEvent :=
  snapshot (trace m) max_events.

(** ** Sending and receiving *)

Definition stamp (ticks : Z) (msg : Message) : Message :=
  if timestamp_ms msg =? 0 then
    mkMsg (sender msg) (message_type msg) (payload msg) (capability msg) (shared_region msg)
      (current_time_ms ticks)
  else msg.

Definition send_event (pid : Z) (msg : Message) (size : Z) : IpcTraceEvent :=
  mkEvent (timestamp_ms msg) EvSend pid (sender msg) None size.

Definition receive_event (ticks pid caller : Z) (msg : Message) (size : Z) : IpcTraceEvent :=
  mkEvent (current_time_ms ticks) EvReceive pid (sender msg) (Some caller) size.

Definition port_enqueue (port : PortState) (msg : Message) (size : Z) : PortState :=
  mkPort (port_id port) (port_owner port) (port_messages port ++ [msg]) (receiver_blocked port)
    (max_waiter_priority port) (record_send (port_metrics port) size (timestamp_ms msg)).

Definition set_messages (port : PortState) (q : list Message) : PortState :=
  mkPort (port_id port) (port_owner port) q (receiver_blocked port) (max_waiter_priority port)
    (port_metrics port).

Definition set_metrics (port : PortState) (mt : IpcPortMetrics) : PortState :=
  mkPort (port_id port) (port_owner port) (port_messages port) (receiver_blocked port)
    (max_waiter_priority port) mt.

Definition clear_receiver (port : PortState) : PortState :=
  mkPort (port_id port) (port_owner port) (port_messages port) None None (port_metrics port).

Definition set_port (m : IpcManager) (pid : Z) (port : PortState) : IpcManager :=
  set_ports m (<[pid := port]> (ports m)).

(** The loop of [send_batch] over the prepared messages. *)
Fixpoint enqueue_all (pid : Z) (prepared : list (Message * Z)) (m : IpcManager)
    (port : PortState) : IpcManager * PortState :=
  match prepared with
  | [] => (m, port)
  | (msg, size) :: prepared =>
      enqueue_all pid prepared (record_trace_event m (send_event pid msg size))
        (port_enqueue port msg size)
  end.

(** Waking a thread: [sched::mark_thread_ready], then [restore_priority]. *)
Definition wake (s : Scheduler) (ths : list Thread) (tid : Z) : Scheduler * list Thread :=
  let '(s, ths) := mark_thread_ready s ths tid in
  (restore_original_priority s tid, ths).

Section transfer.
Context (region_size : Z → option Z).

Definition validate_payload_and_size (msg : Message) : result Z IpcError :=
  match shared_region msg with
  | Some region =>
      match payload msg with
      | _ :: _ => Err SharedMemoryPayloadConflict
      | [] => match region_size region with
              | None => Err InvalidSharedRegion
              | Some size => Ok size
              end
      end
  | None =>
      let len := Z.of_nat (length (payload msg)) in
      if MAX_MESSAGE_SIZE <? len then Err MessageTooLarge
      else if ZERO_COPY_THRESHOLD <? len then Err RequiresSharedMemory
      else Ok len
  end.

Definition send_message (ticks : Z) (m : IpcManager) (pid : Z) (msg : Message)
    : IpcManager * result unit IpcError :=
  match ports m !! pid with
  | None => (m, Err InvalidPort)
  | Some port =>
      match validate_payload_and_size msg with
      | Err e => (m, Err e)
      | Ok size =>
          if (MAX_QUEUE_DEPTH <=? length (port_messages port))%nat then (m, Err QueueFull)
          else
            let msg := stamp ticks msg in
            (record_trace_event (set_port m pid (port_enqueue port msg size))
               (send_event pid msg size),
             Ok tt)
      end
  end.

(** The first loop of [send_batch]: validation and time stamps. *)
Fixpoint prepare (ticks : Z) (msgs : list Message) : result (list (Message * Z)) IpcError :=
  match msgs with
  | [] => Ok []
  | msg :: msgs =>
      match validate_payload_and_size msg with
      | Err e => Err e
      | Ok size =>
          match prepare ticks msgs with
          | Err e => Err e
          | Ok prepared => Ok ((stamp ticks msg, size) :: prepared)
          end
      end
  end.

Definition send_batch (ticks : Z) (m : IpcManager) (s : Scheduler) (ths : list Thread)
    (pid : Z) (msgs : list Message)
    : IpcManager * Scheduler * list Thread * result nat IpcError :=
  match msgs with
  | [] => (m, s, ths, Ok 0%nat)
  | _ :: _ =>
      if (MAX_BATCH_SIZE <? length msgs)%nat then (m, s, ths, Err BatchTooLarge)
      else
        match ports m !! pid with
        | None => (m, s, ths, Err InvalidPort)
        | Some port =>
            match prepare ticks msgs with
            | Err e => (m, s, ths, Err e)
            | Ok prepared =>
                if (MAX_QUEUE_DEPTH <? length (port_messages port) + length prepared)%nat then
                  (m, s, ths, Err QueueFull)
                else
                  let count := length prepared in
                  let '(m, port) := enqueue_all pid prepared m port in
                  match receiver_blocked port with
                  | Some receiver_id =>
                      let m := set_port m pid (clear_receiver port) in
                      let m := set_waiting m (delete receiver_id (waiting_threads m)) in
                      let '(s, ths) := wake s ths receiver_id in
                      (m, s, ths, Ok count)
                  | None => (set_port m pid port, s, ths, Ok count)
                  end
            end
        end
  end.

(** One iteration of the receive loops: the head of the queue is popped first;
    an unresolvable size leaves it popped and ends the operation. *)
Definition receive_one (ticks : Z) (m : IpcManager) (pid caller : Z) (port : PortState)
    (msg : Message) (rest : list Message) : IpcManager * result unit IpcError :=
  let port := set_messages port rest in
  match validate_payload_and_size msg with
  | Err e => (set_port m pid port, Err e)
  | Ok size =>
      (record_trace_event
         (set_port m pid
            (set_metrics port
               (record_receive (port_metrics port) size (timestamp_ms msg) (current_time_ms ticks))))
         (receive_event ticks pid caller msg size),
       Ok tt)
  end.

Definition try_recv (ticks : Z) (m : IpcManager) (pid caller : Z)
    : IpcManager * result (option Message) IpcError :=
  match ports m !! pid with
  | None => (m, Err InvalidPort)
  | Some port =>
      match port_messages port with
      | [] => (m, Ok None)
      | msg :: rest =>
          match receive_one ticks m pid caller port msg rest with
          | (m, Err e) => (m, Err e)
          | (m, Ok _) => (m, Ok (Some msg))
          end
      end
  end.

Fixpoint recv_loop (n : nat) (ticks : Z) (m : IpcManager) (pid caller : Z)
    (received : list Message) : IpcManager * result (list Message) IpcError :=
  match n with
  | O => (m, Ok received)
  | S n =>
      match ports m !! pid with
      | None => (m, Err InvalidPort)
      | Some port =>
          match port_messages port with
          | [] => (m, Ok received)
          | msg :: rest =>
              match receive_one ticks m pid caller port msg rest with
              | (m, Err e) => (m, Err e)
              | (m, Ok _) => recv_loop n ticks m pid caller (received ++ [msg])
              end
          end
      end
  end.

Definition recv_batch (ticks : Z) (m : IpcManager) (pid caller : Z) (max_count : nat)
    : IpcManager * result (list Message) IpcError :=
  let max_count := Nat.min max_count MAX_BATCH_SIZE in
  match ports m !! pid with
  | None => (m, Err InvalidPort)
  | Some _ => recv_loop max_count ticks m pid caller []
  end.
End transfer.

(** ** Timeouts *)

Definition expired_waiters (m : IpcManager) (current_ticks : Z) : list (Z * Z) :=
  omap (λ e, match wait_deadline e.2 with
             | Some deadline => if deadline <=? current_ticks then Some (e.1, wait_port e.2) else None
             | None => None
             end) (btree_entries (waiting_threads m)).

Definition release_port (ps : gmap Z PortState) (e : Z * Z) : gmap Z PortState :=
  match ps !! e.2 with
  | Some port =>
      if bool_decide (receiver_blocked port = Some e.1) then <[e.2 := clear_receiver port]> ps
      else ps
  | None => ps
  end.

Definition handle_timeouts (m : IpcManager) (s : Scheduler) (ths : list Thread)
    (current_ticks : Z) : IpcManager * Scheduler * list Thread :=
  let expired := expired_waiters m current_ticks in
  match expired with
  | [] => (m, s, ths)
  | _ =>
      let m := set_ports m (foldl release_port (ports m) expired) in
      let m := set_waiting m (foldl (λ ws e, delete e.1 ws) (waiting_threads m) expired) in
      let '(s, ths) := foldl (λ st e, wake st.1 st.2 e.1) (s, ths) expired in
      (m, s, ths)
  end.
