(* ===== verification/IpcTrace.v ===== *)
(** * Trace ring and port metrics

    What the diagnostics of [kernel/src/ipc.rs] report: the trace ring keeps the
    last [IPC_TRACE_RING_SIZE] events, and the per-port statistics are the exact
    minimum, maximum and mean of the latencies observed. *)

From S2P Require Import Prelude Cap Thread Sched Ipc.

Local Opaque IPC_TRACE_RING_SIZE.

Lemma ring_size_pos : (0 < IPC_TRACE_RING_SIZE)%nat.
Proof. Local Transparent IPC_TRACE_RING_SIZE. unfold IPC_TRACE_RING_SIZE. lia. Qed.
Local Opaque IPC_TRACE_RING_SIZE.

(** The ring [b] represents the history [hist] of all events pushed so far. *)
Record trace_repr (b : IpcTraceBuffer) (hist : list IpcTraceEvent) : Prop := {
  tr_length : length (tr_events b) = IPC_TRACE_RING_SIZE;
  tr_head_at : tr_head b = (length hist mod IPC_TRACE_RING_SIZE)%nat;
  tr_full_iff : tr_full b = (IPC_TRACE_RING_SIZE <=? length hist)%nat;
  tr_kept : ∀ k, (length hist - IPC_TRACE_RING_SIZE ≤ k < length hist)%nat →
    tr_events b !! (k mod IPC_TRACE_RING_SIZE)%nat = Some (hist !! k);
}.

Lemma mod_neq_close n a b : (a < b < a + n)%nat → (a mod n ≠ b mod n)%nat.
Proof.
  intros H E. pose proof (Nat.div_mod_eq a n). pose proof (Nat.div_mod_eq b n).
  rewrite E in *. assert (a / n < b / n)%nat by nia. nia.
Qed.

Lemma trace_repr_new : trace_repr IpcTraceBuffer_new [].
Proof.
  pose proof ring_size_pos. split; simpl.
  - apply length_replicate.
  - rewrite Nat.mod_small; lia.
  - symmetry. apply Nat.leb_gt. done.
  - lia.
Qed.

Lemma trace_repr_push b hist e : trace_repr b hist → trace_repr (trace_push b e) (hist ++ [e]).
Proof.
  pose proof ring_size_pos as Hpos. intros [Hl Hh Hf Hk].
  assert (Hh' : ((tr_head b + 1) mod IPC_TRACE_RING_SIZE = (length hist + 1) mod IPC_TRACE_RING_SIZE)%nat)
    by (rewrite Hh; apply Nat.Div0.add_mod_idemp_l).
  unfold trace_push. rewrite Hh'. split; cbn [tr_events tr_head tr_full]; rewrite ?length_app, ?length_insert; simpl.
  - done.
  - done.
  - rewrite Hf. destruct ((length hist + 1) mod IPC_TRACE_RING_SIZE =? 0)%nat eqn:E0.
    + symmetry. apply Nat.leb_le. apply Nat.eqb_eq in E0.
      pose proof (Nat.div_mod_eq (length hist + 1) IPC_TRACE_RING_SIZE) as Hd. rewrite E0 in Hd.
      destruct ((length hist + 1) / IPC_TRACE_RING_SIZE)%nat; lia.
    + apply Nat.eqb_neq in E0. destruct (decide (length hist + 1 = IPC_TRACE_RING_SIZE)%nat) as [Heq|].
      * rewrite Heq, Nat.Div0.mod_same in E0. done.
      * destruct (Nat.leb_spec IPC_TRACE_RING_SIZE (length hist));
          destruct (Nat.leb_spec IPC_TRACE_RING_SIZE (length hist + 1)); (done || lia).
  - intros k Hr. destruct (decide (k = length hist)) as [->|Hne].
    + rewrite <- Hh, list_lookup_insert_eq by (rewrite Hl, Hh; apply Nat.mod_upper_bound; lia).
      by rewrite lookup_app_r, Nat.sub_diag by lia.
    + rewrite list_lookup_insert_ne by (rewrite Hh; apply not_eq_sym, mod_neq_close; lia).
      rewrite lookup_app_l by lia. apply Hk. lia.
Qed.

Lemma trace_repr_foldl evs : trace_repr (foldl trace_push IpcTraceBuffer_new evs) evs.
Proof.
  induction evs as [|e evs IH] using rev_ind; [apply trace_repr_new|].
  rewrite foldl_app. by apply trace_repr_push.
Qed.

Lemma snapshot_repr b hist n :
  trace_repr b hist →
  snapshot b n = take n (drop (length hist - IPC_TRACE_RING_SIZE) hist).
Proof.
  pose proof ring_size_pos as Hpos. intros [Hl Hh Hf Hk]. unfold snapshot.
  set (N := IPC_TRACE_RING_SIZE) in *. set (L := length hist) in *.
  set (total := if tr_full b then N else tr_head b).
  assert (Htot : total = Nat.min N L).
  { unfold total. rewrite Hf, Hh. destruct (Nat.leb_spec N L); [lia|]. rewrite Nat.mod_small; lia. }
  rewrite (omap_ext_in _ (λ j, hist !! (L - N + j)%nat)).
  - rewrite omap_lookup_seq, Htot, <- (firstn_all (drop (L - N) hist)), length_drop.
    fold L. rewrite !take_take. f_equal. lia.
  - intros j Hj. apply elem_of_seq in Hj.
    assert (Hkj := Hk (L - N + j)%nat). rewrite Hf, Hh.
    destruct (Nat.leb_spec N L).
    + replace ((L mod N + j) mod N)%nat with ((L - N + j) mod N)%nat; [rewrite Hkj by lia; done|].
      rewrite Nat.Div0.add_mod_idemp_l. replace (L + j)%nat with (L - N + j + 1 * N)%nat by lia.
      by rewrite Nat.Div0.mod_add.
    + rewrite Nat.mod_small in Hkj by lia. replace (L - N + j)%nat with j in * by lia.
      by rewrite Hkj by lia.
Qed.

(** The trace ring refines the unbounded event history: after any sequence
    of events, [snapshot(max)] is the first [max] of the last
    [IPC_TRACE_RING_SIZE] events, oldest first. *)
Theorem trace_ring_correct evs max_events :
  snapshot (foldl trace_push IpcTraceBuffer_new evs) max_events =
  take max_events (drop (length evs - IPC_TRACE_RING_SIZE) evs).
Proof. apply snapshot_repr, trace_repr_foldl. Qed.

(** ** Port metrics *)

(** What happens to the metrics of a port. *)
Inductive MetricEvent :=
| MSent (size ts : Z)
| MReceived (size send_ts receive_ts : Z).

Definition apply_metric (m : IpcPortMetrics) (e : MetricEvent) : IpcPortMetrics :=
  match e with
  | MSent size ts => record_send m size ts
  | MReceived size s r => record_receive m size s r
  end.

Definition latency_of (e : MetricEvent) : option Z :=
  match e with
  | MSent _ _ => None
  | MReceived _ s r => Some (saturating_sub r s)
  end.

Definition zsum (l : list Z) : Z := foldr Z.add 0 l.

Definition least (l : list Z) (x : Z) : Prop := x ∈ l ∧ ∀ y, y ∈ l → x ≤ y.
Definition greatest (l : list Z) (x : Z) : Prop := x ∈ l ∧ ∀ y, y ∈ l → y ≤ x.

(** The metrics [m] summarise the latencies [ls]. *)
Record metrics_of (m : IpcPortMetrics) (ls : list Z) : Prop := {
  mo_count : messages_received m = Z.of_nat (length ls);
  mo_total : total_latency_ms m = zsum ls;
  mo_min : match min_latency_ms m with Some x => least ls x | None => ls = [] end;
  mo_max : match max_latency_ms m with Some x => greatest ls x | None => ls = [] end;
}.

Lemma zsum_app a b : zsum (a ++ b) = zsum a + zsum b.
Proof. induction a; simpl; lia. Qed.

Lemma zsum_single x : zsum [x] = x.
Proof. apply Z.add_0_r. Qed.

Lemma zsum_bound l : Forall (in_range 64) l → 0 ≤ zsum l ≤ Z.of_nat (length l) * U64_MAX.
Proof. unfold U64_MAX. induction 1 as [|x l [? ?] ? IH]; simpl length; simpl zsum; lia. Qed.

Lemma least_snoc l x y : least l x → least (l ++ [y]) (Z.min x y).
Proof.
  intros [Hx Hl]. split.
  - destruct (Z.min_spec x y) as [[_ ->]|[_ ->]]; set_solver.
  - intros z. rewrite elem_of_app, list_elem_of_singleton. intros [Hz| ->]; [apply Hl in Hz|]; lia.
Qed.

Lemma greatest_snoc l x y : greatest l x → greatest (l ++ [y]) (Z.max x y).
Proof.
  intros [Hx Hl]. split.
  - destruct (Z.max_spec x y) as [[_ ->]|[_ ->]]; set_solver.
  - intros z. rewrite elem_of_app, list_elem_of_singleton. intros [Hz| ->]; [apply Hl in Hz|]; lia.
Qed.

Lemma least_single x : least [x] x.
Proof. split; [set_solver|]. intros y ->%list_elem_of_singleton. lia. Qed.

Lemma greatest_single x : greatest [x] x.
Proof. split; [set_solver|]. intros y ->%list_elem_of_singleton. lia. Qed.

Lemma metrics_of_step m ls e :
  metrics_of m ls → Forall (in_range 64) (ls ++ option_list (latency_of e)) →
  Z.of_nat (length (ls ++ option_list (latency_of e))) ≤ U64_MAX →
  metrics_of (apply_metric m e) (ls ++ option_list (latency_of e)).
Proof.
  intros [Hc Ht Hmin Hmax] [Hls He]%Forall_app Hlen. rewrite length_app in Hlen. destruct e as [size ts|size s r]; simpl in *.
  - rewrite app_nil_r. by split.
  - apply Forall_inv in He as [Hl1 Hl2]. split; simpl.
    + rewrite Hc, wrap_succ64, length_app by lia. simpl. lia.
    + rewrite zsum_app, zsum_single, Ht. pose proof (zsum_bound ls Hls) as Hb. unfold saturating_add.
      unfold U64_MAX in *. rewrite Z.min_l; [lia|].
      simpl in Hlen.
      assert (zsum ls ≤ (2 ^ 64 - 2) * (2 ^ 64 - 1)); [|lia].
      etrans; [apply Hb|]. apply Z.mul_le_mono_nonneg_r; lia.
    + destruct (min_latency_ms m); [by apply least_snoc|]. subst ls. apply least_single.
    + destruct (max_latency_ms m); [by apply greatest_snoc|]. subst ls. apply greatest_single.
Qed.

Lemma metrics_of_foldl evs :
  Forall (in_range 64) (omap latency_of evs) → Z.of_nat (length (omap latency_of evs)) ≤ U64_MAX →
  metrics_of (foldl apply_metric IpcPortMetrics_default evs) (omap latency_of evs).
Proof.
  induction evs as [|e evs IH] using rev_ind; [by split|].
  rewrite omap_app, foldl_app. intros [Hr He]%Forall_app Hl. rewrite length_app in Hl.
  assert (omap latency_of [e] = option_list (latency_of e)) as Ho.
  { simpl. by destruct (latency_of e). }
  rewrite Ho in *. apply (metrics_of_step _ _ e).
  - apply IH; [done|lia].
  - by apply Forall_app.
  - by rewrite length_app.
Qed.

(** Latencies of well-formed time stamps fit in 64 bits. *)
Lemma latency_range r s : in_range 64 r → in_range 64 s → in_range 64 (saturating_sub r s).
Proof. unfold in_range, saturating_sub. lia. Qed.

(** Time stamps are [u64]. *)
Definition metric_event_wf (e : MetricEvent) : Prop :=
  match e with
  | MSent _ _ => True
  | MReceived _ s r => in_range 64 s ∧ in_range 64 r
  end.

Lemma latencies_range evs : Forall metric_event_wf evs → Forall (in_range 64) (omap latency_of evs).
Proof.
  induction 1 as [|e evs He _ IH]; [constructor|]. destruct e; simpl; [done|].
  constructor; [|done]. destruct He. by apply latency_range.
Qed.

Lemma zsum_least_greatest l a b :
  least l a → greatest l b →
  a * Z.of_nat (length l) ≤ zsum l ≤ b * Z.of_nat (length l).
Proof.
  intros [_ Ha] [_ Hb]. induction l as [|x l IH]; simpl length; simpl zsum; [lia|].
  assert (a ≤ x ≤ b) by (split; [apply Ha|apply Hb]; set_solver).
  assert (a * Z.of_nat (length l) ≤ zsum l ≤ b * Z.of_nat (length l)); [|lia].
  apply IH; intros y Hy; [apply Ha|apply Hb]; set_solver.
Qed.

(** Port statistics are exact: after any interleaving of sends and receives
    with at least one receive (and fewer than [2^64] of them), the reported
    minimum and maximum are attained bounds of the latencies, and the average
    is their sum divided by their number, which lies between the two. *)
Theorem port_stats_exact evs :
  let ls := omap latency_of evs in
  let st := to_stats (foldl apply_metric IpcPortMetrics_default evs) in
  Forall metric_event_wf evs → ls ≠ [] → Z.of_nat (length ls) ≤ U64_MAX →
  st_messages_received st = Z.of_nat (length ls) ∧
  least ls (st_min_latency_ms st) ∧ greatest ls (st_max_latency_ms st) ∧
  st_avg_latency_ms st = zsum ls / Z.of_nat (length ls) ∧
  st_min_latency_ms st ≤ st_avg_latency_ms st ≤ st_max_latency_ms st.
Proof.
  intros ls st Hwf Hne Hlen. pose proof (latencies_range evs Hwf) as Hr.
  destruct (metrics_of_foldl evs Hr Hlen) as [Hc Ht Hmin Hmax].
  fold ls in Hc, Ht, Hmin, Hmax, Hr. unfold to_stats in st. subst st. simpl.
  set (m := foldl apply_metric IpcPortMetrics_default evs) in *.
  destruct (min_latency_ms m) as [lo|]; [|done]. destruct (max_latency_ms m) as [hi|]; [|done]. simpl.
  assert (Hpos : 0 < Z.of_nat (length ls)) by (destruct ls; [done|simpl; lia]).
  rewrite Hc, Ht, (proj2 (Z.ltb_lt _ _) Hpos).
  pose proof (zsum_least_greatest ls lo hi Hmin Hmax) as Hb.
  assert (lo ≤ zsum ls / Z.of_nat (length ls) ≤ hi) as Havg.
  { split; [apply Z.div_le_lower_bound|apply Z.div_le_upper_bound]; lia. }
  assert (in_range 64 lo ∧ in_range 64 hi) as [[? ?] [? ?]].
  { rewrite Forall_forall in Hr. split; apply Hr; [apply Hmin|apply Hmax]. }
  rewrite wrap_small by (unfold in_range; lia). split_and!; try done; lia.
Qed.

Definition demo_metric_events : list MetricEvent :=
  [MSent 16 100; MReceived 16 100 130; MSent 8 140; MSent 8 150; MReceived 8 140 150; MReceived 8 150 175].

Lemma port_stats_exact_witness :
  let st := to_stats (foldl apply_metric IpcPortMetrics_default demo_metric_events) in
  (st_min_latency_ms st, st_avg_latency_ms st, st_max_latency_ms st) = (10, 21, 30) ∧
  st_min_latency_ms st ≤ st_avg_latency_ms st ≤ st_max_latency_ms st.
Proof.
  split; [reflexivity|].
  apply (port_stats_exact demo_metric_events).
  - repeat constructor; vm_compute; congruence.
  - discriminate.
  - vm_compute; discriminate.
Defined.
