(* ===== verification/IpcSafety.v ===== *)
(** * Inter-process communication: properties

    The operations of [Ipc.v] as a transition system, its invariant (bounded
    queues, consistent waiters, acyclic wait-for graph), exactness of the
    deadlock detector and of the timeout handler, and first-in first-out
    delivery. *)

From S2P Require Import Prelude Cap Thread Sched Ipc.

(** ** Deadlock detection *)

(** [waits m start p]: following owners and the ports they wait on from port
    [p] leads to a port owned by thread [start]. *)
Inductive waits (m : IpcManager) (start : Z) : Z → Prop :=
| waits_here p : get_port_owner m p = Some start → waits m start p
| waits_next p o w :
    get_port_owner m p = Some o → waiting_threads m !! o = Some w →
    waits m start (wait_port w) → waits m start p.

Lemma waits_mono m m' s p :
  (∀ p o, get_port_owner m p = Some o → get_port_owner m' p = Some o) →
  (∀ t w, waiting_threads m !! t = Some w → waiting_threads m' !! t = Some w) →
  waits m s p → waits m' s p.
Proof. intros Ho Hw. induction 1; [by apply waits_here; auto|eapply waits_next; eauto]. Qed.

Lemma waits_trans m t w s p :
  waits m t p → waiting_threads m !! t = Some w → waits m s (wait_port w) → waits m s p.
Proof. induction 1; intros; eapply waits_next; eauto. Qed.

Lemma deadlock_loop_sound n m s p : deadlock_loop n m s p = true → waits m s p.
Proof.
  revert p. induction n as [|n IH]; intros p; simpl; [done|].
  destruct (ports m !! p) as [port|] eqn:Hp; [|done].
  assert (get_port_owner m p = Some (port_owner port)) as Ho by (unfold get_port_owner; by rewrite Hp).
  destruct (Z.eqb_spec (port_owner port) s) as [<-|]; [intros _; by apply waits_here|].
  destruct (waiting_threads m !! port_owner port) as [w|] eqn:Hw; [|done].
  intros. eapply waits_next; eauto.
Qed.

Lemma deadlock_loop_mono n k m s p :
  (n ≤ k)%nat → deadlock_loop n m s p = true → deadlock_loop k m s p = true.
Proof.
  revert k p. induction n as [|n IH]; intros [|k] p Hle; simpl; try done; [lia|].
  destruct (ports m !! p); [|done]. case_match; [done|]. case_match; [|done].
  apply IH. lia.
Qed.

Lemma waits_loop m s p : waits m s p → ∃ n, deadlock_loop n m s p = true.
Proof.
  induction 1 as [p Ho|p o w Ho Hw _ [n IH]].
  - exists 1%nat. unfold get_port_owner in Ho. simpl. destruct (ports m !! p); simplify_eq/=.
    by rewrite Z.eqb_refl.
  - exists (S n). unfold get_port_owner in Ho. simpl. destruct (ports m !! p); simplify_eq/=.
    case_match; [done|]. by rewrite Hw.
Qed.

(** The detector needs exactly [n] iterations from port [p]. *)
Definition needs (m : IpcManager) (s : Z) (n : nat) (p : Z) : Prop :=
  deadlock_loop n m s p = true ∧ ∀ k, (k < n)%nat → deadlock_loop k m s p = false.

Lemma needs_exists m s n p : deadlock_loop n m s p = true → ∃ k, needs m s k p.
Proof.
  induction n as [|n IH]; [done|]. intros H.
  destruct (deadlock_loop n m s p) eqn:E; [by apply IH|].
  exists (S n). split; [done|]. intros k Hk.
  destruct (deadlock_loop k m s p) eqn:E'; [|done].
  apply (deadlock_loop_mono _ n) in E'; [congruence|lia].
Qed.

Lemma needs_inj m s n k p : needs m s n p → needs m s k p → n = k.
Proof.
  intros [Hn Hn'] [Hk Hk']. destruct (lt_eq_lt_dec n k) as [[Hlt|]|Hlt]; [|done|].
  - by rewrite (Hk' _ Hlt) in Hn.
  - by rewrite (Hn' _ Hlt) in Hk.
Qed.

(** The ports on a shortest path are distinct. *)
Lemma needs_path m s n p :
  needs m s n p →
  ∃ l, length l = n ∧ NoDup l ∧
    ∀ q, q ∈ l → is_Some (ports m !! q) ∧ ∃ k, (k ≤ n)%nat ∧ needs m s k q.
Proof.
  revert p. induction n as [|n IH]; intros p Hn.
  { by destruct Hn. }
  pose proof Hn as [Ht Hf]. simpl in Ht. destruct (ports m !! p) as [port|] eqn:Hp; [|done].
  destruct n as [|n].
  { exists [p]. split_and!; [done|apply NoDup_singleton|].
    intros q ->%list_elem_of_singleton. rewrite Hp. split; [by eexists|]. by exists 1%nat. }
  assert (Hown : (port_owner port =? s) = false).
  { specialize (Hf 1%nat ltac:(lia)). simpl in Hf. rewrite Hp in Hf. by case_match. }
  rewrite Hown in Ht. destruct (waiting_threads m !! port_owner port) as [w|] eqn:Hw; [|done].
  destruct (IH (wait_port w)) as (l & Hl & Hnd & Hq).
  { split; [done|]. intros k Hk. specialize (Hf (S k) ltac:(lia)).
    simpl in Hf. by rewrite Hp, Hown, Hw in Hf. }
  exists (p :: l). split_and!; [simpl; lia| |].
  - constructor; [|done]. intros Hin. destruct (Hq _ Hin) as [_ (k & Hk & Hnk)].
    pose proof (needs_inj _ _ _ _ _ Hn Hnk). lia.
  - intros q [->|Hin]%elem_of_cons.
    + rewrite Hp. split; [by eexists|]. by exists (S (S n)).
    + destruct (Hq _ Hin) as [? (k & ? & ?)]. split; [done|]. exists k. split; [lia|done].
Qed.

Lemma needs_bound m s n p : needs m s n p → (n ≤ size (ports m))%nat.
Proof.
  intros (l & <- & Hnd & Hq)%needs_path.
  rewrite <- size_dom, <- (size_list_to_set (C := gset Z) l) by done.
  apply subseteq_size. intros q Hin%elem_of_list_to_set. apply elem_of_dom, Hq. done.
Qed.

Lemma detect_deadlock_iff m s p : detect_deadlock m s p = true ↔ waits m s p.
Proof.
  split; [apply deadlock_loop_sound|].
  intros [n Hn]%waits_loop. apply needs_exists in Hn as [k Hk].
  eapply deadlock_loop_mono; [|apply Hk]. apply needs_bound in Hk. lia.
Qed.

(** ** Acyclic waiting *)

(** No waiting thread can reach itself through the ports it waits for. *)
Definition acyclic (m : IpcManager) : Prop :=
  ∀ t w, waiting_threads m !! t = Some w → ¬ waits m t (wait_port w).

Lemma acyclic_mono m m' :
  (∀ p o, get_port_owner m' p = Some o → get_port_owner m p = Some o) →
  (∀ t w, waiting_threads m' !! t = Some w → waiting_threads m !! t = Some w) →
  acyclic m → acyclic m'.
Proof. intros Ho Hw Ha t w Ht H. eapply (Ha t w); [by apply Hw|]. by eapply waits_mono. Qed.

(** A path of the graph with the edge [caller -> pid] added either avoids the
    edge, or reaches [caller] first and goes on from [pid]. *)
Lemma waits_add_edge m m' caller pid d s p :
  let m0 := set_waiting m (delete caller (waiting_threads m)) in
  (∀ p, get_port_owner m' p = get_port_owner m p) →
  waiting_threads m' = <[caller := mkWaiter pid d]> (waiting_threads m) →
  waits m' s p → waits m0 s p ∨ (waits m0 caller p ∧ waits m0 s pid).
Proof.
  intros m0 Ho Hw. induction 1 as [p Hp|p o w Hp Hwo _ IH]; rewrite Ho in Hp.
  - left. by apply waits_here.
  - rewrite Hw in Hwo. destruct (decide (o = caller)) as [->|Hne].
    + rewrite lookup_insert_eq in Hwo. injection Hwo as <-. simpl in IH.
      right. split; [by apply waits_here|]. destruct IH as [?|[_ ?]]; done.
    + rewrite lookup_insert_ne in Hwo by done.
      assert (waiting_threads m0 !! o = Some w) as Hw0 by (simpl; by rewrite lookup_delete_ne).
      destruct IH as [?|[? ?]]; [left|right; split; [|done]]; eapply waits_next; eauto.
Qed.

Lemma acyclic_add_edge m m' caller pid d :
  (∀ p, get_port_owner m' p = get_port_owner m p) →
  waiting_threads m' = <[caller := mkWaiter pid d]> (waiting_threads m) →
  ¬ waits m caller pid → acyclic m → acyclic m'.
Proof.
  intros Ho Hw Hno Ha t w Ht Hc.
  assert (Hback : ∀ s p, waits (set_waiting m (delete caller (waiting_threads m))) s p → waits m s p).
  { intros s p. apply waits_mono; [done|]. simpl. intros u x. rewrite lookup_delete_Some. tauto. }
  eapply (waits_add_edge m m' caller pid d) in Hc; [|done..].
  rewrite Hw in Ht. destruct (decide (t = caller)) as [->|Hne].
  - rewrite lookup_insert_eq in Ht. injection Ht as <-. simpl in Hc.
    destruct Hc as [Hc|[Hc _]]; apply Hback in Hc; done.
  - rewrite lookup_insert_ne in Ht by done. destruct Hc as [Hc|[Hc1 Hc2]].
    + apply Hback in Hc. by eapply Ha.
    + apply Hback in Hc1, Hc2. apply Hno. by eapply waits_trans.
Qed.

(** ** What the loops of the operations do *)

(** Same port up to its queue and metrics. *)
Definition same_port (a b : PortState) : Prop :=
  port_id a = port_id b ∧ port_owner a = port_owner b ∧
  receiver_blocked a = receiver_blocked b ∧ max_waiter_priority a = max_waiter_priority b.

(** Same manager up to the port table and the trace. *)
Definition same_rest (a b : IpcManager) : Prop :=
  waiting_threads a = waiting_threads b ∧ next_port a = next_port b.

Lemma enqueue_all_spec pid prepared m port m' port' :
  enqueue_all pid prepared m port = (m', port') →
  ports m' = ports m ∧ same_rest m' m ∧ same_port port' port ∧
  port_messages port' = port_messages port ++ prepared.*1.
Proof.
  revert m port. induction prepared as [|[msg size] prepared IH]; intros m port; simpl.
  - intros [= <- <-]. by rewrite app_nil_r.
  - intros (-> & Hr & Hp & ->)%IH. simpl. by rewrite <- app_assoc.
Qed.

Definition msg_ok (msg : Message) : Prop :=
  Z.of_nat (length (payload msg)) ≤ ZERO_COPY_THRESHOLD ∧
  (is_Some (shared_region msg) → payload msg = []).

Definition msg_valid (rs : Z → option Z) (msg : Message) : Prop :=
  is_ok (validate_payload_and_size rs msg) = true.

Lemma msg_valid_ok rs msg : msg_valid rs msg → msg_ok msg.
Proof.
  unfold msg_valid, msg_ok, validate_payload_and_size, ZERO_COPY_THRESHOLD, MAX_MESSAGE_SIZE.
  destruct (shared_region msg) as [r|].
  - destruct (payload msg); [|done]. intros _. split; [simpl; lia|done].
  - intros H. split; [|by intros []].
    repeat (case_match; try done); lia.
Qed.

Lemma validate_stamp rs ticks msg :
  validate_payload_and_size rs (stamp ticks msg) = validate_payload_and_size rs msg.
Proof. unfold stamp. by case_match. Qed.

Lemma prepare_spec rs ticks msgs prepared :
  prepare rs ticks msgs = Ok prepared →
  prepared.*1 = stamp ticks <$> msgs ∧ Forall (msg_valid rs) msgs.
Proof.
  revert prepared. induction msgs as [|msg msgs IH]; intros prepared; simpl; [by intros [= <-]|].
  destruct (validate_payload_and_size rs msg) as [size|e] eqn:Ev; [|done].
  destruct (prepare rs ticks msgs) as [p|]; [|done]. intros [= <-].
  destruct (IH p eq_refl) as [Hp ?]. rewrite !fmap_cons, Hp. split; [done|]. constructor; [|done].
  unfold msg_valid. by rewrite Ev.
Qed.

Lemma receive_one_spec rs ticks m pid caller port msg rest m' r :
  receive_one rs ticks m pid caller port msg rest = (m', r) →
  (msg_valid rs msg → r = Ok tt) ∧ same_rest m' m ∧
  ∃ port', ports m' = <[pid := port']> (ports m) ∧ same_port port' port ∧
           port_messages port' = rest.
Proof.
  unfold receive_one, msg_valid. destruct (validate_payload_and_size rs msg) as [size|e];
    intros [= <- <-]; (split; [done|]); (split; [done|]); eexists; (split; [reflexivity|done]).
Qed.

Lemma recv_loop_spec rs n ticks m pid caller received port m' r :
  ports m !! pid = Some port →
  recv_loop rs n ticks m pid caller received = (m', r) →
  same_rest m' m ∧
  ∃ port' k, ports m' = <[pid := port']> (ports m) ∧ same_port port' port ∧
    port_messages port' = drop k (port_messages port) ∧
    (Forall (msg_valid rs) (port_messages port) →
       r = Ok (received ++ take n (port_messages port)) ∧ k = n).
Proof.
  revert m port received. induction n as [|n IH]; intros m port received Hp; simpl.
  - intros [= <- <-]. split; [done|]. exists port, 0%nat.
    rewrite insert_id by done. split_and!; [done..|]. by rewrite app_nil_r.
  - rewrite Hp. destruct (port_messages port) as [|msg rest] eqn:Hq.
    + intros [= <- <-]. split; [done|]. exists port, (S n).
      rewrite insert_id by done. split_and!; [done..|]. by rewrite app_nil_r.
    + destruct (receive_one rs ticks m pid caller port msg rest) as [m1 r1] eqn:E1.
      apply receive_one_spec in E1 as (Hv & [Hw1 Hn1] & port1 & Hp1 & Hs1 & Hq1).
      destruct r1 as [u|e].
      * intros E. apply (IH m1 port1) in E as ([Hw Hn] & port' & k & Hp' & Hs & Hq' & Hval).
        2:{ by rewrite Hp1, lookup_insert_eq. }
        split; [unfold same_rest; split; congruence|]. exists port', (S k). split_and!.
        -- by rewrite Hp', Hp1, insert_insert_eq.
        -- unfold same_port in *. intuition congruence.
        -- rewrite Hq', Hq1. done.
        -- intros [_ Hrest]%Forall_cons. rewrite Hq1 in Hval. destruct (Hval Hrest) as [-> ->].
           by rewrite <- app_assoc.
      * intros [= <- <-]. split; [done|]. exists port1, 1%nat. split_and!; [done..| |].
        -- by rewrite Hq1.
        -- intros [Hm _]%Forall_cons. by specialize (Hv Hm).
Qed.

(** ** Timeouts *)

Lemma elem_of_expired m ticks t p :
  (t, p) ∈ expired_waiters m ticks ↔
  ∃ w d, waiting_threads m !! t = Some w ∧ wait_deadline w = Some d ∧ d ≤ ticks ∧ p = wait_port w.
Proof.
  unfold expired_waiters. rewrite list_elem_of_omap. split.
  - intros ([t' w] & Hin & He). apply elem_of_btree_entries in Hin. simpl in He.
    destruct (wait_deadline w) as [d|] eqn:Hd; [|done]. case_match eqn:Hle; simplify_eq.
    exists w, d. split_and!; [done..|lia|done].
  - intros (w & d & Hw & Hd & Hle & ->). exists (t, w). split; [by apply elem_of_btree_entries|].
    simpl. rewrite Hd. by rewrite (proj2 (Z.leb_le _ _) Hle).
Qed.

(** An entry [(t, p)] of [l] names the thread blocked on port [p]. *)
Definition is_released (l : list (Z * Z)) (p : Z) (port : PortState) : bool :=
  existsb (λ e, (e.2 =? p) && bool_decide (receiver_blocked port = Some e.1)) l.

Lemma release_port_lookup ps e p :
  release_port ps e !! p =
  (λ port, if is_released [e] p port then clear_receiver port else port) <$> ps !! p.
Proof.
  unfold release_port, is_released. destruct e as [t q]. simpl.
  destruct (Z.eqb_spec q p) as [->|Hne].
  - destruct (ps !! p) as [port|] eqn:Hp; simpl; [|done].
    case_bool_decide; simpl; [apply lookup_insert_eq|done].
  - rewrite <- (option_fmap_id (ps !! p)) at 1.
    transitivity (ps !! p); [|by destruct (ps !! p)].
    case_match; [|done]. case_bool_decide; [|done]. by rewrite lookup_insert_ne.
Qed.

Lemma is_released_cleared l p port : is_released l p (clear_receiver port) = false.
Proof.
  unfold is_released. induction l as [|e l IH]; [done|]. cbn [existsb]. rewrite IH, orb_false_r.
  rewrite bool_decide_eq_false_2 by done. apply andb_false_r.
Qed.

Lemma foldl_release_port l ps p :
  foldl release_port ps l !! p =
  (λ port, if is_released l p port then clear_receiver port else port) <$> ps !! p.
Proof.
  revert ps. induction l as [|e l IH]; intros ps; simpl; [by destruct (ps !! p)|].
  rewrite IH, release_port_lookup. destruct (ps !! p) as [port|]; simpl; [|done]. f_equal.
  unfold is_released at 2. simpl. rewrite orb_false_r.
  destruct (_ && _) eqn:E; simpl; [|done]. by rewrite is_released_cleared.
Qed.

Lemma foldl_delete_lookup {V} (l : list (Z * Z)) (ws : gmap Z V) t :
  foldl (λ ws e, delete e.1 ws) ws l !! t = if decide (t ∈ l.*1) then None else ws !! t.
Proof.
  revert ws. induction l as [|e l IH]; intros ws; [done|]. simpl. rewrite IH.
  destruct (decide (t = e.1)) as [->|].
  - rewrite lookup_delete_eq. rewrite (decide_True (P := e.1 ∈ _ :: _)) by set_solver. by case_decide.
  - rewrite lookup_delete_ne by done. do 2 case_decide; set_solver.
Qed.

(** ** The transition system *)

Abbreviation IpcState := (IpcManager * Scheduler * list Thread)%type.

Inductive IpcOp :=
| OpCreate (owner : Z)
| OpClose (pid caller : Z)
| OpSend (ticks pid : Z) (msg : Message)
| OpSendBatch (ticks pid : Z) (msgs : list Message)
| OpTryRecv (ticks pid caller : Z)
| OpRecvBatch (ticks pid caller : Z) (max_count : nat)
| OpBlock (pid caller : Z) (prio : ThreadPriority) (deadline : option Z)
| OpTimeouts (ticks : Z).

(** What an operation accepted for a port and delivered from one. *)
Record IpcOut := mkOut { accepted : list (Z * Message); delivered : list (Z * Message) }.

Definition no_out : IpcOut := mkOut [] [].

Definition out_if {A E} (r : result A E) (l : list (Z * Message)) : list (Z * Message) :=
  match r with Ok _ => l | Err _ => [] end.

Definition ipc_exec (rs : Z → option Z) (op : IpcOp) (st : IpcState) : IpcState * IpcOut :=
  let '(m, s, ths) := st in
  match op with
  | OpCreate o => ((create_port m o).1, s, ths, no_out)
  | OpClose pid c => ((close_port m pid c).1, s, ths, no_out)
  | OpSend ticks pid msg =>
      let '(m, r) := send_message rs ticks m pid msg in
      (m, s, ths, mkOut (out_if r [(pid, stamp ticks msg)]) [])
  | OpSendBatch ticks pid msgs =>
      let '(m, s, ths, r) := send_batch rs ticks m s ths pid msgs in
      (m, s, ths, mkOut (out_if r ((λ msg, (pid, stamp ticks msg)) <$> msgs)) [])
  | OpTryRecv ticks pid c =>
      let '(m, r) := try_recv rs ticks m pid c in
      (m, s, ths, mkOut [] (match r with Ok (Some msg) => [(pid, msg)] | _ => [] end))
  | OpRecvBatch ticks pid c n =>
      let '(m, r) := recv_batch rs ticks m pid c n in
      (m, s, ths, mkOut [] (match r with Ok msgs => (λ msg, (pid, msg)) <$> msgs | Err _ => [] end))
  | OpBlock pid c prio d => ((block_recv m pid c prio d).1, s, ths, no_out)
  | OpTimeouts ticks =>
      let '(m, s, ths) := handle_timeouts m s ths ticks in (m, s, ths, no_out)
  end.

(** One step of the system: any operation, under whatever shared regions are
    live at that moment; port identifiers do not wrap around. *)
Inductive ipc_step : IpcState → IpcState → Prop :=
| is_op rs op st : next_port st.1.1 < U64_MAX → ipc_step st (ipc_exec rs op st).1.

Record port_ok (next pid : Z) (port : PortState) : Prop := {
  po_id : port_id port = pid;
  po_fresh : pid < next;
  po_depth : (length (port_messages port) ≤ MAX_QUEUE_DEPTH)%nat;
  po_msgs : Forall msg_ok (port_messages port);
}.

Record ipc_wf (m : IpcManager) : Prop := {
  iw_next : 0 ≤ next_port m ≤ U64_MAX;
  iw_ports : map_Forall (port_ok (next_port m)) (ports m);
  iw_fresh : ∀ t w, waiting_threads m !! t = Some w → wait_port w < next_port m;
  iw_blocked : ∀ t w port, waiting_threads m !! t = Some w → ports m !! wait_port w = Some port →
    receiver_blocked port = Some t;
  iw_acyclic : acyclic m;
}.

(** Replacing a port by one with the same identity and receiver, and a legal
    queue, keeps the invariant. *)
Lemma ipc_wf_set_port m m' pid port port' :
  ipc_wf m → ports m !! pid = Some port → ports m' = <[pid := port']> (ports m) → same_rest m' m →
  same_port port' port → (length (port_messages port') ≤ MAX_QUEUE_DEPTH)%nat →
  Forall msg_ok (port_messages port') → ipc_wf m'.
Proof.
  intros [Hn Hp Hf Hb Ha] Hport Hps [Hw Hnx] (Hid & Hown & Hrb & Hmw) Hlen Hms.
  pose proof (Hp _ _ Hport) as [Hpid Hlt _ _]. split; rewrite ?Hnx, ?Hw, ?Hps; try done.
  - apply map_Forall_insert_2; [|done]. split; congruence || done.
  - intros t w q Ht. destruct (decide (wait_port w = pid)) as [<-|].
    + rewrite lookup_insert_eq. intros [= <-]. rewrite Hrb. by eapply Hb.
    + rewrite lookup_insert_ne by done. by apply Hb.
  - eapply acyclic_mono, Ha; [|by rewrite Hw]. intros q o. unfold get_port_owner. rewrite Hps.
    destruct (decide (q = pid)) as [->|].
    + rewrite lookup_insert_eq, Hport. simpl. by rewrite Hown.
    + by rewrite lookup_insert_ne.
Qed.

Lemma ipc_wf_create m o : ipc_wf m → next_port m < U64_MAX → ipc_wf (create_port m o).1.
Proof.
  intros [Hn Hp Hf Hb Ha] Hlt. unfold create_port. rewrite wrap_succ64 by lia. split; simpl.
  - lia.
  - apply map_Forall_insert_2; [split; simpl; try done; lia|].
    eapply map_Forall_impl; [done|]. intros i x [? ? ? ?]. split; (done || lia).
  - intros t w Ht. apply Hf in Ht. lia.
  - intros t w port Ht. pose proof (Hf _ _ Ht). rewrite lookup_insert_ne by lia. by apply Hb.
  - intros t w Ht Hc. simpl in Ht. apply (Ha t w Ht).
    assert (Hne : wait_port w ≠ next_port m) by (apply Hf in Ht; lia). revert Hc Hne. clear Ht.
    generalize (wait_port w). induction 1 as [p Hp'|p x v Hp' Hv _ IH]; intros Hne;
      unfold get_port_owner in Hp'; simpl in Hp'; rewrite lookup_insert_ne in Hp' by done.
    + by apply waits_here.
    + eapply waits_next; [done..|]. apply IH. apply Hf in Hv. lia.
Qed.

Lemma ipc_wf_close m pid c : ipc_wf m → ipc_wf (close_port m pid c).1.
Proof.
  intros Hwf. pose proof Hwf as [Hn Hp Hf Hb Ha]. unfold close_port.
  destruct (ports m !! pid) as [port|]; [|done]. case_match; [done|]. split; simpl; try done.
  - by apply map_Forall_delete.
  - intros t w q Ht. rewrite lookup_delete_Some. intros [_ ?]. by eapply Hb.
  - eapply acyclic_mono, Ha; [|done]. intros q o. unfold get_port_owner. simpl.
    rewrite !fmap_Some. intros (x & [_ ?]%lookup_delete_Some & ->). eauto.
Qed.

Lemma ipc_wf_block m pid c prio d : ipc_wf m → ipc_wf (block_recv m pid c prio d).1.
Proof.
  intros Hwf. pose proof Hwf as [Hn Hp Hf Hb Ha]. unfold block_recv.
  destruct (ports m !! pid) as [port|] eqn:Hport; [|done].
  destruct (detect_deadlock m c pid) eqn:Hd; [done|]. case_bool_decide as Hr; [done|].
  pose proof (Hp _ _ Hport) as [Hpid Hlt Hlen Hms]. split; simpl; [done|..].
  - apply map_Forall_insert_2; [by split|done].
  - intros t w. destruct (decide (t = c)) as [->|].
    + rewrite lookup_insert_eq. by intros [= <-].
    + rewrite lookup_insert_ne by done. apply Hf.
  - intros t w q. destruct (decide (t = c)) as [->|].
    + rewrite lookup_insert_eq. intros [= <-]. simpl. rewrite lookup_insert_eq. by intros [= <-].
    + rewrite lookup_insert_ne by done. intros Ht. destruct (decide (wait_port w = pid)) as [Hw|].
      * destruct Hr. rewrite <- Hw in Hport. erewrite (Hb t w port) by done. by eexists.
      * rewrite lookup_insert_ne by done. by apply Hb.
  - eapply acyclic_add_edge, Ha; [|done|].
    + intros q. unfold get_port_owner. simpl. destruct (decide (q = pid)) as [->|].
      * by rewrite lookup_insert_eq, Hport.
      * by rewrite lookup_insert_ne.
    + rewrite <- detect_deadlock_iff. congruence.
Qed.

(** Forgetting waiters and the receivers of their ports keeps the invariant. *)
Lemma ipc_wf_release m m' :
  ipc_wf m → next_port m' = next_port m →
  (∀ t w, waiting_threads m' !! t = Some w → waiting_threads m !! t = Some w) →
  (∀ p port', ports m' !! p = Some port' → ∃ port, ports m !! p = Some port ∧
     port_id port' = port_id port ∧ port_owner port' = port_owner port ∧
     (length (port_messages port') ≤ MAX_QUEUE_DEPTH)%nat ∧ Forall msg_ok (port_messages port') ∧
     (receiver_blocked port' = receiver_blocked port ∨
      ∀ t, receiver_blocked port = Some t → ∀ w, waiting_threads m' !! t = Some w → wait_port w ≠ p)) →
  ipc_wf m'.
Proof.
  intros [Hn Hp Hf Hb Ha] Hnx Hw Hps. split; rewrite ?Hnx; try done.
  - intros p port' (port & Hport & Hid & _ & Hlen & Hms & _)%Hps.
    destruct (Hp _ _ Hport). split; congruence || done.
  - intros t w Ht. by eapply Hf, Hw.
  - intros t w port' Ht (port & Hport & _ & _ & _ & _ & Hr)%Hps.
    pose proof (Hb _ _ _ (Hw _ _ Ht) Hport) as Hrb. destruct Hr as [->|Hr]; [done|].
    by destruct (Hr _ Hrb _ Ht).
  - eapply acyclic_mono, Ha; [|done]. intros p o. unfold get_port_owner. rewrite !fmap_Some.
    intros (port' & (port & Hport & _ & Hown & _)%Hps & ->). exists port. by rewrite Hown.
Qed.

Lemma stamp_ok ticks msg : msg_ok msg → msg_ok (stamp ticks msg).
Proof. unfold stamp. by case_match. Qed.

(** [send] either refuses and changes nothing, or appends the message. *)
Lemma send_message_spec rs ticks m pid msg m' r :
  send_message rs ticks m pid msg = (m', r) →
  (∃ e, r = Err e ∧ m' = m) ∨
  (r = Ok tt ∧ msg_valid rs msg ∧ same_rest m' m ∧
   ∃ port port', ports m !! pid = Some port ∧ (length (port_messages port) < MAX_QUEUE_DEPTH)%nat ∧
     ports m' = <[pid := port']> (ports m) ∧ same_port port' port ∧
     port_messages port' = port_messages port ++ [stamp ticks msg]).
Proof.
  unfold send_message. destruct (ports m !! pid) as [port|] eqn:Hp; [|intros [= <- <-]; left; by eexists].
  destruct (validate_payload_and_size rs msg) as [size|e] eqn:Ev; [|intros [= <- <-]; left; by eexists].
  case_match eqn:Hd; intros [= <- <-]; [left; by eexists|]. right. apply Nat.leb_gt in Hd.
  split_and!; [done|unfold msg_valid; by rewrite Ev|done|]. eexists port, _.
  split_and!; [done|done|reflexivity|done|done].
Qed.

Lemma send_batch_spec rs ticks m s ths pid msgs m' s' ths' r :
  send_batch rs ticks m s ths pid msgs = (m', s', ths', r) →
  ((m', s', ths') = (m, s, ths) ∧ ((∃ e, r = Err e) ∨ (r = Ok 0%nat ∧ msgs = []))) ∨
  (r = Ok (length msgs) ∧ Forall (msg_valid rs) msgs ∧ (length msgs ≤ MAX_BATCH_SIZE)%nat ∧
   next_port m' = next_port m ∧
   ∃ port port', ports m !! pid = Some port ∧
     (length (port_messages port) + length msgs ≤ MAX_QUEUE_DEPTH)%nat ∧
     ports m' = <[pid := port']> (ports m) ∧
     port_id port' = port_id port ∧ port_owner port' = port_owner port ∧
     port_messages port' = port_messages port ++ (stamp ticks <$> msgs) ∧
     match receiver_blocked port with
     | None => receiver_blocked port' = None ∧ waiting_threads m' = waiting_threads m ∧
               (s', ths') = (s, ths)
     | Some t => receiver_blocked port' = None ∧ waiting_threads m' = delete t (waiting_threads m) ∧
                 (s', ths') = wake s ths t
     end).
Proof.
  unfold send_batch. destruct msgs as [|m1 ms]; [intros [= <- <- <- <-]; left; eauto|].
  set (msgs := m1 :: ms). case_match eqn:Hbatch; [intros [= <- <- <- <-]; left; eauto|].
  apply Nat.ltb_ge in Hbatch.
  destruct (ports m !! pid) as [port|] eqn:Hp; [|intros [= <- <- <- <-]; left; eauto].
  destruct (prepare rs ticks msgs) as [prepared|e] eqn:Epr; [|intros [= <- <- <- <-]; left; eauto].
  apply prepare_spec in Epr as [Hfst Hval].
  assert (length prepared = length msgs) as Hlen.
  { pose proof (f_equal length Hfst) as H. by rewrite !length_fmap in H. }
  case_match eqn:Hq; [intros [= <- <- <- <-]; left; eauto|]. apply Nat.ltb_ge in Hq.
  destruct (enqueue_all pid prepared m port) as [m1' port1] eqn:Ee.
  apply enqueue_all_spec in Ee as (Hps & [Hw Hn] & (Hid & Hown & Hrb & _) & Hms).
  rewrite Hfst in Hms. rewrite Hlen in *. rewrite Hrb. intros E. right.
  destruct (receiver_blocked port) as [t|] eqn:Hr.
  - destruct (wake s ths t) as [s1 ths1] eqn:Hwk. injection E as <- <- <- <-.
    split_and!; [done..|]. eexists port, _. rewrite Hr.
    split_and!; [done|lia|simpl; by rewrite Hps|exact Hid|exact Hown|exact Hms|done|simpl; by rewrite Hw|by rewrite Hwk].
  - injection E as <- <- <- <-. split_and!; [done..|]. eexists port, _. rewrite Hr.
    split_and!; [done|lia|simpl; by rewrite Hps|exact Hid|exact Hown|exact Hms|congruence|exact Hw|done].
Qed.

Lemma Forall_stamp ticks rs msgs : Forall (msg_valid rs) msgs → Forall msg_ok (stamp ticks <$> msgs).
Proof.
  intros H. apply Forall_fmap. eapply Forall_impl; [done|]. intros msg ?.
  by eapply stamp_ok, msg_valid_ok.
Qed.

Lemma ipc_wf_send rs ticks m pid msg : ipc_wf m → ipc_wf (send_message rs ticks m pid msg).1.
Proof.
  intros Hwf. destruct (send_message rs ticks m pid msg) as [m' r] eqn:E.
  apply send_message_spec in E as [(e & _ & ->)|(_ & Hv & Hrest & port & port' & Hp & Hl & Hps & Hs & Hms)];
    [done|]. pose proof (iw_ports _ Hwf _ _ Hp) as [_ _ _ Hok].
  eapply (ipc_wf_set_port m m' pid port port'); [done..| |]; rewrite Hms.
  - rewrite length_app. simpl. lia.
  - apply Forall_app. split; [done|]. constructor; [|done]. by eapply stamp_ok, msg_valid_ok.
Qed.

Lemma ipc_wf_send_batch rs ticks m s ths pid msgs :
  ipc_wf m → ipc_wf (send_batch rs ticks m s ths pid msgs).1.1.1.
Proof.
  intros Hwf. destruct (send_batch rs ticks m s ths pid msgs) as [[[m' s'] ths'] r] eqn:E.
  apply send_batch_spec in E as [[[= -> -> ->] _]|
    (_ & Hv & _ & Hn & port & port' & Hp & Hl & Hps & Hid & Hown & Hms & Hr)]; [done|]. simpl.
  pose proof (iw_ports _ Hwf _ _ Hp) as [_ _ _ Hok].
  eapply (ipc_wf_release m); [done|done| |].
  - intros t w. destruct (receiver_blocked port); destruct Hr as (_ & -> & _); [|done].
    rewrite lookup_delete_Some. by intros [].
  - intros q x. rewrite Hps. destruct (decide (q = pid)) as [->|Hne].
    + rewrite lookup_insert_eq. intros [= <-]. exists port. rewrite Hms.
      split_and!; [done..| | |].
      * rewrite length_app, length_fmap. lia.
      * apply Forall_app. split; [done|by eapply Forall_stamp].
      * destruct (receiver_blocked port) as [t|]; destruct Hr as (Hr & Hw & _); [right|by left].
        intros t' [= <-] w. by rewrite Hw, lookup_delete_eq.
    + rewrite lookup_insert_ne by done. intros Hx. exists x.
      destruct (iw_ports _ Hwf _ _ Hx). split_and!; try done. by left.
Qed.

Lemma ipc_wf_try_recv rs ticks m pid c : ipc_wf m → ipc_wf (try_recv rs ticks m pid c).1.
Proof.
  intros Hwf. unfold try_recv. destruct (ports m !! pid) as [port|] eqn:Hp; [|done].
  destruct (port_messages port) as [|msg rest] eqn:Hq; [done|].
  destruct (receive_one rs ticks m pid c port msg rest) as [m' r] eqn:E.
  apply receive_one_spec in E as (_ & Hrest & port' & Hps & Hs & Hms).
  pose proof (iw_ports _ Hwf _ _ Hp) as [_ _ Hl Hok]. rewrite Hq in Hl, Hok.
  apply Forall_cons in Hok as [_ Hok]. simpl in Hl.
  assert (ipc_wf m').
  { eapply (ipc_wf_set_port m m' pid port port'); rewrite ?Hms; try done. lia. }
  by destruct r.
Qed.

Lemma ipc_wf_recv_batch rs ticks m pid c n : ipc_wf m → ipc_wf (recv_batch rs ticks m pid c n).1.
Proof.
  intros Hwf. unfold recv_batch. destruct (ports m !! pid) as [port|] eqn:Hp; [|done].
  destruct (recv_loop rs _ ticks m pid c []) as [m' r] eqn:E.
  eapply recv_loop_spec in E as (Hrest & port' & k & Hps & Hs & Hms & _); [|done].
  pose proof (iw_ports _ Hwf _ _ Hp) as [_ _ Hl Hok].
  eapply (ipc_wf_set_port m m' pid port port'); rewrite ?Hms; try done.
  - rewrite length_drop. lia.
  - by apply Forall_drop.
Qed.

(** The manager left by [handle_timeouts]. *)
Lemma handle_timeouts_manager m s ths ticks :
  let expired := expired_waiters m ticks in
  let m' := (handle_timeouts m s ths ticks).1.1 in
  next_port m' = next_port m ∧ trace m' = trace m ∧
  (∀ t, waiting_threads m' !! t = if decide (t ∈ expired.*1) then None else waiting_threads m !! t) ∧
  (∀ p, ports m' !! p =
     (λ port, if is_released expired p port then clear_receiver port else port) <$> ports m !! p).
Proof.
  unfold handle_timeouts. destruct (expired_waiters m ticks) as [|e l] eqn:E.
  - simpl. split_and!; [done..|]. intros p. by destruct (ports m !! p).
  - rewrite <- E. destruct (foldl _ (s, ths) _). simpl. split_and!; [done..| |].
    + intros t. apply foldl_delete_lookup.
    + intros p. apply foldl_release_port.
Qed.

Lemma is_released_spec l p port :
  is_released l p port = true ↔ ∃ t, (t, p) ∈ l ∧ receiver_blocked port = Some t.
Proof.
  unfold is_released. rewrite existsb_exists. split.
  - intros ([t q] & Hin & [Hq Hr]%andb_prop). simpl in *. apply Z.eqb_eq in Hq as ->.
    apply bool_decide_eq_true in Hr. exists t. by rewrite <- list_elem_of_In in Hin.
  - intros (t & Hin & Hr). exists (t, p). rewrite <- list_elem_of_In. split; [done|]. simpl.
    by rewrite Z.eqb_refl, bool_decide_eq_true_2.
Qed.

Lemma ipc_wf_timeouts m s ths ticks : ipc_wf m → ipc_wf (handle_timeouts m s ths ticks).1.1.
Proof.
  intros Hwf. destruct (handle_timeouts_manager m s ths ticks) as (Hn & _ & Hw & Hps).
  eapply (ipc_wf_release m); [done|done| |].
  - intros t w. rewrite Hw. by case_decide.
  - intros p port'. rewrite Hps, fmap_Some. intros (port & Hport & ->). exists port.
    destruct (iw_ports _ Hwf _ _ Hport).
    destruct (is_released _ p port) eqn:Hr; split_and!; try done; [right|by left].
    apply is_released_spec in Hr as (t & Hin & Hrb). rewrite Hrb. intros t' [= <-] w.
    rewrite Hw, decide_True; [done|]. apply list_elem_of_fmap. by exists (t, p).
Qed.

Lemma ipc_exec_wf rs op st :
  ipc_wf st.1.1 → next_port st.1.1 < U64_MAX → ipc_wf (ipc_exec rs op st).1.1.1.
Proof.
  destruct st as [[m s] ths]. simpl. intros Hwf Hn. destruct op; simpl.
  - by apply ipc_wf_create.
  - by apply ipc_wf_close.
  - pose proof (ipc_wf_send rs ticks m pid msg Hwf). by destruct (send_message _ _ _ _ _).
  - pose proof (ipc_wf_send_batch rs ticks m s ths pid msgs Hwf).
    by destruct (send_batch _ _ _ _ _ _ _) as [[[]]].
  - pose proof (ipc_wf_try_recv rs ticks m pid caller Hwf). by destruct (try_recv _ _ _ _ _).
  - pose proof (ipc_wf_recv_batch rs ticks m pid caller max_count Hwf). by destruct (recv_batch _ _ _ _ _ _).
  - by apply ipc_wf_block.
  - pose proof (ipc_wf_timeouts m s ths ticks Hwf). by destruct (handle_timeouts _ _ _ _) as [[]].
Qed.

Lemma ipc_new_wf : ipc_wf IpcManager_new.
Proof. by split. Qed.

Lemma ipc_steps_wf st st' : rtc ipc_step st st' → ipc_wf st.1.1 → ipc_wf st'.1.1.
Proof.
  induction 1 as [|st1 st2 st3 Hs _ IH]; [done|]. intros Hwf. apply IH.
  destruct Hs. by apply ipc_exec_wf.
Qed.

(** ** First-in first-out delivery *)

Fixpoint ipc_run (rs : Z → option Z) (ops : list IpcOp) (st : IpcState) : IpcState * IpcOut :=
  match ops with
  | [] => (st, no_out)
  | op :: ops =>
      let '(st, o1) := ipc_exec rs op st in
      let '(st, o2) := ipc_run rs ops st in
      (st, mkOut (accepted o1 ++ accepted o2) (delivered o1 ++ delivered o2))
  end.

Definition on_port (p : Z) (l : list (Z * Message)) : list Message :=
  snd <$> filter (λ e, e.1 = p) l.

Definition not_close (p : Z) (op : IpcOp) : Prop :=
  match op with OpClose q _ => q ≠ p | _ => True end.

Lemma on_port_app p a b : on_port p (a ++ b) = on_port p a ++ on_port p b.
Proof. unfold on_port. by rewrite filter_app, fmap_app. Qed.

Lemma on_port_fmap {A} p q (f : A → Message) (l : list A) :
  on_port p ((λ x, (q, f x)) <$> l) = if decide (q = p) then f <$> l else [].
Proof.
  unfold on_port. induction l as [|x l IH]; [by case_decide|].
  rewrite fmap_cons, filter_cons. simpl. destruct (decide (q = p)); [|done].
  by rewrite fmap_cons, IH.
Qed.

Lemma on_port_one p q x : on_port p [(q, x)] = if decide (q = p) then [x] else [].
Proof. apply (on_port_fmap p q id [x]). Qed.

(** The port [p] of [m] is live and every message in its queue still has a
    size under [rs]. *)
Definition live_queue (rs : Z → option Z) (m : IpcManager) (p : Z) (q : list Message) : Prop :=
  ∃ port, ports m !! p = Some port ∧ port_messages port = q ∧ Forall (msg_valid rs) q.

Lemma live_queue_other rs m m' p q pid port' :
  live_queue rs m p q → ports m' = <[pid := port']> (ports m) → pid ≠ p → live_queue rs m' p q.
Proof. intros (port & ? & ? & ?) Hps Hne. exists port. by rewrite Hps, lookup_insert_ne. Qed.

Lemma valid_stamp rs ticks msg : msg_valid rs msg → msg_valid rs (stamp ticks msg).
Proof. unfold msg_valid. by rewrite validate_stamp. Qed.

Lemma live_send rs ticks m pid msg p q m' r :
  live_queue rs m p q → send_message rs ticks m pid msg = (m', r) →
  live_queue rs m' p (q ++ on_port p (out_if r [(pid, stamp ticks msg)])).
Proof.
  intros Hlive E. pose proof Hlive as (port0 & Hp0 & Hq & Hv).
  apply send_message_spec in E as [(e & -> & ->)|(-> & Hmv & _ & port & port' & Hp & _ & Hps & _ & Hms)];
    cbn [out_if].
  - by rewrite app_nil_r.
  - rewrite on_port_one. case_decide as Hpid; [subst pid|].
    + simplify_eq. exists port'. rewrite Hps, lookup_insert_eq, Hms. split_and!; [done..|].
      apply Forall_app. split; [done|]. constructor; [by apply valid_stamp|done].
    + rewrite app_nil_r. by eapply live_queue_other.
Qed.

Lemma live_send_batch rs ticks m s ths pid msgs p q m' s' ths' r :
  live_queue rs m p q → send_batch rs ticks m s ths pid msgs = (m', s', ths', r) →
  live_queue rs m' p (q ++ on_port p (out_if r ((λ msg, (pid, stamp ticks msg)) <$> msgs))).
Proof.
  intros Hlive E. pose proof Hlive as (port0 & Hp0 & Hq & Hv).
  apply send_batch_spec in E as [[[= -> -> ->] [[e ->]|[-> ->]]]|
    (-> & Hmv & _ & _ & port & port' & Hp & _ & Hps & _ & _ & Hms & _)]; cbn [out_if].
  - by rewrite app_nil_r.
  - by rewrite app_nil_r.
  - rewrite on_port_fmap. case_decide as Hpid; [subst pid|].
    + simplify_eq. exists port'. rewrite Hps, lookup_insert_eq, Hms. split_and!; [done..|].
      apply Forall_app. split; [done|]. apply Forall_fmap. eapply Forall_impl; [done|].
      intros msg ?. by apply valid_stamp.
    + rewrite app_nil_r. by eapply live_queue_other.
Qed.

Lemma live_try_recv rs ticks m pid c p q m' r :
  live_queue rs m p q → try_recv rs ticks m pid c = (m', r) →
  ∃ q', live_queue rs m' p q' ∧
    q = on_port p (match r with Ok (Some msg) => [(pid, msg)] | _ => [] end) ++ q'.
Proof.
  intros Hlive E. pose proof Hlive as (port0 & Hp0 & Hq & Hv). unfold try_recv in E.
  destruct (ports m !! pid) as [port|] eqn:Hp; [|injection E as <- <-; by exists q].
  destruct (port_messages port) as [|msg rest] eqn:Hms; [injection E as <- <-; by exists q|].
  destruct (receive_one rs ticks m pid c port msg rest) as [m1 r1] eqn:E1.
  apply receive_one_spec in E1 as (Hok & _ & port' & Hps & _ & Hrest).
  destruct (decide (pid = p)) as [->|Hne].
  - simplify_eq. rewrite Hms in *. apply Forall_cons in Hv as [Hmsg Hv].
    rewrite (Hok Hmsg) in E. injection E as <- <-. exists (port_messages port').
    split; [exists port'; by rewrite Hps, lookup_insert_eq|].
    by rewrite on_port_one, decide_True by done.
  - assert (m1 = m') as -> by (destruct r1; congruence). exists q. split; [by eapply live_queue_other|].
    assert (Hn : ∀ x, on_port p [(pid, x)] = []).
    { intros x. by rewrite on_port_one, decide_False. }
    destruct r as [[x|]|e]; rewrite ?Hn; done.
Qed.

Lemma live_recv_batch rs ticks m pid c n p q m' r :
  live_queue rs m p q → recv_batch rs ticks m pid c n = (m', r) →
  ∃ q', live_queue rs m' p q' ∧
    q = on_port p (match r with Ok msgs => (λ msg, (pid, msg)) <$> msgs | Err _ => [] end) ++ q'.
Proof.
  intros Hlive E. pose proof Hlive as (port0 & Hp0 & Hq & Hv). unfold recv_batch in E.
  destruct (ports m !! pid) as [port|] eqn:Hp; [|injection E as <- <-; by exists q].
  eapply recv_loop_spec in E as (_ & port' & k & Hps & _ & Hms & Hval); [|done].
  destruct (decide (pid = p)) as [->|Hne].
  - simplify_eq. destruct (Hval Hv) as [-> ->]. exists (port_messages port'). split.
    + exists port'. rewrite Hps, lookup_insert_eq, Hms. split_and!; [done..|]. by apply Forall_drop.
    + rewrite (on_port_fmap p p id), decide_True, list_fmap_id, Hms by done. simpl. by rewrite take_drop.
  - exists q. split; [by eapply live_queue_other|]. destruct r; [|done].
    by rewrite (on_port_fmap p pid id), decide_False.
Qed.

Lemma try_recv_next rs ticks m pid c m' r :
  try_recv rs ticks m pid c = (m', r) → next_port m' = next_port m.
Proof.
  unfold try_recv. destruct (ports m !! pid); [|by intros [= <- _]].
  case_match; [by intros [= <- _]|]. destruct (receive_one _ _ _ _ _ _ _ _) as [m1 r1] eqn:E1.
  apply receive_one_spec in E1 as (_ & [_ <-] & _). destruct r1; by intros [= <- _].
Qed.

Lemma recv_batch_next rs ticks m pid c n m' r :
  recv_batch rs ticks m pid c n = (m', r) → next_port m' = next_port m.
Proof.
  unfold recv_batch. destruct (ports m !! pid) eqn:Hp; [|by intros [= <- _]]. intros E.
  eapply recv_loop_spec in E as ([_ ->] & _); done.
Qed.

Lemma ipc_exec_fifo rs op m s ths p q st' o :
  ipc_wf m → next_port m < U64_MAX → not_close p op →
  live_queue rs m p q → ipc_exec rs op (m, s, ths) = (st', o) →
  ∃ q', live_queue rs st'.1.1 p q' ∧ q ++ on_port p (accepted o) = on_port p (delivered o) ++ q' ∧
        next_port st'.1.1 ≤ next_port m + 1.
Proof.
  intros Hwf Hn Hnc Hlive. pose proof Hlive as (port & Hp & Hq & Hv).
  assert (Hsame : ∀ m' port', ports m' !! p = Some port' → port_messages port' = q → next_port m' ≤ next_port m + 1 →
    ∃ q', live_queue rs m' p q' ∧ q ++ on_port p [] = on_port p [] ++ q' ∧ next_port m' ≤ next_port m + 1).
  { intros m' port' Hp' Hq' ?. exists q. split_and!; [by exists port'|by rewrite app_nil_r|done]. }
  destruct op as [o'|pid c|ticks pid msg|ticks pid msgs|ticks pid c|ticks pid c n|pid c prio d|ticks]; simpl.
  - intros [= <- <-]. destruct (iw_ports _ Hwf _ _ Hp). destruct (iw_next _ Hwf). eapply (Hsame _ port); simpl.
    + rewrite lookup_insert_ne by lia. done.
    + done.
    + rewrite wrap_succ64 by lia. lia.
  - intros [= <- <-]. simpl in Hnc. unfold close_port.
    destruct (ports m !! pid); [case_match|]; cbn [fst]; eapply (Hsame _ port); simpl; try done; try lia.
    by rewrite lookup_delete_ne.
  - destruct (send_message rs ticks m pid msg) as [m' r] eqn:E. intros [= <- <-]. simpl.
    eexists. split; [by eapply live_send|]. split; [done|].
    apply send_message_spec in E as [(? & _ & ->)|(_ & _ & [_ ->] & _)]; lia.
  - destruct (send_batch rs ticks m s ths pid msgs) as [[[m' s'] ths'] r] eqn:E. intros [= <- <-]. simpl.
    eexists. split; [by eapply live_send_batch|]. split; [done|].
    apply send_batch_spec in E as [[[= -> _ _] _]|(_ & _ & _ & -> & _)]; lia.
  - destruct (try_recv rs ticks m pid c) as [m' r] eqn:E. intros [= <- <-]. simpl.
    destruct (live_try_recv _ _ _ _ _ _ _ _ _ Hlive E) as (q' & ? & ->). exists q'.
    split_and!; [done|by rewrite app_nil_r|]. by rewrite (try_recv_next _ _ _ _ _ _ _ E); lia.
  - destruct (recv_batch rs ticks m pid c n) as [m' r] eqn:E. intros [= <- <-]. simpl.
    destruct (live_recv_batch _ _ _ _ _ _ _ _ _ _ Hlive E) as (q' & ? & ->). exists q'.
    split_and!; [done|by rewrite app_nil_r|]. by rewrite (recv_batch_next _ _ _ _ _ _ _ _ E); lia.
  - intros [= <- <-]. unfold block_recv. destruct (ports m !! pid) as [port1|] eqn:Hp1;
      [case_match; [|case_bool_decide]|]; cbn [fst]; try (eapply (Hsame _ port); simpl; done || lia).
    destruct (decide (pid = p)) as [->|].
    + simplify_eq. eapply Hsame; simpl; [by rewrite lookup_insert_eq|done|lia].
    + eapply (Hsame _ port); simpl; [by rewrite lookup_insert_ne|done|lia].
  - destruct (handle_timeouts_manager m s ths ticks) as (Hnx & _ & _ & Hps).
    destruct (handle_timeouts m s ths ticks) as [[m' s'] ths'] eqn:E. intros [= <- <-]. simpl in *.
    eapply Hsame; [by rewrite Hps, Hp|by case_match|lia].
Qed.

Lemma foldl_wake_ready (l : list (Z * Z)) s ths t :
  lookup_thread (foldl (λ st e, wake st.1 st.2 e.1) (s, ths) l).2 t =
  if decide (t ∈ l.*1) then (λ th, set_state th Ready) <$> lookup_thread ths t
  else lookup_thread ths t.
Proof.
  revert s ths. induction l as [|e l IH]; intros s ths; [done|]. cbn [foldl].
  destruct (wake (s, ths).1 (s, ths).2 e.1) as [s1 ths1] eqn:E. rewrite IH.
  assert (ths1 = (set_thread_state ths e.1 Ready).1) as ->.
  { unfold wake, mark_thread_ready in E. simpl in E. by destruct (set_thread_state _ _ _); simplify_eq/=. }
  rewrite lookup_set_thread_state, fmap_cons. destruct (decide (e.1 = t)) as [<-|Hne].
  - rewrite (decide_True (P := e.1 ∈ _ :: _)) by set_solver.
    case_decide; [|done]. by destruct (lookup_thread ths e.1).
  - do 2 case_decide; set_solver.
Qed.

(** ** Properties *)

(** Every reachable state of the IPC manager keeps each queue within
    [MAX_QUEUE_DEPTH], each queued message within the inline limit (and empty
    when it carries a shared region), and each waiting thread registered as the
    blocked receiver of its port for as long as that port exists. *)
Theorem ipc_invariant m s ths s0 ths0 :
  rtc ipc_step (IpcManager_new, s0, ths0) (m, s, ths) →
  (∀ pid port, ports m !! pid = Some port →
     port_id port = pid ∧ (length (port_messages port) ≤ MAX_QUEUE_DEPTH)%nat ∧
     Forall msg_ok (port_messages port)) ∧
  (∀ t w port, waiting_threads m !! t = Some w → ports m !! wait_port w = Some port →
     receiver_blocked port = Some t).
Proof.
  intros H. apply ipc_steps_wf in H as [_ Hp _ Hb _]; [|apply ipc_new_wf]. simpl in *.
  split; [|done]. intros pid port Hport. by destruct (Hp _ _ Hport).
Qed.

(** C7. Deadlock freedom: in every reachable state no blocked thread can reach
    itself by following the owner of the port it waits for, the port that owner
    waits for, and so on. *)
Theorem ipc_deadlock_free m s ths s0 ths0 t w :
  rtc ipc_step (IpcManager_new, s0, ths0) (m, s, ths) →
  waiting_threads m !! t = Some w → ¬ waits m t (wait_port w).
Proof.
  intros H. apply ipc_steps_wf in H as [_ _ _ _ Ha]; [|apply ipc_new_wf]. apply Ha.
Qed.

(** C9. The deadlock detector is exact: it answers [true] precisely when the
    chain of owners and waited-for ports from [target_port] leads to the
    caller.  The bound on its loop never cuts a chain short. *)
Theorem detect_deadlock_exact m start target_port :
  detect_deadlock m start target_port = true ↔ waits m start target_port.
Proof. apply detect_deadlock_iff. Qed.

(** C8. First-in first-out delivery without loss or duplication: over any
    sequence of operations that does not close port [p], while shared regions
    stay live, the messages delivered from [p] followed by its final queue are
    its initial queue followed by the messages accepted for it. *)
Theorem ipc_fifo rs ops m s ths p q st' o :
  ipc_wf m → next_port m + Z.of_nat (length ops) ≤ U64_MAX → Forall (not_close p) ops →
  live_queue rs m p q → ipc_run rs ops (m, s, ths) = (st', o) →
  ∃ q', live_queue rs st'.1.1 p q' ∧ q ++ on_port p (accepted o) = on_port p (delivered o) ++ q'.
Proof.
  revert m s ths q o. induction ops as [|op ops IH]; intros m s ths q o Hwf Hn Hnc Hlive E.
  - simplify_eq/=. exists q. by rewrite app_nil_r.
  - apply Forall_cons in Hnc as [Hop Hnc]. cbn [ipc_run] in E.
    destruct (ipc_exec rs op (m, s, ths)) as [[[m1 s1] ths1] o1] eqn:E1.
    destruct (ipc_run rs ops (m1, s1, ths1)) as [st2 o2] eqn:E2. simplify_eq.
    simpl length in Hn.
    pose proof (ipc_exec_wf rs op (m, s, ths) Hwf ltac:(simpl; lia)) as Hwf1.
    rewrite E1 in Hwf1. simpl in Hwf1.
    destruct (ipc_exec_fifo _ _ _ _ _ _ _ _ _ Hwf ltac:(lia) Hop Hlive E1) as (q1 & Hl1 & Hq1 & Hn1).
    simpl in Hl1, Hn1.
    destruct (IH _ _ _ _ _ Hwf1 ltac:(lia) Hnc Hl1 E2) as (q2 & Hl2 & Hq2). exists q2.
    split; [done|]. simpl. by rewrite !on_port_app, app_assoc, Hq1, <- !app_assoc, Hq2.
Qed.

(** [send_batch] is all or nothing: an error leaves the manager, the
    scheduler and the threads unchanged; success means that every message was
    valid, that all of them were appended in order and fit the queue, and that
    a blocked receiver was woken and is no longer waiting. *)
Theorem send_batch_atomic rs ticks m s ths pid msgs m' s' ths' r :
  send_batch rs ticks m s ths pid msgs = (m', s', ths', r) → msgs ≠ [] →
  match r with
  | Err _ => (m', s', ths') = (m, s, ths)
  | Ok n =>
      n = length msgs ∧ Forall (msg_valid rs) msgs ∧
      ∃ port port', ports m !! pid = Some port ∧ ports m' !! pid = Some port' ∧
        port_messages port' = port_messages port ++ (stamp ticks <$> msgs) ∧
        (length (port_messages port') ≤ MAX_QUEUE_DEPTH)%nat ∧
        receiver_blocked port' = None ∧
        ∀ t, receiver_blocked port = Some t →
          waiting_threads m' !! t = None ∧ (s', ths') = wake s ths t
  end.
Proof.
  intros E Hne. apply send_batch_spec in E as [[Heq [[e ->]|[_ ?]]]|
    (-> & Hv & _ & _ & port & port' & Hp & Hl & Hps & _ & _ & Hms & Hr)]; [done|done|].
  split_and!; [done..|]. exists port, port'. rewrite Hps, lookup_insert_eq, Hms.
  split_and!; [done..| | |].
  - rewrite length_app, length_fmap. lia.
  - by destruct (receiver_blocked port); destruct Hr.
  - intros t Ht. rewrite Ht in Hr. destruct Hr as (_ & -> & ->). by rewrite lookup_delete_eq.
Qed.

(** [handle_timeouts] wakes exactly the threads whose deadline has passed:
    they stop waiting, become [Ready], and the port each of them blocks is
    released; every other waiter, port receiver and thread is unchanged. *)
Theorem handle_timeouts_exact m s ths ticks m' s' ths' :
  handle_timeouts m s ths ticks = (m', s', ths') →
  let expired t p := ∃ w d, waiting_threads m !! t = Some w ∧ wait_deadline w = Some d ∧
                            d ≤ ticks ∧ p = wait_port w in
  (∀ t p, expired t p →
     waiting_threads m' !! t = None ∧
     lookup_thread ths' t = (λ th, set_state th Ready) <$> lookup_thread ths t ∧
     ∀ port, ports m !! p = Some port → receiver_blocked port = Some t →
       ports m' !! p = Some (clear_receiver port)) ∧
  (∀ t, (∀ p, ¬ expired t p) →
     waiting_threads m' !! t = waiting_threads m !! t ∧ lookup_thread ths' t = lookup_thread ths t) ∧
  (∀ p port, ports m !! p = Some port →
     (∀ t, receiver_blocked port = Some t → ¬ expired t p) → ports m' !! p = Some port).
Proof.
  intros E expired. destruct (handle_timeouts_manager m s ths ticks) as (_ & _ & Hw & Hps).
  assert (Hth : ∀ t, lookup_thread ths' t = if decide (t ∈ (expired_waiters m ticks).*1)
            then (λ th, set_state th Ready) <$> lookup_thread ths t else lookup_thread ths t).
  { intros t. rewrite <- foldl_wake_ready with (s := s). unfold handle_timeouts in E.
    destruct (expired_waiters m ticks) as [|e l]; [by simplify_eq|].
    destruct (foldl _ (s, ths) (e :: l)). by simplify_eq. }
  assert (Hex : ∀ t, t ∈ (expired_waiters m ticks).*1 ↔ ∃ p, expired t p).
  { intros t. rewrite list_elem_of_fmap. split.
    - intros ([t' p] & -> & Hin). exists p. by apply elem_of_expired.
    - intros [p Hp]. exists (t, p). split; [done|]. by apply elem_of_expired. }
  rewrite E in Hw, Hps. simpl in Hw, Hps. split_and!.
  - intros t p Hexp. rewrite Hw, Hth, !decide_True by (apply Hex; eauto). split_and!; [done..|].
    intros port Hp Hr. rewrite Hps, Hp. simpl.
    by rewrite (proj2 (is_released_spec _ p port)) by (exists t; by rewrite elem_of_expired).
  - intros t Hn. rewrite Hw, Hth, !decide_False; [done|..]; rewrite Hex; intros [p ?]; by eapply Hn.
  - intros p port Hp Hn. rewrite Hps, Hp. simpl. destruct (is_released _ p port) eqn:Hr; [|done].
    apply is_released_spec in Hr as (t & Hin & Ht). apply elem_of_expired in Hin. by destruct (Hn t).
Qed.

(** The owner of a port can never block on it: the detector reports the
    owner itself as a deadlock, with or without other waiters. *)
Theorem owner_block_refused m pid caller prio deadline :
  get_port_owner m pid = Some caller →
  block_recv m pid caller prio deadline = (m, Err DeadlockDetected).
Proof.
  intros Ho. unfold block_recv.
  rewrite (proj2 (detect_deadlock_iff m caller pid)) by (by apply waits_here).
  unfold get_port_owner in Ho. by destruct (ports m !! pid).
Qed.

(** A message whose shared region is gone by the time it is received is
    lost: [try_recv] takes it out of the queue and then reports
    [InvalidSharedRegion]. *)
Theorem try_recv_drops_message rs ticks m pid caller port msg rest region :
  ports m !! pid = Some port → port_messages port = msg :: rest →
  shared_region msg = Some region → payload msg = [] → rs region = None →
  ∃ m', try_recv rs ticks m pid caller = (m', Err InvalidSharedRegion) ∧
        port_messages <$> ports m' !! pid = Some rest.
Proof.
  intros Hp Hq Hr Hpl Hrs. unfold try_recv, receive_one, validate_payload_and_size.
  rewrite Hp, Hq, Hr, Hpl, Hrs. eexists. split; [done|]. simpl. by rewrite lookup_insert_eq.
Qed.

(** ** Witnesses *)

Definition no_regions : Z → option Z := λ _, None.

Definition demo_msg (n : Z) : Message := mkMsg 1 n [n; n + 1] None None 0.

(** Threads 1 and 2 own ports 1 and 2; thread 1 waits on port 2 until tick 50. *)
Definition demo_ipc_start : IpcState := (IpcManager_new, demo_sched.1, demo_sched.2).
Definition demo_ports : IpcState :=
  (ipc_exec no_regions (OpCreate 2) (ipc_exec no_regions (OpCreate 1) demo_ipc_start).1).1.
Definition demo_ipc : IpcState :=
  (ipc_exec no_regions (OpBlock 2 1 PrioNormal (Some 50)) demo_ports).1.

Lemma demo_ipc_steps : rtc ipc_step demo_ipc_start demo_ipc.
Proof.
  eapply rtc_l; [by apply (is_op no_regions (OpCreate 1))|].
  eapply rtc_l; [by apply (is_op no_regions (OpCreate 2))|].
  apply rtc_once. by apply (is_op no_regions (OpBlock 2 1 PrioNormal (Some 50))).
Qed.

Lemma demo_ipc_wf : ipc_wf demo_ipc.1.1.
Proof. eapply ipc_steps_wf; [apply demo_ipc_steps|apply ipc_new_wf]. Qed.

Lemma ipc_invariant_witness :
  ∃ port, ports demo_ipc.1.1 !! 2 = Some port ∧ receiver_blocked port = Some 1.
Proof.
  eexists. split; [reflexivity|].
  eapply (ipc_invariant demo_ipc.1.1 demo_ipc.1.2 demo_ipc.2 demo_sched.1 demo_sched.2
            demo_ipc_steps) with (w := mkWaiter 2 (Some 50)); reflexivity.
Defined.

Lemma ipc_deadlock_free_witness :
  waiting_threads demo_ipc.1.1 !! 1 = Some (mkWaiter 2 (Some 50)) ∧ ¬ waits demo_ipc.1.1 1 2.
Proof.
  split; [reflexivity|].
  apply (ipc_deadlock_free demo_ipc.1.1 demo_ipc.1.2 demo_ipc.2 demo_sched.1 demo_sched.2 1
           (mkWaiter 2 (Some 50)) demo_ipc_steps).
  reflexivity.
Defined.

(** Three messages accepted in two operations, two of them delivered. *)
Definition demo_fifo_ops : list IpcOp :=
  [OpSend 5 2 (demo_msg 10); OpSendBatch 6 2 [demo_msg 11; demo_msg 12]; OpTryRecv 7 2 2; OpRecvBatch 7 2 2 1].

Lemma ipc_fifo_witness :
  let o := (ipc_run no_regions demo_fifo_ops demo_ipc).2 in
  on_port 2 (delivered o) = [stamp 5 (demo_msg 10); stamp 6 (demo_msg 11)] ∧
  ∃ q', live_queue no_regions (ipc_run no_regions demo_fifo_ops demo_ipc).1.1.1 2 q' ∧
    [] ++ on_port 2 (accepted o) = on_port 2 (delivered o) ++ q'.
Proof.
  split; [vm_compute; reflexivity|].
  eapply (ipc_fifo no_regions demo_fifo_ops demo_ipc.1.1 demo_ipc.1.2 demo_ipc.2 2 []).
  - exact demo_ipc_wf.
  - vm_compute. discriminate.
  - repeat constructor.
  - eexists. split; [reflexivity|]. split; [reflexivity|constructor].
  - apply surjective_pairing.
Defined.

Lemma send_batch_atomic_witness :
  ∃ m' s' ths', send_batch no_regions 6 demo_ipc.1.1 demo_ipc.1.2 demo_ipc.2 2 [demo_msg 11]
                = (m', s', ths', Ok 1%nat) ∧ waiting_threads m' !! 1 = None.
Proof.
  destruct (send_batch no_regions 6 demo_ipc.1.1 demo_ipc.1.2 demo_ipc.2 2 [demo_msg 11])
    as [[[m' s'] ths'] r] eqn:E.
  pose proof (send_batch_atomic no_regions 6 demo_ipc.1.1 demo_ipc.1.2 demo_ipc.2 2 [demo_msg 11]
                m' s' ths' r E ltac:(discriminate)) as H.
  assert (r = Ok 1%nat) as ->.
  { change r with (m', s', ths', r).2. rewrite <- E. reflexivity. }
  exists m', s', ths'. split; [reflexivity|].
  destruct H as (_ & _ & port & port' & Hp & _ & _ & _ & _ & Hw). apply (Hw 1).
  vm_compute in Hp. injection Hp as <-. reflexivity.
Defined.

Lemma handle_timeouts_exact_witness :
  waiting_threads (handle_timeouts demo_ipc.1.1 demo_ipc.1.2 demo_ipc.2 60).1.1 !! 1 = None.
Proof.
  destruct (handle_timeouts_exact demo_ipc.1.1 demo_ipc.1.2 demo_ipc.2 60
    (handle_timeouts demo_ipc.1.1 demo_ipc.1.2 demo_ipc.2 60).1.1
    (handle_timeouts demo_ipc.1.1 demo_ipc.1.2 demo_ipc.2 60).1.2
    (handle_timeouts demo_ipc.1.1 demo_ipc.1.2 demo_ipc.2 60).2) as [H _]; [vm_compute; reflexivity|].
  apply (H 1 2). exists (mkWaiter 2 (Some 50)), 50. repeat split. lia.
Defined.

Lemma owner_block_refused_witness :
  block_recv demo_ports.1.1 2 2 PrioNormal None = (demo_ports.1.1, Err DeadlockDetected).
Proof. apply (owner_block_refused demo_ports.1.1 2 2 PrioNormal None). reflexivity. Defined.

(** Region 9 is live when the message is sent and gone when it is received. *)
Definition demo_region : Z → option Z := λ r, if r =? 9 then Some 4096 else None.
Definition demo_region_sent : IpcState :=
  (ipc_exec demo_region (OpSend 5 2 (new_with_shared_region 5 1 7 9)) demo_ports).1.

Lemma try_recv_drops_message_witness :
  ∃ m', try_recv no_regions 6 demo_region_sent.1.1 2 2 = (m', Err InvalidSharedRegion) ∧
        port_messages <$> ports m' !! 2 = Some [].
Proof.
  eapply (try_recv_drops_message no_regions 6 demo_region_sent.1.1 2 2); reflexivity.
Defined.
