(* ===== verification/Pmm.v ===== *)
(** * Physical page allocator

    Models [kernel/src/mm/pmm.rs]: the page bitmap (a clear bit is a free page),
    its counters, initialisation from the memory map, first-fit allocation of
    one page or a contiguous run, and freeing.  The bitmap is a finite map from
    byte index to byte in which an absent byte reads as [0xFF], the value the
    array is filled with. *)

From S2P Require Import Prelude.

Definition MAX_PAGES : Z := 256 * 1024.
Definition PAGE_SIZE : Z := 4096.
Definition EFI_CONVENTIONAL_MEMORY : Z := 7.

Record Pmm := mkPmm {
  bitmap : gmap Z Z;
  total_pages : Z;
  free_count : Z;
  largest_free_run : Z;
}.

Definition Pmm_initial : Pmm := mkPmm ∅ 0 0 0.

(** [BITMAP[byte]] *)
Definition bitmap_byte (p : Pmm) (byte : Z) : Z := default 0xFF (bitmap p !! byte).

Definition set_bitmap (p : Pmm) (b : gmap Z Z) : Pmm :=
  mkPmm b (total_pages p) (free_count p) (largest_free_run p).

Definition set_free_count (p : Pmm) (n : Z) : Pmm :=
  mkPmm (bitmap p) (total_pages p) n (largest_free_run p).

Definition is_page_free (p : Pmm) (page : Z) : bool :=
  if total_pages p <=? page then false
  else Z.land (bitmap_byte p (page / 8)) (Z.shiftl 1 (page mod 8)) =? 0.

Definition set_page_free (p : Pmm) (page : Z) : Pmm :=
  if total_pages p <=? page then p
  else
    let byte := page / 8 in
    set_bitmap p
      (<[byte := Z.land (bitmap_byte p byte) (not_w 8 (Z.shiftl 1 (page mod 8)))]> (bitmap p)).

Definition set_page_allocated (p : Pmm) (page : Z) : Pmm :=
  if total_pages p <=? page then p
  else
    let byte := page / 8 in
    set_bitmap p
      (<[byte := Z.lor (bitmap_byte p byte) (Z.shiftl 1 (page mod 8))]> (bitmap p)).

(** ** Initialisation from the memory map ([boot.rs]) *)

Record MemoryDescriptor := mkDesc { typ : Z; physical_start : Z; number_of_pages : Z }.

Definition desc_start (d : MemoryDescriptor) : Z := physical_start d / PAGE_SIZE.
Definition desc_end (d : MemoryDescriptor) : Z :=
  saturating_add 64 (desc_start d) (number_of_pages d).

Definition tracked_end (ds : list MemoryDescriptor) : Z :=
  foldl (λ e d, if e <? desc_end d then desc_end d else e) 0 ds.

Definition init_desc (st : Pmm * Z) (d : MemoryDescriptor) : Pmm * Z :=
  let '(p, free_pages) := st in
  if negb (typ d =? EFI_CONVENTIONAL_MEMORY) then (p, free_pages)
  else if total_pages p <=? desc_start d then (p, free_pages)
  else
    let end_page := Z.min (desc_end d) (total_pages p) in
    foldl (λ st page, (set_page_free st.1 page, st.2 + 1)) (p, free_pages)
      (seqZ (desc_start d) (end_page - desc_start d)).

(** The scan for the longest free run: current and maximal run. *)
Definition run_step (p : Pmm) (st : Z * Z) (page : Z) : Z * Z :=
  let '(current_run, max_run) := st in
  if is_page_free p page then
    let current_run := current_run + 1 in
    (current_run, if max_run <? current_run then current_run else max_run)
  else (0, max_run).

Definition init (ds : list MemoryDescriptor) : Pmm :=
  let total := Z.min (tracked_end ds) MAX_PAGES in
  let '(p, free_pages) := foldl init_desc (mkPmm ∅ total 0 0, 0) ds in
  let '(_, max_run) := foldl (run_step p) (0, 0) (seqZ 0 total) in
  mkPmm (bitmap p) total free_pages max_run.

(** ** Allocation and release *)

Definition alloc_page (p : Pmm) : Pmm * option Z :=
  if free_count p =? 0 then (p, None)
  else
    match find_first (is_page_free p) (seqZ 0 (total_pages p)) with
    | Some page =>
        (set_free_count (set_page_allocated p page) (wrap64 (free_count p - 1)),
         Some (page * PAGE_SIZE))
    | None => (p, None)
    end.

Definition free_page (p : Pmm) (addr : Z) : Pmm :=
  if negb (addr mod PAGE_SIZE =? 0) then p
  else
    let page := addr / PAGE_SIZE in
    if MAX_PAGES <=? page then p
    else if negb (is_page_free p page) then
      set_free_count (set_page_free p page) (wrap64 (free_count p + 1))
    else p.

Definition run_free (p : Pmm) (count start : Z) : bool :=
  forallb (λ i, is_page_free p (start + i)) (seqZ 0 count).

Definition alloc_pages (p : Pmm) (count : Z) : Pmm * option Z :=
  if count =? 0 then (p, None)
  else if count =? 1 then alloc_page p
  else if free_count p <? count then (p, None)
  else if total_pages p <? count then (p, None)
  else
    match find_first (run_free p count) (seqZ 0 (total_pages p - count + 1)) with
    | Some start =>
        (set_free_count (foldl (λ p i, set_page_allocated p (start + i)) p (seqZ 0 count))
           (wrap64 (free_count p - count)),
         Some (start * PAGE_SIZE))
    | None => (p, None)
    end.

Definition free_pages (p : Pmm) (addr count : Z) : Pmm :=
  foldl (λ p i, free_page p (wrap64 (addr + i * PAGE_SIZE))) p (seqZ 0 count).

(** [write_bytes(addr, 0, words * 8)] on page-aligned memory. *)
Definition zero_words (m : Memory) (addr words : Z) : Memory :=
  foldl (λ m i, mem_write m (addr + 8 * i) 0) m (seqZ 0 words).

Definition alloc_page_zeroed (p : Pmm) (m : Memory) : Pmm * Memory * option Z :=
  match alloc_page p with
  | (p, None) => (p, m, None)
  | (p, Some addr) => (p, zero_words m addr (PAGE_SIZE / 8), Some addr)
  end.

Definition alloc_pages_zeroed (p : Pmm) (m : Memory) (count : Z) : Pmm * Memory * option Z :=
  let count := Z.max count 1 in
  match alloc_pages p count with
  | (p, None) => (p, m, None)
  | (p, Some addr) => (p, zero_words m addr (count * PAGE_SIZE / 8), Some addr)
  end.

(** ** Address helpers *)

Definition is_page_aligned (addr : Z) : bool := addr mod PAGE_SIZE =? 0.
Definition align_down (addr : Z) : Z := Z.land addr (not_w 64 (PAGE_SIZE - 1)).
Definition align_up (addr : Z) : Z :=
  Z.land (wrap64 (addr + PAGE_SIZE - 1)) (not_w 64 (PAGE_SIZE - 1)).
Definition addr_to_page (addr : Z) : Z := addr / PAGE_SIZE.
Definition page_to_addr (page : Z) : Z := wrap64 (page * PAGE_SIZE).

Record MemoryStats := mkMemStats {
  ms_total_pages : Z; ms_free_pages : Z; ms_used_pages : Z;
  ms_total_bytes : Z; ms_free_bytes : Z; ms_used_bytes : Z;
}.

Definition get_detailed_stats (p : Pmm) : MemoryStats :=
  let used := wrap64 (total_pages p - free_count p) in
  mkMemStats (total_pages p) (free_count p) used (wrap64 (total_pages p * PAGE_SIZE))
    (wrap64 (free_count p * PAGE_SIZE)) (wrap64 (used * PAGE_SIZE)).
