(* ===== verification/PmmSafety.v ===== *)
(** * Physical page allocator: properties

    The bitmap as a set of free pages, and the operations of [Pmm.v] as
    operations on that set. *)

From S2P Require Import Prelude Pmm.

(** ** One bit per page *)

Lemma is_page_free_bits p q :
  0 ≤ q →
  is_page_free p q = (q <? total_pages p) && negb (Z.testbit (bitmap_byte p (q / 8)) (q mod 8)).
Proof.
  intros Hq. unfold is_page_free. rewrite land_bit by (apply Z.mod_pos_bound; lia).
  destruct (Z.leb_spec (total_pages p) q); destruct (Z.ltb_spec q (total_pages p)); done || lia.
Qed.

Lemma bitmap_byte_set p b byte v :
  bitmap_byte (set_bitmap p (<[byte := v]> (bitmap p))) b = if decide (b = byte) then v else bitmap_byte p b.
Proof.
  unfold bitmap_byte. simpl. case_decide; subst.
  - by rewrite lookup_insert_eq.
  - by rewrite lookup_insert_ne.
Qed.

(** Updating the byte of [page] with a function that acts on one bit. *)
Lemma is_page_free_update p page q v b :
  0 ≤ page < total_pages p → 0 ≤ q →
  (∀ j, 0 ≤ j < 8 → Z.testbit v j =
     if decide (j = page mod 8) then b else Z.testbit (bitmap_byte p (page / 8)) j) →
  is_page_free (set_bitmap p (<[page / 8 := v]> (bitmap p))) q =
  if decide (q = page) then negb b else is_page_free p q.
Proof.
  intros Hp Hq Hv. rewrite !is_page_free_bits, bitmap_byte_set by done. simpl.
  pose proof (Z.mod_pos_bound q 8 ltac:(lia)). destruct (decide (q = page)) as [->|Hne].
  - rewrite decide_True, Hv, decide_True by done.
    by rewrite (proj2 (Z.ltb_lt _ _)) by lia.
  - case_decide as Hb; [|done]. rewrite Hv, decide_False, Hb; [done| |lia].
    intros Hm. apply Hne. rewrite (Z.div_mod q 8), (Z.div_mod page 8) by lia. by rewrite Hb, Hm.
Qed.

Lemma is_page_free_allocated p page q :
  0 ≤ page < total_pages p → 0 ≤ q →
  is_page_free (set_page_allocated p page) q = if decide (q = page) then false else is_page_free p q.
Proof.
  intros Hp Hq. unfold set_page_allocated. rewrite (proj2 (Z.leb_gt _ _)) by lia.
  rewrite (is_page_free_update p page q _ true); [done..|].
  intros j Hj. pose proof (Z.mod_pos_bound page 8 ltac:(lia)).
  rewrite Z.lor_spec, testbit_bit by lia. case_bool_decide; case_decide; try done.
  - by rewrite orb_true_r.
  - by rewrite orb_false_r.
Qed.

Lemma is_page_free_freed p page q :
  0 ≤ page < total_pages p → 0 ≤ q →
  is_page_free (set_page_free p page) q = if decide (q = page) then true else is_page_free p q.
Proof.
  intros Hp Hq. unfold set_page_free. rewrite (proj2 (Z.leb_gt _ _)) by lia.
  rewrite (is_page_free_update p page q _ false); [done..|].
  intros j Hj. pose proof (Z.mod_pos_bound page 8 ltac:(lia)).
  rewrite Z.land_spec, not_w_spec, testbit_bit by lia.
  rewrite (bool_decide_eq_true_2 (j < 8)) by lia.
  case_bool_decide; case_decide; try done; [apply andb_false_r|apply andb_true_r].
Qed.

Lemma total_set_allocated p page : total_pages (set_page_allocated p page) = total_pages p.
Proof. unfold set_page_allocated. by case_match. Qed.

Lemma total_set_free p page : total_pages (set_page_free p page) = total_pages p.
Proof. unfold set_page_free. by case_match. Qed.

(** ** The set of free pages *)

Definition free_set (p : Pmm) : gset Z :=
  list_to_set (filter (λ q, is_page_free p q = true) (seqZ 0 (total_pages p))).

Lemma elem_of_free_set p q : q ∈ free_set p ↔ 0 ≤ q ∧ is_page_free p q = true.
Proof.
  unfold free_set. rewrite elem_of_list_to_set, list_elem_of_filter, elem_of_seqZ. split; [naive_solver|].
  intros [Hq Hf]. split; [done|]. unfold is_page_free in Hf.
  destruct (Z.leb_spec (total_pages p) q); [done|lia].
Qed.

Lemma free_set_lt p q : q ∈ free_set p → 0 ≤ q < total_pages p.
Proof.
  intros [Hq Hf]%elem_of_free_set. unfold is_page_free in Hf.
  destruct (Z.leb_spec (total_pages p) q); [done|lia].
Qed.

Lemma free_set_allocated p page :
  0 ≤ page < total_pages p → free_set (set_page_allocated p page) = free_set p ∖ {[page]}.
Proof.
  intros Hp. apply set_eq. intros q. rewrite elem_of_difference, !elem_of_free_set, elem_of_singleton.
  destruct (decide (0 ≤ q)); [|naive_solver].
  rewrite is_page_free_allocated by done. case_decide; naive_solver.
Qed.

Lemma free_set_freed p page :
  0 ≤ page < total_pages p → free_set (set_page_free p page) = {[page]} ∪ free_set p.
Proof.
  intros Hp. apply set_eq. intros q. rewrite elem_of_union, !elem_of_free_set, elem_of_singleton.
  destruct (decide (0 ≤ q)); [|naive_solver lia].
  rewrite is_page_free_freed by done. case_decide; naive_solver.
Qed.

(** The run of [count] pages from [start]. *)
Definition run_set (start count : Z) : gset Z := list_to_set (seqZ start count).

Lemma size_run_set start count : 0 ≤ count → Z.of_nat (size (run_set start count)) = count.
Proof. intros. unfold run_set. rewrite size_list_to_set by apply NoDup_seqZ. rewrite length_seqZ. lia. Qed.

Lemma elem_of_run_set q start count : q ∈ run_set start count ↔ start ≤ q < start + count.
Proof. unfold run_set. by rewrite elem_of_list_to_set, elem_of_seqZ. Qed.

Lemma run_set_shift start count :
  list_to_set ((λ i, start + i) <$> seqZ 0 count) = run_set start count.
Proof. unfold run_set. f_equal. rewrite <- (Z.add_0_r start) at 1. apply fmap_add_seqZ. Qed.

Lemma run_free_spec p count start :
  0 ≤ start → run_free p count start = true ↔ run_set start count ⊆ free_set p.
Proof.
  intros Hs. unfold run_free. rewrite forallb_forall. split.
  - intros H q Hq%elem_of_run_set. apply elem_of_free_set. split; [lia|].
    replace q with (start + (q - start)) by lia. apply H, list_elem_of_In, elem_of_seqZ. lia.
  - intros H i Hi%list_elem_of_In%elem_of_seqZ. eapply elem_of_free_set, H, elem_of_run_set. lia.
Qed.

Lemma foldl_allocated p start (l : list Z) :
  (∀ i, i ∈ l → 0 ≤ start + i < total_pages p) →
  let p' := foldl (λ p i, set_page_allocated p (start + i)) p l in
  total_pages p' = total_pages p ∧ free_set p' = free_set p ∖ list_to_set ((λ i, start + i) <$> l).
Proof.
  revert p. induction l as [|i l IH]; intros p Hl; simpl.
  - split; [done|set_solver].
  - destruct (IH (set_page_allocated p (start + i))) as [-> ->].
    { intros j Hj. rewrite total_set_allocated. apply Hl. set_solver. }
    rewrite total_set_allocated, free_set_allocated by (apply Hl; set_solver).
    split; [done|set_solver].
Qed.

(** ** Invariant *)

Record pmm_wf (p : Pmm) : Prop := {
  pw_total : 0 ≤ total_pages p ≤ MAX_PAGES;
  pw_free : free_count p = Z.of_nat (size (free_set p));
}.

Lemma free_set_count p n : free_set (set_free_count p n) = free_set p.
Proof. done. Qed.

Lemma free_set_small p : pmm_wf p → Z.of_nat (size (free_set p)) ≤ total_pages p.
Proof.
  intros [Ht _]. rewrite <- (size_run_set 0 (total_pages p)) by lia.
  apply Nat2Z.inj_le, subseteq_size. intros q Hq%free_set_lt. apply elem_of_run_set. lia.
Qed.

(** Taking a set of free pages out of the allocator. *)
Lemma pmm_wf_take p p' (X : gset Z) :
  pmm_wf p → X ⊆ free_set p → total_pages p' = total_pages p → free_set p' = free_set p ∖ X →
  free_count p' = wrap64 (free_count p - Z.of_nat (size X)) → pmm_wf p'.
Proof.
  intros Hwf HX Ht Hf Hc. pose proof (free_set_small p Hwf) as Hs. destruct Hwf as [Htot Hfree].
  pose proof (subseteq_size _ _ HX). split; [by rewrite Ht|].
  rewrite Hc, Hf, size_difference, Hfree by done. unfold MAX_PAGES in *.
  rewrite wrap_small by (unfold in_range; lia). lia.
Qed.

Lemma alloc_page_spec p :
  pmm_wf p →
  (alloc_page p = (p, None) ∧ free_set p = ∅) ∨
  ∃ page p', alloc_page p = (p', Some (page * PAGE_SIZE)) ∧ page ∈ free_set p ∧
    (∀ q, q ∈ free_set p → page ≤ q) ∧ total_pages p' = total_pages p ∧
    free_set p' = free_set p ∖ {[page]} ∧ pmm_wf p'.
Proof.
  intros Hwf. unfold alloc_page. pose proof Hwf as [_ Hc].
  destruct (Z.eqb_spec (free_count p) 0) as [E|E].
  - left. split; [done|]. apply leibniz_equiv, size_empty_inv. lia.
  - destruct (find_first _ _) as [page|] eqn:Hf.
    + right. apply find_first_seqZ in Hf as (Hpf & Hr & Hlow). eexists page, _. split; [done|].
      assert (page ∈ free_set p) as Hin by (apply elem_of_free_set; split; [lia|done]).
      rewrite free_set_count, free_set_allocated by lia. split_and!; [done| |by apply total_set_allocated|done|].
      * intros q [Hq Hqf]%elem_of_free_set. destruct (decide (page ≤ q)); [done|].
        rewrite Hlow in Hqf; [done|lia].
      * eapply (pmm_wf_take p _ {[page]}); [done|set_solver|by apply total_set_allocated| |].
        -- rewrite free_set_count. apply free_set_allocated. lia.
        -- by rewrite size_singleton.
    + left. split; [done|]. apply set_eq. intros q. split; [|set_solver].
      intros Hq. pose proof (free_set_lt _ _ Hq). apply elem_of_free_set in Hq as [_ Hq].
      rewrite find_first_seqZ_None in Hf. rewrite Hf in Hq; [done|lia].
Qed.

Lemma run_set_one start : run_set start 1 = {[start]}.
Proof. apply set_eq. intros q. rewrite elem_of_run_set, elem_of_singleton. lia. Qed.

Lemma foldl_alloc_run p start count :
  0 ≤ start → 0 ≤ count → run_set start count ⊆ free_set p →
  let p' := foldl (λ p i, set_page_allocated p (start + i)) p (seqZ 0 count) in
  total_pages p' = total_pages p ∧ free_set p' = free_set p ∖ run_set start count.
Proof.
  intros Hs Hc Hr. destruct (foldl_allocated p start (seqZ 0 count)) as [Ht Hf].
  - intros i Hi%elem_of_seqZ. assert (start + i ∈ free_set p) as H by (apply Hr, elem_of_run_set; lia).
    apply free_set_lt in H. lia.
  - split; [done|]. by rewrite Hf, run_set_shift.
Qed.

(** An allocation that succeeded: the lowest run of [count] free pages. *)
Record allocates (p : Pmm) (count start : Z) (p' : Pmm) : Prop := {
  al_start : 0 ≤ start;
  al_run : run_set start count ⊆ free_set p;
  al_lowest : ∀ s, 0 ≤ s < start → ¬ run_set s count ⊆ free_set p;
  al_total : total_pages p' = total_pages p;
  al_free : free_set p' = free_set p ∖ run_set start count;
  al_wf : pmm_wf p';
}.

Lemma alloc_pages_spec p count :
  pmm_wf p → 1 ≤ count →
  (alloc_pages p count = (p, None) ∧ ∀ start, 0 ≤ start → ¬ run_set start count ⊆ free_set p) ∨
  ∃ start p', alloc_pages p count = (p', Some (start * PAGE_SIZE)) ∧ allocates p count start p'.
Proof.
  intros Hwf Hc. unfold alloc_pages. rewrite (proj2 (Z.eqb_neq count 0)) by lia.
  destruct (Z.eqb_spec count 1) as [->|Hc1].
  { destruct (alloc_page_spec p Hwf) as [[-> He]|(page & p' & -> & Hin & Hlow & Ht & Hf & Hwf')].
    - left. split; [done|]. intros start _. rewrite run_set_one, He. set_solver.
    - right. exists page, p'. split; [done|]. apply free_set_lt in Hin as Hlt.
      split; rewrite ?run_set_one; try done; try lia; [set_solver|].
      intros s Hs. rewrite run_set_one, singleton_subseteq_l. intros Hs'%Hlow. lia. }
  assert (Hrun : ∀ start, 0 ≤ start → run_set start count ⊆ free_set p →
                   count ≤ free_count p ∧ start + count ≤ total_pages p).
  { intros start Hs Hr. split.
    - rewrite (pw_free _ Hwf), <- (size_run_set start count) by lia. by apply Nat2Z.inj_le, subseteq_size.
    - assert (start + count - 1 ∈ free_set p) as H by (apply Hr, elem_of_run_set; lia).
      apply free_set_lt in H. lia. }
  destruct (Z.ltb_spec (free_count p) count).
  { left. split; [done|]. intros start Hs Hr%Hrun; [lia|done]. }
  destruct (Z.ltb_spec (total_pages p) count).
  { left. split; [done|]. intros start Hs Hr%Hrun; [lia|done]. }
  destruct (find_first _ _) as [start|] eqn:Hf.
  - right. apply find_first_seqZ in Hf as (Hfree & Hr & Hlow). eexists start, _. split; [done|].
    apply run_free_spec in Hfree; [|lia].
    destruct (foldl_alloc_run p start count) as [Ht Hfs]; [lia|lia|done|].
    split; [lia|done| |done|done|].
    + intros s Hs. rewrite <- run_free_spec by lia. rewrite Hlow by lia. done.
    + eapply (pmm_wf_take p _ (run_set start count)); [done..|]. simpl. by rewrite size_run_set by lia.
  - left. split; [done|]. intros start Hs Hr. rewrite find_first_seqZ_None in Hf.
    destruct (Hrun _ Hs Hr). apply run_free_spec in Hr; [|done].
    rewrite Hf in Hr; [done|lia].
Qed.

Lemma free_page_spec p page :
  pmm_wf p → 0 ≤ page < total_pages p →
  let p' := free_page p (page * PAGE_SIZE) in
  total_pages p' = total_pages p ∧ free_set p' = {[page]} ∪ free_set p ∧ pmm_wf p'.
Proof.
  intros Hwf Hp. unfold free_page. pose proof Hwf as [Ht Hc].
  rewrite Z.mod_mul, Z.div_mul by done. simpl.
  rewrite (proj2 (Z.leb_gt MAX_PAGES page)) by lia.
  destruct (is_page_free p page) eqn:Hf; simpl.
  - assert (page ∈ free_set p) by (apply elem_of_free_set; split; [lia|done]).
    split_and!; [done|set_solver|done].
  - rewrite total_set_free, free_set_count, free_set_freed by done. split_and!; [done..|].
    assert (page ∉ free_set p) by (rewrite elem_of_free_set; intros []; congruence).
    pose proof (free_set_small p Hwf). unfold MAX_PAGES in *.
    split; simpl; rewrite ?total_set_free; [done|].
    rewrite free_set_count, free_set_freed, size_union, size_singleton, Hc by (done || set_solver).
    rewrite wrap_small by (unfold in_range; lia). lia.
Qed.

Lemma free_pages_spec p start count :
  pmm_wf p → 0 ≤ start → 0 ≤ count → start + count ≤ total_pages p →
  let p' := free_pages p (start * PAGE_SIZE) count in
  total_pages p' = total_pages p ∧ free_set p' = run_set start count ∪ free_set p ∧ pmm_wf p'.
Proof.
  intros Hwf Hs Hc Hle. unfold free_pages.
  assert (H : ∀ l p, pmm_wf p → (∀ i, i ∈ l → 0 ≤ start + i < total_pages p) →
    let p' := foldl (λ p i, free_page p (wrap64 (start * PAGE_SIZE + i * PAGE_SIZE))) p l in
    total_pages p' = total_pages p ∧
    free_set p' = list_to_set ((λ i, start + i) <$> l) ∪ free_set p ∧ pmm_wf p').
  { clear. induction l as [|i l IH]; intros p Hwf Hl; simpl; [split_and!; [done|set_solver|done]|].
    assert (Hi : 0 ≤ start + i < total_pages p) by (apply Hl; set_solver).
    assert (wrap64 (start * PAGE_SIZE + i * PAGE_SIZE) = (start + i) * PAGE_SIZE) as ->.
    { pose proof (pw_total _ Hwf). unfold MAX_PAGES, PAGE_SIZE in *.
      rewrite wrap_small by (unfold in_range; lia). lia. }
    destruct (free_page_spec p (start + i) Hwf Hi) as (Ht & Hf & Hwf').
    destruct (IH (free_page p ((start + i) * PAGE_SIZE))) as (Ht2 & Hf2 & ?).
    { done. } { intros j Hj. rewrite Ht. apply Hl. set_solver. }
    split_and!; [congruence| |done]. rewrite Hf2, Hf. set_solver. }
  destruct (H (seqZ 0 count) p Hwf) as (Ht & Hf & Hwf').
  { intros i Hi%elem_of_seqZ. lia. }
  split_and!; [done| |done]. by rewrite Hf, run_set_shift.
Qed.

(** ** Initialisation *)

Definition desc_wf (d : MemoryDescriptor) : Prop :=
  in_range 64 (physical_start d) ∧ in_range 64 (number_of_pages d).

(** The pages a descriptor makes available. *)
Definition desc_pages (total : Z) (d : MemoryDescriptor) : list Z :=
  if typ d =? EFI_CONVENTIONAL_MEMORY
  then seqZ (desc_start d) (Z.min (desc_end d) total - desc_start d) else [].

Lemma desc_start_nonneg d : desc_wf d → 0 ≤ desc_start d.
Proof. intros [[? ?] _]. unfold desc_start. apply Z.div_pos; done. Qed.

Lemma foldl_set_free (l : list Z) p n :
  (∀ q, q ∈ l → 0 ≤ q < total_pages p) →
  let st := foldl (λ st page, (set_page_free st.1 page, st.2 + 1)) (p, n) l in
  total_pages st.1 = total_pages p ∧ free_set st.1 = list_to_set l ∪ free_set p ∧
  st.2 = n + Z.of_nat (length l).
Proof.
  revert p n. induction l as [|q l IH]; intros p n Hl; cbn [foldl].
  - split_and!; [done|set_solver|simpl; lia].
  - destruct (IH (set_page_free p q) (n + 1)) as (Ht & Hf & Hn).
    { intros x Hx. rewrite total_set_free. apply Hl. set_solver. }
    cbn [fst snd]. rewrite Ht, Hf, Hn, total_set_free, free_set_freed by (apply Hl; set_solver).
    split_and!; [done|set_solver|simpl length; lia].
Qed.

Lemma init_desc_spec p n d :
  desc_wf d →
  let st := init_desc (p, n) d in
  total_pages st.1 = total_pages p ∧
  free_set st.1 = list_to_set (desc_pages (total_pages p) d) ∪ free_set p ∧
  st.2 = n + Z.of_nat (length (desc_pages (total_pages p) d)).
Proof.
  intros Hd. unfold init_desc, desc_pages. pose proof (desc_start_nonneg d Hd).
  destruct (typ d =? EFI_CONVENTIONAL_MEMORY); simpl; [|split_and!; [done|set_solver|lia]].
  destruct (Z.leb_spec (total_pages p) (desc_start d)).
  - rewrite seqZ_nil by lia. split_and!; [done|set_solver|simpl; lia].
  - apply foldl_set_free. intros q Hq%elem_of_seqZ. lia.
Qed.

Lemma foldl_init_desc ds p n :
  Forall desc_wf ds →
  let st := foldl init_desc (p, n) ds in
  total_pages st.1 = total_pages p ∧
  free_set st.1 = list_to_set (concat (desc_pages (total_pages p) <$> ds)) ∪ free_set p ∧
  st.2 = n + Z.of_nat (length (concat (desc_pages (total_pages p) <$> ds))).
Proof.
  revert p n. induction ds as [|d ds IH]; intros p n Hds; cbn [foldl].
  - split_and!; [done|set_solver|simpl; lia].
  - apply Forall_cons in Hds as [Hd Hds].
    destruct (init_desc_spec p n d Hd) as (Ht & Hf & Hn).
    destruct (init_desc (p, n) d) as [p1 n1]. cbn [fst snd] in *.
    destruct (IH p1 n1 Hds) as (Ht2 & Hf2 & Hn2).
    rewrite Ht2, Hf2, Hn2, Ht, Hf, Hn. rewrite fmap_cons. cbn [concat].
    rewrite length_app, list_to_set_app_L. split_and!; [done|set_solver|lia].
Qed.

Definition init_total (ds : list MemoryDescriptor) : Z := Z.min (tracked_end ds) MAX_PAGES.

Lemma tracked_end_nonneg ds : 0 ≤ tracked_end ds.
Proof.
  unfold tracked_end.
  enough (∀ e, 0 ≤ e → 0 ≤ foldl (λ e d, if e <? desc_end d then desc_end d else e) e ds) as H
    by (by apply H).
  induction ds as [|d ds IH]; intros e He; simpl; [done|]. apply IH. case_match; lia.
Qed.

Lemma init_spec ds :
  Forall desc_wf ds →
  total_pages (init ds) = init_total ds ∧
  free_set (init ds) = list_to_set (concat (desc_pages (init_total ds) <$> ds)) ∧
  free_count (init ds) = Z.of_nat (length (concat (desc_pages (init_total ds) <$> ds))).
Proof.
  intros Hds. unfold init. fold (init_total ds).
  destruct (foldl_init_desc ds (mkPmm ∅ (init_total ds) 0 0) 0 Hds) as (Ht & Hf & Hn).
  destruct (foldl init_desc _ ds) as [p n]. destruct (foldl (run_step p) _ _) as [c mx].
  cbn [fst snd total_pages] in *. split_and!; [done| |done].
  transitivity (free_set p); [unfold free_set, is_page_free, bitmap_byte; cbn; by rewrite Ht|].
  rewrite Hf. assert (free_set (mkPmm ∅ (init_total ds) 0 0) = ∅) as ->; [|set_solver].
  apply set_eq. intros q. split; [|set_solver]. intros [Hq Hfr]%elem_of_free_set.
  rewrite is_page_free_bits in Hfr by done. apply andb_prop in Hfr as [_ Hb]. exfalso.
  unfold bitmap_byte in Hb. simpl in Hb. rewrite lookup_empty in Hb. simpl in Hb.
  pose proof (Z.mod_pos_bound q 8 ltac:(lia)) as Hm.
  change 255 with (Z.ones 8) in Hb. by rewrite Z.ones_spec_low in Hb by lia.
Qed.

(** The scan of [init] over the first [k] pages: [cur] free pages end at [k],
    and [mx] is the length of the longest free run seen. *)
Record scanned (p : Pmm) (k cur mx : Z) : Prop := {
  sc_cur : 0 ≤ cur ≤ k;
  sc_suffix : run_set (k - cur) cur ⊆ free_set p;
  sc_stop : cur < k → k - cur - 1 ∉ free_set p;
  sc_attained : 0 ≤ mx ∧ ∃ s, 0 ≤ s ∧ s + mx ≤ k ∧ run_set s mx ⊆ free_set p;
  sc_longest : ∀ s n, 0 ≤ s → s + n ≤ k → run_set s n ⊆ free_set p → n ≤ mx;
}.

Lemma run_set_empty s n : n ≤ 0 → run_set s n = ∅.
Proof. intros. unfold run_set. by rewrite seqZ_nil. Qed.

Lemma scanned_step p k cur mx :
  0 ≤ k → scanned p k cur mx →
  scanned p (k + 1) (run_step p (cur, mx) k).1 (run_step p (cur, mx) k).2.
Proof.
  intros Hk [Hc Hs Hst [Hm (s0 & Hs0 & Hle & Hrun)] Hl]. unfold run_step.
  destruct (is_page_free p k) eqn:Hf; cbn [fst snd].
  - assert (Hin : k ∈ free_set p) by (by apply elem_of_free_set).
    assert (Hsuf : run_set (k + 1 - (cur + 1)) (cur + 1) ⊆ free_set p).
    { intros q Hq%elem_of_run_set. destruct (decide (q = k)) as [->|]; [done|].
      apply Hs, elem_of_run_set. lia. }
    assert (Hlong : ∀ s n, 0 ≤ s → s + n ≤ k + 1 → run_set s n ⊆ free_set p → n ≤ mx ∨ n ≤ cur + 1).
    { intros s n Hs' Hn Hr. destruct (decide (s + n ≤ k)); [left; by eapply Hl|].
      destruct (decide (n ≤ cur + 1)); [by right|]. exfalso. apply Hst; [lia|].
      apply Hr, elem_of_run_set. lia. }
    split; [lia|done| | |].
    + intros. replace (k + 1 - (cur + 1) - 1) with (k - cur - 1) by lia. apply Hst. lia.
    + destruct (Z.ltb_spec mx (cur + 1)); (split; [lia|]).
      * exists (k - cur). replace (k + 1 - (cur + 1)) with (k - cur) in Hsuf by lia. split_and!; [lia..|done].
      * exists s0. split_and!; [lia..|done].
    + intros s n Hs' Hn Hr. destruct (Z.ltb_spec mx (cur + 1)); destruct (Hlong s n Hs' Hn Hr); lia.
  - assert (Hin : k ∉ free_set p) by (rewrite elem_of_free_set; intros []; congruence).
    split; [lia|by rewrite run_set_empty| | |].
    + intros _. by replace (k + 1 - 0 - 1) with k by lia.
    + split; [done|]. exists s0. split_and!; [lia..|done].
    + intros s n Hs' Hn Hr. destruct (decide (s + n ≤ k)); [by eapply Hl|].
      destruct (decide (n ≤ 0)); [lia|]. destruct Hin. apply Hr, elem_of_run_set. lia.
Qed.

Lemma scanned_all p (k : nat) :
  let st := foldl (run_step p) (0, 0) (seqZ 0 (Z.of_nat k)) in scanned p (Z.of_nat k) st.1 st.2.
Proof.
  induction k as [|k IH].
  - split; simpl; [lia|by rewrite run_set_empty|lia| |lia].
    split; [lia|]. exists 0. by rewrite run_set_empty.
  - rewrite seqZ_S, foldl_app. cbn [foldl]. rewrite Nat2Z.inj_succ, <- Z.add_1_r, Z.add_0_l.
    destruct (foldl (run_step p) (0, 0) (seqZ 0 (Z.of_nat k))) as [cur mx]. apply scanned_step; [lia|done].
Qed.

Lemma foldl_init_total ds st : total_pages (foldl init_desc st ds).1 = total_pages st.1.
Proof.
  revert st. induction ds as [|d ds IH]; intros [p n]; [done|]. cbn [foldl]. rewrite IH. cbn [fst].
  unfold init_desc. destruct (negb _); [done|]. destruct (_ <=? _); [done|].
  generalize (seqZ (desc_start d) (Z.min (desc_end d) (total_pages p) - desc_start d)). intros l.
  revert p n. induction l as [|x l IHl]; intros p n; [done|].
  cbn [foldl]. rewrite IHl. apply total_set_free.
Qed.

Lemma init_longest ds :
  (∃ s, 0 ≤ s ∧ run_set s (largest_free_run (init ds)) ⊆ free_set (init ds)) ∧
  ∀ s n, 0 ≤ s → run_set s n ⊆ free_set (init ds) → n ≤ largest_free_run (init ds).
Proof.
  unfold init. fold (init_total ds).
  destruct (foldl init_desc (mkPmm ∅ (init_total ds) 0 0, 0) ds) as [p n] eqn:E.
  assert (Ht : total_pages p = init_total ds).
  { pose proof (foldl_init_total ds (mkPmm ∅ (init_total ds) 0 0, 0)) as H. by rewrite E in H. }
  assert (0 ≤ init_total ds) as Hpos.
  { unfold init_total. pose proof (tracked_end_nonneg ds). unfold MAX_PAGES. lia. }
  pose proof (scanned_all p (Z.to_nat (init_total ds))) as Hsc. rewrite Z2Nat.id in Hsc by done.
  destruct (foldl (run_step p) (0, 0) _) as [cur mx]. cbn [fst snd largest_free_run] in *.
  replace (free_set (mkPmm (bitmap p) (init_total ds) n mx)) with (free_set p)
    by (unfold free_set, is_page_free, bitmap_byte; cbn; by rewrite Ht).
  destruct Hsc as [_ _ _ [_ (s & ? & ? & ?)] Hl]. split; [by exists s|].
  intros s' n' Hs' Hr. destruct (decide (n' ≤ 0)) as [|Hn].
  - etrans; [done|]. eapply (Hl 0 0); [done|lia|by rewrite run_set_empty].
  - eapply Hl; [done| |done]. assert (s' + n' - 1 ∈ free_set p) as Hin by (apply Hr, elem_of_run_set; lia).
    apply free_set_lt in Hin. lia.
Qed.

Lemma foldl_zero_words (l : list Z) m addr a :
  mem_read (foldl (λ m i, mem_write m (addr + 8 * i) 0) m l) a =
  if decide (a ∈ (λ i, addr + 8 * i) <$> l) then 0 else mem_read m a.
Proof.
  revert m. induction l as [|i l IH]; intros m; [done|]. cbn [foldl]. rewrite IH, fmap_cons.
  destruct (decide (a = addr + 8 * i)) as [->|].
  - rewrite mem_read_write, (decide_True (P := _ ∈ _ :: _)) by set_solver. by case_decide.
  - rewrite mem_read_write_ne by done. do 2 case_decide; set_solver.
Qed.

Lemma zero_words_in m addr n i : 0 ≤ i < n → mem_read (zero_words m addr n) (addr + 8 * i) = 0.
Proof.
  intros. unfold zero_words. rewrite foldl_zero_words, decide_True; [done|].
  apply list_elem_of_fmap. exists i. split; [done|]. apply elem_of_seqZ. lia.
Qed.

Lemma zero_words_out m addr n a :
  (∀ i, 0 ≤ i < n → a ≠ addr + 8 * i) → mem_read (zero_words m addr n) a = mem_read m a.
Proof.
  intros Ha. unfold zero_words. rewrite foldl_zero_words, decide_False; [done|].
  intros (i & -> & Hi%elem_of_seqZ)%list_elem_of_fmap. apply (Ha i); [lia|done].
Qed.

(** ** Properties *)

(** Every use of the allocator: allocations of any size, and releases of pages
    the allocator tracks. *)
Inductive pmm_step : Pmm → Pmm → Prop :=
| ps_alloc p count : 1 ≤ count → pmm_step p (alloc_pages p count).1
| ps_free p page : 0 ≤ page < total_pages p → pmm_step p (free_page p (page * PAGE_SIZE)).


(** Freeing what was allocated restores the allocator: the same pages are
    free and the counter has its old value. *)
Theorem alloc_free_roundtrip p count addr p' :
  pmm_wf p → 1 ≤ count → alloc_pages p count = (p', Some addr) →
  free_set (free_pages p' addr count) = free_set p ∧ free_count (free_pages p' addr count) = free_count p.
Proof.
  intros Hwf Hc E. destruct (alloc_pages_spec p count Hwf Hc) as [[E' _]|(start & q & E' & [Hs Hr _ Ht Hf Hwf'])];
    rewrite E in E'; [done|]. injection E' as <- ->.
  destruct (free_pages_spec p' start count) as (_ & Hfs & Hwf2); [done|done|lia| |].
  { assert (start + count - 1 ∈ free_set p) as H by (apply Hr, elem_of_run_set; lia).
    apply free_set_lt in H. lia. }
  assert (free_set (free_pages p' (start * PAGE_SIZE) count) = free_set p) as Heq.
  { rewrite Hfs, Hf. rewrite <- union_difference_L by done. done. }
  split; [done|]. by rewrite (pw_free _ Hwf2), (pw_free _ Hwf), Heq.
Qed.

(** Over any sequence of allocations and releases the free counter is the
    number of free pages of the bitmap. *)
Theorem pmm_invariant p p' :
  pmm_wf p → rtc pmm_step p p' →
  total_pages p' = total_pages p ∧ free_count p' = Z.of_nat (size (free_set p')).
Proof.
  intros Hwf H. enough (total_pages p' = total_pages p ∧ pmm_wf p') as [? []] by done.
  revert Hwf. induction H as [|p1 p2 p3 Hs _ IH]; [done|]. intros Hwf.
  enough (total_pages p2 = total_pages p1 ∧ pmm_wf p2) as [<- ?] by (by apply IH).
  destruct Hs as [p count Hc|p page Hp].
  - destruct (alloc_pages_spec p count Hwf Hc) as [[-> _]|(start & p' & -> & [])]; done.
  - by destruct (free_page_spec p page Hwf Hp) as (? & _ & ?).
Qed.

(** Initialisation: exactly the tracked pages of conventional memory are
    free, [LARGEST_FREE_RUN] is the length of the longest free run, and the
    free counter is right when no page is described twice. *)
Theorem init_correct ds :
  Forall desc_wf ds →
  (∀ q, q ∈ free_set (init ds) ↔ ∃ d, d ∈ ds ∧ q ∈ desc_pages (init_total ds) d) ∧
  ((∃ s, 0 ≤ s ∧ run_set s (largest_free_run (init ds)) ⊆ free_set (init ds)) ∧
   ∀ s n, 0 ≤ s → run_set s n ⊆ free_set (init ds) → n ≤ largest_free_run (init ds)) ∧
  (NoDup (concat (desc_pages (init_total ds) <$> ds)) → pmm_wf (init ds)).
Proof.
  intros Hds. destruct (init_spec ds Hds) as (Ht & Hf & Hn). split_and!.
  - intros q. rewrite Hf, elem_of_list_to_set, list_elem_of_In, in_concat. split.
    + intros (l & (d & -> & Hd)%list_elem_of_In%list_elem_of_fmap & Hq%list_elem_of_In). eauto.
    + intros (d & Hd & Hq). exists (desc_pages (init_total ds) d).
      rewrite <- !list_elem_of_In. split; [|done]. by apply list_elem_of_fmap_2.
  - apply init_longest.
  - apply init_longest.
  - intros Hnd. split.
    + rewrite Ht. unfold init_total. pose proof (tracked_end_nonneg ds). unfold MAX_PAGES. lia.
    + by rewrite Hn, Hf, size_list_to_set.
Qed.

(** [alloc_page_zeroed] hands out the lowest free page with every word
    zero, and writes nowhere else. *)
Theorem alloc_page_zeroed_correct p m p' m' addr :
  pmm_wf p → alloc_page_zeroed p m = (p', m', Some addr) →
  (∃ page, addr = page * PAGE_SIZE ∧ allocates p 1 page p') ∧
  (∀ i, 0 ≤ i < 512 → mem_read m' (addr + 8 * i) = 0) ∧
  (∀ a, ¬ (addr ≤ a < addr + PAGE_SIZE) → mem_read m' a = mem_read m a).
Proof.
  intros Hwf E. unfold alloc_page_zeroed in E.
  change (alloc_page p) with (alloc_pages p 1) in E.
  destruct (alloc_pages_spec p 1 Hwf) as [[E' _]|(start & q & E' & Hal)]; [lia|..]; rewrite E' in E;
    [done|]. injection E as <- <- <-. split_and!.
  - by exists start.
  - intros i Hi. by apply zero_words_in.
  - intros a Ha. apply zero_words_out. unfold PAGE_SIZE in *. change (4096 / 8) with 512. lia.
Qed.

(** Releasing a page at or beyond the tracked total but below [MAX_PAGES]
    frees nothing and still counts one more free page. *)
Theorem free_beyond_total_miscounts p page :
  pmm_wf p → total_pages p ≤ page < MAX_PAGES →
  let p' := free_page p (page * PAGE_SIZE) in
  free_set p' = free_set p ∧ free_count p' = free_count p + 1 ∧ ¬ pmm_wf p'.
Proof.
  intros Hwf Hp. unfold free_page. pose proof (pw_total _ Hwf). pose proof (free_set_small p Hwf).
  rewrite Z.mod_mul, Z.div_mul by done. simpl. rewrite (proj2 (Z.leb_gt _ _)) by lia.
  unfold is_page_free, set_page_free. rewrite (proj2 (Z.leb_le _ _)) by lia. simpl.
  assert (wrap64 (free_count p + 1) = free_count p + 1) as ->.
  { pose proof (pw_free _ Hwf). unfold MAX_PAGES in *. rewrite wrap_small; [done|unfold in_range; lia]. }
  split_and!; [done..|]. intros [_ Hc]. simpl in Hc. rewrite free_set_count in Hc.
  pose proof (pw_free _ Hwf). lia.
Qed.

(** ** Witnesses: sixteen pages, of which 2-5 and 8-11 are conventional. *)

Definition demo_map : list MemoryDescriptor :=
  [mkDesc 7 0x2000 4; mkDesc 2 0x6000 2; mkDesc 7 0x8000 4; mkDesc 0 0xC000 4].

Definition demo_pmm : Pmm := init demo_map.

Lemma demo_map_wf : Forall desc_wf demo_map.
Proof. repeat constructor; vm_compute; congruence. Qed.

Lemma demo_map_disjoint : NoDup (concat (desc_pages (init_total demo_map) <$> demo_map)).
Proof. apply (bool_decide_unpack _). vm_compute. exact I. Qed.

Lemma demo_pmm_wf : pmm_wf demo_pmm.
Proof.
  destruct (init_spec demo_map demo_map_wf) as (Ht & Hf & Hn). split.
  - vm_compute. split; congruence.
  - unfold demo_pmm. rewrite Hn, Hf, size_list_to_set; [done|apply demo_map_disjoint].
Qed.


Lemma alloc_free_roundtrip_witness :
  free_set (free_pages (alloc_pages demo_pmm 3).1 0x2000 3) = free_set demo_pmm ∧
  free_count (free_pages (alloc_pages demo_pmm 3).1 0x2000 3) = free_count demo_pmm.
Proof.
  apply (alloc_free_roundtrip demo_pmm 3 0x2000 (alloc_pages demo_pmm 3).1);
    [exact demo_pmm_wf|lia|vm_compute; reflexivity].
Defined.

Lemma pmm_invariant_witness :
  let p' := free_page (alloc_pages demo_pmm 2).1 (3 * PAGE_SIZE) in
  total_pages p' = total_pages demo_pmm ∧ free_count p' = Z.of_nat (size (free_set p')).
Proof.
  apply (pmm_invariant demo_pmm); [exact demo_pmm_wf|].
  eapply rtc_l; [apply (ps_alloc demo_pmm 2); lia|]. apply rtc_once, ps_free. vm_compute. split; congruence.
Defined.

Lemma init_correct_witness : largest_free_run demo_pmm = 4 ∧ pmm_wf (init demo_map).
Proof.
  split; [vm_compute; reflexivity|].
  apply (init_correct demo_map demo_map_wf). exact demo_map_disjoint.
Defined.

Lemma alloc_page_zeroed_correct_witness :
  mem_read (alloc_page_zeroed demo_pmm {[0x2008 := 77]}).1.2 (0x2000 + 8 * 1) = 0.
Proof.
  destruct (alloc_page_zeroed_correct demo_pmm {[0x2008 := 77]}
    (alloc_page_zeroed demo_pmm {[0x2008 := 77]}).1.1
    (alloc_page_zeroed demo_pmm {[0x2008 := 77]}).1.2 0x2000) as (_ & H & _);
    [exact demo_pmm_wf|vm_compute; reflexivity|]. apply H. lia.
Defined.

Lemma free_beyond_total_miscounts_witness :
  free_count (free_page demo_pmm (16 * PAGE_SIZE)) = free_count demo_pmm + 1.
Proof.
  apply (free_beyond_total_miscounts demo_pmm 16); [exact demo_pmm_wf|]. vm_compute. split; congruence.
Defined.
