(* ===== verification/Vm.v ===== *)
(** * Virtual memory: page tables

    Models [kernel/src/mm/vm.rs]: page flags and entries, the four-level walk
    that creates tables on demand, mapping, unmapping, remapping and querying a
    page, cloning the kernel half, and the identity mapping of [init].  Page
    tables live in the memory of [Prelude.v]; a table is identified by its
    physical address, and entry [i] of table [t] is the word at [t + 8 * i].
    [invlpg] is recorded as the list of addresses invalidated, newest first. *)

From S2P Require Import Prelude Pmm.

Definition ENTRIES_PER_TABLE : Z := 512.
Definition ADDR_MASK : Z := 0x000FFFFFFFFFF000.
Definition HIGHER_HALF_BASE : Z := 0xFFFF800000000000.
Definition HIGHER_HALF_MIRROR_SIZE : Z := 512 * 1024 * 1024.

Inductive VmError := NotInitialized | Unaligned | AlreadyMapped | NotMapped | OutOfMemory.

#[export] Instance VmError_eq_dec : EqDecision VmError.
Proof. solve_decision. Defined.

(** ** Page flags *)

Definition PF_PRESENT : Z := Z.shiftl 1 0.
Definition PF_WRITABLE : Z := Z.shiftl 1 1.
Definition PF_USER : Z := Z.shiftl 1 2.
Definition PF_WRITE_THROUGH : Z := Z.shiftl 1 3.
Definition PF_CACHE_DISABLE : Z := Z.shiftl 1 4.
Definition PF_GLOBAL : Z := Z.shiftl 1 8.
Definition PF_NO_EXECUTE : Z := Z.shiftl 1 63.

Definition kernel_rw : Z := Z.lor (Z.lor PF_PRESENT PF_WRITABLE) PF_GLOBAL.
Definition kernel_rw_nx : Z := Z.lor kernel_rw PF_NO_EXECUTE.
Definition with_nx (f : Z) : Z := Z.lor f PF_NO_EXECUTE.
Definition flags_without (f other : Z) : Z := Z.land f (not_w 64 other).

(** ** Entries *)

Definition pte_is_present (e : Z) : bool := negb (Z.land e PF_PRESENT =? 0).
Definition pte_addr (e : Z) : Z := Z.land e ADDR_MASK.
Definition pte_set (addr flags : Z) : Z := Z.lor (Z.land addr ADDR_MASK) flags.

Definition split_indices (virt : Z) : Z * Z * Z * Z :=
  (Z.land (Z.shiftr virt 39) 0x1FF, Z.land (Z.shiftr virt 30) 0x1FF,
   Z.land (Z.shiftr virt 21) 0x1FF, Z.land (Z.shiftr virt 12) 0x1FF).

(** [&table.entries[idx]] *)
Definition slot (table idx : Z) : Z := table + 8 * idx.

(** ** State *)

Record Vm := mkVm {
  vm_pmm : Pmm;
  vm_mem : Memory;
  active_pml4 : Z;
  mapped_pages : Z;
  page_table_pages : Z;
  invlpg : list Z;
}.

Definition vm_write (s : Vm) (a v : Z) : Vm :=
  mkVm (vm_pmm s) (mem_write (vm_mem s) a v) (active_pml4 s) (mapped_pages s)
    (page_table_pages s) (invlpg s).

Definition set_mapped (s : Vm) (n : Z) : Vm :=
  mkVm (vm_pmm s) (vm_mem s) (active_pml4 s) n (page_table_pages s) (invlpg s).

Definition invalidate_page (s : Vm) (virt : Z) : Vm :=
  mkVm (vm_pmm s) (vm_mem s) (active_pml4 s) (mapped_pages s) (page_table_pages s)
    (virt :: invlpg s).

(** [pmm::alloc_page_zeroed] on the allocator and the memory of the state. *)
Definition vm_alloc_zeroed (s : Vm) : Vm * option Z :=
  let '(p, m, r) := alloc_page_zeroed (vm_pmm s) (vm_mem s) in
  (mkVm p m (active_pml4 s) (mapped_pages s) (page_table_pages s) (invlpg s), r).

(** [pmm::free_page] on the allocator of the state. *)
Definition vm_free_page (s : Vm) (addr : Z) : Vm :=
  mkVm (free_page (vm_pmm s) addr) (vm_mem s) (active_pml4 s) (mapped_pages s) (page_table_pages s)
    (invlpg s).

Definition count_table (s : Vm) : Vm :=
  mkVm (vm_pmm s) (vm_mem s) (active_pml4 s) (mapped_pages s)
    (wrap64 (page_table_pages s + 1)) (invlpg s).

(** ** Walking *)

(** [ensure_table_user] on the entry at address [ea]: the table it leads to,
    and whether it was created. *)
Definition ensure_table_user (s : Vm) (ea : Z) (create user_access : bool)
    : Vm * result (Z * bool) VmError :=
  let entry := mem_read (vm_mem s) ea in
  if pte_is_present entry then
    let s := if user_access && (Z.land entry PF_USER =? 0)
             then vm_write s ea (Z.lor entry PF_USER) else s in
    (s, Ok (pte_addr (mem_read (vm_mem s) ea), false))
  else if negb create then (s, Err NotMapped)
  else
    match vm_alloc_zeroed s with
    | (s, None) => (s, Err OutOfMemory)
    | (s, Some phys) =>
        let s := count_table s in
        let table_flags := Z.lor PF_PRESENT PF_WRITABLE in
        let table_flags := if user_access then Z.lor table_flags PF_USER else table_flags in
        (vm_write s ea (pte_set phys table_flags), Ok (phys, true))
    end.

(** [walk_to_entry_with_root_user]: the address of the leaf entry. *)
Definition walk_to_entry_with_root_user (s : Vm) (pml4_phys virt : Z) (create user_access : bool)
    : Vm * result (Z * bool) VmError :=
  let '(pml4_idx, pdpt_idx, pd_idx, pt_idx) := split_indices virt in
  match ensure_table_user s (slot pml4_phys pml4_idx) create user_access with
  | (s, Err e) => (s, Err e)
  | (s, Ok (pdpt, c1)) =>
      match ensure_table_user s (slot pdpt pdpt_idx) create user_access with
      | (s, Err e) => (s, Err e)
      | (s, Ok (pd, c2)) =>
          match ensure_table_user s (slot pd pd_idx) create user_access with
          | (s, Err e) => (s, Err e)
          | (s, Ok (pt, c3)) => (s, Ok (slot pt pt_idx, c1 || c2 || c3))
          end
      end
  end.

Definition walk_to_entry (s : Vm) (virt : Z) (create : bool) : Vm * result (Z * bool) VmError :=
  if active_pml4 s =? 0 then (s, Err NotInitialized)
  else walk_to_entry_with_root_user s (active_pml4 s) virt create false.

(** ** Mapping *)

Definition map_page_internal (s : Vm) (pml4_phys virt phys flags : Z) : Vm * result unit VmError :=
  if negb (is_page_aligned virt) || negb (is_page_aligned phys) then (s, Err Unaligned)
  else
    let user_access := negb (Z.land flags PF_USER =? 0) in
    match walk_to_entry_with_root_user s pml4_phys virt true user_access with
    | (s, Err e) => (s, Err e)
    | (s, Ok (ea, created_table)) =>
        if pte_is_present (mem_read (vm_mem s) ea) then (s, Err AlreadyMapped)
        else
          let s := vm_write s ea (pte_set phys flags) in
          let s := set_mapped s (wrap64 (mapped_pages s + 1)) in
          (if created_table then invalidate_page s virt else s, Ok tt)
    end.

Definition map_page (s : Vm) (virt phys flags : Z) : Vm * result unit VmError :=
  if negb (is_page_aligned virt) || negb (is_page_aligned phys) then (s, Err Unaligned)
  else if active_pml4 s =? 0 then (s, Err NotInitialized)
  else map_page_internal s (active_pml4 s) virt phys flags.

Definition map_page_in_pml4 (s : Vm) (pml4_phys virt phys flags : Z) : Vm * result unit VmError :=
  if negb (is_page_aligned virt) || negb (is_page_aligned phys) then (s, Err Unaligned)
  else if pml4_phys =? 0 then (s, Err NotInitialized)
  else map_page_internal s pml4_phys virt phys flags.

Definition unmap_page (s : Vm) (virt : Z) : Vm * result unit VmError :=
  if negb (is_page_aligned virt) then (s, Err Unaligned)
  else
    match walk_to_entry s virt false with
    | (s, Err e) => (s, Err e)
    | (s, Ok (ea, _)) =>
        if negb (pte_is_present (mem_read (vm_mem s) ea)) then (s, Err NotMapped)
        else
          let s := vm_write s ea 0 in
          let s := set_mapped s (wrap64 (mapped_pages s - 1)) in
          (invalidate_page s virt, Ok tt)
    end.

Definition unmap_page_in_pml4 (s : Vm) (pml4_phys virt : Z) : Vm * result unit VmError :=
  if negb (is_page_aligned virt) then (s, Err Unaligned)
  else if pml4_phys =? 0 then (s, Err NotInitialized)
  else
    match walk_to_entry_with_root_user s pml4_phys virt false false with
    | (s, Err e) => (s, Err e)
    | (s, Ok (ea, _)) =>
        if negb (pte_is_present (mem_read (vm_mem s) ea)) then (s, Err NotMapped)
        else
          let s := vm_write s ea 0 in
          (set_mapped s (wrap64 (mapped_pages s - 1)), Ok tt)
    end.

Definition query_mapping_in_pml4 (s : Vm) (pml4_phys virt : Z) : Vm * result (Z * Z) VmError :=
  if negb (is_page_aligned virt) then (s, Err Unaligned)
  else if pml4_phys =? 0 then (s, Err NotInitialized)
  else
    match walk_to_entry_with_root_user s pml4_phys virt false false with
    | (s, Err e) => (s, Err e)
    | (s, Ok (ea, _)) =>
        let entry := mem_read (vm_mem s) ea in
        if negb (pte_is_present entry) then (s, Err NotMapped)
        else (s, Ok (pte_addr entry, entry))
    end.

Definition translate (s : Vm) (virt : Z) : Vm * option Z :=
  match walk_to_entry s virt false with
  | (s, Err _) => (s, None)
  | (s, Ok (ea, _)) =>
      let entry := mem_read (vm_mem s) ea in
      if negb (pte_is_present entry) then (s, None) else (s, Some (pte_addr entry))
  end.

Definition remap_page (s : Vm) (virt new_phys flags : Z) : Vm * result unit VmError :=
  if negb (is_page_aligned virt) || negb (is_page_aligned new_phys) then (s, Err Unaligned)
  else
    match walk_to_entry s virt false with
    | (s, Err e) => (s, Err e)
    | (s, Ok (ea, _)) =>
        if negb (pte_is_present (mem_read (vm_mem s) ea)) then (s, Err NotMapped)
        else (invalidate_page (vm_write s ea (pte_set new_phys flags)) virt, Ok tt)
    end.

Definition remap_page_flags (s : Vm) (virt additional_flags : Z) : Vm * result unit VmError :=
  if negb (is_page_aligned virt) then (s, Err Unaligned)
  else
    match walk_to_entry s virt false with
    | (s, Err e) => (s, Err e)
    | (s, Ok (ea, _)) =>
        let raw := mem_read (vm_mem s) ea in
        if negb (pte_is_present raw) then (s, Err NotMapped)
        else
          let phys := Z.land raw ADDR_MASK in
          let current_flags := Z.land raw (not_w 64 ADDR_MASK) in
          let new_flags := Z.lor current_flags additional_flags in
          (invalidate_page (vm_write s ea (pte_set phys new_flags)) virt, Ok tt)
    end.

(** The four steps of [remap_page_user]: set [USER] in the entry at [ea], and
    go on with the table it leads to. *)
Definition add_user (s : Vm) (ea : Z) (k : Vm → Z → Vm * result unit VmError)
    : Vm * result unit VmError :=
  let e := mem_read (vm_mem s) ea in
  if negb (pte_is_present e) then (s, Err NotMapped)
  else let e := Z.lor e PF_USER in k (vm_write s ea e) (pte_addr e).

Definition remap_page_user (s : Vm) (virt : Z) : Vm * result unit VmError :=
  if negb (is_page_aligned virt) then (s, Err Unaligned)
  else if active_pml4 s =? 0 then (s, Err NotInitialized)
  else
    let '(pml4_idx, pdpt_idx, pd_idx, pt_idx) := split_indices virt in
    add_user s (slot (active_pml4 s) pml4_idx) (λ s pdpt,
    add_user s (slot pdpt pdpt_idx) (λ s pd,
    add_user s (slot pd pd_idx) (λ s pt,
    add_user s (slot pt pt_idx) (λ s _,
    (invalidate_page s virt, Ok tt))))).

Definition clone_kernel_mappings (s : Vm) (dst_pml4_phys : Z) : Vm * result unit VmError :=
  if negb (is_page_aligned dst_pml4_phys) then (s, Err Unaligned)
  else if active_pml4 s =? 0 then (s, Err NotInitialized)
  else
    let src := active_pml4 s in
    let s := foldl (λ s idx, vm_write s (slot dst_pml4_phys idx) 0) s
               (seqZ 0 (ENTRIES_PER_TABLE / 2)) in
    let s := foldl (λ s idx, vm_write s (slot dst_pml4_phys idx)
                               (mem_read (vm_mem s) (slot src idx))) s
               (seqZ (ENTRIES_PER_TABLE / 2) (ENTRIES_PER_TABLE / 2)) in
    (s, Ok tt).

(** ** Initialisation *)

Definition EFI_MEMORY_UC : Z := 0x1.
Definition EFI_MEMORY_WC : Z := 0x2.
Definition EFI_MEMORY_WT : Z := 0x4.
Definition EFI_MEMORY_WB : Z := 0x8.
Definition EFI_MEMORY_UCE : Z := 0x10.
Definition EFI_MEMORY_WP : Z := 0x1000.
Definition EFI_MEMORY_RP : Z := 0x2000.
Definition EFI_MEMORY_XP : Z := 0x8000000000000000.

(** [EfiMemoryDescriptor] with the attribute word. *)
Record EfiDescriptor := mkEfi { efi_desc : MemoryDescriptor; efi_attribute : Z }.

Definition is_mappable_ram (t : Z) : bool :=
  bool_decide (t ∈ [1; 2; 3; 4; 5; 6; EFI_CONVENTIONAL_MEMORY; 9; 10; 14]).

Definition is_code_descriptor (t : Z) : bool := bool_decide (t ∈ [1; 3; 5]).

Definition apply_cacheability_flags (flags attribute : Z) : Z :=
  if negb (Z.land attribute (Z.lor EFI_MEMORY_UC EFI_MEMORY_UCE) =? 0) then
    Z.lor flags PF_CACHE_DISABLE
  else if negb (Z.land attribute EFI_MEMORY_WT =? 0) then Z.lor flags PF_WRITE_THROUGH
  else if negb (Z.land attribute EFI_MEMORY_WC =? 0) then Z.lor flags PF_CACHE_DISABLE
  else if negb (Z.land attribute EFI_MEMORY_WB =? 0) then flags
  else flags.

Definition flags_for_descriptor (d : EfiDescriptor) : Z :=
  let flags := kernel_rw in
  let flags :=
    if negb (Z.land (efi_attribute d) EFI_MEMORY_XP =? 0)
       || negb (is_code_descriptor (typ (efi_desc d)))
    then with_nx flags else flags in
  let flags :=
    if negb (Z.land (efi_attribute d) (Z.lor EFI_MEMORY_WP EFI_MEMORY_RP) =? 0)
    then flags_without flags PF_WRITABLE else flags in
  apply_cacheability_flags flags (efi_attribute d).

(** The pages [for phys in (start..end).step_by(PAGE_SIZE)] visits. *)
Definition page_steps (start end_ : Z) : list Z :=
  (λ i, start + i * PAGE_SIZE) <$> seqZ 0 ((end_ - start + PAGE_SIZE - 1) / PAGE_SIZE).

Definition region_pages (d : EfiDescriptor) : list Z :=
  let start := physical_start (efi_desc d) in
  page_steps (align_down start)
    (align_up (wrap64 (start + wrap64 (number_of_pages (efi_desc d) * PAGE_SIZE)))).

(** One page of RAM: the identity mapping and, below the mirror limit, its
    higher-half copy; errors are only logged. *)
Definition map_ram_page (pml4 flags : Z) (s : Vm) (phys : Z) : Vm :=
  let '(s, _) := map_page_internal s pml4 phys phys flags in
  if phys <? HIGHER_HALF_MIRROR_SIZE then
    (map_page_internal s pml4 (HIGHER_HALF_BASE + phys) phys flags).1
  else s.

Definition map_descriptor (pml4 : Z) (s : Vm) (d : EfiDescriptor) : Vm :=
  if negb (is_mappable_ram (typ (efi_desc d))) then s
  else foldl (map_ram_page pml4 (flags_for_descriptor d)) s (region_pages d).

Definition device_flags : Z :=
  Z.lor (Z.lor (Z.lor PF_PRESENT PF_WRITABLE) PF_CACHE_DISABLE) PF_GLOBAL.

(** The VGA pages, the local APIC and the I/O APIC, in the order of [init]. *)
Definition device_pages : list Z :=
  ((λ i, 0xB8000 + i * PAGE_SIZE) <$> seqZ 0 8) ++ [0xFEE00000; 0xFEC00000].

(** [init]; [None] is the [expect] on the first allocation. *)
Definition vm_init (s : Vm) (ds : list EfiDescriptor) : option Vm :=
  match vm_alloc_zeroed s with
  | (_, None) => None
  | (s, Some pml4) =>
      let s := count_table s in
      let s := mkVm (vm_pmm s) (vm_mem s) pml4 (mapped_pages s) (page_table_pages s) (invlpg s) in
      let s := foldl (map_descriptor pml4) s ds in
      let '(s, _) := map_page_internal s pml4 pml4 pml4 kernel_rw in
      Some (foldl (λ s a, (map_page_internal s pml4 a a device_flags).1) s device_pages)
  end.

Definition framebuffer_flags : Z :=
  Z.lor (Z.lor (Z.lor (Z.lor (Z.lor PF_PRESENT PF_WRITABLE) PF_USER) PF_CACHE_DISABLE) PF_GLOBAL)
    PF_NO_EXECUTE.

Definition map_framebuffer (s : Vm) (fb_addr fb_size : Z) : Vm * bool :=
  let fb_start := align_down fb_addr in
  let fb_end := align_up (wrap64 (fb_addr + fb_size)) in
  let '(s, error_count) :=
    foldl (λ st phys,
      match map_page st.1 phys phys framebuffer_flags with
      | (s, Ok _) | (s, Err AlreadyMapped) => (s, st.2)
      | (s, Err _) => (s, st.2 + 1)
      end) (s, 0) (page_steps fb_start fb_end) in
  (s, error_count =? 0).

(** [ensure_current_stack_mapped] with the stack pointer it reads as [rsp]. *)
Definition ensure_current_stack_mapped (s : Vm) (rsp pages : Z) : Vm * bool :=
  if pages =? 0 then (s, true)
  else
    let top := align_down rsp in
    let start := saturating_sub top (wrap64 ((pages - 1) * PAGE_SIZE)) in
    foldl (λ st page,
      match translate st.1 page with
      | (s, Some _) => (s, st.2)
      | (s, None) =>
          match map_page s page page (with_nx kernel_rw) with
          | (s, Ok _) | (s, Err AlreadyMapped) => (s, st.2)
          | (s, Err _) => (s, false)
          end
      end) (s, true) (page_steps start (top + 1)).
