(* ===== verification/VmSafety.v ===== *)
(** * Virtual memory: properties

    The page-table tree of a root as a partial map from virtual pages to
    entries, the invariant that keeps the tree a tree (no table is reached by
    two paths, no table is a free page), and the operations of [Vm.v] as
    updates of that map. *)

From S2P Require Import Prelude Pmm PmmSafety Vm.

(** ** Bits of an entry *)

Lemma present_bit e : pte_is_present e = Z.testbit e 0.
Proof. unfold pte_is_present, PF_PRESENT. rewrite land_bit by lia. apply negb_involutive. Qed.

Lemma addr_mask_bits i : 0 ≤ i → Z.testbit ADDR_MASK i = bool_decide (12 ≤ i < 52).
Proof.
  intros Hi. change ADDR_MASK with (Z.shiftl (Z.ones 40) 12). rewrite Z.shiftl_spec by done.
  case_bool_decide.
  - apply Z.ones_spec_low. lia.
  - destruct (decide (i < 12)); [by rewrite Z.testbit_neg_r by lia|]. apply Z.ones_spec_high. lia.
Qed.

(** A frame address: page aligned and below [2^52]. *)
Definition frame_ok (a : Z) : Prop := 0 ≤ a < 2 ^ 52 ∧ a mod PAGE_SIZE = 0.

Lemma mask_frame a : frame_ok a → Z.land a ADDR_MASK = a.
Proof.
  intros [Hr Ha]. bitwise i. rewrite addr_mask_bits by done. case_bool_decide; [apply andb_true_r|].
  rewrite andb_false_r. symmetry. destruct (decide (i < 12)) as [Hi|].
  - change PAGE_SIZE with (2 ^ 12) in Ha. rewrite <- (Z.mod_pow2_bits_low a 12 i), Ha by lia.
    apply Z.bits_0.
  - apply (testbit_in_range 52); [lia|done|lia].
Qed.

(** Flags that carry no address bits. *)
Definition flags_ok (f : Z) : Prop := Z.land f ADDR_MASK = 0.

Lemma pte_addr_set a f : frame_ok a → flags_ok f → pte_addr (pte_set a f) = a.
Proof.
  intros Ha Hf. unfold pte_addr, pte_set. rewrite (mask_frame a Ha), Z.land_lor_distr_l, Hf, Z.lor_0_r.
  by apply mask_frame.
Qed.

Lemma pte_present_set a f : pte_is_present (pte_set a f) = pte_is_present f.
Proof.
  rewrite !present_bit. unfold pte_set. rewrite Z.lor_spec, Z.land_spec, addr_mask_bits by lia.
  by rewrite andb_false_r.
Qed.

Lemma pte_promote e :
  pte_is_present (Z.lor e PF_USER) = pte_is_present e ∧ pte_addr (Z.lor e PF_USER) = pte_addr e.
Proof.
  rewrite !present_bit, Z.lor_spec. split; [by rewrite orb_false_r|].
  unfold pte_addr. rewrite Z.land_lor_distr_l. apply Z.lor_0_r.
Qed.

(** ** Tables and paths *)

Definition idx (i : Z) : Prop := 0 ≤ i < 512.

Definition step_table (m : Memory) (t i : Z) : option Z :=
  let e := mem_read m (slot t i) in if pte_is_present e then Some (pte_addr e) else None.

(** The table reached from table [t] along the indices [π]. *)
Fixpoint table_at (m : Memory) (t : Z) (π : list Z) : option Z :=
  match π with
  | [] => Some t
  | i :: π => match step_table m t i with Some t' => table_at m t' π | None => None end
  end.

Lemma table_at_snoc m t π i :
  table_at m t (π ++ [i]) = t' ← table_at m t π; step_table m t' i.
Proof.
  revert t. induction π as [|j π IH]; intros t; simpl.
  - by destruct (step_table m t i).
  - destruct (step_table m t j); [apply IH|done].
Qed.

(** Paths to tables: the root and three levels below it. *)
Definition path (π : list Z) : Prop := Forall idx π ∧ (length π ≤ 3)%nat.

Lemma path_snoc π i : path (π ++ [i]) ↔ Forall idx π ∧ idx i ∧ (length π ≤ 2)%nat.
Proof.
  unfold path. rewrite Forall_app, Forall_singleton, length_app. simpl. split; intros; intuition lia.
Qed.

Lemma path_prefix π i : path (π ++ [i]) → path π.
Proof. rewrite path_snoc. intros (? & ? & ?). split; [done|lia]. Qed.

(** The leaf entry for index [i] under the last-level table at [π], if present. *)
Definition leaf_at (m : Memory) (root : Z) (π : list Z) (i : Z) : option Z :=
  t ← table_at m root π;
  let e := mem_read m (slot t i) in if pte_is_present e then Some e else None.

Definition leaf_path (π : list Z) (i : Z) : Prop := Forall idx π ∧ length π = 3%nat ∧ idx i.

Lemma leaf_path_path π i : leaf_path π i → path π.
Proof. intros (? & ? & ?). split; [done|lia]. Qed.

(** The tables of [root] form a tree of pages that are not free. *)
Record pt_wf (m : Memory) (F : gset Z) (root : Z) : Prop := {
  pt_inj : ∀ π1 π2 a, path π1 → path π2 →
    table_at m root π1 = Some a → table_at m root π2 = Some a → π1 = π2;
  pt_page : ∀ π a, path π → table_at m root π = Some a →
    0 ≤ a ∧ a mod PAGE_SIZE = 0 ∧ a / PAGE_SIZE ∉ F;
}.

Lemma slot_page t i : t mod PAGE_SIZE = 0 → idx i → slot t i / PAGE_SIZE = t / PAGE_SIZE.
Proof.
  unfold slot, idx, PAGE_SIZE. intros Ht Hi. apply Z.mod_divide in Ht as [x ->]; [|done].
  rewrite Z.add_comm, Z.div_add, Z.div_mul, Z.div_small by lia. lia.
Qed.

Lemma slot_inj a b i j :
  a mod PAGE_SIZE = 0 → b mod PAGE_SIZE = 0 → idx i → idx j → slot a i = slot b j → a = b ∧ i = j.
Proof.
  unfold slot, idx, PAGE_SIZE. intros Ha Hb Hi Hj E.
  apply Z.mod_divide in Ha as [x ->], Hb as [y ->]; [|done..]. lia.
Qed.

(** Slots of different tables, or different slots of one table, are different. *)
Lemma pt_slot_ne m F root π1 π2 a b i j :
  pt_wf m F root → path π1 → path π2 → table_at m root π1 = Some a → table_at m root π2 = Some b →
  idx i → idx j → (π1, i) ≠ (π2, j) → slot a i ≠ slot b j.
Proof.
  intros Hwf Hp1 Hp2 Ha Hb Hi Hj Hne E.
  destruct (pt_page _ _ _ Hwf _ _ Hp1 Ha) as (_ & Ma & _).
  destruct (pt_page _ _ _ Hwf _ _ Hp2 Hb) as (_ & Mb & _).
  destruct (slot_inj a b i j Ma Mb Hi Hj E) as [<- <-].
  apply Hne. f_equal. by eapply pt_inj.
Qed.

Lemma table_at_step_ext m m' root :
  (∀ π t i, path (π ++ [i]) → table_at m root π = Some t → step_table m' t i = step_table m t i) →
  ∀ π, path π → table_at m' root π = table_at m root π.
Proof.
  intros H π. induction π as [|i π IH] using rev_ind; intros Hp; [done|].
  rewrite !table_at_snoc, IH by (by eapply path_prefix).
  destruct (table_at m root π) as [t|] eqn:Ht; simpl; [by eapply H|done].
Qed.

Lemma pt_wf_ext m m' F F' root :
  (∀ π, path π → table_at m' root π = table_at m root π) → F' ⊆ F →
  pt_wf m F root → pt_wf m' F' root.
Proof.
  intros He HF [Hi Hp]. split.
  - intros π1 π2 a Hp1 Hp2. rewrite !He by done. by apply Hi.
  - intros π a Hpa. rewrite He by done. intros Ha. destruct (Hp _ _ Hpa Ha) as (? & ? & ?). set_solver.
Qed.

(** ** Writing one slot *)

(** Writing an entry of a last-level table changes that leaf and nothing else. *)
Lemma leaf_write m F root π i t e :
  pt_wf m F root → leaf_path π i → table_at m root π = Some t →
  let m' := mem_write m (slot t i) e in
  (∀ ρ, path ρ → table_at m' root ρ = table_at m root ρ) ∧
  (∀ ρ j, leaf_path ρ j → leaf_at m' root ρ j =
     if decide ((ρ, j) = (π, i)) then (if pte_is_present e then Some e else None)
     else leaf_at m root ρ j).
Proof.
  intros Hwf Hl Ht m'. pose proof Hl as (Hi & Hlen & Hidx). pose proof (leaf_path_path _ _ Hl) as Hp.
  assert (Htab : ∀ ρ, path ρ → table_at m' root ρ = table_at m root ρ).
  { apply table_at_step_ext. intros ρ u j Hρ Hu. pose proof Hρ as (_ & Hj & Hlen')%path_snoc.
    unfold step_table, m'. rewrite mem_read_write_ne; [done|].
    eapply (pt_slot_ne m F root π ρ); eauto using path_prefix.
    intros [= -> ->]. lia. }
  split; [done|]. intros ρ j Hlρ. pose proof Hlρ as (_ & _ & Hj).
  pose proof (leaf_path_path _ _ Hlρ) as Hpρ. unfold leaf_at. rewrite Htab by done.
  case_decide as Heq.
  - injection Heq as -> ->. rewrite Ht. simpl. unfold m'. by rewrite mem_read_write.
  - destruct (table_at m root ρ) as [u|] eqn:Hu; simpl; [|done].
    unfold m'. rewrite mem_read_write_ne; [done|]. eapply (pt_slot_ne m F root π ρ); eauto.
Qed.

(** Setting [USER] in an entry above the leaves changes no table and no leaf. *)
Lemma promote_write m F root π i t :
  pt_wf m F root → path (π ++ [i]) → table_at m root π = Some t →
  let m' := mem_write m (slot t i) (Z.lor (mem_read m (slot t i)) PF_USER) in
  (∀ ρ, path ρ → table_at m' root ρ = table_at m root ρ) ∧
  (∀ ρ j, leaf_path ρ j → leaf_at m' root ρ j = leaf_at m root ρ j).
Proof.
  intros Hwf Hpi Ht m'. pose proof (path_prefix _ _ Hpi) as Hp.
  pose proof Hpi as (_ & Hidx & Hlen)%path_snoc.
  destruct (pte_promote (mem_read m (slot t i))) as [Hpr Had].
  assert (Htab : ∀ ρ, path ρ → table_at m' root ρ = table_at m root ρ).
  { apply table_at_step_ext. intros ρ u j Hρ Hu. pose proof Hρ as (_ & Hj & _)%path_snoc.
    unfold step_table, m'. destruct (decide ((π, i) = (ρ, j))) as [[= <- <-]|Hne].
    - rewrite Ht in Hu. injection Hu as <-. by rewrite mem_read_write, Hpr, Had.
    - rewrite mem_read_write_ne; [done|].
      eapply (pt_slot_ne m F root π ρ); eauto using path_prefix. }
  split; [done|]. intros ρ j Hlρ. pose proof Hlρ as (_ & Hlen' & Hj).
  pose proof (leaf_path_path _ _ Hlρ) as Hpρ. unfold leaf_at. rewrite Htab by done.
  destruct (table_at m root ρ) as [u|] eqn:Hu; simpl; [|done].
  unfold m'. rewrite mem_read_write_ne; [done|].
  eapply (pt_slot_ne m F root π ρ); eauto. intros [= -> _]. lia.
Qed.

(** Pages outside the tree can be overwritten. *)
Lemma outside_write m m' F root page :
  pt_wf m F root → page ∈ F →
  (∀ a, ¬ (page * PAGE_SIZE ≤ a < page * PAGE_SIZE + PAGE_SIZE) → mem_read m' a = mem_read m a) →
  ∀ ρ u j, path ρ → table_at m root ρ = Some u → idx j →
    mem_read m' (slot u j) = mem_read m (slot u j) ∧ u ≠ page * PAGE_SIZE.
Proof.
  intros Hwf Hpage Hm ρ u j Hρ Hu Hj. destruct (pt_page _ _ _ Hwf _ _ Hρ Hu) as (Hu0 & Hum & HuF).
  assert (Hne : u ≠ page * PAGE_SIZE) by (intros ->; by rewrite Z.div_mul in HuF).
  split; [|done]. apply Hm. unfold slot, idx, PAGE_SIZE in *. intros Hr.
  apply Z.mod_divide in Hum as [k ->]; [|done]. lia.
Qed.

(** ** Adding a table *)

Section new_table.
Context (m : Memory) (F : gset Z) (root : Z) (π : list Z) (i t phys e : Z).
Context (Hwf : pt_wf m F root) (Hpi : path (π ++ [i])) (Ht : table_at m root π = Some t).
Context (Hnone : step_table m t i = None).
Context (Hpres : pte_is_present e = true) (Haddr : pte_addr e = phys).
Context (Hzero : ∀ j, idx j → mem_read m (slot phys j) = 0).
Context (Hphys : phys mod PAGE_SIZE = 0) (Hfresh : ∀ ρ u, path ρ → table_at m root ρ = Some u → u ≠ phys).

Let m' := mem_write m (slot t i) e.

Lemma new_table_at ρ :
  path ρ → table_at m' root ρ = if decide (ρ = π ++ [i]) then Some phys else table_at m root ρ.
Proof.
  pose proof (path_prefix _ _ Hpi) as Hp. pose proof Hpi as (_ & Hidx & Hlen)%path_snoc.
  induction ρ as [|j ρ IH] using rev_ind; intros Hρ.
  - rewrite decide_False; [done|]. by destruct π.
  - pose proof Hρ as (_ & Hj & _)%path_snoc. specialize (IH (path_prefix _ _ Hρ)).
    rewrite !table_at_snoc, IH. case_decide as Hd.
    + subst ρ. rewrite decide_False.
      2:{ intros E. apply (f_equal length) in E. rewrite !length_app in E. simpl in E. lia. }
      rewrite table_at_snoc, Ht. simpl. rewrite Hnone. simpl. unfold step_table, m'.
      rewrite mem_read_write_ne, Hzero; [done|done|]. intros E.
      destruct (pt_page _ _ _ Hwf _ _ Hp Ht) as (_ & Hm & _).
      apply slot_inj in E as [<- _]; [|done..]. by apply (Hfresh π t).
    + destruct (table_at m root ρ) as [u|] eqn:Hu; simpl.
      * unfold step_table, m'. case_decide as Heq.
        -- apply app_inj_tail in Heq as [-> ->]. rewrite Ht in Hu. injection Hu as <-.
           by rewrite mem_read_write, Hpres, Haddr.
        -- rewrite mem_read_write_ne; [done|]. eapply (pt_slot_ne m F root π ρ); eauto using path_prefix.
           intros [= -> ->]. done.
      * rewrite decide_False; [done|]. intros Heq. apply app_inj_tail in Heq as [-> ->]. congruence.
Qed.

Lemma new_table_leaf ρ j : leaf_path ρ j → leaf_at m' root ρ j = leaf_at m root ρ j.
Proof.
  pose proof (path_prefix _ _ Hpi) as Hp. pose proof Hpi as (_ & Hidx & Hlen)%path_snoc.
  intros Hl. pose proof Hl as (_ & Hlen' & Hj). pose proof (leaf_path_path _ _ Hl) as Hρ.
  unfold leaf_at. rewrite new_table_at by done. case_decide as Hd.
  - subst ρ. rewrite table_at_snoc, Ht. simpl. rewrite Hnone. simpl. unfold m'.
    rewrite mem_read_write_ne, Hzero; [done|done|]. intros E.
    destruct (pt_page _ _ _ Hwf _ _ Hp Ht) as (_ & Hm & _).
    apply slot_inj in E as [<- _]; [|done..]. by apply (Hfresh π t).
  - destruct (table_at m root ρ) as [u|] eqn:Hu; simpl; [|done]. unfold m'.
    rewrite mem_read_write_ne; [done|]. eapply (pt_slot_ne m F root π ρ); eauto.
    intros [= -> _]. lia.
Qed.

Lemma new_table_wf F' : F' ⊆ F → 0 ≤ phys → phys / PAGE_SIZE ∉ F' → pt_wf m' F' root.
Proof.
  intros HF H0 Hpg. split.
  - intros π1 π2 a Hp1 Hp2. rewrite !new_table_at by done.
    do 2 case_decide; subst; try done.
    + intros [= <-] Ha. by destruct (Hfresh _ _ Hp2 Ha).
    + intros Ha [= <-]. by destruct (Hfresh _ _ Hp1 Ha).
    + by apply (pt_inj _ _ _ Hwf).
  - intros ρ a Hρ. rewrite new_table_at by done. case_decide.
    + by intros [= <-].
    + intros Ha. destruct (pt_page _ _ _ Hwf _ _ Hρ Ha) as (? & ? & ?). set_solver.
Qed.
End new_table.

(** ** The state invariant *)

Record vm_ok (s : Vm) (root : Z) : Prop := {
  vo_pmm : pmm_wf (vm_pmm s);
  vo_pt : pt_wf (vm_mem s) (free_set (vm_pmm s)) root;
}.

(** Operations on the tables of [root]: pages are only taken from the free
    ones, every page taken is a new table, tables stay where they are, and
    memory changes only in free pages and in tables. *)
Record grows (s s' : Vm) (root : Z) : Prop := {
  gr_total : total_pages (vm_pmm s') = total_pages (vm_pmm s);
  gr_free : free_set (vm_pmm s') ⊆ free_set (vm_pmm s);
  gr_new : ∀ ρ u, path ρ → table_at (vm_mem s') root ρ = Some u →
    table_at (vm_mem s) root ρ = Some u ∨ u / PAGE_SIZE ∈ free_set (vm_pmm s);
  gr_keep : ∀ ρ u, path ρ → table_at (vm_mem s) root ρ = Some u → table_at (vm_mem s') root ρ = Some u;
  gr_used : ∀ q, q ∈ free_set (vm_pmm s) →
    q ∈ free_set (vm_pmm s') ∨ ∃ ρ, path ρ ∧ table_at (vm_mem s') root ρ = Some (q * PAGE_SIZE);
  gr_mem : ∀ a, a / PAGE_SIZE ∉ free_set (vm_pmm s) →
    (∀ ρ u, path ρ → table_at (vm_mem s) root ρ = Some u → u / PAGE_SIZE ≠ a / PAGE_SIZE) →
    mem_read (vm_mem s') a = mem_read (vm_mem s) a;
}.

Lemma grows_refl s root : grows s s root.
Proof. split; auto. Qed.

Lemma grows_trans s1 s2 s3 root : grows s1 s2 root → grows s2 s3 root → grows s1 s3 root.
Proof.
  intros [Ht1 Hf1 Hn1 Hk1 Hu1 Hm1] [Ht2 Hf2 Hn2 Hk2 Hu2 Hm2]. split; [congruence|by etrans| |by auto|..].
  - intros ρ u Hρ [Hu|Hu]%Hn2; [by apply Hn1|by right; apply Hf1|done].
  - intros q [Hq|(ρ & Hρ & Hq)]%Hu1; [by apply Hu2|]. right. eauto.
  - intros a Ha Ht. rewrite Hm2; [by apply Hm1|by intros ?%Hf1|].
    intros ρ u Hρ [Hu|Hu]%Hn1; [by eapply Ht|congruence|done].
Qed.

(** One write to a table that leaves the tables where they are. *)
Lemma grows_write s s' root ρ0 t i e :
  path ρ0 → table_at (vm_mem s) root ρ0 = Some t → idx i → t mod PAGE_SIZE = 0 →
  vm_pmm s' = vm_pmm s → vm_mem s' = mem_write (vm_mem s) (slot t i) e →
  (∀ ρ, path ρ → table_at (vm_mem s') root ρ = table_at (vm_mem s) root ρ) → grows s s' root.
Proof.
  intros Hρ0 Ht0 Hi Hal Hp Hm Ht. split; rewrite ?Hp; [done|done|..].
  - intros ρ u Hρ. rewrite Ht by done. by left.
  - intros ρ u Hρ. by rewrite Ht.
  - by left.
  - intros a _ Ha. rewrite Hm. apply mem_read_write_ne. intros <-. apply (Ha ρ0 t Hρ0 Ht0). by rewrite slot_page.
Qed.

(** [s'] differs from [s] only in tables that were added: every table stays
    where it was and every leaf keeps its entry. *)
Record extends (s s' : Vm) (root : Z) : Prop := {
  ex_ok : vm_ok s' root;
  ex_tables : ∀ ρ u, path ρ → table_at (vm_mem s) root ρ = Some u → table_at (vm_mem s') root ρ = Some u;
  ex_leaves : ∀ ρ j, leaf_path ρ j → leaf_at (vm_mem s') root ρ j = leaf_at (vm_mem s) root ρ j;
  ex_active : active_pml4 s' = active_pml4 s;
  ex_mapped : mapped_pages s' = mapped_pages s;
  ex_invlpg : invlpg s' = invlpg s;
  ex_grows : grows s s' root;
}.

Lemma extends_refl s root : vm_ok s root → extends s s root.
Proof. split; [done..|apply grows_refl]. Qed.

Lemma extends_trans s1 s2 s3 root : extends s1 s2 root → extends s2 s3 root → extends s1 s3 root.
Proof.
  intros [] []. split; try done; try congruence; eauto using grows_trans.
  intros ρ j Hl. rewrite ex_leaves1, ex_leaves0; done.
Qed.

Lemma vm_alloc_zeroed_spec s :
  pmm_wf (vm_pmm s) →
  (vm_alloc_zeroed s = (s, None)) ∨
  ∃ s' page, vm_alloc_zeroed s = (s', Some (page * PAGE_SIZE)) ∧
    page ∈ free_set (vm_pmm s) ∧ 0 ≤ page < MAX_PAGES ∧
    free_set (vm_pmm s') = free_set (vm_pmm s) ∖ {[page]} ∧ pmm_wf (vm_pmm s') ∧
    (∀ j, idx j → mem_read (vm_mem s') (slot (page * PAGE_SIZE) j) = 0) ∧
    (∀ a, ¬ (page * PAGE_SIZE ≤ a < page * PAGE_SIZE + PAGE_SIZE) →
       mem_read (vm_mem s') a = mem_read (vm_mem s) a) ∧
    active_pml4 s' = active_pml4 s ∧ mapped_pages s' = mapped_pages s ∧ invlpg s' = invlpg s ∧
    total_pages (vm_pmm s') = total_pages (vm_pmm s).
Proof.
  intros Hpmm. unfold vm_alloc_zeroed, alloc_page_zeroed.
  destruct (alloc_page_spec _ Hpmm) as [[-> _]|(page & p' & -> & Hin & _ & Htot & Hf & Hwf)].
  - left. by destruct s.
  - right. eexists _, page. split; [done|]. simpl. pose proof (free_set_lt _ _ Hin).
    destruct (pw_total _ Hpmm). split_and!; try done; try lia.
    + intros j Hj. by apply zero_words_in.
    + intros a Ha. apply zero_words_out. unfold PAGE_SIZE in *. change (4096 / 8) with 512. lia.
Qed.

Lemma table_flags_ok (user : bool) :
  let f := if user then Z.lor (Z.lor PF_PRESENT PF_WRITABLE) PF_USER else Z.lor PF_PRESENT PF_WRITABLE in
  flags_ok f ∧ pte_is_present f = true.
Proof. by destruct user. Qed.

Lemma frame_ok_page page : 0 ≤ page < MAX_PAGES → frame_ok (page * PAGE_SIZE).
Proof. unfold MAX_PAGES, PAGE_SIZE, frame_ok. intros. split; [lia|]. by apply Z.mod_mul. Qed.

(** Installing a freshly allocated, zeroed page as the table below [(π, i)]. *)
Lemma install_table s s1 root π i t page flags :
  vm_ok s root → path (π ++ [i]) → table_at (vm_mem s) root π = Some t →
  pte_is_present (mem_read (vm_mem s) (slot t i)) = false →
  page ∈ free_set (vm_pmm s) → 0 ≤ page < MAX_PAGES →
  free_set (vm_pmm s1) = free_set (vm_pmm s) ∖ {[page]} → pmm_wf (vm_pmm s1) →
  (∀ j, idx j → mem_read (vm_mem s1) (slot (page * PAGE_SIZE) j) = 0) →
  (∀ a, ¬ (page * PAGE_SIZE ≤ a < page * PAGE_SIZE + PAGE_SIZE) →
     mem_read (vm_mem s1) a = mem_read (vm_mem s) a) →
  flags_ok flags → pte_is_present flags = true →
  let m' := mem_write (vm_mem s1) (slot t i) (pte_set (page * PAGE_SIZE) flags) in
  pt_wf m' (free_set (vm_pmm s1)) root ∧
  (∀ ρ, path ρ → table_at m' root ρ =
     if decide (ρ = π ++ [i]) then Some (page * PAGE_SIZE) else table_at (vm_mem s) root ρ) ∧
  (∀ ρ j, leaf_path ρ j → leaf_at m' root ρ j = leaf_at (vm_mem s) root ρ j) ∧
  table_at (vm_mem s) root (π ++ [i]) = None.
Proof.
  intros [Hpmm Hpt] Hpi Ht Hpres Hin Hr Hfs Hwf1 Hz Hm Hfl Hfp m'.
  pose proof (outside_write _ (vm_mem s1) _ _ page Hpt Hin Hm) as Hout.
  assert (Htab : ∀ ρ, path ρ → table_at (vm_mem s1) root ρ = table_at (vm_mem s) root ρ).
  { apply table_at_step_ext. intros ρ u j Hρ Hu. pose proof Hρ as (_ & Hj & _)%path_snoc.
    unfold step_table. destruct (Hout ρ u j (path_prefix _ _ Hρ) Hu Hj) as [-> _]. done. }
  assert (Hpt1 : pt_wf (vm_mem s1) (free_set (vm_pmm s)) root) by (by eapply pt_wf_ext).
  pose proof (path_prefix _ _ Hpi) as Hp. pose proof Hpi as (_ & Hidx & _)%path_snoc.
  assert (Ht1 : table_at (vm_mem s1) root π = Some t) by (by rewrite Htab).
  assert (Hn : step_table (vm_mem s1) t i = None).
  { unfold step_table. destruct (Hout π t i Hp Ht Hidx) as [-> _]. by rewrite Hpres. }
  assert (Hfresh : ∀ ρ u, path ρ → table_at (vm_mem s1) root ρ = Some u → u ≠ page * PAGE_SIZE).
  { intros ρ u Hρ. rewrite Htab by done. intros Hu. by apply (Hout ρ u 0 Hρ Hu). }
  pose proof (frame_ok_page page Hr) as Hfr.
  assert (He : pte_is_present (pte_set (page * PAGE_SIZE) flags) = true) by (by rewrite pte_present_set).
  assert (Hea : pte_addr (pte_set (page * PAGE_SIZE) flags) = page * PAGE_SIZE) by (by apply pte_addr_set).
  split_and!.
  - rewrite Hfs. eapply new_table_wf; eauto; [apply Hfr|set_solver|apply Hfr|].
    rewrite Z.div_mul by done. set_solver.
  - intros ρ Hρ. unfold m'. erewrite new_table_at; eauto; [|apply Hfr]. by rewrite Htab.
  - intros ρ j Hl. unfold m'. erewrite new_table_leaf; eauto; [|apply Hfr]. unfold leaf_at.
    pose proof (leaf_path_path _ _ Hl) as Hρ. rewrite Htab by done.
    destruct (table_at (vm_mem s) root ρ) as [u|] eqn:Hu; simpl; [|done].
    destruct Hl as (_ & _ & Hj). by destruct (Hout ρ u j Hρ Hu Hj) as [-> _].
  - rewrite <- Htab, table_at_snoc, Ht1 by done. simpl. by rewrite Hn.
Qed.

(** The new table is the only page taken. *)
Lemma install_grows s s1 s' root π i t page e :
  vm_ok s root → path (π ++ [i]) → table_at (vm_mem s) root π = Some t → page ∈ free_set (vm_pmm s) →
  free_set (vm_pmm s1) = free_set (vm_pmm s) ∖ {[page]} → total_pages (vm_pmm s1) = total_pages (vm_pmm s) →
  (∀ a, ¬ (page * PAGE_SIZE ≤ a < page * PAGE_SIZE + PAGE_SIZE) →
     mem_read (vm_mem s1) a = mem_read (vm_mem s) a) →
  vm_pmm s' = vm_pmm s1 → vm_mem s' = mem_write (vm_mem s1) (slot t i) e →
  (∀ ρ, path ρ → table_at (vm_mem s') root ρ =
     if decide (ρ = π ++ [i]) then Some (page * PAGE_SIZE) else table_at (vm_mem s) root ρ) →
  table_at (vm_mem s) root (π ++ [i]) = None → grows s s' root.
Proof.
  intros Hok Hpi Ht Hin Hfs Htot Hm Hp' Hm' Htab Hnone.
  pose proof (path_prefix _ _ Hpi) as Hp. pose proof Hpi as (_ & Hidx & _)%path_snoc.
  destruct (pt_page _ _ _ (vo_pt _ _ Hok) _ _ Hp Ht) as (_ & Htm & _).
  split; rewrite ?Hp', ?Hfs; [done|by apply subseteq_difference_l|..].
  - intros ρ u Hρ. rewrite Htab by done. case_decide; [|by left]. intros [= <-]. right. by rewrite Z.div_mul.
  - intros ρ u Hρ Hu. rewrite Htab by done. case_decide; [congruence|done].
  - intros q Hq. destruct (decide (q = page)) as [->|]; [|left; set_solver]. right. exists (π ++ [i]).
    split; [done|]. by rewrite Htab, decide_True.
  - intros a Ha Hnt. rewrite Hm', mem_read_write_ne.
    + apply Hm. intros Hr. apply Ha. unfold PAGE_SIZE in *.
      replace (a / 4096) with page; [done|]. apply (Z.div_unique _ _ _ (a - page * 4096)); lia.
    + intros <-. apply (Hnt π t Hp Ht). by rewrite slot_page.
Qed.

Lemma ensure_create s root π i t user s' r :
  vm_ok s root → path (π ++ [i]) → table_at (vm_mem s) root π = Some t →
  ensure_table_user s (slot t i) true user = (s', r) →
  extends s s' root ∧
  (r = Err OutOfMemory ∨ ∃ t' c, r = Ok (t', c) ∧ table_at (vm_mem s') root (π ++ [i]) = Some t').
Proof.
  intros Hok Hpi Ht. pose proof Hok as [Hpmm Hpt]. unfold ensure_table_user.
  pose proof (path_prefix _ _ Hpi) as Hp. pose proof Hpi as (_ & Hidx & _)%path_snoc.
  destruct (pt_page _ _ _ Hpt _ _ Hp Ht) as (_ & Htm & _).
  destruct (pte_is_present (mem_read (vm_mem s) (slot t i))) eqn:Hpres.
  - assert (Hstep : table_at (vm_mem s) root (π ++ [i]) = Some (pte_addr (mem_read (vm_mem s) (slot t i)))).
    { rewrite table_at_snoc, Ht. simpl. unfold step_table. by rewrite Hpres. }
    destruct (user && _); intros [= <- <-].
    + destruct (promote_write _ _ _ _ _ _ Hpt Hpi Ht) as [Htab Hleaf]. split.
      * split; simpl; try done.
        -- split; [done|]. simpl. eapply pt_wf_ext; [exact Htab|done|done].
        -- intros ρ u Hρ. by rewrite Htab.
        -- by eapply (grows_write _ _ root π t i); [| | |apply Htm| |done|].
      * right. eexists _, _. split; [done|]. simpl. rewrite Htab, Hstep by done.
        by rewrite mem_read_write, (proj2 (pte_promote _)).
    + split; [by apply extends_refl|]. right. eauto.
  - simpl. destruct (vm_alloc_zeroed_spec s Hpmm) as
      [->|(s1 & page & -> & Hin & Hr & Hfs & Hwf1 & Hz & Hm & Ha1 & Hm1 & Hi1 & Ht1)].
    { intros [= <- <-]. split; [by apply extends_refl|by left]. }
    intros [= <- <-]. destruct (table_flags_ok user) as [Hfl Hfp].
    destruct (install_table s s1 root π i t page _ Hok Hpi Ht Hpres Hin Hr Hfs Hwf1 Hz Hm Hfl Hfp)
      as (Hwf' & Htab & Hleaf & Hnone). split.
    + split; simpl; [by split|..|by rewrite Ha1|by rewrite Hm1|by rewrite Hi1|].
      * intros ρ u Hρ Hu. rewrite Htab by done. case_decide; [congruence|done].
      * done.
      * by eapply (install_grows s s1 _ root π i t page).
    + right. eexists _, _. split; [done|]. simpl. by rewrite Htab, decide_True.
Qed.

(** ** The walk *)

Definition leaf_indices (virt : Z) : list Z * Z :=
  let '(i4, i3, i2, i1) := split_indices virt in ([i4; i3; i2], i1).

Lemma land_511 x : idx (Z.land x 0x1FF).
Proof.
  unfold idx. change 0x1FF with (Z.ones 9). rewrite Z.land_ones by lia.
  apply Z.mod_pos_bound. lia.
Qed.

Lemma leaf_indices_ok virt : leaf_path (leaf_indices virt).1 (leaf_indices virt).2.
Proof. unfold leaf_indices, split_indices, leaf_path. simpl. split_and!; [repeat apply Forall_cons_2; try apply Forall_nil_2|done|]; apply land_511. Qed.

(** The entry that maps [virt] under [root], if any. *)
Definition mapping (s : Vm) (root virt : Z) : option Z :=
  leaf_at (vm_mem s) root (leaf_indices virt).1 (leaf_indices virt).2.

Lemma path_of_indices i j k : idx i → idx j → idx k → path ([i; j] ++ [k]).
Proof. intros. split; [by repeat apply Forall_cons_2|simpl; lia]. Qed.

Lemma walk_create s root virt user s' r :
  vm_ok s root → walk_to_entry_with_root_user s root virt true user = (s', r) →
  extends s s' root ∧
  (r = Err OutOfMemory ∨ ∃ t c, r = Ok (slot t (leaf_indices virt).2, c) ∧
     table_at (vm_mem s') root (leaf_indices virt).1 = Some t).
Proof.
  intros Hok. unfold walk_to_entry_with_root_user, leaf_indices, split_indices. simpl.
  set (i4 := Z.land (Z.shiftr virt 39) 511). set (i3 := Z.land (Z.shiftr virt 30) 511).
  set (i2 := Z.land (Z.shiftr virt 21) 511). set (i1 := Z.land (Z.shiftr virt 12) 511).
  assert (idx i4 ∧ idx i3 ∧ idx i2) as (H4 & H3 & H2) by (split_and!; apply land_511).
  destruct (ensure_table_user s (slot root i4) true user) as [sa ra] eqn:Ea.
  eapply (ensure_create s root [] i4 root) in Ea as [Hxa Hra]; [|done| |done].
  2:{ split; [by repeat apply Forall_cons_2|simpl; lia]. }
  destruct Hra as [->|(t1 & c1 & -> & Ht1)]; [intros [= <- <-]; by auto|].
  destruct (ensure_table_user sa (slot t1 i3) true user) as [sb rb] eqn:Eb.
  eapply (ensure_create sa root [i4] i3 t1) in Eb as [Hxb Hrb]; [|apply Hxa| |done].
  2:{ split; [by repeat apply Forall_cons_2|simpl; lia]. }
  pose proof (extends_trans _ _ _ _ Hxa Hxb) as Hxab.
  destruct Hrb as [->|(t2 & c2 & -> & Ht2)]; [intros [= <- <-]; by auto|].
  destruct (ensure_table_user sb (slot t2 i2) true user) as [sc rc] eqn:Ec.
  eapply (ensure_create sb root [i4; i3] i2 t2) in Ec as [Hxc Hrc]; [|apply Hxb| |done].
  2:{ by apply path_of_indices. }
  pose proof (extends_trans _ _ _ _ Hxab Hxc) as Hx.
  destruct Hrc as [->|(t3 & c3 & -> & Ht3)]; intros [= <- <-]; [by auto|].
  split; [done|]. right. eauto.
Qed.

Lemma ensure_query s ea :
  ensure_table_user s ea false false =
  (s, if pte_is_present (mem_read (vm_mem s) ea) then Ok (pte_addr (mem_read (vm_mem s) ea), false)
      else Err NotMapped).
Proof. unfold ensure_table_user. by case_match. Qed.

(** Without creation the walk changes nothing and follows the tables. *)
Lemma walk_query s root virt :
  walk_to_entry_with_root_user s root virt false false =
  (s, match table_at (vm_mem s) root (leaf_indices virt).1 with
      | Some t => Ok (slot t (leaf_indices virt).2, false)
      | None => Err NotMapped
      end).
Proof.
  unfold walk_to_entry_with_root_user, leaf_indices, split_indices. simpl. unfold step_table.
  do 3 (rewrite ensure_query; destruct (pte_is_present _); [|done]). done.
Qed.

(** Updating the leaf the walk ends at. *)
Lemma leaf_update s root virt t e :
  vm_ok s root → table_at (vm_mem s) root (leaf_indices virt).1 = Some t →
  let s' := vm_write s (slot t (leaf_indices virt).2) e in
  vm_ok s' root ∧
  ∀ v, mapping s' root v =
    if decide (leaf_indices v = leaf_indices virt) then (if pte_is_present e then Some e else None)
    else mapping s root v.
Proof.
  intros [Hpmm Hpt] Ht. destruct (leaf_write _ _ _ _ _ _ e Hpt (leaf_indices_ok virt) Ht) as [Htab Hleaf].
  split.
  - split; [done|]. eapply pt_wf_ext; [exact Htab|done|done].
  - intros v. unfold mapping. cbn [vm_mem vm_write]. rewrite Hleaf by apply leaf_indices_ok.
    assert (Heta : ∀ w, ((leaf_indices w).1, (leaf_indices w).2) = leaf_indices w)
      by (intros w; by destruct (leaf_indices w)).
    by rewrite !Heta.
Qed.

(** ** Mapping and unmapping *)

Lemma mapping_extends s s' root v : extends s s' root → mapping s' root v = mapping s root v.
Proof. intros H. apply (ex_leaves _ _ _ H), leaf_indices_ok. Qed.

Lemma mapping_table s root v t :
  table_at (vm_mem s) root (leaf_indices v).1 = Some t →
  mapping s root v =
  if pte_is_present (mem_read (vm_mem s) (slot t (leaf_indices v).2))
  then Some (mem_read (vm_mem s) (slot t (leaf_indices v).2)) else None.
Proof. intros Ht. unfold mapping, leaf_at. by rewrite Ht. Qed.

Lemma map_internal_spec s root virt phys flags s' r :
  vm_ok s root → map_page_internal s root virt phys flags = (s', r) →
  vm_ok s' root ∧ active_pml4 s' = active_pml4 s ∧
  match r with
  | Ok _ =>
      is_page_aligned virt = true ∧ is_page_aligned phys = true ∧ mapping s root virt = None ∧
      mapped_pages s' = wrap64 (mapped_pages s + 1) ∧
      ∀ v, mapping s' root v =
        if decide (leaf_indices v = leaf_indices virt)
        then (if pte_is_present flags then Some (pte_set phys flags) else None)
        else mapping s root v
  | Err e =>
      (e = Unaligned ∨ e = OutOfMemory ∨ (e = AlreadyMapped ∧ is_Some (mapping s root virt))) ∧
      ∀ v, mapping s' root v = mapping s root v
  end.
Proof.
  intros Hok. unfold map_page_internal.
  destruct (negb (is_page_aligned virt) || negb (is_page_aligned phys)) eqn:Hal; [intros [= <- <-]; by auto|].
  apply orb_false_iff in Hal as [Hv%negb_false_iff Hp%negb_false_iff].
  destruct (walk_to_entry_with_root_user s root virt true _) as [s1 r1] eqn:Ew.
  apply walk_create in Ew as [Hx Hr1]; [|done].
  destruct Hr1 as [->|(t & c & -> & Ht)].
  { intros [= <- <-]. split_and!; [apply Hx|apply (ex_active _ _ _ Hx)|by auto|].
    intros v. by apply mapping_extends. }
  pose proof (mapping_table _ _ _ _ Ht) as Hmap. rewrite (mapping_extends _ _ _ _ Hx) in Hmap.
  destruct (pte_is_present (mem_read (vm_mem s1) (slot t (leaf_indices virt).2))) eqn:Hpr;
    rewrite ?Hpr in Hmap.
  { intros [= <- <-]. split_and!; [apply Hx|apply (ex_active _ _ _ Hx)| |].
    - right; right. split; [done|]. rewrite Hmap. by eexists.
    - intros v. by apply mapping_extends. }
  intros [= <- <-].
  destruct (leaf_update s1 root virt t (pte_set phys flags) (ex_ok _ _ _ Hx) Ht) as [Hok' Hupd].
  assert (∀ s2, vm_pmm s2 = vm_pmm s1 → vm_mem s2 = vm_mem (vm_write s1 (slot t (leaf_indices virt).2) (pte_set phys flags)) →
    vm_ok s2 root ∧ ∀ v, mapping s2 root v = if decide (leaf_indices v = leaf_indices virt)
        then (if pte_is_present flags then Some (pte_set phys flags) else None) else mapping s root v) as Hgen.
  { intros s2 Hp2 Hm2. split.
    - destruct Hok' as [Ha Hb]. split; [by rewrite Hp2|by rewrite Hm2, Hp2].
    - intros v. unfold mapping at 1. rewrite Hm2. etransitivity; [apply Hupd|].
      by rewrite pte_present_set, (mapping_extends _ _ _ _ Hx). }
  destruct c; (edestruct Hgen as [? Hg]; [| |split_and!; [eassumption|..]]); try reflexivity;
    try apply (ex_active _ _ _ Hx); try exact Hmap; try exact Hg; try done;
    cbn; by rewrite (ex_mapped _ _ _ Hx).
Qed.

(** The effect of mapping and unmapping on pages and tables. *)
Lemma map_internal_grows s root virt phys flags s' r :
  vm_ok s root → map_page_internal s root virt phys flags = (s', r) → grows s s' root.
Proof.
  intros Hok. unfold map_page_internal.
  destruct (negb (is_page_aligned virt) || negb (is_page_aligned phys)) eqn:Hal;
    [intros [= <- <-]; apply grows_refl|].
  destruct (walk_to_entry_with_root_user s root virt true _) as [s1 r1] eqn:Ew.
  apply walk_create in Ew as [Hx Hr1]; [|done]. pose proof (ex_grows _ _ _ Hx) as Hg.
  destruct Hr1 as [->|(t & c & -> & Ht)]; [intros E%(f_equal fst); cbn [fst] in E; by subst|].
  destruct (pte_is_present _); [intros E%(f_equal fst); cbn [fst] in E; by subst|].
  destruct (leaf_write _ _ _ _ _ _ (pte_set phys flags) (vo_pt _ _ (ex_ok _ _ _ Hx)) (leaf_indices_ok virt) Ht)
    as [Htab _].
  intros E%(f_equal fst); cbn [fst] in E. subst s'. eapply grows_trans; [exact Hg|].
  pose proof (leaf_indices_ok virt) as Hl. pose proof (leaf_path_path _ _ Hl) as Hp.
  destruct (pt_page _ _ _ (vo_pt _ _ (ex_ok _ _ _ Hx)) _ _ Hp Ht) as (_ & Htm & _).
  by eapply (grows_write _ _ root _ t (leaf_indices virt).2); [exact Hp|exact Ht|apply Hl|exact Htm|..]; destruct c.
Qed.

Lemma unmap_grows s root virt s' r :
  vm_ok s root → root ≠ 0 → is_page_aligned virt = true →
  unmap_page_in_pml4 s root virt = (s', r) → grows s s' root ∧ active_pml4 s' = active_pml4 s.
Proof.
  intros Hok Hr Hv. unfold unmap_page_in_pml4. rewrite Hv. cbn [negb].
  rewrite (proj2 (Z.eqb_neq _ _) Hr), walk_query.
  destruct (table_at (vm_mem s) root (leaf_indices virt).1) as [t|] eqn:Ht;
    [|intros [= <- <-]; by split; [apply grows_refl|]].
  destruct (negb _); intros [= <- <-]; [by split; [apply grows_refl|]|].
  destruct (leaf_write _ _ _ _ _ _ 0 (vo_pt _ _ Hok) (leaf_indices_ok virt) Ht) as [Htab _].
  pose proof (leaf_indices_ok virt) as Hl. pose proof (leaf_path_path _ _ Hl) as Hp.
  destruct (pt_page _ _ _ (vo_pt _ _ Hok) _ _ Hp Ht) as (_ & Htm & _). split; [|done].
  by eapply (grows_write _ _ root _ t (leaf_indices virt).2); [exact Hp|exact Ht|apply Hl|exact Htm|..].
Qed.

Lemma unmap_spec s root virt s' r :
  vm_ok s root → root ≠ 0 → is_page_aligned virt = true →
  unmap_page_in_pml4 s root virt = (s', r) →
  vm_ok s' root ∧
  match r with
  | Ok _ =>
      is_Some (mapping s root virt) ∧ mapped_pages s' = wrap64 (mapped_pages s - 1) ∧
      ∀ v, mapping s' root v = if decide (leaf_indices v = leaf_indices virt) then None else mapping s root v
  | Err e => e = NotMapped ∧ s' = s ∧ mapping s root virt = None
  end.
Proof.
  intros Hok Hr Hv. unfold unmap_page_in_pml4. rewrite Hv. cbn [negb]. rewrite (proj2 (Z.eqb_neq _ _) Hr), walk_query.
  destruct (table_at (vm_mem s) root (leaf_indices virt).1) as [t|] eqn:Ht.
  2:{ intros [= <- <-]. split_and!; try done. unfold mapping, leaf_at. by rewrite Ht. }
  pose proof (mapping_table _ _ _ _ Ht) as Hmap.
  destruct (pte_is_present (mem_read (vm_mem s) (slot t (leaf_indices virt).2))) eqn:Hpr;
    rewrite ?Hpr in Hmap; cbn [negb]; intros [= <- <-].
  - destruct (leaf_update s root virt t 0 Hok Ht) as [[Ha Hb] Hupd]. split; [by split|].
    split_and!; [rewrite Hmap; by eexists|done|]. intros v. apply Hupd.
  - by split_and!.
Qed.

Lemma query_spec s root virt :
  root ≠ 0 → is_page_aligned virt = true →
  query_mapping_in_pml4 s root virt =
  (s, match mapping s root virt with Some e => Ok (pte_addr e, e) | None => Err NotMapped end).
Proof.
  intros Hr Hv. unfold query_mapping_in_pml4. rewrite Hv. cbn [negb].
  rewrite (proj2 (Z.eqb_neq _ _) Hr), walk_query. unfold mapping, leaf_at.
  destruct (table_at (vm_mem s) root (leaf_indices virt).1) as [t|]; simpl; [|done].
  by destruct (pte_is_present _).
Qed.

Lemma map_in_pml4_internal s root virt phys flags s' r :
  root ≠ 0 → is_page_aligned virt = true → is_page_aligned phys = true →
  map_page_in_pml4 s root virt phys flags = (s', r) → map_page_internal s root virt phys flags = (s', r).
Proof.
  intros Hr Hv Hp. unfold map_page_in_pml4. rewrite Hv, Hp. cbn [negb orb].
  by rewrite (proj2 (Z.eqb_neq _ _) Hr).
Qed.

(** ** Indices determine the page *)

Lemma shift_mask x k : 0 ≤ x → 0 ≤ k → Z.land (Z.shiftr x k) 0x1FF = (x / 2 ^ k) mod 512.
Proof.
  intros. change 0x1FF with (Z.ones 9). rewrite Z.land_ones, Z.shiftr_div_pow2 by lia. done.
Qed.

Lemma leaf_indices_inj v w :
  0 ≤ v → 0 ≤ w → v / 2 ^ 48 = w / 2 ^ 48 → v mod PAGE_SIZE = 0 → w mod PAGE_SIZE = 0 →
  leaf_indices v = leaf_indices w → v = w.
Proof.
  intros Hv Hw Hh Hav Haw. unfold leaf_indices, split_indices. rewrite !shift_mask by lia.
  intros [= E4 E3 E2 E1].
  assert (Hstep : ∀ k, 0 ≤ k → v / 2 ^ (k + 9) = w / 2 ^ (k + 9) →
    (v / 2 ^ k) mod 512 = (w / 2 ^ k) mod 512 → v / 2 ^ k = w / 2 ^ k).
  { intros k Hk Hd Hm. rewrite (Z.div_mod (v / 2 ^ k) 512), (Z.div_mod (w / 2 ^ k) 512) by lia.
    rewrite Hm, !Z.div_div by lia. change 512 with (2 ^ 9). rewrite <- !Z.pow_add_r by lia. by rewrite Hd. }
  pose proof (Hstep 39 ltac:(lia) Hh E4) as H39. pose proof (Hstep 30 ltac:(lia) H39 E3) as H30.
  pose proof (Hstep 21 ltac:(lia) H30 E2) as H21. pose proof (Hstep 12 ltac:(lia) H21 E1) as H12.
  rewrite (Z.div_mod v PAGE_SIZE), (Z.div_mod w PAGE_SIZE) by done. rewrite Hav, Haw.
  change PAGE_SIZE with (2 ^ 12). by rewrite H12.
Qed.

(** ** Cloning the kernel half *)

(** The entries [idxs] of table [dst] set to [f idx], one after the other. *)
Lemma foldl_slots (f : Z → Z) (g : Vm → Z → Z) dst (l : list Z) s :
  (∀ i, i ∈ l → idx i) → dst mod PAGE_SIZE = 0 →
  (∀ s' i, i ∈ l → (∀ a, (∀ j, idx j → a ≠ slot dst j) → mem_read (vm_mem s') a = mem_read (vm_mem s) a) →
     g s' i = f i) →
  let s' := foldl (λ s i, vm_write s (slot dst i) (g s i)) s l in
  vm_pmm s' = vm_pmm s ∧
  (∀ a, (∀ i, i ∈ l → a ≠ slot dst i) → mem_read (vm_mem s') a = mem_read (vm_mem s) a) ∧
  (∀ i, i ∈ l → mem_read (vm_mem s') (slot dst i) = f i).
Proof.
  intros Hidx Hdst Hg. revert Hidx Hg. induction l as [|i l IH] using rev_ind; intros Hidx Hg.
  - split_and!; [done|done|]. intros i Hi. by apply not_elem_of_nil in Hi.
  - rewrite foldl_app. cbn [foldl].
    destruct IH as (Hp & Hout & Hin).
    { intros j Hj. apply Hidx. set_solver. }
    { intros s' j Hj. apply Hg. set_solver. }
    set (s1 := foldl _ s l) in *.
    assert (Hgi : g s1 i = f i).
    { apply Hg; [set_solver|]. intros a Ha. apply Hout. intros j Hj. apply Ha, Hidx. set_solver. }
    cbn [vm_write vm_pmm vm_mem]. split_and!; [done| |].
    + intros a Ha. rewrite mem_read_write_ne by (apply not_eq_sym, Ha; set_solver).
      apply Hout. intros j Hj. apply Ha. set_solver.
    + intros j Hj. destruct (decide (j = i)) as [->|Hne]; [by rewrite mem_read_write|].
      rewrite mem_read_write_ne; [apply Hin; set_solver|].
      intros E. apply slot_inj in E as [_ ?]; [done|done|done|apply Hidx; set_solver..].
Qed.

Lemma clone_lists s dst src (l1 l2 : list Z) :
  (∀ i, i ∈ l1 → 0 ≤ i < 256) → (∀ i, i ∈ l2 → 256 ≤ i < 512) → dst mod PAGE_SIZE = 0 →
  (∀ i j, idx i → idx j → slot src i ≠ slot dst j) →
  let s1 := foldl (λ s i, vm_write s (slot dst i) 0) s l1 in
  let s2 := foldl (λ s i, vm_write s (slot dst i) (mem_read (vm_mem s) (slot src i))) s1 l2 in
  (∀ a, (∀ i, idx i → a ≠ slot dst i) → mem_read (vm_mem s2) a = mem_read (vm_mem s) a) ∧
  (∀ i, i ∈ l1 → mem_read (vm_mem s2) (slot dst i) = 0) ∧
  (∀ i, i ∈ l2 → mem_read (vm_mem s2) (slot dst i) = mem_read (vm_mem s) (slot src i)).
Proof.
  intros Hl1 Hl2 Hdst Hne s1 s2.
  assert (H1 : ∀ i, i ∈ l1 → idx i) by (intros i Hi%Hl1; unfold idx; lia).
  assert (H2 : ∀ i, i ∈ l2 → idx i) by (intros i Hi%Hl2; unfold idx; lia).
  destruct (foldl_slots (λ _, 0) (λ _ _, 0) dst l1 s H1 Hdst) as (_ & Ho1 & Hi1); [done|].
  change (foldl _ s l1) with s1 in Ho1, Hi1.
  destruct (foldl_slots (λ i, mem_read (vm_mem s) (slot src i))
    (λ s' i, mem_read (vm_mem s') (slot src i)) dst l2 s1 H2 Hdst) as (_ & Ho2 & Hi2).
  { intros s3 i Hi Hs3. rewrite Hs3.
    - apply Ho1. intros j Hj. apply Hne; auto.
    - intros j Hj. apply Hne; auto. }
  change (foldl _ s1 l2) with s2 in Ho2, Hi2. split_and!; [|  |done].
  - intros a Hout. rewrite Ho2, Ho1; [done|..]; intros i Hi; apply Hout; auto.
  - intros i Hi. rewrite Ho2; [by apply Hi1|].
    intros j Hj E. apply slot_inj in E as [_ <-]; auto. apply Hl1 in Hi. apply Hl2 in Hj. lia.
Qed.

Lemma clone_entries s dst s' :
  is_page_aligned dst = true → active_pml4 s ≠ 0 →
  (∀ i j, idx i → idx j → slot (active_pml4 s) i ≠ slot dst j) →
  clone_kernel_mappings s dst = (s', Ok tt) →
  (∀ a, (∀ i, idx i → a ≠ slot dst i) → mem_read (vm_mem s') a = mem_read (vm_mem s) a) ∧
  (∀ i, 0 ≤ i < 256 → mem_read (vm_mem s') (slot dst i) = 0) ∧
  (∀ i, 256 ≤ i < 512 → mem_read (vm_mem s') (slot dst i) = mem_read (vm_mem s) (slot (active_pml4 s) i)).
Proof.
  intros Hal Ha Hne. unfold clone_kernel_mappings. rewrite Hal. cbn [negb].
  rewrite (proj2 (Z.eqb_neq _ _) Ha).
  assert (Hl1 : ∀ i, i ∈ seqZ 0 (ENTRIES_PER_TABLE / 2) ↔ 0 ≤ i < 256).
  { intros i. rewrite elem_of_seqZ. change (ENTRIES_PER_TABLE / 2) with 256. lia. }
  assert (Hl2 : ∀ i, i ∈ seqZ (ENTRIES_PER_TABLE / 2) (ENTRIES_PER_TABLE / 2) ↔ 256 ≤ i < 512).
  { intros i. rewrite elem_of_seqZ. change (ENTRIES_PER_TABLE / 2) with 256. lia. }
  revert Hl1 Hl2. generalize (seqZ 0 (ENTRIES_PER_TABLE / 2)) as l1.
  generalize (seqZ (ENTRIES_PER_TABLE / 2) (ENTRIES_PER_TABLE / 2)) as l2.
  intros l2 l1 Hl1 Hl2 E%(f_equal fst). cbn [fst] in E. subst s'.
  destruct (clone_lists s dst (active_pml4 s) l1 l2) as (H0 & H1 & H2);
    [by intros; apply Hl1|by intros; apply Hl2|by apply Z.eqb_eq|done|].
  split_and!; [done| |]; intros i Hi; [apply H1; by apply Hl1|apply H2; by apply Hl2].
Qed.

(** The walk below the root. *)
Lemma table_at_below m m' root t π :
  (∀ ρ u j, path ρ → ρ ≠ [] → table_at m root ρ = Some u → idx j →
     mem_read m' (slot u j) = mem_read m (slot u j)) →
  ∀ i, path (i :: π) → step_table m root i = Some t → table_at m' t π = table_at m t π.
Proof.
  intros Hm i. induction π as [|j π IH] using rev_ind; intros Hp Ht; [done|].
  rewrite app_comm_cons in Hp. pose proof Hp as (_ & Hj & _)%path_snoc.
  rewrite !table_at_snoc, IH by (done || by eapply path_prefix).
  destruct (table_at m t π) as [u|] eqn:Hu; simpl; [|done]. unfold step_table.
  rewrite (Hm (i :: π) u j); [done|by eapply path_prefix|done| |done]. simpl. by rewrite Ht.
Qed.

(** ** Properties *)

(** C10. Mapping a page is an update of the address space: on success the page
    was unmapped and now has exactly the given frame and flags, on failure
    ([AlreadyMapped] only if it was mapped, or out of memory for a table)
    nothing is mapped differently; every other page keeps its mapping, and the
    tables remain a tree of allocated pages. *)
Theorem map_page_correct s root virt phys flags s' r :
  vm_ok s root → root ≠ 0 → is_page_aligned virt = true → is_page_aligned phys = true →
  map_page_in_pml4 s root virt phys flags = (s', r) →
  vm_ok s' root ∧
  match r with
  | Ok _ =>
      mapping s root virt = None ∧
      ∀ v, mapping s' root v =
        if decide (leaf_indices v = leaf_indices virt)
        then (if pte_is_present flags then Some (pte_set phys flags) else None)
        else mapping s root v
  | Err e =>
      (e = OutOfMemory ∨ (e = AlreadyMapped ∧ is_Some (mapping s root virt))) ∧
      ∀ v, mapping s' root v = mapping s root v
  end.
Proof.
  intros Hok Hr Hv Hp E. apply map_in_pml4_internal in E; [|done..]. pose proof E as E'.
  apply map_internal_spec in E as (Hok' & _ & Hres); [|done]. split; [done|].
  destruct r as [u|e]; [by destruct Hres as (_ & _ & ? & _ & ?)|].
  destruct Hres as [[->|[->|H]] Hm]; [|by split; [left|]|by split; [right|]].
  exfalso. unfold map_page_internal in E'. rewrite Hv, Hp in E'. cbn [negb orb] in E'.
  destruct (walk_to_entry_with_root_user _ _ _ _ _) as [s1 r1] eqn:Ew.
  apply walk_create in Ew as [_ [->|(t & c & -> & _)]]; [congruence| |done].
  by destruct (pte_is_present _).
Qed.

(** What was mapped is what a query returns: after a successful mapping of
    an aligned frame below [2^52] with flags that are present and carry no
    address bits, the query yields that frame. *)
Theorem map_query_roundtrip s root virt phys flags s' :
  vm_ok s root → root ≠ 0 → is_page_aligned virt = true → frame_ok phys →
  flags_ok flags → pte_is_present flags = true →
  map_page_in_pml4 s root virt phys flags = (s', Ok tt) →
  query_mapping_in_pml4 s' root virt = (s', Ok (phys, pte_set phys flags)).
Proof.
  intros Hok Hr Hv Hf Hfl Hpr E. rewrite query_spec by done.
  apply map_in_pml4_internal in E; [|done..|apply Z.eqb_eq, Hf].
  apply map_internal_spec in E as (_ & _ & _ & _ & _ & _ & Hm); [|done].
  by rewrite Hm, decide_True, Hpr, pte_addr_set.
Qed.

(** Unmapping undoes mapping: after a successful mapping with present
    flags the page can be unmapped, and then every page of the address space
    maps as before and the mapped-page counter is back. *)
Theorem map_unmap_roundtrip s root virt phys flags s' :
  vm_ok s root → root ≠ 0 → is_page_aligned virt = true → is_page_aligned phys = true →
  pte_is_present flags = true → in_range 64 (mapped_pages s) →
  map_page_in_pml4 s root virt phys flags = (s', Ok tt) →
  ∃ s'', unmap_page_in_pml4 s' root virt = (s'', Ok tt) ∧ vm_ok s'' root ∧
    mapped_pages s'' = mapped_pages s ∧ ∀ v, mapping s'' root v = mapping s root v.
Proof.
  intros Hok Hr Hv Hp Hpr Hmp E. apply map_in_pml4_internal in E; [|done..].
  apply map_internal_spec in E as (Hok' & _ & _ & _ & Hnone & Hcnt & Hm); [|done].
  destruct (unmap_page_in_pml4 s' root virt) as [s'' r] eqn:Eu.
  apply unmap_spec in Eu as (Hok'' & Hres); [|done..]. destruct r as [u|e].
  - destruct u. destruct Hres as (_ & Hcnt' & Hm'). exists s''. split_and!; [done..| |].
    + rewrite Hcnt', Hcnt. unfold wrap. rewrite Zminus_mod_idemp_l.
      replace (mapped_pages s + 1 - 1) with (mapped_pages s) by lia. by apply wrap_small.
    + intros v. rewrite Hm', Hm. case_decide as Hd; [|done]. unfold mapping in *. by rewrite Hd.
  - destruct Hres as (_ & _ & Hn). by rewrite Hm, decide_True, Hpr in Hn.
Qed.

(** A cloned address space has an empty user half and shares the kernel
    half: below index 256 of the top table nothing is mapped, and from 256 on
    every page maps exactly as in the active address space, whose own mappings
    do not change. *)
Theorem clone_kernel_mappings_correct s dst s' :
  vm_ok s (active_pml4 s) → active_pml4 s ≠ 0 → is_page_aligned dst = true →
  (∀ ρ u, path ρ → table_at (vm_mem s) (active_pml4 s) ρ = Some u → u ≠ dst) →
  clone_kernel_mappings s dst = (s', Ok tt) →
  ∀ v, mapping s' (active_pml4 s) v = mapping s (active_pml4 s) v ∧
       mapping s' dst v = if decide (Z.land (Z.shiftr v 39) 0x1FF < 256) then None
                          else mapping s (active_pml4 s) v.
Proof.
  intros [_ Hpt] Ha Hal Hfresh E v. set (src := active_pml4 s) in *.
  assert (Hdst : dst mod PAGE_SIZE = 0) by (by apply Z.eqb_eq).
  assert (Hne : ∀ ρ u i j, path ρ → table_at (vm_mem s) src ρ = Some u → idx i → idx j → slot u i ≠ slot dst j).
  { intros ρ u i j Hρ Hu Hi Hj E'. destruct (pt_page _ _ _ Hpt _ _ Hρ Hu) as (_ & Hum & _).
    apply slot_inj in E' as [-> _]; [|done..]. by eapply Hfresh. }
  assert (path []) as Hnil by (split; [constructor|simpl; lia]).
  destruct (clone_entries s dst s' Hal Ha) as (Hout & Hlo & Hhi); [by intros; eapply (Hne [])|done|].
  assert (Hread : ∀ ρ u j, path ρ → table_at (vm_mem s) src ρ = Some u → idx j →
            mem_read (vm_mem s') (slot u j) = mem_read (vm_mem s) (slot u j)).
  { intros ρ u j Hρ Hu Hj. apply Hout. intros i Hi. by eapply Hne. }
  assert (Htab : ∀ ρ, path ρ → table_at (vm_mem s') src ρ = table_at (vm_mem s) src ρ).
  { apply table_at_step_ext. intros ρ u j Hρ Hu. pose proof Hρ as (_ & Hj & _)%path_snoc.
    unfold step_table. by rewrite (Hread ρ u j (path_prefix _ _ Hρ) Hu Hj). }
  pose proof (leaf_indices_ok v) as Hl. pose proof (leaf_path_path _ _ Hl) as Hp. pose proof Hl as (_ & _ & Hi1).
  split.
  - unfold mapping, leaf_at. rewrite Htab by done.
    destruct (table_at (vm_mem s) src (leaf_indices v).1) as [u|] eqn:Hu; cbn [mbind option_bind]; [|done].
    by rewrite (Hread _ _ _ Hp Hu Hi1).
  - pose proof (land_511 (Z.shiftr v 39)) as Hi4.
    unfold mapping, leaf_at. unfold leaf_indices, split_indices in *. cbn [fst snd table_at] in *.
    set (i4 := Z.land (Z.shiftr v 39) 511) in *. set (i3 := Z.land (Z.shiftr v 30) 511) in *.
    set (i2 := Z.land (Z.shiftr v 21) 511) in *. unfold idx in Hi4.
    assert (Hroot : step_table (vm_mem s') dst i4 =
              if decide (i4 < 256) then None else step_table (vm_mem s) src i4).
    { unfold step_table. case_decide; [by rewrite Hlo by lia|by rewrite Hhi by lia]. }
    rewrite Hroot. case_decide; [done|]. destruct (step_table (vm_mem s) src i4) as [t|] eqn:Ht; [|done].
    pose proof (table_at_below (vm_mem s) (vm_mem s') src t [i3; i2]) as Hb.
    specialize (Hb ltac:(intros; by eapply Hread) i4 Hp Ht). cbn [table_at] in Hb. rewrite Hb.
    destruct (match step_table (vm_mem s) t i3 with Some _ => _ | None => _ end) as [u|] eqn:Hu;
      cbn [mbind option_bind]; [|done].
    rewrite (Hread [i4; i3; i2] u); [done|done| |done]. cbn [table_at]. by rewrite Ht.
Qed.
