(* ===== verification/VmInit.v ===== *)
(** * The kernel address space after [vm::init]

    The identity mapping of RAM and devices, and the witnesses of the
    page-table properties on a small address space. *)

From S2P Require Import Prelude Pmm PmmSafety Vm VmSafety.

(** ** Alignment helpers *)

Lemma not_low_mask x : in_range 64 x → Z.land x (not_w 64 (PAGE_SIZE - 1)) = x / PAGE_SIZE * PAGE_SIZE.
Proof. intros Hx. by apply (mask_low 12). Qed.

Lemma align_down_spec x : in_range 64 x → align_down x = x / PAGE_SIZE * PAGE_SIZE.
Proof. apply not_low_mask. Qed.

Lemma align_up_spec x :
  0 ≤ x → x + PAGE_SIZE - 1 < 2 ^ 64 → align_up x = (x + PAGE_SIZE - 1) / PAGE_SIZE * PAGE_SIZE.
Proof.
  intros H0 H1. unfold align_up, PAGE_SIZE in *.
  rewrite wrap_small by (unfold in_range; lia). apply not_low_mask. unfold in_range. lia.
Qed.

(** Alignment: [align_down] and [align_up] give the page boundaries around
    an address (away from the top page of the address space), and both leave
    aligned addresses alone. *)
Lemma align_correct x :
  0 ≤ x → x + PAGE_SIZE - 1 < 2 ^ 64 →
  is_page_aligned (align_down x) = true ∧ is_page_aligned (align_up x) = true ∧
  align_down x ≤ x < align_down x + PAGE_SIZE ∧ align_up x - PAGE_SIZE < x ≤ align_up x ∧
  (is_page_aligned x = true → align_down x = x ∧ align_up x = x).
Proof.
  intros H0 H1. rewrite align_up_spec, align_down_spec by (done || unfold in_range, PAGE_SIZE in *; lia).
  unfold is_page_aligned. rewrite !Z.mod_mul by done. unfold PAGE_SIZE in *.
  pose proof (Z.div_mod x 4096 ltac:(lia)). pose proof (Z.mod_pos_bound x 4096 ltac:(lia)).
  pose proof (Z.div_mod (x + 4096 - 1) 4096 ltac:(lia)).
  pose proof (Z.mod_pos_bound (x + 4096 - 1) 4096 ltac:(lia)).
  split_and!; try done; try lia.
Qed.

(** ** Identity mapping *)

Definition low_page (v : Z) : Prop := 0 ≤ v < 2 ^ 47 ∧ v mod PAGE_SIZE = 0.

(** Every mapped page below [2^47] is mapped to itself, and every mapped page
    of the higher half is the mirror of the frame it maps. *)
Definition identity_map (s : Vm) (root : Z) : Prop :=
  ∀ v e, low_page v →
    (mapping s root v = Some e → pte_addr e = v) ∧
    (mapping s root (HIGHER_HALF_BASE + v) = Some e → pte_addr e = v).

Lemma low_inj v w : low_page v → low_page w → leaf_indices v = leaf_indices w → v = w.
Proof.
  intros [Hv Hav] [Hw Haw] E. apply leaf_indices_inj; try done; try lia.
  by rewrite !Z.div_small by lia.
Qed.

Lemma high_page v : low_page v →
  (HIGHER_HALF_BASE + v) mod PAGE_SIZE = 0 ∧ (HIGHER_HALF_BASE + v) / 2 ^ 48 = 65535 ∧
  (HIGHER_HALF_BASE + v) / 2 ^ 39 = 33554176 + v / 2 ^ 39 ∧ 0 ≤ v / 2 ^ 39 < 256.
Proof.
  intros [Hv Hav]. unfold HIGHER_HALF_BASE. split_and!.
  - rewrite Z.add_mod, Hav by done. done.
  - symmetry. apply Z.div_unique with (r := 2 ^ 47 + v); lia.
  - replace (18446603336221196288 + v) with (v + 33554176 * 2 ^ 39) by lia. rewrite Z.div_add by lia. lia.
  - apply Z.div_pos; lia.
  - apply Z.div_lt_upper_bound; lia.
Qed.

Lemma high_inj v w :
  low_page v → low_page w → leaf_indices (HIGHER_HALF_BASE + v) = leaf_indices (HIGHER_HALF_BASE + w) → v = w.
Proof.
  intros Hv Hw E. pose proof (high_page v Hv) as (? & ? & _). pose proof (high_page w Hw) as (? & ? & _).
  destruct Hv, Hw. apply leaf_indices_inj in E; try done; unfold HIGHER_HALF_BASE in *; try lia.
Qed.

Lemma low_high_ne v w : low_page v → low_page w → leaf_indices v ≠ leaf_indices (HIGHER_HALF_BASE + w).
Proof.
  intros Hv Hw E. pose proof (high_page v Hv) as (_ & _ & _ & Hv4).
  pose proof (high_page w Hw) as (_ & _ & Hw39 & Hw4). destruct Hv as [Hv _], Hw as [Hw _].
  unfold leaf_indices, split_indices in E. injection E as E4 _ _ _.
  rewrite !shift_mask in E4 by (unfold HIGHER_HALF_BASE; lia). rewrite Hw39 in E4.
  replace (33554176 + w / 2 ^ 39) with ((256 + w / 2 ^ 39) + 65535 * 512) in E4 by lia.
  rewrite Z.mod_add, !Z.mod_small in E4 by lia. lia.
Qed.

Lemma low_frame p : low_page p → frame_ok p.
Proof. intros [? ?]. split; [lia|done]. Qed.

Lemma identity_map_step s root w p flags :
  vm_ok s root → identity_map s root → low_page p → flags_ok flags →
  (w = p ∨ w = HIGHER_HALF_BASE + p) →
  let s' := (map_page_internal s root w p flags).1 in
  vm_ok s' root ∧ identity_map s' root ∧ active_pml4 s' = active_pml4 s.
Proof.
  intros Hok Hid Hp Hf Hw. destruct (map_page_internal s root w p flags) as [s' r] eqn:E. cbn [fst].
  apply map_internal_spec in E as (Hok' & Ha & Hr); [|done]. split_and!; [done| |done].
  intros v e Hv. destruct (Hid v e Hv) as [Hlow Hhigh].
  destruct r as [u|er]; [|destruct Hr as [_ Hm]; by rewrite !Hm].
  destruct Hr as (_ & _ & _ & _ & Hm). rewrite !Hm.
  assert (Hset : (if pte_is_present flags then Some (pte_set p flags) else None) = Some e → pte_addr e = p).
  { destruct (pte_is_present flags); [|done]. intros [= <-]. apply pte_addr_set; [by apply low_frame|done]. }
  destruct Hw as [->| ->]; split; case_decide as Hd; try done.
  - intros H%Hset. rewrite H. symmetry. by apply low_inj.
  - by apply eq_sym, low_high_ne in Hd.
  - by apply low_high_ne in Hd.
  - intros H%Hset. rewrite H. symmetry. by apply high_inj.
Qed.

Lemma flags_for_descriptor_ok d : flags_ok (flags_for_descriptor d).
Proof.
  unfold flags_for_descriptor, apply_cacheability_flags, flags_ok.
  repeat (case_match; try reflexivity).
Qed.

(** RAM below [2^47]. *)
Definition efi_wf (d : EfiDescriptor) : Prop :=
  0 ≤ physical_start (efi_desc d) ∧ 0 ≤ number_of_pages (efi_desc d) ∧
  physical_start (efi_desc d) + number_of_pages (efi_desc d) * PAGE_SIZE ≤ 2 ^ 47.

Lemma region_pages_low d p : efi_wf d → p ∈ region_pages d → low_page p.
Proof.
  unfold efi_wf, region_pages, page_steps. set (start := physical_start _). set (n := number_of_pages _).
  intros (Hs & Hn & Hle). unfold PAGE_SIZE in Hle.
  rewrite (wrap_small 64 (n * PAGE_SIZE)) by (unfold in_range, PAGE_SIZE; lia).
  rewrite wrap_small by (unfold in_range, PAGE_SIZE; lia).
  rewrite align_down_spec, align_up_spec by (unfold in_range, PAGE_SIZE; lia).
  intros (i & -> & Hi%elem_of_seqZ)%list_elem_of_fmap. unfold low_page, PAGE_SIZE in *.
  set (a := start / 4096) in *. set (b := (start + n * 4096 + 4096 - 1) / 4096) in *.
  assert (b < 2 ^ 35 + 1) by (apply Z.div_lt_upper_bound; lia). assert (0 ≤ a) by (apply Z.div_pos; lia).
  assert ((b * 4096 - a * 4096 + 4096 - 1) / 4096 = b - a) as Hlen.
  { replace (b * 4096 - a * 4096 + 4096 - 1) with (4095 + (b - a) * 4096) by lia.
    rewrite Z.div_add by lia. change (4095 / 4096) with 0. lia. }
  rewrite Hlen in Hi. split; [lia|].
  replace (a * 4096 + i * 4096) with ((a + i) * 4096) by lia. by apply Z.mod_mul.
Qed.

Lemma fresh_root m F root :
  (∀ j, idx j → mem_read m (slot root j) = 0) → 0 ≤ root → root mod PAGE_SIZE = 0 → root / PAGE_SIZE ∉ F →
  pt_wf m F root ∧ ∀ π i, leaf_path π i → leaf_at m root π i = None.
Proof.
  intros Hz H0 Hm HF.
  assert (Hnone : ∀ i π, path (i :: π) → table_at m root (i :: π) = None).
  { intros i π [[Hi _]%Forall_cons _]. simpl. unfold step_table. by rewrite Hz. }
  split.
  - split.
    + intros [|i1 π1] [|i2 π2] a Hp1 Hp2; rewrite ?Hnone by done; done.
    + intros [|i π] a Hp; [|by rewrite Hnone]. by intros [= <-].
  - intros [|i π] j Hl; [by destruct Hl as (_ & ? & _)|].
    unfold leaf_at. by rewrite Hnone by (by eapply leaf_path_path).
Qed.

(** A freshly allocated root is an empty address space. *)
Lemma fresh_space s s1 root :
  pmm_wf (vm_pmm s) → vm_alloc_zeroed s = (s1, Some root) →
  low_page root ∧ pmm_wf (vm_pmm s1) ∧ pt_wf (vm_mem s1) (free_set (vm_pmm s1)) root ∧
  (∀ π i, leaf_path π i → leaf_at (vm_mem s1) root π i = None) ∧
  (∀ ρ u, path ρ → table_at (vm_mem s1) root ρ = Some u → u = root).
Proof.
  intros Hpmm E. destruct (vm_alloc_zeroed_spec s Hpmm) as
    [E'|(s2 & page & E' & Hin & Hr & Hfs & Hwf1 & Hz & _)]; rewrite E in E'; [done|].
  injection E' as -> ->. clear E.
  assert (low_page (page * PAGE_SIZE)) as Hlow.
  { unfold low_page, MAX_PAGES, PAGE_SIZE in *. split; [lia|by apply Z.mod_mul]. }
  destruct (fresh_root (vm_mem s2) (free_set (vm_pmm s2)) (page * PAGE_SIZE)) as [Hpt Hleaf].
  - done.
  - apply Hlow.
  - apply Hlow.
  - rewrite Z.div_mul, Hfs by done. set_solver.
  - split_and!; [done..|]. intros [|i π] u [Hpath _]; [by intros [= <-]|].
    apply Forall_cons in Hpath as [Hi _]. simpl. unfold step_table. by rewrite (Hz i Hi).
Qed.

Lemma device_pages_low p : p ∈ device_pages → low_page p.
Proof.
  unfold device_pages. intros [(i & -> & Hi%elem_of_seqZ)%list_elem_of_fmap|Hp]%elem_of_app.
  - unfold low_page, PAGE_SIZE. split; [lia|].
    replace (753664 + i * 4096) with ((184 + i) * 4096) by lia. by apply Z.mod_mul.
  - set_unfold in Hp. destruct Hp as [->|[->|[]]]; (split; [lia|done]).
Qed.

(** The state while [init] maps pages under the new root. *)
Definition init_inv (root : Z) (s : Vm) : Prop :=
  vm_ok s root ∧ identity_map s root ∧ active_pml4 s = root.

Lemma init_inv_map root s w p flags :
  init_inv root s → low_page p → flags_ok flags → (w = p ∨ w = HIGHER_HALF_BASE + p) →
  init_inv root (map_page_internal s root w p flags).1.
Proof.
  intros (Hok & Hid & Ha) Hp Hf Hw.
  destruct (identity_map_step s root w p flags Hok Hid Hp Hf Hw) as (? & ? & Ha').
  split_and!; [done|done|congruence].
Qed.

Lemma init_inv_ram root s flags p :
  init_inv root s → low_page p → flags_ok flags → init_inv root (map_ram_page root flags s p).
Proof.
  intros Hi Hp Hf. unfold map_ram_page.
  pose proof (init_inv_map root s p p flags Hi Hp Hf (or_introl eq_refl)) as H1.
  destruct (map_page_internal s root p p flags) as [s1 r]. cbn [fst] in H1.
  case_match; [|done]. apply init_inv_map; auto.
Qed.

(** [vm::init] under the root it takes first. *)
Lemma vm_init_inv s ds s' :
  pmm_wf (vm_pmm s) → Forall efi_wf ds → vm_init s ds = Some s' →
  ∃ s1 root, vm_alloc_zeroed s = (s1, Some root) ∧ init_inv root s'.
Proof.
  intros Hpmm Hds. unfold vm_init. destruct (vm_alloc_zeroed s) as [s1 [root|]] eqn:E; [|done].
  destruct (fresh_space s s1 root Hpmm E) as (Hroot & Hwf1 & Hpt & Hleaf & _). clear E.
  set (s2 := mkVm _ _ _ _ _ _).
  assert (H2 : init_inv root s2).
  { split_and!; [by split| |done]. intros v e Hv. unfold mapping.
    change (vm_mem s2) with (vm_mem s1). by rewrite !Hleaf by apply leaf_indices_ok. }
  assert (H3 : init_inv root (foldl (map_descriptor root) s2 ds)).
  { apply foldl_preserves; [done|]. intros a d Hd Ha. unfold map_descriptor. case_match; [done|].
    apply foldl_preserves; [done|]. intros b p Hp Hb. apply init_inv_ram; [done| |apply flags_for_descriptor_ok].
    rewrite Forall_forall in Hds. eapply region_pages_low; [|done]. by apply Hds. }
  pose proof (init_inv_map root _ root root kernel_rw H3 Hroot eq_refl (or_introl eq_refl)) as H4.
  destruct (map_page_internal _ root root root kernel_rw) as [s4 r4]. cbn [fst] in H4.
  set (s5 := foldl _ s4 device_pages). assert (H5 : init_inv root s5).
  { apply foldl_preserves; [done|]. intros a p Hp Ha.
    apply init_inv_map; [done|by apply device_pages_low|done|by left]. }
  clearbody s5. intros [= <-]. by exists s1, root.
Qed.

(** C11. After [vm::init] (with RAM below [2^47] and a page free for the root)
    the active address space is well formed and maps memory one to one: a
    mapped low page is its own frame, and a mapped higher-half page is the
    mirror of its frame. *)
Theorem vm_init_identity s ds s' :
  pmm_wf (vm_pmm s) → Forall efi_wf ds → vm_init s ds = Some s' →
  vm_ok s' (active_pml4 s') ∧ identity_map s' (active_pml4 s').
Proof.
  intros Hpmm Hds E. destruct (vm_init_inv s ds s' Hpmm Hds E) as (s1 & root & _ & Hok & Hid & Ha). by rewrite Ha.
Qed.

(** ** Witnesses *)

(** Sixty-four pages of conventional memory from [0x10000]. *)
Definition demo_vm : Vm := mkVm (init [mkDesc 7 0x10000 64]) ∅ 0 0 0 [].

Lemma demo_vm_pmm : pmm_wf (vm_pmm demo_vm).
Proof.
  assert (Forall desc_wf [mkDesc 7 0x10000 64]) as Hd by (repeat constructor; vm_compute; congruence).
  destruct (init_spec _ Hd) as (Ht & Hf & Hn). split.
  - vm_compute. split; congruence.
  - unfold demo_vm. cbn [vm_pmm]. rewrite Hn, Hf, size_list_to_set; [done|].
    apply (bool_decide_unpack _). vm_compute. exact I.
Qed.

(** An empty address space with its root in the first free page. *)
Definition demo_space : Vm :=
  let s := (vm_alloc_zeroed demo_vm).1 in
  mkVm (vm_pmm s) (vm_mem s) 0x10000 (mapped_pages s) (page_table_pages s) (invlpg s).

Lemma demo_space_fresh :
  vm_ok demo_space 0x10000 ∧ ∀ ρ u, path ρ → table_at (vm_mem demo_space) 0x10000 ρ = Some u → u = 0x10000.
Proof.
  assert (vm_alloc_zeroed demo_vm = ((vm_alloc_zeroed demo_vm).1, Some 0x10000)) as E.
  { rewrite (surjective_pairing (vm_alloc_zeroed demo_vm)) at 1. f_equal. }
  destruct (fresh_space demo_vm _ 0x10000 demo_vm_pmm E) as (_ & Hwf & Hpt & _ & Htab).
  clear E. unfold demo_space. revert Hwf Hpt Htab. generalize (vm_alloc_zeroed demo_vm).1.
  intros s1 Hwf Hpt Htab. split; [by split|done].
Qed.

Definition demo_flags : Z := Z.lor (Z.lor PF_PRESENT PF_WRITABLE) PF_USER.
Definition demo_mapped : Vm := (map_page_in_pml4 demo_space 0x10000 0x400000 0x30000 demo_flags).1.

Lemma map_page_correct_witness :
  (map_page_in_pml4 demo_space 0x10000 0x400000 0x30000 demo_flags).2 = Ok tt ∧
  mapping demo_mapped 0x10000 0x400000 = Some (pte_set 0x30000 demo_flags).
Proof.
  assert ((map_page_in_pml4 demo_space 0x10000 0x400000 0x30000 demo_flags).2 = Ok tt) as Hr
    by (vm_compute; reflexivity).
  split; [exact Hr|]. unfold demo_mapped.
  destruct (map_page_in_pml4 demo_space 0x10000 0x400000 0x30000 demo_flags) as [s' r] eqn:E.
  cbn [snd] in Hr. subst r. cbn [fst].
  destruct (map_page_correct demo_space 0x10000 0x400000 0x30000 demo_flags s' (Ok tt)) as (_ & _ & Hm);
    [exact (proj1 demo_space_fresh)|lia|reflexivity|reflexivity|exact E|].
  rewrite Hm. rewrite decide_True by reflexivity. reflexivity.
Defined.

Lemma demo_map_ok : ∃ s', map_page_in_pml4 demo_space 0x10000 0x400000 0x30000 demo_flags = (s', Ok tt).
Proof.
  assert ((map_page_in_pml4 demo_space 0x10000 0x400000 0x30000 demo_flags).2 = Ok tt) as Hr
    by (vm_compute; reflexivity).
  destruct (map_page_in_pml4 demo_space 0x10000 0x400000 0x30000 demo_flags) as [s' r].
  cbn [snd] in Hr. subst r. by exists s'.
Qed.

Lemma map_query_roundtrip_witness :
  ∃ s', map_page_in_pml4 demo_space 0x10000 0x400000 0x30000 demo_flags = (s', Ok tt) ∧
        query_mapping_in_pml4 s' 0x10000 0x400000 = (s', Ok (0x30000, pte_set 0x30000 demo_flags)).
Proof.
  destruct demo_map_ok as [s' E]. exists s'. split; [exact E|].
  apply (map_query_roundtrip demo_space 0x10000 0x400000 0x30000 demo_flags s');
    [exact (proj1 demo_space_fresh)|lia|reflexivity|split; [lia|reflexivity]|reflexivity|reflexivity|exact E].
Defined.

Lemma map_unmap_roundtrip_witness :
  ∃ s' s'', map_page_in_pml4 demo_space 0x10000 0x400000 0x30000 demo_flags = (s', Ok tt) ∧
    unmap_page_in_pml4 s' 0x10000 0x400000 = (s'', Ok tt) ∧ mapping s'' 0x10000 0x400000 = None.
Proof.
  destruct demo_map_ok as [s' E].
  destruct (map_unmap_roundtrip demo_space 0x10000 0x400000 0x30000 demo_flags s') as (s'' & Hu & _ & _ & Hm);
    [exact (proj1 demo_space_fresh)|lia|reflexivity|reflexivity|reflexivity|split; vm_compute; congruence|exact E|].
  exists s', s''. split; [exact E|]. split; [exact Hu|]. rewrite Hm. vm_compute. reflexivity.
Defined.

Lemma clone_kernel_mappings_correct_witness :
  ∃ s', clone_kernel_mappings demo_space 0x20000 = (s', Ok tt) ∧
        mapping s' 0x20000 0x400000 = None.
Proof.
  assert ((clone_kernel_mappings demo_space 0x20000).2 = Ok tt) as Hr by (vm_compute; reflexivity).
  destruct (clone_kernel_mappings demo_space 0x20000) as [s' r] eqn:E. cbn [snd] in Hr. subst r.
  exists s'. split; [reflexivity|].
  destruct (clone_kernel_mappings_correct demo_space 0x20000 s') with (v := 0x400000) as [_ H];
    [exact (proj1 demo_space_fresh)|vm_compute; discriminate|reflexivity| |exact E|].
  - intros ρ u Hρ Hu. rewrite (proj2 demo_space_fresh ρ u Hρ Hu). lia.
  - rewrite H. rewrite decide_True by (vm_compute; reflexivity). reflexivity.
Defined.

Definition demo_efi : list EfiDescriptor := [mkEfi (mkDesc 7 0x10000 4) EFI_MEMORY_WB].

Lemma vm_init_identity_witness :
  ∃ s', vm_init demo_vm demo_efi = Some s' ∧ identity_map s' (active_pml4 s').
Proof.
  assert (match vm_init demo_vm demo_efi with Some _ => true | None => false end = true) as H
    by (vm_compute; reflexivity).
  destruct (vm_init demo_vm demo_efi) as [s'|] eqn:E; [|discriminate H]. exists s'. split; [reflexivity|].
  apply (vm_init_identity demo_vm demo_efi s'); [exact demo_vm_pmm| |exact E].
  repeat constructor; vm_compute; discriminate.
Defined.
