(* ===== verification/VmRange.v ===== *)
(** * Ranges of pages

    Mapping and unmapping consecutive pages of the lower half, as updates of
    the mapping of [VmSafety.v]; shared by the region operations of the address
    spaces and of the shared memory. *)

From S2P Require Import Prelude Pmm PmmSafety Vm VmSafety VmInit.

Definition page_at (virt i : Z) : Z := virt + i * PAGE_SIZE.

(** The [n] pages from [virt] lie in the lower half. *)
Definition low_region (virt n : Z) : Prop := low_page virt ∧ 0 ≤ n ∧ virt + n * PAGE_SIZE ≤ 2 ^ 47.

Lemma low_region_page virt n i : low_region virt n → 0 ≤ i < n → low_page (page_at virt i).
Proof.
  unfold low_region, low_page, page_at, PAGE_SIZE. intros ([Hv Ha] & Hn & Hle) Hi. split; [lia|].
  by rewrite Z.mod_add.
Qed.

Lemma low_page_aligned v : low_page v → is_page_aligned v = true.
Proof. intros [_ Ha]. by apply Z.eqb_eq. Qed.

Lemma region_page_inj virt n i j :
  low_region virt n → 0 ≤ i < n → 0 ≤ j < n →
  leaf_indices (page_at virt i) = leaf_indices (page_at virt j) → i = j.
Proof.
  intros Hr Hi Hj E. apply low_inj in E; [|by eapply low_region_page..].
  unfold page_at, PAGE_SIZE in E. lia.
Qed.

Lemma aligned_wrap x : x mod PAGE_SIZE = 0 → is_page_aligned (wrap64 x) = true.
Proof.
  intros Hx. apply Z.eqb_eq. unfold wrap. change (2 ^ 64) with (PAGE_SIZE * 2 ^ 52).
  rewrite Z.rem_mul_r by done. rewrite Hx, Z.add_0_l, Z.mul_comm. by apply Z.mod_mul.
Qed.

(** ** Mapping a range *)

(** Pages [k .. k + c) of the region at [virt] were unmapped in [v] and have
    the frames [frame i] in [v']; nothing else differs. *)
Record range_mapped (root virt : Z) (frame : Z → Z) (flags k c : Z) (v v' : Vm) : Prop := {
  rm_ok : vm_ok v' root;
  rm_was : ∀ i, k ≤ i < k + c → mapping v root (page_at virt i) = None;
  rm_in : ∀ i w, k ≤ i < k + c → leaf_indices w = leaf_indices (page_at virt i) →
    mapping v' root w = Some (pte_set (frame i) flags);
  rm_out : ∀ w, (∀ i, k ≤ i < k + c → leaf_indices w ≠ leaf_indices (page_at virt i)) →
    mapping v' root w = mapping v root w;
}.

Lemma range_mapped_nil root virt frame flags k v : vm_ok v root → range_mapped root virt frame flags k 0 v v.
Proof. intros. split; [done|intros; lia|intros; lia|done]. Qed.

Lemma mapping_same s root v w : leaf_indices v = leaf_indices w → mapping s root v = mapping s root w.
Proof. unfold mapping. by intros ->. Qed.

(** One page and then the rest. *)
Lemma range_mapped_cons root virt frame flags N k c v v1 v2 :
  low_region virt N → 0 ≤ k → 0 ≤ c → k + 1 + c ≤ N → mapping v root (page_at virt k) = None →
  (∀ w, mapping v1 root w =
     if decide (leaf_indices w = leaf_indices (page_at virt k)) then Some (pte_set (frame k) flags)
     else mapping v root w) →
  range_mapped root virt frame flags (k + 1) c v1 v2 → range_mapped root virt frame flags k (c + 1) v v2.
Proof.
  intros Hlow Hk Hc HN Hnone Hm [Hok Hwas Hin Hout].
  assert (Hsep : ∀ i, k + 1 ≤ i < k + 1 + c → leaf_indices (page_at virt i) ≠ leaf_indices (page_at virt k)).
  { intros i Hi E. apply (region_page_inj virt N) in E; [lia|done|lia..]. }
  split; [done|..].
  - intros i Hi. destruct (decide (i = k)) as [->|]; [done|].
    specialize (Hwas i ltac:(lia)). rewrite Hm, decide_False in Hwas; [done|]. apply Hsep. lia.
  - intros i w Hi Hw. destruct (decide (i = k)) as [->|]; [|apply Hin; [lia|done]].
    rewrite Hout, Hm, decide_True; [done|done|]. intros j Hj. rewrite Hw. apply not_eq_sym, Hsep. lia.
  - intros w Hw. rewrite Hout, Hm, decide_False; [done|apply Hw; lia|]. intros i Hi. apply Hw. lia.
Qed.

Lemma range_mapped_ext root virt frame flags k c v v1 v2 :
  vm_ok v2 root → (∀ w, mapping v2 root w = mapping v1 root w) →
  range_mapped root virt frame flags k c v v1 → range_mapped root virt frame flags k c v v2.
Proof.
  intros Hok Hs [_ Hw Hi Ho]. split; [done|done|..].
  - intros i w ??. rewrite Hs. by eapply Hi.
  - intros w ?. rewrite Hs. by apply Ho.
Qed.

(** ** Unmapping a range *)

(** Pages [k .. k + c) are unmapped in [v'], the others as in [v]. *)
Record range_unmapped (root virt k c : Z) (v v' : Vm) : Prop := {
  ru_ok : vm_ok v' root;
  ru_in : ∀ i w, k ≤ i < k + c → leaf_indices w = leaf_indices (page_at virt i) → mapping v' root w = None;
  ru_out : ∀ w, (∀ i, k ≤ i < k + c → leaf_indices w ≠ leaf_indices (page_at virt i)) →
    mapping v' root w = mapping v root w;
}.

Lemma range_unmapped_cons root virt k c v v1 v2 :
  (∀ w, mapping v1 root w =
     if decide (leaf_indices w = leaf_indices (page_at virt k)) then None else mapping v root w) →
  0 ≤ c → range_unmapped root virt (k + 1) c v1 v2 → range_unmapped root virt k (c + 1) v v2.
Proof.
  intros Hm Hc [Hok Hin Hout]. split; [done|..].
  - intros i w Hi Hw. destruct (decide (k + 1 ≤ i)); [by apply (Hin i); [lia|]|].
    assert (i = k) as -> by lia. destruct (decide (mapping v2 root w = None)) as [|Hne]; [done|].
    rewrite Hout, Hm, decide_True; [done|done|]. intros j Hj E. destruct Hne. by apply (Hin j).
  - intros w Hw. rewrite Hout, Hm, decide_False; [done|apply Hw; lia|]. intros i Hi. apply Hw. lia.
Qed.

Lemma unmap_any root virt v v' r :
  vm_ok v root → root ≠ 0 → is_page_aligned virt = true →
  unmap_page_in_pml4 v root virt = (v', r) →
  vm_ok v' root ∧
  (∀ w, mapping v' root w = if decide (leaf_indices w = leaf_indices virt) then None else mapping v root w) ∧
  (is_Some (mapping v root virt) → r = Ok tt).
Proof.
  intros Hok Hr Hv E. apply unmap_spec in E as (Hok' & Hres); [|done..]. split; [done|].
  destruct r as [[]|e].
  - by destruct Hres as (_ & _ & ?).
  - destruct Hres as (_ & -> & Hn). split; [|by rewrite Hn; intros []].
    intros w. case_decide as Hd; [|done]. by rewrite (mapping_same _ _ _ _ Hd).
Qed.

Lemma rolled_back root virt frame flags c v v1 v2 :
  range_mapped root virt frame flags 0 c v v1 → range_unmapped root virt 0 c v1 v2 →
  ∀ w, mapping v2 root w = mapping v root w.
Proof.
  intros [_ Hwas Hin Hout] [_ Hun Hkeep] w.
  destruct (decide (Exists (λ i, leaf_indices w = leaf_indices (page_at virt i)) (seqZ 0 c))) as [Hex|Hno].
  - apply Exists_exists in Hex as (i & Hi%elem_of_seqZ & Hw).
    rewrite (Hun i w), (mapping_same _ _ _ _ Hw), Hwas by done || lia. done.
  - assert (∀ i, 0 ≤ i < 0 + c → leaf_indices w ≠ leaf_indices (page_at virt i)) as Hne.
    { intros i Hi E. apply Hno, Exists_exists. exists i. split; [apply elem_of_seqZ; lia|done]. }
    by rewrite Hkeep, Hout.
Qed.

Lemma range_unmapped_ext root virt k c v v1 v2 :
  (∀ w, mapping v root w = mapping v1 root w) →
  range_unmapped root virt k c v v2 → range_unmapped root virt k c v1 v2.
Proof. intros Hs [Ho Hi Hk]. split; [done..|]. intros w Hw. by rewrite Hk, Hs. Qed.

(** ** Operations on the tables of a root, whatever their arguments *)

Record evolves (s s' : Vm) (root : Z) : Prop := {
  ev_ok : vm_ok s' root;
  ev_grows : grows s s' root;
  ev_active : active_pml4 s' = active_pml4 s;
}.

Lemma evolves_refl s root : vm_ok s root → evolves s s root.
Proof. intros. split; [done|apply grows_refl|done]. Qed.

Lemma evolves_trans s1 s2 s3 root : evolves s1 s2 root → evolves s2 s3 root → evolves s1 s3 root.
Proof. intros [] []. split; [done|by eapply grows_trans|congruence]. Qed.

Lemma map_pml4_evolves s root virt phys flags s' r :
  vm_ok s root → map_page_in_pml4 s root virt phys flags = (s', r) → evolves s s' root.
Proof.
  intros Hok. unfold map_page_in_pml4.
  destruct (negb _ || negb _); [intros [= <- <-]; by apply evolves_refl|].
  destruct (root =? 0); [intros [= <- <-]; by apply evolves_refl|].
  intros E. pose proof (map_internal_grows _ _ _ _ _ _ _ Hok E).
  apply map_internal_spec in E as (? & ? & _); [|done]. by split.
Qed.

Lemma unmap_pml4_evolves s root virt s' r :
  vm_ok s root → unmap_page_in_pml4 s root virt = (s', r) → evolves s s' root.
Proof.
  intros Hok E. destruct (is_page_aligned virt) eqn:Hv; [destruct (Z.eq_dec root 0) as [Hz|Hr]|].
  - unfold unmap_page_in_pml4 in E. rewrite Hv, Hz in E. injection E as <- <-. by apply evolves_refl.
  - destruct (unmap_grows _ _ _ _ _ Hok Hr Hv E) as [Hg Ha].
    apply unmap_spec in E as (? & _); [|done..]. by split.
  - unfold unmap_page_in_pml4 in E. rewrite Hv in E. injection E as <- <-. by apply evolves_refl.
Qed.
