(* ===== verification/VmPages.v ===== *)
(** * Pages held beside the page tables

    Taking pages from the allocator and giving them back, while the tables of
    an address space stay as they are: what the shared memory and the loader
    do between mappings. *)

From S2P Require Import Prelude Pmm PmmSafety Vm VmSafety VmInit VmRange.

(** Addresses of pages. *)
Abbreviation pages_of := (fmap (λ q, q * PAGE_SIZE)).

(** ** Allocating and releasing pages beside the page tables *)

(** Same tables, entries and active root. *)
Record same_tables (s s' : Vm) (root : Z) : Prop := {
  st_tables : ∀ ρ, path ρ → table_at (vm_mem s') root ρ = table_at (vm_mem s) root ρ;
  st_mapping : ∀ w, mapping s' root w = mapping s root w;
  st_active : active_pml4 s' = active_pml4 s;
  st_total : total_pages (vm_pmm s') = total_pages (vm_pmm s);
}.

Lemma same_tables_refl s root : same_tables s s root.
Proof. done. Qed.

Lemma same_tables_trans s1 s2 s3 root : same_tables s1 s2 root → same_tables s2 s3 root → same_tables s1 s3 root.
Proof.
  intros [] []. split; [|intros; congruence|congruence..].
  intros ρ Hρ. rewrite st_tables1, st_tables0; done.
Qed.

(** Memory that changes in free pages only leaves the tables alone. *)
Lemma tables_frame s s' root :
  vm_ok s root →
  (∀ a, a / PAGE_SIZE ∉ free_set (vm_pmm s) → mem_read (vm_mem s') a = mem_read (vm_mem s) a) →
  active_pml4 s' = active_pml4 s → total_pages (vm_pmm s') = total_pages (vm_pmm s) →
  same_tables s s' root.
Proof.
  intros [_ Hpt] Hm Ha Ht.
  assert (Hslot : ∀ ρ u j, path ρ → table_at (vm_mem s) root ρ = Some u → idx j →
    mem_read (vm_mem s') (slot u j) = mem_read (vm_mem s) (slot u j)).
  { intros ρ u j Hρ Hu Hj. destruct (pt_page _ _ _ Hpt _ _ Hρ Hu) as (_ & Hum & Hn). apply Hm.
    by rewrite slot_page. }
  assert (Htab : ∀ ρ, path ρ → table_at (vm_mem s') root ρ = table_at (vm_mem s) root ρ).
  { apply table_at_step_ext. intros ρ u j Hρ Hu. pose proof Hρ as (_ & Hj & _)%path_snoc.
    unfold step_table. by rewrite (Hslot ρ u j (path_prefix _ _ Hρ) Hu Hj). }
  split; [done| |done|done]. intros w. unfold mapping, leaf_at.
  pose proof (leaf_indices_ok w) as Hl. pose proof (leaf_path_path _ _ Hl) as Hρ. rewrite Htab by done.
  destruct (table_at (vm_mem s) root (leaf_indices w).1) as [u|] eqn:Hu; [|done]. cbn [mbind option_bind].
  destruct Hl as (_ & _ & Hj). by rewrite (Hslot _ u _ Hρ Hu Hj).
Qed.

Lemma in_page a q : q * PAGE_SIZE ≤ a < q * PAGE_SIZE + PAGE_SIZE → a / PAGE_SIZE = q.
Proof. intros Ha. symmetry. apply (Z.div_unique _ _ _ (a - q * PAGE_SIZE)); unfold PAGE_SIZE in *; lia. Qed.

Lemma alloc_keeps s root s' a :
  vm_ok s root → vm_alloc_zeroed s = (s', Some a) →
  ∃ q, a = q * PAGE_SIZE ∧ q ∈ free_set (vm_pmm s) ∧ free_set (vm_pmm s') = free_set (vm_pmm s) ∖ {[q]} ∧
    vm_ok s' root ∧ same_tables s s' root ∧ (∀ j, idx j → mem_read (vm_mem s') (slot a j) = 0) ∧
    (∀ b, ¬ (a ≤ b < a + PAGE_SIZE) → mem_read (vm_mem s') b = mem_read (vm_mem s) b).
Proof.
  intros Hok E. destruct (vm_alloc_zeroed_spec s (vo_pmm _ _ Hok)) as
    [E'|(s1 & q & E' & Hin & Hr & Hfs & Hwf & Hz & Hm & Ha & _ & _ & Ht)]; rewrite E in E'; [done|].
  injection E' as -> ->. exists q.
  assert (same_tables s s1 root) as Hst.
  { apply tables_frame; [done| |done|done]. intros b Hb. apply Hm. by intros <-%in_page. }
  split_and!; try done. split; [done|].
  eapply pt_wf_ext; [apply Hst| |apply Hok]. rewrite Hfs. by apply subseteq_difference_l.
Qed.

Lemma alloc_none s s' : pmm_wf (vm_pmm s) → vm_alloc_zeroed s = (s', None) → s' = s ∧ free_set (vm_pmm s) = ∅.
Proof.
  intros Hwf. unfold vm_alloc_zeroed, alloc_page_zeroed.
  destruct (alloc_page_spec _ Hwf) as [[-> ?]|(q & p' & -> & _)]; [|done].
  intros [= <-]. split; [by destruct s|done].
Qed.

(** Releasing pages that are not tables. *)
Lemma release_pages root qs s :
  vm_ok s root → Forall (λ q, 0 ≤ q < total_pages (vm_pmm s)) qs →
  (∀ q ρ, q ∈ qs → path ρ → table_at (vm_mem s) root ρ ≠ Some (q * PAGE_SIZE)) →
  let s' := foldl vm_free_page s (pages_of qs) in
  vm_ok s' root ∧ free_set (vm_pmm s') = list_to_set qs ∪ free_set (vm_pmm s) ∧
  same_tables s s' root ∧ vm_mem s' = vm_mem s.
Proof.
  revert s. induction qs as [|q qs IH]; intros s Hok Hr Hnt.
  { simpl. split_and!; [done|set_solver|done|done]. }
  rewrite fmap_cons. cbn [foldl].
  apply Forall_cons in Hr as [Hq Hr]. pose proof Hok as [Hpmm Hpt].
  destruct (free_page_spec _ q Hpmm Hq) as (Ht1 & Hf1 & Hwf1).
  set (s1 := vm_free_page s (q * PAGE_SIZE)).
  assert (vm_ok s1 root) as Hok1.
  { split; [done|]. destruct Hpt as [Hinj Hpage]. split; [exact Hinj|].
    intros ρ a Hρ Ha. destruct (Hpage _ _ Hρ Ha) as (H0 & Hm & Hn). split_and!; [done|done|].
    cbn [vm_pmm s1 vm_free_page]. rewrite Hf1, not_elem_of_union, not_elem_of_singleton. split; [|done].
    intros E. apply (Hnt q ρ ltac:(left) Hρ). etransitivity; [exact Ha|]. f_equal.
    apply Z.div_exact in Hm; [|done]. lia. }
  destruct (IH s1) as (Hok' & Hf' & Hst & Hmem); [done| | |].
  - cbn [vm_pmm s1 vm_free_page]. by rewrite Ht1.
  - intros q' ρ Hq'. apply Hnt. set_solver.
  - split_and!; [done| | |done].
    + rewrite Hf'. cbn [vm_pmm s1 vm_free_page]. rewrite Hf1. set_solver.
    + eapply same_tables_trans; [|exact Hst]. split; [done|done|done|exact Ht1].
Qed.

(** Pages [qs] have been taken from [s0]. *)
Record taken (root : Z) (s0 s : Vm) (qs : list Z) : Prop := {
  tk_ok : vm_ok s root;
  tk_tables : same_tables s0 s root;
  tk_nodup : NoDup qs;
  tk_sub : ∀ q, q ∈ qs → q ∈ free_set (vm_pmm s0);
  tk_free : free_set (vm_pmm s) = free_set (vm_pmm s0) ∖ list_to_set qs;
  tk_zero : ∀ q j, q ∈ qs → idx j → mem_read (vm_mem s) (slot (q * PAGE_SIZE) j) = 0;
  tk_mem : ∀ b, (∀ q, q ∈ qs → ¬ (q * PAGE_SIZE ≤ b < q * PAGE_SIZE + PAGE_SIZE)) →
    mem_read (vm_mem s) b = mem_read (vm_mem s0) b;
}.

Lemma taken_refl root s : vm_ok s root → taken root s s [].
Proof. intros Hok. split; try done; [constructor|set_solver|set_solver|set_solver]. Qed.

Lemma taken_snoc root s0 s qs s' a :
  taken root s0 s qs → vm_alloc_zeroed s = (s', Some a) →
  ∃ q, a = q * PAGE_SIZE ∧ taken root s0 s' (qs ++ [q]).
Proof.
  intros [Hok Hst Hnd Hsub Hfree Hzero Hmem] E.
  apply (alloc_keeps s root) in E as (q & -> & Hin & Hf & Hok' & Hst' & Hz & Hm); [|done].
  exists q. split; [done|]. rewrite Hfree in Hin. assert (q ∉ qs) as Hq by set_solver.
  assert (Hoff : ∀ q' j, q' ≠ q → idx j →
    ¬ (q * PAGE_SIZE ≤ slot (q' * PAGE_SIZE) j < q * PAGE_SIZE + PAGE_SIZE))
    by (intros q' j; unfold slot, idx, PAGE_SIZE; lia).
  split; [done|by eapply same_tables_trans|..].
  - apply NoDup_app. split_and!; [done|set_solver|apply NoDup_singleton].
  - set_solver.
  - rewrite Hf, Hfree, list_to_set_app_L. set_solver.
  - intros q' j [Hq'|Hq']%elem_of_app Hj; [|by apply list_elem_of_singleton in Hq' as ->; apply Hz].
    rewrite Hm; [by apply Hzero|]. apply Hoff; [set_solver|done].
  - intros b Hb. rewrite Hm, Hmem; [done|set_solver|set_solver].
Qed.

(** Giving back everything that was taken. *)
Lemma taken_release root s0 s qs :
  vm_ok s0 root → taken root s0 s qs →
  let s' := foldl vm_free_page s (pages_of qs) in
  vm_ok s' root ∧ free_set (vm_pmm s') = free_set (vm_pmm s0) ∧ same_tables s0 s' root.
Proof.
  intros Hok0 [Hok Hst Hnd Hsub Hfree _ _].
  destruct (release_pages root qs s) as (Hok' & Hf & Hst' & _); [done| | |].
  - apply Forall_forall. intros q Hq. rewrite (st_total _ _ _ Hst). by apply free_set_lt, Hsub.
  - intros q ρ Hq Hρ. rewrite (st_tables _ _ _ Hst) by done. intros Ht.
    destruct (pt_page _ _ _ (vo_pt _ _ Hok0) _ _ Hρ Ht) as (_ & _ & Hn).
    rewrite Z.div_mul in Hn by done. by apply Hn, Hsub.
  - split_and!; [done| |by eapply same_tables_trans]. rewrite Hf, Hfree. apply set_eq. intros q.
    rewrite elem_of_union, elem_of_difference, elem_of_list_to_set.
    destruct (decide (q ∈ qs)); [|naive_solver]. split; [naive_solver|by left].
Qed.

Lemma align_up_range x : in_range 64 x → align_up x mod PAGE_SIZE = 0 ∧ 0 ≤ align_up x.
Proof.
  intros Hx. unfold align_up. rewrite not_low_mask.
  - split; [by apply Z.mod_mul|]. unfold wrap, PAGE_SIZE.
    pose proof (Z.mod_pos_bound (x + 4096 - 1) (2 ^ 64) ltac:(lia)) as Hb.
    pose proof (Z.div_pos _ 4096 (proj1 Hb)). lia.
  - unfold in_range, wrap. apply Z.mod_pos_bound. lia.
Qed.


(** ** Holding pages while the tables evolve *)

(** [s] is reached from [s0] by taking pages, building tables of [root] and
    using the pages of [Q]: the pages of [Q] were free, are no longer free and
    are not tables; every other page taken from the free ones is a table of
    [root]; and memory changed only in pages that were free or tables. *)
Record holds (root : Z) (s0 s : Vm) (Q : gset Z) : Prop := {
  hd_ok : vm_ok s root;
  hd_active : active_pml4 s = active_pml4 s0;
  hd_total : total_pages (vm_pmm s) = total_pages (vm_pmm s0);
  hd_free : free_set (vm_pmm s) ⊆ free_set (vm_pmm s0);
  hd_own : Q ⊆ free_set (vm_pmm s0);
  hd_busy : Q ## free_set (vm_pmm s);
  hd_notab : ∀ q ρ, q ∈ Q → path ρ → table_at (vm_mem s) root ρ ≠ Some (q * PAGE_SIZE);
  hd_used : ∀ q, q ∈ free_set (vm_pmm s0) →
    q ∈ free_set (vm_pmm s) ∨ q ∈ Q ∨ ∃ ρ, path ρ ∧ table_at (vm_mem s) root ρ = Some (q * PAGE_SIZE);
  hd_keep : ∀ ρ u, path ρ → table_at (vm_mem s0) root ρ = Some u → table_at (vm_mem s) root ρ = Some u;
  hd_new : ∀ ρ u, path ρ → table_at (vm_mem s) root ρ = Some u →
    table_at (vm_mem s0) root ρ = Some u ∨ u / PAGE_SIZE ∈ free_set (vm_pmm s0);
  hd_mem : ∀ a, a / PAGE_SIZE ∉ free_set (vm_pmm s0) →
    (∀ ρ u, path ρ → table_at (vm_mem s0) root ρ = Some u → u / PAGE_SIZE ≠ a / PAGE_SIZE) →
    mem_read (vm_mem s) a = mem_read (vm_mem s0) a;
}.

Lemma holds_refl root s : vm_ok s root → holds root s s ∅.
Proof. intros. split; try done; [set_solver..|auto|auto]. Qed.

Lemma table_page root s ρ u q :
  vm_ok s root → path ρ → table_at (vm_mem s) root ρ = Some u → u / PAGE_SIZE = q → u = q * PAGE_SIZE.
Proof.
  intros Hok Hρ Hu <-. destruct (pt_page _ _ _ (vo_pt _ _ Hok) _ _ Hρ Hu) as (_ & Hm & _).
  apply Z.div_exact in Hm; [lia|done].
Qed.

Lemma free_not_table root s q ρ :
  vm_ok s root → q ∈ free_set (vm_pmm s) → path ρ → table_at (vm_mem s) root ρ ≠ Some (q * PAGE_SIZE).
Proof.
  intros Hok Hq Hρ Hu. destruct (pt_page _ _ _ (vo_pt _ _ Hok) _ _ Hρ Hu) as (_ & _ & Hn).
  by rewrite Z.div_mul in Hn.
Qed.

Lemma holds_taken root s0 s s' Q qs :
  holds root s0 s Q → taken root s s' qs → holds root s0 s' (Q ∪ list_to_set qs).
Proof.
  intros [] [Hok [Htab _ Hact Htot] _ Hsub Hfree _ Hmem]. split; [done|congruence|congruence|..].
  - rewrite Hfree. set_solver.
  - set_solver.
  - rewrite Hfree. set_solver.
  - intros q ρ [Hq|Hq%elem_of_list_to_set]%elem_of_union Hρ; rewrite Htab by done; [by apply hd_notab0|].
    apply free_not_table; [done|by apply Hsub|done].
  - intros q Hq. rewrite Hfree. destruct (hd_used0 q Hq) as [H|[H|(ρ & Hρ & H)]]; [|set_solver|].
    + destruct (decide (q ∈ qs)); set_solver.
    + right; right. exists ρ. by rewrite Htab.
  - intros ρ u Hρ Hu. rewrite Htab by done. by apply hd_keep0.
  - intros ρ u Hρ. rewrite Htab by done. by apply hd_new0.
  - intros a Ha Ht. rewrite Hmem; [by apply hd_mem0|]. intros q Hq Hr%in_page. subst q.
    apply Ha, hd_free0, Hsub, Hq.
Qed.

Lemma holds_evolves root s0 s s' Q :
  holds root s0 s Q → evolves s s' root →
  holds root s0 s' Q ∧ ∀ a, a / PAGE_SIZE ∈ Q → mem_read (vm_mem s') a = mem_read (vm_mem s) a.
Proof.
  intros [] [Hok [Ht Hf Hn Hk Hu Hm] Hact]. split; [split; [done|congruence|congruence|..]|].
  - by etrans.
  - done.
  - set_solver.
  - intros q ρ Hq Hρ [Hx|Hx]%Hn; [by eapply hd_notab0|..|done]. rewrite Z.div_mul in Hx by done. set_solver.
  - intros q Hq. destruct (hd_used0 q Hq) as [H|[H|(ρ & Hρ & H)]]; [|by auto|].
    + destruct (Hu q H) as [?|?]; by auto.
    + right; right. eauto.
  - intros ρ u Hρ Hx. by apply Hk, hd_keep0.
  - intros ρ u Hρ [Hx|Hx]%Hn; [by apply hd_new0|by right; apply hd_free0|done].
  - intros a Ha Hnt. rewrite Hm; [by apply hd_mem0|by intros ?%hd_free0|].
    intros ρ u Hρ [Hx|Hx]%hd_new0; [by eapply Hnt|congruence|done].
  - intros a Ha. apply Hm; [set_solver|]. intros ρ u Hρ Hx E.
    apply (hd_notab0 _ ρ Ha Hρ). rewrite Hx. f_equal. exact (table_page root s ρ u _ hd_ok0 Hρ Hx E).
Qed.

(** Writing inside the pages of [Q]. *)
Lemma holds_write root s0 s s' Q :
  holds root s0 s Q → vm_pmm s' = vm_pmm s → active_pml4 s' = active_pml4 s →
  (∀ a, a / PAGE_SIZE ∉ Q → mem_read (vm_mem s') a = mem_read (vm_mem s) a) →
  holds root s0 s' Q ∧ same_tables s s' root.
Proof.
  intros [] Hp Hact Hmem.
  assert (Hslot : ∀ ρ u j, path ρ → table_at (vm_mem s) root ρ = Some u → idx j →
    mem_read (vm_mem s') (slot u j) = mem_read (vm_mem s) (slot u j)).
  { intros ρ u j Hρ Hu Hj. destruct (pt_page _ _ _ (vo_pt _ _ hd_ok0) _ _ Hρ Hu) as (_ & Hm & _).
    apply Hmem. rewrite slot_page by done. intros Hq. apply (hd_notab0 _ ρ Hq Hρ). rewrite Hu. f_equal.
    exact (table_page root s ρ u _ hd_ok0 Hρ Hu eq_refl). }
  assert (Htab : ∀ ρ, path ρ → table_at (vm_mem s') root ρ = table_at (vm_mem s) root ρ).
  { apply table_at_step_ext. intros ρ u j Hρ Hu. pose proof Hρ as (_ & Hj & _)%path_snoc.
    unfold step_table. by rewrite (Hslot ρ u j (path_prefix _ _ Hρ) Hu Hj). }
  split.
  - split; rewrite ?Hp; try done; [|congruence|..].
    + split; [by rewrite Hp; apply hd_ok0|]. rewrite Hp. eapply pt_wf_ext; [exact Htab|reflexivity|apply hd_ok0].
    + intros q ρ Hq Hρ. rewrite Htab by done. by apply hd_notab0.
    + intros q Hq. destruct (hd_used0 q Hq) as [H|[H|(ρ & Hρ & H)]]; [by auto|by auto|].
      right; right. exists ρ. by rewrite Htab.
    + intros ρ u Hρ Hu. rewrite Htab by done. by apply hd_keep0.
    + intros ρ u Hρ. rewrite Htab by done. by apply hd_new0.
    + intros a Ha Hnt. rewrite Hmem; [by apply hd_mem0|]. intros Hq. by apply Ha, hd_own0.
  - split; [done| |done|by rewrite Hp]. intros w. unfold mapping, leaf_at.
    pose proof (leaf_indices_ok w) as Hl. pose proof (leaf_path_path _ _ Hl) as Hρ. rewrite Htab by done.
    destruct (table_at (vm_mem s) root (leaf_indices w).1) as [u|] eqn:Hu; [|done]. cbn [mbind option_bind].
    destruct Hl as (_ & _ & Hj). by rewrite (Hslot _ u _ Hρ Hu Hj).
Qed.

Lemma holds_release root s0 s Q qs :
  holds root s0 s Q → list_to_set qs ⊆ Q →
  let s' := foldl vm_free_page s (pages_of qs) in
  holds root s0 s' (Q ∖ list_to_set qs) ∧ same_tables s s' root.
Proof.
  intros [] Hsub. destruct (release_pages root qs s) as (Hok & Hf & [Htab Hmap Hact Htot] & Hmem); [done| | |].
  - apply Forall_forall. intros q Hq. rewrite hd_total0. apply free_set_lt. set_solver.
  - intros q ρ Hq. apply hd_notab0. set_solver.
  - set (s' := foldl _ _ _) in *. clearbody s'. split; [|done]. split; [done|congruence|congruence|..].
    + rewrite Hf. set_solver.
    + set_solver.
    + rewrite Hf. set_solver.
    + intros q ρ Hq Hρ. rewrite Htab by done. apply hd_notab0; [set_solver|done].
    + intros q Hq. rewrite Hf. destruct (hd_used0 q Hq) as [H|[H|(ρ & Hρ & H)]]; [set_solver| |].
      * destruct (decide (q ∈ qs)); set_solver.
      * right; right. exists ρ. by rewrite Htab.
    + intros ρ u Hρ Hu. rewrite Htab by done. by apply hd_keep0.
    + intros ρ u Hρ. rewrite Htab by done. by apply hd_new0.
    + intros a Ha Hnt. rewrite Hmem. by apply hd_mem0.
Qed.
