(* ===== verification/AddrSpace.v ===== *)
(** * Address spaces

    Models [kernel/src/mm/addrspace.rs]: the table of user address spaces and
    the region operations on them (create, destroy, map, unmap, remap), over
    the virtual memory of [Vm.v]. *)

From S2P Require Import Prelude Pmm Vm.

Definition KERNEL_BASE : Z := 0xFFFF800000000000.
Definition USER_CANONICAL_MAX : Z := 0x00007FFFFFFFFFFF.
Definition MAX_REGION_SIZE : Z := 256 * 1024 * 1024.

Record AddressSpace := mkSpace {
  as_id : Z;
  as_pml4_phys : Z;
  as_owner : Z;
  as_mapping_count : Z;
}.

Inductive AddressSpaceError :=
| AsNotFound | AsOutOfMemory | AsPermissionDenied | AsInvalidAddress | AsInvalidSize
| AsKernelSpaceViolation | AsInUse | AsAlreadyMapped | AsNotMapped | AsKernelMappingSetupFailed.

#[export] Instance AddressSpaceError_eq_dec : EqDecision AddressSpaceError.
Proof. solve_decision. Defined.

(** [AddressSpaceManager] with the [AddressSpaceId] counter and the virtual
    memory it acts on. *)
Record AsManager := mkAsm { as_vm : Vm; spaces : gmap Z AddressSpace; next_space : Z }.

Definition set_as_vm (m : AsManager) (v : Vm) : AsManager := mkAsm v (spaces m) (next_space m).

Definition set_space (m : AsManager) (id : Z) (sp : AddressSpace) : AsManager :=
  mkAsm (as_vm m) (<[id := sp]> (spaces m)) (next_space m).

Definition inc_mappings (sp : AddressSpace) (count : Z) : AddressSpace :=
  mkSpace (as_id sp) (as_pml4_phys sp) (as_owner sp) (saturating_add 64 (as_mapping_count sp) count).

Definition dec_mappings (sp : AddressSpace) (count : Z) : AddressSpace :=
  mkSpace (as_id sp) (as_pml4_phys sp) (as_owner sp) (saturating_sub (as_mapping_count sp) count).

(** [AddressSpace::new]; the identifier counter is part of the manager. *)
Definition AddressSpace_new (m : AsManager) (owner : Z) : AsManager * result AddressSpace AddressSpaceError :=
  match vm_alloc_zeroed (as_vm m) with
  | (v, None) => (set_as_vm m v, Err AsOutOfMemory)
  | (v, Some pml4_phys) =>
      match clone_kernel_mappings v pml4_phys with
      | (v, Err _) => (set_as_vm m (vm_free_page v pml4_phys), Err AsKernelMappingSetupFailed)
      | (v, Ok _) =>
          let id := next_space m in
          (mkAsm v (spaces m) (wrap64 (id + 1)), Ok (mkSpace id pml4_phys owner 0))
      end
  end.

Definition create_address_space (m : AsManager) (owner : Z) : AsManager * result Z AddressSpaceError :=
  match AddressSpace_new m owner with
  | (m, Err e) => (m, Err e)
  | (m, Ok addrspace) => (set_space m (as_id addrspace) addrspace, Ok (as_id addrspace))
  end.

(** [Drop for AddressSpace] *)
Definition AddressSpace_drop (v : Vm) (sp : AddressSpace) : Vm := vm_free_page v (as_pml4_phys sp).

(** [destroy]; the removed [AddressSpace] is dropped. *)
Definition destroy_address_space (m : AsManager) (id caller : Z)
    : AsManager * result unit AddressSpaceError :=
  match spaces m !! id with
  | None => (m, Err AsNotFound)
  | Some sp =>
      if negb (as_owner sp =? caller) then (m, Err AsPermissionDenied)
      else if 0 <? as_mapping_count sp then (m, Err AsInUse)
      else
        (mkAsm (AddressSpace_drop (as_vm m) sp) (delete id (spaces m)) (next_space m), Ok tt)
  end.

(** The rollback loop of [map_region]: how many pages could be unmapped. *)
Fixpoint rollback (pml4 virt_addr : Z) (is_ : list Z) (v : Vm) (rolled_back : Z) : Vm * Z :=
  match is_ with
  | [] => (v, rolled_back)
  | i :: is_ =>
      match unmap_page_in_pml4 v pml4 (virt_addr + i * PAGE_SIZE) with
      | (v, Ok _) => rollback pml4 virt_addr is_ v (rolled_back + 1)
      | (v, Err _) => rollback pml4 virt_addr is_ v rolled_back
      end
  end.

(** The mapping loop of [map_region]: the pages mapped so far, and the error
    that stopped it. *)
Fixpoint map_loop (pml4 virt_addr phys_addr flags : Z) (is_ : list Z) (v : Vm) (mapped : Z)
    : Vm * Z * option VmError :=
  match is_ with
  | [] => (v, mapped, None)
  | i :: is_ =>
      match map_page_in_pml4 v pml4 (virt_addr + i * PAGE_SIZE)
              (wrap64 (phys_addr + i * PAGE_SIZE)) flags with
      | (v, Ok _) => map_loop pml4 virt_addr phys_addr flags is_ v (mapped + 1)
      | (v, Err e) => (v, mapped, Some e)
      end
  end.

Definition map_region (m : AsManager) (id caller virt_addr phys_addr size flags : Z)
    : AsManager * result unit AddressSpaceError :=
  if negb (is_page_aligned virt_addr) || negb (is_page_aligned phys_addr) then (m, Err AsInvalidAddress)
  else if size =? 0 then (m, Err AsInvalidSize)
  else if MAX_REGION_SIZE <? size then (m, Err AsInvalidSize)
  else if USER_CANONICAL_MAX <? virt_addr then (m, Err AsInvalidAddress)
  else if KERNEL_BASE <=? virt_addr then (m, Err AsKernelSpaceViolation)
  else
    let region_end := saturating_add 64 virt_addr size in
    if USER_CANONICAL_MAX <? region_end then (m, Err AsInvalidSize)
    else if KERNEL_BASE <? region_end then (m, Err AsKernelSpaceViolation)
    else
      match spaces m !! id with
      | None => (m, Err AsNotFound)
      | Some sp =>
          if negb (as_owner sp =? caller) then (m, Err AsPermissionDenied)
          else
            let num_pages := align_up size / PAGE_SIZE in
            match map_loop (as_pml4_phys sp) virt_addr phys_addr flags (seqZ 0 num_pages) (as_vm m) 0 with
            | (v, mapped, None) =>
                (set_space (set_as_vm m v) id (inc_mappings sp mapped), Ok tt)
            | (v, mapped, Some _) =>
                let '(v, rolled_back) := rollback (as_pml4_phys sp) virt_addr (seqZ 0 mapped) v 0 in
                let remaining := saturating_sub mapped rolled_back in
                let m := set_as_vm m v in
                (if 0 <? remaining then set_space m id (inc_mappings sp remaining) else m,
                 Err AsAlreadyMapped)
            end
      end.

(** A loop of [unmap_page_in_pml4] whose errors are only logged. *)
Fixpoint unmap_loop (pml4 virt_addr : Z) (is_ : list Z) (v : Vm) : Vm :=
  match is_ with
  | [] => v
  | i :: is_ =>
      unmap_loop pml4 virt_addr is_ (unmap_page_in_pml4 v pml4 (wrap64 (virt_addr + i * PAGE_SIZE))).1
  end.

Definition unmap_region (m : AsManager) (id caller virt_addr size : Z)
    : AsManager * result unit AddressSpaceError :=
  if negb (is_page_aligned virt_addr) then (m, Err AsInvalidAddress)
  else if USER_CANONICAL_MAX <? virt_addr then (m, Err AsInvalidAddress)
  else if size =? 0 then (m, Err AsInvalidSize)
  else if KERNEL_BASE <=? virt_addr then (m, Err AsKernelSpaceViolation)
  else
    let region_end := saturating_add 64 virt_addr size in
    if USER_CANONICAL_MAX <? region_end then (m, Err AsInvalidSize)
    else if KERNEL_BASE <? region_end then (m, Err AsKernelSpaceViolation)
    else
      match spaces m !! id with
      | None => (m, Err AsNotFound)
      | Some sp =>
          if negb (as_owner sp =? caller) then (m, Err AsPermissionDenied)
          else
            let num_pages := align_up size / PAGE_SIZE in
            let v := unmap_loop (as_pml4_phys sp) virt_addr (seqZ 0 num_pages) (as_vm m) in
            (set_space (set_as_vm m v) id (dec_mappings sp num_pages), Ok tt)
      end.

(** The query loop of [remap_region]; [None] when a page is not mapped. *)
Fixpoint query_loop (pml4 virt_addr : Z) (is_ : list Z) (v : Vm) : Vm * option (list (Z * Z)) :=
  match is_ with
  | [] => (v, Some [])
  | i :: is_ =>
      match query_mapping_in_pml4 v pml4 (wrap64 (virt_addr + i * PAGE_SIZE)) with
      | (v, Err _) => (v, None)
      | (v, Ok x) =>
          match query_loop pml4 virt_addr is_ v with
          | (v, None) => (v, None)
          | (v, Some l) => (v, Some (x :: l))
          end
      end
  end.

(** The final loop of [remap_region]; it stops at the first error. *)
Fixpoint remap_loop (pml4 virt_addr : Z) (is_ : list (Z * (Z * Z))) (v : Vm) : Vm * option VmError :=
  match is_ with
  | [] => (v, None)
  | (i, (phys, flags)) :: is_ =>
      match map_page_in_pml4 v pml4 (wrap64 (virt_addr + i * PAGE_SIZE)) phys flags with
      | (v, Ok _) => remap_loop pml4 virt_addr is_ v
      | (v, Err e) => (v, Some e)
      end
  end.

Definition remap_region (m : AsManager) (id caller old_virt new_virt size : Z)
    : AsManager * result unit AddressSpaceError :=
  if negb (is_page_aligned old_virt) || negb (is_page_aligned new_virt) then (m, Err AsInvalidAddress)
  else if size =? 0 then (m, Err AsInvalidSize)
  else if (KERNEL_BASE <=? new_virt) || (KERNEL_BASE <? saturating_add 64 new_virt size) then
    (m, Err AsKernelSpaceViolation)
  else
    match spaces m !! id with
    | None => (m, Err AsNotFound)
    | Some sp =>
        if negb (as_owner sp =? caller) then (m, Err AsPermissionDenied)
        else
          let pml4 := as_pml4_phys sp in
          let num_pages := align_up size / PAGE_SIZE in
          match query_loop pml4 old_virt (seqZ 0 num_pages) (as_vm m) with
          | (v, None) => (set_as_vm m v, Err AsNotMapped)
          | (v, Some mappings) =>
              let v := unmap_loop pml4 old_virt (seqZ 0 num_pages) v in
              match remap_loop pml4 new_virt (zip (seqZ 0 num_pages) mappings) v with
              | (v, None) => (set_as_vm m v, Ok tt)
              | (v, Some _) => (set_as_vm m v, Err AsAlreadyMapped)
              end
          end
    end.

Definition pml4_of (m : AsManager) (id : Z) : option Z := as_pml4_phys <$> spaces m !! id.
