(* ===== verification/AddrSpaceSafety.v ===== *)
(** * Address spaces: properties

    The region operations of [AddrSpace.v] as updates of the mapping of
    [VmSafety.v]: mapping is all or nothing, and mapping and unmapping never
    reach the kernel half. *)

From S2P Require Import Prelude Pmm PmmSafety Vm VmSafety VmInit VmRange AddrSpace.

(** ** The loops *)

(** The frame of page [i] of a region mapped at [phys]. *)
Definition region_frame (phys i : Z) : Z := wrap64 (phys + i * PAGE_SIZE).

Lemma map_loop_spec root virt phys flags N :
  root ≠ 0 → low_region virt N → phys mod PAGE_SIZE = 0 → pte_is_present flags = true →
  ∀ (n : nat) k v mapped v' mapped' err,
  0 ≤ k → k + Z.of_nat n ≤ N → vm_ok v root →
  map_loop root virt phys flags (seqZ k (Z.of_nat n)) v mapped = (v', mapped', err) →
  ∃ c v1, 0 ≤ c ≤ Z.of_nat n ∧ mapped' = mapped + c ∧ range_mapped root virt (region_frame phys) flags k c v v1 ∧
    vm_ok v' root ∧ (∀ w, mapping v' root w = mapping v1 root w) ∧ (err = None → c = Z.of_nat n).
Proof.
  intros Hroot Hlow Hphys Hpres n.
  induction n as [|n IH]; intros k v mapped v' mapped' err Hk HkN Hok.
  - rewrite seqZ_nil by lia. intros [= <- <- <-]. exists 0, v. split_and!; try done; try lia.
    by apply range_mapped_nil.
  - rewrite seqZ_cons by lia. replace (Z.pred (Z.of_nat (S n))) with (Z.of_nat n) by lia. cbn [map_loop].
    change (virt + k * PAGE_SIZE) with (page_at virt k).
    destruct (map_page_in_pml4 _ _ _ _ _) as [v1 r] eqn:E.
    assert (Hlk : low_page (page_at virt k)) by (eapply low_region_page; [done|lia]).
    apply map_in_pml4_internal in E; [|done|by apply low_page_aligned|].
    2:{ apply aligned_wrap. by rewrite Z.mod_add. }
    apply map_internal_spec in E as (Hok1 & _ & Hr); [|done].
    destruct r as [u|e].
    2:{ intros [= <- <- <-]. destruct Hr as [_ Hm]. exists 0, v.
        split_and!; try done; try lia. by apply range_mapped_nil. }
    destruct Hr as (_ & _ & Hnone & _ & Hm). rewrite Hpres in Hm. rewrite <- Z.add_1_r.
    intros E2. apply IH in E2 as (c & v2 & Hc & -> & Hrm & Hok' & Hsame & Herr);
      [|lia|lia|done].
    exists (c + 1), v2. split_and!; try done; try lia; [|intros Hn; specialize (Herr Hn); lia].
    by apply (range_mapped_cons _ _ _ _ N _ _ v v1); try lia.
Qed.

Lemma rollback_spec root virt N :
  root ≠ 0 → low_region virt N →
  ∀ (n : nat) k v r v' r', 0 ≤ k → k + Z.of_nat n ≤ N → vm_ok v root →
  (∀ i, k ≤ i < k + Z.of_nat n → is_Some (mapping v root (page_at virt i))) →
  rollback root virt (seqZ k (Z.of_nat n)) v r = (v', r') →
  r' = r + Z.of_nat n ∧ range_unmapped root virt k (Z.of_nat n) v v'.
Proof.
  intros Hroot Hlow n. induction n as [|n IH]; intros k v r v' r' Hk HkN Hok Hsome.
  - rewrite seqZ_nil by lia. intros [= <- <-]. split; [lia|]. split; [done|intros; lia|done].
  - rewrite seqZ_cons by lia. replace (Z.pred (Z.of_nat (S n))) with (Z.of_nat n) by lia. cbn [rollback].
    change (virt + k * PAGE_SIZE) with (page_at virt k).
    destruct (unmap_page_in_pml4 _ _ _) as [v1 r1] eqn:E.
    assert (Hlk : low_page (page_at virt k)) by (eapply low_region_page; [done|lia]).
    apply unmap_any in E as (Hok1 & Hm & Hres); [|done|done|by apply low_page_aligned].
    rewrite (Hres ltac:(apply Hsome; lia)), <- Z.add_1_r. intros E2.
    apply IH in E2 as [-> Hru]; [|lia|lia|done|].
    + split; [lia|]. replace (Z.of_nat (S n)) with (Z.of_nat n + 1) by lia.
      eapply range_unmapped_cons; [done|lia|done].
    + intros i Hi. rewrite Hm, decide_False; [apply Hsome; lia|]. intros E3.
      apply (region_page_inj virt N) in E3; [lia|done|lia..].
Qed.

Lemma unmap_loop_spec root virt N :
  root ≠ 0 → low_region virt N →
  ∀ (n : nat) k v, 0 ≤ k → k + Z.of_nat n ≤ N → vm_ok v root →
  range_unmapped root virt k (Z.of_nat n) v (unmap_loop root virt (seqZ k (Z.of_nat n)) v).
Proof.
  intros Hroot Hlow n. induction n as [|n IH]; intros k v Hk HkN Hok.
  - rewrite seqZ_nil by lia. split; [done|intros; lia|done].
  - rewrite seqZ_cons by lia. replace (Z.pred (Z.of_nat (S n))) with (Z.of_nat n) by lia. cbn [unmap_loop].
    assert (Hlk : low_page (page_at virt k)) by (eapply low_region_page; [done|lia]).
    rewrite wrap_small by (unfold page_at in Hlk; destruct Hlk as [? _]; unfold in_range; lia).
    change (virt + k * PAGE_SIZE) with (page_at virt k).
    destruct (unmap_page_in_pml4 _ _ _) as [v1 r1] eqn:E. cbn [fst].
    apply unmap_any in E as (Hok1 & Hm & _); [|done|done|by apply low_page_aligned].
    rewrite <- Z.add_1_r. replace (Z.of_nat (S n)) with (Z.of_nat n + 1) by lia.
    eapply range_unmapped_cons; [done|lia|]. apply IH; [lia|lia|done].
Qed.

(** ** The loops keep the tables well formed *)

Lemma map_loop_evolves root virt phys flags l v mapped v' mapped' err :
  vm_ok v root → map_loop root virt phys flags l v mapped = (v', mapped', err) → evolves v v' root.
Proof.
  revert v mapped. induction l as [|i l IH]; intros v mapped Hok; cbn [map_loop].
  { intros [= <- <- <-]. by apply evolves_refl. }
  destruct (map_page_in_pml4 _ _ _ _ _) as [v1 [u|e]] eqn:E; apply map_pml4_evolves in E; try done.
  - intros E2. eapply evolves_trans; [exact E|]. eapply IH; [apply E|exact E2].
  - by intros [= <- <- <-].
Qed.

Lemma rollback_evolves root virt l v r v' r' :
  vm_ok v root → rollback root virt l v r = (v', r') → evolves v v' root.
Proof.
  revert v r. induction l as [|i l IH]; intros v r Hok; cbn [rollback].
  { intros [= <- <-]. by apply evolves_refl. }
  destruct (unmap_page_in_pml4 _ _ _) as [v1 [u|e]] eqn:E; apply unmap_pml4_evolves in E; try done;
    intros E2; (eapply evolves_trans; [exact E|]); (eapply IH; [apply E|exact E2]).
Qed.

Lemma unmap_loop_evolves root virt l v : vm_ok v root → evolves v (unmap_loop root virt l v) root.
Proof.
  revert v. induction l as [|i l IH]; intros v Hok; cbn [unmap_loop]; [by apply evolves_refl|].
  destruct (unmap_page_in_pml4 _ _ _) as [v1 r] eqn:E. apply unmap_pml4_evolves in E; [|done].
  eapply evolves_trans; [exact E|]. apply IH, E.
Qed.

(** ** Region operations *)

(** The number of pages of a region of [size] bytes. *)
Definition region_pages_of (size : Z) : Z := align_up size / PAGE_SIZE.

Lemma user_region_low virt size :
  0 ≤ virt → 0 ≤ size → virt mod PAGE_SIZE = 0 → virt ≤ USER_CANONICAL_MAX →
  saturating_add 64 virt size ≤ USER_CANONICAL_MAX →
  low_region virt (region_pages_of size).
Proof.
  intros Hv Hs Ha Hmax Hend. unfold saturating_add, USER_CANONICAL_MAX in *.
  assert (virt + size ≤ 2 ^ 47 - 1) as Hle by lia.
  destruct (align_correct size) as (_ & Hal%Z.eqb_eq & _ & Hb & _); [done|unfold PAGE_SIZE; lia|].
  unfold region_pages_of, low_region, low_page. apply Z.div_exact in Hal; [|done].
  generalize dependent (align_up size / PAGE_SIZE). intros q Hq.
  apply Z.div_exact in Ha; [|done]. unfold PAGE_SIZE in *.
  rewrite Hq in Hb. clear Hq. remember (virt / 4096) as p. clear Heqp. subst virt.
  split_and!; try lia. by rewrite Z.mul_comm, Z.mod_mul.
Qed.

(** The effect of a successful or failed mapping of a region on one space. *)
Definition region_mapped (m m' : AsManager) (root virt phys size flags : Z) : Prop :=
  range_mapped root virt (region_frame phys) flags 0 (region_pages_of size) (as_vm m) (as_vm m').

Definition same_mappings (m m' : AsManager) (root : Z) : Prop :=
  ∀ w, mapping (as_vm m') root w = mapping (as_vm m) root w.

(** The two loops of [map_region]: success, or a rollback that succeeds on
    every page that was mapped. *)
Lemma map_with_rollback root virt phys flags N v v' mapped err :
  root ≠ 0 → low_region virt N → phys mod PAGE_SIZE = 0 → pte_is_present flags = true → vm_ok v root →
  map_loop root virt phys flags (seqZ 0 N) v 0 = (v', mapped, err) →
  match err with
  | None => mapped = N ∧ vm_ok v' root ∧ range_mapped root virt (region_frame phys) flags 0 N v v'
  | Some _ =>
      ∃ v2, rollback root virt (seqZ 0 mapped) v' 0 = (v2, mapped) ∧ vm_ok v2 root ∧
        ∀ w, mapping v2 root w = mapping v root w
  end.
Proof.
  intros Hroot Hlow Hphys Hpres Hok E. pose proof Hlow as (_ & HN & _).
  rewrite <- (Z2Nat.id N) in E at 1 by done.
  eapply map_loop_spec in E as (c & v1 & Hc & Hm & Hrm & Hok' & Hsame & Herr); [|done..|lia|lia|done].
  rewrite Z2Nat.id in * by done. rewrite Z.add_0_l in Hm. subst mapped. destruct err as [e|].
  - destruct (rollback root virt (seqZ 0 c) v' 0) as [v2 r] eqn:Er.
    rewrite <- (Z2Nat.id c) in Er by lia.
    eapply rollback_spec in Er as [-> Hru]; [|done|done|lia|lia|done|].
    + rewrite Z2Nat.id in * by lia. exists v2. split_and!; [done|apply Hru|].
      eapply rolled_back; [done|]. by eapply range_unmapped_ext.
    + rewrite Z2Nat.id by lia. intros i Hi. rewrite Hsame, (rm_in _ _ _ _ _ _ _ _ Hrm i); [by eauto|lia|done].
  - rewrite (Herr eq_refl) in *. split_and!; [done..|]. by eapply range_mapped_ext.
Qed.

(** The upper half of the root table, shared with the kernel. *)
Definition kernel_half (w : Z) : Prop := 256 ≤ Z.land (Z.shiftr w 39) 0x1FF.

Lemma low_not_kernel v w : low_page v → kernel_half w → leaf_indices w ≠ leaf_indices v.
Proof.
  intros Hlow Hw E. destruct (high_page v Hlow) as (_ & _ & _ & Hv4). destruct Hlow as [Hv _].
  unfold leaf_indices, split_indices in E. injection E as E4 _ _ _.
  unfold kernel_half in Hw. rewrite E4, shift_mask in Hw by lia. rewrite Z.mod_small in Hw by lia. lia.
Qed.

Lemma as_vm_if (b : bool) m id sp : as_vm (if b then set_space m id sp else m) = as_vm m.
Proof. by destruct b. Qed.

Ltac dguard H := match goal with |- context [if ?b then (_, Err _) else _] => destruct b eqn:H end.
Ltac ltb_facts := rewrite ?Z.ltb_ge, ?Z.leb_gt, ?Z.eqb_neq in *.

(** [map_region] as a whole, on a space it finds. *)
Lemma map_region_cases m id caller virt phys size flags m' r sp :
  in_range 64 virt → in_range 64 size → spaces m !! id = Some sp → as_pml4_phys sp ≠ 0 →
  vm_ok (as_vm m) (as_pml4_phys sp) → pte_is_present flags = true →
  map_region m id caller virt phys size flags = (m', r) →
  vm_ok (as_vm m') (as_pml4_phys sp) ∧
  match r with
  | Ok _ =>
      as_owner sp = caller ∧ low_region virt (region_pages_of size) ∧
      region_mapped m m' (as_pml4_phys sp) virt phys size flags ∧
      spaces m' = <[id := inc_mappings sp (region_pages_of size)]> (spaces m)
  | Err _ => same_mappings m m' (as_pml4_phys sp) ∧ spaces m' = spaces m
  end.
Proof.
  intros Hv Hs Hsp Hroot Hok Hpres. unfold map_region, same_mappings.
  dguard Hal; [intros [= <- <-]; by auto|]. dguard H0; [intros [= <- <-]; by auto|].
  dguard H1; [intros [= <- <-]; by auto|]. dguard H2; [intros [= <- <-]; by auto|].
  dguard H3; [intros [= <- <-]; by auto|]. cbv zeta. dguard H4; [intros [= <- <-]; by auto|].
  dguard H5; [intros [= <- <-]; by auto|]. rewrite Hsp. dguard Ho; [intros [= <- <-]; by auto|].
  apply negb_false_iff, Z.eqb_eq in Ho. ltb_facts.
  apply orb_false_iff in Hal as [Hva%negb_false_iff%Z.eqb_eq Hpa%negb_false_iff%Z.eqb_eq].
  unfold in_range in *. pose proof (user_region_low virt size ltac:(lia) ltac:(lia) Hva H2 H4) as Hlow.
  destruct (map_loop _ _ _ _ _ _ _) as [[v mapped] err] eqn:E.
  apply map_with_rollback in E; [|done..]. destruct err as [e|].
  - destruct E as (v2 & -> & Hok2 & Hsame).
    replace (saturating_sub mapped mapped) with 0 by (unfold saturating_sub; lia).
    intros [= <- <-]. done.
  - destruct E as (-> & Hok2 & Hrm). intros [= <- <-]. done.
Qed.

Lemma unmap_region_cases m id caller virt size m' r sp :
  in_range 64 virt → in_range 64 size → spaces m !! id = Some sp → as_pml4_phys sp ≠ 0 →
  vm_ok (as_vm m) (as_pml4_phys sp) →
  unmap_region m id caller virt size = (m', r) →
  vm_ok (as_vm m') (as_pml4_phys sp) ∧
  match r with
  | Ok _ =>
      as_owner sp = caller ∧ low_region virt (region_pages_of size) ∧
      range_unmapped (as_pml4_phys sp) virt 0 (region_pages_of size) (as_vm m) (as_vm m') ∧
      spaces m' = <[id := dec_mappings sp (region_pages_of size)]> (spaces m)
  | Err _ => m' = m
  end.
Proof.
  intros Hv Hs Hsp Hroot Hok. unfold unmap_region.
  dguard Hal; [intros [= <- <-]; by auto|]. dguard H2; [intros [= <- <-]; by auto|].
  dguard H0; [intros [= <- <-]; by auto|]. dguard H3; [intros [= <- <-]; by auto|].
  cbv zeta. dguard H4; [intros [= <- <-]; by auto|].
  dguard H5; [intros [= <- <-]; by auto|]. rewrite Hsp. dguard Ho; [intros [= <- <-]; by auto|].
  apply negb_false_iff, Z.eqb_eq in Ho. apply negb_false_iff, Z.eqb_eq in Hal. ltb_facts.
  unfold in_range in *. pose proof (user_region_low virt size ltac:(lia) ltac:(lia) Hal H2 H4) as Hlow.
  intros [= <- <-]. fold (region_pages_of size).
  pose proof (unmap_loop_spec (as_pml4_phys sp) virt _ Hroot Hlow (Z.to_nat (region_pages_of size)) 0 (as_vm m)) as Hu.
  pose proof Hlow as (_ & HN & _). rewrite Z2Nat.id in Hu by done.
  specialize (Hu ltac:(lia) ltac:(lia) Hok). split; [apply Hu|]. done.
Qed.

(** The owner can unmap, in any state, a region it could map. *)
Lemma mapped_region_unmaps m id caller virt phys size flags m1 m' sp :
  map_region m id caller virt phys size flags = (m1, Ok tt) →
  spaces m' !! id = Some sp → as_owner sp = caller → (unmap_region m' id caller virt size).2 = Ok tt.
Proof.
  intros E%(f_equal snd) Hid Ho. cbn [snd] in E. revert E.
  unfold map_region, unmap_region. rewrite Hid, Ho, Z.eqb_refl.
  destruct (is_page_aligned virt); [|done]. cbn [negb orb]. repeat (case_match; try done).
Qed.

Lemma map_region_evolves m id caller virt phys size flags m' r sp :
  spaces m !! id = Some sp → vm_ok (as_vm m) (as_pml4_phys sp) →
  map_region m id caller virt phys size flags = (m', r) → evolves (as_vm m) (as_vm m') (as_pml4_phys sp).
Proof.
  intros Hsp Hok. unfold map_region. cbv zeta.
  do 7 (dguard Hg; [intros [= <- <-]; by apply evolves_refl|clear Hg]). rewrite Hsp.
  dguard Ho; [intros [= <- <-]; by apply evolves_refl|].
  destruct (map_loop _ _ _ _ _ _ _) as [[v mapped] err] eqn:E. apply map_loop_evolves in E; [|done].
  destruct err as [e|]; [|by intros [= <- <-]].
  destruct (rollback _ _ _ _ _) as [v2 r2] eqn:E2. apply rollback_evolves in E2; [|apply E].
  intros [= <- <-]. rewrite as_vm_if. by eapply evolves_trans.
Qed.

Lemma unmap_region_evolves m id caller virt size m' r sp :
  spaces m !! id = Some sp → vm_ok (as_vm m) (as_pml4_phys sp) →
  unmap_region m id caller virt size = (m', r) → evolves (as_vm m) (as_vm m') (as_pml4_phys sp).
Proof.
  intros Hsp Hok. unfold unmap_region. cbv zeta.
  do 6 (dguard Hg; [intros [= <- <-]; by apply evolves_refl|clear Hg]). rewrite Hsp.
  dguard Ho; [intros [= <- <-]; by apply evolves_refl|]. intros [= <- <-]. by apply unmap_loop_evolves.
Qed.

(** C12. Mapping a region is all or nothing. On success the caller owns the
    space, every page of the region was unmapped and now maps the frame at the
    same offset with the given flags, no other page changed, and the count of
    the space grew by the pages of the region. On any error - a bad request, a
    page already mapped, no memory for a table - every mapping of the space
    and every record of the manager is as before. *)
Theorem map_region_correct m id caller virt phys size flags m' r sp :
  in_range 64 virt → in_range 64 size → spaces m !! id = Some sp → as_pml4_phys sp ≠ 0 →
  vm_ok (as_vm m) (as_pml4_phys sp) → pte_is_present flags = true →
  map_region m id caller virt phys size flags = (m', r) →
  vm_ok (as_vm m') (as_pml4_phys sp) ∧
  match r with
  | Ok _ =>
      as_owner sp = caller ∧ region_mapped m m' (as_pml4_phys sp) virt phys size flags ∧
      spaces m' = <[id := inc_mappings sp (region_pages_of size)]> (spaces m)
  | Err _ => same_mappings m m' (as_pml4_phys sp) ∧ spaces m' = spaces m
  end.
Proof.
  intros Hv Hs Hsp Hroot Hok Hpres E. eapply map_region_cases in E as [Hok' Hr]; [|done..].
  split; [done|]. destruct r; [|done]. by destruct Hr as (? & _ & ? & ?).
Qed.

(** Mapping and unmapping regions never touches the kernel half of an
    address space, whatever the arguments and the result. *)
Theorem user_regions_confined m id caller virt phys size flags sp w :
  in_range 64 virt → in_range 64 size → spaces m !! id = Some sp → as_pml4_phys sp ≠ 0 →
  vm_ok (as_vm m) (as_pml4_phys sp) → pte_is_present flags = true → kernel_half w →
  mapping (as_vm (map_region m id caller virt phys size flags).1) (as_pml4_phys sp) w =
    mapping (as_vm m) (as_pml4_phys sp) w ∧
  mapping (as_vm (unmap_region m id caller virt size).1) (as_pml4_phys sp) w =
    mapping (as_vm m) (as_pml4_phys sp) w.
Proof.
  intros Hv Hs Hsp Hroot Hok Hpres Hw. split.
  - destruct (map_region _ _ _ _ _ _ _) as [m' r] eqn:E.
    eapply map_region_cases in E as [_ Hr]; [|done..]. destruct r; [|by apply Hr].
    destruct Hr as (_ & Hlow & [_ _ _ Hout] & _). apply Hout. intros i Hi.
    apply low_not_kernel; [|done]. by eapply low_region_page.
  - destruct (unmap_region _ _ _ _ _) as [m' r] eqn:E.
    eapply unmap_region_cases in E as [_ Hr]; [|done..]. destruct r; [|by subst].
    destruct Hr as (_ & Hlow & [_ _ Hout] & _). apply Hout. intros i Hi.
    apply low_not_kernel; [|done]. by eapply low_region_page.
Qed.

(** Round trip: unmapping a region that was just mapped succeeds, restores
    every mapping of the space, and restores the record of the space as long
    as its count did not saturate. *)
Theorem map_unmap_region_roundtrip m id caller virt phys size flags m' sp :
  in_range 64 virt → in_range 64 size → spaces m !! id = Some sp → as_pml4_phys sp ≠ 0 →
  vm_ok (as_vm m) (as_pml4_phys sp) → pte_is_present flags = true →
  0 ≤ as_mapping_count sp → as_mapping_count sp + region_pages_of size < 2 ^ 64 →
  map_region m id caller virt phys size flags = (m', Ok tt) →
  ∃ m'', unmap_region m' id caller virt size = (m'', Ok tt) ∧
    same_mappings m m'' (as_pml4_phys sp) ∧ spaces m'' = spaces m.
Proof.
  intros Hv Hs Hsp Hroot Hok Hpres Hc0 Hc E. pose proof E as E1.
  eapply map_region_cases in E as (Hok' & Ho & Hlow & Hrm & Hsp'); [|done..].
  assert (spaces m' !! id = Some (inc_mappings sp (region_pages_of size))) as Hid
    by by rewrite Hsp', lookup_insert_eq.
  pose proof (mapped_region_unmaps _ _ _ _ _ _ _ _ _ _ E1 Hid Ho) as Hr.
  destruct (unmap_region m' id caller virt size) as [m'' r] eqn:E2. exists m''. cbn [snd] in Hr. subst r.
  eapply unmap_region_cases in E2 as (_ & _ & _ & Hru & Hsp''); [|done..].
  change (as_pml4_phys (inc_mappings sp (region_pages_of size))) with (as_pml4_phys sp) in Hru.
  split_and!; [done|unfold same_mappings; by eapply rolled_back|]. rewrite Hsp'', Hsp', insert_insert_eq.
  apply insert_id. rewrite Hsp. f_equal. destruct sp as [i p o c]. cbn [as_mapping_count] in *.
  destruct Hlow as (_ & HN & _). unfold dec_mappings, inc_mappings, saturating_add, saturating_sub. f_equal. cbn. lia.
Qed.

(** ** Witnesses *)

(** A manager with one space, owned by thread 7, over the demo memory. *)
Definition demo_as : AsManager := mkAsm demo_space {[ 1 := mkSpace 1 0x10000 7 0 ]} 2.
Definition demo_as_space : AddressSpace := mkSpace 1 0x10000 7 0.

Lemma demo_region_ok :
  ∃ m', map_region demo_as 1 7 0x400000 0x30000 0x2001 demo_flags = (m', Ok tt).
Proof.
  assert ((map_region demo_as 1 7 0x400000 0x30000 0x2001 demo_flags).2 = Ok tt) as Hr
    by (vm_compute; reflexivity).
  destruct (map_region demo_as 1 7 0x400000 0x30000 0x2001 demo_flags) as [m' r].
  exists m'. cbn [snd] in Hr. by rewrite Hr.
Qed.

Lemma map_region_correct_witness :
  ∃ m', map_region demo_as 1 7 0x400000 0x30000 0x2001 demo_flags = (m', Ok tt) ∧
    mapping (as_vm m') 0x10000 0x402000 = Some (pte_set 0x32000 demo_flags).
Proof.
  destruct demo_region_ok as [m' E]. exists m'. split; [exact E|].
  destruct (map_region_correct demo_as 1 7 0x400000 0x30000 0x2001 demo_flags m' (Ok tt) demo_as_space)
    as (_ & _ & Hrm & _);
    [split; [lia|reflexivity]|split; [lia|reflexivity]|reflexivity|discriminate
    |exact (proj1 demo_space_fresh)|reflexivity|exact E|].
  apply (rm_in _ _ _ _ _ _ _ _ Hrm 2); [vm_compute; split; congruence|reflexivity].
Defined.

Lemma user_regions_confined_witness :
  kernel_half 0xFFFF800000400000 ∧
  mapping (as_vm (map_region demo_as 1 7 0x400000 0x30000 0x2001 demo_flags).1)
    (as_pml4_phys demo_as_space) 0xFFFF800000400000 =
  mapping (as_vm demo_as) (as_pml4_phys demo_as_space) 0xFFFF800000400000.
Proof.
  assert (kernel_half 0xFFFF800000400000) as Hk by (vm_compute; discriminate). split; [exact Hk|].
  destruct (user_regions_confined demo_as 1 7 0x400000 0x30000 0x2001 demo_flags demo_as_space
              0xFFFF800000400000) as [H _];
    [split; [lia|reflexivity]|split; [lia|reflexivity]|reflexivity|discriminate
    |exact (proj1 demo_space_fresh)|reflexivity|exact Hk|].
  exact H.
Defined.

Lemma map_unmap_region_roundtrip_witness :
  ∃ m' m'', map_region demo_as 1 7 0x400000 0x30000 0x2001 demo_flags = (m', Ok tt) ∧
    unmap_region m' 1 7 0x400000 0x2001 = (m'', Ok tt) ∧ spaces m'' = spaces demo_as.
Proof.
  destruct demo_region_ok as [m' E]. exists m'.
  destruct (map_unmap_region_roundtrip demo_as 1 7 0x400000 0x30000 0x2001 demo_flags m' demo_as_space)
    as (m'' & Hu & _ & Hsp);
    [split; [lia|reflexivity]|split; [lia|reflexivity]|reflexivity|discriminate
    |exact (proj1 demo_space_fresh)|reflexivity|reflexivity|reflexivity|exact E|].
  exists m''. split; [exact E|]. split; [exact Hu|exact Hsp].
Defined.

(** ** What [remap_region] lets through *)

(** A space with a frame mapped at 4 MiB, and the frame moved to the first
    address above the lower half. *)
Definition remap_escape : AsManager * result unit AddressSpaceError :=
  remap_region (map_region demo_as 1 7 0x400000 0x30000 PAGE_SIZE demo_flags).1 1 7
    0x400000 0x800000000000 PAGE_SIZE.

(** [remap_region] does not have the confinement of the other region
    operations: its target is checked against the kernel base but not against
    the end of the lower half, so the owner of a space can move a page of its
    own to the non-canonical address [2^47], which is slot 256 of the root
    table: the walk of the first kernel address then ends in that page, with
    the user bit set. *)
Theorem remap_region_reaches_kernel_half :
  remap_escape.2 = Ok tt ∧ kernel_half 0xFFFF800000000000 ∧
  mapping demo_space 0x10000 0xFFFF800000000000 = None ∧
  mapping (as_vm remap_escape.1) 0x10000 0xFFFF800000000000 = Some (pte_set 0x30000 demo_flags).
Proof. vm_compute. split_and!; congruence. Qed.
