(* ===== verification/SharedMem.v ===== *)
(** * Shared memory regions

    Models [kernel/src/shared_mem.rs]: regions of zeroed physical pages, their
    mapping into the active address space on behalf of a thread, and their
    destruction by the owner once nothing maps them. *)

From S2P Require Import Prelude Pmm Vm.

(** ** Permissions *)

Record RegionFlags := mkFlags { rf_read : bool; rf_write : bool; rf_execute : bool }.

Definition read_only : RegionFlags := mkFlags true false false.
Definition read_write : RegionFlags := mkFlags true true false.
Definition read_exec : RegionFlags := mkFlags true false true.
Definition read_write_exec : RegionFlags := mkFlags true true true.

Definition to_page_flags (f : RegionFlags) : Z :=
  let flags := PF_PRESENT in
  let flags := if rf_write f then Z.lor flags PF_WRITABLE else flags in
  let flags := if negb (rf_execute f) then with_nx flags else flags in
  Z.lor flags PF_USER.

Definition has (raw bit : Z) : bool := negb (Z.land raw bit =? 0).

(** [RegionFlags::from_raw]: three low bits are read in the ELF order when they
    have the ELF execute bit and not the custom one. *)
Definition from_raw (raw : Z) : RegionFlags :=
  let bits := Z.land raw 0x7 in
  if bits =? raw then
    let elf_read := has bits 0x4 in
    let elf_write := has bits 0x2 in
    let elf_exec := has bits 0x1 in
    let custom_read := has bits 0x1 in
    let custom_write := has bits 0x2 in
    let custom_exec := has bits 0x4 in
    let looks_like_elf := elf_exec && negb custom_exec in
    if looks_like_elf then mkFlags elf_read elf_write elf_exec
    else mkFlags custom_read custom_write custom_exec
  else mkFlags (has raw 0x1) (has raw 0x2) (has raw 0x4).

Definition to_raw (f : RegionFlags) : Z :=
  let raw := 0 in
  let raw := if rf_read f then Z.lor raw 0x4 else raw in
  let raw := if rf_write f then Z.lor raw 0x2 else raw in
  if rf_execute f then Z.lor raw 0x1 else raw.

(** ** Regions *)

Record RegionMapping := mkRegionMapping { rm_thread : Z; rm_virt : Z; rm_flags : RegionFlags }.

Record SharedRegion := mkRegion {
  sr_id : Z;
  sr_owner : Z;
  sr_size : Z;
  physical_pages : list Z;
  sr_mappings : list RegionMapping;
  ref_count : Z;
}.

Inductive SharedMemError :=
| ShInvalidRegion | ShInvalidSize | ShPermissionDenied | ShOutOfMemory | ShUnaligned
| ShAlreadyMapped | ShNotMapped | ShMappingFailed | ShRegionInUse.

#[export] Instance SharedMemError_eq_dec : EqDecision SharedMemError.
Proof. solve_decision. Defined.

(** The allocation loop of [SharedRegion::new]; the pages taken so far are
    released when the memory runs out. *)
Fixpoint alloc_region_pages (n : nat) (s : Vm) (pages : list Z) : Vm * option (list Z) :=
  match n with
  | O => (s, Some pages)
  | S n =>
      match vm_alloc_zeroed s with
      | (s, Some phys) => alloc_region_pages n s (pages ++ [phys])
      | (s, None) => (foldl vm_free_page s pages, None)
      end
  end.

Definition SharedRegion_new (s : Vm) (id owner size : Z) : Vm * result SharedRegion SharedMemError :=
  let aligned_size := align_up size in
  let num_pages := aligned_size / PAGE_SIZE in
  if num_pages =? 0 then (s, Err ShInvalidSize)
  else
    match alloc_region_pages (Z.to_nat num_pages) s [] with
    | (s, Some pages) => (s, Ok (mkRegion id owner aligned_size pages [] 0))
    | (s, None) => (s, Err ShOutOfMemory)
    end.

(** The mapping loop of [SharedRegion::map], from page [i] on: the index that
    failed, with the error. *)
Fixpoint map_pages (virt_addr flags i : Z) (pages : list Z) (s : Vm) : Vm * option (Z * VmError) :=
  match pages with
  | [] => (s, None)
  | phys_page :: pages =>
      match map_page s (wrap64 (virt_addr + i * PAGE_SIZE)) phys_page flags with
      | (s, Ok _) => map_pages virt_addr flags (i + 1) pages s
      | (s, Err e) => (s, Some (i, e))
      end
  end.

(** A loop of [vm::unmap_page] over page indices, errors ignored. *)
Fixpoint unmap_pages (virt_addr : Z) (is_ : list Z) (s : Vm) : Vm :=
  match is_ with
  | [] => s
  | j :: is_ => unmap_pages virt_addr is_ (unmap_page s (wrap64 (virt_addr + j * PAGE_SIZE))).1
  end.

Definition mapped_by (thread_id : Z) (m : RegionMapping) : bool := rm_thread m =? thread_id.

Definition add_mapping (r : SharedRegion) (m : RegionMapping) : SharedRegion :=
  mkRegion (sr_id r) (sr_owner r) (sr_size r) (physical_pages r) (sr_mappings r ++ [m]) (ref_count r + 1).

Definition remove_mapping (r : SharedRegion) (idx : nat) : SharedRegion :=
  mkRegion (sr_id r) (sr_owner r) (sr_size r) (physical_pages r) (delete idx (sr_mappings r))
    (wrap64 (ref_count r - 1)).

Definition region_map (s : Vm) (r : SharedRegion) (thread_id virt_addr : Z) (flags : RegionFlags)
    : Vm * SharedRegion * result unit SharedMemError :=
  if negb (is_page_aligned virt_addr) then (s, r, Err ShUnaligned)
  else if existsb (mapped_by thread_id) (sr_mappings r) then (s, r, Err ShAlreadyMapped)
  else
    match map_pages virt_addr (to_page_flags flags) 0 (physical_pages r) s with
    | (s, Some (i, e)) =>
        let s := unmap_pages virt_addr (seqZ 0 i) s in
        (s, r, Err (match e with
                    | AlreadyMapped => ShAlreadyMapped
                    | OutOfMemory => ShOutOfMemory
                    | _ => ShMappingFailed
                    end))
    | (s, None) => (s, add_mapping r (mkRegionMapping thread_id virt_addr flags), Ok tt)
    end.

(** [iter().position(..)] *)
Fixpoint position {A} (f : A → bool) (l : list A) : option nat :=
  match l with
  | [] => None
  | x :: l => if f x then Some O else S <$> position f l
  end.

Definition region_unmap (s : Vm) (r : SharedRegion) (thread_id : Z)
    : Vm * SharedRegion * result unit SharedMemError :=
  match position (mapped_by thread_id) (sr_mappings r) with
  | None => (s, r, Err ShNotMapped)
  | Some idx =>
      match sr_mappings r !! idx with
      | None => (s, r, Err ShNotMapped)
      | Some mapping =>
          let s := unmap_pages (rm_virt mapping) (seqZ 0 (Z.of_nat (length (physical_pages r)))) s in
          (s, remove_mapping r idx, Ok tt)
      end
  end.

Definition can_destroy (r : SharedRegion) : bool := ref_count r =? 0.

(** [SharedRegion::destroy]; the region itself is dropped by the caller. *)
Definition region_destroy (s : Vm) (r : SharedRegion) : Vm := foldl vm_free_page s (physical_pages r).

(** ** The manager *)

(** [SharedMemManager] with the [RegionId] counter and the virtual memory. *)
Record ShmManager := mkShm { shm_vm : Vm; regions : gmap Z SharedRegion; next_region : Z }.

(** [RegionId::new] *)
Definition RegionId_new (m : ShmManager) : Z * ShmManager :=
  (next_region m, mkShm (shm_vm m) (regions m) (wrap64 (next_region m + 1))).

Definition set_shm_vm (m : ShmManager) (s : Vm) : ShmManager := mkShm s (regions m) (next_region m).

Definition create_region (m : ShmManager) (owner size : Z) : ShmManager * result Z SharedMemError :=
  let '(region_id, m) := RegionId_new m in
  match SharedRegion_new (shm_vm m) region_id owner size with
  | (s, Err e) => (set_shm_vm m s, Err e)
  | (s, Ok region) => (mkShm s (<[region_id := region]> (regions m)) (next_region m), Ok region_id)
  end.

Definition shm_map_region (m : ShmManager) (region_id thread_id virt_addr : Z) (flags : RegionFlags)
    : ShmManager * result unit SharedMemError :=
  match regions m !! region_id with
  | None => (m, Err ShInvalidRegion)
  | Some region =>
      let '(s, region, res) := region_map (shm_vm m) region thread_id virt_addr flags in
      (mkShm s (<[region_id := region]> (regions m)) (next_region m), res)
  end.

Definition shm_unmap_region (m : ShmManager) (region_id thread_id : Z)
    : ShmManager * result unit SharedMemError :=
  match regions m !! region_id with
  | None => (m, Err ShInvalidRegion)
  | Some region =>
      let '(s, region, res) := region_unmap (shm_vm m) region thread_id in
      (mkShm s (<[region_id := region]> (regions m)) (next_region m), res)
  end.

Definition destroy_region (m : ShmManager) (region_id caller : Z) : ShmManager * result unit SharedMemError :=
  match regions m !! region_id with
  | None => (m, Err ShInvalidRegion)
  | Some region =>
      if negb (sr_owner region =? caller) then (m, Err ShPermissionDenied)
      else if negb (can_destroy region) then (m, Err ShRegionInUse)
      else (mkShm (region_destroy (shm_vm m) region) (delete region_id (regions m)) (next_region m), Ok tt)
  end.

Record RegionInfo := mkInfo { ri_id : Z; ri_owner : Z; ri_size : Z; ri_ref_count : Z }.

Definition get_region_info (m : ShmManager) (region_id : Z) : result RegionInfo SharedMemError :=
  match regions m !! region_id with
  | None => Err ShInvalidRegion
  | Some r => Ok (mkInfo (sr_id r) (sr_owner r) (sr_size r) (ref_count r))
  end.

Record SharedMemStats := mkShmStats { total_regions : Z; total_size : Z; total_mappings : Z }.

Definition shm_get_stats (m : ShmManager) : SharedMemStats :=
  let rs := (map_to_list (regions m)).*2 in
  mkShmStats (Z.of_nat (length rs))
    (foldl (λ n r, wrap64 (n + sr_size r)) 0 rs)
    (foldl (λ n r, wrap64 (n + ref_count r)) 0 rs).
