(* ===== verification/SharedMemSafety.v ===== *)
(** * Shared memory regions: properties

    The regions of [SharedMem.v] hold disjoint sets of allocated pages, none
    of them a page table; creating and destroying regions balances the page
    allocator, and mapping a region is all or nothing. *)

From S2P Require Import Prelude Pmm PmmSafety Vm VmSafety VmInit VmRange VmPages SharedMem.

(** ** Creating a region *)

Lemma alloc_region_pages_spec root s0 n s qs s' r :
  vm_ok s0 root → taken root s0 s qs → alloc_region_pages n s (pages_of qs) = (s', r) →
  match r with
  | Some pages => ∃ qs', pages = pages_of (qs ++ qs') ∧ length qs' = n ∧ taken root s0 s' (qs ++ qs')
  | None => vm_ok s' root ∧ free_set (vm_pmm s') = free_set (vm_pmm s0) ∧ same_tables s0 s' root ∧
      (size (free_set (vm_pmm s0)) < length qs + n)%nat
  end.
Proof.
  intros Hok0. revert s qs. induction n as [|n IH]; intros s qs Htk; cbn [alloc_region_pages].
  { intros [= <- <-]. exists []. by rewrite app_nil_r. }
  destruct (vm_alloc_zeroed s) as [s1 [a|]] eqn:E.
  - destruct (taken_snoc _ _ _ _ _ _ Htk E) as (q & -> & Htk1).
    intros E2. specialize (IH s1 (qs ++ [q]) Htk1). rewrite fmap_app in IH. specialize (IH E2).
    destruct r as [pages|].
    + destruct IH as (qs' & -> & Hlen & Htk'). exists (q :: qs').
      rewrite <- app_assoc in *. cbn [app length] in *. by rewrite Hlen.
    + rewrite length_app in IH. cbn [length] in IH. destruct IH as (?&?&?&?). split_and!; [done..|lia].
  - apply alloc_none in E as [-> Hempty]; [|apply Htk]. intros [= <- <-].
    destruct (taken_release root s0 s qs Hok0 Htk) as (H1 & H2 & H3). split_and!; [done..|].
    destruct Htk as [_ _ Hnd Hsub Hfree _ _]. rewrite Hfree in Hempty.
    assert (size (free_set (vm_pmm s0)) ≤ size (list_to_set (C := gset Z) qs))%nat as Hle
      by (apply subseteq_size; set_solver).
    rewrite size_list_to_set in Hle by done. lia.
Qed.

(** ** The invariant *)

(** A region whose pages [qs] are allocated pages of the allocator [p]. *)
Record region_ok (p : Pmm) (r : SharedRegion) (qs : list Z) : Prop := {
  ro_count : ref_count r = Z.of_nat (length (sr_mappings r));
  ro_threads : NoDup (rm_thread <$> sr_mappings r);
  ro_ids : ∀ t, t ∈ rm_thread <$> sr_mappings r → in_range 64 t;
  ro_size : sr_size r = Z.of_nat (length qs) * PAGE_SIZE;
  ro_some : qs ≠ [];
  ro_pages : physical_pages r = pages_of qs;
  ro_nodup : NoDup qs;
  ro_alloc : ∀ q, q ∈ qs → 0 ≤ q < total_pages p ∧ q ∉ free_set p;
}.

(** Every region is well formed under its own identifier, no page belongs to
    two regions, and no page of a region is a table of the active space. *)
Record shm_ok (m : ShmManager) : Prop := {
  sm_vm : vm_ok (shm_vm m) (active_pml4 (shm_vm m));
  sm_root : active_pml4 (shm_vm m) ≠ 0;
  sm_region : ∀ id r, regions m !! id = Some r →
    sr_id r = id ∧ id < next_region m ∧ ∃ qs, region_ok (vm_pmm (shm_vm m)) r qs;
  sm_disjoint : ∀ i j r1 r2 a, regions m !! i = Some r1 → regions m !! j = Some r2 → i ≠ j →
    a ∈ physical_pages r1 → a ∉ physical_pages r2;
  sm_tables : ∀ id r a ρ, regions m !! id = Some r → a ∈ physical_pages r → path ρ →
    table_at (vm_mem (shm_vm m)) (active_pml4 (shm_vm m)) ρ ≠ Some a;
}.

(** The regions survive any growth of the page tables. *)
Lemma region_ok_grows s s' r qs :
  total_pages (vm_pmm s') = total_pages (vm_pmm s) → free_set (vm_pmm s') ⊆ free_set (vm_pmm s) →
  region_ok (vm_pmm s) r qs → region_ok (vm_pmm s') r qs.
Proof.
  intros Ht Hf []. split; try done. intros q Hq. rewrite Ht.
  destruct (ro_alloc0 q Hq). split; [done|]. intros ?. by apply H0, Hf.
Qed.

Lemma shm_ok_vm m s' :
  shm_ok m → vm_ok s' (active_pml4 (shm_vm m)) → active_pml4 s' = active_pml4 (shm_vm m) →
  total_pages (vm_pmm s') = total_pages (vm_pmm (shm_vm m)) →
  free_set (vm_pmm s') ⊆ free_set (vm_pmm (shm_vm m)) →
  (∀ ρ u, path ρ → table_at (vm_mem s') (active_pml4 (shm_vm m)) ρ = Some u →
     table_at (vm_mem (shm_vm m)) (active_pml4 (shm_vm m)) ρ = Some u ∨
     u / PAGE_SIZE ∈ free_set (vm_pmm (shm_vm m))) →
  shm_ok (set_shm_vm m s').
Proof.
  intros [Hok Hroot Hreg Hdis Htab] Hok' Ha Ht Hf Hnew. split; cbn [shm_vm set_shm_vm regions next_region] in *; rewrite ?Ha; try done.
  - intros id r Hr. destruct (Hreg id r Hr) as (? & ? & qs & Hq). split_and!; [done..|].
    exists qs. by eapply region_ok_grows.
  - intros id r a ρ Hr Hin Hρ [Ht'|Hfree]%Hnew; [by eapply Htab|..|done].
    destruct (Hreg id r Hr) as (_ & _ & qs & Hq). rewrite (ro_pages _ _ _ Hq) in Hin.
    apply list_elem_of_fmap in Hin as (q & -> & Hin). rewrite Z.div_mul in Hfree by done.
    by destruct (ro_alloc _ _ _ Hq q Hin).
Qed.

Lemma shm_ok_grows m s' :
  shm_ok m → vm_ok s' (active_pml4 (shm_vm m)) → grows (shm_vm m) s' (active_pml4 (shm_vm m)) →
  active_pml4 s' = active_pml4 (shm_vm m) → shm_ok (set_shm_vm m s').
Proof. intros Hok Hok' [] Ha. by apply shm_ok_vm. Qed.

(** ** Mapping in the active space *)

(** What every step on the active space keeps. *)
Record active_step (s s' : Vm) : Prop := {
  as_ok : vm_ok s' (active_pml4 s);
  as_grows : grows s s' (active_pml4 s);
  as_active : active_pml4 s' = active_pml4 s;
}.

Lemma active_step_refl s : vm_ok s (active_pml4 s) → active_step s s.
Proof. intros. split; [done|apply grows_refl|done]. Qed.

Lemma active_step_trans s1 s2 s3 : active_step s1 s2 → active_step s2 s3 → active_step s1 s3.
Proof.
  intros [Ho1 Hg1 Ha1] [Ho2 Hg2 Ha2]. rewrite Ha1 in *. split; [done|by eapply grows_trans|congruence].
Qed.

Lemma map_page_active s virt phys flags s' r :
  vm_ok s (active_pml4 s) → map_page s virt phys flags = (s', r) → active_step s s'.
Proof.
  intros Hok. unfold map_page.
  destruct (negb _ || negb _); [intros [= <- <-]; by apply active_step_refl|].
  destruct (active_pml4 s =? 0); [intros [= <- <-]; by apply active_step_refl|].
  intros E. pose proof (map_internal_grows _ _ _ _ _ _ _ Hok E).
  apply map_internal_spec in E as (? & ? & _); [|done]. by split.
Qed.

(** [unmap_page] is [unmap_page_in_pml4] on the active root, with an
    invalidation on success. *)
Lemma unmap_page_as_pml4 s virt :
  active_pml4 s ≠ 0 →
  unmap_page s virt =
  match unmap_page_in_pml4 s (active_pml4 s) virt with
  | (s', Ok u) => (invalidate_page s' virt, Ok u)
  | (s', Err e) => (s', Err e)
  end.
Proof.
  intros Hr. unfold unmap_page, unmap_page_in_pml4, walk_to_entry. rewrite (proj2 (Z.eqb_neq _ _) Hr).
  destruct (negb _); [done|]. destruct (walk_to_entry_with_root_user _ _ _ _ _) as [s1 [[ea c]|e]]; [|done].
  by destruct (negb _).
Qed.

Lemma unmap_page_active s virt :
  vm_ok s (active_pml4 s) → active_pml4 s ≠ 0 → active_step s (unmap_page s virt).1.
Proof.
  intros Hok Hr. destruct (is_page_aligned virt) eqn:Hv.
  - rewrite unmap_page_as_pml4 by done. destruct (unmap_page_in_pml4 _ _ _) as [s1 r] eqn:E.
    destruct (unmap_grows _ _ _ _ _ Hok Hr Hv E) as [Hg Ha].
    apply unmap_spec in E as (Hok1 & _); [|done..].
    destruct r; split; try done; by destruct Hok1, Hg.
  - unfold unmap_page. rewrite Hv. by apply active_step_refl.
Qed.

Lemma unmap_pages_active virt l s :
  vm_ok s (active_pml4 s) → active_pml4 s ≠ 0 → active_step s (unmap_pages virt l s).
Proof.
  revert s. induction l as [|j l IH]; intros s Hok Hr; cbn [unmap_pages]; [by apply active_step_refl|].
  pose proof (unmap_page_active s (wrap64 (virt + j * PAGE_SIZE)) Hok Hr) as H1.
  eapply active_step_trans; [exact H1|]. destruct H1 as [? ? Ha]. apply IH; by rewrite Ha.
Qed.

Lemma map_pages_active virt flags pages i s s' r :
  vm_ok s (active_pml4 s) → map_pages virt flags i pages s = (s', r) → active_step s s'.
Proof.
  revert i s. induction pages as [|p pages IH]; intros i s Hok; cbn [map_pages].
  { intros [= <- <-]. by apply active_step_refl. }
  destruct (map_page s _ p flags) as [s1 [u|e]] eqn:E; apply map_page_active in E; try done.
  - intros E2. eapply active_step_trans; [exact E|]. eapply IH; [|exact E2].
    destruct E as [? ? Ha]. by rewrite Ha.
  - by intros [= <- <-].
Qed.

(** ** Every operation keeps the invariant *)

Lemma region_map_spec s r t virt f s' r' res :
  vm_ok s (active_pml4 s) → active_pml4 s ≠ 0 → region_map s r t virt f = (s', r', res) →
  active_step s s' ∧
  (r' = r ∨ existsb (mapped_by t) (sr_mappings r) = false ∧ r' = add_mapping r (mkRegionMapping t virt f)).
Proof.
  intros Hok Hroot. unfold region_map.
  destruct (negb _); [intros [= <- <- <-]; by auto using active_step_refl|].
  destruct (existsb _ _) eqn:Hex; [intros [= <- <- <-]; by auto using active_step_refl|].
  destruct (map_pages _ _ _ _ _) as [s1 [[i e]|]] eqn:E; apply map_pages_active in E; [|done|..|done].
  - intros [= <- <- <-]. split; [|by left]. eapply active_step_trans; [exact E|].
    destruct E as [? ? Ha]. apply unmap_pages_active; by rewrite Ha.
  - intros [= <- <- <-]. by auto.
Qed.

Lemma position_lookup {A} (f : A → bool) l i :
  position f l = Some i → ∃ x, l !! i = Some x ∧ f x = true.
Proof.
  revert i. induction l as [|x l IH]; intros i; simpl; [done|]. destruct (f x) eqn:Hf.
  - intros [= <-]. by exists x.
  - destruct (position f l) as [j|]; [|done]. intros [= <-]. by apply IH.
Qed.

Lemma region_unmap_spec s r t s' r' res :
  vm_ok s (active_pml4 s) → active_pml4 s ≠ 0 → region_unmap s r t = (s', r', res) →
  active_step s s' ∧
  (r' = r ∨ ∃ i x, sr_mappings r !! i = Some x ∧ r' = remove_mapping r i).
Proof.
  intros Hok Hroot. unfold region_unmap.
  destruct (position _ _) as [i|] eqn:Hp; [|intros [= <- <- <-]; by auto using active_step_refl].
  apply position_lookup in Hp as (x & Hx & _). rewrite Hx. intros [= <- <- <-].
  split; [by apply unmap_pages_active|]. right. eauto.
Qed.

Lemma region_ok_add p r qs t virt f :
  in_range 64 t → region_ok p r qs → existsb (mapped_by t) (sr_mappings r) = false →
  region_ok p (add_mapping r (mkRegionMapping t virt f)) qs.
Proof.
  intros Ht [] Hex. split; try done; cbn [add_mapping sr_mappings ref_count].
  - rewrite length_app, ro_count0. simpl. lia.
  - rewrite fmap_app. apply NoDup_app. split_and!; [done| |apply NoDup_singleton].
    intros t' (m & -> & Hm)%list_elem_of_fmap E%list_elem_of_singleton.
    assert (existsb (mapped_by t) (sr_mappings r) = true); [|congruence].
    apply existsb_exists. exists m. split; [by apply list_elem_of_In|]. unfold mapped_by. simpl in E. lia.
  - intros t'. rewrite fmap_app. intros [H|H]%elem_of_app; [by apply ro_ids0|].
    by apply list_elem_of_singleton in H as ->.
Qed.

(** Distinct 64-bit identifiers, so the count cannot leave its type. *)
Lemma NoDup_in_range w (l : list Z) : NoDup l → (∀ t, t ∈ l → in_range w t) → 0 ≤ w → Z.of_nat (length l) ≤ 2 ^ w.
Proof.
  intros Hnd Hr Hw. assert (length l ≤ length (seqZ 0 (2 ^ w)))%nat as Hle.
  { apply submseteq_length, NoDup_submseteq; [done|]. intros t Ht%Hr. apply elem_of_seqZ. unfold in_range in Ht. lia. }
  rewrite length_seqZ in Hle. pose proof (Z.pow_nonneg 2 w). lia.
Qed.

Lemma region_ok_remove p r qs i x :
  region_ok p r qs → sr_mappings r !! i = Some x → region_ok p (remove_mapping r i) qs.
Proof.
  intros [] Hi. pose proof (lookup_lt_Some _ _ _ Hi).
  pose proof (NoDup_in_range 64 _ ro_threads0 ro_ids0 ltac:(lia)) as Hb. rewrite length_fmap in Hb.
  split; try done; cbn [remove_mapping sr_mappings ref_count].
  - rewrite ro_count0, wrap_small, length_delete by (done || unfold in_range; lia). lia.
  - rewrite list_fmap_delete. eapply sublist_NoDup; [exact ro_threads0|apply sublist_delete].
  - intros t. rewrite list_fmap_delete. intros Ht. apply ro_ids0.
    eapply elem_of_submseteq; [done|apply sublist_submseteq, sublist_delete].
Qed.

(** Replacing the mappings of one region. *)
Lemma shm_ok_update m id r r' :
  shm_ok m → regions m !! id = Some r → sr_id r' = sr_id r → physical_pages r' = physical_pages r →
  (∀ qs, region_ok (vm_pmm (shm_vm m)) r qs → region_ok (vm_pmm (shm_vm m)) r' qs) →
  shm_ok (mkShm (shm_vm m) (<[id := r']> (regions m)) (next_region m)).
Proof.
  intros [Hok Hroot Hreg Hdis Htab] Hr Hid Hpp Hro.
  assert (∀ i r1, <[id := r']> (regions m) !! i = Some r1 →
    ∃ r2, regions m !! i = Some r2 ∧ physical_pages r1 = physical_pages r2) as Hsub.
  { intros i r1 [[<- <-]|[_ ?]]%lookup_insert_Some; eauto. }
  split; cbn [shm_vm regions next_region]; [done|done|..].
  - intros i r1 [[<- <-]|[_ H]]%lookup_insert_Some; [|by apply Hreg].
    destruct (Hreg _ _ Hr) as (<- & ? & qs & Hq). split_and!; [done..|]. exists qs. by apply Hro.
  - intros i j r1 r2 a (r3 & H1 & ->)%Hsub (r4 & H2 & ->)%Hsub. by eapply Hdis.
  - intros i r1 a ρ (r2 & H1 & ->)%Hsub. by eapply Htab.
Qed.

Lemma shm_map_ok m id t virt f :
  in_range 64 t → shm_ok m → shm_ok (shm_map_region m id t virt f).1.
Proof.
  intros Ht Hok. unfold shm_map_region. destruct (regions m !! id) as [r|] eqn:Hr; [|done].
  destruct (region_map _ _ _ _ _) as [[s r'] res] eqn:E.
  apply region_map_spec in E as [Hst Hr']; [|apply Hok..]. cbn [fst].
  destruct Hst as [H1 H2 H3]. pose proof (shm_ok_grows m s Hok H1 H2 H3) as Hok1.
  apply (shm_ok_update (set_shm_vm m s) id r r'); [done|done|..]; destruct Hr' as [->|[Hex ->]]; try done.
  intros qs Hq. by apply region_ok_add.
Qed.

Lemma shm_unmap_ok m id t : shm_ok m → shm_ok (shm_unmap_region m id t).1.
Proof.
  intros Hok. unfold shm_unmap_region. destruct (regions m !! id) as [r|] eqn:Hr; [|done].
  destruct (region_unmap _ _ _) as [[s r'] res] eqn:E.
  apply region_unmap_spec in E as [Hst Hr']; [|apply Hok..]. cbn [fst].
  destruct Hst as [H1 H2 H3]. pose proof (shm_ok_grows m s Hok H1 H2 H3) as Hok1.
  apply (shm_ok_update (set_shm_vm m s) id r r'); [done|done|..]; destruct Hr' as [->|(i & x & Hi & ->)]; try done.
  intros qs Hq. by eapply region_ok_remove.
Qed.

(** The pages of a region that is created were taken from the free ones. *)
Lemma region_new_spec root s id owner size s' res :
  vm_ok s root → in_range 64 size → SharedRegion_new s id owner size = (s', res) →
  match res with
  | Ok r => ∃ qs, r = mkRegion id owner (align_up size) (pages_of qs) [] 0 ∧
      align_up size = Z.of_nat (length qs) * PAGE_SIZE ∧ qs ≠ [] ∧ taken root s s' qs
  | Err e => vm_ok s' root ∧ free_set (vm_pmm s') = free_set (vm_pmm s) ∧ same_tables s s' root ∧
      (e = ShInvalidSize ∧ align_up size = 0 ∨
       e = ShOutOfMemory ∧ free_count (vm_pmm s) * PAGE_SIZE < align_up size)
  end.
Proof.
  intros Hok Hsize. unfold SharedRegion_new. destruct (align_up_range size Hsize) as [Hm H0].
  apply Z.div_exact in Hm; [|done].
  destruct (Z.eqb_spec (align_up size / PAGE_SIZE) 0) as [Hz|Hz].
  { intros [= <- <-]. split_and!; [done..|]. left. split; [done|]. rewrite Hm, Hz. done. }
  assert (0 < align_up size / PAGE_SIZE) as Hpos by (pose proof (Z.div_pos (align_up size) PAGE_SIZE H0); unfold PAGE_SIZE in *; lia).
  destruct (alloc_region_pages _ _ _) as [s1 o] eqn:E.
  apply (alloc_region_pages_spec root s _ s []) in E; [|done|by apply taken_refl]. destruct o as [pages|].
  - destruct E as (qs & -> & Hlen & Htk). intros [= <- <-]. exists qs. cbn [app] in *.
    split_and!; [done| | |done].
    + rewrite Hlen, Z2Nat.id by lia. unfold PAGE_SIZE in *. lia.
    + intros ->. simpl in Hlen. lia.
  - destruct E as (H1 & H2 & H3 & H4). intros [= <- <-]. split_and!; [done..|]. right. split; [done|].
    rewrite (pw_free _ (vo_pmm _ _ Hok)). simpl in H4. unfold PAGE_SIZE in *. lia.
Qed.

Lemma shm_create_ok m owner size :
  in_range 64 size → next_region m + 1 < 2 ^ 64 → 0 ≤ next_region m →
  shm_ok m → shm_ok (create_region m owner size).1.
Proof.
  intros Hsize Hnext H0 Hok. unfold create_region, RegionId_new. cbn [shm_vm regions next_region].
  rewrite wrap_small by (unfold in_range; lia).
  destruct (SharedRegion_new _ _ _ _) as [s res] eqn:E.
  pose proof Hok as [Hvm Hroot Hreg Hdis Htab].
  apply (region_new_spec (active_pml4 (shm_vm m))) in E; [|done|done]. destruct res as [r|e]; cbn [fst].
  - destruct E as (qs & -> & Hsz & Hne & [Hok' [Htb _ Ha Ht] Hnd Hsub Hfree _ _]).
    assert (Hnot : ∀ i r2 a, regions m !! i = Some r2 → a ∈ physical_pages r2 → a ∉ pages_of qs).
    { intros i r2 a Hr Ha2 (q & -> & Hq)%list_elem_of_fmap. destruct (Hreg _ _ Hr) as (_ & _ & qs' & Hro).
      rewrite (ro_pages _ _ _ Hro) in Ha2. apply list_elem_of_fmap in Ha2 as (q' & Hq' & Hin).
      assert (q = q') as -> by (unfold PAGE_SIZE in Hq'; lia).
      apply (ro_alloc _ _ _ Hro q' Hin), Hsub, Hq. }
    split; cbn [shm_vm regions next_region]; rewrite ?Ha; [done|done|..].
    + intros i r [[<- <-]|[_ H]]%lookup_insert_Some.
      * split_and!; [done|lia|]. exists qs. split; try done; [constructor|set_solver|].
        intros q Hq. rewrite Ht, Hfree. pose proof (free_set_lt _ _ (Hsub q Hq)). set_solver.
      * destruct (Hreg _ _ H) as (? & ? & qs' & Hro). split_and!; [done|lia|]. exists qs'.
        destruct Hro. split; try done. intros q Hq. rewrite Ht, Hfree. destruct (ro_alloc0 q Hq). set_solver.
    + intros i j r1 r2 a [[<- <-]|[_ H1]]%lookup_insert_Some [[<- <-]|[_ H2]]%lookup_insert_Some Hij Hin; try done.
      * intros Ha2. by apply (Hnot _ _ _ H2 Ha2).
      * by apply (Hnot _ _ _ H1 Hin).
      * by apply (Hdis i j r1 r2).
    + intros i r a ρ [[<- <-]|[_ H]]%lookup_insert_Some Hin Hρ; rewrite Htb by done; [|by eapply Htab].
      apply list_elem_of_fmap in Hin as (q & -> & Hq). intros Hx.
      destruct (pt_page _ _ _ (vo_pt _ _ Hvm) _ _ Hρ Hx) as (_ & _ & Hn).
      rewrite Z.div_mul in Hn by done. by apply Hn, Hsub.
  - destruct E as (H1 & H2 & [Htb _ Ha Ht] & _).
    destruct (shm_ok_vm m s Hok H1 Ha Ht) as [A1 A2 A3 A4 A5];
      [by rewrite H2|by intros ρ u Hρ; rewrite Htb by done; left|]. split; try done.
    intros i r Hr. destruct (A3 i r Hr) as (? & ? & ?). split_and!; [done| |done].
    cbn [set_shm_vm next_region] in *. lia.
Qed.

Lemma shm_destroy_ok m id caller : shm_ok m → shm_ok (destroy_region m id caller).1.
Proof.
  intros Hok. unfold destroy_region. destruct (regions m !! id) as [r|] eqn:Hr; [|done].
  destruct (negb _); [done|]. destruct (negb _); [done|]. cbn [fst].
  pose proof Hok as [Hvm Hroot Hreg Hdis Htab]. destruct (Hreg _ _ Hr) as (_ & _ & qs & Hro).
  unfold region_destroy. rewrite (ro_pages _ _ _ Hro).
  assert (Hmem : ∀ q, q ∈ qs → q * PAGE_SIZE ∈ physical_pages r).
  { intros q Hq. rewrite (ro_pages _ _ _ Hro). apply list_elem_of_fmap. eauto. }
  destruct (release_pages (active_pml4 (shm_vm m)) qs (shm_vm m)) as (Hok' & Hf & [Htb _ Ha Ht] & _); [done|..].
  - apply Forall_forall. intros q Hq. by apply (ro_alloc _ _ _ Hro).
  - intros q ρ Hq Hρ. by apply (Htab id r); [|apply Hmem|].
  - split; cbn [shm_vm regions next_region]; rewrite ?Ha; [done|done|..].
    + intros i r1 [Hne H1]%lookup_delete_Some. destruct (Hreg _ _ H1) as (? & ? & qs1 & Hro1).
      split_and!; [done..|]. exists qs1. pose proof Hro1 as []. split; try done.
      intros q Hq. rewrite Ht, Hf, not_elem_of_union, elem_of_list_to_set. destruct (ro_alloc0 q Hq).
      split; [done|]. split; [|done]. intros Hq2. apply (Hdis id i r r1 (q * PAGE_SIZE) Hr H1 Hne (Hmem q Hq2)).
      rewrite ro_pages0. apply list_elem_of_fmap. eauto.
    + intros i j r1 r2 a [_ H1]%lookup_delete_Some [_ H2]%lookup_delete_Some. by eapply Hdis.
    + intros i r1 a ρ [_ H1]%lookup_delete_Some Hin Hρ. rewrite Htb by done. by eapply Htab.
Qed.

(** ** Mapping a region *)

Lemma unmap_page_any s virt :
  vm_ok s (active_pml4 s) → active_pml4 s ≠ 0 → is_page_aligned virt = true →
  ∀ w, mapping (unmap_page s virt).1 (active_pml4 s) w =
    if decide (leaf_indices w = leaf_indices virt) then None else mapping s (active_pml4 s) w.
Proof.
  intros Hok Hr Hv. rewrite unmap_page_as_pml4 by done.
  destruct (unmap_page_in_pml4 _ _ _) as [s1 r] eqn:E. apply unmap_any in E as (_ & Hm & _); [|done..].
  by destruct r.
Qed.

Lemma page_at_wrap virt N i : low_region virt N → 0 ≤ i < N → wrap64 (virt + i * PAGE_SIZE) = page_at virt i.
Proof.
  intros Hlow Hi. apply wrap_small. destruct (low_region_page virt N i Hlow Hi) as [Hb _].
  unfold page_at, in_range in *. lia.
Qed.

Lemma unmap_pages_spec root virt N :
  root ≠ 0 → low_region virt N →
  ∀ (n : nat) k s, 0 ≤ k → k + Z.of_nat n ≤ N → vm_ok s root → active_pml4 s = root →
  range_unmapped root virt k (Z.of_nat n) s (unmap_pages virt (seqZ k (Z.of_nat n)) s).
Proof.
  intros Hroot Hlow n. induction n as [|n IH]; intros k s Hk HkN Hok Ha.
  - rewrite seqZ_nil by lia. split; [done|intros; lia|done].
  - rewrite seqZ_cons by lia. replace (Z.pred (Z.of_nat (S n))) with (Z.of_nat n) by lia. cbn [unmap_pages].
    rewrite (page_at_wrap virt N) by (done || lia).
    assert (Hlk : low_page (page_at virt k)) by (eapply low_region_page; [done|lia]).
    pose proof (unmap_page_any s (page_at virt k)) as Hm.
    pose proof (unmap_page_active s (page_at virt k)) as Hst. rewrite Ha in Hm, Hst.
    destruct (Hst Hok Hroot) as [Hok1 _ Ha1]. rewrite Ha in Hok1, Ha1.
    rewrite <- Z.add_1_r. replace (Z.of_nat (S n)) with (Z.of_nat n + 1) by lia.
    eapply range_unmapped_cons; [apply Hm; [done|done|by apply low_page_aligned]|lia|].
    apply IH; [lia|lia|done|done].
Qed.

Lemma map_pages_spec root virt frame flags N :
  root ≠ 0 → low_region virt N → (∀ i, is_page_aligned (frame i) = true) → pte_is_present flags = true →
  ∀ (n : nat) k s s' r,
  0 ≤ k → k + Z.of_nat n ≤ N → vm_ok s root → active_pml4 s = root →
  map_pages virt flags k (frame <$> seqZ k (Z.of_nat n)) s = (s', r) →
  ∃ c s1, 0 ≤ c ≤ Z.of_nat n ∧ range_mapped root virt frame flags k c s s1 ∧
    vm_ok s' root ∧ active_pml4 s' = root ∧ (∀ w, mapping s' root w = mapping s1 root w) ∧
    match r with None => c = Z.of_nat n | Some (i, _) => i = k + c end.
Proof.
  intros Hroot Hlow Hfr Hpres n. induction n as [|n IH]; intros k s s' r Hk HkN Hok Ha.
  - rewrite seqZ_nil by lia. intros [= <- <-]. exists 0, s. split_and!; try done; try lia.
    by apply range_mapped_nil.
  - rewrite seqZ_cons by lia. replace (Z.pred (Z.of_nat (S n))) with (Z.of_nat n) by lia.
    rewrite fmap_cons. cbn [map_pages]. rewrite (page_at_wrap virt N) by (done || lia).
    destruct (map_page _ _ _ _) as [s1 res] eqn:E.
    assert (Hlk : low_page (page_at virt k)) by (eapply low_region_page; [done|lia]).
    unfold map_page in E. rewrite (low_page_aligned _ Hlk), Hfr, Ha, (proj2 (Z.eqb_neq _ _) Hroot) in E.
    cbn [negb orb] in E. apply map_internal_spec in E as (Hok1 & Ha1 & Hr); [|done].
    destruct res as [u|e].
    2:{ intros [= <- <-]. destruct Hr as [_ Hm]. exists 0, s.
        split_and!; try done; try lia. by apply range_mapped_nil. }
    destruct Hr as (_ & _ & Hnone & _ & Hm). rewrite Hpres in Hm. rewrite <- Z.add_1_r.
    intros E2. apply IH in E2 as (c & s2 & Hc & Hrm & Hok' & Ha' & Hsame & Hres); [|lia|lia|done|congruence].
    exists (c + 1), s2. split_and!; try done; try lia.
    + by apply (range_mapped_cons _ _ _ _ N _ _ s s1); try lia.
    + destruct r as [[i e]|]; lia.
Qed.

(** The frame behind page [i] of a region. *)
Definition frame_of (r : SharedRegion) (i : Z) : Z := default 0 (physical_pages r !! Z.to_nat i).

Lemma frame_of_pages r : physical_pages r = frame_of r <$> seqZ 0 (Z.of_nat (length (physical_pages r))).
Proof.
  apply list_eq. intros i. rewrite list_lookup_fmap.
  destruct (physical_pages r !! i) as [a|] eqn:Ha.
  - pose proof (lookup_lt_Some _ _ _ Ha). rewrite lookup_seqZ_lt by lia. cbn [fmap option_fmap option_map].
    unfold frame_of. rewrite Z.add_0_l, Nat2Z.id. by rewrite Ha.
  - apply lookup_ge_None in Ha. by rewrite lookup_seqZ_ge by lia.
Qed.

Lemma page_flags_present f : pte_is_present (to_page_flags f) = true.
Proof. by destruct f as [[] [] []]. Qed.

Lemma frame_of_aligned p r qs i : region_ok p r qs → is_page_aligned (frame_of r i) = true.
Proof.
  intros Hro. unfold frame_of. rewrite (ro_pages _ _ _ Hro), list_lookup_fmap.
  destruct (qs !! Z.to_nat i); [|done]. apply Z.eqb_eq. by apply Z.mod_mul.
Qed.

(** Mapping a region into the lower half, in terms of the mapping. *)
Lemma region_map_effect s r t virt f s' r' res :
  vm_ok s (active_pml4 s) → active_pml4 s ≠ 0 → (∀ i, is_page_aligned (frame_of r i) = true) →
  low_region virt (Z.of_nat (length (physical_pages r))) →
  region_map s r t virt f = (s', r', res) →
  match res with
  | Ok _ => r' = add_mapping r (mkRegionMapping t virt f) ∧
      range_mapped (active_pml4 s) virt (frame_of r) (to_page_flags f) 0
        (Z.of_nat (length (physical_pages r))) s s'
  | Err _ => r' = r ∧ ∀ w, mapping s' (active_pml4 s) w = mapping s (active_pml4 s) w
  end.
Proof.
  intros Hok Hroot Hfr Hlow. unfold region_map.
  destruct (negb _); [by intros [= <- <- <-]|]. destruct (existsb _ _); [by intros [= <- <- <-]|].
  destruct (map_pages _ _ _ _ _) as [s1 o] eqn:E. rewrite (frame_of_pages r) in E.
  eapply map_pages_spec in E as (c & s2 & Hc & Hrm & Hok1 & Ha1 & Hsame & Ho);
    [|done|exact Hlow|done|by apply page_flags_present|lia|lia|done|done].
  destruct o as [[i e]|].
  - intros [= <- <- <-]. split; [done|]. subst i. rewrite Z.add_0_l, <- (Z2Nat.id c) by lia.
    pose proof (unmap_pages_spec _ virt _ Hroot Hlow (Z.to_nat c) 0 s1 ltac:(lia) ltac:(lia) Hok1 Ha1) as Hru.
    eapply rolled_back; [|by eapply range_unmapped_ext]. by rewrite Z2Nat.id by lia.
  - intros [= <- <- <-]. split; [done|]. subst c. by eapply range_mapped_ext.
Qed.

(** ** Properties *)

(** Any use of the manager, with thread identifiers and sizes of their type,
    before the region counter wraps; in between, the kernel may grow the
    tables of the active space. *)
Inductive shm_step : ShmManager → ShmManager → Prop :=
| sh_create m owner size :
    in_range 64 size → 0 ≤ next_region m → next_region m + 1 < 2 ^ 64 →
    shm_step m (create_region m owner size).1
| sh_map m id t virt f : in_range 64 t → shm_step m (shm_map_region m id t virt f).1
| sh_unmap m id t : shm_step m (shm_unmap_region m id t).1
| sh_destroy m id caller : shm_step m (destroy_region m id caller).1
| sh_other m s : active_step (shm_vm m) s → shm_step m (set_shm_vm m s).

(** C13. In every state reached by creating, mapping, unmapping and destroying
    regions, whatever the arguments: the reference count of a region is the
    number of its mappings and no thread maps a region twice; a region holds
    exactly the pages its size needs, all allocated; no page belongs to two
    regions; and no page of a region is a page table of the active space. *)
Theorem shared_mem_invariant m m' : shm_ok m → rtc shm_step m m' → shm_ok m'.
Proof.
  intros Hok Hs. revert Hok. induction Hs as [|m m1 m2 Hstep _ IH]; [done|]. intros Hok. apply IH. clear IH.
  destruct Hstep as [m owner size Hsz H0 H1|m id t virt f Ht|m id t|m id caller|m s []].
  - by apply shm_create_ok.
  - by apply shm_map_ok.
  - by apply shm_unmap_ok.
  - by apply shm_destroy_ok.
  - by apply shm_ok_grows.
Qed.

(** The permissions of an entry are those of [f]: user access always, writing
    and execution exactly when [f] has them. *)
Definition grants (e : Z) (f : RegionFlags) : Prop :=
  Z.testbit e 0 = true ∧ Z.testbit e 1 = rf_write f ∧ Z.testbit e 2 = true ∧ Z.testbit e 63 = negb (rf_execute f).

Lemma pte_grants phys f : grants (pte_set phys (to_page_flags f)) f.
Proof. unfold grants, pte_set. rewrite !Z.lor_spec, !Z.land_spec. by destruct f as [[] [] []]; rewrite !andb_false_r. Qed.

(** Creating a region. On success the region has the next identifier, holds
    exactly the pages its rounded size needs, all of them were free, are no
    longer free and read as zero, and neither another region nor any mapping
    changed. It fails for a size that rounds to zero pages, or when fewer
    pages are free than it needs - and then every page taken on the way is
    free again and the regions are as before. *)
Theorem create_region_correct m owner size m' r :
  shm_ok m → in_range 64 size → 0 ≤ next_region m → next_region m + 1 < 2 ^ 64 →
  create_region m owner size = (m', r) →
  next_region m' = next_region m + 1 ∧
  match r with
  | Ok id => id = next_region m ∧ regions m !! id = None ∧ ∃ qs,
      regions m' = <[id := mkRegion id owner (align_up size) (pages_of qs) [] 0]> (regions m) ∧
      align_up size = Z.of_nat (length qs) * PAGE_SIZE ∧
      taken (active_pml4 (shm_vm m)) (shm_vm m) (shm_vm m') qs
  | Err e => regions m' = regions m ∧ free_set (vm_pmm (shm_vm m')) = free_set (vm_pmm (shm_vm m)) ∧
      (e = ShInvalidSize ∧ align_up size = 0 ∨
       e = ShOutOfMemory ∧ free_count (vm_pmm (shm_vm m)) * PAGE_SIZE < align_up size)
  end.
Proof.
  intros Hok Hsize H0 Hnext. unfold create_region, RegionId_new. cbn [shm_vm regions next_region].
  rewrite wrap_small by (unfold in_range; lia).
  destruct (SharedRegion_new _ _ _ _) as [s res] eqn:E.
  apply (region_new_spec (active_pml4 (shm_vm m))) in E; [|apply Hok|done].
  destruct res as [rg|e]; intros [= <- <-]; (split; [done|]).
  - destruct E as (qs & -> & Hsz & _ & Htk). split; [done|]. split; [|by exists qs].
    destruct (regions m !! next_region m) as [r|] eqn:Hr; [|done].
    destruct (sm_region _ Hok _ _ Hr) as (_ & ? & _). lia.
  - destruct E as (_ & Hf & _ & He). done.
Qed.

(** Round trip: the owner can destroy a region it just created, and then
    the regions, the free pages and all mappings are what they were before. *)
Theorem create_destroy_roundtrip m owner size m' id :
  shm_ok m → in_range 64 size → 0 ≤ next_region m → next_region m + 1 < 2 ^ 64 →
  create_region m owner size = (m', Ok id) →
  ∃ m'', destroy_region m' id owner = (m'', Ok tt) ∧ regions m'' = regions m ∧
    free_set (vm_pmm (shm_vm m'')) = free_set (vm_pmm (shm_vm m)) ∧
    ∀ w, mapping (shm_vm m'') (active_pml4 (shm_vm m)) w = mapping (shm_vm m) (active_pml4 (shm_vm m)) w.
Proof.
  intros Hok Hsize H0 Hnext. unfold create_region, RegionId_new. cbn [shm_vm regions next_region].
  rewrite wrap_small by (unfold in_range; lia).
  destruct (SharedRegion_new _ _ _ _) as [s [rg|e]] eqn:E; [|done]. intros [= <- <-].
  apply (region_new_spec (active_pml4 (shm_vm m))) in E as (qs & -> & _ & _ & Htk); [|apply Hok|done].
  destruct (taken_release _ _ _ _ (sm_vm _ Hok) Htk) as (_ & Hf & Hst).
  unfold destroy_region. cbn [shm_vm regions next_region]. rewrite lookup_insert_eq. cbn [sr_owner].
  rewrite Z.eqb_refl. cbn [negb]. unfold can_destroy. cbn [ref_count]. cbn [Z.eqb negb].
  eexists. split; [done|]. cbn [regions shm_vm]. split_and!; [|exact Hf|apply Hst].
  apply delete_insert_id. destruct (regions m !! next_region m) as [r|] eqn:Hr; [|done].
  destruct (sm_region _ Hok _ _ Hr) as (_ & ? & _). lia.
Qed.

(** Destroying a region: refused for an unknown region, for anyone but its
    owner, and while a thread maps it. Otherwise exactly its pages become
    free, the region is gone, and nothing else changes. *)
Theorem destroy_region_correct m id caller :
  shm_ok m →
  match regions m !! id with
  | None => destroy_region m id caller = (m, Err ShInvalidRegion)
  | Some r =>
      if decide (sr_owner r ≠ caller) then destroy_region m id caller = (m, Err ShPermissionDenied)
      else if decide (sr_mappings r ≠ []) then destroy_region m id caller = (m, Err ShRegionInUse)
      else ∃ s qs, destroy_region m id caller = (mkShm s (delete id (regions m)) (next_region m), Ok tt) ∧
        physical_pages r = pages_of qs ∧
        free_set (vm_pmm s) = list_to_set qs ∪ free_set (vm_pmm (shm_vm m)) ∧
        list_to_set qs ## free_set (vm_pmm (shm_vm m)) ∧ vm_mem s = vm_mem (shm_vm m)
  end.
Proof.
  intros Hok. unfold destroy_region. destruct (regions m !! id) as [r|] eqn:Hr; [|done].
  destruct (sm_region _ Hok _ _ Hr) as (_ & _ & qs & Hro). case_decide as Ho.
  { by rewrite (proj2 (Z.eqb_neq _ _) Ho). }
  rewrite (proj2 (Z.eqb_eq (sr_owner r) caller)) by (by destruct (decide (sr_owner r = caller))).
  unfold can_destroy. rewrite (ro_count _ _ _ Hro). cbn [negb]. case_decide as Hm.
  { destruct (sr_mappings r); [done|]. done. }
  destruct (sr_mappings r); [|discriminate Hm]. cbn [length Z.of_nat Z.eqb negb]. unfold region_destroy.
  rewrite (ro_pages _ _ _ Hro). eexists _, qs. split; [done|]. split; [done|].
  destruct (release_pages (active_pml4 (shm_vm m)) qs (shm_vm m)) as (_ & Hf & _ & Hmem); [apply Hok|..].
  - apply Forall_forall. intros q Hq. by apply (ro_alloc _ _ _ Hro).
  - intros q ρ Hq Hρ. apply (sm_tables _ Hok id r); [done| |done].
    rewrite (ro_pages _ _ _ Hro). apply list_elem_of_fmap. eauto.
  - split_and!; [done| |done]. intros q Hq%elem_of_list_to_set. by apply (ro_alloc _ _ _ Hro).
Qed.

(** Mapping a region into the lower half is all or nothing, and gives
    exactly the requested rights. On success page [i] of the range, unmapped
    before, maps the region's [i]-th frame with user access, writable and
    executable exactly as requested; nothing else changed and the mapping is
    recorded. On an error no mapping and no region changed. *)
Theorem shm_map_correct m id t virt f m' res r :
  shm_ok m → regions m !! id = Some r → low_region virt (Z.of_nat (length (physical_pages r))) →
  shm_map_region m id t virt f = (m', res) →
  let root := active_pml4 (shm_vm m) in
  match res with
  | Ok _ =>
      regions m' = <[id := add_mapping r (mkRegionMapping t virt f)]> (regions m) ∧
      range_mapped root virt (frame_of r) (to_page_flags f) 0 (Z.of_nat (length (physical_pages r)))
        (shm_vm m) (shm_vm m') ∧
      ∀ i, 0 ≤ i < Z.of_nat (length (physical_pages r)) →
        ∃ e, mapping (shm_vm m') root (page_at virt i) = Some e ∧ grants e f
  | Err _ => regions m' = regions m ∧ ∀ w, mapping (shm_vm m') root w = mapping (shm_vm m) root w
  end.
Proof.
  intros Hok Hr Hlow. unfold shm_map_region. rewrite Hr.
  destruct (region_map _ _ _ _ _) as [[s r'] res'] eqn:E. intros [= <- <-].
  destruct (sm_region _ Hok _ _ Hr) as (_ & _ & qs & Hro).
  apply region_map_effect in E; [|apply Hok|apply Hok|intros i; by eapply frame_of_aligned|done].
  cbn [regions shm_vm]. destruct res'; destruct E as [-> Hm]; [|split; [by apply insert_id|done]].
  split_and!; [done|done|]. intros i Hi. rewrite (rm_in _ _ _ _ _ _ _ _ Hm i); [|lia|done].
  eexists. split; [done|]. apply pte_grants.
Qed.

(** ** Witnesses *)

Definition demo_shm : ShmManager := mkShm demo_space ∅ 1.

Lemma demo_shm_ok : shm_ok demo_shm.
Proof.
  split; cbn [demo_shm shm_vm regions].
  - exact (proj1 demo_space_fresh).
  - discriminate.
  - intros id r H. rewrite lookup_empty in H. discriminate H.
  - intros i j r1 r2 a H. rewrite lookup_empty in H. discriminate H.
  - intros id r a ρ H. rewrite lookup_empty in H. discriminate H.
Qed.

(** A region of 6 KiB, owned by thread 7. *)
Definition demo_shm1 : ShmManager := (create_region demo_shm 7 0x1800).1.
Definition demo_region : SharedRegion := mkRegion 1 7 0x2000 [0x11000; 0x12000] [] 0.

Lemma demo_size : in_range 64 0x1800.
Proof. split; [lia|reflexivity]. Qed.

Lemma demo_shm1_ok : shm_ok demo_shm1.
Proof. apply (shm_create_ok demo_shm 7 0x1800 demo_size); [reflexivity|discriminate|exact demo_shm_ok]. Qed.

Lemma demo_create : create_region demo_shm 7 0x1800 = (demo_shm1, Ok 1).
Proof.
  rewrite (surjective_pairing (create_region demo_shm 7 0x1800)) at 1. unfold demo_shm1. f_equal.
Qed.

Definition demo_shm2 : ShmManager := (shm_map_region demo_shm1 1 9 0x400000 read_write).1.
Definition demo_shm3 : ShmManager := (destroy_region demo_shm2 1 7).1.

Lemma shared_mem_invariant_witness : rtc shm_step demo_shm demo_shm3 ∧ shm_ok demo_shm3.
Proof.
  assert (shm_step demo_shm demo_shm1) as H1
    by (apply (sh_create demo_shm 7 0x1800 demo_size); [discriminate|reflexivity]).
  assert (shm_step demo_shm1 demo_shm2) as H2
    by (apply (sh_map demo_shm1 1 9 0x400000 read_write); split; [discriminate|reflexivity]).
  pose proof (sh_destroy demo_shm2 1 7 : shm_step demo_shm2 demo_shm3) as H3.
  pose proof (rtc_l _ _ _ _ H1 (rtc_l _ _ _ _ H2 (rtc_once _ _ H3))) as H.
  split; [exact H|]. exact (shared_mem_invariant _ _ demo_shm_ok H).
Defined.

Lemma create_region_correct_witness :
  ∃ qs, regions demo_shm1 = <[1 := mkRegion 1 7 0x2000 (pages_of qs) [] 0]> ∅ ∧
    taken 0x10000 demo_space (shm_vm demo_shm1) qs.
Proof.
  destruct (create_region_correct demo_shm 7 0x1800 demo_shm1 (Ok 1) demo_shm_ok demo_size)
    as (_ & _ & _ & qs & Hr & _ & Htk); [discriminate|reflexivity|exact demo_create|].
  exists qs. split; [exact Hr|exact Htk].
Defined.

Lemma create_destroy_roundtrip_witness :
  ∃ m, destroy_region demo_shm1 1 7 = (m, Ok tt) ∧ regions m = ∅ ∧
    free_set (vm_pmm (shm_vm m)) = free_set (vm_pmm (shm_vm demo_shm)).
Proof.
  destruct (create_destroy_roundtrip demo_shm 7 0x1800 demo_shm1 1 demo_shm_ok demo_size)
    as (m & Hd & Hr & Hf & _); [discriminate|reflexivity|exact demo_create|].
  exists m. split; [exact Hd|]. split; [exact Hr|exact Hf].
Defined.

Lemma demo_low : low_region 0x400000 2.
Proof. split; [split; [lia|reflexivity]|]. split; [lia|vm_compute; discriminate]. Qed.

Lemma shm_map_correct_witness :
  ∃ m, shm_map_region demo_shm1 1 9 0x400000 read_only = (m, Ok tt) ∧
    ∃ e, mapping (shm_vm m) (active_pml4 (shm_vm demo_shm1)) (page_at 0x400000 1) = Some e ∧
      grants e read_only.
Proof.
  assert ((shm_map_region demo_shm1 1 9 0x400000 read_only).2 = Ok tt) as Hr by (vm_compute; reflexivity).
  destruct (shm_map_region demo_shm1 1 9 0x400000 read_only) as [m r] eqn:E. cbn [snd] in Hr. subst r.
  exists m. split; [reflexivity|].
  destruct (shm_map_correct demo_shm1 1 9 0x400000 read_only m (Ok tt) demo_region demo_shm1_ok)
    as (_ & _ & H); [vm_compute; reflexivity|exact demo_low|exact E|].
  apply (H 1). split; [lia|reflexivity].
Defined.

Lemma destroy_region_correct_witness :
  destroy_region demo_shm2 1 7 = (demo_shm2, Err ShRegionInUse) ∧
  ∃ s, destroy_region demo_shm1 1 7 = (mkShm s ∅ 2, Ok tt).
Proof.
  pose proof (shm_map_ok demo_shm1 1 9 0x400000 read_write ltac:(split; [discriminate|reflexivity]) demo_shm1_ok)
    as Hok2. split.
  - assert (regions demo_shm2 !! 1 =
      Some (mkRegion 1 7 0x2000 [0x11000; 0x12000] [mkRegionMapping 9 0x400000 read_write] 1)) as Hr
      by (vm_compute; reflexivity).
    pose proof (destroy_region_correct demo_shm2 1 7 Hok2) as H. rewrite Hr in H. exact H.
  - assert (regions demo_shm1 !! 1 = Some demo_region) as Hr by (vm_compute; reflexivity).
    pose proof (destroy_region_correct demo_shm1 1 7 demo_shm1_ok) as H. rewrite Hr in H.
    destruct H as (s & qs & H & _). exists s. exact H.
Defined.
