(* ===== verification/Exec.v ===== *)
(** * Executable images

    Models [kernel/src/executable.rs]: the ATXF image format, the parser, the
    embedded image, and the loader that maps the sections into an address
    space and rolls back on failure.  Images are lists of bytes; the copy into
    physical memory writes single bytes of the word memory. *)

From S2P Require Import Prelude Pmm Vm AddrSpace.

Definition ATXF_MAGIC : Z := 0x41545846.
Definition ATXF_VERSION : Z := 1.
Definition USER_EXEC_LOAD_BASE : Z := 0x00400000.
Definition EMBEDDED_TEXT_OFFSET : Z := PAGE_SIZE.
Definition EMBEDDED_TEXT_SIZE : Z := PAGE_SIZE.
Definition EMBEDDED_DATA_OFFSET : Z := EMBEDDED_TEXT_OFFSET + EMBEDDED_TEXT_SIZE.
Definition EMBEDDED_BSS_SIZE : Z := PAGE_SIZE.
Definition EMBEDDED_IMAGE_SIZE : Z := EMBEDDED_DATA_OFFSET.
Definition EMBEDDED_TEXT : list Z := [0x48; 0xC7; 0xC0; 0; 0; 0; 0; 0x0F; 0x05; 0xEB; 0xF7].

Inductive ExecError :=
| MissingImage
| InvalidMagic
| UnsupportedVersion (v : Z)
| Truncated
| MisalignedSection
| OverlappingSection
| EntryOutOfBounds
| ExecOutOfMemory
| ExecAddressSpace (e : AddressSpaceError)
| NonCanonicalLayout.

#[export] Instance ExecError_eq_dec : EqDecision ExecError.
Proof. solve_decision. Defined.

(** ** The image *)

Record AtxfHeader := mkHeader {
  h_magic : Z;
  h_version : Z;
  h_header_size : Z;
  h_entry_offset : Z;
  h_text_offset : Z;
  h_text_size : Z;
  h_data_offset : Z;
  h_data_size : Z;
  h_bss_size : Z;
}.

(** [size_of::<AtxfHeader>()] *)
Definition HEADER_BYTES : Z := 32.

(** Little-endian fields of the packed header. *)
Definition read_header (image : list Z) : AtxfHeader :=
  mkHeader (field image 0 4) (field image 4 2) (field image 6 2) (field image 8 4) (field image 12 4)
    (field image 16 4) (field image 20 4) (field image 24 4) (field image 28 4).

Definition header_bytes (h : AtxfHeader) : list Z :=
  le_bytes 4 (h_magic h) ++ le_bytes 2 (h_version h) ++ le_bytes 2 (h_header_size h) ++
  le_bytes 4 (h_entry_offset h) ++ le_bytes 4 (h_text_offset h) ++ le_bytes 4 (h_text_size h) ++
  le_bytes 4 (h_data_offset h) ++ le_bytes 4 (h_data_size h) ++ le_bytes 4 (h_bss_size h).

Record ExecutableSections := mkSections {
  entry_offset : Z;
  text : list Z;
  data : list Z;
  bss_size : Z;
}.

(** [&image[off..off + size]] *)
Definition slice (image : list Z) (off size : Z) : list Z := take (Z.to_nat size) (drop (Z.to_nat off) image).

(** [parse_image]; the overlap test adds in [u32]. *)
Definition parse_image (image : list Z) : result ExecutableSections ExecError :=
  let len := Z.of_nat (length image) in
  if len <? HEADER_BYTES then Err Truncated
  else
    let raw := read_header image in
    if negb (h_magic raw =? ATXF_MAGIC) then Err InvalidMagic
    else if negb (h_version raw =? ATXF_VERSION) then Err (UnsupportedVersion (h_version raw))
    else
      let header_size := h_header_size raw in
      if header_size <? HEADER_BYTES then Err Truncated
      else if negb (h_text_offset raw mod PAGE_SIZE =? 0) || negb (h_data_offset raw mod PAGE_SIZE =? 0) then
        Err MisalignedSection
      else if (h_text_offset raw <? header_size) || (h_data_offset raw <? header_size) then
        Err OverlappingSection
      else if len <? h_text_offset raw + h_text_size raw then Err Truncated
      else
        let data_end := h_data_offset raw + h_data_size raw in
        if len <? data_end then Err Truncated
        else if ((h_text_offset raw <=? h_data_offset raw) &&
                 (h_data_offset raw <? wrap32 (h_text_offset raw + h_text_size raw))) ||
                ((h_data_offset raw <=? h_text_offset raw) &&
                 (h_text_offset raw <? wrap32 (h_data_offset raw + h_data_size raw))) then
          Err OverlappingSection
        else if h_text_size raw <=? h_entry_offset raw then Err EntryOutOfBounds
        else if len <? header_size then Err Truncated
        else
          Ok (mkSections (h_entry_offset raw)
                (slice image (h_text_offset raw) (h_text_size raw))
                (slice image (h_data_offset raw) (h_data_size raw))
                (h_bss_size raw)).

(** [dst[off..off + src.len()].copy_from_slice(src)] *)
Definition copy_at (dst : list Z) (off : Z) (src : list Z) : list Z :=
  take (Z.to_nat off) dst ++ src ++ drop (Z.to_nat off + length src) dst.

Definition embedded_header : AtxfHeader :=
  mkHeader ATXF_MAGIC ATXF_VERSION (wrap16 HEADER_BYTES) 0 (wrap32 EMBEDDED_TEXT_OFFSET)
    (wrap32 EMBEDDED_TEXT_SIZE) (wrap32 EMBEDDED_DATA_OFFSET) 0 (wrap32 EMBEDDED_BSS_SIZE).

Definition build_embedded_image : list Z :=
  let image := replicate (Z.to_nat EMBEDDED_IMAGE_SIZE) 0 in
  let image := copy_at image 0 (header_bytes embedded_header) in
  copy_at image EMBEDDED_TEXT_OFFSET EMBEDDED_TEXT.

(** ** Bytes of the word memory *)

Definition byte_read (m : Memory) (a : Z) : Z :=
  Z.land (Z.shiftr (mem_read m (a - a mod 8)) (8 * (a mod 8))) 255.

Definition byte_write (m : Memory) (a b : Z) : Memory :=
  let w := a - a mod 8 in
  let k := 8 * (a mod 8) in
  mem_write m w (Z.lor (Z.ldiff (mem_read m w) (Z.shiftl 255 k)) (Z.shiftl b k)).

(** [ptr::copy_nonoverlapping] to [addr] *)
Fixpoint copy_bytes (m : Memory) (addr : Z) (bytes : list Z) : Memory :=
  match bytes with
  | [] => m
  | b :: bytes => copy_bytes (byte_write m addr b) (addr + 1) bytes
  end.

(** [slice::from_raw_parts] *)
Definition read_bytes (m : Memory) (addr size : Z) : list Z := (λ i, byte_read m (addr + i)) <$> seqZ 0 size.

Record ExecutableImage := mkImage { img_ptr : Z; img_size : Z }.

Definition is_present (p : ExecutableImage) : bool := negb (img_ptr p =? 0) && (0 <? img_size p).

Definition parse_boot_image (m : Memory) (payload : ExecutableImage) : result ExecutableSections ExecError :=
  if negb (is_present payload) then Err MissingImage
  else parse_image (read_bytes m (img_ptr payload) (img_size payload)).

(** ** Loading *)

Record LoadedExecutable := mkLoaded { entry_point : Z; text_base : Z; data_base : Z; bss_base : Z }.

(** [pmm::alloc_pages_zeroed] and [pmm::free_pages] on the state. *)
Definition vm_alloc_pages_zeroed (s : Vm) (count : Z) : Vm * option Z :=
  let '(p, m, r) := alloc_pages_zeroed (vm_pmm s) (vm_mem s) count in
  (mkVm p m (active_pml4 s) (mapped_pages s) (page_table_pages s) (invlpg s), r).

Definition vm_free_pages (s : Vm) (addr count : Z) : Vm :=
  mkVm (free_pages (vm_pmm s) addr count) (vm_mem s) (active_pml4 s) (mapped_pages s) (page_table_pages s)
    (invlpg s).

Definition vm_copy_bytes (s : Vm) (addr : Z) (bytes : list Z) : Vm :=
  mkVm (vm_pmm s) (copy_bytes (vm_mem s) addr bytes) (active_pml4 s) (mapped_pages s) (page_table_pages s)
    (invlpg s).

(** A mapping to undo: virtual address, frame, size. *)
Abbreviation Segment := (Z * Z * Z)%type.

Definition map_segment (m : AsManager) (address_space owner virt_start : Z) (bytes : list Z) (flags : Z)
    : AsManager * result (option Segment) ExecError :=
  match bytes with
  | [] => (m, Ok None)
  | _ =>
      let size := align_up (Z.of_nat (length bytes)) in
      let pages := size / PAGE_SIZE in
      match vm_alloc_pages_zeroed (as_vm m) pages with
      | (v, None) => (set_as_vm m v, Err ExecOutOfMemory)
      | (v, Some phys_base) =>
          let m := set_as_vm m (vm_copy_bytes v phys_base bytes) in
          match map_region m address_space owner virt_start phys_base size flags with
          | (m, Ok _) => (m, Ok (Some (virt_start, phys_base, size)))
          | (m, Err err) => (set_as_vm m (vm_free_pages (as_vm m) phys_base pages), Err (ExecAddressSpace err))
          end
      end
  end.

Definition map_zeroed_segment (m : AsManager) (address_space owner virt_start size flags : Z)
    : AsManager * result (option Segment) ExecError :=
  if size =? 0 then (m, Ok None)
  else
    let aligned_size := align_up size in
    let pages := aligned_size / PAGE_SIZE in
    match vm_alloc_pages_zeroed (as_vm m) pages with
    | (v, None) => (set_as_vm m v, Err ExecOutOfMemory)
    | (v, Some phys_base) =>
        match map_region (set_as_vm m v) address_space owner virt_start phys_base aligned_size flags with
        | (m, Ok _) => (m, Ok (Some (virt_start, phys_base, aligned_size)))
        | (m, Err err) => (set_as_vm m (vm_free_pages (as_vm m) phys_base pages), Err (ExecAddressSpace err))
        end
    end.

(** [Drop for RollbackGuard], armed: undo the mappings, last one first. *)
Definition undo_segment (address_space owner : Z) (m : AsManager) (seg : Segment) : AsManager :=
  let '(virt, phys, size) := seg in
  let pages := size / PAGE_SIZE in
  let m := (unmap_region m address_space owner virt size).1 in
  set_as_vm m (vm_free_pages (as_vm m) phys pages).

Definition RollbackGuard_drop (address_space owner : Z) (m : AsManager) (mapped : list Segment) : AsManager :=
  foldl (undo_segment address_space owner) m (reverse mapped).

(** [rollback.track(mapping)] when there is one. *)
Definition track (mapped : list Segment) (seg : option Segment) : list Segment :=
  match seg with Some s => mapped ++ [s] | None => mapped end.

Definition TEXT_FLAGS : Z := Z.lor PF_PRESENT PF_USER.
Definition DATA_FLAGS : Z := Z.lor (Z.lor PF_PRESENT PF_USER) PF_WRITABLE.

(** Where [do_load] puts the sections. *)
Definition layout (sections : ExecutableSections) : LoadedExecutable :=
  let tb := USER_EXEC_LOAD_BASE in
  let text_size := align_up (Z.of_nat (length (text sections))) in
  let db := align_up (wrap64 (tb + text_size)) in
  let data_size := align_up (Z.of_nat (length (data sections))) in
  let bb := align_up (wrap64 (db + data_size)) in
  mkLoaded (USER_EXEC_LOAD_BASE + entry_offset sections) tb db bb.

(** The body of [do_load] once the layout [l] and the size [bss] of the bss are known. *)
Definition load_at (l : LoadedExecutable) (bss : Z) (m : AsManager) (sections : ExecutableSections)
    (address_space owner : Z) : AsManager * result LoadedExecutable ExecError :=
  if USER_CANONICAL_MAX <? saturating_add 64 (bss_base l) bss then (m, Err NonCanonicalLayout)
  else
    let abort m mapped e := (RollbackGuard_drop address_space owner m mapped, Err e) in
    match map_segment m address_space owner (text_base l) (text sections) TEXT_FLAGS with
    | (m, Err e) => abort m [] e
    | (m, Ok seg) =>
        let mapped := track [] seg in
        match map_segment m address_space owner (data_base l) (data sections) DATA_FLAGS with
        | (m, Err e) => abort m mapped e
        | (m, Ok seg) =>
            let mapped := track mapped seg in
            if 0 <? bss_size sections then
              match map_zeroed_segment m address_space owner (bss_base l) bss DATA_FLAGS with
              | (m, Err e) => abort m mapped e
              | (m, Ok _) => (m, Ok l)
              end
            else (m, Ok l)
        end
    end.

Definition do_load (m : AsManager) (sections : ExecutableSections) (address_space owner : Z)
    : AsManager * result LoadedExecutable ExecError :=
  load_at (layout sections) (align_up (bss_size sections)) m sections address_space owner.

Definition load_into_address_space (m : AsManager) (image : list Z) (address_space owner : Z)
    : AsManager * result LoadedExecutable ExecError :=
  match parse_image image with
  | Err e => (m, Err e)
  | Ok sections => do_load m sections address_space owner
  end.

Definition load_boot_payload (m : AsManager) (payload : ExecutableImage) (address_space owner : Z)
    : AsManager * result LoadedExecutable ExecError :=
  match parse_boot_image (vm_mem (as_vm m)) payload with
  | Err e => (m, Err e)
  | Ok sections => do_load m sections address_space owner
  end.
