(* ===== verification/ExecSafety.v ===== *)
(** * Executable images: properties

    The parser of [Exec.v] accepts exactly the well-formed images; loading is
    all or nothing, and a loaded image can be read back through the page
    tables. *)

From S2P Require Import Prelude Pmm PmmSafety Vm VmSafety VmInit VmRange VmPages AddrSpace AddrSpaceSafety Exec.

(** ** Bytes in words *)

Lemma byte_split a : a = a - a mod 8 + a mod 8 ∧ 0 ≤ a mod 8 < 8 ∧ (a - a mod 8) mod 8 = 0.
Proof.
  pose proof (Z.mod_pos_bound a 8 ltac:(lia)). split_and!; [lia|lia|lia|].
  rewrite Zminus_mod_idemp_r. by rewrite Z.sub_diag.
Qed.

Lemma byte_read_write m a b : is_byte b → byte_read (byte_write m a b) a = b.
Proof.
  intros Hb. unfold byte_read, byte_write. rewrite mem_read_write. pose proof (byte_split a) as (_ & Hk & _).
  change 255 with (Z.ones 8). bitwise i.
  rewrite Z.shiftr_spec, Z.lor_spec, Z.ldiff_spec, !Z.shiftl_spec by lia.
  replace (i + 8 * (a mod 8) - 8 * (a mod 8)) with i by lia.
  rewrite !Z.testbit_ones_nonneg by lia. destruct (Z.ltb_spec i 8).
  - by rewrite andb_false_r, andb_true_r.
  - rewrite andb_false_r. symmetry. by apply (testbit_in_range 8 b i).
Qed.

Lemma byte_read_write_ne m a b a' : is_byte b → a ≠ a' → byte_read (byte_write m a b) a' = byte_read m a'.
Proof.
  intros Hb Hne. unfold byte_read, byte_write.
  pose proof (byte_split a) as (Ha & Hk & _). pose proof (byte_split a') as (Ha' & Hk' & _).
  destruct (decide (a - a mod 8 = a' - a' mod 8)) as [E|E]; [|by rewrite mem_read_write_ne].
  rewrite <- E, mem_read_write. assert (a mod 8 ≠ a' mod 8) as Hm by lia.
  change 255 with (Z.ones 8). bitwise i.
  rewrite !Z.shiftr_spec, Z.lor_spec, Z.ldiff_spec, !Z.shiftl_spec, !Z.testbit_ones by lia.
  destruct (Z.ltb_spec i 8); [|by rewrite !andb_false_r]. rewrite !andb_true_r.
  set (j := i + 8 * (a' mod 8) - 8 * (a mod 8)). destruct (Z.leb_spec 0 j) as [Hle|Hlt].
  - rewrite (testbit_in_range 8 b j) by (done || lia). destruct (Z.ltb_spec j 8); [lia|].
    by rewrite andb_true_r, orb_false_r.
  - rewrite (Z.testbit_neg_r b) by lia. by rewrite andb_true_r, orb_false_r.
Qed.

(** *** Copying *)

Lemma copy_bytes_out m addr l a :
  Forall is_byte l → ¬ (addr ≤ a < addr + Z.of_nat (length l)) → byte_read (copy_bytes m addr l) a = byte_read m a.
Proof.
  revert m addr. induction l as [|b l IH]; intros m addr Hl Ha; cbn [copy_bytes]; [done|].
  apply Forall_cons in Hl as [Hb Hl]. cbn [length] in Ha.
  rewrite IH, byte_read_write_ne; [done|done|lia|done|lia].
Qed.

Lemma copy_bytes_in m addr l i b :
  Forall is_byte l → l !! i = Some b → byte_read (copy_bytes m addr l) (addr + Z.of_nat i) = b.
Proof.
  revert m addr i. induction l as [|c l IH]; intros m addr i Hl Hi; [done|]. cbn [copy_bytes].
  apply Forall_cons in Hl as [Hc Hl]. destruct i as [|i].
  - injection Hi as ->. rewrite Z.add_0_r, copy_bytes_out by (done || lia). by apply byte_read_write.
  - rewrite <- (IH (byte_write m addr c) (addr + 1) i) by done. f_equal. lia.
Qed.

(** Words that hold none of the bytes. *)
Lemma copy_bytes_word m addr l w :
  (∀ i, 0 ≤ i < Z.of_nat (length l) → addr + i - (addr + i) mod 8 ≠ w) →
  mem_read (copy_bytes m addr l) w = mem_read m w.
Proof.
  revert m addr. induction l as [|b l IH]; intros m addr Hw; cbn [copy_bytes]; [done|]. cbn [length] in Hw.
  rewrite IH.
  - unfold byte_write. apply mem_read_write_ne. specialize (Hw 0). rewrite Z.add_0_r in Hw. apply Hw. lia.
  - intros i Hi. replace (addr + 1 + i) with (addr + (i + 1)) by lia. apply Hw. lia.
Qed.

(** The page of a byte is the page of its word. *)
Lemma word_page a : (a - a mod 8) / PAGE_SIZE = a / PAGE_SIZE.
Proof.
  destruct (byte_split a) as (Ha & Hk & Hm). apply Z.mod_divide in Hm as [x Hx]; [|done].
  transitivity ((x * 8 + a mod 8) / PAGE_SIZE); [|f_equal; lia]. rewrite Hx. unfold PAGE_SIZE.
  change 4096 with (8 * 512).
  rewrite <- !Z.div_div, Z.div_mul, Z.div_add_l, (Z.div_small (a mod 8)) by lia. by rewrite Z.add_0_r.
Qed.

(** ** The image *)

(** A well-formed image of [len] bytes, in terms of its header: known magic
    and version, page-aligned sections after the header and inside the image,
    neither of them starting inside the other, and an entry in the text. *)
Record valid_image (h : AtxfHeader) (len : Z) : Prop := {
  vi_magic : h_magic h = ATXF_MAGIC;
  vi_version : h_version h = ATXF_VERSION;
  vi_header : HEADER_BYTES ≤ h_header_size h ≤ len;
  vi_text_al : h_text_offset h mod PAGE_SIZE = 0;
  vi_data_al : h_data_offset h mod PAGE_SIZE = 0;
  vi_text_in : h_header_size h ≤ h_text_offset h ∧ h_text_offset h + h_text_size h ≤ len;
  vi_data_in : h_header_size h ≤ h_data_offset h ∧ h_data_offset h + h_data_size h ≤ len;
  vi_apart : ¬ (h_text_offset h ≤ h_data_offset h < h_text_offset h + h_text_size h) ∧
             ¬ (h_data_offset h ≤ h_text_offset h < h_data_offset h + h_data_size h);
  vi_entry : h_entry_offset h < h_text_size h;
}.

Definition sections_of (image : list Z) : ExecutableSections :=
  let h := read_header image in
  mkSections (h_entry_offset h) (slice image (h_text_offset h) (h_text_size h))
    (slice image (h_data_offset h) (h_data_size h)) (h_bss_size h).

Lemma header_range image :
  Forall is_byte image →
  0 ≤ h_text_offset (read_header image) ∧ 0 ≤ h_text_size (read_header image) ∧
  0 ≤ h_data_offset (read_header image) ∧ 0 ≤ h_data_size (read_header image) ∧
  0 ≤ h_entry_offset (read_header image) ∧ in_range 32 (h_bss_size (read_header image)).
Proof.
  intros Hi. cbn [read_header h_text_offset h_text_size h_data_offset h_data_size h_entry_offset h_bss_size].
  split_and!; try by apply (field_range image _ 4 32 Hi).
Qed.

Lemma parse_image_iff image s :
  Forall is_byte image → Z.of_nat (length image) < 2 ^ 32 →
  parse_image image = Ok s ↔
  HEADER_BYTES ≤ Z.of_nat (length image) ∧ valid_image (read_header image) (Z.of_nat (length image)) ∧
  s = sections_of image.
Proof.
  intros Hi Hlen. pose proof (header_range image Hi) as (H1 & H2 & H3 & H4 & H5 & _). unfold parse_image, sections_of.
  set (h := read_header image) in *. set (len := Z.of_nat (length image)) in *. clearbody h len. cbv zeta.
  split.
  - repeat match goal with |- (if ?b then _ else _) = Ok _ → _ => destruct b eqn:?; [done|] end.
    intros [= <-]. repeat match goal with H : _ || _ = false |- _ => apply orb_false_iff in H as [? ?] end.
    rewrite ?negb_false_iff, ?andb_false_iff, ?Z.ltb_ge, ?Z.leb_gt, ?Z.eqb_eq in *.
    rewrite !wrap_small in * by (unfold in_range; lia).
    split_and!; [done| |done]. split; try done; lia.
  - intros (Hh & [] & ->). rewrite !wrap_small by (unfold in_range; lia).
    repeat match goal with
    | |- (if ?b then _ else _) = Ok _ => destruct b eqn:E; [exfalso|clear E]
    end; [..|done].
    all: repeat match goal with H : _ || _ = true |- _ => apply orb_true_iff in H as [H|H] end.
    all: rewrite ?negb_true_iff, ?andb_true_iff, ?Z.ltb_lt, ?Z.leb_le, ?Z.eqb_neq in E.
    all: try lia; done.
Qed.

(** ** Runs of pages *)

Lemma alloc_run s root n s' r :
  vm_ok s root → 1 ≤ n → vm_alloc_pages_zeroed s n = (s', r) →
  match r with
  | None => s' = s
  | Some a => ∃ start, a = start * PAGE_SIZE ∧ 0 ≤ start ∧ start + n ≤ total_pages (vm_pmm s) ∧
      taken root s s' (seqZ start n)
  end.
Proof.
  intros Hok Hn. unfold vm_alloc_pages_zeroed, alloc_pages_zeroed. rewrite Z.max_l by lia.
  destruct (alloc_pages_spec _ n (vo_pmm _ _ Hok) Hn) as [[-> _]|(start & p' & -> & [Hs Hrun _ Ht Hf Hwf])].
  { intros [= <- <-]. by destruct s. }
  intros [= <- <-]. exists start. set (s' := mkVm _ _ _ _ _ _).
  assert (Hout : ∀ a, (∀ q, start ≤ q < start + n → ¬ (q * PAGE_SIZE ≤ a < q * PAGE_SIZE + PAGE_SIZE)) →
    mem_read (vm_mem s') a = mem_read (vm_mem s) a).
  { intros a Ha. apply zero_words_out. intros i Hi ->. unfold PAGE_SIZE in *.
    apply (Ha (start + i / 512)); [|pose proof (Z.div_mod i 512); pose proof (Z.mod_pos_bound i 512); lia].
    replace (n * 4096 / 8) with (n * 512) in Hi by (rewrite <- (Z.div_mul (n * 512) 8) by lia; f_equal; lia).
    pose proof (Z.div_pos i 512). pose proof (Z.div_lt_upper_bound i 512 n). lia. }
  assert (same_tables s s' root) as Hst.
  { apply tables_frame; [done| |done|done]. intros a Ha. apply Hout. intros q Hq <-%in_page. apply Ha, Hrun.
    by apply elem_of_run_set. }
  split_and!; [done|done| |].
  { assert (start + n - 1 ∈ free_set (vm_pmm s)) as Hlast%free_set_lt by (apply Hrun, elem_of_run_set; lia). lia. }
  split; [split; [done|]|done|apply NoDup_seqZ|..].
  - eapply pt_wf_ext; [apply Hst| |apply Hok]. cbn [vm_pmm s']. rewrite Hf. by apply subseteq_difference_l.
  - intros q Hq%elem_of_seqZ. apply Hrun. by apply elem_of_run_set.
  - done.
  - intros q j Hq%elem_of_seqZ Hj. unfold s', slot. cbn [vm_mem].
    replace (q * PAGE_SIZE + 8 * j) with (start * PAGE_SIZE + 8 * ((q - start) * 512 + j))
      by (unfold PAGE_SIZE; lia).
    apply zero_words_in. unfold idx, PAGE_SIZE in *.
    replace (n * 4096 / 8) with (n * 512) by (rewrite <- (Z.div_mul (n * 512) 8) by lia; f_equal; lia). lia.
  - intros b Hb. apply Hout. intros q Hq. apply Hb. apply elem_of_seqZ. lia.
Qed.

Lemma free_run s start n :
  0 ≤ start → start + n ≤ MAX_PAGES →
  vm_free_pages s (start * PAGE_SIZE) n = foldl vm_free_page s (pages_of (seqZ start n)).
Proof.
  intros Hs Hn. unfold vm_free_pages, free_pages.
  assert (pages_of (seqZ start n) = (λ i, wrap64 (start * PAGE_SIZE + i * PAGE_SIZE)) <$> seqZ 0 n) as ->.
  { replace (seqZ start n) with (Z.add start <$> seqZ 0 n).
    - rewrite <- list_fmap_compose. apply list_fmap_ext. intros k i Hi%lookup_seqZ.
      unfold MAX_PAGES, PAGE_SIZE, compose in *. rewrite wrap_small by (unfold in_range; lia). lia.
    - rewrite (fmap_add_seqZ start 0 n). f_equal. lia. }
  generalize (seqZ 0 n) as l. clear. intros l. revert s. induction l as [|i l IH]; intros s; [by destruct s|].
  rewrite fmap_cons. cbn [foldl]. rewrite <- IH. done.
Qed.
