(* ===== verification/ExecLoad.v ===== *)
(** * Loading executables: properties

    Loading an image is all or nothing: a failed load leaves every mapping and
    record as it was and gives its pages back; after a successful load every
    byte of the image can be read at its address through the page tables. *)

From S2P Require Import Prelude Pmm PmmSafety Vm VmSafety VmInit VmRange VmPages AddrSpace AddrSpaceSafety.
From S2P Require Import Exec ExecSafety.

(** ** One segment *)

(** The common body of [map_segment] and [map_zeroed_segment]. *)
Definition segment_core (m : AsManager) (id owner virt : Z) (bytes : list Z) (size flags : Z)
    : AsManager * result (option Segment) ExecError :=
  match vm_alloc_pages_zeroed (as_vm m) (size / PAGE_SIZE) with
  | (v, None) => (set_as_vm m v, Err ExecOutOfMemory)
  | (v, Some phys) =>
      match map_region (set_as_vm m (vm_copy_bytes v phys bytes)) id owner virt phys size flags with
      | (m, Ok _) => (m, Ok (Some (virt, phys, size)))
      | (m, Err err) =>
          (set_as_vm m (vm_free_pages (as_vm m) phys (size / PAGE_SIZE)), Err (ExecAddressSpace err))
      end
  end.

Lemma map_segment_core m id owner virt bytes flags :
  bytes ≠ [] →
  map_segment m id owner virt bytes flags =
  segment_core m id owner virt bytes (align_up (Z.of_nat (length bytes))) flags.
Proof. by destruct bytes. Qed.

Lemma vm_copy_nil v a : vm_copy_bytes v a [] = v.
Proof. by destruct v. Qed.

Lemma map_zeroed_core m id owner virt size flags :
  size ≠ 0 →
  map_zeroed_segment m id owner virt size flags = segment_core m id owner virt [] (align_up size) flags.
Proof.
  intros Hs. unfold map_zeroed_segment, segment_core. rewrite (proj2 (Z.eqb_neq _ _) Hs). cbv zeta.
  destruct (vm_alloc_pages_zeroed _ _) as [v [phys|]]; [|done]. by rewrite vm_copy_nil.
Qed.

Lemma align_up_pages n : 0 ≤ n → n * PAGE_SIZE + PAGE_SIZE - 1 < 2 ^ 64 → align_up (n * PAGE_SIZE) = n * PAGE_SIZE.
Proof.
  intros Hn Hb. destruct (align_correct (n * PAGE_SIZE)) as (_ & _ & _ & _ & H); [unfold PAGE_SIZE; lia|done|].
  apply H, Z.eqb_eq. by apply Z.mod_mul.
Qed.

Lemma region_pages_exact n : 0 ≤ n → n * PAGE_SIZE + PAGE_SIZE - 1 < 2 ^ 64 → region_pages_of (n * PAGE_SIZE) = n.
Proof. intros Hn Hb. unfold region_pages_of. rewrite align_up_pages by done. by apply Z.div_mul. Qed.

(** The segment of [n] pages at [virt], with frames from page [start] on, that
    begins with [bytes] and is zero from there on. *)
Record seg_in (root : Z) (s : Vm) (virt start n flags : Z) (bytes : list Z) : Prop := {
  sg_map : ∀ i, 0 ≤ i < n → mapping s root (page_at virt i) = Some (pte_set ((start + i) * PAGE_SIZE) flags);
  sg_bytes : ∀ k, 0 ≤ k < n * PAGE_SIZE →
    byte_read (vm_mem s) (start * PAGE_SIZE + k) = default 0 (bytes !! Z.to_nat k);
  sg_range : 0 ≤ start ∧ start + n ≤ MAX_PAGES;
}.

Lemma run_page start n k : 0 ≤ k < n * PAGE_SIZE → start ≤ (start * PAGE_SIZE + k) / PAGE_SIZE < start + n.
Proof.
  intros Hk. unfold PAGE_SIZE in *. rewrite Z.add_comm, Z.div_add by lia.
  pose proof (Z.div_pos k 4096). pose proof (Z.div_lt_upper_bound k 4096 n). lia.
Qed.

Lemma seg_in_keep root s s' virt start n flags bytes :
  seg_in root s virt start n flags bytes →
  (∀ i, 0 ≤ i < n → mapping s' root (page_at virt i) = mapping s root (page_at virt i)) →
  (∀ a, start ≤ a / PAGE_SIZE < start + n → mem_read (vm_mem s') a = mem_read (vm_mem s) a) →
  seg_in root s' virt start n flags bytes.
Proof.
  intros [Hm Hb Hr] Hmap Hmem. split; [..|done].
  - intros i Hi. rewrite Hmap by done. by apply Hm.
  - intros k Hk. rewrite <- Hb by done. unfold byte_read. rewrite Hmem; [done|]. rewrite word_page. by apply run_page.
Qed.

(** A zeroed run with [bytes] copied to its start. *)
Lemma copied_run root s v start n bytes :
  taken root s v (seqZ start n) → Forall is_byte bytes → Z.of_nat (length bytes) ≤ n * PAGE_SIZE →
  ∀ k, 0 ≤ k < n * PAGE_SIZE →
    byte_read (copy_bytes (vm_mem v) (start * PAGE_SIZE) bytes) (start * PAGE_SIZE + k) =
    default 0 (bytes !! Z.to_nat k).
Proof.
  intros Htk Hb Hlen k Hk. destruct (bytes !! Z.to_nat k) as [b|] eqn:E.
  - rewrite <- (copy_bytes_in (vm_mem v) (start * PAGE_SIZE) bytes (Z.to_nat k) b) by done.
    by rewrite Z2Nat.id by lia.
  - apply lookup_ge_None in E. rewrite copy_bytes_out by (done || lia). unfold byte_read.
    set (a := start * PAGE_SIZE + k). pose proof (run_page start n k Hk) as Hp. fold a in Hp.
    set (q := a / PAGE_SIZE) in *. destruct (byte_split a) as (Ha & Hmod & Hal).
    assert (a - a mod 8 = slot (q * PAGE_SIZE) ((a - a mod 8 - q * PAGE_SIZE) / 8)) as ->.
    { unfold slot, PAGE_SIZE. apply Z.mod_divide in Hal as [x Hx]; [|done].
      replace (a - a mod 8 - q * 4096) with ((x - q * 512) * 8) by lia. rewrite Z.div_mul by done. lia. }
    rewrite (tk_zero _ _ _ _ Htk); [by rewrite Z.shiftr_0_l|apply elem_of_seqZ; lia|].
    pose proof (word_page a) as Hw. fold q in Hw. unfold idx, PAGE_SIZE in *.
    pose proof (Z.div_mod (a - a mod 8) 4096). pose proof (Z.mod_pos_bound (a - a mod 8) 4096).
    split; [apply Z.div_pos; lia|]. apply Z.div_lt_upper_bound; lia.
Qed.

(** Copying into a run stays in the run. *)
Lemma copy_in_run v start n bytes a :
  Z.of_nat (length bytes) ≤ n * PAGE_SIZE → ¬ (start ≤ a / PAGE_SIZE < start + n) →
  mem_read (copy_bytes (vm_mem v) (start * PAGE_SIZE) bytes) a = mem_read (vm_mem v) a.
Proof.
  intros Hlen Ha. apply copy_bytes_word. intros i Hi <-. apply Ha. rewrite word_page. apply run_page. lia.
Qed.

(** What the mapping of one segment does, beside a held set [Q]. *)
Record seg_mapped (root : Z) (s0 : Vm) (Q : gset Z) (m m' : AsManager) (id : Z) (sp : AddressSpace)
    (virt start n flags : Z) (bytes : list Z) : Prop := {
  sd_holds : holds root s0 (as_vm m') (Q ∪ list_to_set (seqZ start n));
  sd_disj : list_to_set (seqZ start n) ## Q;
  sd_range : range_mapped root virt (region_frame (start * PAGE_SIZE)) flags 0 n (as_vm m) (as_vm m');
  sd_low : low_region virt n;
  sd_in : seg_in root (as_vm m') virt start n flags bytes;
  sd_keep : ∀ a, a / PAGE_SIZE ∈ Q → mem_read (vm_mem (as_vm m')) a = mem_read (vm_mem (as_vm m)) a;
  sd_spaces : spaces m' = <[id := inc_mappings sp n]> (spaces m);
  sd_unmap : ∀ m2 sp2, spaces m2 !! id = Some sp2 → as_owner sp2 = as_owner sp →
    (unmap_region m2 id (as_owner sp) virt (n * PAGE_SIZE)).2 = Ok tt;
}.

Lemma run_frame start n i :
  0 ≤ start → start + n ≤ MAX_PAGES → 0 ≤ i < n → region_frame (start * PAGE_SIZE) i = (start + i) * PAGE_SIZE.
Proof.
  intros. unfold region_frame, MAX_PAGES, PAGE_SIZE in *. rewrite wrap_small by (unfold in_range; lia). lia.
Qed.

(** The state when the run is allocated and filled. *)
Lemma filled_run root s0 s v Q start n bytes :
  holds root s0 s Q → taken root s v (seqZ start n) → Z.of_nat (length bytes) ≤ n * PAGE_SIZE →
  let v' := vm_copy_bytes v (start * PAGE_SIZE) bytes in
  holds root s0 v' (Q ∪ list_to_set (seqZ start n)) ∧ same_tables s v' root ∧
  list_to_set (seqZ start n) ## Q ∧
  (∀ a, a / PAGE_SIZE ∈ Q → mem_read (vm_mem v') a = mem_read (vm_mem s) a).
Proof.
  intros Hh Htk Hlen v'. pose proof (holds_taken _ _ _ _ _ _ Hh Htk) as Hh1.
  assert (list_to_set (seqZ start n) ## Q) as Hdis.
  { pose proof (hd_busy _ _ _ _ Hh). pose proof (tk_sub _ _ _ _ Htk). set_solver. }
  assert (Hout : ∀ a, ¬ (start ≤ a / PAGE_SIZE < start + n) → mem_read (vm_mem v') a = mem_read (vm_mem v) a)
    by (intros a; by apply copy_in_run).
  destruct (holds_write root s0 v v' (Q ∪ list_to_set (seqZ start n)) Hh1) as [Hh2 Hst]; [done|done| |].
  { intros a Ha. apply Hout. intros Hr. apply Ha, elem_of_union_r, elem_of_list_to_set, elem_of_seqZ. lia. }
  split_and!; [done|by eapply same_tables_trans; [apply (tk_tables _ _ _ _ Htk)|]|done|].
  intros a Ha. rewrite Hout.
  - apply (tk_mem _ _ _ _ Htk). intros q Hq Hr%in_page. subst q. set_solver.
  - intros Hr. assert (a / PAGE_SIZE ∈ seqZ start n) by (apply elem_of_seqZ; lia). set_solver.
Qed.

Lemma segment_core_spec root s0 m id owner virt bytes n flags Q sp m' r :
  spaces m !! id = Some sp → as_pml4_phys sp = root → root ≠ 0 → holds root s0 (as_vm m) Q →
  in_range 64 virt → 1 ≤ n → n * PAGE_SIZE < 2 ^ 60 → Forall is_byte bytes →
  Z.of_nat (length bytes) ≤ n * PAGE_SIZE → pte_is_present flags = true →
  segment_core m id owner virt bytes (n * PAGE_SIZE) flags = (m', r) →
  match r with
  | Ok seg => ∃ start, seg = Some (virt, start * PAGE_SIZE, n * PAGE_SIZE) ∧ as_owner sp = owner ∧
      seg_mapped root s0 Q m m' id sp virt start n flags bytes
  | Err _ => holds root s0 (as_vm m') Q ∧ same_mappings m m' root ∧ spaces m' = spaces m
  end.
Proof.
  intros Hsp <- Hroot Hh Hv Hn Hsz Hb Hlen Hpres. unfold segment_core. rewrite Z.div_mul by done.
  set (root := as_pml4_phys sp) in *.
  destruct (vm_alloc_pages_zeroed _ _) as [v o] eqn:E. apply (alloc_run _ root) in E; [|apply Hh|done].
  destruct o as [phys|]; [|intros [= <- <-]; subst v; by destruct m].
  destruct E as (start & -> & Hs & Htot & Htk).
  assert (start + n ≤ MAX_PAGES) as Hmax by (pose proof (pw_total _ (vo_pmm _ _ (hd_ok _ _ _ _ Hh))); lia).
  destruct (filled_run _ _ _ _ _ _ _ _ Hh Htk Hlen) as (Hh1 & Hst & Hdis & Hkeep).
  set (v' := vm_copy_bytes v (start * PAGE_SIZE) bytes) in *.
  destruct (map_region _ _ _ _ _ _ _) as [m1 r1] eqn:E1.
  pose proof (map_region_evolves (set_as_vm m v') _ _ _ _ _ _ _ _ sp Hsp (hd_ok _ _ _ _ Hh1) E1) as Hev.
  destruct (holds_evolves _ _ _ _ _ Hh1 Hev) as [Hh2 Hmem2].
  pose proof E1 as Eacc.
  apply (map_region_cases _ _ _ _ _ _ _ _ _ sp) in E1 as [_ Hr1]; [|done|unfold in_range; unfold PAGE_SIZE in *; lia|done|done|apply Hh1|done].
  destruct r1 as [[]|e].
  - destruct Hr1 as (Ho & Hlow & Hrm & Hspaces). unfold region_mapped in Hrm.
    rewrite region_pages_exact in Hlow, Hrm, Hspaces by (unfold PAGE_SIZE in *; lia).
    intros [= <- <-]. exists start. split_and!; [done|done|]. split; [done|done|..|done|].
    + destruct Hrm as [A1 A2 A3 A4]. split; [done| |done|].
      * intros i Hi. rewrite <- (st_mapping _ _ _ Hst). by apply A2.
      * intros w Hw. rewrite <- (st_mapping _ _ _ Hst). by apply A4.
    + done.
    + split; [..|lia].
      * intros i Hi. rewrite (rm_in _ _ _ _ _ _ _ _ Hrm i); [|lia|done]. by rewrite (run_frame start n i).
      * intros k Hk. rewrite <- (copied_run root (as_vm m) v start n bytes) by done. unfold byte_read.
        rewrite Hmem2; [done|]. rewrite word_page. apply elem_of_union_r, elem_of_list_to_set, elem_of_seqZ.
        pose proof (run_page start n k Hk). lia.
    + intros a Ha. rewrite Hmem2, Hkeep; [done|done|set_solver].
    + intros m2 sp2 Hsp2 Ho2. rewrite Ho in *. by eapply mapped_region_unmaps.
  - destruct Hr1 as [Hsame Hspaces]. intros [= <- <-]. rewrite free_run by lia.
    destruct (holds_release _ _ _ _ (seqZ start n) Hh2) as [Hh3 Hst3]; [set_solver|].
    split_and!; [|intros w|done].
    + assert (Q = (Q ∪ list_to_set (seqZ start n)) ∖ list_to_set (seqZ start n)) as -> by set_solver. exact Hh3.
    + cbn [as_vm set_as_vm]. rewrite (st_mapping _ _ _ Hst3), Hsame. apply (st_mapping _ _ _ Hst).
Qed.

(** ** Undoing segments *)

Lemma undo_segment_spec root s0 Q m m1 id sp virt start n flags bytes m2 :
  seg_mapped root s0 Q m m1 id sp virt start n flags bytes →
  spaces m !! id = Some sp → as_pml4_phys sp = root → root ≠ 0 → 1 ≤ n → n * PAGE_SIZE < 2 ^ 60 →
  0 ≤ as_mapping_count sp → as_mapping_count sp + n < 2 ^ 64 →
  spaces m2 = spaces m1 → same_mappings m1 m2 root →
  holds root s0 (as_vm m2) (Q ∪ list_to_set (seqZ start n)) →
  let m' := undo_segment id (as_owner sp) m2 (virt, start * PAGE_SIZE, n * PAGE_SIZE) in
  holds root s0 (as_vm m') Q ∧ same_mappings m m' root ∧ spaces m' = spaces m.
Proof.
  intros [Hh1 Hdis Hrm Hlow Hin Hkeep Hsp1 Hun] Hsp Hpml Hroot Hn Hsz Hc0 Hc Hs2 Hsame Hh2. unfold undo_segment.
  set (sp1 := inc_mappings sp n) in *. pose proof (eq_refl : sp1 = inc_mappings sp n) as Esp1.
  assert (as_owner sp1 = as_owner sp) as Ho1 by done.
  assert (spaces m2 !! id = Some sp1) as Hid by by rewrite Hs2, Hsp1, lookup_insert_eq.
  assert (as_pml4_phys sp1 = root) as Hpml1 by done. clearbody sp1.
  assert (vm_ok (as_vm m2) (as_pml4_phys sp1)) as Hok2 by (rewrite Hpml1; apply Hh2).
  destruct (unmap_region m2 id (as_owner sp) virt (n * PAGE_SIZE)) as [m3 r] eqn:E.
  pose proof (Hun m2 sp1 Hid Ho1) as Hr. rewrite E in Hr. cbn [snd fst] in *. subst r.
  pose proof (unmap_region_evolves _ _ _ _ _ _ _ sp1 Hid Hok2 E) as Hev.
  rewrite Hpml1 in Hev. destruct (holds_evolves _ _ _ _ _ Hh2 Hev) as [Hh3 _].
  apply (unmap_region_cases _ _ _ _ _ _ _ sp1) in E as (_ & _ & _ & Hru & Hsp3);
    [|destruct Hlow as [[? _] _]; unfold in_range; lia|unfold in_range, PAGE_SIZE in *; lia|done|by rewrite Hpml1|done].
  rewrite Hpml1 in Hru. rewrite region_pages_exact in Hru, Hsp3 by (unfold PAGE_SIZE in *; lia).
  rewrite Z.div_mul by done. destruct (sg_range _ _ _ _ _ _ _ Hin) as [Hs Hmax]. rewrite free_run by lia.
  destruct (holds_release _ _ _ _ (seqZ start n) Hh3) as [Hh4 Hst4]; [set_solver|]. split_and!.
  - assert (Q = (Q ∪ list_to_set (seqZ start n)) ∖ list_to_set (seqZ start n)) as -> by set_solver. exact Hh4.
  - intros w. cbn [as_vm set_as_vm]. rewrite (st_mapping _ _ _ Hst4).
    eapply rolled_back; [exact Hrm|]. by eapply range_unmapped_ext.
  - cbn [spaces set_as_vm]. rewrite Hsp3, Hs2, Hsp1, insert_insert_eq. apply insert_id. rewrite Hsp. f_equal.
    rewrite Esp1. destruct sp as [i p o c]. unfold dec_mappings, inc_mappings, saturating_add, saturating_sub.
    cbn [as_mapping_count as_id as_pml4_phys as_owner] in *. f_equal. lia.
Qed.

(** The armed guard takes any state that looks like [m] back to [m0]. *)
Definition undoable (root : Z) (m0 : AsManager) (id owner : Z) (Q : gset Z) (m : AsManager)
    (segs : list Segment) : Prop :=
  ∀ m', spaces m' = spaces m → same_mappings m m' root → holds root (as_vm m0) (as_vm m') Q →
  let m'' := RollbackGuard_drop id owner m' segs in
  holds root (as_vm m0) (as_vm m'') ∅ ∧ same_mappings m0 m'' root ∧ spaces m'' = spaces m0.

Lemma undoable_nil root m0 id owner : undoable root m0 id owner ∅ m0 [].
Proof. by intros m' Hs Hm Hh. Qed.

Lemma undoable_snoc root m0 id Q m m1 segs sp virt start n flags bytes :
  undoable root m0 id (as_owner sp) Q m segs →
  seg_mapped root (as_vm m0) Q m m1 id sp virt start n flags bytes →
  spaces m !! id = Some sp → as_pml4_phys sp = root → root ≠ 0 → 1 ≤ n → n * PAGE_SIZE < 2 ^ 60 →
  0 ≤ as_mapping_count sp → as_mapping_count sp + n < 2 ^ 64 →
  undoable root m0 id (as_owner sp) (Q ∪ list_to_set (seqZ start n)) m1
    (segs ++ [(virt, start * PAGE_SIZE, n * PAGE_SIZE)]).
Proof.
  intros Hu Hseg Hsp Hpml Hroot Hn Hsz Hc0 Hc m' Hs Hm Hh. unfold RollbackGuard_drop.
  rewrite reverse_app. cbn [reverse rev_append app foldl].
  destruct (undo_segment_spec _ _ _ _ _ _ _ _ _ _ _ _ m' Hseg Hsp Hpml Hroot Hn Hsz Hc0 Hc Hs Hm Hh) as (H1 & H2 & H3).
  by apply Hu.
Qed.

(** ** The stages of a load *)

Definition pages_for (x : Z) : Z := (x + PAGE_SIZE - 1) / PAGE_SIZE.

Lemma pages_for_bounds x : 0 ≤ x → x ≤ pages_for x * PAGE_SIZE < x + PAGE_SIZE ∧ 0 ≤ pages_for x.
Proof.
  intros Hx. unfold pages_for, PAGE_SIZE. pose proof (Z.div_mod (x + 4096 - 1) 4096).
  pose proof (Z.mod_pos_bound (x + 4096 - 1) 4096). pose proof (Z.div_pos (x + 4096 - 1) 4096). lia.
Qed.

Lemma align_up_for x : 0 ≤ x < 2 ^ 48 → align_up x = pages_for x * PAGE_SIZE.
Proof. intros. apply align_up_spec; unfold PAGE_SIZE; lia. Qed.

(** Nothing of the load is left: mappings and records are those of [m0], and
    every page that was free in [m0] is free or a page table. *)
Definition restored (root : Z) (m0 m : AsManager) : Prop :=
  holds root (as_vm m0) (as_vm m) ∅ ∧ same_mappings m0 m root ∧ spaces m = spaces m0.

(** A state of the load: the pages of [Q] are held, at most [c] mappings are
    counted, and the guard can undo everything. *)
Record stage (root : Z) (m0 : AsManager) (id owner c : Z) (Q : gset Z) (m : AsManager)
    (segs : list Segment) : Prop := {
  sa_holds : holds root (as_vm m0) (as_vm m) Q;
  sa_space : ∃ sp, spaces m !! id = Some sp ∧ as_pml4_phys sp = root ∧ 0 ≤ as_mapping_count sp ≤ c;
  sa_undo : undoable root m0 id owner Q m segs;
}.

(** A segment in place at [virt], its frames among those of [Q]. *)
Definition placed (root : Z) (Q : gset Z) (m : AsManager) (virt n flags : Z) (bytes : list Z) : Prop :=
  (0 < n → low_region virt n) ∧
  ∃ start, seg_in root (as_vm m) virt start n flags bytes ∧ list_to_set (seqZ start n) ⊆ Q.

(** What one more segment adds. *)
Record grown (root : Z) (m m' : AsManager) (Q Q' : gset Z) (virt n flags : Z) (bytes : list Z) : Prop := {
  gn_sub : Q ⊆ Q';
  gn_in : placed root Q' m' virt n flags bytes;
  gn_out : ∀ w, (∀ i, 0 ≤ i < n → leaf_indices w ≠ leaf_indices (page_at virt i)) →
    mapping (as_vm m') root w = mapping (as_vm m) root w;
  gn_keep : ∀ a, a / PAGE_SIZE ∈ Q → mem_read (vm_mem (as_vm m')) a = mem_read (vm_mem (as_vm m)) a;
}.

Lemma grown_none root m Q virt flags : grown root m m Q Q virt 0 flags [].
Proof.
  split; [done|split; [lia|exists 0]|done|done]. split; [|by rewrite seqZ_nil by lia].
  split; [intros; lia|unfold PAGE_SIZE; intros; lia|unfold MAX_PAGES; lia].
Qed.

Lemma stage_core root m0 id owner c Q m segs virt bytes n flags m' r :
  stage root m0 id owner c Q m segs → root ≠ 0 → in_range 64 virt → 1 ≤ n → n * PAGE_SIZE < 2 ^ 60 →
  c + n < 2 ^ 64 → Forall is_byte bytes → Z.of_nat (length bytes) ≤ n * PAGE_SIZE →
  pte_is_present flags = true → segment_core m id owner virt bytes (n * PAGE_SIZE) flags = (m', r) →
  match r with
  | Ok seg => ∃ Q', stage root m0 id owner (c + n) Q' m' (track segs seg) ∧
      grown root m m' Q Q' virt n flags bytes
  | Err _ => restored root m0 (RollbackGuard_drop id owner m' segs)
  end.
Proof.
  intros [Hh (sp & Hsp & Hpml & Hc) Hu] Hroot Hv Hn Hsz Hcn Hb Hlen Hpres E.
  eapply segment_core_spec in E; [|done..]. destruct r as [seg|e].
  - destruct E as (start & -> & <- & Hseg). pose proof Hseg as [Hh1 Hdis Hrm Hlow Hin Hkeep Hsp1 _].
    exists (Q ∪ list_to_set (seqZ start n)). split; [split; [done|..]|split; [set_solver|..]].
    + exists (inc_mappings sp n). rewrite Hsp1, lookup_insert_eq. split_and!; [done|done|..];
        unfold inc_mappings, saturating_add; cbn; lia.
    + eapply undoable_snoc; try done; lia.
    + split; [done|]. exists start. split; [done|set_solver].
    + intros w Hw. apply (rm_out _ _ _ _ _ _ _ _ Hrm). intros i Hi. apply Hw. lia.
    + done.
  - destruct E as (Hh1 & Hsame & Hspaces). by apply Hu.
Qed.

Lemma map_segment_stage root m0 id owner c Q m segs virt bytes flags m' r :
  stage root m0 id owner c Q m segs → root ≠ 0 → in_range 64 virt → Z.of_nat (length bytes) < 2 ^ 32 →
  c + 2 ^ 32 < 2 ^ 64 → Forall is_byte bytes → pte_is_present flags = true →
  map_segment m id owner virt bytes flags = (m', r) →
  let n := pages_for (Z.of_nat (length bytes)) in
  match r with
  | Ok seg => ∃ Q', stage root m0 id owner (c + n) Q' m' (track segs seg) ∧
      grown root m m' Q Q' virt n flags bytes
  | Err _ => restored root m0 (RollbackGuard_drop id owner m' segs)
  end.
Proof.
  intros Hst Hroot Hv Hlen Hc Hb Hpres E n. destruct (decide (bytes = [])) as [->|Hne].
  { injection E as <- <-. exists Q. split; [by rewrite Z.add_0_r|apply grown_none]. }
  rewrite map_segment_core in E by done. rewrite align_up_for in E by lia. fold n in E.
  destruct (pages_for_bounds (Z.of_nat (length bytes))) as [Hn _]; [lia|]. fold n in Hn.
  assert (1 ≤ Z.of_nat (length bytes)) as Hpos by (destruct bytes; [done|simpl; lia]).
  unfold PAGE_SIZE in Hn. eapply stage_core in E; try done; unfold PAGE_SIZE; lia.
Qed.

(** ** Reading through the page tables *)

(** The byte at a virtual address. *)
Definition virt_byte (s : Vm) (root v : Z) : option Z :=
  match mapping s root v with
  | Some e => Some (byte_read (vm_mem s) (pte_addr e + v mod PAGE_SIZE))
  | None => None
  end.

Lemma leaf_indices_page v : 0 ≤ v → leaf_indices v = leaf_indices (v / PAGE_SIZE * PAGE_SIZE).
Proof.
  intros Hv. assert (0 ≤ v / PAGE_SIZE * PAGE_SIZE) as Hv' by (unfold PAGE_SIZE; pose proof (Z.div_pos v 4096); lia).
  assert (Hk : ∀ k, 0 ≤ k → v / (4096 * k) = v / PAGE_SIZE * PAGE_SIZE / (4096 * k)).
  { intros k Hk. destruct (decide (k = 0)) as [->|]; [by rewrite Z.mul_0_r, !Zdiv_0_r|].
    rewrite <- !Z.div_div by lia. unfold PAGE_SIZE. by rewrite Z.div_mul. }
  unfold leaf_indices, split_indices. rewrite !shift_mask by lia.
  pose proof (Hk (2 ^ 27)) as H27. pose proof (Hk (2 ^ 18)) as H18. pose proof (Hk (2 ^ 9)) as H9. pose proof (Hk 1) as H0.
  change (4096 * 2 ^ 27) with (2 ^ 39) in H27. change (4096 * 2 ^ 18) with (2 ^ 30) in H18.
  change (4096 * 2 ^ 9) with (2 ^ 21) in H9. change (4096 * 1) with (2 ^ 12) in H0.
  rewrite H27, H18, H9, H0 by lia. done.
Qed.

Lemma seg_in_byte root s virt start n flags bytes k :
  seg_in root s virt start n flags bytes → low_region virt n → flags_ok flags → 0 ≤ k < n * PAGE_SIZE →
  virt_byte s root (virt + k) = Some (default 0 (bytes !! Z.to_nat k)).
Proof.
  intros [Hm Hb [Hs Hmax]] Hlow Hfl Hk. pose proof Hlow as [[Hv Hal] _]. apply Z.div_exact in Hal; [|done].
  assert (Hdiv : (virt + k) / PAGE_SIZE = virt / PAGE_SIZE + k / PAGE_SIZE).
  { rewrite Hal at 1. rewrite Z.mul_comm, Z.div_add_l by done. done. }
  pose proof (Z.div_mod k PAGE_SIZE ltac:(done)) as Hkd. pose proof (Z.mod_pos_bound k PAGE_SIZE ltac:(done)) as Hkm.
  assert (0 ≤ k / PAGE_SIZE < n) as Hi by (unfold PAGE_SIZE in *; lia).
  unfold virt_byte. rewrite (mapping_same _ _ _ (page_at virt (k / PAGE_SIZE))).
  2:{ rewrite leaf_indices_page, Hdiv by lia. f_equal. unfold page_at. lia. }
  rewrite Hm by done. rewrite pte_addr_set; [|apply frame_ok_page; lia|done].
  rewrite <- (Hb k) by done. f_equal. f_equal.
  assert ((virt + k) mod PAGE_SIZE = k mod PAGE_SIZE) as ->; [|lia].
  rewrite Hal, Z.mul_comm, Z.add_comm. by apply Z.mod_add.
Qed.

(** A segment stays in place while another one is added above it. *)
Lemma placed_keep root m m' Q Q' virt n flags bytes virt' n' flags' bytes' :
  placed root Q m virt n flags bytes → grown root m m' Q Q' virt' n' flags' bytes' →
  virt + n * PAGE_SIZE ≤ virt' → placed root Q' m' virt n flags bytes.
Proof.
  intros [Hlow (start & Hin & Hsub)] [Hs [Hlow' _] Hout Hkeep] Hle. split; [done|]. exists start.
  split; [|set_solver]. eapply seg_in_keep; [done|..].
  - intros i Hi. apply Hout. intros j Hj E. apply low_inj in E.
    + unfold page_at, PAGE_SIZE in *. lia.
    + eapply low_region_page; [apply Hlow; lia|done].
    + eapply low_region_page; [apply Hlow'; lia|done].
  - intros a Ha. apply Hkeep, Hsub, elem_of_list_to_set, elem_of_seqZ. lia.
Qed.

Lemma placed_byte root Q m virt n flags bytes k :
  placed root Q m virt n flags bytes → flags_ok flags → 0 ≤ k < n * PAGE_SIZE →
  virt_byte (as_vm m) root (virt + k) = Some (default 0 (bytes !! Z.to_nat k)).
Proof.
  intros [Hlow (start & Hin & _)] Hfl Hk. eapply seg_in_byte; try done. apply Hlow. unfold PAGE_SIZE in *. lia.
Qed.

(** ** Loading sections *)

Definition sections_ok (s : ExecutableSections) : Prop :=
  Forall is_byte (text s) ∧ Forall is_byte (data s) ∧ Z.of_nat (length (text s)) < 2 ^ 32 ∧
  Z.of_nat (length (data s)) < 2 ^ 32 ∧ in_range 32 (bss_size s).

Definition text_pages (s : ExecutableSections) : Z := pages_for (Z.of_nat (length (text s))).
Definition data_pages (s : ExecutableSections) : Z := pages_for (Z.of_nat (length (data s))).
Definition bss_pages (s : ExecutableSections) : Z := pages_for (bss_size s).

Lemma pages_for_small x : 0 ≤ x < 2 ^ 32 → 0 ≤ pages_for x ≤ 2 ^ 20.
Proof. intros Hx. pose proof (pages_for_bounds x ltac:(lia)) as [? ?]. unfold PAGE_SIZE in *. lia. Qed.

Lemma layout_bases s :
  sections_ok s →
  text_base (layout s) = USER_EXEC_LOAD_BASE ∧
  data_base (layout s) = USER_EXEC_LOAD_BASE + text_pages s * PAGE_SIZE ∧
  bss_base (layout s) = USER_EXEC_LOAD_BASE + (text_pages s + data_pages s) * PAGE_SIZE.
Proof.
  intros (_ & _ & Ht & Hd & _). unfold layout. cbn [text_base data_base bss_base].
  rewrite !(align_up_for (Z.of_nat _)) by lia. fold (text_pages s) (data_pages s).
  pose proof (pages_for_small _ (conj (Zle_0_nat (length (text s))) Ht)) as Hnt.
  pose proof (pages_for_small _ (conj (Zle_0_nat (length (data s))) Hd)) as Hnd.
  fold (text_pages s) in Hnt. fold (data_pages s) in Hnd. clear Ht Hd.
  assert (Hup : ∀ x n, 0 ≤ n ≤ 2 ^ 22 → x = n * PAGE_SIZE → align_up (wrap64 x) = x).
  { intros x n Hn ->. unfold PAGE_SIZE. rewrite wrap_small by (unfold in_range; lia).
    rewrite align_up_for by lia. unfold pages_for, PAGE_SIZE.
    replace (n * 4096 + 4096 - 1) with (n * 4096 + 4095) by lia. rewrite Z.div_add_l by lia. change (4095 / 4096) with 0. lia. }
  split; [done|]. rewrite (Hup (USER_EXEC_LOAD_BASE + text_pages s * PAGE_SIZE) (1024 + text_pages s));
    [|lia|unfold USER_EXEC_LOAD_BASE, PAGE_SIZE; lia].
  split; [done|]. rewrite (Hup _ (1024 + text_pages s + data_pages s)); unfold USER_EXEC_LOAD_BASE, PAGE_SIZE; lia.
Qed.

(** The state after a load: the three segments in place, all else as before. *)
Record in_place (root : Z) (m0 m : AsManager) (s : ExecutableSections) : Prop := {
  ip_holds : ∃ Q, holds root (as_vm m0) (as_vm m) Q ∧
    placed root Q m (text_base (layout s)) (text_pages s) TEXT_FLAGS (text s) ∧
    placed root Q m (data_base (layout s)) (data_pages s) DATA_FLAGS (data s) ∧
    placed root Q m (bss_base (layout s)) (bss_pages s) DATA_FLAGS [];
  ip_out : ∀ w,
    (∀ i, 0 ≤ i < text_pages s + data_pages s + bss_pages s →
      leaf_indices w ≠ leaf_indices (page_at USER_EXEC_LOAD_BASE i)) →
    mapping (as_vm m) root w = mapping (as_vm m0) root w;
}.

Lemma map_bss_stage root m0 id owner c Q m segs virt size flags m' r :
  stage root m0 id owner c Q m segs → root ≠ 0 → in_range 64 virt → 0 ≤ size < 2 ^ 32 →
  c + 2 ^ 32 < 2 ^ 64 → pte_is_present flags = true →
  map_zeroed_segment m id owner virt (align_up size) flags = (m', r) →
  let n := pages_for size in
  match r with
  | Ok seg => ∃ Q', stage root m0 id owner (c + n) Q' m' (track segs seg) ∧
      grown root m m' Q Q' virt n flags []
  | Err _ => restored root m0 (RollbackGuard_drop id owner m' segs)
  end.
Proof.
  intros Hst Hroot Hv Hs Hc Hpres E n. destruct (pages_for_bounds size) as [Hn _]; [lia|]. fold n in Hn.
  unfold PAGE_SIZE in Hn. destruct (decide (size = 0)) as [->|Hne].
  { injection E as <- <-. exists Q. split; [by rewrite Z.add_0_r|apply grown_none]. }
  rewrite (align_up_for size) in E by lia. fold n in E.
  rewrite map_zeroed_core in E by (unfold PAGE_SIZE; lia).
  assert (align_up (n * PAGE_SIZE) = n * PAGE_SIZE) as Hal.
  { rewrite align_up_for by (unfold PAGE_SIZE; lia). unfold pages_for, PAGE_SIZE.
    replace (n * 4096 + 4096 - 1) with (n * 4096 + 4095) by lia. rewrite Z.div_add_l by lia.
    change (4095 / 4096) with 0. lia. }
  rewrite Hal in E. eapply stage_core in E; try done; unfold PAGE_SIZE; simpl; lia.
Qed.

Lemma stage_start root m id owner sp :
  vm_ok (as_vm m) root → spaces m !! id = Some sp → as_pml4_phys sp = root → 0 ≤ as_mapping_count sp →
  stage root m id owner (as_mapping_count sp) ∅ m [].
Proof. intros. split; [by apply holds_refl|by exists sp|apply undoable_nil]. Qed.

(** An empty bss needs no test of its own. *)
Lemma map_zeroed_none m id owner virt flags : map_zeroed_segment m id owner virt (align_up 0) flags = (m, Ok None).
Proof. done. Qed.

Lemma do_load_at m s id owner : do_load m s id owner = load_at (layout s) (align_up (bss_size s)) m s id owner.
Proof. reflexivity. Qed.

Lemma load_at_cases root l m s id owner m' r sp :
  vm_ok (as_vm m) root → spaces m !! id = Some sp → as_pml4_phys sp = root → root ≠ 0 →
  0 ≤ as_mapping_count sp < 2 ^ 63 → sections_ok s →
  l = layout s → load_at l (align_up (bss_size s)) m s id owner = (m', r) →
  match r with
  | Ok l' => l' = layout s ∧ in_place root m m' s
  | Err _ => restored root m m'
  end.
Proof.
  intros Hok Hsp Hpml Hroot Hc Hs Hl E. pose proof Hs as (Ht & Hd & Htl & Hdl & Hb).
  pose proof (stage_start root m id owner sp Hok Hsp Hpml ltac:(lia)) as H0.
  pose proof (layout_bases s Hs) as (Hl1 & Hl2 & Hl3). rewrite <- Hl in Hl1, Hl2, Hl3.
  pose proof (pages_for_small _ (conj (Zle_0_nat (length (text s))) Htl)) as Hnt. fold (text_pages s) in Hnt.
  pose proof (pages_for_small _ (conj (Zle_0_nat (length (data s))) Hdl)) as Hnd. fold (data_pages s) in Hnd.
  pose proof (pages_for_small _ Hb) as Hnb. fold (bss_pages s) in Hnb.
  unfold load_at in E. cbv zeta beta in E. destruct (USER_CANONICAL_MAX <? _).
  { injection E as <- <-. split; [by apply holds_refl|done]. }
  destruct (map_segment m id owner _ (text s) _) as [m1 r1] eqn:E1.
  eapply map_segment_stage in E1; [|done|done|rewrite Hl1; done|lia|lia|done|done].
  destruct r1 as [seg1|e]; [|injection E as <- <-; exact E1]. destruct E1 as (Q1 & H1 & G1). fold (text_pages s) in H1, G1.
  destruct (map_segment m1 id owner _ (data s) _) as [m2 r2] eqn:E2.
  eapply map_segment_stage in E2;
    [|done|done|rewrite Hl2; unfold in_range, USER_EXEC_LOAD_BASE, PAGE_SIZE; lia|lia|lia|done|done].
  destruct r2 as [seg2|e]; [|injection E as <- <-; exact E2]. destruct E2 as (Q2 & H2 & G2). fold (data_pages s) in H2, G2.
  destruct (map_zeroed_segment m2 id owner (bss_base l) (align_up (bss_size s)) DATA_FLAGS) as [m3 r3] eqn:E3.
  assert ((m', r) = match r3 with Ok _ => (m3, Ok l)
    | Err e => (RollbackGuard_drop id owner m3 (track (track [] seg1) seg2), Err e) end) as Er.
  { rewrite <- E. destruct (Z.ltb_spec 0 (bss_size s)); [by destruct r3|]. unfold in_range in Hb.
    replace (bss_size s) with 0 in E3 by lia. rewrite map_zeroed_none in E3. by injection E3 as <- <-. }
  eapply map_bss_stage in E3;
    [|done|done|rewrite Hl3; unfold in_range, USER_EXEC_LOAD_BASE, PAGE_SIZE; lia|exact Hb|lia|done].
  destruct r3 as [seg3|e]; injection Er as -> ->; [|exact E3].
  destruct E3 as (Q3 & H3 & G3). fold (bss_pages s) in H3, G3. split; [done|].
  rewrite Hl1 in *. rewrite Hl2 in *. rewrite Hl3 in *.
  split; [exists Q3; split; [apply H3|]|].
  - rewrite <- Hl, Hl1, Hl2, Hl3. split_and!; [|eapply placed_keep; [apply G2|apply G3|lia]|apply G3].
    eapply placed_keep; [|apply G3|unfold PAGE_SIZE; lia]. eapply placed_keep; [apply G1|apply G2|lia].
  - intros w Hw. rewrite (gn_out _ _ _ _ _ _ _ _ _ G3), (gn_out _ _ _ _ _ _ _ _ _ G2), (gn_out _ _ _ _ _ _ _ _ _ G1); [done|..].
    + intros i Hi. apply Hw. lia.
    + intros i Hi. specialize (Hw (text_pages s + i) ltac:(lia)). contradict Hw. rewrite Hw. f_equal. unfold page_at. lia.
    + intros i Hi. specialize (Hw (text_pages s + data_pages s + i) ltac:(lia)). contradict Hw. rewrite Hw.
      f_equal. unfold page_at. lia.
Qed.

Lemma do_load_cases root m s id owner m' r sp :
  vm_ok (as_vm m) root → spaces m !! id = Some sp → as_pml4_phys sp = root → root ≠ 0 →
  0 ≤ as_mapping_count sp < 2 ^ 63 → sections_ok s → do_load m s id owner = (m', r) →
  match r with
  | Ok l => l = layout s ∧ in_place root m m' s
  | Err _ => restored root m m'
  end.
Proof. rewrite do_load_at. intros. by eapply load_at_cases. Qed.

(** ** Loading an image *)

(** [size] bytes at [base] read as [byte], through pages that carry [flags] and
    whose frames were free before the load and are not any more. *)
Definition section_loaded (root : Z) (m m' : AsManager) (base size flags : Z) (byte : Z → option Z) : Prop :=
  (∀ k, 0 ≤ k < size → virt_byte (as_vm m') root (base + k) = byte k) ∧
  (∀ i, 0 ≤ i < pages_for size → ∃ q, mapping (as_vm m') root (page_at base i) = Some (pte_set (q * PAGE_SIZE) flags) ∧
    q ∈ free_set (vm_pmm (as_vm m)) ∧ q ∉ free_set (vm_pmm (as_vm m'))).

Lemma placed_loaded root m m' Q base size flags bytes byte :
  holds root (as_vm m) (as_vm m') Q → placed root Q m' base (pages_for size) flags bytes → flags_ok flags →
  0 ≤ size → (∀ k, 0 ≤ k < size → Some (default 0 (bytes !! Z.to_nat k)) = byte k) →
  section_loaded root m m' base size flags byte.
Proof.
  intros Hh Hp Hfl Hs Hb. pose proof (pages_for_bounds size Hs) as [? _]. split.
  - intros k Hk. rewrite <- Hb by done. eapply placed_byte; [done|done|lia].
  - intros i Hi. destruct Hp as [_ (start & Hin & Hsub)]. exists (start + i). split; [by apply Hin|].
    assert (start + i ∈ Q) as Hq by (apply Hsub, elem_of_list_to_set, elem_of_seqZ; lia).
    pose proof (hd_own _ _ _ _ Hh). pose proof (hd_busy _ _ _ _ Hh). set_solver.
Qed.

Lemma slice_length image off size :
  0 ≤ off → 0 ≤ size → off + size ≤ Z.of_nat (length image) → Z.of_nat (length (slice image off size)) = size.
Proof. intros. unfold slice. rewrite length_take, length_drop. lia. Qed.

Lemma slice_lookup image off size k :
  0 ≤ off → 0 ≤ k < size → off + size ≤ Z.of_nat (length image) →
  Some (default 0 (slice image off size !! Z.to_nat k)) = image !! Z.to_nat (off + k).
Proof.
  intros. unfold slice. rewrite lookup_take_lt, lookup_drop by lia. rewrite <- Z2Nat.inj_add by lia.
  destruct (image !! Z.to_nat (off + k)) eqn:E; [done|]. apply lookup_ge_None in E. lia.
Qed.

Lemma sections_of_ok image :
  Forall is_byte image → Z.of_nat (length image) < 2 ^ 32 → sections_ok (sections_of image).
Proof.
  intros Hi Hl. pose proof (header_range image Hi) as (_ & _ & _ & _ & _ & Hb).
  unfold sections_of, sections_ok, slice. cbn [text data bss_size]. rewrite !length_take, !length_drop.
  split; [by apply Forall_take, Forall_drop|]. split; [by apply Forall_take, Forall_drop|]. split; [lia|]. split; [lia|].
  done.
Qed.

Section load.
Context (m m' : AsManager) (image : list Z) (id owner : Z) (sp : AddressSpace).
Context (Himage : Forall is_byte image) (Hlen : Z.of_nat (length image) < 2 ^ 32).
Context (Hsp : spaces m !! id = Some sp) (Hroot : as_pml4_phys sp ≠ 0) (Hok : vm_ok (as_vm m) (as_pml4_phys sp)).
Context (Hcount : 0 ≤ as_mapping_count sp < 2 ^ 63).

(** C15. A successful load puts the image in memory byte for byte: the image was a
    valid ATXF file; every byte of the text and data sections read through the
    page tables of the space is the byte of the file, the bss reads zero; text
    pages are user-readable and not writable, data and bss pages are writable;
    every frame used was free before and is allocated now; the entry point lies
    in the text; every other page of the space is mapped as before. *)
Theorem load_readback l :
  load_into_address_space m image id owner = (m', Ok l) →
  let h := read_header image in let root := as_pml4_phys sp in
  valid_image h (Z.of_nat (length image)) ∧
  text_base l ≤ entry_point l < text_base l + h_text_size h ∧
  section_loaded root m m' (text_base l) (h_text_size h) TEXT_FLAGS
    (λ k, image !! Z.to_nat (h_text_offset h + k)) ∧
  section_loaded root m m' (data_base l) (h_data_size h) DATA_FLAGS
    (λ k, image !! Z.to_nat (h_data_offset h + k)) ∧
  section_loaded root m m' (bss_base l) (h_bss_size h) DATA_FLAGS (λ _, Some 0) ∧
  ∀ w, (∀ i, 0 ≤ i < pages_for (h_text_size h) + pages_for (h_data_size h) + pages_for (h_bss_size h) →
         leaf_indices w ≠ leaf_indices (page_at USER_EXEC_LOAD_BASE i)) →
    mapping (as_vm m') root w = mapping (as_vm m) root w.
Proof.
  intros E h root. unfold load_into_address_space in E. destruct (parse_image image) as [s|] eqn:Ep; [|done].
  apply parse_image_iff in Ep as (_ & Hv & ->); [|done..]. eapply do_load_cases in E as (-> & [Hp Hout]);
    [|done|done|reflexivity|done|done|by apply sections_of_ok].
  pose proof (header_range image Himage) as (H1 & H2 & H3 & H4 & H5 & H6). unfold in_range in H6.
  fold h in H1, H2, H3, H4, H5, H6, Hv. pose proof Hv as [_ _ _ _ _ [_ Ht] [_ Hd] _ He].
  destruct Hp as (Q & Hh & Pt & Pd & Pb). unfold text_pages, data_pages, bss_pages, sections_of in *.
  cbn [text data bss_size] in *. fold h in Pt, Pd, Pb, Hout. rewrite slice_length in Pt, Hout by done.
  rewrite slice_length in Pd, Hout by done. split; [done|]. split.
  { unfold layout. cbn [entry_point text_base entry_offset]. fold h. lia. }
  split; [eapply placed_loaded; try done; intros; by apply slice_lookup|].
  split; [eapply placed_loaded; try done; intros; by apply slice_lookup|].
  split; [by eapply placed_loaded; try done; lia|done].
Qed.

(** C16. A failed load leaves nothing behind: whatever the error, the mappings of
    the space and the records of the manager are as before, no free page was
    created, every page the load had taken is free again or now holds a page
    table of the space, and memory outside free pages and tables is untouched. *)
Theorem load_all_or_nothing e :
  load_into_address_space m image id owner = (m', Err e) →
  let root := as_pml4_phys sp in
  vm_ok (as_vm m') root ∧ same_mappings m m' root ∧ spaces m' = spaces m ∧
  free_set (vm_pmm (as_vm m')) ⊆ free_set (vm_pmm (as_vm m)) ∧
  (∀ q, q ∈ free_set (vm_pmm (as_vm m)) → q ∉ free_set (vm_pmm (as_vm m')) →
    ∃ ρ, path ρ ∧ table_at (vm_mem (as_vm m')) root ρ = Some (q * PAGE_SIZE)) ∧
  (∀ a, a / PAGE_SIZE ∉ free_set (vm_pmm (as_vm m)) →
    (∀ ρ u, path ρ → table_at (vm_mem (as_vm m)) root ρ = Some u → u / PAGE_SIZE ≠ a / PAGE_SIZE) →
    mem_read (vm_mem (as_vm m')) a = mem_read (vm_mem (as_vm m)) a).
Proof.
  intros E root. assert (restored root m m') as (Hh & Hm & Hs).
  { unfold load_into_address_space in E. destruct (parse_image image) as [s|] eqn:Ep.
    - apply parse_image_iff in Ep as (_ & _ & ->); [|done..]. eapply do_load_cases in E; try done.
      by apply sections_of_ok.
    - injection E as <- <-. split; [by apply holds_refl|done]. }
  split; [apply Hh|]. split; [done|]. split; [done|]. split; [apply Hh|]. split; [|apply Hh].
  intros q Hq Hn. destruct (hd_used _ _ _ _ Hh q Hq) as [?|[?|?]]; [done|set_solver|done].
Qed.
End load.

(** ** Witnesses *)

Lemma embedded_bytes : Forall is_byte build_embedded_image.
Proof. apply (bool_decide_unpack _). vm_compute. exact I. Qed.

Lemma demo_load_ok :
  ∃ m' l, load_into_address_space demo_as build_embedded_image 1 7 = (m', Ok l) ∧ text_base l = 0x400000.
Proof.
  assert ((load_into_address_space demo_as build_embedded_image 1 7).2 =
          Ok (mkLoaded 0x400000 0x400000 0x401000 0x401000)) as Hr by (vm_compute; reflexivity).
  destruct (load_into_address_space demo_as build_embedded_image 1 7) as [m' r].
  exists m', (mkLoaded 0x400000 0x400000 0x401000 0x401000). cbn [snd] in Hr. by rewrite Hr.
Qed.

Lemma load_readback_witness :
  ∃ m' l, load_into_address_space demo_as build_embedded_image 1 7 = (m', Ok l) ∧
    virt_byte (as_vm m') 0x10000 0x400002 = Some 0xC0.
Proof.
  destruct demo_load_ok as (m' & l & E & Hb). exists m', l. split; [exact E|].
  destruct (load_readback demo_as m' build_embedded_image 1 7 demo_as_space) with (l := l) as (_ & _ & [H _] & _);
    [exact embedded_bytes|vm_compute; reflexivity|reflexivity|discriminate|exact (proj1 demo_space_fresh)
    |vm_compute; split; congruence|exact E|].
  rewrite Hb in H. specialize (H 2).
  change (as_pml4_phys demo_as_space) with 0x10000 in H. change (0x400000 + 2) with 0x400002 in H.
  rewrite H; [vm_compute; reflexivity|vm_compute; split; congruence].
Defined.

(** The demo space with a page already mapped where the bss would go. *)
Definition demo_taken : AsManager := (map_region demo_as 1 7 0x401000 0x30000 0x1000 DATA_FLAGS).1.
Definition demo_taken_space : AddressSpace := mkSpace 1 0x10000 7 1.

Lemma demo_taken_ok : vm_ok (as_vm demo_taken) 0x10000 ∧ spaces demo_taken !! 1 = Some demo_taken_space.
Proof.
  split; [|vm_compute; reflexivity]. unfold demo_taken.
  destruct (map_region demo_as 1 7 0x401000 0x30000 0x1000 DATA_FLAGS) as [m' r] eqn:E.
  destruct (map_region_cases demo_as 1 7 0x401000 0x30000 0x1000 DATA_FLAGS m' r demo_as_space) as [H _];
    [split; [lia|reflexivity]|split; [lia|reflexivity]|reflexivity|discriminate
    |exact (proj1 demo_space_fresh)|reflexivity|exact E|]. exact H.
Qed.

Lemma demo_taken_fails :
  ∃ m', load_into_address_space demo_taken build_embedded_image 1 7 = (m', Err (ExecAddressSpace AsAlreadyMapped)).
Proof.
  assert ((load_into_address_space demo_taken build_embedded_image 1 7).2 =
          Err (ExecAddressSpace AsAlreadyMapped)) as Hr by (vm_compute; reflexivity).
  destruct (load_into_address_space demo_taken build_embedded_image 1 7) as [m' r].
  exists m'. cbn [snd] in Hr. by rewrite Hr.
Qed.

Lemma load_all_or_nothing_witness :
  ∃ m', load_into_address_space demo_taken build_embedded_image 1 7 = (m', Err (ExecAddressSpace AsAlreadyMapped)) ∧
    same_mappings demo_taken m' 0x10000.
Proof.
  destruct demo_taken_fails as [m' E]. exists m'. split; [exact E|].
  destruct (load_all_or_nothing demo_taken m' build_embedded_image 1 7 demo_taken_space) with
    (e := ExecAddressSpace AsAlreadyMapped) as (_ & H & _);
    [exact embedded_bytes|vm_compute; reflexivity|exact (proj2 demo_taken_ok)|discriminate|exact (proj1 demo_taken_ok)
    |vm_compute; split; congruence|exact E|].
  exact H.
Defined.
