(* ===== verification/Services.v ===== *)
(** * Service manager

    Models [kernel/src/service_manager.rs]: the manifest parser, the startup
    order by depth-first search, and the lifecycle of services.  The parser
    works on bytes; [trim] removes the ASCII white space, which is all the
    white space of an ASCII text. *)

From Stdlib Require Import String Ascii.
From S2P Require Import Prelude.
Open Scope string_scope.

(** ** Strings *)

Definition is_whitespace (c : ascii) : bool :=
  let n := N_of_ascii c in ((9 <=? n) && (n <=? 13) || (n =? 32))%N.

Fixpoint trim_start (s : string) : string :=
  match s with
  | String c s' => if is_whitespace c then trim_start s' else s
  | EmptyString => EmptyString
  end.

Fixpoint trim_end (s : string) : string :=
  match s with
  | String c s' =>
      match trim_end s' with
      | EmptyString => if is_whitespace c then EmptyString else String c EmptyString
      | t => String c t
      end
  | EmptyString => EmptyString
  end.

Definition trim (s : string) : string := trim_end (trim_start s).

Definition starts_with (c : ascii) (s : string) : bool :=
  match s with String d _ => Ascii.eqb d c | EmptyString => false end.

Fixpoint ends_with (c : ascii) (s : string) : bool :=
  match s with
  | EmptyString => false
  | String d EmptyString => Ascii.eqb d c
  | String _ s' => ends_with c s'
  end.

(** [&s[..s.len() - 1]] *)
Fixpoint without_last (s : string) : string :=
  match s with
  | EmptyString | String _ EmptyString => EmptyString
  | String c s' => String c (without_last s')
  end.

(** [&s[1..s.len() - 1]], for a string of at least two bytes. *)
Definition inner (s : string) : string :=
  match s with String _ s' => without_last s' | EmptyString => EmptyString end.

Fixpoint strip_prefix (p s : string) : option string :=
  match p, s with
  | EmptyString, _ => Some s
  | String a p, String b s => if Ascii.eqb a b then strip_prefix p s else None
  | String _ _, EmptyString => None
  end.

(** [split(c)]: the pieces between occurrences of [c], at least one. *)
Fixpoint split_at (c : ascii) (s : string) : string * list string :=
  match s with
  | EmptyString => (EmptyString, [])
  | String d s' =>
      let '(w, ws) := split_at c s' in
      if Ascii.eqb d c then (EmptyString, w :: ws) else (String d w, ws)
  end.

Definition split (c : ascii) (s : string) : list string :=
  let '(w, ws) := split_at c s in w :: ws.

Fixpoint split_once (c : ascii) (s : string) : option (string * string) :=
  match s with
  | EmptyString => None
  | String d s' =>
      if Ascii.eqb d c then Some (EmptyString, s')
      else match split_once c s' with Some (a, b) => Some (String d a, b) | None => None end
  end.

Definition newline : ascii := "010"%char.
Definition carriage_return : ascii := "013"%char.
Definition quote : ascii := "034"%char.

Definition strip_cr (s : string) : string :=
  if ends_with carriage_return s then without_last s else s.

(** [str::lines]: a final empty piece is not a line. *)
Definition lines (s : string) : list string :=
  let pieces := split newline s in
  match last pieces with
  | Some EmptyString => strip_cr <$> removelast pieces
  | _ => strip_cr <$> pieces
  end.

(** [strip_prefix(quote).and_then(strip_suffix(quote))] *)
Definition unquote (s : string) : option string :=
  match s with
  | String d s' => if Ascii.eqb d quote && ends_with quote s' then Some (without_last s') else None
  | EmptyString => None
  end.

(** ** Manifest *)

Record ServiceSpec := mkSpec {
  spec_name : string;
  spec_binary : string;
  spec_capabilities : list string;
  spec_depends_on : list string;
}.

Definition ServiceSpec_new (name : string) : ServiceSpec := mkSpec name "" [] [].

Inductive ManifestError :=
| InvalidSection (line : nat) (content : string)
| DuplicateService (name : string)
| OrphanKeyValue (line : nat) (content : string)
| UnknownKey (key : string) (line : nat)
| MissingBinary (name : string)
| UnknownDependency (service depends_on : string)
| DependencyCycle (name : string)
| EmptyManifest.

(** [BootManifest]: the services by name. *)
Abbreviation BootManifest := (gmap string ServiceSpec).

Definition string_le (a b : string) : Prop := String.leb a b = true.
#[export] Instance string_le_dec : RelDecision string_le.
Proof. intros a b. unfold string_le. apply _. Defined.

(** [keys()] of the [BTreeMap]: in increasing order. *)
Definition service_names (m : BootManifest) : list string := merge_sort string_le (map_to_list m).*1.

(** ** Parsing *)

Definition parse_key_value (line : string) (line_no : nat) : result (string * string) ManifestError :=
  match split_once "=" line with
  | Some (key, value) => Ok (trim key, trim value)
  | None => Err (OrphanKeyValue line_no line)
  end.

(** An unquoted value is taken as it is; the warning is not modelled. *)
Definition parse_string (value : string) : string :=
  let trimmed := trim value in
  match unquote trimmed with Some s => s | None => trimmed end.

Definition parse_item (item : string) : option string :=
  let t := trim item in
  match t with
  | EmptyString => None
  | _ => Some (match unquote t with Some s => s | None => t end)
  end.

Definition parse_array (value : string) (line_no : nat) : result (list string) ManifestError :=
  let trimmed := trim value in
  if negb (starts_with "[" trimmed) || negb (ends_with "]" trimmed) then
    Err (InvalidSection line_no trimmed)
  else Ok (omap parse_item (split "," (inner trimmed))).

Definition set_binary (sp : ServiceSpec) (b : string) : ServiceSpec :=
  mkSpec (spec_name sp) b (spec_capabilities sp) (spec_depends_on sp).
Definition set_capabilities (sp : ServiceSpec) (l : list string) : ServiceSpec :=
  mkSpec (spec_name sp) (spec_binary sp) l (spec_depends_on sp).
Definition set_depends_on (sp : ServiceSpec) (l : list string) : ServiceSpec :=
  mkSpec (spec_name sp) (spec_binary sp) (spec_capabilities sp) l.

(** The body of the loop over the lines: the services so far and the section
    the line belongs to. *)
Definition parse_line (st : BootManifest * option string) (line_no : nat) (raw_line : string)
    : result (BootManifest * option string) ManifestError :=
  let '(services, current_service) := st in
  let line := trim raw_line in
  if String.eqb line "" || starts_with "#" line then Ok st
  else if starts_with "[" line then
    if negb (ends_with "]" line) then Err (InvalidSection line_no line)
    else
      match strip_prefix "service." (inner line) with
      | None => Err (InvalidSection line_no line)
      | Some name =>
          match services !! name with
          | Some _ => Err (DuplicateService name)
          | None => Ok (<[name := ServiceSpec_new name]> services, Some name)
          end
      end
  else
    match current_service with
    | None => Err (OrphanKeyValue line_no line)
    | Some service_name =>
        let? (key, value) := parse_key_value line line_no in
        if String.eqb key "binary" then
          Ok (alter (λ sp, set_binary sp (parse_string value)) service_name services, current_service)
        else if String.eqb key "capabilities" then
          let? l := parse_array value line_no in
          Ok (alter (λ sp, set_capabilities sp l) service_name services, current_service)
        else if String.eqb key "depends_on" then
          let? l := parse_array value line_no in
          Ok (alter (λ sp, set_depends_on sp l) service_name services, current_service)
        else Err (UnknownKey key line_no)
    end.

Fixpoint parse_lines (st : BootManifest * option string) (line_no : nat) (ls : list string)
    : result (BootManifest * option string) ManifestError :=
  match ls with
  | [] => Ok st
  | raw_line :: ls =>
      let? st := parse_line st line_no raw_line in
      parse_lines st (S line_no) ls
  end.

Definition missing_binary (services : BootManifest) (name : string) : bool :=
  match services !! name with Some sp => String.eqb (spec_binary sp) "" | None => false end.

Definition parse_manifest (text : string) : result BootManifest ManifestError :=
  let? (services, _) := parse_lines (∅, None) 1 (lines text) in
  match List.find (missing_binary services) (service_names services) with
  | Some name => Err (MissingBinary (match services !! name with Some sp => spec_name sp | None => name end))
  | None => if decide (services = ∅) then Err EmptyManifest else Ok services
  end.

(** ** Startup order *)

(** The state of the search: names being visited, names visited, order. *)
Record Visit := mkVisit { visiting : gset string; visited : gset string; v_order : list string }.

Section visit.
Context (services : BootManifest).

(** The loop over the dependencies of [name]; [rec] is the recursive call. *)
Fixpoint visit_deps (rec : string → Visit → option (result Visit ManifestError)) (name : string)
    (deps : list string) (st : Visit) : option (result Visit ManifestError) :=
  match deps with
  | [] => Some (Ok st)
  | dep :: deps =>
      match services !! dep with
      | None => Some (Err (UnknownDependency name dep))
      | Some _ =>
          match rec dep st with
          | Some (Ok st) => visit_deps rec name deps st
          | r => r
          end
      end
  end.

(** [BootManifest::visit]; [None] only when the fuel runs out. *)
Fixpoint visit (fuel : nat) (name : string) (st : Visit) : option (result Visit ManifestError) :=
  match fuel with
  | O => None
  | S fuel =>
      if decide (name ∈ visiting st) then Some (Err (DependencyCycle name))
      else if decide (name ∈ visited st) then Some (Ok st)
      else
        let st := mkVisit ({[name]} ∪ visiting st) (visited st) (v_order st) in
        let r := match services !! name with
                 | Some spec => visit_deps (visit fuel) name (spec_depends_on spec) st
                 | None => Some (Ok st)
                 end in
        match r with
        | Some (Ok st) =>
            Some (Ok (mkVisit (visiting st ∖ {[name]}) ({[name]} ∪ visited st) (v_order st ++ [name])))
        | r => r
        end
  end.

(** The loop of [startup_order] over the keys. *)
Fixpoint visit_all (fuel : nat) (names : list string) (st : Visit) : option (result Visit ManifestError) :=
  match names with
  | [] => Some (Ok st)
  | name :: names =>
      if decide (name ∈ visited st) then visit_all fuel names st
      else
        match visit fuel name st with
        | Some (Ok st) => visit_all fuel names st
        | r => r
        end
  end.

(** The depth of the recursion is bounded by the number of services. *)
Definition startup_order : option (result (list string) ManifestError) :=
  match visit_all (S (size services)) (service_names services) (mkVisit ∅ ∅ []) with
  | Some (Ok st) => Some (Ok (v_order st))
  | Some (Err e) => Some (Err e)
  | None => None
  end.
End visit.

(** ** Lifecycle *)

Inductive ServiceState := SvcPending | SvcReady | SvcFailed.
#[export] Instance ServiceState_eq_dec : EqDecision ServiceState.
Proof. solve_decision. Defined.

Record ServiceRuntime := mkRuntime { rt_state : ServiceState; rt_capabilities : list string }.

Record ServiceManager := mkSvcMan {
  sm_manifest : BootManifest;
  sm_plan : list string;
  sm_registry : gmap string ServiceRuntime;
}.

Inductive LifecycleError :=
| UnknownService (name : string)
| InvalidTransition (service : string) (from to : ServiceState).

Definition initial_runtime (spec : ServiceSpec) : ServiceRuntime := mkRuntime SvcPending (spec_capabilities spec).

Definition ServiceManager_build (manifest : BootManifest) : option (result ServiceManager ManifestError) :=
  if decide (size manifest = 0%nat) then Some (Err EmptyManifest)
  else
    match startup_order manifest with
    | Some (Ok plan) => Some (Ok (mkSvcMan manifest plan (initial_runtime <$> manifest)))
    | Some (Err e) => Some (Err e)
    | None => None
    end.

Definition service_state (m : ServiceManager) (name : string) : option ServiceState :=
  rt_state <$> sm_registry m !! name.

Definition set_service_state (m : ServiceManager) (name : string) (s : ServiceState) : ServiceManager :=
  mkSvcMan (sm_manifest m) (sm_plan m)
    (alter (λ rt, mkRuntime s (rt_capabilities rt)) name (sm_registry m)).

Definition mark_ready (m : ServiceManager) (name : string) : ServiceManager * result unit LifecycleError :=
  match sm_registry m !! name with
  | None => (m, Err (UnknownService name))
  | Some rt =>
      match rt_state rt with
      | SvcPending => (set_service_state m name SvcReady, Ok tt)
      | SvcReady => (m, Ok tt)
      | SvcFailed => (m, Err (InvalidTransition name SvcFailed SvcReady))
      end
  end.

Definition mark_failed (m : ServiceManager) (name : string) : ServiceManager * result unit LifecycleError :=
  match sm_registry m !! name with
  | None => (m, Err (UnknownService name))
  | Some rt =>
      match rt_state rt with
      | SvcPending | SvcReady => (set_service_state m name SvcFailed, Ok tt)
      | SvcFailed => (m, Ok tt)
      end
  end.

Definition planned_capabilities (m : ServiceManager) (name : string) : option (list string) :=
  rt_capabilities <$> sm_registry m !! name.

(** ** The embedded manifest *)

Definition quoted (s : string) : string := String quote (s ++ String quote "").
Definition line (s : string) : string := s ++ String newline "".

Definition EMBEDDED_BOOT_MANIFEST : string :=
  line "" ++
  line "[service.ui_shell]" ++
  line ("binary = " ++ quoted "/init/ui_shell.elf") ++
  line ("capabilities = [" ++ quoted "FrameBufferCap" ++ ", " ++ quoted "PointerCap" ++ "]") ++
  line "" ++
  line "[service.fs_server]" ++
  line ("binary = " ++ quoted "/init/fs.elf") ++
  line ("capabilities = [" ++ quoted "MemRegionCap" ++ ", " ++ quoted "IPCPortCap" ++ "]") ++
  line ("depends_on = [" ++ quoted "storage_driver" ++ "]") ++
  line "" ++
  line "[service.storage_driver]" ++
  line ("binary = " ++ quoted "/init/nvme_driver.elf") ++
  line ("capabilities = [" ++ quoted "IRQCap:33" ++ ", " ++ quoted "DeviceCap:0000:01:00.0" ++ ", "
        ++ quoted "DMABufferCap" ++ "]").

(** [init_embedded_manifest], without the [Once] cell that keeps the result. *)
Definition init_embedded_manifest : option (result ServiceManager ManifestError) :=
  match parse_manifest EMBEDDED_BOOT_MANIFEST with
  | Err e => Some (Err e)
  | Ok manifest => ServiceManager_build manifest
  end.
