(* ===== verification/ServicesSafety.v ===== *)
(** * Service manager: properties

    The startup order of [Services.v] is a topological order of the
    dependencies whenever one exists, the search always ends within its fuel,
    and a parsed manifest is well formed. *)

From Stdlib Require Import String Ascii.
From S2P Require Import Prelude Services.
Open Scope string_scope.
Open Scope nat_scope.

(** [a] comes before [b] in [l]. *)
Definition before {A} (l : list A) (a b : A) : Prop := ∃ i j, l !! i = Some a ∧ l !! j = Some b ∧ i < j.

Lemma before_app {A} (l k : list A) a b : before l a b → before (l ++ k) a b.
Proof. intros (i & j & Hi & Hj & Hij). exists i, j. by rewrite !(lookup_app_l_Some _ k _ a), (lookup_app_l_Some _ k _ b) by done. Qed.

Lemma before_snoc {A} (l : list A) a b : a ∈ l → before (l ++ [b]) a b.
Proof.
  intros [i Hi]%list_elem_of_lookup. exists i, (length l). split_and!.
  - by apply lookup_app_l_Some.
  - by apply list_lookup_middle.
  - by eapply lookup_lt_Some.
Qed.

Lemma before_trans {A} (l : list A) a b c : NoDup l → before l a b → before l b c → before l a c.
Proof.
  intros Hnd (i & j & Hi & Hj & Hij) (j' & k & Hj' & Hk & Hjk).
  assert (j = j') as <- by by eapply NoDup_lookup. exists i, k. split_and!; [done..|lia].
Qed.

Lemma before_irrefl {A} (l : list A) a : NoDup l → ¬ before l a a.
Proof. intros Hnd (i & j & Hi & Hj & Hij). assert (i = j) by by eapply NoDup_lookup. lia. Qed.

Section order.
Context (services : BootManifest).

Definition depends (x y : string) : Prop := ∃ sp, services !! x = Some sp ∧ y ∈ spec_depends_on sp.
Definition known (x : string) : Prop := is_Some (services !! x).

(** The errors the search may report. *)
Definition order_error (e : ManifestError) : Prop :=
  match e with
  | UnknownDependency s d => depends s d ∧ services !! d = None
  | DependencyCycle n => tc depends n n
  | _ => False
  end.

(** The invariant of the search: the visited services are listed once, each
    after everything it depends on, and none of them is being visited. *)
Record ordered (st : Visit) : Prop := {
  od_nodup : NoDup (v_order st);
  od_set : ∀ x, x ∈ v_order st ↔ x ∈ visited st;
  od_known : ∀ x, x ∈ visited st → known x;
  od_deps : ∀ x y, x ∈ v_order st → depends x y → before (v_order st) y x;
  od_disj : visiting st ## visited st;
  od_path : visiting st ⊆ dom services;
}.

(** What a call of the search leaves behind. *)
Record explored (st st' : Visit) : Prop := {
  ex_ordered : ordered st';
  ex_visiting : visiting st' = visiting st;
  ex_visited : visited st ⊆ visited st';
}.

Lemma explored_refl st : ordered st → explored st st.
Proof. done. Qed.

Lemma explored_trans s1 s2 s3 : explored s1 s2 → explored s2 s3 → explored s1 s3.
Proof. intros [] []. split; [done|congruence|by etrans]. Qed.

(** The specification of a recursive call from a path [V]. *)
Definition visits (V : gset string) (rec : string → Visit → option (result Visit ManifestError)) : Prop :=
  ∀ name st, ordered st → visiting st = V → known name → (∀ x, x ∈ V → tc depends x name) →
  ∃ r, rec name st = Some r ∧
    match r with Ok st' => explored st st' ∧ name ∈ visited st' | Err e => order_error e end.

Lemma visit_deps_spec V rec name deps st :
  visits V rec → ordered st → visiting st = V → (∀ x, x ∈ V → rtc depends x name) →
  (∀ d, d ∈ deps → depends name d) →
  ∃ r, visit_deps services rec name deps st = Some r ∧
    match r with
    | Ok st' => explored st st' ∧ ∀ d, d ∈ deps → d ∈ visited st'
    | Err e => order_error e
    end.
Proof.
  intros Hrec. revert st. induction deps as [|dep deps IH]; intros st Hod HV Hpath Hdeps; simpl.
  { eexists. split; [done|]. split; [by apply explored_refl|set_solver]. }
  assert (depends name dep) as Hd by (apply Hdeps; set_solver).
  destruct (services !! dep) as [sp|] eqn:Hs; [|eexists; split; [done|]; by split].
  destruct (Hrec dep st Hod HV) as (r & -> & Hr); [by eexists| |].
  { intros x Hx. by eapply tc_rtc_l; [apply Hpath|apply tc_once]. }
  destruct r as [st1|e]; [|by eexists]. destruct Hr as [Hex Hin].
  destruct (IH st1) as (r & -> & Hr); [apply Hex|by rewrite (ex_visiting _ _ Hex)|done|set_solver|].
  eexists. split; [done|]. destruct r as [st2|e]; [|done]. destruct Hr as [Hex2 Hall].
  split; [by eapply explored_trans|]. intros d [->|Hd']%elem_of_cons; [|by apply Hall].
  by apply (ex_visited _ _ Hex2).
Qed.

(** Completing the visit of [name]. *)
Lemma finish_visit name st st1 :
  name ∉ visiting st → ordered st1 → visiting st1 = {[name]} ∪ visiting st → visited st ⊆ visited st1 →
  known name → (∀ d, depends name d → d ∈ visited st1) →
  explored st (mkVisit (visiting st1 ∖ {[name]}) ({[name]} ∪ visited st1) (v_order st1 ++ [name])).
Proof.
  intros Hn [Hnd Hset Hkn Hdeps Hdisj Hpath] HV Hsub Hk Hall.
  assert (name ∉ visited st1) as Hn1 by set_solver. split; simpl; [split; simpl|set_solver|set_solver].
  - apply NoDup_app. split_and!; [done| |apply NoDup_singleton].
    intros x Hx ->%list_elem_of_singleton. by apply Hn1, Hset.
  - intros x. rewrite elem_of_app, list_elem_of_singleton, Hset. set_solver.
  - intros x [->%elem_of_singleton|Hx]%elem_of_union; [done|by apply Hkn].
  - intros x y [Hx| ->%list_elem_of_singleton]%elem_of_app Hxy; [by apply before_app, Hdeps|].
    by apply before_snoc, Hset, Hall.
  - set_solver.
  - set_solver.
Qed.

Lemma visit_spec fuel V : size services < fuel + size V → visits V (visit services fuel).
Proof.
  revert V. induction fuel as [|fuel IH]; intros V Hfuel name st Hod HV Hk Hpath.
  { exfalso. assert (size V ≤ size (dom services)) as Hle by (apply subseteq_size; subst V; apply Hod).
    rewrite size_dom in Hle. simpl in Hfuel. lia. }
  cbn [visit]. subst V. case_decide as Hvg.
  { eexists. split; [done|]. by apply Hpath. }
  case_decide as Hvd; [eexists; split; [done|]; by split; [apply explored_refl|]|].
  destruct Hk as [sp Hsp]. rewrite Hsp. set (st0 := mkVisit _ _ _).
  assert (ordered st0) as Hod0.
  { destruct Hod. split; simpl; try done; [set_solver|]. apply union_least; [|done].
    apply singleton_subseteq_l, elem_of_dom. by eexists. }
  destruct (visit_deps_spec ({[name]} ∪ visiting st) (visit services fuel) name (spec_depends_on sp) st0)
    as (r & -> & Hr); [|done|done| | |].
  - apply IH. rewrite size_union, size_singleton by set_solver. lia.
  - intros x [->%elem_of_singleton|Hx]%elem_of_union; [done|by apply tc_rtc, Hpath].
  - intros d Hd. by exists sp.
  - destruct r as [st1|e]; [|by eexists]. destruct Hr as [[Hod1 HV1 Hsub] Hall].
    eexists. split; [done|]. split; [|set_solver].
    apply finish_visit; [done|done|done|done|by eexists|].
    intros d (sp' & Hsp' & Hd). apply Hall. congruence.
Qed.

Lemma visit_all_spec names st :
  ordered st → visiting st = ∅ → (∀ x, x ∈ names → known x) →
  ∃ r, visit_all services (S (size services)) names st = Some r ∧
    match r with
    | Ok st' => explored st st' ∧ ∀ x, x ∈ names → x ∈ visited st'
    | Err e => order_error e
    end.
Proof.
  revert st. induction names as [|name names IH]; intros st Hod HV Hkn; cbn [visit_all].
  { eexists. split; [done|]. split; [by apply explored_refl|set_solver]. }
  assert (∀ st1, explored st st1 → name ∈ visited st1 →
    ∃ r, visit_all services (S (size services)) names st1 = Some r ∧
      match r with
      | Ok st' => explored st st' ∧ ∀ x, x ∈ name :: names → x ∈ visited st'
      | Err e => order_error e
      end) as Hnext.
  { intros st1 Hex Hin. destruct (IH st1) as (r & -> & Hr); [apply Hex|by rewrite (ex_visiting _ _ Hex)|set_solver|].
    eexists. split; [done|]. destruct r as [st'|e]; [|done]. destruct Hr as [Hex' Hall].
    split; [by eapply explored_trans|]. pose proof (ex_visited _ _ Hex'). set_solver. }
  case_decide as Hv; [by apply Hnext; [apply explored_refl|]|].
  destruct (visit_spec (S (size services)) ∅) with (name := name) (st := st) as (r & -> & Hr);
    [rewrite size_empty; lia|done|done|apply Hkn; set_solver|set_solver|].
  destruct r as [st1|e]; [|by eexists]. destruct Hr as [Hex Hin]. by apply Hnext.
Qed.

Lemma elem_of_service_names x : x ∈ service_names services ↔ known x.
Proof.
  unfold service_names. rewrite merge_sort_Permutation, list_elem_of_fmap. split.
  - intros ([k v] & -> & Hkv%elem_of_map_to_list). by eexists.
  - intros [v Hv]. exists (x, v). split; [done|]. by apply elem_of_map_to_list.
Qed.

Lemma startup_order_cases :
  ∃ r, startup_order services = Some r ∧
    match r with
    | Ok order => NoDup order ∧ (∀ x, x ∈ order ↔ known x) ∧ (∀ x y, depends x y → before order y x)
    | Err e => order_error e
    end.
Proof.
  destruct (visit_all_spec (service_names services) (mkVisit ∅ ∅ [])) as (r & E & Hr).
  - split; simpl; try set_solver. constructor.
  - done.
  - intros x. apply elem_of_service_names.
  - unfold startup_order. rewrite E. destruct r as [st|e]; [|by eexists]. eexists. split; [done|].
    destruct Hr as [[[Hnd Hset Hkn Hdeps _ _] _ _] Hall].
    assert (∀ x, x ∈ v_order st ↔ known x) as Hiff.
    { intros x. rewrite Hset. split; [apply Hkn|]. intros Hx. by apply Hall, elem_of_service_names. }
    split_and!; [done|done|]. intros x y Hxy. apply Hdeps; [|done].
    apply Hiff. destruct Hxy as (sp & ? & _). by eexists.
Qed.

Lemma before_tc order x y :
  NoDup order → (∀ x y, depends x y → before order y x) → tc depends x y → before order y x.
Proof.
  intros Hnd H. induction 1 as [x y Hxy|x y z Hxy _ IH]; [by apply H|].
  eapply before_trans; [done|exact IH|by apply H].
Qed.
End order.

(** ** Printing and parsing *)

#[local] Arguments String.append : simpl nomatch.

Fixpoint no_char (c : ascii) (s : string) : Prop :=
  match s with EmptyString => True | String d s => d ≠ c ∧ no_char c s end.

Lemma no_char_app c s t : no_char c (s +:+ t) ↔ no_char c s ∧ no_char c t.
Proof. induction s as [|d s IH]; simpl; [tauto|]. rewrite IH. tauto. Qed.

Lemma string_app_nil s : (s +:+ "")%string = s.
Proof. induction s as [|c s IH]; simpl; [done|by rewrite IH]. Qed.

Lemma string_app_assoc s t u : ((s +:+ t) +:+ u)%string = (s +:+ (t +:+ u))%string.
Proof. induction s as [|c s IH]; simpl; [done|by rewrite IH]. Qed.

Lemma trim_end_last s c : is_whitespace c = false → trim_end (s +:+ String c "") = (s +:+ String c "")%string.
Proof. intros Hc. induction s as [|d s IH]; simpl; [by rewrite Hc|]. rewrite IH. by destruct s. Qed.

Lemma ends_with_last c s d : ends_with c (s +:+ String d "") = Ascii.eqb d c.
Proof. induction s as [|e s IH]; simpl; [done|]. rewrite IH. by destruct s. Qed.

Lemma without_last_last s c : without_last (s +:+ String c "") = s.
Proof. induction s as [|e s IH]; simpl; [done|]. rewrite IH. by destruct s. Qed.

Lemma split_at_none c s : no_char c s → split_at c s = (s, []).
Proof.
  induction s as [|d s IH]; simpl; [done|]. intros [Hd Hs]. rewrite IH by done.
  by destruct (Ascii.eqb_spec d c).
Qed.

Lemma split_app c s t : no_char c s → split c (s +:+ String c t) = s :: split c t.
Proof.
  unfold split. destruct (split_at c t) as [w ws] eqn:E. intros Hs.
  enough (split_at c (s +:+ String c t) = (s, w :: ws)) as -> by done.
  induction s as [|d s IH]; simpl in *; [by rewrite E, Ascii.eqb_refl|].
  destruct Hs as [Hd Hs]. rewrite IH by done. by destruct (Ascii.eqb_spec d c).
Qed.

Lemma trim_bracketed c s d :
  is_whitespace c = false → is_whitespace d = false → trim (String c (s +:+ String d "")) = String c (s +:+ String d "").
Proof. intros Hc Hd. unfold trim. cbn [trim_start]. rewrite Hc. by apply (trim_end_last (String c s)). Qed.

Lemma trim_space s : trim (String " " s) = trim s.
Proof. done. Qed.

(** A manifest in the format the parser reads. *)
Fixpoint print_items (l : list string) : string :=
  match l with
  | [] => ""
  | [x] => quoted x
  | x :: l => quoted x +:+ String "," (String " " (print_items l))
  end.

Definition print_array (l : list string) : string := String "[" (print_items l +:+ String "]" "").

Definition print_service (sp : ServiceSpec) : list string :=
  ["[service." +:+ spec_name sp +:+ String "]" "";
   "binary = " +:+ quoted (spec_binary sp);
   "capabilities = " +:+ print_array (spec_capabilities sp);
   "depends_on = " +:+ print_array (spec_depends_on sp)].

Fixpoint print_lines (ls : list string) : string :=
  match ls with [] => "" | l :: ls => l +:+ String newline (print_lines ls) end.

Definition print_manifest (l : list ServiceSpec) : string := print_lines (mjoin (print_service <$> l)).

(** Values that survive printing: no line break, and no comma in a list. *)
Definition item_ok (x : string) : Prop := no_char newline x ∧ no_char "," x.

Record printable (sp : ServiceSpec) : Prop := {
  pr_name : no_char newline (spec_name sp);
  pr_binary : no_char newline (spec_binary sp);
  pr_some : spec_binary sp ≠ "";
  pr_caps : Forall item_ok (spec_capabilities sp);
  pr_deps : Forall item_ok (spec_depends_on sp);
}.

Lemma quoted_eq x : quoted x = String quote (x +:+ String quote "").
Proof. done. Qed.

Lemma unquote_quoted x : unquote (quoted x) = Some x.
Proof. rewrite quoted_eq. cbn [unquote]. by rewrite ends_with_last, without_last_last. Qed.

Lemma trim_quoted x : trim (quoted x) = quoted x.
Proof. by apply trim_bracketed. Qed.

Lemma parse_item_quoted x : parse_item (quoted x) = Some x.
Proof. unfold parse_item. rewrite trim_quoted, unquote_quoted. done. Qed.

Lemma no_char_quoted c x : c ≠ quote → no_char c x → no_char c (quoted x).
Proof. intros Hc Hx. rewrite quoted_eq. split; [done|]. rewrite no_char_app. done. Qed.

Lemma split_space s : omap parse_item (split "," (String " " s)) = omap parse_item (split "," s).
Proof. unfold split. cbn [split_at]. destruct (split_at "," s) as [w ws]. done. Qed.

Lemma parse_items_print l :
  Forall item_ok l → omap parse_item (split "," (print_items l)) = l.
Proof.
  induction l as [|x l IH]; [done|]. intros [[_ Hx] Hl]%Forall_cons. destruct l as [|y l].
  - cbn [print_items]. unfold split. rewrite split_at_none by by apply no_char_quoted. cbn [omap list_omap].
    by rewrite parse_item_quoted.
  - cbn [print_items]. rewrite split_app by by apply no_char_quoted. cbn [omap list_omap].
    rewrite parse_item_quoted. f_equal. etransitivity; [apply split_space|]. by apply IH.
Qed.

Lemma trim_array l : trim (print_array l) = print_array l.
Proof. by apply trim_bracketed. Qed.

Lemma parse_array_print l n : Forall item_ok l → parse_array (print_array l) n = Ok l.
Proof.
  intros Hl. unfold parse_array. rewrite trim_array. unfold print_array at 1 2 3.
  change (String "[" (print_items l +:+ String "]" "")) with ((String "[" (print_items l)) +:+ String "]" "") at 2.
  rewrite ends_with_last. cbn [starts_with inner print_array]. rewrite without_last_last. simpl.
  by rewrite parse_items_print.
Qed.

(** The four lines of a service. *)
Lemma parse_line_section m cur n name :
  m !! name = None →
  parse_line (m, cur) n ("[service." +:+ name +:+ String "]" "") = Ok (<[name := ServiceSpec_new name]> m, Some name).
Proof.
  intros Hm. unfold parse_line.
  assert (trim ("[service." +:+ name +:+ String "]" "") = "[service." +:+ name +:+ String "]" "") as ->
    by (apply (trim_bracketed "[" ("service." +:+ name) "]"); done).
  assert (ends_with "]" ("[service." +:+ name +:+ String "]" "") = true) as ->
    by apply (ends_with_last "]" ("[service." +:+ name) "]").
  assert (inner ("[service." +:+ name +:+ String "]" "") = "service." +:+ name) as ->
    by apply (without_last_last ("service." +:+ name) "]").
  simpl. by rewrite Hm.
Qed.

Lemma parse_line_key (key body : string) c d m cur n name v :
  is_whitespace c = false → is_whitespace d = false → Ascii.eqb c "#" = false → Ascii.eqb c "[" = false →
  (∃ s, body = s +:+ String d "") → trim body = body →
  split_once "=" (String c key +:+ body) = Some (String c v, String " " body) → cur = Some name →
  parse_line (m, cur) n (String c key +:+ body) =
    let? (k, value) := Ok (trim (String c v), body) in
    if String.eqb k "binary" then
      Ok (alter (λ sp, set_binary sp (parse_string value)) name m, cur)
    else if String.eqb k "capabilities" then
      let? l := parse_array value n in Ok (alter (λ sp, set_capabilities sp l) name m, cur)
    else if String.eqb k "depends_on" then
      let? l := parse_array value n in Ok (alter (λ sp, set_depends_on sp l) name m, cur)
    else Err (UnknownKey k n).
Proof.
  intros Hc Hd Hh Hb [s Hs] Ht Hsp ->. unfold parse_line.
  assert (trim (String c key +:+ body) = String c key +:+ body) as ->.
  { rewrite Hs, <- string_app_assoc. by apply (trim_bracketed c (key +:+ s) d). }
  cbn [String.eqb starts_with String.append]. rewrite Hh, Hb. cbn [orb].
  change (String c (key +:+ body)) with (String c key +:+ body).
  unfold parse_key_value. rewrite Hsp. by rewrite trim_space, Ht.
Qed.

Lemma ends_quoted x : ∃ s, quoted x = s +:+ String quote "".
Proof. by exists (String quote x). Qed.

Lemma ends_array l : ∃ s, print_array l = s +:+ String "]" "".
Proof. by exists (String "[" (print_items l)). Qed.

Lemma parse_line_binary m n name b :
  parse_line (m, Some name) n ("binary = " +:+ quoted b) = Ok (alter (λ sp, set_binary sp b) name m, Some name).
Proof.
  pose proof (ends_quoted b). pose proof (trim_quoted b) as Ht.
  rewrite (parse_line_key "inary = " (quoted b) "b" quote m (Some name) n name "inary ") by done.
  cbn -[set_binary alter parse_string]. unfold parse_string. by rewrite Ht, unquote_quoted.
Qed.

Lemma parse_line_capabilities m n name l :
  Forall item_ok l →
  parse_line (m, Some name) n ("capabilities = " +:+ print_array l) =
    Ok (alter (λ sp, set_capabilities sp l) name m, Some name).
Proof.
  intros Hl. pose proof (ends_array l). pose proof (trim_array l).
  rewrite (parse_line_key "apabilities = " (print_array l) "c" "]" m (Some name) n name "apabilities ") by done.
  pose proof (parse_array_print l n Hl) as E. cbn -[set_capabilities alter parse_array print_array]. by rewrite E.
Qed.

Lemma parse_line_depends m n name l :
  Forall item_ok l →
  parse_line (m, Some name) n ("depends_on = " +:+ print_array l) =
    Ok (alter (λ sp, set_depends_on sp l) name m, Some name).
Proof.
  intros Hl. pose proof (ends_array l). pose proof (trim_array l).
  rewrite (parse_line_key "epends_on = " (print_array l) "d" "]" m (Some name) n name "epends_on ") by done.
  pose proof (parse_array_print l n Hl) as E. cbn -[set_depends_on alter parse_array print_array]. by rewrite E.
Qed.

Lemma parse_lines_app st n l1 l2 :
  parse_lines st n (l1 ++ l2) =
  match parse_lines st n l1 with Ok st => parse_lines st (n + length l1) l2 | Err e => Err e end.
Proof.
  revert st n. induction l1 as [|x l1 IH]; intros st n; simpl; [by rewrite Nat.add_0_r|].
  destruct (parse_line st n x); [|done]. rewrite IH. by rewrite Nat.add_succ_r.
Qed.

Lemma parse_service m cur n sp :
  m !! spec_name sp = None → printable sp →
  parse_lines (m, cur) n (print_service sp) = Ok (<[spec_name sp := sp]> m, Some (spec_name sp)).
Proof.
  intros Hm [_ _ _ Hc Hd]. unfold print_service. cbn [parse_lines].
  rewrite parse_line_section, parse_line_binary, parse_line_capabilities, parse_line_depends by done.
  rewrite !alter_insert_eq. by destruct sp.
Qed.

(** The services of a list, by name. *)
Definition manifest_of (l : list ServiceSpec) : BootManifest := list_to_map ((λ sp, (spec_name sp, sp)) <$> l).

Lemma manifest_of_lookup l name sp : manifest_of l !! name = Some sp → sp ∈ l ∧ spec_name sp = name.
Proof.
  unfold manifest_of. intros H%elem_of_list_to_map_2%list_elem_of_fmap.
  destruct H as (sp' & [= -> ->] & Hin). done.
Qed.

Lemma manifest_of_none l name : name ∉ spec_name <$> l → manifest_of l !! name = None.
Proof.
  intros Hn. destruct (manifest_of l !! name) as [sp|] eqn:E; [|done].
  apply manifest_of_lookup in E as [Hin <-]. destruct Hn. by apply list_elem_of_fmap_2.
Qed.

Lemma parse_services l m cur n :
  NoDup (spec_name <$> l) → Forall printable l → (∀ sp, sp ∈ l → m !! spec_name sp = None) →
  ∃ cur', parse_lines (m, cur) n (mjoin (print_service <$> l)) = Ok (manifest_of l ∪ m, cur').
Proof.
  revert m cur n. induction l as [|sp l IH]; intros m cur n Hnd Hp Hm.
  { exists cur. unfold manifest_of. simpl. by rewrite (left_id_L ∅ (∪)). }
  rewrite fmap_cons in Hnd. apply NoDup_cons in Hnd as [Hn Hnd]. apply Forall_cons in Hp as [Hsp Hp].
  rewrite fmap_cons.
  change (mjoin (print_service sp :: (print_service <$> l)))
    with (print_service sp ++ mjoin (print_service <$> l))%list.
  rewrite parse_lines_app, parse_service by (set_solver || done).
  destruct (IH (<[spec_name sp := sp]> m) (Some (spec_name sp)) (n + length (print_service sp))) as [cur' ->]; [done..| |].
  - intros sp' Hin. rewrite lookup_insert_ne; [apply Hm; set_solver|]. intros E. destruct Hn. rewrite E.
    by apply list_elem_of_fmap_2.
  - exists cur'. do 2 f_equal. change (manifest_of (sp :: l)) with (<[spec_name sp := sp]> (manifest_of l)).
    rewrite <- insert_union_l, insert_union_r; [done|]. by apply manifest_of_none.
Qed.

(** Lines that [lines] returns unchanged. *)
Definition line_ok (l : string) : Prop := no_char newline l ∧ ends_with carriage_return l = false.

Lemma split_lines ls : Forall line_ok ls → split newline (print_lines ls) = (ls ++ [""])%list.
Proof.
  induction 1 as [|l ls [Hl _] _ IH]; [done|]. cbn [print_lines]. by rewrite split_app, IH.
Qed.

Lemma lines_print ls : Forall line_ok ls → lines (print_lines ls) = ls.
Proof.
  intros Hls. unfold lines. rewrite split_lines by done. rewrite last_snoc, removelast_last.
  induction Hls as [|l ls [_ Hcr] _ IH]; [done|]. rewrite fmap_cons, IH. unfold strip_cr. by rewrite Hcr.
Qed.

Lemma no_newline_items l : Forall item_ok l → no_char newline (print_items l).
Proof.
  induction l as [|x l IH]; [done|]. intros [[Hx _] Hl]%Forall_cons. destruct l as [|y l].
  - by apply no_char_quoted.
  - change (print_items (x :: y :: l)) with (quoted x +:+ String "," (String " " (print_items (y :: l)))).
    apply no_char_app. split; [by apply no_char_quoted|]. split; [done|]. split; [done|]. by apply IH.
Qed.

Lemma line_ok_last s c : no_char newline (s +:+ String c "") → c ≠ carriage_return → line_ok (s +:+ String c "").
Proof. intros Hs Hc. split; [done|]. rewrite ends_with_last. by apply Ascii.eqb_neq. Qed.

Lemma line_ok_array p l : no_char newline p → Forall item_ok l → line_ok (p +:+ print_array l).
Proof.
  intros Hp Hl. destruct (ends_array l) as [s Hs]. rewrite Hs, <- string_app_assoc. apply line_ok_last; [|done].
  rewrite string_app_assoc, <- Hs, no_char_app. split; [done|]. split; [done|].
  rewrite no_char_app. split; [by apply no_newline_items|done].
Qed.

Lemma print_service_lines sp : printable sp → Forall line_ok (print_service sp).
Proof.
  intros [Hn Hb _ Hc Hd]. repeat apply Forall_cons_2; [..|by apply Forall_nil].
  - apply (line_ok_last ("[service." +:+ spec_name sp) "]"); [|done]. rewrite string_app_assoc, !no_char_app. done.
  - apply (line_ok_last ("binary = " +:+ String quote (spec_binary sp)) quote); [|done].
    rewrite string_app_assoc. cbn. by rewrite no_char_app.
  - apply line_ok_array; [|done]. repeat split; done.
  - apply line_ok_array; [|done]. repeat split; done.
Qed.

(** ** Properties *)

(** C17. The startup order, for every manifest: the search ends; it succeeds
    exactly when every dependency is a service and no service depends on
    itself through others; on success the order lists each service once, after
    everything it depends on; on failure it names a dependency that is not a
    service, or a service on a dependency cycle. *)
Theorem startup_order_correct services :
  ∃ r, startup_order services = Some r ∧
    (is_ok r = true ↔ (∀ x y, depends services x y → known services y) ∧ ∀ x, ¬ tc (depends services) x x) ∧
    match r with
    | Ok order => NoDup order ∧ (∀ x, x ∈ order ↔ known services x) ∧
        (∀ x y, depends services x y → before order y x)
    | Err e => order_error services e
    end.
Proof.
  destruct (startup_order_cases services) as (r & E & Hr). exists r. split_and!; [done| |done].
  destruct r as [order|e]; simpl.
  - destruct Hr as (Hnd & Hset & Hdeps). split; [|done]. intros _. split.
    + intros x y (i & j & Hi & _)%Hdeps. apply Hset. by eapply list_elem_of_lookup_2.
    + intros x Hx. eapply before_irrefl; [exact Hnd|]. by eapply before_tc.
  - split; [done|]. intros [Hk Ha]. destruct e; try done; simpl in Hr.
    + destruct Hr as [Hd Hn]. apply Hk in Hd as [? Hd]. congruence.
    + by apply Ha in Hr.
Qed.

(** Print and parse: a manifest written in the format of the parser, with
    distinct names, non-empty binaries, no line break in a value and no comma
    in a list entry, is read back exactly. *)
Theorem parse_print_roundtrip l :
  NoDup (spec_name <$> l) → Forall printable l → l ≠ [] →
  parse_manifest (print_manifest l) = Ok (manifest_of l).
Proof.
  intros Hnd Hp Hne. unfold parse_manifest, print_manifest. rewrite lines_print.
  2:{ clear -Hp. induction Hp as [|sp l Hsp _ IH]; [done|]. rewrite fmap_cons.
      apply Forall_app. by split; [apply print_service_lines|]. }
  destruct (parse_services l ∅ None 1 Hnd Hp) as [cur ->]; [done|]. rewrite (right_id_L ∅ (∪)).
  destruct (List.find _ _) as [name|] eqn:E.
  - apply find_some in E as [_ E]. unfold missing_binary in E.
    destruct (manifest_of l !! name) as [sp|] eqn:El; [|done]. apply manifest_of_lookup in El as [Hin _].
    apply String.eqb_eq in E. rewrite Forall_forall in Hp. by destruct (pr_some _ (Hp sp Hin)).
  - rewrite decide_False; [done|]. destruct l as [|sp l]; [done|]. 
    change (manifest_of (sp :: l)) with (<[spec_name sp := sp]> (manifest_of l)). apply insert_non_empty.
Qed.

(** *** Lifecycle *)

Inductive lifecycle_step : ServiceManager → ServiceManager → Prop :=
| ls_ready m name : lifecycle_step m (mark_ready m name).1
| ls_failed m name : lifecycle_step m (mark_failed m name).1.

Definition state_rank (s : ServiceState) : nat := match s with SvcPending => 0 | SvcReady => 1 | SvcFailed => 2 end.

Lemma set_service_state_lookup m name s x :
  service_state (set_service_state m name s) x =
  if decide (x = name) then (λ _, s) <$> service_state m x else service_state m x.
Proof.
  unfold service_state, set_service_state. simpl. case_decide as Hx.
  - subst. rewrite lookup_alter_eq. by destruct (sm_registry m !! name).
  - by rewrite lookup_alter_ne.
Qed.

Lemma lifecycle_step_rank m m' x s :
  lifecycle_step m m' → service_state m x = Some s →
  ∃ s', service_state m' x = Some s' ∧ state_rank s ≤ state_rank s'.
Proof.
  intros Hs Hx. destruct Hs as [m name|m name]; unfold mark_ready, mark_failed;
    (destruct (sm_registry m !! name) as [rt|] eqn:E; [|by eauto]);
    assert (service_state m name = Some (rt_state rt)) as Hn by (unfold service_state; by rewrite E);
    destruct (rt_state rt) eqn:Er; simpl; eauto;
    rewrite set_service_state_lookup; case_decide as Hd; eauto; subst; rewrite Hx in *; simpl;
    eexists; (split; [done|]); injection Hn as ->; simpl; lia.
Qed.

(** Services only move forward: over any sequence of reports a service
    keeps being known, its state never goes back from [Ready] to [Pending],
    and [Failed] is final. *)
Theorem lifecycle_forward m m' x s :
  rtc lifecycle_step m m' → service_state m x = Some s →
  ∃ s', service_state m' x = Some s' ∧ state_rank s ≤ state_rank s'.
Proof.
  intros Hs. revert s. induction Hs as [m|m m1 m2 Hstep _ IH]; intros s Hx; [by eauto|].
  destruct (lifecycle_step_rank _ _ _ _ Hstep Hx) as (s1 & Hx1 & H1).
  destruct (IH s1 Hx1) as (s2 & Hx2 & H2). exists s2. split; [done|lia].
Qed.

(** ** Witnesses *)

Definition demo_spec : ServiceSpec :=
  mkSpec "fs_server" "/init/fs.elf" ["MemRegionCap"; "IPCPortCap"] ["storage_driver"].

Lemma demo_spec_printable : printable demo_spec.
Proof. split; repeat (constructor || discriminate). Qed.

Lemma parse_print_roundtrip_witness :
  parse_manifest (print_manifest [demo_spec]) = Ok (<["fs_server" := demo_spec]> ∅).
Proof.
  apply (parse_print_roundtrip [demo_spec]); [apply NoDup_singleton| |discriminate].
  apply Forall_cons_2; [exact demo_spec_printable|apply Forall_nil_2].
Defined.

(** The manager of the embedded manifest. *)
Definition demo_manager : ServiceManager :=
  match init_embedded_manifest with Some (Ok m) => m | _ => mkSvcMan ∅ [] ∅ end.

Lemma embedded_plan : sm_plan demo_manager = ["storage_driver"; "fs_server"; "ui_shell"].
Proof. vm_compute. reflexivity. Qed.

Lemma lifecycle_forward_witness :
  ∃ s', service_state (mark_ready (mark_failed demo_manager "fs_server").1 "fs_server").1 "fs_server" = Some s' ∧
    state_rank SvcPending ≤ state_rank s'.
Proof.
  apply (lifecycle_forward demo_manager); [|vm_compute; reflexivity].
  eapply rtc_l; [apply ls_failed|]. apply rtc_once, ls_ready.
Defined.
