(* ===== verification/Heap.v ===== *)
(** * Kernel heap ([mm/heap.rs])

    The bump allocator behind Rust's [GlobalAlloc]: its initialisation from the
    page allocator, allocation, the release that does nothing, and statistics.
    Blocks are aligned, inside the heap and disjoint from one another; an
    allocation fails only when the rest of the heap cannot hold it. *)

From S2P Require Import Prelude Pmm PmmSafety.

Definition HEAP_SIZE : Z := 4 * 1024 * 1024.

(** [HEAP_START], [HEAP_POS] and [HEAP_END]. *)
Record Heap := mkHeap { heap_start : Z; heap_pos : Z; heap_end : Z }.

Definition Heap_initial : Heap := mkHeap 0 0 0.

Definition heap_at (base pages : Z) : Heap := mkHeap base base (base + pages * PAGE_SIZE).

(** [init]; [None] is the halt loop entered when neither request succeeds. *)
Definition heap_init (p : Pmm) : option (Pmm * Heap) :=
  let num_pages := HEAP_SIZE / PAGE_SIZE in
  match alloc_pages p num_pages with
  | (p, Some base) => Some (p, heap_at base num_pages)
  | (p, None) =>
      match alloc_pages p (num_pages / 4) with
      | (p, Some base) => Some (p, heap_at base (num_pages / 4))
      | (_, None) => None
      end
  end.

Definition heap_align_up (val align : Z) : Z :=
  Z.land (wrap64 (val + align - 1)) (not_w 64 (align - 1)).

(** [GlobalAlloc::alloc] of a layout; [None] is the null pointer. *)
Definition heap_alloc (h : Heap) (size align : Z) : Heap * option Z :=
  if heap_start h =? 0 then (h, None)
  else
    let aligned := heap_align_up (heap_pos h) align in
    let new_pos := wrap64 (aligned + size) in
    if heap_end h <? new_pos then (h, None)
    else (mkHeap (heap_start h) new_pos (heap_end h), Some aligned).

(** [GlobalAlloc::dealloc] *)
Definition heap_dealloc (h : Heap) (ptr size align : Z) : Heap := h.

Definition heap_get_stats (h : Heap) : Z * Z :=
  if heap_start h =? 0 then (0, 0)
  else (heap_end h - heap_start h, heap_pos h - heap_start h).

(** ** Properties *)

(** What [Layout] guarantees. *)
Definition layout_ok (size align : Z) : Prop :=
  (∃ k, 0 ≤ k < 63 ∧ align = 2 ^ k) ∧ 0 ≤ size ∧ size + align ≤ 2 ^ 63.

Record heap_wf (h : Heap) : Prop := {
  hw_start : 0 < heap_start h;
  hw_pos : heap_start h ≤ heap_pos h ≤ heap_end h;
  hw_end : heap_end h ≤ 2 ^ 62;
}.

Lemma heap_align_up_spec val align :
  0 ≤ val ≤ 2 ^ 62 → (∃ k, 0 ≤ k < 63 ∧ align = 2 ^ k) →
  heap_align_up val align mod align = 0 ∧ val ≤ heap_align_up val align < val + align.
Proof.
  intros Hv (k & Hk & ->). unfold heap_align_up.
  pose proof (Z.pow_pos_nonneg 2 k) as Hp. pose proof (Z.pow_le_mono_r 2 k 62) as Hle.
  rewrite wrap_small by (unfold in_range; lia). rewrite mask_low by (unfold in_range; lia).
  split; [by apply Z.mod_mul; lia|].
  pose proof (Z.div_mod (val + 2 ^ k - 1) (2 ^ k)). pose proof (Z.mod_pos_bound (val + 2 ^ k - 1) (2 ^ k)). lia.
Qed.

(** One request: the block returned, or nothing when it does not fit. *)
Lemma heap_alloc_spec h size align h' r :
  heap_wf h → layout_ok size align → heap_alloc h size align = (h', r) →
  heap_wf h' ∧ heap_start h' = heap_start h ∧ heap_end h' = heap_end h ∧
  match r with
  | Some a => a mod align = 0 ∧ heap_pos h ≤ a < heap_pos h + align ∧ heap_pos h' = a + size
  | None => h' = h ∧ ∀ a, heap_pos h ≤ a → a mod align = 0 → heap_end h < a + size
  end.
Proof.
  intros [Hs Hp He] (Hal & Hsz & Hmax). unfold heap_alloc. rewrite (proj2 (Z.eqb_neq _ _)) by lia.
  destruct (heap_align_up_spec (heap_pos h) align) as [Hm Ha]; [lia|done|].
  assert (0 < align) as Hpos by (destruct Hal as (k & Hk & ->); lia).
  set (a := heap_align_up (heap_pos h) align) in *. clearbody a.
  cbv zeta. rewrite wrap_small by (unfold in_range; lia).
  destruct (Z.ltb_spec (heap_end h) (a + size)) as [Hlt|Hge]; intros [= <- <-].
  - split_and!; try done. intros b Hb Hbm. enough (a ≤ b) by lia.
    apply Z.mod_divide in Hm as [x ->], Hbm as [y ->]; [|lia..].
    assert (x < y + 1) by (apply (Z.mul_lt_mono_pos_r align); lia). apply Z.mul_le_mono_nonneg_r; lia.
  - split; [split; cbn; lia|]. cbn. lia.
Qed.

(** Requests in order, with the blocks returned. *)
Fixpoint heap_allocs (h : Heap) (reqs : list (Z * Z)) : Heap * list (option (Z * Z)) :=
  match reqs with
  | [] => (h, [])
  | (size, align) :: reqs =>
      let '(h, r) := heap_alloc h size align in
      let '(h, rs) := heap_allocs h reqs in
      (h, ((λ a, (a, size)) <$> r) :: rs)
  end.

Definition in_block (b : Z * Z) (x : Z) : Prop := b.1 ≤ x < b.1 + b.2.

Lemma heap_allocs_spec reqs h h' rs :
  heap_wf h → Forall (λ q, layout_ok q.1 q.2) reqs → heap_allocs h reqs = (h', rs) →
  heap_wf h' ∧ heap_start h' = heap_start h ∧ heap_end h' = heap_end h ∧ heap_pos h ≤ heap_pos h' ∧
  (∀ i b, rs !! i = Some (Some b) → heap_pos h ≤ b.1 ∧ b.1 + b.2 ≤ heap_pos h' ∧
    ∃ align, reqs !! i = Some (b.2, align) ∧ b.1 mod align = 0) ∧
  (∀ i j b c x, rs !! i = Some (Some b) → rs !! j = Some (Some c) → in_block b x → in_block c x → i = j).
Proof.
  revert h h' rs. induction reqs as [|[size align] reqs IH]; intros h h' rs Hwf Hreqs; cbn [heap_allocs].
  { intros [= <- <-]. split_and!; try done. }
  apply Forall_cons in Hreqs as [Hl Hreqs]. cbn [fst snd] in Hl.
  destruct (heap_alloc h size align) as [h1 r] eqn:E1. destruct (heap_allocs h1 reqs) as [h2 rs2] eqn:E2.
  intros [= <- <-]. destruct (heap_alloc_spec _ _ _ _ _ Hwf Hl E1) as (Hwf1 & Hs1 & He1 & Hr).
  destruct (IH _ _ _ Hwf1 Hreqs E2) as (Hwf2 & Hs2 & He2 & Hp2 & Hin & Hdis). destruct Hl as (_ & Hsz & _).
  assert (heap_pos h ≤ heap_pos h1) as Hp1 by (destruct r; [lia|destruct Hr as [-> _]; lia]).
  assert (Hhead : ∀ b, (λ a, (a, size)) <$> r = Some b →
    b.2 = size ∧ b.1 mod align = 0 ∧ heap_pos h ≤ b.1 ∧ b.1 + b.2 = heap_pos h1).
  { destruct r as [a|]; [|done]. intros b [= <-]. cbn. lia. }
  split; [done|]. split; [congruence|]. split; [congruence|]. split; [lia|]. split.
  - intros [|i] b Hb; cbn in Hb.
    + injection Hb as Hb. apply Hhead in Hb as (<- & Hm & ? & ?). split; [lia|]. split; [lia|]. by exists align.
    + apply Hin in Hb as (? & ? & ?). split; [lia|]. by split; [lia|].
  - unfold in_block. intros [|i] [|j] b c x Hb Hc Hxb Hxc; cbn in Hb, Hc; [done|..].
    + injection Hb as Hb. apply Hhead in Hb as (_ & _ & _ & ?). apply Hin in Hc as (? & _). lia.
    + injection Hc as Hc. apply Hhead in Hc as (_ & _ & _ & ?). apply Hin in Hb as (? & _). lia.
    + f_equal. by eapply Hdis.
Qed.

Lemma heap_init_allocates p p' h :
  pmm_wf p → heap_init p = Some (p', h) → ∃ n st, 1 ≤ n ∧ allocates p n st p' ∧ h = heap_at (st * PAGE_SIZE) n.
Proof.
  intros Hwf. unfold heap_init. cbv zeta.
  destruct (alloc_pages_spec p (HEAP_SIZE / PAGE_SIZE) Hwf ltac:(done)) as [[-> _]|(st & p1 & -> & Hal)];
    [|intros [= <- <-]; by exists (HEAP_SIZE / PAGE_SIZE), st].
  destruct (alloc_pages_spec p (HEAP_SIZE / PAGE_SIZE / 4) Hwf ltac:(done)) as [[-> _]|(st & p1 & -> & Hal)]; [done|].
  intros [= <- <-]. by exists (HEAP_SIZE / PAGE_SIZE / 4), st.
Qed.

Lemma heap_init_spec p p' h :
  pmm_wf p → 0 ∉ free_set p → heap_init p = Some (p', h) →
  heap_wf h ∧ heap_pos h = heap_start h ∧ pmm_wf p' ∧
  ∀ x, heap_start h ≤ x < heap_end h → x / PAGE_SIZE ∈ free_set p ∧ x / PAGE_SIZE ∉ free_set p'.
Proof.
  intros Hwf H0 E. destruct (heap_init_allocates p p' h Hwf E) as (n & st & Hn & [Hst Hrun _ _ Hfree Hwf'] & ->).
  assert (Hin : ∀ q, st ≤ q < st + n → q ∈ free_set p) by (intros q Hq; apply Hrun; by apply elem_of_run_set).
  assert (st ≠ 0) as Hne by (intros ->; apply H0, Hin; lia).
  pose proof (free_set_lt _ _ (Hin (st + n - 1) ltac:(lia))). pose proof (pw_total _ Hwf). unfold MAX_PAGES in *.
  unfold heap_at. split; [split; cbn; unfold PAGE_SIZE; lia|]. split; [done|]. split; [done|]. cbn. intros x Hx.
  assert (st ≤ x / PAGE_SIZE < st + n) as Hq.
  { split; [apply Z.div_le_lower_bound|apply Z.div_lt_upper_bound]; unfold PAGE_SIZE in *; lia. }
  split; [by apply Hin|]. rewrite Hfree. apply not_elem_of_difference. right. by apply elem_of_run_set.
Qed.

(** The heap over the page allocator: the pages of the heap were free and are
    taken; every block handed out is aligned as asked, holds the size asked,
    lies in those pages, and shares no byte with any other block; a request is
    refused only when no aligned place in the rest of the heap can hold it. *)
Theorem heap_blocks_correct p p' h reqs h' rs :
  pmm_wf p → 0 ∉ free_set p → heap_init p = Some (p', h) →
  Forall (λ q, layout_ok q.1 q.2) reqs → heap_allocs h reqs = (h', rs) →
  pmm_wf p' ∧
  (∀ i b, rs !! i = Some (Some b) →
    (∃ align, reqs !! i = Some (b.2, align) ∧ b.1 mod align = 0) ∧
    ∀ x, in_block b x → x / PAGE_SIZE ∈ free_set p ∧ x / PAGE_SIZE ∉ free_set p') ∧
  (∀ i j b c x, rs !! i = Some (Some b) → rs !! j = Some (Some c) → in_block b x → in_block c x → i = j) ∧
  (∀ size align, layout_ok size align → (heap_alloc h' size align).2 = None →
    ∀ a, heap_pos h' ≤ a → a mod align = 0 → heap_end h' < a + size).
Proof.
  intros Hp H0 Ei Hreqs Ea. destruct (heap_init_spec _ _ _ Hp H0 Ei) as (Hwf & Hpos & Hp' & Hpages).
  destruct (heap_allocs_spec _ _ _ _ Hwf Hreqs Ea) as (Hwf' & Hs & He & _ & Hin & Hdis).
  split; [done|]. split; [|split; [exact Hdis|]].
  - intros i b Hb. apply Hin in Hb as (Hb1 & Hb2 & Hal). split; [done|]. unfold in_block. intros x Hx. apply Hpages.
    pose proof (hw_pos _ Hwf'). lia.
  - intros size align Hl Hn. destruct (heap_alloc h' size align) as [h2 r] eqn:E2. cbn in Hn. subst r.
    by destruct (heap_alloc_spec _ _ _ _ _ Hwf' Hl E2) as (_ & _ & _ & _ & H).
Qed.

(** ** Witness: one conventional range of 300 pages at 1 MiB. *)

Definition demo_heap_map : list MemoryDescriptor := [mkDesc 7 0x100000 300].
Definition demo_heap_pmm : Pmm := init demo_heap_map.

Lemma demo_heap_pmm_wf : pmm_wf demo_heap_pmm ∧ 0 ∉ free_set demo_heap_pmm.
Proof.
  assert (Forall desc_wf demo_heap_map) as Hd by (repeat constructor; vm_compute; congruence).
  destruct (init_spec demo_heap_map Hd) as (Ht & Hf & Hn). split; [split|].
  - vm_compute. split; congruence.
  - unfold demo_heap_pmm. rewrite Hn, Hf, size_list_to_set; [done|].
    apply (bool_decide_unpack _). vm_compute. exact I.
  - rewrite elem_of_free_set. intros [_ H]. vm_compute in H. discriminate.
Qed.

Lemma heap_blocks_correct_witness :
  ∃ p' h, heap_init demo_heap_pmm = Some (p', h) ∧
    (heap_allocs h [(24, 8); (1, 1); (64, 64)]).2 = [Some (0x100000, 24); Some (0x100018, 1); Some (0x100040, 64)] ∧
    pmm_wf p'.
Proof.
  destruct (heap_init demo_heap_pmm) as [[p' h]|] eqn:E; [|vm_compute in E; discriminate].
  assert (h = mkHeap 0x100000 0x100000 0x200000) as ->.
  { apply (f_equal (fmap snd)) in E. vm_compute in E. by injection E as ->. }
  exists p', (mkHeap 0x100000 0x100000 0x200000). split; [reflexivity|].
  assert (heap_allocs (mkHeap 0x100000 0x100000 0x200000) [(24, 8); (1, 1); (64, 64)] =
    (mkHeap 0x100000 0x100080 0x200000, [Some (0x100000, 24); Some (0x100018, 1); Some (0x100040, 64)])) as Ea
    by (vm_compute; reflexivity).
  rewrite Ea. split; [reflexivity|].
  destruct (heap_blocks_correct demo_heap_pmm p' (mkHeap 0x100000 0x100000 0x200000) [(24, 8); (1, 1); (64, 64)]
    (mkHeap 0x100000 0x100080 0x200000) [Some (0x100000, 24); Some (0x100018, 1); Some (0x100040, 64)]) as [H _];
    [exact (proj1 demo_heap_pmm_wf)|exact (proj2 demo_heap_pmm_wf)|exact E| |exact Ea|exact H].
  repeat constructor; cbn; try lia; [exists 3|exists 0|exists 6]; split; (lia || reflexivity).
Defined.
