(* ===== verification/Input.v ===== *)
(** * Input buffers ([input.rs])

    Ring buffers between the PS/2 interrupt handlers and the polling calls,
    the assembly of mouse packets, the decoding of key events and the
    initialisation of the mouse.  The controller is an interface: the two port
    reads and the two port writes, over an arbitrary device state. *)

From S2P Require Import Prelude.

(** ** The controller *)

Class Ps2 (D : Type) := {
  in_status : D → D * Z;
  in_data : D → D * Z;
  out_status : D → Z → D;
  out_data : D → Z → D;
}.

Definition STATUS_OUTPUT_FULL : Z := 0x01.
Definition STATUS_AUX_DATA : Z := 0x20.
Definition KEYBOARD_BUFFER_SIZE : nat := 128.
Definition MOUSE_BUFFER_SIZE : nat := 256.

(** ** Ring buffers *)

(** [RingBuffer<N>]; [N] is an argument of the operations. *)
Record RingBuffer := mkRing { buffer : list Z; head : nat; tail : nat }.

Definition RingBuffer_new (N : nat) : RingBuffer := mkRing (replicate N 0) 0 0.

Definition ring_push (N : nat) (r : RingBuffer) (byte : Z) : RingBuffer * bool :=
  let next_head := ((head r + 1) mod N)%nat in
  if (next_head =? tail r)%nat then (r, false)
  else (mkRing (<[head r := byte]> (buffer r)) next_head (tail r), true).

Definition ring_pop (N : nat) (r : RingBuffer) : RingBuffer * option Z :=
  if (head r =? tail r)%nat then (r, None)
  else (mkRing (buffer r) (head r) ((tail r + 1) mod N)%nat, Some (default 0 (buffer r !! tail r))).

Definition ring_len (N : nat) (r : RingBuffer) : nat :=
  if (tail r <=? head r)%nat then (head r - tail r)%nat else (N - tail r + head r)%nat.

Definition ring_is_empty (r : RingBuffer) : bool := (head r =? tail r)%nat.

(** ** Interrupt handlers

    The loops run while the controller has data; [fuel] bounds them and [None]
    is a controller that never runs dry. *)

Section irq.
Context {D : Type} `{Ps2 D}.

Fixpoint on_keyboard_irq (fuel : nat) (d : D) (buf : RingBuffer) : option (D * RingBuffer) :=
  match fuel with
  | O => None
  | S fuel =>
      let '(d, s) := in_status d in
      if Z.land s STATUS_OUTPUT_FULL =? 0 then Some (d, buf)
      else
        let '(d, s) := in_status d in
        if negb (Z.land s STATUS_AUX_DATA =? 0) then Some (d, buf)
        else
          let '(d, scancode) := in_data d in
          on_keyboard_irq fuel d (ring_push KEYBOARD_BUFFER_SIZE buf scancode).1
  end.

(** [count] and [bytes_debug] of the source only feed the log. *)
Fixpoint on_mouse_irq (fuel : nat) (d : D) (buf : RingBuffer) : option (D * RingBuffer) :=
  match fuel with
  | O => None
  | S fuel =>
      let '(d, s) := in_status d in
      let mask := Z.lor STATUS_OUTPUT_FULL STATUS_AUX_DATA in
      if negb (Z.land s mask =? mask) then Some (d, buf)
      else
        let '(d, byte) := in_data d in
        on_mouse_irq fuel d (ring_push MOUSE_BUFFER_SIZE buf byte).1
  end.
End irq.

(** ** Polling *)

Definition poll_keyboard_byte (buf : RingBuffer) : RingBuffer * option Z := ring_pop KEYBOARD_BUFFER_SIZE buf.
Definition poll_mouse_byte (buf : RingBuffer) : RingBuffer * option Z := ring_pop MOUSE_BUFFER_SIZE buf.

Record KeyEvent := mkKeyEvent { scancode : Z; pressed : bool }.

Record MouseEvent := mkMouseEvent {
  delta_x : Z;
  delta_y : Z;
  left_button : bool;
  right_button : bool;
  middle_button : bool;
}.

(** [MousePacketState]: the three bytes and the index of the next one. *)
Record MousePacketState := mkPacket { pk_bytes : list Z; pk_index : nat }.

Definition MousePacketState_new : MousePacketState := mkPacket [0; 0; 0] 0.
Definition packet_reset (st : MousePacketState) : MousePacketState := mkPacket (pk_bytes st) 0.

(** Sign extension of a nine-bit movement whose sign is a flag. *)
Definition movement (raw : Z) (negative : bool) : Z := if negative then raw - 256 else raw.

Definition flag (flags mask : Z) : bool := negb (Z.land flags mask =? 0).

Definition packet_event (packet : list Z) : MouseEvent :=
  let flags := default 0 (packet !! 0%nat) in
  let dx := movement (default 0 (packet !! 1%nat)) (flag flags 0x10) in
  let dy := movement (default 0 (packet !! 2%nat)) (flag flags 0x20) in
  mkMouseEvent dx (- dy) (flag flags 0x01) (flag flags 0x02) (flag flags 0x04).

Definition add_byte (st : MousePacketState) (byte : Z) : MousePacketState * option MouseEvent :=
  if (pk_index st =? 0)%nat && (Z.land byte 0x08 =? 0) then (st, None)
  else
    let bytes := <[pk_index st := byte]> (pk_bytes st) in
    let index := S (pk_index st) in
    if (3 <=? index)%nat then (mkPacket bytes 0, Some (packet_event bytes))
    else (mkPacket bytes index, None).

Definition poll_key_event (buf : RingBuffer) : RingBuffer * option KeyEvent :=
  match poll_keyboard_byte buf with
  | (buf, None) => (buf, None)
  | (buf, Some byte) =>
      if byte =? 0xF0 then
        match poll_keyboard_byte buf with
        | (buf, Some code) => (buf, Some (mkKeyEvent code false))
        | (buf, None) => (buf, None)
        end
      else (buf, Some (mkKeyEvent (Z.land byte 0x7F) (Z.land byte 0x80 =? 0)))
  end.

(** The first loop of [poll_mouse_event]: up to [n] bytes leave the buffer. *)
Fixpoint drain (n : nat) (buf : RingBuffer) : RingBuffer * list Z :=
  match n with
  | O => (buf, [])
  | S n =>
      match poll_mouse_byte buf with
      | (buf, Some byte) => let '(buf, bytes) := drain n buf in (buf, byte :: bytes)
      | (buf, None) => (buf, [])
      end
  end.

(** The second loop: the first event ends it. *)
Fixpoint feed (st : MousePacketState) (bytes : list Z) : MousePacketState * option MouseEvent :=
  match bytes with
  | [] => (st, None)
  | byte :: bytes =>
      match add_byte st byte with
      | (st, Some event) => (st, Some event)
      | (st, None) => feed st bytes
      end
  end.

Definition poll_mouse_event (buf : RingBuffer) (st : MousePacketState)
    : RingBuffer * MousePacketState * option MouseEvent :=
  let '(buf, bytes) := drain 16 buf in
  if (length bytes =? 0)%nat then (buf, st, None)
  else let '(st, event) := feed st bytes in (buf, st, event).

(** ** Initialising the mouse *)

Section init.
Context {D : Type} `{Ps2 D}.

Fixpoint wait_status (n : nat) (ready : Z → bool) (d : D) : D :=
  match n with
  | O => d
  | S n => let '(d, s) := in_status d in if ready s then d else wait_status n ready d
  end.

(** The 10000 tries of the source. *)
Definition WAIT_TRIES : nat := Z.to_nat 10000.

Definition wait_for_input_buffer : D → D := wait_status WAIT_TRIES (λ s, Z.land s 0x02 =? 0).
Definition wait_for_output_buffer : D → D := wait_status WAIT_TRIES (λ s, negb (Z.land s 0x01 =? 0)).

(** [write_command] and [write_data], each after its wait. *)
Definition command (d : D) (cmd : Z) : D := out_status (wait_for_input_buffer d) cmd.
Definition write_byte (d : D) (data : Z) : D := out_data (wait_for_input_buffer d) data.
Definition acknowledge (d : D) : D := (in_data (wait_for_output_buffer d)).1.

Definition send_mouse_command (d : D) (cmd : Z) : D := acknowledge (write_byte (command d 0xD4) cmd).

Definition send_mouse_command_with_data (d : D) (cmd data : Z) : D :=
  send_mouse_command (send_mouse_command d cmd) data.

Definition mouse_read (d : D) : D * Z := in_data (wait_for_output_buffer d).

Definition init_ps2_mouse (d : D) : D :=
  let d := command d 0xA8 in
  let d := command d 0x20 in
  let '(d, config) := in_data (wait_for_output_buffer d) in
  let d := command d 0x60 in
  let d := write_byte d (Z.lor config 0x02) in
  send_mouse_command d 0xF4.

(** Reading away what the controller holds, at most [n] bytes. *)
Fixpoint discard (n : nat) (d : D) : D :=
  match n with
  | O => d
  | S n =>
      let '(d, s) := in_status d in
      if Z.land s STATUS_OUTPUT_FULL =? 0 then d else discard n (in_data d).1
  end.

(** [while buf.pop().is_some() {}]; a ring holds fewer bytes than its size. *)
Fixpoint ring_clear (n : nat) (buf : RingBuffer) : RingBuffer :=
  match n with
  | O => buf
  | S n => match poll_mouse_byte buf with (buf, Some _) => ring_clear n buf | (buf, None) => buf end
  end.

Definition init_ps2_mouse_full (d : D) (buf : RingBuffer) : D * RingBuffer :=
  let d := discard 100 d in
  let d := command d 0xA8 in
  let d := command d 0x20 in
  let '(d, status) := in_data (wait_for_output_buffer d) in
  let new_status := Z.land (Z.lor status 0x02) (not_w 8 0x20) in
  let d := command d 0x60 in
  let d := write_byte d new_status in
  let d := acknowledge (send_mouse_command d 0xF6) in
  let d := acknowledge (send_mouse_command d 0xE6) in
  let d := acknowledge (send_mouse_command d 0xE8) in
  let d := acknowledge (write_byte (command d 0xD4) 0x03) in
  let d := acknowledge (send_mouse_command d 0xF3) in
  let d := acknowledge (write_byte (command d 0xD4) 100) in
  let d := acknowledge (send_mouse_command d 0xF4) in
  let buf := ring_clear MOUSE_BUFFER_SIZE buf in
  (discard 10 d, buf).
End init.
