(* ===== verification/InputSafety.v ===== *)
(** * Input buffers: properties

    A ring buffer is a bounded queue; the interrupt handlers move exactly the
    bytes of their device from the controller to their buffer; mouse packets
    decode to the movements they encode. *)

From S2P Require Import Prelude Input.

(** ** Ring buffers are bounded queues *)

Record ring_wf (N : nat) (r : RingBuffer) : Prop := {
  rw_len : length (buffer r) = N;
  rw_head : (head r < N)%nat;
  rw_tail : (tail r < N)%nat;
}.

Lemma mod_once a N : (a < 2 * N)%nat → (a mod N = if (a <? N)%nat then a else a - N)%nat.
Proof.
  intros Ha. destruct (Nat.ltb_spec a N); [by apply Nat.mod_small|].
  replace a with (a - N + 1 * N)%nat at 1 by lia. rewrite Nat.Div0.mod_add. apply Nat.mod_small. lia.
Qed.

(** The queued bytes, oldest first. *)
Definition ring_contents (N : nat) (r : RingBuffer) : list Z :=
  (λ i, default 0 (buffer r !! ((tail r + i) mod N)%nat)) <$> seq 0 (ring_len N r).

Lemma length_ring_contents N r : length (ring_contents N r) = ring_len N r.
Proof. unfold ring_contents. by rewrite length_fmap, length_seq. Qed.

Lemma ring_len_spec N r :
  ring_wf N r → (ring_len N r < N)%nat ∧ ((tail r + ring_len N r) mod N)%nat = head r.
Proof.
  intros [_ Hh Ht]. unfold ring_len. destruct (Nat.leb_spec (tail r) (head r)).
  - split; [lia|]. rewrite mod_once by lia. destruct (Nat.ltb_spec (tail r + (head r - tail r)) N); lia.
  - split; [lia|]. rewrite mod_once by lia. destruct (Nat.ltb_spec (tail r + (N - tail r + head r)) N); lia.
Qed.

Lemma ring_push_spec N r b :
  ring_wf N r →
  ring_wf N (ring_push N r b).1 ∧
  if decide (ring_len N r < N - 1)%nat
  then (ring_push N r b).2 = true ∧ ring_contents N (ring_push N r b).1 = ring_contents N r ++ [b]
  else ring_push N r b = (r, false).
Proof.
  intros Hwf. pose proof Hwf as [Hl Hh Ht]. destruct (ring_len_spec N r Hwf) as [Hlt Hhd].
  unfold ring_push. cbv zeta. rewrite (mod_once (head r + 1)) by lia.
  set (nh := if (head r + 1 <? N)%nat then (head r + 1)%nat else (head r + 1 - N)%nat).
  assert (nh = tail r ↔ ring_len N r = N - 1)%nat as Hfull.
  { unfold nh, ring_len. destruct (Nat.ltb_spec (head r + 1) N), (Nat.leb_spec (tail r) (head r)); lia. }
  assert (nh < N)%nat as Hnh by (unfold nh; destruct (Nat.ltb_spec (head r + 1) N); lia).
  destruct (Nat.eqb_spec nh (tail r)) as [E|E]; [rewrite decide_False by lia; done|]. rewrite decide_True by lia.
  split; [split; cbn; [by rewrite length_insert|lia|lia]|]. split; [done|]. cbn [fst].
  assert (ring_len N (mkRing (<[head r:=b]> (buffer r)) nh (tail r)) = S (ring_len N r)) as Hlen.
  { unfold nh, ring_len in *. cbn. destruct (Nat.ltb_spec (head r + 1) N), (Nat.leb_spec (tail r) (head r));
      repeat case_match; rewrite ?Nat.leb_le, ?Nat.leb_gt in *; lia. }
  unfold ring_contents. rewrite Hlen, seq_S, fmap_app. cbn [buffer tail fmap list_fmap]. rewrite Nat.add_0_l, Hhd.
  f_equal; [|by rewrite list_lookup_insert_eq by lia].
  apply list_fmap_ext. intros i j Hj. apply lookup_seq in Hj as [-> Hj]. rewrite list_lookup_insert_ne; [done|].
  rewrite <- Hhd, !mod_once by lia.
  destruct (Nat.ltb_spec (tail r + ring_len N r) N), (Nat.ltb_spec (tail r + (0 + i)) N); lia.
Qed.

Lemma ring_pop_spec N r :
  ring_wf N r →
  ring_wf N (ring_pop N r).1 ∧
  match ring_contents N r with
  | [] => ring_pop N r = (r, None)
  | b :: l => (ring_pop N r).2 = Some b ∧ ring_contents N (ring_pop N r).1 = l
  end.
Proof.
  intros Hwf. pose proof Hwf as [Hl Hh Ht]. destruct (ring_len_spec N r Hwf) as [Hlt Hhd]. unfold ring_pop.
  destruct (Nat.eqb_spec (head r) (tail r)) as [E|E].
  { unfold ring_contents, ring_len. rewrite E, Nat.leb_refl, Nat.sub_diag. done. }
  rewrite (mod_once (tail r + 1)) by lia.
  set (nt := if (tail r + 1 <? N)%nat then (tail r + 1)%nat else (tail r + 1 - N)%nat).
  assert (nt < N)%nat as Hnt by (unfold nt; destruct (Nat.ltb_spec (tail r + 1) N); lia).
  split; [by split|]. cbn [fst snd].
  assert (ring_len N r = S (ring_len N (mkRing (buffer r) (head r) nt))) as Hlen.
  { unfold nt, ring_len in *. cbn. destruct (Nat.ltb_spec (tail r + 1) N), (Nat.leb_spec (tail r) (head r));
      repeat case_match; rewrite ?Nat.leb_le, ?Nat.leb_gt in *; lia. }
  unfold ring_contents. rewrite Hlen. cbn [seq fmap list_fmap buffer tail].
  rewrite Nat.add_0_r, Nat.mod_small by done. split; [done|]. rewrite <- fmap_S_seq, <- list_fmap_compose.
  apply list_fmap_ext. intros i j Hj. apply lookup_seq in Hj as [-> Hj]. cbn. do 2 f_equal.
  rewrite !mod_once by lia. unfold nt. destruct (Nat.ltb_spec (tail r + 1) N); repeat case_match;
    rewrite ?Nat.ltb_lt, ?Nat.ltb_ge in *; lia.
Qed.

Inductive RingOp := RPush (byte : Z) | RPop.
Inductive RingOut := RPushed (accepted : bool) | RPopped (byte : option Z).

Definition ring_exec (N : nat) (r : RingBuffer) (op : RingOp) : RingBuffer * RingOut :=
  match op with
  | RPush b => let '(r, ok) := ring_push N r b in (r, RPushed ok)
  | RPop => let '(r, b) := ring_pop N r in (r, RPopped b)
  end.

(** A queue that holds at most [N - 1] bytes and refuses more. *)
Definition queue_exec (N : nat) (q : list Z) (op : RingOp) : list Z * RingOut :=
  match op, q with
  | RPush b, _ => if decide (length q < N - 1)%nat then (q ++ [b], RPushed true) else (q, RPushed false)
  | RPop, b :: q => (q, RPopped (Some b))
  | RPop, [] => ([], RPopped None)
  end.

Fixpoint exec_all {S O} (exec : S → RingOp → S * O) (s : S) (ops : list RingOp) : S * list O :=
  match ops with
  | [] => (s, [])
  | op :: ops => let '(s, o) := exec s op in let '(s, os) := exec_all exec s ops in (s, o :: os)
  end.

Lemma ring_exec_refines N r op :
  ring_wf N r →
  ring_wf N (ring_exec N r op).1 ∧
  queue_exec N (ring_contents N r) op = (ring_contents N (ring_exec N r op).1, (ring_exec N r op).2).
Proof.
  intros Hwf. destruct op as [b|]; cbn [ring_exec queue_exec].
  - destruct (ring_push_spec N r b Hwf) as [Hwf' Hs]. rewrite length_ring_contents.
    destruct (ring_push N r b) as [r' ok]. cbn in *. split; [done|].
    destruct (decide _); [by destruct Hs as [-> ->]|by injection Hs as -> ->].
  - destruct (ring_pop_spec N r Hwf) as [Hwf' Hs]. destruct (ring_pop N r) as [r' b]. cbn in *. split; [done|].
    destruct (ring_contents N r) eqn:E; [injection Hs as -> ->; by rewrite E|by destruct Hs as [-> ->]].
Qed.

Lemma exec_all_refines N r ops :
  ring_wf N r →
  ring_wf N (exec_all (ring_exec N) r ops).1 ∧
  exec_all (queue_exec N) (ring_contents N r) ops =
    (ring_contents N (exec_all (ring_exec N) r ops).1, (exec_all (ring_exec N) r ops).2).
Proof.
  revert r. induction ops as [|op ops IH]; intros r Hwf; [done|]. cbn [exec_all].
  destruct (ring_exec_refines N r op Hwf) as [Hwf' E]. rewrite E. destruct (ring_exec N r op) as [r1 o].
  cbn [fst snd] in *. destruct (IH r1 Hwf') as [Hwf2 E2]. rewrite E2.
  by destruct (exec_all (ring_exec N) r1 ops) as [r2 os].
Qed.

Lemma ring_new_wf N : (0 < N)%nat → ring_wf N (RingBuffer_new N) ∧ ring_contents N (RingBuffer_new N) = [].
Proof. intros HN. split; [|done]. split; cbn; [apply length_replicate|done|done]. Qed.

(** ** The controller as a queue of bytes *)

(** What the handlers rely on: reading the status consumes nothing, its bit 0
    says whether a byte is pending and its bit 5 whether the next one comes
    from the mouse; reading the data port takes the next byte. *)
Class Ps2Fifo (D : Type) `{Ps2 D} := {
  pending : D → list (bool * Z);
  status_keeps : ∀ d, pending (in_status d).1 = pending d;
  status_empty : ∀ d, pending d = [] → Z.testbit (in_status d).2 0 = false;
  status_next : ∀ d aux b l, pending d = (aux, b) :: l →
    Z.testbit (in_status d).2 0 = true ∧ Z.testbit (in_status d).2 5 = aux;
  data_next : ∀ d aux b l, pending d = (aux, b) :: l → (in_data d).2 = b ∧ pending (in_data d).1 = l;
}.

(** The bytes of one source at the front of the controller's queue. *)
Fixpoint leading (aux : bool) (l : list (bool * Z)) : list Z :=
  match l with
  | (a, b) :: l => if Bool.eqb a aux then b :: leading aux l else []
  | [] => []
  end.

Lemma ring_push_all N r bytes :
  ring_wf N r → let r' := foldl (λ r b, (ring_push N r b).1) r bytes in
  ring_wf N r' ∧ ring_contents N r' = take (N - 1) (ring_contents N r ++ bytes).
Proof.
  revert r. induction bytes as [|b bytes IH]; intros r Hwf; cbn [foldl].
  - pose proof (ring_len_spec N r Hwf) as [? _]. split; [done|].
    rewrite app_nil_r, take_ge; [done|]. rewrite length_ring_contents. lia.
  - destruct (ring_push_spec N r b Hwf) as [Hwf' Hs]. destruct (IH _ Hwf') as [Hw E]. split; [done|]. rewrite E.
    destruct (decide _) as [Hd|Hd].
    + destruct Hs as [_ ->]. by rewrite <- app_assoc.
    + rewrite Hs. cbn [fst]. pose proof (ring_len_spec N r Hwf) as [? _].
      rewrite !take_app_ge by (rewrite length_ring_contents; lia). rewrite length_ring_contents.
      by replace (N - 1 - ring_len N r)%nat with 0%nat by lia.
Qed.

Section irq.
Context {D : Type} {ports : Ps2 D} {fifo : Ps2Fifo D}.

Lemma full_bit s : (Z.land s STATUS_OUTPUT_FULL =? 0) = negb (Z.testbit s 0).
Proof. exact (land_bit s 0 ltac:(done)). Qed.
Lemma aux_bit s : (Z.land s STATUS_AUX_DATA =? 0) = negb (Z.testbit s 5).
Proof. exact (land_bit s 5 ltac:(done)). Qed.

Lemma both_bits s :
  (Z.land s (Z.lor STATUS_OUTPUT_FULL STATUS_AUX_DATA) =? Z.lor STATUS_OUTPUT_FULL STATUS_AUX_DATA) =
  Z.testbit s 0 && Z.testbit s 5.
Proof.
  change (Z.lor STATUS_OUTPUT_FULL STATUS_AUX_DATA) with 0x21. apply eq_true_iff_eq. rewrite Z.eqb_eq, andb_true_iff.
  split.
  - intros E. split; [change true with (Z.testbit 0x21 0)|change true with (Z.testbit 0x21 5)];
      rewrite <- E, Z.land_spec; by rewrite andb_true_r.
  - intros [H0 H5]. apply Z.bits_inj'. intros i Hi. rewrite Z.land_spec.
    destruct (decide (i = 0)) as [->|]; [by rewrite H0|]. destruct (decide (i = 5)) as [->|]; [by rewrite H5|].
    enough (Z.testbit 0x21 i = false) as -> by apply andb_false_r.
    change 0x21 with (Z.lor (Z.shiftl 1 0) (Z.shiftl 1 5)). rewrite Z.lor_spec, !testbit_bit by lia.
    by rewrite !bool_decide_false by done.
Qed.

Lemma on_keyboard_irq_spec fuel d buf :
  (length (pending d) < fuel)%nat →
  ∃ d', on_keyboard_irq fuel d buf =
      Some (d', foldl (λ r b, (ring_push KEYBOARD_BUFFER_SIZE r b).1) buf (leading false (pending d))) ∧
    pending d' = drop (length (leading false (pending d))) (pending d).
Proof.
  revert d buf. induction fuel as [|fuel IH]; intros d buf Hf; [lia|]. cbn [on_keyboard_irq].
  pose proof (status_keeps d) as Hk. destruct (pending d) as [|[aux b] l] eqn:E.
  - pose proof (status_empty d E) as He. destruct (in_status d) as [d1 s]. cbn [fst snd] in *. rewrite full_bit, He. by exists d1.
  - destruct (status_next d aux b l E) as [H0 _]. destruct (in_status d) as [d1 s] eqn:E1. cbn [fst snd] in *.
    rewrite full_bit, H0. cbn [negb].
    destruct (status_next d1 aux b l Hk) as [_ H5]. pose proof (status_keeps d1) as Hk2.
    destruct (in_status d1) as [d2 s2]. cbn [fst snd] in *. rewrite aux_bit, H5, negb_involutive.
    destruct aux; [by exists d2; rewrite Hk2|]. cbn [leading Bool.eqb]. rewrite Hk in Hk2.
    destruct (data_next d2 _ _ _ Hk2) as [Hb Hl]. destruct (in_data d2) as [d3 b']. cbn [fst snd] in *. subst b' l.
    apply IH. cbn in Hf. lia.
Qed.

Lemma on_mouse_irq_spec fuel d buf :
  (length (pending d) < fuel)%nat →
  ∃ d', on_mouse_irq fuel d buf =
      Some (d', foldl (λ r b, (ring_push MOUSE_BUFFER_SIZE r b).1) buf (leading true (pending d))) ∧
    pending d' = drop (length (leading true (pending d))) (pending d).
Proof.
  revert d buf. induction fuel as [|fuel IH]; intros d buf Hf; [lia|]. cbn [on_mouse_irq]. cbv zeta.
  pose proof (status_keeps d) as Hk. destruct (pending d) as [|[aux b] l] eqn:E.
  - pose proof (status_empty d E) as He. destruct (in_status d) as [d1 s]. cbn [fst snd] in *. rewrite both_bits, He. by exists d1.
  - destruct (status_next d aux b l E) as [H0 H5]. destruct (in_status d) as [d1 s] eqn:E1. cbn [fst snd] in *.
    rewrite both_bits, H0, H5. destruct aux; cbn [andb negb leading Bool.eqb]; [|by exists d1].
    destruct (data_next d1 _ _ _ Hk) as [Hb Hl]. destruct (in_data d1) as [d2 b']. cbn [fst snd] in *. subst b' l.
    apply IH. cbn in Hf. lia.
Qed.

(** Both interrupt handlers terminate and move bytes in order: the handler
    takes from the controller exactly the bytes of its own device that come
    before the first byte of the other one, and its buffer then holds the old
    bytes followed by as many of the new ones as fit. *)
Theorem irq_handlers_correct (d : D) (buf : RingBuffer) (aux : bool) :
  let N := if aux then MOUSE_BUFFER_SIZE else KEYBOARD_BUFFER_SIZE in
  let handler := if aux then on_mouse_irq (S (length (pending d))) else on_keyboard_irq (S (length (pending d))) in
  ring_wf N buf →
  ∃ d' buf', handler d buf = Some (d', buf') ∧ ring_wf N buf' ∧
    pending d = map (pair aux) (leading aux (pending d)) ++ pending d' ∧
    ring_contents N buf' = take (N - 1) (ring_contents N buf ++ leading aux (pending d)).
Proof.
  intros N handler Hwf.
  assert (pending d = map (pair aux) (leading aux (pending d)) ++ drop (length (leading aux (pending d))) (pending d)) as Hsplit.
  { induction (pending d) as [|[a b] l IH]; [done|]. cbn. destruct (Bool.eqb a aux) eqn:E; [|done].
    apply Bool.eqb_prop in E as ->. cbn. by f_equal. }
  destruct (ring_push_all N buf (leading aux (pending d)) Hwf) as [Hw Hc]. cbv zeta in Hw, Hc.
  assert (∃ d', handler d buf = Some (d', foldl (λ r b, (ring_push N r b).1) buf (leading aux (pending d))) ∧
    pending d' = drop (length (leading aux (pending d))) (pending d)) as (d' & E & Hp).
  { unfold handler, N. destruct aux; [apply on_mouse_irq_spec|apply on_keyboard_irq_spec]; lia. }
  eexists d', _. split; [exact E|]. split; [done|]. by rewrite Hp.
Qed.
End irq.

(** ** Mouse packets *)

(** The three bytes a mouse sends for an event: flags with bit 3 set, then
    the nine-bit movements without their signs; the device counts upwards. *)
Definition encode_event (e : MouseEvent) : list Z :=
  let dy := - delta_y e in
  [Z.b2z (left_button e) + 2 * Z.b2z (right_button e) + 4 * Z.b2z (middle_button e) + 8 +
     16 * Z.b2z (delta_x e <? 0) + 32 * Z.b2z (dy <? 0); delta_x e mod 256; dy mod 256].

Definition event_ok (e : MouseEvent) : Prop := -256 ≤ delta_x e ≤ 255 ∧ -255 ≤ delta_y e ≤ 256.

Lemma movement_sign x : -256 ≤ x ≤ 255 → movement (x mod 256) (x <? 0) = x.
Proof.
  intros Hx. unfold movement. destruct (Z.ltb_spec x 0).
  - rewrite <- (Z.mod_unique x 256 (-1) (x + 256)); lia.
  - rewrite Z.mod_small; lia.
Qed.

Lemma encode_flags l r m sx sy :
  let f := Z.b2z l + 2 * Z.b2z r + 4 * Z.b2z m + 8 + 16 * Z.b2z sx + 32 * Z.b2z sy in
  (Z.land f 0x08 =? 0) = false ∧ flag f 0x10 = sx ∧ flag f 0x20 = sy ∧
  flag f 0x01 = l ∧ flag f 0x02 = r ∧ flag f 0x04 = m.
Proof. by destruct l, r, m, sx, sy. Qed.

Lemma packet_event_encode e : event_ok e → packet_event (encode_event e) = e.
Proof.
  intros [Hx Hy]. unfold packet_event, encode_event. cbn [lookup list_lookup default from_option id].
  cbv zeta. set (dy := - delta_y e) in *.
  destruct (encode_flags (left_button e) (right_button e) (middle_button e) (delta_x e <? 0) (dy <? 0))
    as (_ & -> & -> & -> & -> & ->). rewrite !movement_sign by (unfold dy; lia).
  destruct e; unfold dy; cbn. f_equal. lia.
Qed.

Lemma feed_encode st e rest :
  event_ok e → pk_index st = 0%nat → length (pk_bytes st) = 3%nat →
  feed st (encode_event e ++ rest) = (mkPacket (encode_event e) 0, Some e).
Proof.
  intros He Hi Hl. pose proof (packet_event_encode e He) as Hp. revert Hp. unfold encode_event. cbv zeta.
  destruct st as [[|b0 [|b1 [|b2 [|? ?]]]] ix]; cbn in Hi, Hl; try done. subst ix.
  intros Hp. cbn [app feed]. unfold add_byte at 1. cbn [pk_index pk_bytes Nat.eqb].
  destruct (encode_flags (left_button e) (right_button e) (middle_button e) (delta_x e <? 0) (- delta_y e <? 0))
    as (-> & _). cbn. by rewrite Hp.
Qed.

Lemma drain_spec n buf :
  ring_wf MOUSE_BUFFER_SIZE buf →
  ring_wf MOUSE_BUFFER_SIZE (drain n buf).1 ∧
  (drain n buf).2 = take n (ring_contents MOUSE_BUFFER_SIZE buf) ∧
  ring_contents MOUSE_BUFFER_SIZE (drain n buf).1 = drop n (ring_contents MOUSE_BUFFER_SIZE buf).
Proof.
  revert buf. induction n as [|n IH]; intros buf Hwf; [by cbn; rewrite take_0|]. cbn [drain]. unfold poll_mouse_byte.
  destruct (ring_pop_spec _ buf Hwf) as [Hwf' Hs]. destruct (ring_contents _ buf) as [|b l] eqn:E.
  - rewrite Hs. cbn. by rewrite E.
  - destruct Hs as [Hb Hl]. destruct (ring_pop _ buf) as [buf' o]. cbn [fst snd] in *. subst o.
    destruct (IH buf' Hwf') as (H1 & H2 & H3). destruct (drain n buf') as [buf2 bytes]. cbn [fst snd] in *.
    cbn [take drop]. by rewrite <- Hl, H2.
Qed.

(** ** Commands sent to the mouse *)

(** A controller that keeps the list of port writes. *)
Definition logged (D : Type) : Type := (D * list (Z * Z))%type.

#[export] Instance logged_ps2 {D} `{Ps2 D} : Ps2 (logged D) := {
  in_status d := let '(d1, s) := in_status d.1 in ((d1, d.2), s);
  in_data d := let '(d1, b) := in_data d.1 in ((d1, d.2), b);
  out_status d c := (out_status d.1 c, d.2 ++ [(0x64, c)]);
  out_data d b := (out_data d.1 b, d.2 ++ [(0x60, b)]);
}.

Section log.
Context {D : Type} {ports : Ps2 D}.
Implicit Types (d : logged D) (buf : RingBuffer).

Lemma wait_status_log n f d : (wait_status n f d).2 = d.2.
Proof.
  revert d. induction n as [|n IH]; intros d; [done|]. cbn [wait_status]. cbn [in_status logged_ps2].
  destruct (in_status d.1) as [d1 s]. case_match; [done|]. by rewrite IH.
Qed.

Lemma in_data_log d : (in_data d).1.2 = d.2.
Proof. cbn [in_data logged_ps2]. by destruct (in_data d.1). Qed.

Lemma command_log d c : (command d c).2 = d.2 ++ [(0x64, c)].
Proof. unfold command, wait_for_input_buffer. cbn [out_status logged_ps2 snd]. by rewrite wait_status_log. Qed.

Lemma write_byte_log d b : (write_byte d b).2 = d.2 ++ [(0x60, b)].
Proof. unfold write_byte, wait_for_input_buffer. cbn [out_data logged_ps2 snd]. by rewrite wait_status_log. Qed.

Lemma acknowledge_log d : (acknowledge d).2 = d.2.
Proof. unfold acknowledge, wait_for_output_buffer. by rewrite in_data_log, wait_status_log. Qed.

Lemma send_mouse_command_log d c : (send_mouse_command d c).2 = d.2 ++ [(0x64, 0xD4); (0x60, c)].
Proof. unfold send_mouse_command. by rewrite acknowledge_log, write_byte_log, command_log, <- app_assoc. Qed.

Lemma discard_log n d : (discard n d).2 = d.2.
Proof.
  revert d. induction n as [|n IH]; intros d; [done|]. cbn [discard]. cbn [in_status logged_ps2].
  destruct (in_status d.1) as [d1 s]. case_match; [done|]. by rewrite IH, in_data_log.
Qed.

Lemma ring_clear_spec n buf :
  ring_wf MOUSE_BUFFER_SIZE buf → (ring_len MOUSE_BUFFER_SIZE buf < n)%nat →
  ring_wf MOUSE_BUFFER_SIZE (ring_clear n buf) ∧ ring_contents MOUSE_BUFFER_SIZE (ring_clear n buf) = [].
Proof.
  revert buf. induction n as [|n IH]; intros buf Hwf Hn; [lia|]. cbn [ring_clear]. unfold poll_mouse_byte.
  destruct (ring_pop_spec _ buf Hwf) as [Hwf' Hs]. rewrite <- length_ring_contents in Hn.
  destruct (ring_contents _ buf) as [|b l] eqn:E; [by rewrite Hs|]. destruct Hs as [Hb Hl].
  destruct (ring_pop _ buf) as [buf' o]. cbn [fst snd] in *. subst o. apply IH; [done|].
  rewrite <- length_ring_contents, Hl. cbn in Hn. lia.
Qed.

(** Whatever the controller answers, the initialisation sends one fixed
    sequence of commands - the configuration byte apart, which has the mouse
    interrupt on and the mouse clock enabled - and leaves the buffer empty. *)
Lemma mouse_init_commands d buf :
  ring_wf MOUSE_BUFFER_SIZE buf →
  let r := init_ps2_mouse_full d buf in
  (∃ config, Z.testbit config 1 = true ∧ Z.testbit config 5 = false ∧
    r.1.2 = d.2 ++ [(0x64, 0xA8); (0x64, 0x20); (0x64, 0x60); (0x60, config);
      (0x64, 0xD4); (0x60, 0xF6); (0x64, 0xD4); (0x60, 0xE6); (0x64, 0xD4); (0x60, 0xE8); (0x64, 0xD4); (0x60, 0x03);
      (0x64, 0xD4); (0x60, 0xF3); (0x64, 0xD4); (0x60, 100); (0x64, 0xD4); (0x60, 0xF4)]) ∧
  ring_contents MOUSE_BUFFER_SIZE r.2 = [].
Proof.
  intros Hwf. unfold init_ps2_mouse_full. cbv zeta.
  destruct (in_data _) as [d1 status] eqn:E. apply (f_equal (λ x, x.1.2)) in E. cbn [fst snd] in *.
  rewrite in_data_log in E. unfold wait_for_output_buffer in E. rewrite wait_status_log, !command_log, discard_log in E.
  split; [|apply ring_clear_spec; [done|apply ring_len_spec, Hwf]].
  exists (Z.land (Z.lor status 0x02) (not_w 8 0x20)).
  split; [rewrite Z.land_spec, Z.lor_spec; by rewrite orb_true_r|].
  split; [rewrite Z.land_spec; by rewrite andb_false_r|].
  rewrite discard_log, ?acknowledge_log, ?send_mouse_command_log, ?acknowledge_log, ?write_byte_log, ?command_log.
  repeat rewrite ?acknowledge_log, ?send_mouse_command_log, ?write_byte_log, ?command_log.
  rewrite <- E, <- !app_assoc. reflexivity.
Qed.
End log.

(** ** Properties *)

(** A ring buffer behaves as a queue bounded by one byte less than its size,
    for every sequence of operations on a new one: same answers, same
    contents, dropped bytes included. *)
Theorem ring_refines_queue N ops :
  (0 < N)%nat →
  let r := exec_all (ring_exec N) (RingBuffer_new N) ops in
  exec_all (queue_exec N) [] ops = (ring_contents N r.1, r.2).
Proof.
  intros HN. destruct (ring_new_wf N HN) as [Hwf Hc].
  destruct (exec_all_refines N _ ops Hwf) as [_ E]. by rewrite Hc in E.
Qed.

(** Polling for a mouse event at a packet boundary returns the event whose
    packet comes first in the buffer; up to thirteen bytes queued behind it are
    taken out in the same call and dropped, later packets with them. *)
Theorem poll_mouse_event_correct buf st e rest later :
  ring_wf MOUSE_BUFFER_SIZE buf → pk_index st = 0%nat → length (pk_bytes st) = 3%nat → event_ok e →
  ring_contents MOUSE_BUFFER_SIZE buf = encode_event e ++ rest ++ later →
  (length rest = 13%nat ∨ (length rest < 13)%nat ∧ later = []) →
  let '(buf', st', r) := poll_mouse_event buf st in
  r = Some e ∧ pk_index st' = 0%nat ∧ ring_contents MOUSE_BUFFER_SIZE buf' = later.
Proof.
  intros Hwf Hi Hl He Hc Hrest. unfold poll_mouse_event. destruct (drain_spec 16 buf Hwf) as (_ & H2 & H3).
  assert (take 16 (ring_contents MOUSE_BUFFER_SIZE buf) = encode_event e ++ rest ∧
          drop 16 (ring_contents MOUSE_BUFFER_SIZE buf) = later) as [Ht Hd].
  { rewrite Hc, app_assoc. assert (length (encode_event e ++ rest) = 3 + length rest)%nat as Hlen by by rewrite length_app.
    destruct Hrest as [Hr|[Hr ->]].
    - rewrite take_app_length', drop_app_length' by lia. done.
    - rewrite app_nil_r, take_ge, drop_ge by lia. done. }
  rewrite Ht in H2. rewrite Hd in H3. destruct (drain 16 buf) as [buf' bytes]. cbn [fst snd] in *. subst bytes.
  rewrite (feed_encode st e rest He Hi Hl). done.
Qed.

(** ** Witnesses *)

(** A controller that only holds a queue of bytes. *)
#[local] Instance queue_ps2 : Ps2 (list (bool * Z)) := {
  in_status d := (d, match d with (aux, _) :: _ => if aux then 0x21 else 0x01 | [] => 0 end);
  in_data d := match d with (_, b) :: d => (d, b) | [] => ([], 0) end;
  out_status d _ := d;
  out_data d _ := d;
}.

#[local] Instance queue_fifo : Ps2Fifo (list (bool * Z)).
Proof. refine {| pending d := d |}; [done|by intros ? ->|by intros ? [] ? ? ->|by intros ? ? ? ? ->]. Defined.

Lemma irq_handlers_correct_witness :
  ∃ d' buf', on_keyboard_irq 4 [(false, 0x1E); (false, 0x9E); (true, 0x08)] (RingBuffer_new 128) = Some (d', buf') ∧
    ring_contents 128 buf' = [0x1E; 0x9E].
Proof.
  destruct (irq_handlers_correct [(false, 0x1E); (false, 0x9E); (true, 0x08)] (RingBuffer_new 128) false)
    as (d' & buf' & E & _ & _ & Hc); [exact (proj1 (ring_new_wf 128 ltac:(lia)))|].
  exists d', buf'. split; [exact E|]. cbv beta iota zeta in Hc. unfold KEYBOARD_BUFFER_SIZE in Hc. rewrite Hc. reflexivity.
Defined.

Lemma ring_refines_queue_witness :
  exec_all (queue_exec 3) [] [RPush 1; RPush 2; RPush 3; RPop; RPush 4; RPop] =
  ([4], [RPushed true; RPushed true; RPushed false; RPopped (Some 1); RPushed true; RPopped (Some 2)]).
Proof. rewrite (ring_refines_queue 3); [vm_compute; reflexivity|lia]. Defined.

Definition demo_event : MouseEvent := mkMouseEvent (-3) 7 true false false.
Definition demo_mouse_buffer : RingBuffer :=
  foldl (λ r b, (ring_push MOUSE_BUFFER_SIZE r b).1) (RingBuffer_new MOUSE_BUFFER_SIZE)
    (encode_event demo_event ++ encode_event demo_event).

Lemma poll_mouse_event_correct_witness :
  let '(buf', st', r) := poll_mouse_event demo_mouse_buffer MousePacketState_new in
  r = Some demo_event ∧ pk_index st' = 0%nat ∧ ring_contents MOUSE_BUFFER_SIZE buf' = [].
Proof.
  destruct (ring_new_wf MOUSE_BUFFER_SIZE ltac:(unfold MOUSE_BUFFER_SIZE; lia)) as [Hw Hc].
  destruct (ring_push_all MOUSE_BUFFER_SIZE _ (encode_event demo_event ++ encode_event demo_event) Hw) as [Hwf Hcont].
  apply (poll_mouse_event_correct demo_mouse_buffer MousePacketState_new demo_event (encode_event demo_event) []).
  - exact Hwf.
  - reflexivity.
  - reflexivity.
  - split; cbn; lia.
  - vm_compute. reflexivity.
  - right. split; [cbn; lia|reflexivity].
Defined.
