(* ===== verification/Graphics.v ===== *)
(** * Framebuffer drawing ([graphics.rs])

    The framebuffer the firmware reports, the font tables and the drawing
    operations.  The frame memory maps the address of a 32-bit pixel to its
    value.  Drawing never leaves the framebuffer, and a filled rectangle is
    exactly the part of it that is on the screen. *)

From S2P Require Import Prelude.

(** ** Data *)

Inductive PixelFormat := PfRgb | PfBgr | PfBitmask | PfBltOnly | PfUnknown.

Record FramebufferInfo := mkFbInfo {
  fi_address : Z;
  fi_size : Z;
  fi_width : Z;
  fi_height : Z;
  fi_pixels_per_scan_line : Z;
  fi_pixel_format : PixelFormat;
}.

Record Color := mkColor { c_r : Z; c_g : Z; c_b : Z }.

Definition COLOR_BLACK : Color := mkColor 0 0 0.
Definition COLOR_WHITE : Color := mkColor 255 255 255.
Definition COLOR_RED : Color := mkColor 255 0 0.

Record Framebuffer := mkFb {
  fb_address : Z;
  fb_width : Z;
  fb_height : Z;
  fb_stride : Z;
  fb_format : PixelFormat;
  fb_bytes_per_pixel : Z;
}.

Definition Framebuffer_new (info : FramebufferInfo) : Framebuffer :=
  mkFb (fi_address info) (fi_width info) (fi_height info) (fi_pixels_per_scan_line info)
    (fi_pixel_format info) 4.

(** [Framebuffer::size] *)
Definition fb_size (fb : Framebuffer) : Z := wrap64 (wrap64 (fb_stride fb * fb_height fb) * fb_bytes_per_pixel fb).

(** The global framebuffer: nothing before [init]. *)
Definition with_framebuffer {R} (g : option Framebuffer) (f : Framebuffer → R) : option R := f <$> g.

Definition get_dimensions (g : option Framebuffer) : option (Z * Z) :=
  with_framebuffer g (λ fb, (fb_width fb, fb_height fb)).
Definition get_framebuffer_address (g : option Framebuffer) : option Z := with_framebuffer g fb_address.
Definition get_framebuffer_info (g : option Framebuffer) : option (Z * Z * Z * Z * Z) :=
  with_framebuffer g (λ fb, (fb_address fb, fb_width fb, fb_height fb, fb_stride fb, fb_bytes_per_pixel fb)).
Definition get_stride (g : option Framebuffer) : Z := default 0 (with_framebuffer g fb_stride).
Definition get_bytes_per_pixel (g : option Framebuffer) : Z := default 4 (with_framebuffer g fb_bytes_per_pixel).

(** ** Fonts *)

Definition FONT_HEIGHT : Z := 8.
Definition FONT_WIDTH : Z := 8.

Definition get_uppercase_glyph (ch : Z) : list Z :=
  match ch with
  | 0x41 => [0x18; 0x3C; 0x66; 0x66; 0x7E; 0x66; 0x66; 0x00]
  | 0x42 => [0x7C; 0x66; 0x66; 0x7C; 0x66; 0x66; 0x7C; 0x00]
  | 0x43 => [0x3C; 0x66; 0x60; 0x60; 0x60; 0x66; 0x3C; 0x00]
  | 0x45 => [0x7E; 0x60; 0x60; 0x7C; 0x60; 0x60; 0x7E; 0x00]
  | 0x46 => [0x7E; 0x60; 0x60; 0x7C; 0x60; 0x60; 0x60; 0x00]
  | 0x49 => [0x3C; 0x18; 0x18; 0x18; 0x18; 0x18; 0x3C; 0x00]
  | 0x4B => [0x66; 0x6C; 0x78; 0x70; 0x78; 0x6C; 0x66; 0x00]
  | 0x4E => [0x66; 0x76; 0x7E; 0x7E; 0x6E; 0x66; 0x66; 0x00]
  | 0x4F => [0x3C; 0x66; 0x66; 0x66; 0x66; 0x66; 0x3C; 0x00]
  | 0x50 => [0x7C; 0x66; 0x66; 0x7C; 0x60; 0x60; 0x60; 0x00]
  | 0x52 => [0x7C; 0x66; 0x66; 0x7C; 0x6C; 0x66; 0x66; 0x00]
  | 0x53 => [0x3C; 0x66; 0x60; 0x3C; 0x06; 0x66; 0x3C; 0x00]
  | 0x54 => [0x7E; 0x18; 0x18; 0x18; 0x18; 0x18; 0x18; 0x00]
  | _ => [0x00; 0x00; 0x00; 0x00; 0x00; 0x00; 0x00; 0x00]
  end.

Definition get_lowercase_glyph (ch : Z) : list Z :=
  match ch with
  | 0x61 => [0x00; 0x00; 0x3C; 0x06; 0x3E; 0x66; 0x3E; 0x00]
  | 0x63 => [0x00; 0x00; 0x3C; 0x60; 0x60; 0x60; 0x3C; 0x00]
  | 0x65 => [0x00; 0x00; 0x3C; 0x66; 0x7E; 0x60; 0x3C; 0x00]
  | 0x69 => [0x18; 0x00; 0x38; 0x18; 0x18; 0x18; 0x3C; 0x00]
  | 0x6B => [0x60; 0x60; 0x66; 0x6C; 0x78; 0x6C; 0x66; 0x00]
  | 0x6C => [0x38; 0x18; 0x18; 0x18; 0x18; 0x18; 0x3C; 0x00]
  | 0x6E => [0x00; 0x00; 0x7C; 0x66; 0x66; 0x66; 0x66; 0x00]
  | 0x6F => [0x00; 0x00; 0x3C; 0x66; 0x66; 0x66; 0x3C; 0x00]
  | 0x70 => [0x00; 0x00; 0x7C; 0x66; 0x66; 0x7C; 0x60; 0x60]
  | 0x72 => [0x00; 0x00; 0x6E; 0x70; 0x60; 0x60; 0x60; 0x00]
  | 0x73 => [0x00; 0x00; 0x3E; 0x60; 0x3C; 0x06; 0x7C; 0x00]
  | 0x74 => [0x30; 0x30; 0x7C; 0x30; 0x30; 0x30; 0x1C; 0x00]
  | _ => [0x00; 0x00; 0x00; 0x00; 0x00; 0x00; 0x00; 0x00]
  end.

Definition get_minimal_glyph (ch : Z) : list Z :=
  match ch with
  | 0x20 => [0x00; 0x00; 0x00; 0x00; 0x00; 0x00; 0x00; 0x00]
  | 0x21 => [0x18; 0x18; 0x18; 0x18; 0x18; 0x00; 0x18; 0x00]
  | 0x3A => [0x00; 0x18; 0x18; 0x00; 0x18; 0x18; 0x00; 0x00]
  | 0x30 => [0x3C; 0x66; 0x6E; 0x76; 0x66; 0x66; 0x3C; 0x00]
  | 0x31 => [0x18; 0x38; 0x18; 0x18; 0x18; 0x18; 0x7E; 0x00]
  | _ =>
      if (0x41 <=? ch) && (ch <=? 0x5A) then get_uppercase_glyph ch
      else if (0x61 <=? ch) && (ch <=? 0x7A) then get_lowercase_glyph ch
      else [0x00; 0x00; 0x00; 0x00; 0x00; 0x00; 0x00; 0x00]
  end.

Definition get_full_glyph (ch : Z) : list Z :=
  match ch with
  | 0x20 => [0x00; 0x00; 0x00; 0x00; 0x00; 0x00; 0x00; 0x00]
  | 0x21 => [0x18; 0x18; 0x18; 0x18; 0x18; 0x00; 0x18; 0x00]
  | 0x22 => [0x6C; 0x6C; 0x24; 0x00; 0x00; 0x00; 0x00; 0x00]
  | 0x23 => [0x6C; 0x6C; 0xFE; 0x6C; 0xFE; 0x6C; 0x6C; 0x00]
  | 0x24 => [0x18; 0x3E; 0x60; 0x3C; 0x06; 0x7C; 0x18; 0x00]
  | 0x25 => [0x00; 0xC6; 0xCC; 0x18; 0x30; 0x66; 0xC6; 0x00]
  | 0x26 => [0x38; 0x6C; 0x38; 0x76; 0xDC; 0xCC; 0x76; 0x00]
  | 0x27 => [0x18; 0x18; 0x30; 0x00; 0x00; 0x00; 0x00; 0x00]
  | 0x28 => [0x0C; 0x18; 0x30; 0x30; 0x30; 0x18; 0x0C; 0x00]
  | 0x29 => [0x30; 0x18; 0x0C; 0x0C; 0x0C; 0x18; 0x30; 0x00]
  | 0x2A => [0x00; 0x66; 0x3C; 0xFF; 0x3C; 0x66; 0x00; 0x00]
  | 0x2B => [0x00; 0x18; 0x18; 0x7E; 0x18; 0x18; 0x00; 0x00]
  | 0x2C => [0x00; 0x00; 0x00; 0x00; 0x00; 0x18; 0x18; 0x30]
  | 0x2D => [0x00; 0x00; 0x00; 0x7E; 0x00; 0x00; 0x00; 0x00]
  | 0x2E => [0x00; 0x00; 0x00; 0x00; 0x00; 0x18; 0x18; 0x00]
  | 0x2F => [0x06; 0x0C; 0x18; 0x30; 0x60; 0xC0; 0x80; 0x00]
  | 0x30 => [0x3C; 0x66; 0x6E; 0x76; 0x66; 0x66; 0x3C; 0x00]
  | 0x31 => [0x18; 0x38; 0x18; 0x18; 0x18; 0x18; 0x7E; 0x00]
  | 0x32 => [0x3C; 0x66; 0x06; 0x0C; 0x18; 0x30; 0x7E; 0x00]
  | 0x33 => [0x7E; 0x0C; 0x18; 0x0C; 0x06; 0x66; 0x3C; 0x00]
  | 0x34 => [0x0C; 0x1C; 0x3C; 0x6C; 0x7E; 0x0C; 0x0C; 0x00]
  | 0x35 => [0x7E; 0x60; 0x7C; 0x06; 0x06; 0x66; 0x3C; 0x00]
  | 0x36 => [0x1C; 0x30; 0x60; 0x7C; 0x66; 0x66; 0x3C; 0x00]
  | 0x37 => [0x7E; 0x06; 0x0C; 0x18; 0x30; 0x30; 0x30; 0x00]
  | 0x38 => [0x3C; 0x66; 0x66; 0x3C; 0x66; 0x66; 0x3C; 0x00]
  | 0x39 => [0x3C; 0x66; 0x66; 0x3E; 0x06; 0x0C; 0x38; 0x00]
  | 0x3A => [0x00; 0x18; 0x18; 0x00; 0x18; 0x18; 0x00; 0x00]
  | 0x3B => [0x00; 0x18; 0x18; 0x00; 0x18; 0x18; 0x30; 0x00]
  | 0x3C => [0x0C; 0x18; 0x30; 0x60; 0x30; 0x18; 0x0C; 0x00]
  | 0x3D => [0x00; 0x00; 0x7E; 0x00; 0x7E; 0x00; 0x00; 0x00]
  | 0x3E => [0x30; 0x18; 0x0C; 0x06; 0x0C; 0x18; 0x30; 0x00]
  | 0x3F => [0x3C; 0x66; 0x0C; 0x18; 0x18; 0x00; 0x18; 0x00]
  | 0x40 => [0x3C; 0x66; 0x6E; 0x6E; 0x60; 0x62; 0x3C; 0x00]
  | 0x41 => [0x18; 0x3C; 0x66; 0x66; 0x7E; 0x66; 0x66; 0x00]
  | 0x42 => [0x7C; 0x66; 0x66; 0x7C; 0x66; 0x66; 0x7C; 0x00]
  | 0x43 => [0x3C; 0x66; 0x60; 0x60; 0x60; 0x66; 0x3C; 0x00]
  | 0x44 => [0x78; 0x6C; 0x66; 0x66; 0x66; 0x6C; 0x78; 0x00]
  | 0x45 => [0x7E; 0x60; 0x60; 0x7C; 0x60; 0x60; 0x7E; 0x00]
  | 0x46 => [0x7E; 0x60; 0x60; 0x7C; 0x60; 0x60; 0x60; 0x00]
  | 0x47 => [0x3E; 0x60; 0x60; 0x6E; 0x66; 0x66; 0x3E; 0x00]
  | 0x48 => [0x66; 0x66; 0x66; 0x7E; 0x66; 0x66; 0x66; 0x00]
  | 0x49 => [0x3C; 0x18; 0x18; 0x18; 0x18; 0x18; 0x3C; 0x00]
  | 0x4A => [0x06; 0x06; 0x06; 0x06; 0x66; 0x66; 0x3C; 0x00]
  | 0x4B => [0x66; 0x6C; 0x78; 0x70; 0x78; 0x6C; 0x66; 0x00]
  | 0x4C => [0x60; 0x60; 0x60; 0x60; 0x60; 0x60; 0x7E; 0x00]
  | 0x4D => [0xC6; 0xEE; 0xFE; 0xD6; 0xC6; 0xC6; 0xC6; 0x00]
  | 0x4E => [0x66; 0x76; 0x7E; 0x7E; 0x6E; 0x66; 0x66; 0x00]
  | 0x4F => [0x3C; 0x66; 0x66; 0x66; 0x66; 0x66; 0x3C; 0x00]
  | 0x50 => [0x7C; 0x66; 0x66; 0x7C; 0x60; 0x60; 0x60; 0x00]
  | 0x51 => [0x3C; 0x66; 0x66; 0x66; 0x6E; 0x3C; 0x0E; 0x00]
  | 0x52 => [0x7C; 0x66; 0x66; 0x7C; 0x6C; 0x66; 0x66; 0x00]
  | 0x53 => [0x3C; 0x66; 0x60; 0x3C; 0x06; 0x66; 0x3C; 0x00]
  | 0x54 => [0x7E; 0x18; 0x18; 0x18; 0x18; 0x18; 0x18; 0x00]
  | 0x55 => [0x66; 0x66; 0x66; 0x66; 0x66; 0x66; 0x3C; 0x00]
  | 0x56 => [0x66; 0x66; 0x66; 0x66; 0x66; 0x3C; 0x18; 0x00]
  | 0x57 => [0xC6; 0xC6; 0xC6; 0xD6; 0xFE; 0xEE; 0xC6; 0x00]
  | 0x58 => [0x66; 0x66; 0x3C; 0x18; 0x3C; 0x66; 0x66; 0x00]
  | 0x59 => [0x66; 0x66; 0x66; 0x3C; 0x18; 0x18; 0x18; 0x00]
  | 0x5A => [0x7E; 0x06; 0x0C; 0x18; 0x30; 0x60; 0x7E; 0x00]
  | 0x5B => [0x3C; 0x30; 0x30; 0x30; 0x30; 0x30; 0x3C; 0x00]
  | 0x5C => [0xC0; 0x60; 0x30; 0x18; 0x0C; 0x06; 0x02; 0x00]
  | 0x5D => [0x3C; 0x0C; 0x0C; 0x0C; 0x0C; 0x0C; 0x3C; 0x00]
  | 0x5E => [0x10; 0x38; 0x6C; 0xC6; 0x00; 0x00; 0x00; 0x00]
  | 0x5F => [0x00; 0x00; 0x00; 0x00; 0x00; 0x00; 0x00; 0xFF]
  | 0x60 => [0x30; 0x18; 0x0C; 0x00; 0x00; 0x00; 0x00; 0x00]
  | 0x61 => [0x00; 0x00; 0x3C; 0x06; 0x3E; 0x66; 0x3E; 0x00]
  | 0x62 => [0x60; 0x60; 0x7C; 0x66; 0x66; 0x66; 0x7C; 0x00]
  | 0x63 => [0x00; 0x00; 0x3C; 0x60; 0x60; 0x60; 0x3C; 0x00]
  | 0x64 => [0x06; 0x06; 0x3E; 0x66; 0x66; 0x66; 0x3E; 0x00]
  | 0x65 => [0x00; 0x00; 0x3C; 0x66; 0x7E; 0x60; 0x3C; 0x00]
  | 0x66 => [0x1C; 0x30; 0x7C; 0x30; 0x30; 0x30; 0x30; 0x00]
  | 0x67 => [0x00; 0x00; 0x3E; 0x66; 0x66; 0x3E; 0x06; 0x3C]
  | 0x68 => [0x60; 0x60; 0x7C; 0x66; 0x66; 0x66; 0x66; 0x00]
  | 0x69 => [0x18; 0x00; 0x38; 0x18; 0x18; 0x18; 0x3C; 0x00]
  | 0x6A => [0x0C; 0x00; 0x1C; 0x0C; 0x0C; 0x0C; 0x6C; 0x38]
  | 0x6B => [0x60; 0x60; 0x66; 0x6C; 0x78; 0x6C; 0x66; 0x00]
  | 0x6C => [0x38; 0x18; 0x18; 0x18; 0x18; 0x18; 0x3C; 0x00]
  | 0x6D => [0x00; 0x00; 0xEC; 0xFE; 0xD6; 0xC6; 0xC6; 0x00]
  | 0x6E => [0x00; 0x00; 0x7C; 0x66; 0x66; 0x66; 0x66; 0x00]
  | 0x6F => [0x00; 0x00; 0x3C; 0x66; 0x66; 0x66; 0x3C; 0x00]
  | 0x70 => [0x00; 0x00; 0x7C; 0x66; 0x66; 0x7C; 0x60; 0x60]
  | 0x71 => [0x00; 0x00; 0x3E; 0x66; 0x66; 0x3E; 0x06; 0x06]
  | 0x72 => [0x00; 0x00; 0x6E; 0x70; 0x60; 0x60; 0x60; 0x00]
  | 0x73 => [0x00; 0x00; 0x3E; 0x60; 0x3C; 0x06; 0x7C; 0x00]
  | 0x74 => [0x30; 0x30; 0x7C; 0x30; 0x30; 0x30; 0x1C; 0x00]
  | 0x75 => [0x00; 0x00; 0x66; 0x66; 0x66; 0x66; 0x3E; 0x00]
  | 0x76 => [0x00; 0x00; 0x66; 0x66; 0x66; 0x3C; 0x18; 0x00]
  | 0x77 => [0x00; 0x00; 0xC6; 0xC6; 0xD6; 0xFE; 0x6C; 0x00]
  | 0x78 => [0x00; 0x00; 0x66; 0x3C; 0x18; 0x3C; 0x66; 0x00]
  | 0x79 => [0x00; 0x00; 0x66; 0x66; 0x66; 0x3E; 0x06; 0x3C]
  | 0x7A => [0x00; 0x00; 0x7E; 0x0C; 0x18; 0x30; 0x7E; 0x00]
  | 0x7B => [0x0E; 0x18; 0x18; 0x70; 0x18; 0x18; 0x0E; 0x00]
  | 0x7C => [0x18; 0x18; 0x18; 0x18; 0x18; 0x18; 0x18; 0x00]
  | 0x7D => [0x70; 0x18; 0x18; 0x0E; 0x18; 0x18; 0x70; 0x00]
  | 0x7E => [0x76; 0xDC; 0x00; 0x00; 0x00; 0x00; 0x00; 0x00]
  | _ => [0xFF; 0x81; 0x81; 0x81; 0x81; 0x81; 0x81; 0xFF]
  end.

(** ** Pixels *)

Abbreviation Pixels := (gmap Z Z).

Definition pixel_value (fb : Framebuffer) (c : Color) : Z :=
  match fb_format fb with
  | PfRgb => Z.lor (Z.lor (Z.shiftl (c_r c) 16) (Z.shiftl (c_g c) 8)) (c_b c)
  | _ => Z.lor (Z.lor (Z.shiftl (c_b c) 16) (Z.shiftl (c_g c) 8)) (c_r c)
  end.

(** [(y * stride + x) as usize * bytes_per_pixel], the first two in [u32]. *)
Definition pixel_offset (fb : Framebuffer) (x y : Z) : Z :=
  wrap32 (wrap32 (y * fb_stride fb) + x) * fb_bytes_per_pixel fb.

Definition store (fb : Framebuffer) (px : Pixels) (x y v : Z) : Pixels :=
  <[fb_address fb + pixel_offset fb x y := v]> px.

Definition visible (fb : Framebuffer) (x y : Z) : bool := (x <? fb_width fb) && (y <? fb_height fb).

Definition write_pixel (fb : Framebuffer) (px : Pixels) (x y v : Z) : Pixels :=
  if visible fb x y then store fb px x y v else px.

Definition draw_pixel (fb : Framebuffer) (px : Pixels) (x y : Z) (c : Color) : Pixels :=
  write_pixel fb px x y (pixel_value fb c).

Definition read_pixel (fb : Framebuffer) (px : Pixels) (x y : Z) : Z :=
  if visible fb x y then default 0 (px !! (fb_address fb + pixel_offset fb x y)) else 0.

(** [for px in x..x_end] of one line, and [for py in y..y_end] of the lines. *)
Definition fill_line (fb : Framebuffer) (x x_end v : Z) (px : Pixels) (y : Z) : Pixels :=
  foldl (λ px x, store fb px x y v) px (seqZ x (x_end - x)).

Definition fill_rect (fb : Framebuffer) (px : Pixels) (x y width height : Z) (c : Color) : Pixels :=
  let v := pixel_value fb c in
  let x_end := Z.min (wrap32 (x + width)) (fb_width fb) in
  let y_end := Z.min (wrap32 (y + height)) (fb_height fb) in
  foldl (fill_line fb x x_end v) px (seqZ y (y_end - y)).

Definition clear_screen (fb : Framebuffer) (px : Pixels) (c : Color) : Pixels :=
  foldl (λ px i, <[fb_address fb + i * fb_bytes_per_pixel fb := pixel_value fb c]> px) px
    (seqZ 0 (wrap32 (fb_stride fb * fb_height fb))).

(** [glyph[row] & (0x80 >> col) != 0] *)
Definition glyph_bit (glyph : list Z) (row col : Z) : bool :=
  negb (Z.land (default 0 (glyph !! Z.to_nat row)) (Z.shiftr 0x80 col) =? 0).

(** The cells of a character, row by row. *)
Definition cells : list (Z * Z) :=
  row ← seqZ 0 FONT_HEIGHT; col ← seqZ 0 FONT_WIDTH; [(row, col)].

Definition draw_char (fb : Framebuffer) (px : Pixels) (x y ch : Z) (fg bg : Color) : Pixels :=
  let glyph := get_full_glyph ch in
  foldl (λ px '(row, col),
    write_pixel fb px (wrap32 (x + col)) (wrap32 (y + row))
      (if glyph_bit glyph row col then pixel_value fb fg else pixel_value fb bg)) px cells.

Fixpoint draw_string (fb : Framebuffer) (px : Pixels) (x y : Z) (text : list Z) (fg bg : Color) : Pixels :=
  match text with
  | [] => px
  | ch :: text => draw_string fb (draw_char fb px x y ch fg bg) (wrap32 (x + FONT_WIDTH)) y text fg bg
  end.

(** [panic_write]: only set bits are drawn, and the text stops at the edge. *)
Definition panic_char (fb : Framebuffer) (px : Pixels) (x y ch v : Z) : Pixels :=
  let glyph := get_minimal_glyph ch in
  foldl (λ px '(row, col),
    if glyph_bit glyph row col then write_pixel fb px (wrap32 (x + col)) (wrap32 (y + row)) v else px) px cells.

Fixpoint panic_write (fb : Framebuffer) (px : Pixels) (x y : Z) (text : list Z) (c : Color) : Pixels :=
  match text with
  | [] => px
  | ch :: text =>
      if fb_width fb <? wrap32 (x + FONT_WIDTH) then px
      else panic_write fb (panic_char fb px x y ch (pixel_value fb c)) (wrap32 (x + FONT_WIDTH)) y text c
  end.

(** ** Properties *)

Record fb_wf (fb : Framebuffer) : Prop := {
  fw_width : 0 ≤ fb_width fb ≤ fb_stride fb;
  fw_height : 0 ≤ fb_height fb;
  fw_area : fb_stride fb * fb_height fb < 2 ^ 32;
  fw_bpp : fb_bytes_per_pixel fb = 4;
}.

(** The address of a pixel of the frame, hidden columns included. *)
Definition in_frame (fb : Framebuffer) (a : Z) : Prop :=
  ∃ i, 0 ≤ i < fb_stride fb * fb_height fb ∧ a = fb_address fb + 4 * i.

Lemma pixel_offset_spec fb x y :
  fb_wf fb → 0 ≤ x < fb_stride fb → 0 ≤ y < fb_height fb →
  pixel_offset fb x y = 4 * (y * fb_stride fb + x) ∧ 0 ≤ y * fb_stride fb + x < fb_stride fb * fb_height fb.
Proof.
  intros [Hw Hh Ha Hb] Hx Hy. assert (0 ≤ y * fb_stride fb + x < fb_stride fb * fb_height fb) as Hr by nia.
  assert (0 ≤ y * fb_stride fb) by nia. unfold pixel_offset.
  rewrite Hb, (wrap_small 32 (y * _)), wrap_small by (unfold in_range; lia). split; [ring|exact Hr].
Qed.

Lemma pixel_offset_inj fb x y x' y' :
  fb_wf fb → 0 ≤ x < fb_stride fb → 0 ≤ y < fb_height fb → 0 ≤ x' < fb_stride fb → 0 ≤ y' < fb_height fb →
  pixel_offset fb x y = pixel_offset fb x' y' → x = x' ∧ y = y'.
Proof.
  intros Hwf Hx Hy Hx' Hy'. rewrite (proj1 (pixel_offset_spec fb x y Hwf Hx Hy)).
  rewrite (proj1 (pixel_offset_spec fb x' y' Hwf Hx' Hy')). intros E.
  assert (y = y') as ->; [|lia].
  apply (Z.div_mod_unique (fb_stride fb) y y' x x'); lia.
Qed.

(** [px'] agrees with [px] outside the frame. *)
Definition confined (fb : Framebuffer) (px px' : Pixels) : Prop := ∀ a, ¬ in_frame fb a → px' !! a = px !! a.

#[export] Instance confined_refl fb : Reflexive (confined fb).
Proof. by intros px a. Qed.
#[export] Instance confined_trans fb : Transitive (confined fb).
Proof. intros p q r H1 H2 a Ha. rewrite H2 by done. by apply H1. Qed.

Lemma confined_foldl {B} fb (f : Pixels → B → Pixels) (l : list B) px :
  (∀ px b, b ∈ l → confined fb px (f px b)) → confined fb px (foldl f px l).
Proof.
  intros Hf. apply (foldl_preserves (confined fb px)); [done|].
  intros p b Hb Hp. etrans; [exact Hp|]. by apply Hf.
Qed.

Lemma store_confined fb px x y v :
  fb_wf fb → 0 ≤ x < fb_stride fb → 0 ≤ y < fb_height fb → confined fb px (store fb px x y v).
Proof.
  intros Hwf Hx Hy a Ha. unfold store. destruct (pixel_offset_spec fb x y Hwf Hx Hy) as [-> Hr].
  rewrite lookup_insert_ne; [done|]. intros <-. apply Ha. by eexists.
Qed.

Lemma write_pixel_confined fb px x y v :
  fb_wf fb → 0 ≤ x → 0 ≤ y → confined fb px (write_pixel fb px x y v).
Proof.
  intros Hwf Hx Hy. unfold write_pixel, visible. destruct (_ && _) eqn:E; [|done].
  apply andb_true_iff in E as [?%Z.ltb_lt ?%Z.ltb_lt]. destruct (fw_width _ Hwf). by apply store_confined; [|lia..].
Qed.

Lemma cells_range row col : (row, col) ∈ cells → 0 ≤ row < 8 ∧ 0 ≤ col < 8.
Proof.
  unfold cells. intros (r & Hc & Hr)%list_elem_of_bind. apply list_elem_of_bind in Hc as (c & Hc & Hc').
  apply list_elem_of_singleton in Hc as [= -> ->]. apply elem_of_seqZ in Hr, Hc'. unfold FONT_HEIGHT, FONT_WIDTH in *. lia.
Qed.

Lemma wrap32_nonneg x : 0 ≤ wrap32 x.
Proof. apply wrap_range. lia. Qed.

Lemma draw_char_confined fb px x y ch fg bg : fb_wf fb → confined fb px (draw_char fb px x y ch fg bg).
Proof.
  intros Hwf. apply confined_foldl. intros px' [row col] _. apply write_pixel_confined; [done|apply wrap32_nonneg..].
Qed.

Lemma panic_char_confined fb px x y ch v : fb_wf fb → confined fb px (panic_char fb px x y ch v).
Proof.
  intros Hwf. apply confined_foldl. intros px' [row col] _. case_match; [|done].
  apply write_pixel_confined; [done|apply wrap32_nonneg..].
Qed.

Lemma fill_line_confined fb px x x_end v y :
  fb_wf fb → 0 ≤ x → x_end ≤ fb_width fb → 0 ≤ y < fb_height fb → confined fb px (fill_line fb x x_end v px y).
Proof.
  intros Hwf Hx He Hy. apply confined_foldl. intros px' c Hc%elem_of_seqZ. destruct (fw_width _ Hwf).
  apply store_confined; [done|lia|done].
Qed.

Lemma fill_rect_confined fb px x y w h c :
  fb_wf fb → 0 ≤ x → 0 ≤ y → confined fb px (fill_rect fb px x y w h c).
Proof.
  intros Hwf Hx Hy. apply confined_foldl. intros px' r Hr%elem_of_seqZ. apply fill_line_confined; [done|done|lia|lia].
Qed.

Lemma clear_screen_confined fb px c : fb_wf fb → confined fb px (clear_screen fb px c).
Proof.
  intros Hwf. apply confined_foldl. intros px' i Hi%elem_of_seqZ a Ha. rewrite (fw_bpp _ Hwf).
  destruct Hwf as [Hw Hh Harea _]. rewrite wrap_small in Hi by (unfold in_range; nia).
  rewrite lookup_insert_ne; [done|]. intros <-. apply Ha. exists i. lia.
Qed.

(** Every drawing operation, with the [u32] arguments of the source. *)
Inductive DrawOp :=
| DrawPixel (x y : Z) (c : Color)
| WritePixel (x y v : Z)
| FillRect (x y width height : Z) (c : Color)
| ClearScreen (c : Color)
| DrawString (x y : Z) (text : list Z) (fg bg : Color)
| PanicWrite (x y : Z) (text : list Z) (c : Color).

Definition op_ok (op : DrawOp) : Prop :=
  match op with
  | DrawPixel x y _ | WritePixel x y _ | FillRect x y _ _ _ | DrawString x y _ _ _ | PanicWrite x y _ _ =>
      in_range 32 x ∧ in_range 32 y
  | ClearScreen _ => True
  end.

Definition draw (fb : Framebuffer) (px : Pixels) (op : DrawOp) : Pixels :=
  match op with
  | DrawPixel x y c => draw_pixel fb px x y c
  | WritePixel x y v => write_pixel fb px x y v
  | FillRect x y w h c => fill_rect fb px x y w h c
  | ClearScreen c => clear_screen fb px c
  | DrawString x y text fg bg => draw_string fb px x y text fg bg
  | PanicWrite x y text c => panic_write fb px x y text c
  end.

Lemma draw_string_confined fb px x y text fg bg : fb_wf fb → confined fb px (draw_string fb px x y text fg bg).
Proof.
  intros Hwf. revert px x. induction text as [|ch text IH]; intros px x; [done|]. cbn.
  etrans; [by apply draw_char_confined|apply IH].
Qed.

Lemma panic_write_confined fb px x y text c : fb_wf fb → confined fb px (panic_write fb px x y text c).
Proof.
  intros Hwf. revert px x. induction text as [|ch text IH]; intros px x; [done|]. cbn. case_match; [done|].
  etrans; [by apply panic_char_confined|apply IH].
Qed.

(** Storing one value in a set of pixels. *)
Lemma foldl_store_lookup {B} (at_ : B → Z) v (l : list B) (px : Pixels) a :
  foldl (λ px b, <[at_ b := v]> px) px l !! a = if decide (a ∈ at_ <$> l) then Some v else px !! a.
Proof.
  revert px. induction l as [|b l IH]; intros px; cbn [foldl fmap list_fmap]; [done|].
  rewrite IH. destruct (decide (a ∈ at_ <$> l)) as [H|H]; [rewrite decide_True; [done|set_solver]|].
  destruct (decide (at_ b = a)) as [<-|Hne].
  - rewrite lookup_insert_eq, decide_True; [done|]. set_solver.
  - rewrite lookup_insert_ne, decide_False; [done| |done]. intros [?|?]%elem_of_cons; congruence.
Qed.

(** The pixel at (x, y) of the screen. *)
Definition shown (fb : Framebuffer) (px : Pixels) (x y : Z) : option Z := px !! (fb_address fb + pixel_offset fb x y).

Lemma fill_line_shown fb px x x_end v y u w :
  fb_wf fb → 0 ≤ x → x_end ≤ fb_width fb → 0 ≤ y < fb_height fb → 0 ≤ u < fb_width fb → 0 ≤ w < fb_height fb →
  shown fb (fill_line fb x x_end v px y) u w = if decide (w = y ∧ x ≤ u < x_end) then Some v else shown fb px u w.
Proof.
  intros Hwf Hx He Hy Hu Hw. unfold shown, fill_line, store. rewrite foldl_store_lookup. destruct (fw_width _ Hwf).
  apply decide_ext. rewrite list_elem_of_fmap. split.
  - intros (c & E & Hc%elem_of_seqZ).
    assert (pixel_offset fb u w = pixel_offset fb c y) as Eo by lia.
    apply pixel_offset_inj in Eo as [-> ->]; [|done|lia..]. lia.
  - intros [-> Hr]. exists u. split; [done|]. apply elem_of_seqZ. lia.
Qed.

Lemma fill_lines_shown fb px x x_end v y n u w :
  fb_wf fb → 0 ≤ x → x_end ≤ fb_width fb → 0 ≤ y → y + n ≤ fb_height fb → 0 ≤ u < fb_width fb → 0 ≤ w < fb_height fb →
  shown fb (foldl (fill_line fb x x_end v) px (seqZ y n)) u w =
    if decide (y ≤ w < y + n ∧ x ≤ u < x_end) then Some v else shown fb px u w.
Proof.
  intros Hwf Hx He Hy Hn Hu Hw. destruct (decide (0 ≤ n)) as [H0|]; [|rewrite seqZ_nil, decide_False by lia; done].
  revert y px Hy Hn. pattern n. apply natlike_ind; [|clear n H0; intros n H0 IH|done]; intros y px Hy Hn.
  { rewrite seqZ_nil, decide_False by lia. done. }
  rewrite seqZ_cons by lia. cbn [foldl]. rewrite Z.pred_succ, IH by lia. rewrite fill_line_shown by (done || lia).
  repeat case_decide; try done; lia.
Qed.

(** Drawing stays on the screen: for a framebuffer whose lines are at least
    as wide as the screen and whose frame has fewer than 2^32 pixels, no
    sequence of drawing operations writes an address outside the frame. *)
Theorem drawing_confined fb px ops :
  fb_wf fb → Forall op_ok ops → ∀ a, ¬ in_frame fb a → foldl (draw fb) px ops !! a = px !! a.
Proof.
  intros Hwf Hops. change (confined fb px (foldl (draw fb) px ops)). apply confined_foldl. intros px' op Hop.
  rewrite Forall_forall in Hops. specialize (Hops _ Hop). destruct op; cbn in Hops |- *.
  - apply write_pixel_confined; [done|apply Hops..].
  - apply write_pixel_confined; [done|apply Hops..].
  - apply fill_rect_confined; [done|apply Hops..].
  - by apply clear_screen_confined.
  - by apply draw_string_confined.
  - by apply panic_write_confined.
Qed.

(** A filled rectangle: with corners that do not wrap, every pixel of the
    screen inside the rectangle shows its colour and every other one shows what
    it showed before. *)
Theorem fill_rect_correct fb px x y width height c u w :
  fb_wf fb → in_range 32 x → in_range 32 y → 0 ≤ width → 0 ≤ height → x + width < 2 ^ 32 → y + height < 2 ^ 32 →
  0 ≤ u < fb_width fb → 0 ≤ w < fb_height fb →
  shown fb (fill_rect fb px x y width height c) u w =
    if decide (x ≤ u < x + width ∧ y ≤ w < y + height) then Some (pixel_value fb c) else shown fb px u w.
Proof.
  intros Hwf [Hx _] [Hy _] Hwd Hht Hxw Hyh Hu Hw. unfold fill_rect. cbv zeta.
  rewrite !wrap_small by (unfold in_range; lia).
  destruct (decide (y ≤ fb_height fb)) as [Hle|Hgt].
  - rewrite fill_lines_shown by (done || lia). repeat case_decide; try done; lia.
  - rewrite seqZ_nil, decide_False by lia. done.
Qed.

(** Two memories that read the same. *)
Definition same_picture (p q : Pixels) : Prop := ∀ a, default 0 (p !! a) = default 0 (q !! a).

#[export] Instance same_picture_equiv : Equivalence same_picture.
Proof. split; [by intros p a|by intros p q H a|intros p q r H1 H2 a; by rewrite H1]. Qed.

(** ** Witnesses *)

Definition demo_fb : Framebuffer := Framebuffer_new (mkFbInfo 0x80000000 0x4000 40 20 64 PfBgr).

Lemma demo_fb_wf : fb_wf demo_fb.
Proof. split; cbn; lia. Qed.

Lemma drawing_confined_witness :
  ¬ in_frame demo_fb 0x80001400 ∧
  foldl (draw demo_fb) ∅ [ClearScreen COLOR_BLACK; FillRect 30 10 100 100 COLOR_RED; DrawString 36 16 [0x41; 0x42] COLOR_WHITE COLOR_BLACK]
    !! 0x80001400 = None.
Proof.
  assert (¬ in_frame demo_fb 0x80001400) as Hn.
  { intros (i & Hi & E). cbn in Hi, E. lia. }
  split; [exact Hn|].
  rewrite (drawing_confined demo_fb ∅ _ demo_fb_wf); [reflexivity| |exact Hn].
  repeat constructor; cbn; lia.
Defined.

Lemma fill_rect_correct_witness :
  shown demo_fb (fill_rect demo_fb ∅ 30 10 100 100 COLOR_RED) 35 15 = Some 255.
Proof.
  rewrite (fill_rect_correct demo_fb ∅ 30 10 100 100 COLOR_RED 35 15 demo_fb_wf);
    [reflexivity|split; [lia|reflexivity]|split; [lia|reflexivity]|lia|lia|lia|lia|cbn; lia|cbn; lia].
Defined.
