(* ===== verification/Kernel.v ===== *)
(** * The kernel state

    The globals of the kernel in one record, and the glue the system calls and
    the interrupt handlers share: page-fault policy ([mm/policy.rs]), the
    registered interrupt handlers, rescheduling, and access to user memory.
    The page-table walk the processor does for the kernel's own loads and
    stores is an interface, as are the ports of the PS/2 controller. *)

From S2P Require Import Prelude Cap Thread CapManager Sched Ipc Pmm Vm AddrSpace SharedMem Exec Input Graphics.

(** ** Page-fault policy *)

Definition MSG_TYPE_PAGE_FAULT : Z := 0xF001.

Inductive MemoryPolicyError := MpInvalidPort | MpPermissionDenied | MpNotRegistered | MpSendFailed.

Definition register_page_fault_handler (ipc : IpcManager) (state : option Z) (port_id caller : Z)
    : option Z * result unit MemoryPolicyError :=
  match get_port_owner ipc port_id with
  | None => (state, Err MpInvalidPort)
  | Some owner =>
      if negb (owner =? caller) then (state, Err MpPermissionDenied)
      else (Some port_id, Ok tt)
  end.

Definition page_fault_payload (tid fault_addr error_code instruction_pointer : Z) : list Z :=
  le_bytes 8 fault_addr ++ le_bytes 8 error_code ++ le_bytes 8 instruction_pointer ++ le_bytes 8 tid.

Definition notify_page_fault (region_size : Z → option Z) (ticks : Z) (ipc : IpcManager) (state : option Z)
    (tid fault_addr error_code instruction_pointer : Z) : IpcManager * result unit MemoryPolicyError :=
  match state with
  | None => (ipc, Err MpNotRegistered)
  | Some port =>
      let payload := page_fault_payload tid fault_addr error_code instruction_pointer in
      match send_message region_size ticks ipc port (Message_new ticks tid MSG_TYPE_PAGE_FAULT payload) with
      | (ipc, Ok _) => (ipc, Ok tt)
      | (ipc, Err _) => (ipc, Err MpSendFailed)
      end
  end.

(** ** State *)

Record Kernel (D : Type) := mkKernel {
  k_threads : list Thread;
  k_next_tid : Z;
  k_sched : Scheduler;
  k_cpu : Cpu;
  k_caps : CapManager;
  k_ipc : IpcManager;
  k_vm : Vm;
  k_spaces : gmap Z AddressSpace;
  k_next_space : Z;
  k_regions : gmap Z SharedRegion;
  k_next_region : Z;
  k_policy : option Z;
  k_irq : gmap Z (Z * Z);
  k_counts : gmap Z Z;
  k_keyboard : RingBuffer;
  k_mouse : RingBuffer;
  k_fb : option Framebuffer;
  k_ticks : Z;
  k_dev : D;
}.
#[global] Arguments mkKernel {D}.
#[global] Arguments k_threads {D} _.
#[global] Arguments k_next_tid {D} _.
#[global] Arguments k_sched {D} _.
#[global] Arguments k_cpu {D} _.
#[global] Arguments k_caps {D} _.
#[global] Arguments k_ipc {D} _.
#[global] Arguments k_vm {D} _.
#[global] Arguments k_spaces {D} _.
#[global] Arguments k_next_space {D} _.
#[global] Arguments k_regions {D} _.
#[global] Arguments k_next_region {D} _.
#[global] Arguments k_policy {D} _.
#[global] Arguments k_irq {D} _.
#[global] Arguments k_counts {D} _.
#[global] Arguments k_keyboard {D} _.
#[global] Arguments k_mouse {D} _.
#[global] Arguments k_fb {D} _.
#[global] Arguments k_ticks {D} _.
#[global] Arguments k_dev {D} _.

Section kernel.
Context {D : Type}.
Implicit Types (k : Kernel D).

Definition set_k_threads k (ths : list Thread) : Kernel D :=
  mkKernel ths (k_next_tid k) (k_sched k) (k_cpu k) (k_caps k) (k_ipc k) (k_vm k) (k_spaces k) (k_next_space k)
    (k_regions k) (k_next_region k) (k_policy k) (k_irq k) (k_counts k) (k_keyboard k) (k_mouse k) (k_fb k)
    (k_ticks k) (k_dev k).

Definition set_k_sched k (s : Scheduler) (ths : list Thread) : Kernel D :=
  mkKernel ths (k_next_tid k) s (k_cpu k) (k_caps k) (k_ipc k) (k_vm k) (k_spaces k) (k_next_space k)
    (k_regions k) (k_next_region k) (k_policy k) (k_irq k) (k_counts k) (k_keyboard k) (k_mouse k) (k_fb k)
    (k_ticks k) (k_dev k).

Definition set_k_cpu k (cpu : Cpu) (ths : list Thread) : Kernel D :=
  mkKernel ths (k_next_tid k) (k_sched k) cpu (k_caps k) (k_ipc k) (k_vm k) (k_spaces k) (k_next_space k)
    (k_regions k) (k_next_region k) (k_policy k) (k_irq k) (k_counts k) (k_keyboard k) (k_mouse k) (k_fb k)
    (k_ticks k) (k_dev k).

Definition set_k_caps k (cm : CapManager) (ths : list Thread) : Kernel D :=
  mkKernel ths (k_next_tid k) (k_sched k) (k_cpu k) cm (k_ipc k) (k_vm k) (k_spaces k) (k_next_space k)
    (k_regions k) (k_next_region k) (k_policy k) (k_irq k) (k_counts k) (k_keyboard k) (k_mouse k) (k_fb k)
    (k_ticks k) (k_dev k).

Definition set_k_ipc k (m : IpcManager) : Kernel D :=
  mkKernel (k_threads k) (k_next_tid k) (k_sched k) (k_cpu k) (k_caps k) m (k_vm k) (k_spaces k)
    (k_next_space k) (k_regions k) (k_next_region k) (k_policy k) (k_irq k) (k_counts k) (k_keyboard k)
    (k_mouse k) (k_fb k) (k_ticks k) (k_dev k).

Definition set_k_vm k (v : Vm) : Kernel D :=
  mkKernel (k_threads k) (k_next_tid k) (k_sched k) (k_cpu k) (k_caps k) (k_ipc k) v (k_spaces k)
    (k_next_space k) (k_regions k) (k_next_region k) (k_policy k) (k_irq k) (k_counts k) (k_keyboard k)
    (k_mouse k) (k_fb k) (k_ticks k) (k_dev k).

Definition set_k_next_tid k (n : Z) : Kernel D :=
  mkKernel (k_threads k) n (k_sched k) (k_cpu k) (k_caps k) (k_ipc k) (k_vm k) (k_spaces k) (k_next_space k)
    (k_regions k) (k_next_region k) (k_policy k) (k_irq k) (k_counts k) (k_keyboard k) (k_mouse k) (k_fb k)
    (k_ticks k) (k_dev k).

Definition set_k_policy k (p : option Z) : Kernel D :=
  mkKernel (k_threads k) (k_next_tid k) (k_sched k) (k_cpu k) (k_caps k) (k_ipc k) (k_vm k) (k_spaces k)
    (k_next_space k) (k_regions k) (k_next_region k) p (k_irq k) (k_counts k) (k_keyboard k) (k_mouse k)
    (k_fb k) (k_ticks k) (k_dev k).

Definition set_k_irq k (h : gmap Z (Z * Z)) : Kernel D :=
  mkKernel (k_threads k) (k_next_tid k) (k_sched k) (k_cpu k) (k_caps k) (k_ipc k) (k_vm k) (k_spaces k)
    (k_next_space k) (k_regions k) (k_next_region k) (k_policy k) h (k_counts k) (k_keyboard k) (k_mouse k)
    (k_fb k) (k_ticks k) (k_dev k).

Definition set_k_counts k (c : gmap Z Z) : Kernel D :=
  mkKernel (k_threads k) (k_next_tid k) (k_sched k) (k_cpu k) (k_caps k) (k_ipc k) (k_vm k) (k_spaces k)
    (k_next_space k) (k_regions k) (k_next_region k) (k_policy k) (k_irq k) c (k_keyboard k) (k_mouse k)
    (k_fb k) (k_ticks k) (k_dev k).

Definition set_k_keyboard k (b : RingBuffer) : Kernel D :=
  mkKernel (k_threads k) (k_next_tid k) (k_sched k) (k_cpu k) (k_caps k) (k_ipc k) (k_vm k) (k_spaces k)
    (k_next_space k) (k_regions k) (k_next_region k) (k_policy k) (k_irq k) (k_counts k) b (k_mouse k) (k_fb k)
    (k_ticks k) (k_dev k).

Definition set_k_mouse k (b : RingBuffer) : Kernel D :=
  mkKernel (k_threads k) (k_next_tid k) (k_sched k) (k_cpu k) (k_caps k) (k_ipc k) (k_vm k) (k_spaces k)
    (k_next_space k) (k_regions k) (k_next_region k) (k_policy k) (k_irq k) (k_counts k) (k_keyboard k) b
    (k_fb k) (k_ticks k) (k_dev k).

Definition set_k_dev k (d : D) : Kernel D :=
  mkKernel (k_threads k) (k_next_tid k) (k_sched k) (k_cpu k) (k_caps k) (k_ipc k) (k_vm k) (k_spaces k)
    (k_next_space k) (k_regions k) (k_next_region k) (k_policy k) (k_irq k) (k_counts k) (k_keyboard k)
    (k_mouse k) (k_fb k) (k_ticks k) d.

Definition set_k_ticks k (t : Z) : Kernel D :=
  mkKernel (k_threads k) (k_next_tid k) (k_sched k) (k_cpu k) (k_caps k) (k_ipc k) (k_vm k) (k_spaces k)
    (k_next_space k) (k_regions k) (k_next_region k) (k_policy k) (k_irq k) (k_counts k) (k_keyboard k)
    (k_mouse k) (k_fb k) t (k_dev k).

(** The managers that share the memory. *)
Definition k_as k : AsManager := mkAsm (k_vm k) (k_spaces k) (k_next_space k).
Definition k_shm k : ShmManager := mkShm (k_vm k) (k_regions k) (k_next_region k).

Definition set_k_as k (m : AsManager) : Kernel D :=
  mkKernel (k_threads k) (k_next_tid k) (k_sched k) (k_cpu k) (k_caps k) (k_ipc k) (as_vm m) (spaces m)
    (next_space m) (k_regions k) (k_next_region k) (k_policy k) (k_irq k) (k_counts k) (k_keyboard k)
    (k_mouse k) (k_fb k) (k_ticks k) (k_dev k).

Definition set_k_shm k (m : ShmManager) : Kernel D :=
  mkKernel (k_threads k) (k_next_tid k) (k_sched k) (k_cpu k) (k_caps k) (k_ipc k) (shm_vm m) (k_spaces k)
    (k_next_space k) (regions m) (next_region m) (k_policy k) (k_irq k) (k_counts k) (k_keyboard k) (k_mouse k)
    (k_fb k) (k_ticks k) (k_dev k).

(** [shared_mem::get_region_info(..).size], as [ipc.rs] uses it. *)
Definition region_size k (id : Z) : option Z :=
  match get_region_info (k_shm k) id with Ok info => Some (ri_size info) | Err _ => None end.

(** ** Interrupt bookkeeping ([syscall/mod.rs]) *)

Definition ALLOWED_IRQS : list Z := [1; 12].

(** [notify_irq_handler] *)
Definition notify_irq_handler k (irq : Z) : Kernel D :=
  match k_irq k !! irq with
  | None => k
  | Some (_, port) =>
      let msg := Message_new (k_ticks k) 0 irq [irq] in
      set_k_ipc k (send_message (region_size k) (k_ticks k) (k_ipc k) port msg).1
  end.

Definition has_userspace_irq_handler k (irq : Z) : bool := bool_decide (is_Some (k_irq k !! irq)).

Definition increment_irq_count k (irq : Z) : Kernel D :=
  set_k_counts k (<[irq := wrap64 (default 0 (k_counts k !! irq) + 1)]> (k_counts k)).

(** ** Interrupt and exception handlers ([interrupts/handlers.rs])

    The sanity checks of the timer handler and the register dump of the
    exception handler only feed the log; the end-of-interrupt signal is left
    out. *)

Definition timer_interrupt_handler k : Kernel D :=
  let k := set_k_ticks k (wrap64 (k_ticks k + 1)) in
  let '(ipc, s, ths) := handle_timeouts (k_ipc k) (k_sched k) (k_threads k) (k_ticks k) in
  set_k_sched (set_k_ipc k ipc) s ths.

Section irq.
Context {ps2 : Ps2 D}.

Definition keyboard_interrupt_handler (fuel : nat) k : option (Kernel D) :=
  match on_keyboard_irq fuel (k_dev k) (k_keyboard k) with
  | None => None
  | Some (d, buf) =>
      let k := set_k_keyboard (set_k_dev k d) buf in
      Some (if has_userspace_irq_handler k 1 then notify_irq_handler k 1 else k)
  end.

Definition mouse_interrupt_handler (fuel : nat) k : option (Kernel D) :=
  match on_mouse_irq fuel (k_dev k) (k_mouse k) with
  | None => None
  | Some (d, buf) =>
      let k := set_k_mouse (set_k_dev k d) buf in
      Some (if has_userspace_irq_handler k 12 then notify_irq_handler k 12 else k)
  end.
End irq.

(** [rust_exception_handler] on a page fault, up to the final halt. *)
Definition page_fault_exception k (cr2 error_code rip : Z) : Kernel D :=
  if negb (Z.land error_code 0x4 =? 0) then
    match current (k_sched k) with
    | Some tid =>
        set_k_ipc k (notify_page_fault (region_size k) (k_ticks k) (k_ipc k) (k_policy k) tid cr2 error_code rip).1
    | None => k
    end
  else k.

(** ** Rescheduling

    [switch_context] is the assembly switch, as in [Sched]; [resume] is what
    the rest of the system does from the moment the calling thread is switched
    away from until it is switched back to. *)

Section resched.
Context (switch_context : CpuContext → CpuContext → CpuContext) (resume : Kernel D → Kernel D).

(** [on_timer_tick] and the switch that follows it in every blocking call. *)
Definition reschedule k : Kernel D :=
  let '(s, ths, (prev, next)) := on_timer_tick (k_sched k) (k_threads k) in
  let k := set_k_sched k s ths in
  match prev, next with
  | Some prev_id, Some next_id =>
      if negb (prev_id =? next_id) then
        let '(cpu, ths) := perform_context_switch switch_context (k_cpu k) (k_threads k) prev_id next_id in
        resume (set_k_cpu k cpu ths)
      else k
  | _, _ => k
  end.
End resched.

Definition set_thread_state_k k (tid : Z) (st : ThreadState) : Kernel D :=
  set_k_threads k (set_thread_state (k_threads k) tid st).1.
End kernel.

(** ** User memory

    The processor's translation of the addresses that the kernel reads and
    writes on behalf of a caller; [None] is a page fault. *)
Class Mmu := {
  user_read : Vm → Z → Z → option (list Z);
  user_write : Vm → Z → list Z → option Vm;
}.

(** Words as the little-endian bytes that a store of a [u64] leaves. *)
Definition words_bytes (ws : list Z) : list Z := w ← ws; le_bytes 8 w.

Definition bytes_words (n : nat) (bytes : list Z) : list Z :=
  (λ i, le_value (take 8 (drop (8 * i) bytes))) <$> seq 0 n.
