(* ===== verification/KernelSafety.v ===== *)
(** * The kernel invariant

    The invariants of the components, together, over the one thread list they
    share: capability operations leave thread states alone, scheduling leaves
    capability tables alone, and the glue of [Kernel.v] keeps all of them. *)

From S2P Require Import Prelude Cap Thread CapManager CapSafety Sched Ipc IpcSafety Pmm Vm AddrSpace SharedMem.
From S2P Require Import Exec Input InputSafety Graphics Kernel.

(** ** Two views of a thread list *)

Definition same_states (ths ths' : list Thread) : Prop :=
  ∀ id, th_state <$> lookup_thread ths' id = th_state <$> lookup_thread ths id.
Definition same_tables (ths ths' : list Thread) : Prop :=
  ∀ id, th_capability_table <$> lookup_thread ths' id = th_capability_table <$> lookup_thread ths id.

#[export] Instance same_states_preorder : PreOrder same_states.
Proof. split; [done|]. intros a b c H1 H2 id. by rewrite H2, H1. Qed.
#[export] Instance same_tables_preorder : PreOrder same_tables.
Proof. split; [done|]. intros a b c H1 H2 id. by rewrite H2, H1. Qed.

Create HintDb views discriminated.

Lemma same_states_update ths id f :
  (∀ t, th_id (f t) = th_id t) → (∀ t, th_state (f t) = th_state t) →
  same_states ths (update_first (has_id id) f ths).
Proof.
  intros Hid Hst id'. rewrite lookup_update_thread by done. case_decide; [|done].
  destruct (lookup_thread ths id'); [|done]. cbn. by rewrite Hst.
Qed.

Lemma same_tables_update ths id f :
  (∀ t, th_id (f t) = th_id t) → (∀ t, th_capability_table (f t) = th_capability_table t) →
  same_tables ths (update_first (has_id id) f ths).
Proof.
  intros Hid Hst id'. rewrite lookup_update_thread by done. case_decide; [|done].
  destruct (lookup_thread ths id'); [|done]. cbn. by rewrite Hst.
Qed.

Lemma add_cap_states ths tid cap ths' r : add_thread_capability ths tid cap = (ths', r) → same_states ths ths'.
Proof.
  unfold add_thread_capability. repeat case_match; intros [= <- <-]; try done. by apply same_states_update.
Qed.

Lemma remove_cap_states ths tid h ths' r : remove_thread_capability ths tid h = (ths', r) → same_states ths ths'.
Proof.
  unfold remove_thread_capability. repeat case_match; intros [= <- <-]; try done. by apply same_states_update.
Qed.

Lemma set_state_tables ths tid st ths' r : set_thread_state ths tid st = (ths', r) → same_tables ths ths'.
Proof.
  unfold set_thread_state. case_match; intros [= <- <-]; [|done]. by apply same_tables_update.
Qed.

#[export] Hint Resolve add_cap_states remove_cap_states set_state_tables : views.
#[export] Hint Extern 2 (same_states ?a ?a) => reflexivity : views.
#[export] Hint Extern 2 (same_tables ?a ?a) => reflexivity : views.

(** Walk down a computation, one branch at a time. *)
Ltac branches :=
  repeat match goal with
  | |- match ?x with _ => _ end = _ → _ => destruct x eqn:?
  | |- (let '(_, _) := ?x in _) = _ → _ => destruct x eqn:?
  end.

Lemma derive_states now cm ths ph o n perms cm' ths' r :
  derive_capability now cm ths ph o n perms = ((cm', ths'), r) → same_states ths ths'.
Proof. unfold derive_capability. cbv zeta. branches; intros [= <- <- <-]; eauto with views. Qed.

Lemma transfer_states now cm ths h src dst cm' ths' r :
  transfer_capability now cm ths h src dst = ((cm', ths'), r) → same_states ths ths'.
Proof.
  unfold transfer_capability. cbv zeta. branches; intros [= <- <- <-]; eauto with views.
  all: etrans; eauto with views.
Qed.

Lemma revoke_fuel_states fuel now revoker handle st st' r :
  revoke_fuel fuel now revoker handle st = Some (st', r) → same_states st.2 st'.2.
Proof.
  revert handle st st' r. induction fuel as [|fuel IH]; intros handle st st' r; [done|]. cbn [revoke_fuel].
  destruct (global_caps st.1 !! handle) as [cap|]; [|by intros [= <- <-]].
  destruct (revoke_children _ _ _ _) as [[st1 revoked]|] eqn:E; [|done]. intros [= <- <-].
  assert (same_states st.2 (revoke_one now revoker handle cap st).2) as H0.
  { unfold revoke_one. destruct st as [cm ths]. destruct (remove_thread_capability _ _ _) eqn:Er. cbn. eauto with views. }
  etrans; [exact H0|]. revert E. generalize (revoke_one now revoker handle cap st) as st2. clear H0 st.
  generalize [handle] as acc. induction (cap_children cap) as [|c cs IHc]; intros acc st2; cbn [revoke_children].
  { by intros [= <- <-]. }
  destruct (revoke_fuel fuel now revoker c st2) as [[st3 [l|e]]|] eqn:E3; [..|done];
    (intros E; etrans; [by eapply IH|by eapply IHc]).
Qed.

Lemma revoke_states now cm ths h revoker st' r :
  revoke_capability now cm ths h revoker = Some (st', r) → same_states ths st'.2.
Proof. apply revoke_fuel_states. Qed.

Lemma apply_switch_tables s ths prev next s' ths' r :
  apply_switch_with_previous s ths prev next = (s', ths', r) → same_tables ths ths'.
Proof.
  unfold apply_switch_with_previous. cbv zeta.
  assert (same_tables ths (match prev with Some prev0 => if bool_decide (Some prev0 = choose s prev next) then ths
    else (set_thread_state ths prev0 Ready).1 | None => ths end)) as H.
  { repeat case_match; try done. destruct (set_thread_state ths _ Ready) eqn:E. cbn. eauto with views. }
  destruct (choose s prev next); intros [= <- <- <-]; [|done]. etrans; [exact H|].
  destruct (set_thread_state _ _ Running) eqn:E. cbn. eauto with views.
Qed.

Lemma on_timer_tick_tables s ths s' ths' r : on_timer_tick s ths = (s', ths', r) → same_tables ths ths'.
Proof.
  unfold on_timer_tick. case_match; [by intros [= <- <- <-]|]. destruct (tick_select s) as [[s1 prev] next].
  destruct (apply_switch_with_previous s1 ths prev next) as [[s2 ths2] chosen] eqn:E. intros [= <- <- <-].
  by eapply apply_switch_tables.
Qed.

Lemma wake_tables s ths tid s' ths' : wake s ths tid = (s', ths') → same_tables ths ths'.
Proof.
  unfold wake, mark_thread_ready. cbv zeta. destruct (set_thread_state ths tid Ready) as [ths1 b] eqn:E.
  intros [= <- <-]. eauto with views.
Qed.

Lemma wake_sched s ths tid s' ths' : wake s ths tid = (s', ths') → sched_wf (s, ths) → sched_wf (s', ths').
Proof.
  unfold wake. destruct (mark_thread_ready s ths tid) as [s1 ths1] eqn:E. intros [= <- <-] Hwf.
  eapply sched_step_wf; [apply ss_restore|]. eapply sched_step_wf; [by eapply ss_ready|done].
Qed.

Lemma switch_views f cpu ths from to cpu' ths' :
  perform_context_switch f cpu ths from to = (cpu', ths') → same_states ths ths' ∧ same_tables ths ths'.
Proof.
  unfold perform_context_switch, with_contexts. cbv zeta.
  destruct (lookup_thread ths from); [|by intros [= <- <-]]. destruct (lookup_thread ths to); [|by intros [= <- <-]].
  intros E. simplify_eq/=. split; [by apply same_states_update|by apply same_tables_update].
Qed.

(** ** The views carry the invariants *)

Lemma sched_wf_states s ths ths' : same_states ths ths' → sched_wf (s, ths) → sched_wf (s, ths').
Proof.
  intros Hs [H1 H2 H3 H4 H5]. split; try done. cbn [fst snd] in *. intros id t Ht Hr. specialize (Hs id). rewrite Ht in Hs.
  destruct (lookup_thread ths id) as [t0|] eqn:E; [|done]. cbn in Hs. injection Hs as Hs. eapply H2; [done|congruence].
Qed.

Lemma thread_cap_tables ths ths' t h : same_tables ths ths' → thread_cap ths' t h = thread_cap ths t h.
Proof.
  intros Hs. unfold thread_cap. specialize (Hs t). destruct (lookup_thread ths' t), (lookup_thread ths t); cbn in *; try done.
  by injection Hs as ->.
Qed.

Lemma cap_wf_tables cm ths ths' : same_tables ths ths' → cap_wf (cm, ths) → cap_wf (cm, ths').
Proof. intros Hs Hwf. eapply cap_wf_ext; [done..|]. intros t h c. by rewrite (thread_cap_tables _ _ _ _ Hs). Qed.

Definition fresh_above (next : Z) (ths : list Thread) : Prop := ∀ id, is_Some (lookup_thread ths id) → id < next.

Lemma fresh_states next ths ths' : same_states ths ths' → fresh_above next ths → fresh_above next ths'.
Proof.
  intros Hs Hf id [t Ht]. apply Hf. specialize (Hs id). rewrite Ht in Hs. destruct (lookup_thread ths id); [by eexists|done].
Qed.

Lemma fresh_tables next ths ths' : same_tables ths ths' → fresh_above next ths → fresh_above next ths'.
Proof.
  intros Hs Hf id [t Ht]. apply Hf. specialize (Hs id). rewrite Ht in Hs. destruct (lookup_thread ths id); [by eexists|done].
Qed.

(** ** The invariant *)

Section kernel.
Context {D : Type}.
Implicit Types (k : Kernel D).

Record kernel_wf k : Prop := {
  kw_caps : cap_wf (k_caps k, k_threads k);
  kw_sched : sched_wf (k_sched k, k_threads k);
  kw_ipc : ipc_wf (k_ipc k);
  kw_next_tid : 0 ≤ k_next_tid k ≤ U64_MAX;
  kw_tids : fresh_above (k_next_tid k) (k_threads k);
  kw_irq : ∀ irq h, k_irq k !! irq = Some h → irq ∈ ALLOWED_IRQS;
  kw_keyboard : ring_wf KEYBOARD_BUFFER_SIZE (k_keyboard k);
  kw_mouse : ring_wf MOUSE_BUFFER_SIZE (k_mouse k);
}.

(** What is not part of the invariant does not matter. *)
Lemma kernel_wf_same k k' :
  k_caps k' = k_caps k → k_threads k' = k_threads k → k_sched k' = k_sched k → k_ipc k' = k_ipc k →
  k_next_tid k' = k_next_tid k → k_irq k' = k_irq k → k_keyboard k' = k_keyboard k → k_mouse k' = k_mouse k →
  kernel_wf k → kernel_wf k'.
Proof. intros E1 E2 E3 E4 E5 E6 E7 E8 []. split; by rewrite ?E1, ?E2, ?E3, ?E4, ?E5, ?E6, ?E7, ?E8. Qed.

Lemma wf_set_vm k v : kernel_wf k → kernel_wf (set_k_vm k v).
Proof. by apply kernel_wf_same. Qed.
Lemma wf_set_as k m : kernel_wf k → kernel_wf (set_k_as k m).
Proof. by apply kernel_wf_same. Qed.
Lemma wf_set_shm k m : kernel_wf k → kernel_wf (set_k_shm k m).
Proof. by apply kernel_wf_same. Qed.
Lemma wf_set_dev k d : kernel_wf k → kernel_wf (set_k_dev k d).
Proof. by apply kernel_wf_same. Qed.
Lemma wf_set_policy k p : kernel_wf k → kernel_wf (set_k_policy k p).
Proof. by apply kernel_wf_same. Qed.
Lemma wf_set_counts k c : kernel_wf k → kernel_wf (set_k_counts k c).
Proof. by apply kernel_wf_same. Qed.

Lemma wf_set_ipc k m : ipc_wf m → kernel_wf k → kernel_wf (set_k_ipc k m).
Proof. by intros ? []. Qed.

Lemma wf_set_irq k h :
  (∀ irq x, h !! irq = Some x → irq ∈ ALLOWED_IRQS) → kernel_wf k → kernel_wf (set_k_irq k h).
Proof. by intros ? []. Qed.

Lemma wf_set_keyboard k b : ring_wf KEYBOARD_BUFFER_SIZE b → kernel_wf k → kernel_wf (set_k_keyboard k b).
Proof. by intros ? []. Qed.
Lemma wf_set_mouse k b : ring_wf MOUSE_BUFFER_SIZE b → kernel_wf k → kernel_wf (set_k_mouse k b).
Proof. by intros ? []. Qed.

Lemma wf_set_caps k cm ths :
  cap_wf (cm, ths) → same_states (k_threads k) ths → kernel_wf k → kernel_wf (set_k_caps k cm ths).
Proof.
  intros Hc Hs []. split; try done; cbn [set_k_caps k_sched k_threads k_next_tid].
  - by eapply sched_wf_states.
  - by eapply fresh_states.
Qed.

Lemma wf_set_sched k s ths :
  sched_wf (s, ths) → same_tables (k_threads k) ths → kernel_wf k → kernel_wf (set_k_sched k s ths).
Proof.
  intros Hc Hs []. split; try done; cbn [set_k_sched k_caps k_threads k_next_tid].
  - by eapply cap_wf_tables.
  - by eapply fresh_tables.
Qed.

Lemma wf_set_cpu k cpu ths :
  same_states (k_threads k) ths → same_tables (k_threads k) ths → kernel_wf k → kernel_wf (set_k_cpu k cpu ths).
Proof.
  intros Hs Ht []. split; try done; cbn [set_k_cpu k_caps k_sched k_threads k_next_tid].
  - by eapply cap_wf_tables.
  - by eapply sched_wf_states.
  - by eapply fresh_states.
Qed.

Lemma wf_set_state k tid st : st ≠ Running → kernel_wf k → kernel_wf (set_thread_state_k k tid st).
Proof.
  intros Hst Hwf. unfold set_thread_state_k. destruct (set_thread_state (k_threads k) tid st) as [ths b] eqn:E. cbn [fst].
  pose proof (set_state_tables _ _ _ _ _ E) as Ht. destruct Hwf as [Hc Hs]. split; try done; cbn [set_k_threads k_caps k_sched k_threads k_next_tid].
  - by eapply cap_wf_tables.
  - pose proof (sched_step_wf _ _ (ss_state (k_sched k) (k_threads k) tid st Hst) Hs) as H. by rewrite E in H.
  - by eapply fresh_tables.
Qed.

(** A new thread under the next identifier, however the scheduler takes it. *)
Lemma wf_new_thread k v t s ths :
  kernel_wf k → k_next_tid k < U64_MAX → th_id t = k_next_tid k → th_capability_table t = CapabilityTable_new (th_id t) →
  sched_wf (s, ths) → same_tables (add_thread (k_threads k) t) ths →
  kernel_wf (set_k_sched (set_k_next_tid (set_k_vm k v) (wrap64 (k_next_tid k + 1))) s ths).
Proof.
  intros Hwf Hlt Hid Htab Hs Hv. pose proof (kw_next_tid _ Hwf).
  pose proof (cap_step_wf _ _ (step_spawn (k_caps k) (k_threads k) t Htab) (kw_caps _ Hwf)) as Hc.
  assert (fresh_above (k_next_tid k + 1) (add_thread (k_threads k) t)) as Hf.
  { intros id [t' Ht]. rewrite lookup_add_thread in Ht. destruct (lookup_thread (k_threads k) id) eqn:El.
    - assert (id < k_next_tid k) by (apply (kw_tids _ Hwf); by eexists). lia.
    - case_decide as Hi; [|done]. subst id. lia. }
  destruct Hwf. split; try done; cbn [set_k_sched k_next_tid k_threads k_caps set_k_next_tid set_k_vm];
    rewrite ?wrap_succ64 by lia; [by eapply cap_wf_tables|lia|by eapply fresh_tables].
Qed.

Lemma next_tid_free k : kernel_wf k → lookup_thread (k_threads k) (k_next_tid k) = None.
Proof.
  intros Hwf. destruct (lookup_thread _ _) eqn:El; [|done].
  assert (k_next_tid k < k_next_tid k) by (apply (kw_tids _ Hwf); by eexists). lia.
Qed.

Lemma wf_ring_pop_keyboard k : kernel_wf k → ring_wf KEYBOARD_BUFFER_SIZE (poll_keyboard_byte (k_keyboard k)).1.
Proof. intros []. by apply ring_pop_spec. Qed.
Lemma wf_ring_pop_mouse k : kernel_wf k → ring_wf MOUSE_BUFFER_SIZE (poll_mouse_byte (k_mouse k)).1.
Proof. intros []. by apply ring_pop_spec. Qed.

(** Interrupt notifications and counts keep it. *)
Lemma wf_notify_irq k irq : kernel_wf k → kernel_wf (notify_irq_handler k irq).
Proof.
  intros Hwf. unfold notify_irq_handler. destruct (k_irq k !! irq) as [[o p]|]; [|done]. cbv zeta.
  apply wf_set_ipc; [|done]. apply ipc_wf_send, Hwf.
Qed.

Lemma handle_timeouts_views m s ths ticks m' s' ths' :
  handle_timeouts m s ths ticks = (m', s', ths') →
  same_tables ths ths' ∧ (sched_wf (s, ths) → sched_wf (s', ths')).
Proof.
  unfold handle_timeouts. cbv zeta. destruct (expired_waiters m ticks) as [|e l]; [by intros [= <- <- <-]|].
  destruct (foldl _ _ _) as [s1 ths1] eqn:E. intros [= <- <- <-].
  assert (∀ l s ths, let st := foldl (λ st e, wake st.1 st.2 e.1) (s, ths) (l : list (Z * Z)) in
    same_tables ths st.2 ∧ (sched_wf (s, ths) → sched_wf (st.1, st.2))) as Hl.
  { clear. induction l as [|e l IH]; intros s ths; [done|]. cbn [foldl fst snd].
    destruct (wake s ths e.1) as [s1 ths1] eqn:E. destruct (IH s1 ths1) as [Ht Hs]. split.
    - etrans; [by eapply wake_tables|done].
    - intros H. by eapply Hs, wake_sched. }
  specialize (Hl (e :: l) s ths). rewrite E in Hl. exact Hl.
Qed.

Lemma wf_timer k : kernel_wf k → kernel_wf (timer_interrupt_handler k).
Proof.
  intros Hwf. unfold timer_interrupt_handler. cbv zeta.
  assert (kernel_wf (set_k_ticks k (wrap64 (k_ticks k + 1)))) as H1 by (by apply (kernel_wf_same k)).
  pose proof (ipc_wf_timeouts (k_ipc k) (k_sched k) (k_threads k) (wrap64 (k_ticks k + 1)) (kw_ipc _ Hwf)) as Hi.
  cbn [set_k_ticks k_ipc k_sched k_threads k_ticks].
  destruct (handle_timeouts _ _ _ _) as [[ipc s] ths] eqn:E. cbn [fst] in Hi.
  apply handle_timeouts_views in E as [Ht Hs]. apply wf_set_sched; [apply Hs, Hwf|done|by apply wf_set_ipc].
Qed.

Lemma wf_page_fault k cr2 err rip : kernel_wf k → kernel_wf (page_fault_exception k cr2 err rip).
Proof.
  intros Hwf. unfold page_fault_exception. case_match; [|done]. destruct (current (k_sched k)) as [tid|]; [|done].
  apply wf_set_ipc; [|done]. unfold notify_page_fault. destruct (k_policy k) as [port|]; [|apply Hwf]. cbv zeta.
  pose proof (ipc_wf_send (region_size k) (k_ticks k) (k_ipc k) port
    (Message_new (k_ticks k) tid MSG_TYPE_PAGE_FAULT (page_fault_payload tid cr2 err rip)) (kw_ipc _ Hwf)) as Hi.
  destruct (send_message _ _ _ _ _) as [ipc [?|?]]; exact Hi.
Qed.

Lemma irq_ring_wf {ps2 : Ps2 D} fuel (d : D) buf d' buf' :
  (on_keyboard_irq fuel d buf = Some (d', buf') → ring_wf KEYBOARD_BUFFER_SIZE buf → ring_wf KEYBOARD_BUFFER_SIZE buf') ∧
  (on_mouse_irq fuel d buf = Some (d', buf') → ring_wf MOUSE_BUFFER_SIZE buf → ring_wf MOUSE_BUFFER_SIZE buf').
Proof.
  revert d buf. induction fuel as [|fuel IH]; intros d buf; [done|]. split.
  - cbn [on_keyboard_irq]. destruct (in_status d) as [d1 s1]. case_match; [by intros [= <- <-]|].
    destruct (in_status d1) as [d2 s2]. case_match; [by intros [= <- <-]|]. destruct (in_data d2) as [d3 b].
    intros E Hwf. eapply (IH d3); [done|]. by apply ring_push_spec.
  - cbn [on_mouse_irq]. destruct (in_status d) as [d1 s1]. cbv zeta. case_match; [by intros [= <- <-]|].
    destruct (in_data d1) as [d3 b]. intros E Hwf. eapply (IH d3); [done|]. by apply ring_push_spec.
Qed.

Lemma wf_irqs {ps2 : Ps2 D} fuel k k' :
  kernel_wf k → keyboard_interrupt_handler fuel k = Some k' ∨ mouse_interrupt_handler fuel k = Some k' → kernel_wf k'.
Proof.
  intros Hwf. unfold keyboard_interrupt_handler, mouse_interrupt_handler.
  assert (∀ k0 irq, kernel_wf k0 → kernel_wf (if has_userspace_irq_handler k0 irq then notify_irq_handler k0 irq else k0)) as Hn.
  { intros k0 irq H. case_match; [by apply wf_notify_irq|done]. }
  intros [E|E].
  - destruct (on_keyboard_irq _ _ _) as [[d buf]|] eqn:Ei; [|done]. injection E as <-. cbv zeta.
    apply Hn, wf_set_keyboard; [|by apply wf_set_dev]. eapply irq_ring_wf; [done|apply Hwf].
  - destruct (on_mouse_irq _ _ _) as [[d buf]|] eqn:Ei; [|done]. injection E as <-. cbv zeta.
    apply Hn, wf_set_mouse; [|by apply wf_set_dev]. eapply irq_ring_wf; [done|apply Hwf].
Qed.

(** Switching away and back: the rest of the system keeps the invariant. *)
Lemma wf_reschedule switch_context resume k :
  (∀ k, kernel_wf k → kernel_wf (resume k)) → kernel_wf k → kernel_wf (reschedule switch_context resume k).
Proof.
  intros Hres Hwf. unfold reschedule. destruct (on_timer_tick _ _) as [[s ths] [prev next]] eqn:E.
  assert (kernel_wf (set_k_sched k s ths)) as H1.
  { apply wf_set_sched; [|by eapply on_timer_tick_tables|done]. eapply sched_step_wf; [by eapply ss_tick|apply Hwf]. }
  destruct prev as [p|]; [|done]. destruct next as [n|]; [|done]. destruct (negb (p =? n)); [|done].
  destruct (perform_context_switch _ _ _ _ _) as [cpu ths2] eqn:E2.
  apply switch_views in E2 as [Hs Ht]. by apply Hres, wf_set_cpu.
Qed.
End kernel.

Create HintDb kwf discriminated.
#[export] Hint Resolve wf_set_vm wf_set_as wf_set_shm wf_set_dev wf_set_policy wf_set_counts : kwf.
