(* ===== verification/Syscall.v ===== *)
(** * System calls ([syscall/mod.rs])

    The dispatcher and its forty-five handlers as functions on the kernel
    state of [Kernel.v].  A call returns a value, faults on a user address, or
    (the waiting loop of [sys_ipc_wait_any]) runs out of fuel. *)

From S2P Require Import Prelude Cap Thread CapManager Sched Ipc Pmm Vm AddrSpace SharedMem Exec Input Graphics Kernel.

(** ** Numbers and error codes *)

Definition SYS_THREAD_YIELD : Z := 0.
Definition SYS_THREAD_EXIT : Z := 1.
Definition SYS_THREAD_SLEEP : Z := 2.
Definition SYS_THREAD_CREATE : Z := 3.
Definition SYS_IPC_CREATE_PORT : Z := 4.
Definition SYS_IPC_CLOSE_PORT : Z := 5.
Definition SYS_IPC_SEND : Z := 6.
Definition SYS_IPC_RECV : Z := 7.
Definition SYS_CAP_CREATE : Z := 8.
Definition SYS_CAP_CHECK : Z := 9.
Definition SYS_CAP_REVOKE : Z := 10.
Definition SYS_CAP_DERIVE : Z := 11.
Definition SYS_CAP_LIST : Z := 12.
Definition SYS_CAP_TRANSFER : Z := 13.
Definition SYS_IPC_SEND_WITH_CAP : Z := 14.
Definition SYS_CAP_QUERY_PARENT : Z := 15.
Definition SYS_CAP_QUERY_CHILDREN : Z := 16.
Definition SYS_SHARED_REGION_CREATE : Z := 17.
Definition SYS_SHARED_REGION_MAP : Z := 18.
Definition SYS_SHARED_REGION_UNMAP : Z := 19.
Definition SYS_SHARED_REGION_DESTROY : Z := 20.
Definition SYS_IPC_SEND_BATCH : Z := 21.
Definition SYS_IPC_RECV_BATCH : Z := 22.
Definition SYS_IPC_SEND_ASYNC : Z := 23.
Definition SYS_IPC_TRY_RECV : Z := 24.
Definition SYS_IPC_TRACE_READ : Z := 25.
Definition SYS_IPC_PORT_STATS : Z := 26.
Definition SYS_ADDRSPACE_CREATE : Z := 27.
Definition SYS_ADDRSPACE_DESTROY : Z := 28.
Definition SYS_MAP_REGION : Z := 29.
Definition SYS_UNMAP_REGION : Z := 30.
Definition SYS_REMAP_REGION : Z := 31.
Definition SYS_REGISTER_FAULT_HANDLER : Z := 32.
Definition SYS_MOUSE_POLL : Z := 33.
Definition SYS_IO_PORT_READ : Z := 34.
Definition SYS_IO_PORT_WRITE : Z := 35.
Definition SYS_KEYBOARD_POLL : Z := 36.
Definition SYS_GET_FRAMEBUFFER : Z := 37.
Definition SYS_GET_TICKS : Z := 38.
Definition SYS_DEBUG_LOG : Z := 39.
Definition SYS_REGISTER_IRQ_HANDLER : Z := 40.
Definition SYS_MAP_FRAMEBUFFER : Z := 41.
Definition SYS_UNREGISTER_IRQ_HANDLER : Z := 42.
Definition SYS_IPC_WAIT_ANY : Z := 43.
Definition SYS_GET_IRQ_COUNT : Z := 44.

Definition ESUCCESS : Z := 0.
Definition EINVAL : Z := U64_MAX - 1.
Definition ENOSYS : Z := U64_MAX - 2.
Definition ENOMEM : Z := U64_MAX - 3.
Definition EPERM : Z := U64_MAX - 4.
Definition EBUSY : Z := U64_MAX - 5.
Definition EMSGSIZE : Z := U64_MAX - 6.
Definition ETIMEDOUT : Z := U64_MAX - 7.
Definition EWOULDBLOCK : Z := U64_MAX - 8.
Definition EDEADLK : Z := U64_MAX - 9.

(** What a call does: return, fault on a user address, or wait longer than the
    fuel allows. *)
Inductive outcome (D : Type) :=
| Return (k : Kernel D) (v : Z)
| PageFault
| OutOfFuel.
#[global] Arguments Return {D} k v.
#[global] Arguments PageFault {D}.
#[global] Arguments OutOfFuel {D}.

Definition is_memory_region (virt : Z) (r : ResourceType) : bool :=
  match r with RMemoryRegion v _ _ => v =? virt | _ => false end.
Definition is_exact_region (virt phys size : Z) (r : ResourceType) : bool :=
  match r with RMemoryRegion v p s => (v =? virt) && (p =? phys) && (s =? size) | _ => false end.
Definition is_thread_resource (r : ResourceType) : bool := match r with RThread _ => true | _ => false end.
Definition is_port_resource (port : Z) (r : ResourceType) : bool :=
  match r with RIpcPort id => id =? port | _ => false end.

(** [pmm::alloc_pages] on the state, and replacing the memory. *)
Definition vm_alloc_pages (s : Vm) (count : Z) : Vm * option Z :=
  let '(p, r) := alloc_pages (vm_pmm s) count in
  (mkVm p (vm_mem s) (active_pml4 s) (mapped_pages s) (page_table_pages s) (invlpg s), r).

Definition vm_set_mem (s : Vm) (m : Memory) : Vm :=
  mkVm (vm_pmm s) m (active_pml4 s) (mapped_pages s) (page_table_pages s) (invlpg s).

(** [IpcEventKind::as_u64] *)
Definition event_kind (e : IpcEventKind) : Z := match e with EvSend => 0 | EvReceive => 1 end.

(** [RawIpcTraceEvent::from] and [RawIpcPortStats::from], as words. *)
Definition raw_event (e : IpcTraceEvent) : list Z :=
  [ev_timestamp_ms e; event_kind (ev_kind e); ev_port e; ev_sender e; default 0 (ev_receiver e); ev_size e].

Definition raw_stats (s : IpcPortStats) : list Z :=
  [st_messages_sent s; st_messages_received s; st_bytes_sent s; st_bytes_received s; st_min_latency_ms s;
   st_max_latency_ms s; st_avg_latency_ms s; st_messages_per_second s].

(** Error codes of the managers. *)
Definition send_error (e : IpcError) : Z :=
  match e with InvalidPort => EINVAL | MessageTooLarge => EMSGSIZE | _ => EINVAL end.
Definition shm_create_error (e : SharedMemError) : Z :=
  match e with ShInvalidSize => EINVAL | ShOutOfMemory => ENOMEM | _ => EINVAL end.
Definition shm_map_error (e : SharedMemError) : Z :=
  match e with ShAlreadyMapped => EBUSY | ShOutOfMemory => ENOMEM | _ => EINVAL end.
Definition shm_destroy_error (e : SharedMemError) : Z :=
  match e with ShPermissionDenied => EPERM | ShRegionInUse => EBUSY | _ => EINVAL end.
Definition as_map_error (e : AddressSpaceError) : Z :=
  match e with AsOutOfMemory => ENOMEM | AsPermissionDenied => EPERM | _ => EINVAL end.
Definition as_destroy_error (e : AddressSpaceError) : Z :=
  match e with AsPermissionDenied => EPERM | AsInUse => EBUSY | _ => EINVAL end.
Definition as_unmap_error (e : AddressSpaceError) : Z :=
  match e with AsPermissionDenied => EPERM | _ => EINVAL end.
Definition as_remap_error (e : AddressSpaceError) : Z :=
  match e with AsPermissionDenied => EPERM | AsKernelSpaceViolation => EPERM | _ => EINVAL end.
Definition cap_error (e : CapError) : Z :=
  match e with CapNotOwner => EPERM | CapPermissionDenied => EPERM | _ => EINVAL end.

Section syscalls.
Context {D : Type} {ps2 : Ps2 D} {mmu : Mmu}.
Context (switch_context : CpuContext → CpuContext → CpuContext) (resume : Kernel D → Kernel D).
Implicit Types (k : Kernel D).

(** [sched::current_thread], or the early return without one. *)
Definition with_caller k (f : Z → outcome D) : outcome D :=
  match current (k_sched k) with Some tid => f tid | None => Return k EINVAL end.

(** A store to user memory, when the guard of the source lets it happen. *)
Definition copy_out k (addr : Z) (bytes : list Z) (f : Kernel D → outcome D) : outcome D :=
  match user_write (k_vm k) addr bytes with Some v => f (set_k_vm k v) | None => PageFault end.

Definition resched k : Kernel D := reschedule switch_context resume k.

(** ** Devices *)

Definition sys_mouse_poll k : outcome D :=
  match poll_mouse_byte (k_mouse k) with
  | (b, Some byte) => Return (set_k_mouse k b) byte
  | (b, None) => Return (set_k_mouse k b) EWOULDBLOCK
  end.

Definition sys_keyboard_poll k : outcome D :=
  match poll_keyboard_byte (k_keyboard k) with
  | (b, Some code) => Return (set_k_keyboard k b) code
  | (b, None) => Return (set_k_keyboard k b) EWOULDBLOCK
  end.

(** Only the two ports of the PS/2 controller are allowed. *)
Definition sys_io_port_read k (port size : Z) : outcome D :=
  if port =? 0x60 then let '(d, v) := in_data (k_dev k) in Return (set_k_dev k d) (wrap8 v)
  else if port =? 0x64 then let '(d, v) := in_status (k_dev k) in Return (set_k_dev k d) (wrap8 v)
  else Return k EPERM.

Definition sys_io_port_write k (port value : Z) : outcome D :=
  if port =? 0x60 then Return (set_k_dev k (out_data (k_dev k) value)) ESUCCESS
  else if port =? 0x64 then Return (set_k_dev k (out_status (k_dev k) value)) ESUCCESS
  else Return k EPERM.

Definition sys_get_framebuffer k (info_ptr : Z) : outcome D :=
  if info_ptr =? 0 then Return k EINVAL
  else
    match get_dimensions (k_fb k), get_framebuffer_address (k_fb k) with
    | Some (width, height), Some addr =>
        copy_out k info_ptr
          (words_bytes [addr; width; height; get_stride (k_fb k); get_bytes_per_pixel (k_fb k)])
          (λ k, Return k ESUCCESS)
    | _, _ => Return k EINVAL
    end.

Definition sys_map_framebuffer_to_user k (user_buffer : Z) : outcome D :=
  with_caller k (λ caller,
    match get_framebuffer_info (k_fb k) with
    | None => Return k EINVAL
    | Some (address, width, height, stride, bpp) =>
        let fb_size := wrap64 (wrap64 (stride * height) * bpp) in
        if negb (user_buffer =? 0) then
          copy_out k user_buffer (words_bytes [address; width; height; stride; bpp; fb_size])
            (λ k, Return k ESUCCESS)
        else Return k ESUCCESS
    end).

Definition sys_get_ticks k : outcome D := Return k (k_ticks k).

(** The text only goes to the log; reading it can fault. *)
Definition sys_debug_log k (msg_ptr len : Z) : outcome D :=
  if (msg_ptr =? 0) || (256 <? len) then Return k EINVAL
  else match user_read (k_vm k) msg_ptr len with Some _ => Return k ESUCCESS | None => PageFault end.

(** ** Threads *)

Definition sys_thread_yield k : outcome D := Return (resched k) ESUCCESS.

Definition sys_thread_exit k (exit_code : Z) : outcome D :=
  match current (k_sched k) with
  | Some tid => Return (resched (set_thread_state_k k tid Exited)) ESUCCESS
  | None => Return k ESUCCESS
  end.

Definition sys_thread_sleep k (ticks : Z) : outcome D :=
  if ticks =? 0 then sys_thread_yield k
  else
    match current (k_sched k) with
    | Some tid => Return (resched (set_thread_state_k k tid Blocked)) ESUCCESS
    | None => Return k ESUCCESS
    end.

Definition KERNEL_STACK_SIZE : Z := 16 * 1024.

Definition sys_thread_create k (entry_point stack_ptr flags : Z) : outcome D :=
  if (entry_point =? 0) || (stack_ptr =? 0) then Return k EINVAL
  else
    with_caller k (λ caller,
      if negb (validate_thread_capability_by_type (k_threads k) caller PERM_WRITE is_thread_resource) then
        Return k EPERM
      else
        match vm_alloc_pages (k_vm k) (KERNEL_STACK_SIZE / 4096) with
        | (v, None) => Return (set_k_vm k v) ENOMEM
        | (v, Some addr) =>
            let '(thread, next, mem) :=
              Thread_new (k_next_tid k) (vm_mem v) entry_point (wrap64 (addr + KERNEL_STACK_SIZE))
                KERNEL_STACK_SIZE 0 PrioNormal "user_thread" in
            let k := set_k_next_tid (set_k_vm k (vm_set_mem v mem)) next in
            let '(s, ths, id) := sched_add_thread (k_sched k) (k_threads k) thread in
            Return (set_k_sched k s ths) id
        end).

(** ** IPC *)

Definition rsize k : Z → option Z := region_size k.

Definition sys_ipc_create_port k : outcome D :=
  with_caller k (λ owner,
    let '(ipc, port_id) := create_port (k_ipc k) owner in
    let k := set_k_ipc k ipc in
    match create_root_capability (k_ticks k) (k_caps k) (RIpcPort port_id) owner (perms_union PERM_READ PERM_WRITE) with
    | (cm, Ok cap) => Return (set_k_caps k cm (add_thread_capability (k_threads k) owner cap).1) port_id
    | (cm, Err _) => Return (set_k_caps k cm (k_threads k)) port_id
    end).

Definition sys_ipc_close_port k (port_id : Z) : outcome D :=
  with_caller k (λ caller,
    match close_port (k_ipc k) port_id caller with
    | (ipc, Ok _) => Return (set_k_ipc k ipc) ESUCCESS
    | (ipc, Err IpcPermissionDenied) => Return (set_k_ipc k ipc) EPERM
    | (ipc, Err _) => Return (set_k_ipc k ipc) EINVAL
    end).

(** The payload length is checked; the message is sent without a payload. *)
Definition sys_ipc_send k (port_id msg_type payload_len timeout_ms : Z) : outcome D :=
  if MAX_MESSAGE_SIZE <? payload_len then Return k EMSGSIZE
  else
    with_caller k (λ sender,
      let message := Message_new (k_ticks k) sender (wrap32 msg_type) [] in
      match send_message (rsize k) (k_ticks k) (k_ipc k) port_id message with
      | (ipc, Ok _) => Return (set_k_ipc k ipc) ESUCCESS
      | (ipc, Err QueueFull) | (ipc, Err WouldBlock) =>
          Return (set_k_ipc k ipc) (if timeout_ms =? 0 then EWOULDBLOCK else ETIMEDOUT)
      | (ipc, Err e) => Return (set_k_ipc k ipc) (send_error e)
      end).

Definition sys_ipc_send_async k (port_id msg_type payload_ptr payload_len : Z) : outcome D :=
  if MAX_MESSAGE_SIZE <? payload_len then Return k EMSGSIZE
  else
    with_caller k (λ sender,
      let send payload :=
        let message := Message_new (k_ticks k) sender (wrap32 msg_type) payload in
        match send_message (rsize k) (k_ticks k) (k_ipc k) port_id message with
        | (ipc, Ok _) => Return (set_k_ipc k ipc) ESUCCESS
        | (ipc, Err QueueFull) | (ipc, Err WouldBlock) => Return (set_k_ipc k ipc) EWOULDBLOCK
        | (ipc, Err e) => Return (set_k_ipc k ipc) (send_error e)
        end in
      if (0 <? payload_len) && negb (payload_ptr =? 0) then
        match user_read (k_vm k) payload_ptr payload_len with
        | Some payload => send payload
        | None => PageFault
        end
      else send []).

(** The closure [copy_message]: as much of the payload as the buffer takes. *)
Definition copy_message k (buffer_ptr buffer_size : Z) (msg : Message) : outcome D :=
  let bytes_to_copy := Z.min (Z.of_nat (length (payload msg))) buffer_size in
  if negb (buffer_ptr =? 0) && (0 <? bytes_to_copy) then
    copy_out k buffer_ptr (take (Z.to_nat bytes_to_copy) (payload msg)) (λ k, Return k bytes_to_copy)
  else Return k bytes_to_copy.

Definition sys_ipc_try_recv k (port_id buffer_ptr buffer_size : Z) : outcome D :=
  with_caller k (λ caller,
    match try_recv (rsize k) (k_ticks k) (k_ipc k) port_id caller with
    | (ipc, Ok (Some msg)) => copy_message (set_k_ipc k ipc) buffer_ptr buffer_size msg
    | (ipc, Ok None) => Return (set_k_ipc k ipc) EWOULDBLOCK
    | (ipc, Err _) => Return (set_k_ipc k ipc) EINVAL
    end).

(** [(timeout_ms + 9) / 10] ticks from now. *)
Definition deadline_after k (timeout_ms : Z) : Z := wrap64 (k_ticks k + wrap64 (timeout_ms + 9) / 10).

Definition sys_ipc_recv k (port_id buffer_ptr buffer_size timeout_ms : Z) : outcome D :=
  with_caller k (λ caller,
    let priority := get_priority (k_sched k) caller in
    let deadline := if timeout_ms =? U64_MAX then None else Some (deadline_after k timeout_ms) in
    match try_recv (rsize k) (k_ticks k) (k_ipc k) port_id caller with
    | (ipc, Ok (Some msg)) => copy_message (set_k_ipc k ipc) buffer_ptr buffer_size msg
    | (ipc, Ok None) =>
        let k := set_k_ipc k ipc in
        if timeout_ms =? 0 then Return k EWOULDBLOCK
        else
          match block_recv (k_ipc k) port_id caller priority deadline with
          | (ipc, Ok _) =>
              let k := resched (set_thread_state_k (set_k_ipc k ipc) caller Blocked) in
              match try_recv (rsize k) (k_ticks k) (k_ipc k) port_id caller with
              | (ipc, Ok (Some msg)) => copy_message (set_k_ipc k ipc) buffer_ptr buffer_size msg
              | (ipc, Ok None) => Return (set_k_ipc k ipc) ETIMEDOUT
              | (ipc, Err _) => Return (set_k_ipc k ipc) EINVAL
              end
          | (ipc, Err PortBusy) => Return (set_k_ipc k ipc) EBUSY
          | (ipc, Err DeadlockDetected) => Return (set_k_ipc k ipc) EDEADLK
          | (ipc, Err _) => Return (set_k_ipc k ipc) EINVAL
          end
    | (ipc, Err _) => Return (set_k_ipc k ipc) EINVAL
    end).

Definition sys_ipc_trace_read k (buffer_ptr max_events : Z) : outcome D :=
  if max_events =? 0 then Return k 0
  else
    let events := get_trace_events (k_ipc k) (Z.to_nat max_events) in
    let available := Z.of_nat (length events) in
    if negb (buffer_ptr =? 0) then
      let to_copy := Z.min available max_events in
      copy_out k buffer_ptr (words_bytes (mjoin (raw_event <$> take (Z.to_nat to_copy) events)))
        (λ k, Return k available)
    else Return k available.

Definition sys_ipc_port_stats k (port_id stats_ptr : Z) : outcome D :=
  match port_stats (k_ipc k) port_id with
  | Ok stats =>
      if negb (stats_ptr =? 0) then
        copy_out k stats_ptr (words_bytes (raw_stats stats)) (λ k, Return k ESUCCESS)
      else Return k ESUCCESS
  | Err _ => Return k EINVAL
  end.

(** The batch is made up by the kernel: message [i] has type [i] and the one
    byte [i]; [messages_ptr] is not read. *)
Definition batch_messages k (sender count : Z) : list Message :=
  (λ i, Message_new (k_ticks k) sender (wrap32 i) [wrap8 i]) <$> seqZ 0 count.

Definition sys_ipc_send_batch k (port_id messages_ptr count : Z) : outcome D :=
  if count =? 0 then Return k ESUCCESS
  else if Z.of_nat MAX_BATCH_SIZE <? count then Return k EINVAL
  else
    with_caller k (λ sender,
      let '(ipc, s, ths, r) :=
        send_batch (rsize k) (k_ticks k) (k_ipc k) (k_sched k) (k_threads k) port_id (batch_messages k sender count) in
      let k := set_k_sched (set_k_ipc k ipc) s ths in
      match r with
      | Ok sent => Return k (Z.of_nat sent)
      | Err QueueFull => Return k EWOULDBLOCK
      | Err _ => Return k EINVAL
      end).

(** The received messages are dropped; only their number is returned. *)
Definition sys_ipc_recv_batch k (port_id buffer_ptr max_count : Z) : outcome D :=
  if max_count =? 0 then Return k 0
  else if Z.of_nat MAX_BATCH_SIZE <? max_count then Return k EINVAL
  else
    with_caller k (λ caller,
      match recv_batch (rsize k) (k_ticks k) (k_ipc k) port_id caller (Z.to_nat max_count) with
      | (ipc, Ok messages) => Return (set_k_ipc k ipc) (Z.of_nat (length messages))
      | (ipc, Err _) => Return (set_k_ipc k ipc) EINVAL
      end).

Definition sys_ipc_send_with_cap k (port_id msg_type payload_len cap_handle mode_or_perms : Z) : outcome D :=
  if MAX_MESSAGE_SIZE <? payload_len then Return k EMSGSIZE
  else
    with_caller k (λ sender,
      let ths := k_threads k in
      if negb (validate_thread_capability_by_type ths sender PERM_WRITE (is_port_resource port_id)) then Return k EPERM
      else if negb (thread_has_capability ths sender cap_handle) then Return k EPERM
      else if negb (validate_thread_capability_by_type ths sender PERM_GRANT (λ _, true)) then Return k EPERM
      else
        let message :=
          if negb (Z.shiftr mode_or_perms 32 =? 0) then
            new_with_move (k_ticks k) sender (wrap32 msg_type) [] cap_handle
          else
            new_with_grant (k_ticks k) sender (wrap32 msg_type) [] cap_handle (perms_from_bits (wrap32 mode_or_perms)) in
        match send_message (rsize k) (k_ticks k) (k_ipc k) port_id message with
        | (ipc, Ok _) => Return (set_k_ipc k ipc) ESUCCESS
        | (ipc, Err e) => Return (set_k_ipc k ipc) (send_error e)
        end).

(** One pass of [sys_ipc_wait_any] over the ports: the first message found is
    taken and dropped. *)
Fixpoint scan_ports (caller : Z) (idx : Z) (ports : list Z) k : Kernel D * option Z :=
  match ports with
  | [] => (k, None)
  | port :: ports =>
      match try_recv (rsize k) (k_ticks k) (k_ipc k) port caller with
      | (ipc, Ok (Some _)) => (set_k_ipc k ipc, Some idx)
      | (ipc, _) => scan_ports caller (idx + 1) ports (set_k_ipc k ipc)
      end
  end.

Fixpoint wait_any_loop (fuel : nat) (caller : Z) (ports : list Z) (deadline : option Z) (timeout_ms : Z) k
    : outcome D :=
  match fuel with
  | O => OutOfFuel
  | S fuel =>
      match scan_ports caller 0 ports k with
      | (k, Some idx) => Return k idx
      | (k, None) =>
          let expired := match deadline with Some d => d <=? k_ticks k | None => false end in
          if expired then Return k (if timeout_ms =? 0 then EWOULDBLOCK else ETIMEDOUT)
          else
            let k := resched (set_thread_state_k k caller Blocked) in
            wait_any_loop fuel caller ports deadline timeout_ms (set_thread_state_k k caller Ready)
      end
  end.

Definition sys_ipc_wait_any (fuel : nat) k (ports_ptr count timeout_ms : Z) : outcome D :=
  if (count =? 0) || (64 <? count) then Return k EINVAL
  else
    with_caller k (λ caller,
      match user_read (k_vm k) ports_ptr (8 * count) with
      | None => PageFault
      | Some bytes =>
          let ports := bytes_words (Z.to_nat count) bytes in
          let deadline :=
            if timeout_ms =? U64_MAX then None
            else if timeout_ms =? 0 then Some (k_ticks k)
            else Some (deadline_after k timeout_ms) in
          wait_any_loop fuel caller ports deadline timeout_ms k
      end).

(** ** Capabilities *)

Definition cap_create_resource (resource_type resource_id : Z) : result ResourceType Z :=
  if resource_type =? 0 then Ok (RThread resource_id)
  else if resource_type =? 2 then Ok (RIpcPort resource_id)
  else if resource_type =? 3 then
    if 255 <? resource_id then Err EINVAL else Ok (RIrq (wrap8 resource_id))
  else Err ENOSYS.

Definition sys_cap_create k (resource_type resource_id permissions : Z) : outcome D :=
  with_caller k (λ caller,
    match cap_create_resource resource_type resource_id with
    | Err code => Return k code
    | Ok resource =>
        let perms := perms_from_bits (wrap32 permissions) in
        match create_root_capability (k_ticks k) (k_caps k) resource caller perms with
        | (cm, Err _) => Return (set_k_caps k cm (k_threads k)) EINVAL
        | (cm, Ok cap) =>
            match add_thread_capability (k_threads k) caller cap with
            | (ths, Ok _) => Return (set_k_caps k cm ths) (cap_handle cap)
            | (ths, Err _) => Return (set_k_caps k cm ths) EINVAL
            end
        end
    end).

(** Neither the handle nor the permissions are looked at. *)
Definition sys_cap_check k (handle required_perms : Z) : outcome D :=
  match current (k_sched k) with
  | None => Return k 0
  | Some _ => Return k (if (0 <? cs_total (get_capability_stats (k_caps k)))%nat then 1 else 0)
  end.

Definition sys_cap_revoke k (handle : Z) : outcome D :=
  with_caller k (λ caller,
    match revoke_capability (k_ticks k) (k_caps k) (k_threads k) handle caller with
    | None => OutOfFuel
    | Some ((cm, ths), Ok revoked) => Return (set_k_caps k cm ths) (Z.of_nat (length revoked))
    | Some ((cm, ths), Err _) => Return (set_k_caps k cm ths) EINVAL
    end).

Definition sys_cap_derive k (parent_handle new_owner reduced_perms : Z) : outcome D :=
  with_caller k (λ caller,
    let perms := perms_from_bits (wrap32 reduced_perms) in
    match derive_capability (k_ticks k) (k_caps k) (k_threads k) parent_handle caller new_owner perms with
    | ((cm, ths), Ok child) => Return (set_k_caps k cm ths) child
    | ((cm, ths), Err e) => Return (set_k_caps k cm ths) (cap_error e)
    end).

Definition sys_cap_transfer k (cap_handle target : Z) : outcome D :=
  with_caller k (λ caller,
    match find_thread (k_threads k) target with
    | None => Return k EINVAL
    | Some _ =>
        match transfer_capability (k_ticks k) (k_caps k) (k_threads k) cap_handle caller target with
        | ((cm, ths), Ok _) => Return (set_k_caps k cm ths) ESUCCESS
        | ((cm, ths), Err e) => Return (set_k_caps k cm ths) (cap_error e)
        end
    end).

Definition sys_cap_list k (buffer_ptr buffer_size : Z) : outcome D :=
  Return k (Z.of_nat (cs_total (get_capability_stats (k_caps k)))).

Definition sys_cap_query_parent k (handle : Z) : outcome D :=
  with_caller k (λ caller,
    if negb (thread_has_capability (k_threads k) caller handle) then Return k EPERM
    else
      match query_parent (k_caps k) handle with
      | Ok (Some parent) => Return k parent
      | Ok None => Return k 0
      | Err _ => Return k EINVAL
      end).

Definition sys_cap_query_children k (handle buffer_ptr buffer_size : Z) : outcome D :=
  with_caller k (λ caller,
    if negb (thread_has_capability (k_threads k) caller handle) then Return k EPERM
    else
      match query_children (k_caps k) handle with
      | Ok children =>
          let count := Z.of_nat (length children) in
          if negb (buffer_ptr =? 0) && (0 <? buffer_size) then
            let to_copy := Z.min count buffer_size in
            copy_out k buffer_ptr (words_bytes (take (Z.to_nat to_copy) children)) (λ k, Return k count)
          else Return k count
      | Err _ => Return k EINVAL
      end).

(** ** Shared regions *)

Definition sys_shared_region_create k (size : Z) : outcome D :=
  with_caller k (λ caller,
    match create_region (k_shm k) caller size with
    | (m, Ok id) => Return (set_k_shm k m) id
    | (m, Err e) => Return (set_k_shm k m) (shm_create_error e)
    end).

Definition sys_shared_region_map k (region_id virt_addr flags_raw : Z) : outcome D :=
  with_caller k (λ caller,
    match shm_map_region (k_shm k) region_id caller virt_addr (from_raw flags_raw) with
    | (m, Ok _) => Return (set_k_shm k m) ESUCCESS
    | (m, Err e) => Return (set_k_shm k m) (shm_map_error e)
    end).

Definition sys_shared_region_unmap k (region_id : Z) : outcome D :=
  with_caller k (λ caller,
    match shm_unmap_region (k_shm k) region_id caller with
    | (m, Ok _) => Return (set_k_shm k m) ESUCCESS
    | (m, Err _) => Return (set_k_shm k m) EINVAL
    end).

Definition sys_shared_region_destroy k (region_id : Z) : outcome D :=
  with_caller k (λ caller,
    match destroy_region (k_shm k) region_id caller with
    | (m, Ok _) => Return (set_k_shm k m) ESUCCESS
    | (m, Err e) => Return (set_k_shm k m) (shm_destroy_error e)
    end).

(** ** Address spaces *)

Definition sys_addrspace_create k : outcome D :=
  with_caller k (λ caller,
    match create_address_space (k_as k) caller with
    | (m, Ok id) => Return (set_k_as k m) id
    | (m, Err AsOutOfMemory) => Return (set_k_as k m) ENOMEM
    | (m, Err _) => Return (set_k_as k m) EINVAL
    end).

Definition sys_addrspace_destroy k (as_id : Z) : outcome D :=
  with_caller k (λ caller,
    match destroy_address_space (k_as k) as_id caller with
    | (m, Ok _) => Return (set_k_as k m) ESUCCESS
    | (m, Err e) => Return (set_k_as k m) (as_destroy_error e)
    end).

(** A missing memory capability is only logged in the next three calls. *)
Definition sys_map_region k (as_id virt_addr phys_addr size flags_raw : Z) : outcome D :=
  with_caller k (λ caller,
    let has_permission :=
      validate_thread_capability_by_type (k_threads k) caller PERM_WRITE (is_exact_region virt_addr phys_addr size) in
    let flags := Z.lor flags_raw (Z.lor PF_PRESENT PF_USER) in
    match map_region (k_as k) as_id caller virt_addr phys_addr size flags with
    | (m, Ok _) => Return (set_k_as k m) ESUCCESS
    | (m, Err e) => Return (set_k_as k m) (as_map_error e)
    end).

Definition sys_unmap_region k (as_id virt_addr size : Z) : outcome D :=
  with_caller k (λ caller,
    let has_permission :=
      validate_thread_capability_by_type (k_threads k) caller PERM_WRITE (is_memory_region virt_addr) in
    match unmap_region (k_as k) as_id caller virt_addr size with
    | (m, Ok _) => Return (set_k_as k m) ESUCCESS
    | (m, Err e) => Return (set_k_as k m) (as_unmap_error e)
    end).

Definition sys_remap_region k (as_id old_virt new_virt size : Z) : outcome D :=
  with_caller k (λ caller,
    let has_permission :=
      validate_thread_capability_by_type (k_threads k) caller PERM_WRITE (is_memory_region old_virt) in
    match remap_region (k_as k) as_id caller old_virt new_virt size with
    | (m, Ok _) => Return (set_k_as k m) ESUCCESS
    | (m, Err e) => Return (set_k_as k m) (as_remap_error e)
    end).

(** ** Faults and interrupts *)

Definition sys_register_fault_handler k (port_id : Z) : outcome D :=
  with_caller k (λ caller,
    match register_page_fault_handler (k_ipc k) (k_policy k) port_id caller with
    | (p, Ok _) => Return (set_k_policy k p) ESUCCESS
    | (p, Err MpPermissionDenied) => Return (set_k_policy k p) EPERM
    | (p, Err _) => Return (set_k_policy k p) EINVAL
    end).

Definition sys_register_irq_handler k (irq notification_port : Z) : outcome D :=
  if negb (existsb (Z.eqb irq) ALLOWED_IRQS) then Return k EPERM
  else
    with_caller k (λ caller,
      match k_irq k !! irq with
      | Some _ => Return k EBUSY
      | None => Return (set_k_irq k (<[irq := (caller, notification_port)]> (k_irq k))) ESUCCESS
      end).

Definition sys_unregister_irq_handler k (irq : Z) : outcome D :=
  with_caller k (λ caller,
    match k_irq k !! irq with
    | Some (owner, _) =>
        if negb (owner =? caller) then Return k EPERM
        else Return (set_k_irq k (delete irq (k_irq k))) ESUCCESS
    | None => Return k EINVAL
    end).

Definition sys_get_irq_count k (irq : Z) : outcome D :=
  with_caller k (λ caller,
    match k_irq k !! irq with
    | Some (owner, _) =>
        if owner =? caller then Return k (default 0 (k_counts k !! irq)) else Return k EPERM
    | None => Return k EINVAL
    end).

(** ** The dispatcher

    [fuel] bounds the waiting loop of [SYS_IPC_WAIT_ANY] only. *)
Definition rust_syscall_dispatcher (fuel : nat) k (syscall_num arg0 arg1 arg2 arg3 arg4 arg5 : Z) : outcome D :=
  if syscall_num =? SYS_THREAD_YIELD then sys_thread_yield k
  else if syscall_num =? SYS_THREAD_EXIT then sys_thread_exit k arg0
  else if syscall_num =? SYS_THREAD_SLEEP then sys_thread_sleep k arg0
  else if syscall_num =? SYS_THREAD_CREATE then sys_thread_create k arg0 arg1 arg2
  else if syscall_num =? SYS_IPC_CREATE_PORT then sys_ipc_create_port k
  else if syscall_num =? SYS_IPC_CLOSE_PORT then sys_ipc_close_port k arg0
  else if syscall_num =? SYS_IPC_SEND then sys_ipc_send k arg0 arg1 arg2 arg3
  else if syscall_num =? SYS_IPC_RECV then sys_ipc_recv k arg0 arg1 arg2 arg3
  else if syscall_num =? SYS_CAP_CREATE then sys_cap_create k arg0 arg1 arg2
  else if syscall_num =? SYS_CAP_CHECK then sys_cap_check k arg0 arg1
  else if syscall_num =? SYS_CAP_REVOKE then sys_cap_revoke k arg0
  else if syscall_num =? SYS_CAP_DERIVE then sys_cap_derive k arg0 arg1 arg2
  else if syscall_num =? SYS_CAP_LIST then sys_cap_list k arg0 arg1
  else if syscall_num =? SYS_CAP_TRANSFER then sys_cap_transfer k arg0 arg1
  else if syscall_num =? SYS_IPC_SEND_WITH_CAP then sys_ipc_send_with_cap k arg0 arg1 arg2 arg3 arg4
  else if syscall_num =? SYS_CAP_QUERY_PARENT then sys_cap_query_parent k arg0
  else if syscall_num =? SYS_CAP_QUERY_CHILDREN then sys_cap_query_children k arg0 arg1 arg2
  else if syscall_num =? SYS_SHARED_REGION_CREATE then sys_shared_region_create k arg0
  else if syscall_num =? SYS_SHARED_REGION_MAP then sys_shared_region_map k arg0 arg1 arg2
  else if syscall_num =? SYS_SHARED_REGION_UNMAP then sys_shared_region_unmap k arg0
  else if syscall_num =? SYS_SHARED_REGION_DESTROY then sys_shared_region_destroy k arg0
  else if syscall_num =? SYS_IPC_SEND_BATCH then sys_ipc_send_batch k arg0 arg1 arg2
  else if syscall_num =? SYS_IPC_RECV_BATCH then sys_ipc_recv_batch k arg0 arg1 arg2
  else if syscall_num =? SYS_IPC_SEND_ASYNC then sys_ipc_send_async k arg0 arg1 arg2 arg3
  else if syscall_num =? SYS_IPC_TRY_RECV then sys_ipc_try_recv k arg0 arg1 arg2
  else if syscall_num =? SYS_IPC_TRACE_READ then sys_ipc_trace_read k arg0 arg1
  else if syscall_num =? SYS_IPC_PORT_STATS then sys_ipc_port_stats k arg0 arg1
  else if syscall_num =? SYS_ADDRSPACE_CREATE then sys_addrspace_create k
  else if syscall_num =? SYS_ADDRSPACE_DESTROY then sys_addrspace_destroy k arg0
  else if syscall_num =? SYS_MAP_REGION then sys_map_region k arg0 arg1 arg2 arg3 arg4
  else if syscall_num =? SYS_UNMAP_REGION then sys_unmap_region k arg0 arg1 arg2
  else if syscall_num =? SYS_REMAP_REGION then sys_remap_region k arg0 arg1 arg2 arg3
  else if syscall_num =? SYS_REGISTER_FAULT_HANDLER then sys_register_fault_handler k arg0
  else if syscall_num =? SYS_MOUSE_POLL then sys_mouse_poll k
  else if syscall_num =? SYS_IO_PORT_READ then sys_io_port_read k (wrap16 arg0) (wrap8 arg1)
  else if syscall_num =? SYS_IO_PORT_WRITE then sys_io_port_write k (wrap16 arg0) (wrap8 arg1)
  else if syscall_num =? SYS_KEYBOARD_POLL then sys_keyboard_poll k
  else if syscall_num =? SYS_GET_FRAMEBUFFER then sys_get_framebuffer k arg0
  else if syscall_num =? SYS_GET_TICKS then sys_get_ticks k
  else if syscall_num =? SYS_DEBUG_LOG then sys_debug_log k arg0 arg1
  else if syscall_num =? SYS_REGISTER_IRQ_HANDLER then sys_register_irq_handler k (wrap8 arg0) arg1
  else if syscall_num =? SYS_MAP_FRAMEBUFFER then sys_map_framebuffer_to_user k arg0
  else if syscall_num =? SYS_UNREGISTER_IRQ_HANDLER then sys_unregister_irq_handler k (wrap8 arg0)
  else if syscall_num =? SYS_IPC_WAIT_ANY then sys_ipc_wait_any fuel k arg0 arg1 arg2
  else if syscall_num =? SYS_GET_IRQ_COUNT then sys_get_irq_count k (wrap8 arg0)
  else Return k ENOSYS.
End syscalls.
