(* ===== verification/SyscallSafety.v ===== *)
(** * System calls: properties

    Every system call keeps the invariant of the kernel, whatever its number
    and arguments; the calls compose the components as they promise; and what
    the calls let any thread do. *)

From S2P Require Import Prelude Cap Thread CapManager CapSafety Sched Ipc IpcSafety Pmm Vm AddrSpace SharedMem.
From S2P Require Import Exec Input InputSafety Graphics Kernel KernelSafety Syscall.

Section syscalls.
Context {D : Type} {ps2 : Ps2 D} {mmu : Mmu}.
Context (switch_context : CpuContext → CpuContext → CpuContext) (resume : Kernel D → Kernel D).
Implicit Types (k : Kernel D) (o : outcome D).

(** The counters behind fresh names have not reached their last value. *)
Record room k : Prop := {
  ro_handle : next_handle (k_caps k) < U64_MAX;
  ro_port : next_port (k_ipc k) < U64_MAX;
  ro_tid : k_next_tid k < U64_MAX;
}.

(** The state a call returns with, if it returns, satisfies [P]. *)
Definition returns (P : Kernel D → Prop) o : Prop := match o with Return k _ => P k | _ => True end.
Abbreviation keeps := (returns kernel_wf).

(** ** The invariant, call by call *)

Context (Hresume : ∀ k, kernel_wf k → kernel_wf (resume k)).

Lemma keeps_with_caller k f :
  kernel_wf k → (∀ tid, current (k_sched k) = Some tid → keeps (f tid)) → keeps (with_caller k f).
Proof. intros Hwf Hf. unfold with_caller. destruct (current (k_sched k)); [by apply Hf|done]. Qed.

Lemma keeps_copy_out k addr bytes f :
  kernel_wf k → (∀ k', kernel_wf k' → keeps (f k')) → keeps (copy_out k addr bytes f).
Proof. intros Hwf Hf. unfold copy_out. destruct (user_write _ _ _); [|done]. by apply Hf, wf_set_vm. Qed.

Lemma keeps_resched k : kernel_wf k → kernel_wf (resched switch_context resume k).
Proof. by apply wf_reschedule. Qed.

Hint Resolve keeps_resched : kwf.
Hint Resolve keeps_with_caller keeps_copy_out : kwf.

(** The calls that only touch memory, devices or registrations. *)
Ltac plain :=
  repeat match goal with
  | |- keeps (with_caller _ _) => apply keeps_with_caller; [assumption|intros ? ?]
  | |- keeps (copy_out _ _ _ _) => apply keeps_copy_out; [eauto with kwf|intros ? ?]
  | |- keeps (Return _ _) => cbn [returns]; eauto with kwf
  | |- keeps PageFault => exact I
  | |- keeps (match ?x with _ => _ end) => destruct x eqn:?
  | |- keeps (let '(_, _) := ?x in _) => destruct x eqn:?
  end.

Lemma keeps_devices k a b :
  kernel_wf k →
  keeps (sys_io_port_read k a b) ∧ keeps (sys_io_port_write k a b) ∧ keeps (sys_get_framebuffer k a) ∧
  keeps (sys_map_framebuffer_to_user k a) ∧ keeps (sys_get_ticks k) ∧ keeps (sys_debug_log k a b).
Proof.
  intros Hwf. unfold sys_io_port_read, sys_io_port_write, sys_get_framebuffer, sys_map_framebuffer_to_user, sys_get_ticks, sys_debug_log.
  cbv zeta. split; [plain|]. split; [plain|]. split; [plain|]. split; [plain|]. split; plain.
Qed.

Lemma keeps_polls k : kernel_wf k → keeps (sys_mouse_poll k) ∧ keeps (sys_keyboard_poll k).
Proof.
  intros Hwf. unfold sys_mouse_poll, sys_keyboard_poll.
  pose proof (wf_ring_pop_mouse k Hwf) as Hm. pose proof (wf_ring_pop_keyboard k Hwf) as Hk.
  destruct (poll_mouse_byte (k_mouse k)) as [b1 [?|]], (poll_keyboard_byte (k_keyboard k)) as [b2 [?|]]; cbn in *;
    split; by (apply wf_set_mouse || apply wf_set_keyboard).
Qed.

Lemma keeps_memory k a b c d e :
  kernel_wf k →
  keeps (sys_shared_region_create k a) ∧ keeps (sys_shared_region_map k a b c) ∧ keeps (sys_shared_region_unmap k a) ∧
  keeps (sys_shared_region_destroy k a) ∧ keeps (sys_addrspace_create k) ∧ keeps (sys_addrspace_destroy k a) ∧
  keeps (sys_map_region k a b c d e) ∧ keeps (sys_unmap_region k a b c) ∧ keeps (sys_remap_region k a b c d).
Proof.
  intros Hwf.
  unfold sys_shared_region_create, sys_shared_region_map, sys_shared_region_unmap, sys_shared_region_destroy,
    sys_addrspace_create, sys_addrspace_destroy, sys_map_region, sys_unmap_region, sys_remap_region. cbv zeta.
  repeat match goal with |- _ ∧ _ => split; [plain|] end. plain.
Qed.

(** Calls that leave a new IPC manager behind. *)
Lemma keeps_set_ipc k m v : kernel_wf k → ipc_wf m → keeps (Return (set_k_ipc k m) v).
Proof. intros. by apply wf_set_ipc. Qed.

Lemma send_wf k pid msg ipc r :
  send_message (rsize k) (k_ticks k) (k_ipc k) pid msg = (ipc, r) → kernel_wf k → ipc_wf ipc.
Proof. intros E Hwf. pose proof (ipc_wf_send (rsize k) (k_ticks k) _ pid msg (kw_ipc _ Hwf)) as H. by rewrite E in H. Qed.

Lemma try_recv_wf k pid caller ipc r :
  try_recv (rsize k) (k_ticks k) (k_ipc k) pid caller = (ipc, r) → kernel_wf k → ipc_wf ipc.
Proof. intros E Hwf. pose proof (ipc_wf_try_recv (rsize k) (k_ticks k) _ pid caller (kw_ipc _ Hwf)) as H. by rewrite E in H. Qed.

Lemma block_wf k pid caller prio d ipc r :
  block_recv (k_ipc k) pid caller prio d = (ipc, r) → kernel_wf k → ipc_wf ipc.
Proof. intros E Hwf. pose proof (ipc_wf_block _ pid caller prio d (kw_ipc _ Hwf)) as H. by rewrite E in H. Qed.

Lemma close_wf k pid caller ipc r : close_port (k_ipc k) pid caller = (ipc, r) → kernel_wf k → ipc_wf ipc.
Proof. intros E Hwf. pose proof (ipc_wf_close _ pid caller (kw_ipc _ Hwf)) as H. by rewrite E in H. Qed.

Lemma recv_batch_wf k pid caller n ipc r :
  recv_batch (rsize k) (k_ticks k) (k_ipc k) pid caller n = (ipc, r) → kernel_wf k → ipc_wf ipc.
Proof. intros E Hwf. pose proof (ipc_wf_recv_batch (rsize k) (k_ticks k) _ pid caller n (kw_ipc _ Hwf)) as H. by rewrite E in H. Qed.

Hint Resolve send_wf try_recv_wf block_wf close_wf recv_batch_wf keeps_set_ipc wf_set_ipc : kwf.

Lemma keeps_copy_message k ptr size msg : kernel_wf k → keeps (copy_message k ptr size msg).
Proof. intros Hwf. unfold copy_message. cbv zeta. plain. Qed.

Lemma keeps_sends k a b c d e :
  kernel_wf k →
  keeps (sys_ipc_close_port k a) ∧ keeps (sys_ipc_send k a b c d) ∧ keeps (sys_ipc_send_async k a b c d) ∧
  keeps (sys_ipc_send_with_cap k a b c d e) ∧ keeps (sys_ipc_recv_batch k a b c) ∧
  keeps (sys_ipc_trace_read k a b) ∧ keeps (sys_ipc_port_stats k a b).
Proof.
  intros Hwf. unfold sys_ipc_close_port, sys_ipc_send, sys_ipc_send_async, sys_ipc_send_with_cap, sys_ipc_recv_batch,
    sys_ipc_trace_read, sys_ipc_port_stats. cbv zeta.
  repeat match goal with |- _ ∧ _ => split; [plain|] end. plain.
Qed.

Lemma keeps_try_recv k a b c : kernel_wf k → keeps (sys_ipc_try_recv k a b c).
Proof.
  intros Hwf. apply keeps_with_caller; [done|]. intros tid _. cbv beta.
  destruct (try_recv _ _ _ _ _) as [ipc [[msg|]|e]] eqn:E; [|plain..].
  apply keeps_copy_message. eauto with kwf.
Qed.

Lemma keeps_recv k a b c d : kernel_wf k → keeps (sys_ipc_recv switch_context resume k a b c d).
Proof.
  intros Hwf. apply keeps_with_caller; [done|]. intros tid _. cbv beta zeta.
  destruct (try_recv _ _ _ _ _) as [ipc [[msg|]|e]] eqn:E; [apply keeps_copy_message; eauto with kwf| |plain].
  assert (kernel_wf (set_k_ipc k ipc)) as Hwf1 by eauto with kwf.
  destruct (d =? 0); [plain|]. destruct (block_recv _ _ _ _ _) as [ipc2 [[]|e]] eqn:E2; [|plain].
  assert (kernel_wf (resched switch_context resume (set_thread_state_k (set_k_ipc (set_k_ipc k ipc) ipc2) tid Blocked))) as Hwf2.
  { apply keeps_resched, wf_set_state; [done|]. eauto with kwf. }
  revert Hwf2. generalize (resched switch_context resume (set_thread_state_k (set_k_ipc (set_k_ipc k ipc) ipc2) tid Blocked)).
  clear E E2. intros k2 Hwf2.
  destruct (try_recv _ _ _ _ _) as [ipc3 [[msg|]|e]] eqn:E3; [apply keeps_copy_message; eauto with kwf|plain..].
Qed.

Lemma send_batch_wf k pid msgs ipc s ths r :
  kernel_wf k → send_batch (rsize k) (k_ticks k) (k_ipc k) (k_sched k) (k_threads k) pid msgs = (ipc, s, ths, r) →
  kernel_wf (set_k_sched (set_k_ipc k ipc) s ths).
Proof.
  intros Hwf E. pose proof (ipc_wf_send_batch (rsize k) (k_ticks k) _ (k_sched k) (k_threads k) pid msgs (kw_ipc _ Hwf)) as Hi.
  rewrite E in Hi. cbn [fst] in Hi. assert (kernel_wf (set_k_ipc k ipc)) as Hwf1 by eauto with kwf.
  assert ((s, ths) = (k_sched k, k_threads k) ∨ ∃ tid, wake (k_sched k) (k_threads k) tid = (s, ths)) as Hw.
  { clear Hi Hwf1. revert E. unfold send_batch. cbv zeta.
    repeat match goal with
    | |- match ?x with _ => _ end = _ → _ => destruct x eqn:?
    | |- (let '(_, _) := ?x in _) = _ → _ => destruct x eqn:?
    end; intros [= <- <- <- <-]; eauto. }
  destruct Hw as [[= -> ->]|[tid Hw]].
  - by apply wf_set_sched; [apply Hwf|done|].
  - apply wf_set_sched; [eapply wake_sched; [done|apply Hwf]|by eapply wake_tables|done].
Qed.

Lemma keeps_send_batch k a b c : kernel_wf k → keeps (sys_ipc_send_batch k a b c).
Proof.
  intros Hwf. unfold sys_ipc_send_batch. case_match; [plain|]. case_match; [plain|].
  apply keeps_with_caller; [done|]. intros tid _. cbv beta.
  destruct (send_batch _ _ _ _ _ _ _) as [[[ipc s] ths] r] eqn:E. cbv zeta. apply send_batch_wf in E; [|done]. plain.
Qed.

Lemma scan_ports_wf caller idx ports k : kernel_wf k → kernel_wf (scan_ports caller idx ports k).1.
Proof.
  revert idx k. induction ports as [|p ports IH]; intros idx k Hwf; [done|]. cbn [scan_ports].
  destruct (try_recv _ _ _ _ _) as [ipc [[msg|]|e]] eqn:E; [cbn; eauto with kwf|apply IH; eauto with kwf..].
Qed.

Lemma keeps_wait_any fuel k a b c : kernel_wf k → keeps (sys_ipc_wait_any switch_context resume fuel k a b c).
Proof.
  intros Hwf. unfold sys_ipc_wait_any. case_match; [plain|]. apply keeps_with_caller; [done|]. intros tid _. cbv beta.
  destruct (user_read _ _ _) as [bytes|]; [|done]. cbv zeta.
  generalize (bytes_words (Z.to_nat b) bytes) as ports.
  match goal with |- ∀ _, keeps (wait_any_loop _ _ _ _ _ ?d _ _) => generalize d as deadline end.
  intros deadline ports. revert k Hwf. induction fuel as [|fuel IH]; intros k Hwf; [done|]. cbn [wait_any_loop].
  pose proof (scan_ports_wf tid 0 ports k Hwf) as Hwf1. destruct (scan_ports tid 0 ports k) as [k1 [idx|]]; [done|].
  cbn [fst] in Hwf1. cbv zeta. destruct (match deadline with Some d => _ | None => _ end); [done|].
  apply IH, wf_set_state; [done|]. by apply keeps_resched, wf_set_state.
Qed.

Lemma keeps_threads k a b c :
  kernel_wf k → room k →
  keeps (sys_thread_yield switch_context resume k) ∧ keeps (sys_thread_exit switch_context resume k a) ∧
  keeps (sys_thread_sleep switch_context resume k a) ∧ keeps (sys_thread_create k a b c).
Proof.
  intros Hwf Hroom. assert (∀ tid st, st ≠ Running → kernel_wf (resched switch_context resume (set_thread_state_k k tid st))) as Hst.
  { intros. by apply keeps_resched, wf_set_state. }
  unfold sys_thread_exit, sys_thread_sleep, sys_thread_yield. split; [by apply keeps_resched|].
  split; [case_match; [by apply Hst|done]|]. split; [repeat case_match; [by apply keeps_resched|by apply Hst|done]|].
  unfold sys_thread_create. case_match; [done|]. apply keeps_with_caller; [done|]. intros tid _. cbv beta.
  case_match; [done|]. destruct (vm_alloc_pages _ _) as [v [addr|]]; [|plain].
  unfold Thread_new, ThreadId_new. cbv beta zeta iota. set (th := mkThread _ _ _ _ _ _ _ _ _).
  destruct (sched_add_thread _ _ th) as [[s ths] id] eqn:E. cbn [returns].
  pose proof (sched_step_wf _ _ (ss_add _ _ th _ _ _ eq_refl (next_tid_free _ Hwf) E) (kw_sched _ Hwf)) as Hs.
  injection E as <- <- <-. apply (wf_new_thread k _ th); try done. apply Hroom.
Qed.

Lemma perms_wrap x : perms_wf (perms_from_bits (wrap32 x)).
Proof. apply wrap_range. lia. Qed.

Lemma rw_perms : perms_wf (perms_union PERM_READ PERM_WRITE).
Proof. by split. Qed.

Lemma keeps_create_port k : kernel_wf k → room k → keeps (sys_ipc_create_port k).
Proof.
  intros Hwf Hroom. apply keeps_with_caller; [done|]. intros tid _. cbv beta.
  pose proof (ipc_wf_create (k_ipc k) tid (kw_ipc _ Hwf) (ro_port _ Hroom)) as Hi.
  destruct (create_port _ _) as [ipc pid]. cbv zeta. cbn [fst] in Hi.
  assert (kernel_wf (set_k_ipc k ipc)) as Hwf1 by eauto with kwf.
  destruct (create_root_spec (k_ticks k) (k_caps k) (k_threads k) (RIpcPort pid) tid (perms_union PERM_READ PERM_WRITE)
    (kw_caps _ Hwf) (ro_handle _ Hroom)) as (cm & E & _). cbv zeta in E.
  cbn [set_k_ipc k_ticks k_caps k_threads]. rewrite E. cbn [returns].
  destruct (cap_wf_create _ _ _ _ _ _ _ _ (kw_caps _ Hwf) (ro_handle _ Hroom) rw_perms E) as [_ Hc].
  apply wf_set_caps; [done| |done]. destruct (add_thread_capability _ _ _) eqn:Ea. by eapply add_cap_states.
Qed.

Lemma keeps_cap_create k a b c : kernel_wf k → room k → keeps (sys_cap_create k a b c).
Proof.
  intros Hwf Hroom. apply keeps_with_caller; [done|]. intros tid _. cbv beta.
  destruct (cap_create_resource a b) as [res|]; [|done]. cbv zeta.
  destruct (create_root_spec (k_ticks k) (k_caps k) (k_threads k) res tid (perms_from_bits (wrap32 c))
    (kw_caps _ Hwf) (ro_handle _ Hroom)) as (cm & E & _). cbv zeta in E. rewrite E.
  destruct (cap_wf_create _ _ _ _ _ _ _ _ (kw_caps _ Hwf) (ro_handle _ Hroom) (perms_wrap c) E) as [_ Hc].
  destruct (add_thread_capability _ _ _) as [ths [h|e]] eqn:Ea; cbn [fst] in Hc; (apply wf_set_caps; [done| |done]);
    by eapply add_cap_states.
Qed.

Lemma keeps_cap_ops k a b c :
  kernel_wf k → room k →
  keeps (sys_cap_revoke k a) ∧ keeps (sys_cap_derive k a b c) ∧ keeps (sys_cap_transfer k a b).
Proof.
  intros Hwf Hroom. split; [|split]; (apply keeps_with_caller; [done|]); intros tid _; cbv beta zeta.
  - destruct (revoke_capability _ _ _ _ _) as [[[cm ths] r]|] eqn:E; [|done].
    pose proof (cap_wf_revoke _ _ _ _ _ _ _ (kw_caps _ Hwf) E) as Hc. apply revoke_states in E.
    destruct r; by apply wf_set_caps.
  - destruct (derive_capability _ _ _ _ _ _ _) as [[cm ths] r] eqn:E.
    pose proof (cap_wf_derive _ _ _ _ _ _ _ _ _ (kw_caps _ Hwf) (ro_handle _ Hroom) (perms_wrap c) E) as Hc.
    apply derive_states in E. destruct r; by apply wf_set_caps.
  - destruct (find_thread _ _); [|done]. destruct (transfer_capability _ _ _ _ _ _) as [[cm ths] r] eqn:E.
    pose proof (cap_wf_transfer _ _ _ _ _ _ _ _ (kw_caps _ Hwf) E) as Hc.
    apply transfer_states in E. destruct r; by apply wf_set_caps.
Qed.

Lemma keeps_queries k a b c :
  kernel_wf k →
  keeps (sys_cap_check k a b) ∧ keeps (sys_cap_list k a b) ∧ keeps (sys_cap_query_parent k a) ∧
  keeps (sys_cap_query_children k a b c) ∧ keeps (sys_register_fault_handler k a) ∧ keeps (sys_get_irq_count k a).
Proof.
  intros Hwf. unfold sys_cap_check, sys_cap_list, sys_cap_query_parent, sys_cap_query_children, sys_register_fault_handler,
    sys_get_irq_count. cbv zeta. repeat match goal with |- _ ∧ _ => split; [plain|] end. plain.
Qed.

Lemma keeps_irq k a b :
  kernel_wf k → keeps (sys_register_irq_handler k a b) ∧ keeps (sys_unregister_irq_handler k a).
Proof.
  intros Hwf. unfold sys_register_irq_handler, sys_unregister_irq_handler. split.
  - destruct (existsb _ _) eqn:Ea; [|done]. cbn [negb]. apply keeps_with_caller; [done|]. intros tid _. cbv beta.
    destruct (k_irq k !! a); [done|]. apply wf_set_irq; [|done]. intros irq h [[<- _]|[_ Hl]]%lookup_insert_Some.
    + apply existsb_exists in Ea as (x & Hx & ->%Z.eqb_eq). by apply list_elem_of_In.
    + by eapply kw_irq.
  - apply keeps_with_caller; [done|]. intros tid _. cbv beta. destruct (k_irq k !! a) as [[o p]|]; [|done].
    case_match; [done|]. apply wf_set_irq; [|done]. intros irq h [_ Hl]%lookup_delete_Some. by eapply kw_irq.
Qed.

Lemma dispatcher_keeps fuel k num a0 a1 a2 a3 a4 a5 :
  kernel_wf k → room k → keeps (rust_syscall_dispatcher switch_context resume fuel k num a0 a1 a2 a3 a4 a5).
Proof.
  intros Hwf Hroom. unfold rust_syscall_dispatcher.
  repeat match goal with
  | |- keeps (if ?b then _ else _) => destruct b;
      [first [by eapply keeps_threads|by apply keeps_create_port|by eapply keeps_sends|by apply keeps_recv
             |by apply keeps_cap_create|by eapply keeps_queries|by eapply keeps_cap_ops|by eapply keeps_memory
             |by apply keeps_send_batch|by apply keeps_try_recv|by eapply keeps_polls|by eapply keeps_devices
             |by eapply keeps_irq|by apply keeps_wait_any]|]
  end.
  done. Unshelve. all: exact 0.
Qed.
End syscalls.

(** ** Runs of the kernel *)

Section runs.
Context {D : Type} {ps2 : Ps2 D} {mmu : Mmu}.
Context (switch_context : CpuContext → CpuContext → CpuContext).
Implicit Types (k : Kernel D).

(** Everything that changes the state: system calls, interrupts, user page
    faults, and the start of threads by the kernel itself.  A call that gives
    up the processor comes back after a run of the rest of the system. *)
Inductive kernel_runs : Kernel D → Kernel D → Prop :=
| kr_refl k : kernel_runs k k
| kr_trans k1 k2 k3 : kernel_runs k1 k2 → kernel_runs k2 k3 → kernel_runs k1 k3
| kr_syscall fuel resume k num a0 a1 a2 a3 a4 a5 k' v :
    (∀ k, kernel_runs k (resume k)) → room k →
    rust_syscall_dispatcher switch_context resume fuel k num a0 a1 a2 a3 a4 a5 = Return k' v →
    kernel_runs k k'
| kr_timer k : kernel_runs k (timer_interrupt_handler k)
| kr_keyboard fuel k k' : keyboard_interrupt_handler fuel k = Some k' → kernel_runs k k'
| kr_mouse fuel k k' : mouse_interrupt_handler fuel k = Some k' → kernel_runs k k'
| kr_fault k cr2 error_code rip : kernel_runs k (page_fault_exception k cr2 error_code rip)
| kr_idle k entry stack size t next mem s ths id :
    k_next_tid k < U64_MAX → initialized (k_sched k) = false →
    Thread_new_idle (k_next_tid k) (vm_mem (k_vm k)) entry stack size = (t, next, mem) →
    sched_init (k_sched k) (k_threads k) t = (s, ths, id) →
    kernel_runs k (set_k_sched (set_k_next_tid (set_k_vm k (vm_set_mem (k_vm k) mem)) next) s ths)
| kr_thread k entry stack size space prio name t next mem s ths id :
    k_next_tid k < U64_MAX →
    Thread_new (k_next_tid k) (vm_mem (k_vm k)) entry stack size space prio name = (t, next, mem) →
    sched_add_thread (k_sched k) (k_threads k) t = (s, ths, id) →
    kernel_runs k (set_k_sched (set_k_next_tid (set_k_vm k (vm_set_mem (k_vm k) mem)) next) s ths).

Lemma kernel_runs_wf k k' : kernel_runs k k' → kernel_wf k → kernel_wf k'.
Proof.
  induction 1 as [| |fuel resume k num a0 a1 a2 a3 a4 a5 k' v _ IH Hroom E| |fuel k k' E|fuel k k' E|
    |k entry stack size t next mem s ths id Hlt Hi Et Es|k entry stack size space prio name t next mem s ths id Hlt Et Es]; intros Hwf.
  - done.
  - auto.
  - pose proof (dispatcher_keeps switch_context resume IH fuel k num a0 a1 a2 a3 a4 a5 Hwf Hroom) as H. by rewrite E in H.
  - by apply wf_timer.
  - eapply wf_irqs; eauto.
  - eapply wf_irqs; eauto.
  - by apply wf_page_fault.
  - injection Et as <- <- <-. pose proof (next_tid_free _ Hwf) as Hn. match type of Es with sched_init _ _ ?t = _ => apply (wf_new_thread _ _ t); try done end.
    + by refine (sched_step_wf _ _ (ss_init _ _ _ _ _ _ Hi _ _ Es) (kw_sched _ Hwf)).
    + unfold sched_init in Es. cbv zeta in Es. destruct (set_thread_state _ _ Running) as [ths1 b] eqn:E1.
      injection Es as <- <- <-. by eapply set_state_tables.
  - injection Et as <- <- <-. pose proof (next_tid_free _ Hwf) as Hn. match type of Es with sched_add_thread _ _ ?t = _ => apply (wf_new_thread _ _ t); try done end.
    + by refine (sched_step_wf _ _ (ss_add _ _ _ _ _ _ _ _ Es) (kw_sched _ Hwf)).
    + by injection Es as <- <- <-.
Qed.

(** The state before anything runs. *)
Definition kernel_initial (dev : D) (vm : Vm) (fb : option Framebuffer) : Kernel D :=
  mkKernel [] 1 Scheduler_new (mkCpu 0 ∅) CapManager_new IpcManager_new vm ∅ 1 ∅ 1 None ∅ ∅
    (RingBuffer_new KEYBOARD_BUFFER_SIZE) (RingBuffer_new MOUSE_BUFFER_SIZE) fb 0 dev.

Lemma kernel_initial_wf dev vm fb : kernel_wf (kernel_initial dev vm fb).
Proof.
  split; cbn [kernel_initial k_caps k_threads k_sched k_ipc k_next_tid k_irq k_keyboard k_mouse].
  - by apply cap_wf_initial.
  - by apply sched_steps_wf.
  - apply ipc_new_wf.
  - unfold U64_MAX. lia.
  - intros id [t Ht]. done.
  - intros irq h. by rewrite lookup_empty.
  - apply ring_new_wf. unfold KEYBOARD_BUFFER_SIZE. lia.
  - apply ring_new_wf. unfold MOUSE_BUFFER_SIZE. lia.
Qed.

(** C18. From the initial state, no sequence of system calls - with any numbers
    and arguments - interrupts, user page faults and thread starts breaks an
    invariant of the kernel: capabilities stay well formed and derived rights
    bounded by their parents, at most the current thread runs, no cycle of
    blocked receivers exists, queues stay bounded, thread identifiers stay
    unique, only the keyboard and mouse interrupts have handlers and the input
    rings stay well formed. *)
Theorem kernel_invariant dev vm fb k : kernel_runs (kernel_initial dev vm fb) k → kernel_wf k.
Proof. intros H. eapply kernel_runs_wf; [done|]. apply kernel_initial_wf. Qed.


(** *** Waiting on several ports *)






(** *** Refused calls *)

(** The calls that start by asking who is calling. *)
Definition caller_calls : list Z :=
  [SYS_THREAD_CREATE; SYS_IPC_CREATE_PORT; SYS_IPC_CLOSE_PORT; SYS_IPC_SEND; SYS_IPC_RECV; SYS_CAP_CREATE;
   SYS_CAP_REVOKE; SYS_CAP_DERIVE; SYS_CAP_TRANSFER; SYS_IPC_SEND_WITH_CAP; SYS_CAP_QUERY_PARENT;
   SYS_CAP_QUERY_CHILDREN; SYS_SHARED_REGION_CREATE; SYS_SHARED_REGION_MAP; SYS_SHARED_REGION_UNMAP;
   SYS_SHARED_REGION_DESTROY; SYS_IPC_SEND_BATCH; SYS_IPC_RECV_BATCH; SYS_IPC_SEND_ASYNC; SYS_IPC_TRY_RECV;
   SYS_ADDRSPACE_CREATE; SYS_ADDRSPACE_DESTROY; SYS_MAP_REGION; SYS_UNMAP_REGION; SYS_REMAP_REGION;
   SYS_REGISTER_FAULT_HANDLER; SYS_REGISTER_IRQ_HANDLER; SYS_UNREGISTER_IRQ_HANDLER; SYS_IPC_WAIT_ANY;
   SYS_GET_IRQ_COUNT].

Lemma no_caller k f : current (k_sched k) = None → with_caller k f = Return k EINVAL.
Proof. intros E. unfold with_caller. by rewrite E. Qed.

Ltac head_of t := match t with ?f _ => head_of f | _ => t end.

(** The handler that a known number selects. *)
Ltac select_handler :=
  cbv beta delta [rust_syscall_dispatcher];
  repeat match goal with |- context [if ?a =? ?b then _ else _] =>
    first [change (a =? b) with false | change (a =? b) with true]; cbv iota end.

(** A number that names no system call is refused with [ENOSYS], and a call
    that acts for its caller is refused when no thread is current; either way
    nothing in the kernel changes. *)
Theorem dispatcher_refuses resume fuel k num x0 x1 x2 x3 x4 x5 :
  let r := rust_syscall_dispatcher switch_context resume fuel k num x0 x1 x2 x3 x4 x5 in
  (44 < num → r = Return k ENOSYS) ∧
  (num ∈ caller_calls → current (k_sched k) = None →
    ∃ v, r = Return k v ∧ (v = EINVAL ∨ v = EMSGSIZE ∨ v = EPERM ∨ v = ESUCCESS)).
Proof.
  intros r. split.
  - intros Hn. unfold r, rust_syscall_dispatcher.
    repeat match goal with |- (if num =? ?c then _ else _) = _ => rewrite (proj2 (Z.eqb_neq num c)) by (unfold c; lia) end.
    done.
  - intros Hin Hc. unfold r. clear r.
    repeat (apply elem_of_cons in Hin as [->|Hin]; [|]); [..|by apply elem_of_nil in Hin]; select_handler;
      match goal with |- ∃ v, ?o = _ ∧ _ => let f := head_of o in unfold f end;
      repeat (rewrite no_caller by done); repeat case_match; eauto 6.
Qed.

(** *** Authority *)

Lemma holds_by_type ths tid h c required filter :
  thread_cap ths tid h = Some c → filter (cap_resource c) = true → has_permission c required = true →
  validate_thread_capability_by_type ths tid required filter = true.
Proof.
  unfold thread_cap, validate_thread_capability_by_type, table_get, table_list.
  destruct (lookup_thread ths tid) as [t|]; cbn [mbind option_bind]; [|done]. intros Hc Hf Hp.
  apply existsb_exists. exists h. rewrite Hc, Hf, Hp. split; [|done].
  apply list_elem_of_In. change h with ((h, c).1). by apply list_elem_of_fmap_2, elem_of_btree_entries.
Qed.

(** Any thread obtains a root capability for any resource that
    [SYS_CAP_CREATE] knows, with the permissions it asks for. *)
Lemma cap_create_mints k a t kind id perms resource :
  kernel_wf k → room k → current (k_sched k) = Some a → lookup_thread (k_threads k) a = Some t →
  cap_create_resource kind id = Ok resource →
  let cap := mkCap (next_handle (k_caps k)) resource (perms_from_bits (wrap32 perms)) a None [] in
  ∃ cm ths, sys_cap_create k kind id perms = Return (set_k_caps k cm ths) (next_handle (k_caps k)) ∧
    thread_cap ths a (next_handle (k_caps k)) = Some cap ∧ same_states (k_threads k) ths.
Proof.
  intros Hwf Hroom Hcur Ht Hr cap. unfold sys_cap_create, with_caller. rewrite Hcur, Hr.
  destruct (create_root_spec (k_ticks k) (k_caps k) (k_threads k) resource a (perms_from_bits (wrap32 perms))
    (kw_caps _ Hwf) (ro_handle _ Hroom)) as (cm & -> & _). fold cap.
  pose proof (add_thread_capability_spec (k_threads k) a cap) as Ha. rewrite Ht in Ha.
  pose proof (add_cap_states (k_threads k) a cap) as Hs.
  destruct (add_thread_capability (k_threads k) a cap) as [ths r]. cbn [fst snd] in Ha.
  assert (thread_cap (k_threads k) a (cap_handle cap) = None) as Hn.
  { destruct (thread_cap _ _ _) eqn:E; [|done].
    destruct (cw_tables _ (kw_caps _ Hwf) _ _ _ E) as (g & Hg & _). cbn in Hg.
    by rewrite (cap_wf_fresh _ _ (kw_caps _ Hwf)) in Hg. }
  rewrite Hn in Ha. destruct Ha as [-> Ha]. do 2 eexists. split; [reflexivity|]. split; [|by eapply Hs].
  rewrite Ha. by rewrite decide_True.
Qed.

(** C21. Two calls give any thread a kernel-mode thread at an address of its
    choice: [SYS_CAP_CREATE] mints the capability that [SYS_THREAD_CREATE]
    asks for, and the new thread starts with the kernel's selectors at the
    given entry point. *)
Theorem thread_create_escalates resume fuel k a t entry stack v addr x0 x1 x2 x3 x4 x5 :
  let call := rust_syscall_dispatcher switch_context resume fuel in
  kernel_wf k → room k → current (k_sched k) = Some a → lookup_thread (k_threads k) a = Some t →
  entry ≠ 0 → stack ≠ 0 → vm_alloc_pages (k_vm k) 4 = (v, Some addr) →
  ∃ k1 h, call k SYS_CAP_CREATE 0 x0 2 x3 x4 x5 = Return k1 h ∧
  ∃ k2 t', call k1 SYS_THREAD_CREATE entry stack x1 x2 x3 x4 = Return k2 (th_id t') ∧
    lookup_thread (k_threads k) (th_id t') = None ∧
    lookup_thread (k_threads k2) (th_id t') = Some t' ∧
    cs (th_context t') = 0x08 ∧ rip (th_context t') = entry ∧ th_state t' = Ready.
Proof.
  intros call Hwf Hroom Hcur Ht He Hs Hv. unfold call.
  change (rust_syscall_dispatcher _ _ _ _ SYS_CAP_CREATE _ _ _ _ _ _) with (sys_cap_create k 0 x0 2).
  destruct (cap_create_mints k a t 0 x0 2 (RThread x0)) as (cm & ths & -> & Hcap & Hst); [done..|].
  do 2 eexists. split; [reflexivity|].
  change (rust_syscall_dispatcher _ _ _ ?k1 SYS_THREAD_CREATE _ _ _ _ _ _) with (sys_thread_create k1 entry stack x1).
  unfold sys_thread_create. rewrite (proj2 (Z.eqb_neq _ _) He), (proj2 (Z.eqb_neq _ _) Hs). cbn [orb].
  unfold with_caller. cbn [set_k_caps k_sched k_threads k_vm]. rewrite Hcur.
  rewrite (holds_by_type ths a _ _ PERM_WRITE is_thread_resource Hcap) by done. cbn [negb].
  change (KERNEL_STACK_SIZE / 4096) with 4. rewrite Hv. 
  pose proof (next_tid_free k Hwf) as Hfree.
  do 2 eexists. split; [reflexivity|]. cbn [th_id set_k_sched set_k_next_tid set_k_vm set_k_caps k_next_tid k_threads].
  split; [done|]. rewrite lookup_add_thread. pose proof (Hst (k_next_tid k)) as Hn. rewrite Hfree in Hn.
  destruct (lookup_thread ths (k_next_tid k)); [done|]. by rewrite decide_True.
Qed.
End runs.

(** ** Witnesses *)

(** No device, and user memory that is mapped one to one. *)
#[local] Instance no_ps2 : Ps2 unit := {
  in_status d := (d, 0); in_data d := (d, 0); out_status d _ := d; out_data d _ := d;
}.

Definition flat_read (m : Memory) (a : Z) : Z := mem_read m (a - a mod 8) / 2 ^ (8 * (a mod 8)) mod 256.

Definition flat_write (m : Memory) (a b : Z) : Memory :=
  mem_write m (a - a mod 8) (mem_read m (a - a mod 8) + (b - flat_read m a) * 2 ^ (8 * (a mod 8))).

#[local] Instance flat_mmu : Mmu := {
  user_read v a n := Some (flat_read (vm_mem v) <$> seqZ a n);
  user_write v a bytes :=
    Some (vm_set_mem v (foldl (λ m '(i, b), flat_write m (a + i) b) (vm_mem v) (zip (seqZ 0 (Z.of_nat (length bytes))) bytes)));
}.

Definition no_switch (from to : CpuContext) : CpuContext := from.

Definition demo_start : Kernel unit :=
  kernel_initial tt (mkVm (init [mkDesc 7 0x10000 64]) {[ 0x2000 := 0x6f6c6c6568 ]} 0 0 0 []) None.

(** The idle thread and one more thread, which is then switched to. *)
Definition demo_idle : Kernel unit :=
  let '(t, next, mem) := Thread_new_idle 1 (vm_mem (k_vm demo_start)) 0x1000 0x9000 0x1000 in
  let '(s, ths, _) := sched_init (k_sched demo_start) [] t in
  set_k_sched (set_k_next_tid (set_k_vm demo_start (vm_set_mem (k_vm demo_start) mem)) next) s ths.

Definition demo_boot : Kernel unit :=
  let '(t, next, mem) := Thread_new 2 (vm_mem (k_vm demo_idle)) 0x1000 0xb000 0x1000 0 PrioNormal "init" in
  let '(s, ths, _) := sched_add_thread (k_sched demo_idle) (k_threads demo_idle) t in
  set_k_sched (set_k_next_tid (set_k_vm demo_idle (vm_set_mem (k_vm demo_idle) mem)) next) s ths.

Definition demo_call (k : Kernel unit) (num a0 a1 a2 a3 : Z) : Kernel unit * Z :=
  match rust_syscall_dispatcher no_switch id 10 k num a0 a1 a2 a3 0 0 with
  | Return k v => (k, v)
  | _ => (k, -1)
  end.

Definition demo_yielded : Kernel unit := (demo_call demo_boot SYS_THREAD_YIELD 0 0 0 0).1.
Definition demo_port : Kernel unit := (demo_call demo_yielded SYS_IPC_CREATE_PORT 0 0 0 0).1.

Lemma demo_boot_runs : kernel_runs no_switch demo_start demo_boot.
Proof.
  apply kr_trans with demo_idle.
  - refine (kr_idle no_switch demo_start 0x1000 0x9000 0x1000 _ _ _ _ _ _ _ _ eq_refl eq_refl); vm_compute; done.
  - refine (kr_thread no_switch demo_idle 0x1000 0xb000 0x1000 0 PrioNormal "init" _ _ _ _ _ _ _ eq_refl eq_refl).
    vm_compute. done.
Qed.

Lemma demo_call_runs k num a0 a1 a2 a3 :
  room k → (demo_call k num a0 a1 a2 a3).2 ≠ -1 → kernel_runs no_switch k (demo_call k num a0 a1 a2 a3).1.
Proof.
  intros Hr. unfold demo_call. destruct (rust_syscall_dispatcher _ _ _ _ _ _ _ _ _ _ _) as [k' v| |] eqn:E; [|done..].
  intros _. by refine (kr_syscall no_switch 10 id _ _ _ _ _ _ _ _ _ _ (λ k, kr_refl _ k) Hr E).
Qed.

Lemma demo_port_runs : kernel_runs no_switch demo_start demo_port.
Proof.
  apply kr_trans with demo_boot; [apply demo_boot_runs|].
  apply kr_trans with demo_yielded; apply demo_call_runs; (split; vm_compute; done) || (vm_compute; done).
Qed.

Lemma kernel_invariant_witness :
  kernel_runs no_switch demo_start demo_port ∧ kernel_wf demo_port ∧ current (k_sched demo_port) = Some 2.
Proof.
  split; [apply demo_port_runs|]. split; [|by vm_compute].
  exact (kernel_invariant no_switch tt _ None demo_port demo_port_runs).
Defined.



Lemma thread_create_escalates_witness :
  ∃ k1 h k2 t, rust_syscall_dispatcher no_switch id 10 demo_port SYS_CAP_CREATE 0 0 2 0 0 0 = Return k1 h ∧
    rust_syscall_dispatcher no_switch id 10 k1 SYS_THREAD_CREATE 0x400000 1 0 0 0 0 = Return k2 (th_id t) ∧
    lookup_thread (k_threads k2) (th_id t) = Some t ∧ cs (th_context t) = 0x08 ∧ rip (th_context t) = 0x400000.
Proof.
  destruct (lookup_thread (k_threads demo_port) 2) as [t2|] eqn:E2; [|by vm_compute in E2].
  destruct (vm_alloc_pages (k_vm demo_port) 4) as [v [addr|]] eqn:Ev; [|by vm_compute in Ev].
  destruct (thread_create_escalates no_switch id 10 demo_port 2 t2 0x400000 1 v addr 0 0 0 0 0 0)
    as (k1 & h & E1 & k2 & t & Hc & _ & Hl & Hcs & Hrip & _).
  - exact (kernel_runs_wf no_switch demo_start demo_port demo_port_runs (kernel_initial_wf _ _ _)).
  - split; by vm_compute.
  - by vm_compute.
  - exact E2.
  - done.
  - done.
  - exact Ev.
  - exists k1, h, k2, t. exact (conj E1 (conj Hc (conj Hl (conj Hcs Hrip)))).
Defined.

Lemma dispatcher_refuses_witness :
  rust_syscall_dispatcher no_switch id 10 demo_port 45 1 2 3 4 5 6 = Return demo_port ENOSYS ∧
  ∃ v, rust_syscall_dispatcher no_switch id 10 demo_start SYS_IPC_CLOSE_PORT 1 0 0 0 0 0 = Return demo_start v.
Proof.
  split; [apply (dispatcher_refuses no_switch id 10 demo_port 45); lia|].
  destruct (dispatcher_refuses no_switch id 10 demo_start SYS_IPC_CLOSE_PORT 1 0 0 0 0 0) as [_ [v [E _]]];
    [by apply (bool_decide_unpack _); vm_compute|done|]. exists v. exact E.
Defined.



