(* ===== verification/LibIpc.v ===== *)
(** * Messages of the user-space IPC library

    [libs/libipc]: the message header and the typed payloads with their byte
    encodings ([messages.rs]), the primitive readers and writers
    ([serialization.rs]), the framing of [protocol.rs] and the port sets of
    [ports.rs].  Signed fields are two's complement; a [String] is a list of
    bytes that is valid UTF-8. *)

From S2P Require Import Prelude.

(** ** Message types *)

Inductive MessageType :=
| MtKeyDown | MtKeyUp | MtKeyPress | MtMouseMove | MtMouseButtonDown | MtMouseButtonUp | MtMouseScroll
| MtCreateWindow | MtCreateWindowResponse | MtDestroyWindow | MtResizeWindow | MtMoveWindow | MtFocusWindow | MtWindowEvent
| MtGetFramebuffer | MtFramebufferInfo | MtInvalidateRect | MtPresent | MtCreateSurface | MtDestroySurface | MtBlitSurface
| MtRegisterService | MtLookupService | MtServiceInfo
| MtPing | MtPong | MtShutdown | MtError.

#[export] Instance MessageType_eq_dec : EqDecision MessageType.
Proof. solve_decision. Defined.

(** [msg_type as u32] *)
Definition mt_value (t : MessageType) : Z :=
  match t with
  | MtKeyDown => 1 | MtKeyUp => 2 | MtKeyPress => 3 | MtMouseMove => 10 | MtMouseButtonDown => 11
  | MtMouseButtonUp => 12 | MtMouseScroll => 13
  | MtCreateWindow => 100 | MtCreateWindowResponse => 101 | MtDestroyWindow => 102 | MtResizeWindow => 103
  | MtMoveWindow => 104 | MtFocusWindow => 105 | MtWindowEvent => 106
  | MtGetFramebuffer => 200 | MtFramebufferInfo => 201 | MtInvalidateRect => 202 | MtPresent => 203
  | MtCreateSurface => 210 | MtDestroySurface => 211 | MtBlitSurface => 212
  | MtRegisterService => 300 | MtLookupService => 301 | MtServiceInfo => 302
  | MtPing => 400 | MtPong => 401 | MtShutdown => 402 | MtError => 499
  end.

Definition message_types : list MessageType :=
  [MtKeyDown; MtKeyUp; MtKeyPress; MtMouseMove; MtMouseButtonDown; MtMouseButtonUp; MtMouseScroll;
   MtCreateWindow; MtCreateWindowResponse; MtDestroyWindow; MtResizeWindow; MtMoveWindow; MtFocusWindow; MtWindowEvent;
   MtGetFramebuffer; MtFramebufferInfo; MtInvalidateRect; MtPresent; MtCreateSurface; MtDestroySurface; MtBlitSurface;
   MtRegisterService; MtLookupService; MtServiceInfo; MtPing; MtPong; MtShutdown; MtError].

(** [MessageType::from_u32]: the match on the 28 values. *)
Definition from_u32 (value : Z) : option MessageType := find_first (λ t, mt_value t =? value) message_types.

(** ** The header *)

Record MessageHeader := mkMessageHeader { msg_type : MessageType; payload_size : Z; sequence : Z }.

(** [MessageHeader::SIZE] *)
Definition HEADER_SIZE : nat := 12.

(** [MessageHeader::new]; the counter [SEQUENCE] is passed along. *)
Definition MessageHeader_new (SEQUENCE : Z) (t : MessageType) (payload_size : Z) : MessageHeader * Z :=
  (mkMessageHeader t payload_size SEQUENCE, wrap32 (SEQUENCE + 1)).

Definition header_to_bytes (h : MessageHeader) : list Z :=
  le_bytes 4 (mt_value (msg_type h)) ++ le_bytes 4 (payload_size h) ++ le_bytes 4 (sequence h).

Definition header_from_bytes (bytes : list Z) : option MessageHeader :=
  if (length bytes <? HEADER_SIZE)%nat then None
  else
    t ← from_u32 (field bytes 0 4);
    Some (mkMessageHeader t (field bytes 4 4) (field bytes 8 4)).

(** ** Input events *)

Record KeyModifiers := mkModifiers { km_shift : bool; km_ctrl : bool; km_alt : bool; km_caps_lock : bool }.

Definition modifiers_to_u8 (m : KeyModifiers) : Z :=
  let flags := 0 in
  let flags := if km_shift m then Z.lor flags 0x01 else flags in
  let flags := if km_ctrl m then Z.lor flags 0x02 else flags in
  let flags := if km_alt m then Z.lor flags 0x04 else flags in
  if km_caps_lock m then Z.lor flags 0x08 else flags.

Definition modifiers_from_u8 (flags : Z) : KeyModifiers :=
  mkModifiers (negb (Z.land flags 0x01 =? 0)) (negb (Z.land flags 0x02 =? 0)) (negb (Z.land flags 0x04 =? 0))
    (negb (Z.land flags 0x08 =? 0)).

Record KeyMessage := mkKeyMessage { ke_scancode : Z; ke_character : Z; ke_modifiers : KeyModifiers }.

Definition key_to_bytes (e : KeyMessage) : list Z := [ke_scancode e; ke_character e; modifiers_to_u8 (ke_modifiers e)].

Definition key_from_bytes (bytes : list Z) : option KeyMessage :=
  match bytes with
  | scancode :: character :: flags :: _ => Some (mkKeyMessage scancode character (modifiers_from_u8 flags))
  | _ => None
  end.

Inductive MouseButton := MbLeft | MbRight | MbMiddle.

Definition button_value (b : MouseButton) : Z := match b with MbLeft => 0 | MbRight => 1 | MbMiddle => 2 end.

Definition button_from_u8 (value : Z) : option MouseButton :=
  if value =? 0 then Some MbLeft else if value =? 1 then Some MbRight else if value =? 2 then Some MbMiddle else None.

Record MouseMoveEvent := mkMove { mm_x : Z; mm_y : Z; mm_dx : Z; mm_dy : Z }.

Definition move_to_bytes (e : MouseMoveEvent) : list Z :=
  le_bytes 4 (mm_x e) ++ le_bytes 4 (mm_y e) ++ le_bytes 2 (mm_dx e) ++ le_bytes 2 (mm_dy e).

Definition move_from_bytes (bytes : list Z) : option MouseMoveEvent :=
  if (length bytes <? 12)%nat then None
  else Some (mkMove (to_signed 32 (field bytes 0 4)) (to_signed 32 (field bytes 4 4))
               (to_signed 16 (field bytes 8 2)) (to_signed 16 (field bytes 10 2))).

Record MouseButtonEvent := mkButton { mb_button : MouseButton; mb_x : Z; mb_y : Z }.

Definition button_to_bytes (e : MouseButtonEvent) : list Z :=
  le_bytes 1 (button_value (mb_button e)) ++ le_bytes 4 (mb_x e) ++ le_bytes 4 (mb_y e).

Definition button_from_bytes (bytes : list Z) : option MouseButtonEvent :=
  if (length bytes <? 9)%nat then None
  else
    b ← button_from_u8 (field bytes 0 1);
    Some (mkButton b (to_signed 32 (field bytes 1 4)) (to_signed 32 (field bytes 5 4))).

(** ** Windows *)

(** [core::str::from_utf8] accepts exactly the well-formed byte sequences of
    the Unicode standard. *)
Definition continuation (b : Z) : bool := (0x80 <=? b) && (b <=? 0xBF).
Definition between (lo hi b : Z) : bool := (lo <=? b) && (b <=? hi).

Fixpoint valid_utf8 (l : list Z) : bool :=
  match l with
  | [] => true
  | b0 :: l0 =>
      if between 0x00 0x7F b0 then valid_utf8 l0
      else
        match l0 with
        | [] => false
        | b1 :: l1 =>
            if between 0xC2 0xDF b0 then continuation b1 && valid_utf8 l1
            else
              match l1 with
              | [] => false
              | b2 :: l2 =>
                  if (b0 =? 0xE0) && between 0xA0 0xBF b1 || between 0xE1 0xEC b0 && continuation b1 ||
                     (b0 =? 0xED) && between 0x80 0x9F b1 || between 0xEE 0xEF b0 && continuation b1
                  then continuation b2 && valid_utf8 l2
                  else
                    match l2 with
                    | [] => false
                    | b3 :: l3 =>
                        ((b0 =? 0xF0) && between 0x90 0xBF b1 || between 0xF1 0xF3 b0 && continuation b1 ||
                         (b0 =? 0xF4) && between 0x80 0x8F b1) && continuation b2 && continuation b3 && valid_utf8 l3
                    end
              end
        end
  end.

Record CreateWindowRequest := mkCreateWindow { cw_width : Z; cw_height : Z; cw_title : list Z }.

Definition create_window_to_bytes (r : CreateWindowRequest) : list Z :=
  le_bytes 4 (cw_width r) ++ le_bytes 4 (cw_height r) ++ le_bytes 4 (Z.of_nat (length (cw_title r))) ++ cw_title r.

Definition create_window_from_bytes (bytes : list Z) : option CreateWindowRequest :=
  if (length bytes <? 12)%nat then None
  else
    let title_len := field bytes 8 4 in
    if Z.of_nat (length bytes) <? 12 + title_len then None
    else
      let title := take (Z.to_nat title_len) (drop 12 bytes) in
      if valid_utf8 title then Some (mkCreateWindow (field bytes 0 4) (field bytes 4 4) title) else None.

Record CreateWindowResponse := mkWindowResponse { wr_window_id : Z; wr_success : bool }.

Definition response_to_bytes (r : CreateWindowResponse) : list Z :=
  le_bytes 4 (wr_window_id r) ++ [if wr_success r then 1 else 0].

Definition response_from_bytes (bytes : list Z) : option CreateWindowResponse :=
  if (length bytes <? 5)%nat then None
  else Some (mkWindowResponse (field bytes 0 4) (negb (field bytes 4 1 =? 0))).

Inductive WindowEventType := WeResize | WeMove | WeFocus | WeUnfocus | WeClose | WeExpose.

Definition event_type_value (t : WindowEventType) : Z :=
  match t with WeResize => 1 | WeMove => 2 | WeFocus => 3 | WeUnfocus => 4 | WeClose => 5 | WeExpose => 6 end.

Definition event_type_from_u8 (value : Z) : option WindowEventType :=
  find_first (λ t, event_type_value t =? value) [WeResize; WeMove; WeFocus; WeUnfocus; WeClose; WeExpose].

Record WindowEventMsg := mkWindowEvent {
  we_window_id : Z;
  we_event_type : WindowEventType;
  we_x : Z;
  we_y : Z;
  we_width : Z;
  we_height : Z;
}.

Definition window_event_to_bytes (e : WindowEventMsg) : list Z :=
  le_bytes 4 (we_window_id e) ++ le_bytes 1 (event_type_value (we_event_type e)) ++
  le_bytes 4 (we_x e) ++ le_bytes 4 (we_y e) ++ le_bytes 4 (we_width e) ++ le_bytes 4 (we_height e).

Definition window_event_from_bytes (bytes : list Z) : option WindowEventMsg :=
  if (length bytes <? 21)%nat then None
  else
    t ← event_type_from_u8 (field bytes 4 1);
    Some (mkWindowEvent (field bytes 0 4) t (to_signed 32 (field bytes 5 4)) (to_signed 32 (field bytes 9 4))
            (field bytes 13 4) (field bytes 17 4)).

(** ** Graphics *)

Record FbMessage := mkFbMessage {
  fm_address : Z;
  fm_width : Z;
  fm_height : Z;
  fm_stride : Z;
  fm_bytes_per_pixel : Z;
  fm_size : Z;
}.

Definition fb_to_bytes (f : FbMessage) : list Z :=
  le_bytes 8 (fm_address f) ++ le_bytes 4 (fm_width f) ++ le_bytes 4 (fm_height f) ++ le_bytes 4 (fm_stride f) ++
  le_bytes 4 (fm_bytes_per_pixel f) ++ le_bytes 8 (fm_size f).

Definition fb_from_bytes (bytes : list Z) : option FbMessage :=
  if (length bytes <? 32)%nat then None
  else Some (mkFbMessage (field bytes 0 8) (field bytes 8 4) (field bytes 12 4) (field bytes 16 4)
               (field bytes 20 4) (field bytes 24 8)).

Record Rect := mkRect { rc_x : Z; rc_y : Z; rc_width : Z; rc_height : Z }.

Definition rect_to_bytes (r : Rect) : list Z :=
  le_bytes 4 (rc_x r) ++ le_bytes 4 (rc_y r) ++ le_bytes 4 (rc_width r) ++ le_bytes 4 (rc_height r).

Definition rect_from_bytes (bytes : list Z) : option Rect :=
  if (length bytes <? 16)%nat then None
  else Some (mkRect (to_signed 32 (field bytes 0 4)) (to_signed 32 (field bytes 4 4)) (field bytes 8 4) (field bytes 12 4)).

(** ** Primitive readers and writers ([serialization.rs]) *)

Definition read_u32 (bytes : list Z) : option Z := if (length bytes <? 4)%nat then None else Some (field bytes 0 4).
Definition read_u64 (bytes : list Z) : option Z := if (length bytes <? 8)%nat then None else Some (field bytes 0 8).
Definition read_i32 (bytes : list Z) : option Z :=
  if (length bytes <? 4)%nat then None else Some (to_signed 32 (field bytes 0 4)).
Definition read_i16 (bytes : list Z) : option Z :=
  if (length bytes <? 2)%nat then None else Some (to_signed 16 (field bytes 0 2)).

(** [bytes[0..n].copy_from_slice]; the flag is the returned [bool]. *)
Definition write_le (n : nat) (bytes : list Z) (value : Z) : list Z * bool :=
  if (length bytes <? n)%nat then (bytes, false) else (le_bytes n value ++ drop n bytes, true).
Definition write_u32 : list Z → Z → list Z * bool := write_le 4.
Definition write_u64 : list Z → Z → list Z * bool := write_le 8.
Definition write_i32 : list Z → Z → list Z * bool := write_le 4.
Definition write_i16 : list Z → Z → list Z * bool := write_le 2.

(** ** Framing ([protocol.rs]) *)

(** The bytes that [send_message] and [send_message_async] hand to the system
    call, and the next sequence number. *)
Definition frame_message (SEQUENCE : Z) (t : MessageType) (payload : list Z) : list Z * Z :=
  let '(header, next) := MessageHeader_new SEQUENCE t (wrap32 (Z.of_nat (length payload))) in
  (header_to_bytes header ++ payload, next).

(** What [recv_message] and [try_recv_message] make of [len] received bytes. *)
Definition parse_message (buffer : list Z) (len : Z) : option (MessageHeader * Z) :=
  if len <? Z.of_nat HEADER_SIZE then None
  else
    header ← header_from_bytes (take HEADER_SIZE buffer);
    Some (header, len).

Definition get_payload (buffer : list Z) (total_len : Z) : list Z :=
  if Z.of_nat HEADER_SIZE <? total_len then drop HEADER_SIZE (take (Z.to_nat total_len) buffer) else [].

Definition is_message_type (h : MessageHeader) (expected : MessageType) : bool := bool_decide (msg_type h = expected).

(** ** Services and port sets *)

Inductive ServiceId := SvDesktop | SvKeyboard | SvMouse | SvGraphics | SvTerminal.

Definition service_value (s : ServiceId) : Z :=
  match s with SvDesktop => 1 | SvKeyboard => 2 | SvMouse => 3 | SvGraphics => 4 | SvTerminal => 5 end.

Definition service_from_u32 (value : Z) : option ServiceId :=
  find_first (λ s, service_value s =? value) [SvDesktop; SvKeyboard; SvMouse; SvGraphics; SvTerminal].

Definition PortSet := list Z.
Definition PortSet_new : PortSet := [].
Definition portset_add (ports : PortSet) (port : Z) : PortSet := if decide (port ∈ ports) then ports else ports ++ [port].
Definition portset_remove (ports : PortSet) (port : Z) : PortSet := filter (λ p, p ≠ port) ports.
Definition portset_get (ports : PortSet) (index : nat) : option Z := ports !! index.
