(* ===== verification/LibIpcSafety.v ===== *)
(** * Messages of the user-space IPC library: properties

    The interface that every payload encoding satisfies, its instances, and
    what a receiver gets from a framed message. *)

From S2P Require Import Prelude LibIpc.

(** ** The interface *)

Class Codec (A : Type) := {
  encode : A → list Z;
  decode : list Z → option A;
  well_typed : A → Prop;
}.

(** An encoding reads back, whatever follows it; what is decoded from bytes is
    a value of the source's type and was not read past the end. *)
Class CodecLaws (A : Type) `{Codec A} : Prop := {
  encode_bytes x : well_typed x → Forall is_byte (encode x);
  decode_encode x rest : well_typed x → decode (encode x ++ rest) = Some x;
  decode_typed bytes x : Forall is_byte bytes → decode bytes = Some x → well_typed x;
  decode_length bytes x : decode bytes = Some x → (length (encode x) ≤ length bytes)%nat;
}.

(** ** Fields of concatenated bytes *)

Lemma field_here n x rest : field (le_bytes n x ++ rest) 0 n = wrap (8 * Z.of_nat n) x.
Proof. unfold field. rewrite drop_0, take_app_length'; [apply le_value_bytes|by rewrite length_le_bytes]. Qed.

Lemma field_skip l rest off len : field (l ++ rest) (length l + off) len = field rest off len.
Proof. unfold field. by rewrite drop_app_add. Qed.

Lemma field_next n x rest off len : (n ≤ off)%nat → field (le_bytes n x ++ rest) off len = field rest (off - n) len.
Proof.
  intros H. rewrite <- (field_skip (le_bytes n x) rest). f_equal. rewrite length_le_bytes. lia.
Qed.

Lemma field_signed bytes off w len : 0 < w → in_signed w (to_signed w (field bytes off len)).
Proof. apply to_signed_range. Qed.

Create HintDb codec discriminated.
#[export] Hint Rewrite length_app length_le_bytes @length_cons @length_nil : codec.

(** Reads every field of a concatenation of encodings. *)
Ltac read_fields :=
  repeat first [rewrite field_here | rewrite field_next by lia; cbn [Nat.sub]];
  change (8 * Z.of_nat 1) with 8; change (8 * Z.of_nat 2) with 16;
  change (8 * Z.of_nat 4) with 32; change (8 * Z.of_nat 8) with 64.

Ltac in_word := unfold in_range, in_signed in *; lia.

(** The fields are the values that were written. *)
Ltac same_fields :=
  repeat first [rewrite to_signed_wrap by in_word | rewrite wrap_small by in_word].

Lemma not_short (l : list Z) n rest : (n ≤ length l)%nat → (length (l ++ rest) <? n)%nat = false.
Proof. intros. apply Nat.ltb_ge. rewrite length_app. lia. Qed.

(** ** The instances *)

#[export] Instance header_codec : Codec MessageHeader := {
  encode := header_to_bytes; decode := header_from_bytes;
  well_typed h := in_range 32 (payload_size h) ∧ in_range 32 (sequence h);
}.

Lemma from_u32_value t : from_u32 (mt_value t) = Some t.
Proof. by destruct t. Qed.

Lemma mt_value_range t : in_range 32 (mt_value t).
Proof. unfold in_range. destruct t; cbn; lia. Qed.

(** Every decoder starts by refusing short input. *)
Ltac decoder :=
  match goal with |- (if (?a <? ?b)%nat then _ else _) = Some _ → _ => destruct (Nat.ltb_spec a b) as [|Hlen]; [done|] end.

Ltac typed_fields := split_and?; first [by apply to_signed_range | by apply field_range].

#[export] Instance header_laws : CodecLaws MessageHeader.
Proof.
  split; cbn [encode decode well_typed header_codec]; unfold header_from_bytes, header_to_bytes.
  - intros [t n q] _. rewrite !Forall_app. auto using le_bytes_byte.
  - intros [t n q] rest [Hn Hq]. cbn [msg_type payload_size sequence] in *.
    rewrite not_short by (autorewrite with codec; unfold HEADER_SIZE; lia). rewrite <- !app_assoc. read_fields.
    pose proof (mt_value_range t). same_fields. by rewrite from_u32_value.
  - intros bytes x Hb. decoder. destruct (from_u32 _) as [t|]; cbn [mbind option_bind]; [|done].
    intros [= <-]. cbn [msg_type payload_size sequence]. typed_fields.
  - intros bytes x. decoder. autorewrite with codec. intros _. unfold HEADER_SIZE in Hlen. lia.
Qed.

#[export] Instance key_codec : Codec KeyMessage := {
  encode := key_to_bytes; decode := key_from_bytes;
  well_typed e := is_byte (ke_scancode e) ∧ is_byte (ke_character e);
}.

Lemma modifiers_roundtrip m : is_byte (modifiers_to_u8 m) ∧ modifiers_from_u8 (modifiers_to_u8 m) = m.
Proof. unfold is_byte, in_range. destruct m as [[] [] [] []]; by vm_compute. Qed.

#[export] Instance key_laws : CodecLaws KeyMessage.
Proof.
  split; cbn [encode decode well_typed key_codec]; unfold key_to_bytes, key_from_bytes.
  - intros [s c m] [Hs Hc]. repeat constructor; [apply Hs|apply Hs|apply Hc|apply Hc|apply modifiers_roundtrip..].
  - intros [s c m] rest _. cbn. by rewrite (proj2 (modifiers_roundtrip m)).
  - intros [|s [|c [|f bytes]]] x Hb; try done. intros [= <-]. by inversion Hb as [|?? ? Hb']; inversion Hb'.
  - intros [|s [|c [|f bytes]]] x; try done. intros _. cbn. lia.
Qed.

#[export] Instance move_codec : Codec MouseMoveEvent := {
  encode := move_to_bytes; decode := move_from_bytes;
  well_typed e := in_signed 32 (mm_x e) ∧ in_signed 32 (mm_y e) ∧ in_signed 16 (mm_dx e) ∧ in_signed 16 (mm_dy e);
}.

#[export] Instance move_laws : CodecLaws MouseMoveEvent.
Proof.
  split; cbn [encode decode well_typed move_codec]; unfold move_from_bytes, move_to_bytes.
  - intros e _. rewrite !Forall_app. auto using le_bytes_byte.
  - intros [x y dx dy] rest (Hx & Hy & Hdx & Hdy). cbn [mm_x mm_y mm_dx mm_dy] in *.
    rewrite not_short by (autorewrite with codec; lia). rewrite <- !app_assoc. read_fields. by same_fields.
  - intros bytes x Hb. decoder. intros [= <-]. cbn [mm_x mm_y mm_dx mm_dy]. typed_fields.
  - intros bytes x. decoder. autorewrite with codec. lia.
Qed.

#[export] Instance button_codec : Codec MouseButtonEvent := {
  encode := button_to_bytes; decode := button_from_bytes;
  well_typed e := in_signed 32 (mb_x e) ∧ in_signed 32 (mb_y e);
}.

#[export] Instance button_laws : CodecLaws MouseButtonEvent.
Proof.
  split; cbn [encode decode well_typed button_codec]; unfold button_from_bytes, button_to_bytes.
  - intros e _. rewrite !Forall_app. auto using le_bytes_byte.
  - intros [b x y] rest (Hx & Hy). cbn [mb_button mb_x mb_y] in *.
    rewrite not_short by (autorewrite with codec; lia). rewrite <- !app_assoc. read_fields.
    same_fields. by destruct b.
  - intros bytes x Hb. decoder. destruct (button_from_u8 _) as [b|]; cbn [mbind option_bind]; [|done].
    intros [= <-]. cbn [mb_x mb_y]. typed_fields.
  - intros bytes x. decoder. autorewrite with codec. lia.
Qed.

#[export] Instance create_window_codec : Codec CreateWindowRequest := {
  encode := create_window_to_bytes; decode := create_window_from_bytes;
  well_typed r := in_range 32 (cw_width r) ∧ in_range 32 (cw_height r) ∧ in_range 32 (Z.of_nat (length (cw_title r))) ∧
    Forall is_byte (cw_title r) ∧ valid_utf8 (cw_title r) = true;
}.

Lemma drop_three (a b c : Z) l : drop 12 (le_bytes 4 a ++ le_bytes 4 b ++ le_bytes 4 c ++ l) = l.
Proof. reflexivity. Qed.

#[export] Instance create_window_laws : CodecLaws CreateWindowRequest.
Proof.
  split; cbn [encode decode well_typed create_window_codec]; unfold create_window_from_bytes, create_window_to_bytes.
  - intros r (_ & _ & _ & Ht & _). rewrite !Forall_app. auto using le_bytes_byte.
  - intros [w h t] rest (Hw & Hh & Hl & _ & Hv). cbn [cw_width cw_height cw_title] in *.
    rewrite not_short by (autorewrite with codec; lia). rewrite <- !app_assoc. read_fields. same_fields.
    rewrite (proj2 (Z.ltb_ge _ _)) by (autorewrite with codec; lia).
    rewrite drop_three, Nat2Z.id, take_app_length, Hv. done.
  - intros bytes x Hb. decoder. destruct (Z.ltb_spec (Z.of_nat (length bytes)) (12 + field bytes 8 4)) as [|Hl]; [done|].
    destruct (valid_utf8 _) eqn:Hv; [|done]. intros [= <-]. cbn [cw_width cw_height cw_title].
    pose proof (field_range bytes 8 4 32 Hb eq_refl) as Hf.
    split_and!; [by apply field_range..| |by apply Forall_take, Forall_drop|done].
    unfold in_range in *. rewrite length_take, length_drop. lia.
  - intros bytes x. decoder. destruct (Z.ltb_spec (Z.of_nat (length bytes)) (12 + field bytes 8 4)) as [|Hl]; [done|].
    destruct (valid_utf8 _); [|done]. intros [= <-]. cbn [cw_width cw_height cw_title]. autorewrite with codec.
    rewrite length_take, length_drop. lia.
Qed.

#[export] Instance response_codec : Codec CreateWindowResponse := {
  encode := response_to_bytes; decode := response_from_bytes; well_typed r := in_range 32 (wr_window_id r);
}.

#[export] Instance response_laws : CodecLaws CreateWindowResponse.
Proof.
  split; cbn [encode decode well_typed response_codec]; unfold response_from_bytes, response_to_bytes.
  - intros [w s] _. rewrite Forall_app. split; [apply le_bytes_byte|]. repeat constructor; destruct s; vm_compute; congruence.
  - intros [w s] rest Hw. cbn [wr_window_id wr_success] in *.
    rewrite not_short by (autorewrite with codec; lia). rewrite <- !app_assoc. read_fields. same_fields. by destruct s.
  - intros bytes x Hb. decoder. intros [= <-]. cbn [wr_window_id]. typed_fields.
  - intros bytes x. decoder. autorewrite with codec. lia.
Qed.

#[export] Instance window_event_codec : Codec WindowEventMsg := {
  encode := window_event_to_bytes; decode := window_event_from_bytes;
  well_typed e := in_range 32 (we_window_id e) ∧ in_signed 32 (we_x e) ∧ in_signed 32 (we_y e) ∧
    in_range 32 (we_width e) ∧ in_range 32 (we_height e);
}.

#[export] Instance window_event_laws : CodecLaws WindowEventMsg.
Proof.
  split; cbn [encode decode well_typed window_event_codec]; unfold window_event_from_bytes, window_event_to_bytes.
  - intros e _. rewrite !Forall_app. auto 7 using le_bytes_byte.
  - intros [i t x y w h] rest (Hi & Hx & Hy & Hw & Hh).
    cbn [we_window_id we_event_type we_x we_y we_width we_height] in *.
    rewrite not_short by (autorewrite with codec; lia). rewrite <- !app_assoc. read_fields. same_fields. by destruct t.
  - intros bytes x Hb. decoder. destruct (event_type_from_u8 _) as [t|]; cbn [mbind option_bind]; [|done].
    intros [= <-]. cbn [we_window_id we_x we_y we_width we_height]. typed_fields.
  - intros bytes x. decoder. autorewrite with codec. lia.
Qed.

#[export] Instance fb_codec : Codec FbMessage := {
  encode := fb_to_bytes; decode := fb_from_bytes;
  well_typed f := in_range 64 (fm_address f) ∧ in_range 32 (fm_width f) ∧ in_range 32 (fm_height f) ∧
    in_range 32 (fm_stride f) ∧ in_range 32 (fm_bytes_per_pixel f) ∧ in_range 64 (fm_size f);
}.

#[export] Instance fb_laws : CodecLaws FbMessage.
Proof.
  split; cbn [encode decode well_typed fb_codec]; unfold fb_from_bytes, fb_to_bytes.
  - intros e _. rewrite !Forall_app. auto 7 using le_bytes_byte.
  - intros [a w h s b z] rest (Ha & Hw & Hh & Hs & Hb & Hz).
    cbn [fm_address fm_width fm_height fm_stride fm_bytes_per_pixel fm_size] in *.
    rewrite not_short by (autorewrite with codec; lia). rewrite <- !app_assoc. read_fields. by same_fields.
  - intros bytes x Hb. decoder. intros [= <-].
    cbn [fm_address fm_width fm_height fm_stride fm_bytes_per_pixel fm_size]. typed_fields.
  - intros bytes x. decoder. autorewrite with codec. lia.
Qed.

#[export] Instance rect_codec : Codec Rect := {
  encode := rect_to_bytes; decode := rect_from_bytes;
  well_typed r := in_signed 32 (rc_x r) ∧ in_signed 32 (rc_y r) ∧ in_range 32 (rc_width r) ∧ in_range 32 (rc_height r);
}.

#[export] Instance rect_laws : CodecLaws Rect.
Proof.
  split; cbn [encode decode well_typed rect_codec]; unfold rect_from_bytes, rect_to_bytes.
  - intros e _. rewrite !Forall_app. auto using le_bytes_byte.
  - intros [x y w h] rest (Hx & Hy & Hw & Hh). cbn [rc_x rc_y rc_width rc_height] in *.
    rewrite not_short by (autorewrite with codec; lia). rewrite <- !app_assoc. read_fields. by same_fields.
  - intros bytes x Hb. decoder. intros [= <-]. cbn [rc_x rc_y rc_width rc_height]. typed_fields.
  - intros bytes x. decoder. autorewrite with codec. lia.
Qed.

(** ** Framed messages *)

Inductive Payload :=
| PKey (e : KeyMessage)
| PMouseMove (e : MouseMoveEvent)
| PMouseButton (e : MouseButtonEvent)
| PCreateWindow (r : CreateWindowRequest)
| PWindowResponse (r : CreateWindowResponse)
| PWindowEvent (e : WindowEventMsg)
| PFramebuffer (f : FbMessage)
| PRect (r : Rect).

Definition payload_bytes (p : Payload) : list Z :=
  match p with
  | PKey e => key_to_bytes e | PMouseMove e => move_to_bytes e | PMouseButton e => button_to_bytes e
  | PCreateWindow r => create_window_to_bytes r | PWindowResponse r => response_to_bytes r
  | PWindowEvent e => window_event_to_bytes e | PFramebuffer f => fb_to_bytes f | PRect r => rect_to_bytes r
  end.

(** The decoder of the kind of payload that [p] is. *)
Definition decode_like (p : Payload) (bytes : list Z) : option Payload :=
  match p with
  | PKey _ => PKey <$> key_from_bytes bytes
  | PMouseMove _ => PMouseMove <$> move_from_bytes bytes
  | PMouseButton _ => PMouseButton <$> button_from_bytes bytes
  | PCreateWindow _ => PCreateWindow <$> create_window_from_bytes bytes
  | PWindowResponse _ => PWindowResponse <$> response_from_bytes bytes
  | PWindowEvent _ => PWindowEvent <$> window_event_from_bytes bytes
  | PFramebuffer _ => PFramebuffer <$> fb_from_bytes bytes
  | PRect _ => PRect <$> rect_from_bytes bytes
  end.

Definition payload_ok (p : Payload) : Prop :=
  match p with
  | PKey e => well_typed e | PMouseMove e => well_typed e | PMouseButton e => well_typed e
  | PCreateWindow r => well_typed r | PWindowResponse r => well_typed r | PWindowEvent e => well_typed e
  | PFramebuffer f => well_typed f | PRect r => well_typed r
  end.

Lemma decode_like_bytes p rest : payload_ok p → decode_like p (payload_bytes p ++ rest) = Some p.
Proof.
  destruct p as [e|e|e|r|r|e|f|r]; cbn [payload_ok payload_bytes decode_like]; intros Hp;
    pose proof (decode_encode _ rest Hp) as E;
    cbn [encode decode key_codec move_codec button_codec create_window_codec response_codec window_event_codec
      fb_codec rect_codec] in E; by rewrite E.
Qed.

Lemma length_frame SEQUENCE t payload :
  length (frame_message SEQUENCE t payload).1 = (HEADER_SIZE + length payload)%nat.
Proof. cbn [frame_message MessageHeader_new fst]. rewrite length_app. done. Qed.

Lemma frame_header SEQUENCE t payload rest :
  in_range 32 SEQUENCE → Z.of_nat (length payload) < 2 ^ 32 →
  header_from_bytes (take HEADER_SIZE ((frame_message SEQUENCE t payload).1 ++ rest)) =
    Some (mkMessageHeader t (Z.of_nat (length payload)) SEQUENCE).
Proof.
  intros Hs Hl. cbn [frame_message MessageHeader_new fst]. rewrite wrap_small by (unfold in_range; lia).
  set (h := mkMessageHeader _ _ _). rewrite <- app_assoc. change HEADER_SIZE with (length (header_to_bytes h)).
  rewrite take_app_length, <- (app_nil_r (header_to_bytes h)). refine (decode_encode h [] _). split; [|done].
  unfold in_range. cbn [h payload_size]. lia.
Qed.

(** C25. A typed message reads back as sent: the receiver of the framed bytes, in
    a buffer of any size that holds them, gets the type, the payload size and
    the sequence number of the sender, and the payload decodes to the value that
    was sent. *)
Theorem message_roundtrip SEQUENCE t p rest :
  in_range 32 SEQUENCE → payload_ok p → Z.of_nat (length (payload_bytes p)) < 2 ^ 32 →
  let '(frame, next) := frame_message SEQUENCE t (payload_bytes p) in
  let len := Z.of_nat (length frame) in
  parse_message (frame ++ rest) len =
    Some (mkMessageHeader t (Z.of_nat (length (payload_bytes p))) SEQUENCE, len) ∧
  get_payload (frame ++ rest) len = payload_bytes p ∧
  decode_like p (get_payload (frame ++ rest) len) = Some p ∧
  in_range 32 next.
Proof.
  intros Hs Hp Hl. pose proof (frame_header SEQUENCE t (payload_bytes p) rest Hs Hl) as Hh.
  pose proof (length_frame SEQUENCE t (payload_bytes p)) as Hf.
  destruct (frame_message _ _ _) as [frame next] eqn:E. cbn [fst] in Hh, Hf. cbv zeta.
  assert (get_payload (frame ++ rest) (Z.of_nat (length frame)) = payload_bytes p) as Hg.
  { unfold get_payload. rewrite Nat2Z.id, take_app_length, Hf. injection E as <- _.
    destruct (payload_bytes p) as [|b bytes]; [done|]. by rewrite (proj2 (Z.ltb_lt _ _)) by (cbn [length]; lia). }
  split_and!.
  - unfold parse_message. rewrite (proj2 (Z.ltb_ge _ _)) by lia. by rewrite Hh.
  - done.
  - rewrite Hg, <- (app_nil_r (payload_bytes p)). by apply decode_like_bytes.
  - injection E as _ <-. by apply wrap_range.
Qed.


Lemma message_roundtrip_witness :
  decode_like (PMouseMove (mkMove 0 0 0 0))
    (get_payload ((frame_message 7 MtMouseMove (move_to_bytes (mkMove (-5) 600 (-1) 2))).1 ++ [9; 9]) 24) =
    Some (PMouseMove (mkMove (-5) 600 (-1) 2)).
Proof.
  assert (payload_ok (PMouseMove (mkMove (-5) 600 (-1) 2))) as Hp by (cbn; unfold in_signed; lia).
  pose proof (message_roundtrip 7 MtMouseMove (PMouseMove (mkMove (-5) 600 (-1) 2)) [9; 9]) as H.
  cbn [frame_message MessageHeader_new] in H. apply H; [|exact Hp|]; vm_compute; split; congruence || done.
Defined.

