(* ===== verification/TermParser.v ===== *)
(** * Terminal: command parser

    [drivers/terminal/src/parser.rs]: splitting a command line into a command
    and its arguments, numbers, paths and glob patterns.  A [&str] is the list
    of its bytes; slices that the source takes by index are [slice]. *)

From S2P Require Import Prelude.

Definition MAX_ARGS : nat := 16.

(** ** Characters *)

Definition SPACE : Z := 32.
Definition DQUOTE : Z := 34.
Definition SQUOTE : Z := 39.
Definition STAR : Z := 42.
Definition QMARK : Z := 63.
Definition SLASH : Z := 47.
Definition DASH : Z := 45.

(** [u8::is_ascii_whitespace] and [char::is_ascii_whitespace] *)
Definition is_ascii_whitespace (b : Z) : bool :=
  (b =? 32) || (b =? 9) || (b =? 10) || (b =? 12) || (b =? 13).

Definition to_ascii_lowercase (b : Z) : Z := if (65 <=? b) && (b <=? 90) then b + 32 else b.
Definition to_ascii_uppercase (b : Z) : Z := if (97 <=? b) && (b <=? 122) then b - 32 else b.

Definition eq_ignore_ascii_case (s t : list Z) : bool :=
  bool_decide (to_ascii_lowercase <$> s = to_ascii_lowercase <$> t).

(** [str::trim] removes the characters with the Unicode property [White_Space];
    these are their UTF-8 encodings. *)
Definition white_space : list (list Z) :=
  ((λ b, [b]) <$> [9; 10; 11; 12; 13; 32]) ++ [[0xC2; 0x85]; [0xC2; 0xA0]; [0xE1; 0x9A; 0x80]] ++
  ((λ b, [0xE2; 0x80; b]) <$> (seqZ 0x80 11 ++ [0xA8; 0xA9; 0xAF])) ++ [[0xE2; 0x81; 0x9F]; [0xE3; 0x80; 0x80]].

Fixpoint strip (ws s : list Z) : option (list Z) :=
  match ws, s with
  | [], _ => Some s
  | w :: ws, b :: s => if w =? b then strip ws s else None
  | _ :: _, [] => None
  end.

Fixpoint strip_any (chars : list (list Z)) (s : list Z) : option (list Z) :=
  match chars with
  | [] => None
  | c :: chars => match strip c s with Some s => Some s | None => strip_any chars s end
  end.

(** Each round removes at least one byte, so [length s] rounds are enough. *)
Fixpoint strip_all (chars : list (list Z)) (fuel : nat) (s : list Z) : list Z :=
  match fuel with
  | O => s
  | S fuel => match strip_any chars s with Some s => strip_all chars fuel s | None => s end
  end.

Definition trim_start (s : list Z) : list Z := strip_all white_space (length s) s.
Definition trim_end (s : list Z) : list Z := reverse (strip_all (reverse <$> white_space) (length s) (reverse s)).
Definition trim (s : list Z) : list Z := trim_end (trim_start s).

(** ** Commands *)

Record ParsedCommand := mkCommand { command : list Z; args : list (list Z) }.

Definition arg (c : ParsedCommand) (index : nat) : option (list Z) := args c !! index.

Definition is_command (c : ParsedCommand) (name : list Z) : bool := eq_ignore_ascii_case (command c) name.

Definition has_flag (c : ParsedCommand) (short long : list Z) : bool :=
  existsb (λ a, bool_decide (a = short) || bool_decide (a = long)) (args c).

(** The first flag that has an argument after it. *)
Fixpoint get_option_in (l : list (list Z)) (short long : list Z) : option (list Z) :=
  match l with
  | a :: ((b :: _) as rest) =>
      if bool_decide (a = short) || bool_decide (a = long) then Some b else get_option_in rest short long
  | _ => None
  end.
Definition get_option (c : ParsedCommand) : list Z → list Z → option (list Z) := get_option_in (args c).

Definition starts_with_dash (a : list Z) : bool := match a with b :: _ => b =? DASH | [] => false end.

Definition positional_args (c : ParsedCommand) : list (list Z) := filter (λ a, starts_with_dash a = false) (args c).

(** The variables of the loop of [parse_command]. *)
Record Scan := mkScan {
  in_quotes : bool;
  quote_char : Z;
  token_start : nat;
  in_token : bool;
  sc_command : list Z;
  sc_args : list (list Z);
}.

Definition Scan_start : Scan := mkScan false SPACE 0 false [] [].

Definition slice (s : list Z) (start stop : nat) : list Z := take (stop - start) (drop start s).

(** [if command.is_empty() { command = token } else if arg_count < MAX_ARGS
    { args[arg_count] = token; .. }], and the end of the token. *)
Definition add_token (st : Scan) (in_quotes : bool) (token : list Z) : Scan :=
  match sc_command st with
  | [] => mkScan in_quotes (quote_char st) (token_start st) false token (sc_args st)
  | _ =>
      if (length (sc_args st) <? MAX_ARGS)%nat then
        mkScan in_quotes (quote_char st) (token_start st) false (sc_command st) (sc_args st ++ [token])
      else mkScan in_quotes (quote_char st) (token_start st) false (sc_command st) (sc_args st)
  end.

(** One turn of [for i in 0..=len]. *)
Definition scan_byte (s : list Z) (st : Scan) (i : nat) : Scan :=
  let len := length s in
  let ch := if (i <? len)%nat then default 0 (s !! i) else SPACE in
  let is_end := (i =? len)%nat in
  if in_quotes st then
    if ch =? quote_char st then
      if is_end || ((i + 1 <? len)%nat && is_ascii_whitespace (default 0 (s !! (i + 1)%nat))) then
        add_token st false (slice s (token_start st) i)
      else mkScan false (quote_char st) (token_start st) (in_token st) (sc_command st) (sc_args st)
    else st
  else if (ch =? DQUOTE) || (ch =? SQUOTE) then
    if negb (in_token st) then mkScan true ch (i + 1) true (sc_command st) (sc_args st) else st
  else if is_ascii_whitespace ch || is_end then
    if in_token st then add_token st false (slice s (token_start st) i) else st
  else
    if negb (in_token st) then mkScan false (quote_char st) i true (sc_command st) (sc_args st) else st.

Definition parse_command (input : list Z) : option ParsedCommand :=
  let trimmed := trim input in
  match trimmed with
  | [] => None
  | _ =>
      let st := foldl (scan_byte trimmed) Scan_start (seq 0 (S (length trimmed))) in
      match sc_command st with
      | [] => None
      | command => Some (mkCommand command (sc_args st))
      end
  end.

(** ** Paths and numbers *)

Fixpoint split_on (sep : Z) (s : list Z) : list (list Z) :=
  match s with
  | [] => [[]]
  | b :: s =>
      if b =? sep then [] :: split_on sep s
      else match split_on sep s with part :: parts => (b :: part) :: parts | [] => [[b]] end
  end.

Definition split_path (path : list Z) : list (list Z) := filter (λ p, p ≠ []) (split_on SLASH path).

(** [char::to_digit] *)
Definition to_digit (radix b : Z) : option Z :=
  let d :=
    if (48 <=? b) && (b <=? 57) then b - 48
    else if (97 <=? b) && (b <=? 122) then b - 97 + 10
    else if (65 <=? b) && (b <=? 90) then b - 65 + 10
    else radix in
  if d <? radix then Some d else None.

Fixpoint digits (radix acc : Z) (s : list Z) : option Z :=
  match s with
  | [] => Some acc
  | b :: s =>
      d ← to_digit radix b;
      if U64_MAX <? acc * radix + d then None else digits radix (acc * radix + d) s
  end.

(** [u64::from_str_radix]: a sign alone is an error, a leading [+] is allowed. *)
Definition from_str_radix (s : list Z) (radix : Z) : option Z :=
  match s with
  | [] => None
  | [b] => if (b =? 43) || (b =? 45) then None else digits radix 0 s
  | b :: rest => if b =? 43 then digits radix 0 rest else digits radix 0 s
  end.

Definition parse_number (s : list Z) : option Z :=
  match s with
  | 48 :: x :: rest =>
      if (x =? 120) || (x =? 88) then from_str_radix rest 16
      else if (x =? 98) || (x =? 66) then from_str_radix rest 2
      else if (x =? 111) || (x =? 79) then from_str_radix rest 8
      else from_str_radix s 10
  | _ => from_str_radix s 10
  end.

(** ** Glob patterns

    [star] is [(star_pi, star_ti)], [None] while both are [usize::MAX]. *)
Fixpoint skip_stars (p : list Z) : list Z :=
  match p with b :: p' => if b =? STAR then skip_stars p' else p | [] => [] end.

Fixpoint glob_loop (fuel : nat) (p t : list Z) (pi ti : nat) (star : option (nat * nat)) : option bool :=
  match fuel with
  | O => None
  | S fuel =>
      match t !! ti with
      | None => Some (bool_decide (skip_stars (drop pi p) = []))
      | Some c =>
          match p !! pi with
          | Some b =>
              if (b =? QMARK) || (b =? c) then glob_loop fuel p t (pi + 1) (ti + 1) star
              else if b =? STAR then glob_loop fuel p t (pi + 1) ti (Some (pi, ti))
              else
                match star with
                | Some (star_pi, star_ti) => glob_loop fuel p t (star_pi + 1) (star_ti + 1) (Some (star_pi, star_ti + 1)%nat)
                | None => Some false
                end
          | None =>
              match star with
              | Some (star_pi, star_ti) => glob_loop fuel p t (star_pi + 1) (star_ti + 1) (Some (star_pi, star_ti + 1)%nat)
              | None => Some false
              end
          end
      end
  end.

(** Turns enough for any pattern and text (see [glob_loop_total]). *)
Definition glob_fuel (p t : list Z) : nat := S ((length p + 1) * (length t + 1) * (length t + 1)).

Definition glob_match (p t : list Z) : option bool := glob_loop (glob_fuel p t) p t 0 0 None.
