(* ===== verification/TermParserSafety.v ===== *)
(** * Terminal: properties of the command parser

    Glob matching against its declarative meaning, command lines against their
    printed tokens, numbers against their digits. *)

From S2P Require Import Prelude TermParser.

(** ** Glob patterns *)

(** A star stands for any text, a question mark for any byte, every other byte
    for itself. *)
Inductive gmatch : list Z → list Z → Prop :=
| gm_nil : gmatch [] []
| gm_star_nil p t : gmatch p t → gmatch (STAR :: p) t
| gm_star_cons p c t : gmatch (STAR :: p) t → gmatch (STAR :: p) (c :: t)
| gm_any p c t : gmatch p t → gmatch (QMARK :: p) (c :: t)
| gm_byte b p t : b ≠ STAR → b ≠ QMARK → gmatch p t → gmatch (b :: p) (b :: t).

Lemma gmatch_star p t : gmatch (STAR :: p) t ↔ ∃ k, (k ≤ length t)%nat ∧ gmatch p (drop k t).
Proof.
  split.
  - remember (STAR :: p) as q eqn:Eq. induction 1 as [|p' t' H|p' c t' H IH|p' c t' H|b p' t' ? ? H]; simplify_eq.
    + exists 0%nat. split; [lia|]. done.
    + destruct (IH eq_refl) as (k & Hk & Hm). exists (S k). split; [cbn; lia|done].
  - intros (k & Hk & Hm). revert t Hk Hm. induction k as [|k IH]; intros t Hk Hm; [by apply gm_star_nil|].
    destruct t as [|c t]; [cbn in Hk; lia|]. apply gm_star_cons, IH; [cbn in Hk; lia|done].
Qed.

(** Matching one pattern byte that is not a star. *)
Lemma gmatch_one b p c t :
  b ≠ STAR → gmatch (b :: p) (c :: t) ↔ (b = QMARK ∨ b = c) ∧ gmatch p t.
Proof.
  intros Hb. split.
  - inversion 1; simplify_eq; auto.
  - intros [[->| ->] H]; [by apply gm_any|]. destruct (decide (c = QMARK)) as [->|]; [by apply gm_any|by apply gm_byte].
Qed.

Lemma gmatch_nil_l t : gmatch [] t ↔ t = [].
Proof. split; [by inversion 1|]. intros ->. constructor. Qed.

Lemma gmatch_nil_r p : gmatch p [] ↔ skip_stars p = [].
Proof.
  split.
  - remember [] as t eqn:Et. induction 1; simplify_eq; cbn [skip_stars]; [done|]. rewrite Z.eqb_refl. auto.
  - induction p as [|b p IH]; [constructor|]. cbn [skip_stars]. destruct (Z.eqb_spec b STAR) as [->|]; [|done].
    intros H. by apply gm_star_nil, IH.
Qed.

(** A segment without stars takes one byte for each of its own. *)
Lemma gmatch_segment seg p t :
  STAR ∉ seg → gmatch (seg ++ p) t → (length seg ≤ length t)%nat ∧ gmatch p (drop (length seg) t).
Proof.
  revert t. induction seg as [|b seg IH]; intros t Hs; [by split; [cbn; lia|]|]. cbn [app].
  assert (b ≠ STAR ∧ STAR ∉ seg) as [Hb Hs'] by set_solver. destruct t as [|c t].
  - inversion 1; simplify_eq; done.
  - rewrite gmatch_one by done. intros [_ H]. apply IH in H as [H1 H2]; [|done]. split; [cbn; lia|done].
Qed.

(** What the loop remembers: where the last star is, and that the pattern
    between it and [pi] has no star and is matched from [star_ti] up to [ti]. *)
Record glob_inv (p t : list Z) (pi ti : nat) (star : option (nat * nat)) : Prop := {
  gi_pi : (pi ≤ length p)%nat;
  gi_ti : (ti ≤ length t)%nat;
  gi_star : match star with
    | None => True
    | Some (sp, st) => ∃ seg, drop (sp + 1) p = seg ++ drop pi p ∧ STAR ∉ seg ∧ pi = (sp + 1 + length seg)%nat ∧
        ti = (st + length seg)%nat
    end;
  gi_match : gmatch p t ↔ gmatch (drop pi p) (drop ti t) ∨
    match star with
    | None => False
    | Some (sp, st) => ∃ k, (st < k ≤ length t)%nat ∧ gmatch (drop (sp + 1) p) (drop k t)
    end;
}.

Lemma glob_inv_start p t : glob_inv p t 0 0 None.
Proof. split; [lia|lia|done|]. rewrite !drop_0. naive_solver. Qed.

(** Going on after the last star subsumes retrying it, once a new star or the
    end of the text is reached. *)
Lemma retry_subsumed p t pi ti sp st k :
  glob_inv p t pi ti (Some (sp, st)) → (st < k ≤ length t)%nat → gmatch (drop (sp + 1) p) (drop k t) →
  (∃ j, (ti < j ≤ length t)%nat ∧ gmatch (drop pi p) (drop j t)).
Proof.
  intros Hinv Hk Hm. destruct (gi_star _ _ _ _ _ Hinv) as (seg & Es & Hs & -> & ->). rewrite Es in Hm.
  apply gmatch_segment in Hm as [Hl Hm]; [|done]. rewrite length_drop in Hl. rewrite drop_drop in Hm.
  exists (k + length seg)%nat. split; [lia|]. done.
Qed.

Lemma step_match p t pi ti star c b :
  glob_inv p t pi ti star → STAR ∉ t → t !! ti = Some c → p !! pi = Some b → b = QMARK ∨ b = c → glob_inv p t (pi + 1) (ti + 1) star.
Proof.
  intros Hinv Ht Hc Hb Heq. assert (b ≠ STAR) as Hns.
  { destruct Heq as [-> | ->]; [done|]. intros ->. by apply Ht, (list_elem_of_lookup_2 _ ti). }
  pose proof (lookup_lt_Some _ _ _ Hc). pose proof (lookup_lt_Some _ _ _ Hb). destruct Hinv as [_ _ Hstar Hm].
  split; [lia|lia| |].
  - destruct star as [[sp st]|]; [|done]. destruct Hstar as (seg & Es & Hs & -> & ->). exists (seg ++ [b]).
    rewrite (drop_S _ _ _ Hb), cons_middle, app_assoc in Es. rewrite length_app. cbn [length].
    split_and!; [rewrite Es; do 2 f_equal; lia|set_solver|lia|lia].
  - rewrite Hm, (drop_S _ _ _ Hc), (drop_S _ _ _ Hb), !Nat.add_1_r, gmatch_one by done. naive_solver.
Qed.

Lemma step_star p t pi ti star : glob_inv p t pi ti star → p !! pi = Some STAR → glob_inv p t (pi + 1) ti (Some (pi, ti)).
Proof.
  intros Hinv Hb. pose proof (lookup_lt_Some _ _ _ Hb). pose proof (gi_ti _ _ _ _ _ Hinv). split; [lia|lia| |].
  - exists []. cbn. split_and!; [done|set_solver|lia|lia].
  - rewrite (gi_match _ _ _ _ _ Hinv). rewrite (drop_S _ _ _ Hb), gmatch_star, Nat.add_1_r, length_drop. split.
    + intros [(k & Hk & Hm)|Hr].
      * rewrite drop_drop in Hm. destruct k as [|k]; [left; by rewrite Nat.add_0_r in Hm|].
        right. exists (ti + S k)%nat. split; [lia|done].
      * destruct star as [[sp st]|]; [|done]. destruct Hr as (k & Hk & Hm).
        destruct (retry_subsumed p t pi ti sp st k) as (j & Hj & Hm'); [done..|].
        rewrite (drop_S _ _ _ Hb), gmatch_star in Hm'. destruct Hm' as (i & Hi & Hm'). rewrite drop_drop in Hm'.
        rewrite length_drop in Hi. right. exists (j + i)%nat. split; [lia|done].
    + intros [Hm|(k & Hk & Hm)].
      * left. exists 0%nat. split; [lia|]. by rewrite drop_0.
      * left. exists (k - ti)%nat. split; [lia|]. rewrite drop_drop. by replace (ti + (k - ti))%nat with k by lia.
Qed.

(** No match from here: the star takes one more byte. *)
Lemma step_retry p t pi ti sp st :
  glob_inv p t pi ti (Some (sp, st)) → (ti < length t)%nat → ¬ gmatch (drop pi p) (drop ti t) →
  glob_inv p t (sp + 1) (st + 1) (Some (sp, (st + 1)%nat)).
Proof.
  intros Hinv Hti Hno. destruct (gi_star _ _ _ _ _ Hinv) as (seg & Es & Hs & Epi & Eti).
  pose proof (gi_pi _ _ _ _ _ Hinv). split; [lia|lia| |].
  - exists []. cbn. split_and!; [done|set_solver|lia|lia].
  - rewrite (gi_match _ _ _ _ _ Hinv). split.
    + intros [?|(k & Hk & Hm)]; [done|]. destruct (decide (k = st + 1)%nat) as [->|]; [by left|].
      right. exists k. split; [lia|done].
    + intros [Hm|(k & Hk & Hm)]; right; [exists (st + 1)%nat|exists k]; split; (lia || done).
Qed.

Lemma step_end p t pi star : glob_inv p t pi (length t) star → gmatch p t ↔ skip_stars (drop pi p) = [].
Proof.
  intros Hinv. rewrite (gi_match _ _ _ _ _ Hinv), <- gmatch_nil_r, drop_all. split; [|by left].
  intros [?|Hr]; [done|]. destruct star as [[sp st]|]; [|done]. destruct Hr as (k & Hk & Hm).
  destruct (retry_subsumed p t pi (length t) sp st k) as (j & Hj & _); [done..|]. lia.
Qed.

(** The number of turns left, at most: stars ahead, bytes the last star can
    still take, bytes of the text. *)
Definition glob_turns (p t : list Z) (ti : nat) (star : option (nat * nat)) : nat :=
  let n := S (length t) in
  let stars := match star with None => (length p, length t) | Some (sp, st) => (length p - (sp + 1), length t - st)%nat end in
  S ((stars.1 * n + stars.2) * n + (length t - ti)).

Lemma turns_match p t ti star : (ti < length t)%nat → (glob_turns p t (ti + 1) star < glob_turns p t ti star)%nat.
Proof. unfold glob_turns. cbv zeta. lia. Qed.

Lemma turns_star p t pi ti star :
  glob_inv p t pi ti star → (pi < length p)%nat → (ti < length t)%nat →
  (glob_turns p t ti (Some (pi, ti)) < glob_turns p t ti star)%nat.
Proof.
  intros Hinv Hpi Hti. unfold glob_turns. cbv zeta. cbn [fst snd]. destruct star as [[sp st]|]; cbn [fst snd]; [|nia].
  destruct (gi_star _ _ _ _ _ Hinv) as (seg & _ & _ & -> & _). nia.
Qed.

Lemma turns_retry p t ti sp st :
  (st < length t)%nat → (ti ≤ length t)%nat →
  (glob_turns p t (st + 1) (Some (sp, (st + 1)%nat)) < glob_turns p t ti (Some (sp, st)))%nat.
Proof. intros. unfold glob_turns. cbv zeta. cbn [fst snd]. nia. Qed.

(** Enough turns give the answer, and it is the declarative one. *)
Lemma glob_loop_total p t fuel pi ti star :
  STAR ∉ t → glob_inv p t pi ti star → (glob_turns p t ti star ≤ fuel)%nat →
  ∃ r, glob_loop fuel p t pi ti star = Some r ∧ (r = true ↔ gmatch p t).
Proof.
  intros Ht. revert pi ti star. induction fuel as [|fuel IH]; intros pi ti star Hinv Hf; [unfold glob_turns in Hf; lia|].
  cbn [glob_loop]. pose proof (gi_ti _ _ _ _ _ Hinv) as Hti. destruct (t !! ti) as [c|] eqn:Hc.
  2:{ apply lookup_ge_None in Hc. assert (ti = length t) as -> by lia. eexists. split; [done|].
      rewrite bool_decide_eq_true. by rewrite (step_end p t pi star). }
  pose proof (lookup_lt_Some _ _ _ Hc) as Hlt.
  assert (¬ gmatch (drop pi p) (drop ti t) → ∃ r,
    match star with
    | Some (sp, st) => glob_loop fuel p t (sp + 1) (st + 1) (Some (sp, (st + 1)%nat))
    | None => Some false
    end = Some r ∧ (r = true ↔ gmatch p t)) as Hretry.
  { intros Hno. destruct star as [[sp st]|].
    - assert (st < length t)%nat by (destruct (gi_star _ _ _ _ _ Hinv) as (seg & _ & _ & _ & ?); lia).
      apply IH; [by eapply step_retry|]. pose proof (turns_retry p t ti sp st). lia.
    - exists false. split; [done|]. rewrite (gi_match _ _ _ _ _ Hinv). naive_solver. }
  destruct (p !! pi) as [b|] eqn:Hb.
  2:{ apply Hretry. apply lookup_ge_None in Hb. rewrite (drop_ge p) by done. rewrite (drop_S _ _ _ Hc), gmatch_nil_l. done. }
  pose proof (lookup_lt_Some _ _ _ Hb). destruct ((b =? QMARK) || (b =? c)) eqn:Em.
  - apply orb_true_iff in Em as [Em|Em]; apply Z.eqb_eq in Em;
      (apply IH; [eapply step_match; eauto|pose proof (turns_match p t ti star); lia]).
  - apply orb_false_iff in Em as [E1 E2]. apply Z.eqb_neq in E1, E2. destruct (Z.eqb_spec b STAR) as [->|Hs].
    + apply IH; [by eapply step_star|]. pose proof (turns_star p t pi ti star Hinv ltac:(lia) ltac:(lia)). lia.
    + apply Hretry. rewrite (drop_S _ _ _ Hc), (drop_S _ _ _ Hb), gmatch_one by done. naive_solver.
Qed.

(** On a text without stars glob matching ends with an answer, and the answer
    is the declarative meaning of the pattern, although the loop only ever goes
    back to the last star. *)
Theorem glob_match_correct p t :
  STAR ∉ t → ∃ r, glob_match p t = Some r ∧ (r = true ↔ gmatch p t).
Proof.
  intros Ht. apply glob_loop_total; [done|apply glob_inv_start|].
  unfold glob_turns, glob_fuel. cbn [fst snd]. nia.
Qed.

(** A star in the text is taken as an ordinary byte of the pattern first. *)
Lemma glob_star_text : glob_match [STAR] [STAR; 97] = Some false ∧ gmatch [STAR] [STAR; 97].
Proof. split; [by vm_compute|]. apply gmatch_star. exists 2%nat. split; [cbn; lia|constructor]. Qed.

Lemma glob_match_correct_witness : ∃ r, glob_match [STAR; 46; 116] [97; 46; 98; 46; 116] = Some r ∧ r = true.
Proof.
  destruct (glob_match_correct [STAR; 46; 116] [97; 46; 98; 46; 116]) as (r & E & _).
  - apply (bool_decide_unpack _). vm_compute. exact I.
  - exists r. split; [exact E|]. vm_compute in E. congruence.
Defined.

(** ** Command lines *)

(** What a token can be written as: a word, or text between two quotes of the
    kind that it does not contain. *)
Inductive Token :=
| Word (w : list Z)
| Quoted (q : Z) (body : list Z).

Definition token_text (t : Token) : list Z := match t with Word w => w | Quoted _ body => body end.

Definition print_token (t : Token) : list Z := match t with Word w => w | Quoted q body => q :: body ++ [q] end.

Definition graphic (b : Z) : Prop := 0x21 ≤ b ≤ 0x7E.
Definition is_quote (b : Z) : bool := (b =? DQUOTE) || (b =? SQUOTE).

Definition token_ok (t : Token) : Prop :=
  match t with
  | Word w => Forall graphic w ∧ match w with b :: _ => is_quote b = false | [] => False end
  | Quoted q body => is_quote q = true ∧ q ∉ body
  end.

(** Tokens separated by single spaces, then a last word. *)
Fixpoint print_line (toks : list Token) (last : list Z) : list Z :=
  match toks with [] => last | t :: toks => print_token t ++ SPACE :: print_line toks last end.

(** Where a token goes. *)
Definition push_token (acc : list Z * list (list Z)) (token : list Z) : list Z * list (list Z) :=
  match acc.1 with
  | [] => (token, acc.2)
  | _ => if (length acc.2 <? MAX_ARGS)%nat then (acc.1, acc.2 ++ [token]) else acc
  end.

Definition idle (st : Scan) (acc : list Z * list (list Z)) : Prop :=
  in_quotes st = false ∧ in_token st = false ∧ (sc_command st, sc_args st) = acc.

Abbreviation run s st i n := (foldl (scan_byte s) st (seq i n)).

Lemma run_app s st i n m : run s st i (n + m) = run s (run s st i n) (i + n) m.
Proof. by rewrite seq_app, foldl_app. Qed.

Lemma add_token_idle st token : idle (add_token st false token) (push_token (sc_command st, sc_args st) token).
Proof. unfold idle, add_token, push_token. cbn [fst snd]. repeat case_match; by split_and!. Qed.

(** The byte at the head of what is left. *)
Lemma byte_at (s : list Z) i l b rest : drop i s = l ++ b :: rest → s !! (i + length l)%nat = Some b ∧ (i + length l < length s)%nat.
Proof.
  intros E. assert (s !! (i + length l)%nat = Some b) as H.
  { rewrite <- lookup_drop, E. by apply list_lookup_middle. }
  split; [done|]. by eapply lookup_lt_Some.
Qed.

Lemma graphic_plain b : graphic b → is_ascii_whitespace b = false.
Proof.
  unfold graphic, is_ascii_whitespace. intros H.
  by rewrite !(proj2 (Z.eqb_neq _ _)) by lia.
Qed.

(** Inside a word nothing changes until white space. *)
Lemma run_inside s st i l rest :
  in_quotes st = false → in_token st = true → Forall graphic l → drop i s = l ++ rest → run s st i (length l) = st.
Proof.
  intros Hq Ht Hl. revert i. induction Hl as [|b l Hb Hl IH]; intros i E; [done|]. cbn [length seq foldl].
  destruct (byte_at s i [] b (l ++ rest) E) as [Hs Hi]. rewrite Nat.add_0_r in Hs, Hi.
  assert (scan_byte s st i = st) as ->; [|apply IH].
  - unfold scan_byte. rewrite (proj2 (Nat.ltb_lt _ _)), (proj2 (Nat.eqb_neq _ _)), Hs, Hq, Ht, graphic_plain by (done || lia).
    cbn [default id negb]. by case_match.
  - by rewrite <- Nat.add_1_r, <- drop_drop, E.
Qed.

(** White space or the end closes the word. *)
Lemma scan_close s st i :
  in_quotes st = false → in_token st = true → (s !! i = Some SPACE ∨ i = length s) →
  scan_byte s st i = add_token st false (slice s (token_start st) i).
Proof.
  intros Hq Ht Hc. unfold scan_byte. rewrite Hq, Ht. destruct Hc as [Hs| ->].
  - rewrite (proj2 (Nat.ltb_lt _ _)) by (by eapply lookup_lt_Some). by rewrite Hs.
  - by rewrite Nat.ltb_irrefl.
Qed.

Lemma run_word s st i w rest acc :
  idle st acc → token_ok (Word w) → drop i s = w ++ rest → (rest = [] ∨ ∃ r, rest = SPACE :: r) →
  idle (run s st i (length w + 1)) (push_token acc w).
Proof.
  intros (Hq & Ht & <-) [Hw Hb] E Hrest. destruct w as [|b w]; [done|]. inversion Hw as [|? ? Hg Hw']; subst.
  destruct (byte_at s i [] b (w ++ rest) E) as [Hs Hi]. rewrite Nat.add_0_r in Hs, Hi.
  replace (length (b :: w) + 1)%nat with (1 + (length w + 1))%nat by (cbn; lia). rewrite !run_app. cbn [seq foldl].
  assert (scan_byte s st i = mkScan false (quote_char st) i true (sc_command st) (sc_args st)) as ->.
  { unfold scan_byte. rewrite (proj2 (Nat.ltb_lt _ _)), (proj2 (Nat.eqb_neq _ _)) by lia.
    rewrite Hs, Hq, Ht. cbn [default id negb]. unfold is_quote in Hb. by rewrite Hb, graphic_plain. }
  assert (drop (i + 1) s = w ++ rest) as E' by by rewrite <- drop_drop, E.
  rewrite (run_inside s _ (i + 1) w rest) by done. rewrite scan_close; [|done|done|].
  - cbn [token_start]. replace (slice s i (i + 1 + length w)) with (b :: w);
      [exact (add_token_idle (mkScan false (quote_char st) i true (sc_command st) (sc_args st)) (b :: w))|].
    unfold slice. rewrite E. replace (i + 1 + length w - i)%nat with (length (b :: w)) by (cbn; lia).
    by rewrite take_app_length.
  - destruct Hrest as [->|[r ->]].
    + right. apply (f_equal length) in E'. rewrite length_drop, length_app in E'. cbn in E'. lia.
    + left. apply (byte_at s (i + 1) w SPACE r E').
Qed.

(** Inside quotes nothing changes until the same quote. *)
Lemma run_quoted_inside s st i l rest :
  in_quotes st = true → quote_char st ∉ l → drop i s = l ++ rest → run s st i (length l) = st.
Proof.
  intros Hq. revert i. induction l as [|b l IH]; intros i Hl E; [done|]. cbn [length seq foldl].
  destruct (byte_at s i [] b (l ++ rest) E) as [Hs Hi]. rewrite Nat.add_0_r in Hs, Hi.
  assert (scan_byte s st i = st) as ->; [|apply IH; [set_solver|by rewrite <- Nat.add_1_r, <- drop_drop, E]].
  unfold scan_byte. rewrite (proj2 (Nat.ltb_lt _ _)), Hs, Hq by done. cbn [default id].
  rewrite (proj2 (Z.eqb_neq _ _)); [done|set_solver].
Qed.

Lemma run_quoted s st i q body r acc :
  idle st acc → token_ok (Quoted q body) → drop i s = print_token (Quoted q body) ++ SPACE :: r →
  idle (run s st i (length body + 3)) (push_token acc body).
Proof.
  intros (Hq & Ht & <-) [Hb Hn] E. cbn [print_token app] in E.
  destruct (byte_at s i [] q _ E) as [Hs Hi]. rewrite Nat.add_0_r in Hs, Hi.
  replace (length body + 3)%nat with (1 + (length body + (1 + 1)))%nat by lia. rewrite !run_app. cbn [seq foldl].
  assert (scan_byte s st i = mkScan true q (i + 1) true (sc_command st) (sc_args st)) as ->.
  { unfold scan_byte. rewrite (proj2 (Nat.ltb_lt _ _)) by lia. rewrite Hs, Hq, Ht. cbn [default id negb].
    unfold is_quote in Hb. by rewrite Hb. }
  assert (drop (i + 1) s = body ++ q :: SPACE :: r) as E1 by (by rewrite <- drop_drop, E; cbn; rewrite <- app_assoc).
  rewrite (run_quoted_inside s _ (i + 1) body (q :: SPACE :: r)) by done.
  destruct (byte_at s (i + 1) body q _ E1) as [Hs1 Hi1].
  destruct (byte_at s (i + 1) (body ++ [q]) SPACE r) as [Hs2 Hi2]; [by rewrite <- app_assoc|].
  rewrite length_app in Hs2, Hi2. cbn [length] in Hs2, Hi2. rewrite Nat.add_assoc in Hs2, Hi2.
  set (j := (i + 1 + length body)%nat) in *.
  assert (scan_byte s (mkScan true q (i + 1) true (sc_command st) (sc_args st)) j =
    add_token (mkScan true q (i + 1) true (sc_command st) (sc_args st)) false body) as ->.
  { unfold scan_byte. cbn [in_quotes quote_char token_start].
    rewrite (proj2 (Nat.ltb_lt j _)), Hs1 by done. cbn [default id]. rewrite Z.eqb_refl.
    rewrite (proj2 (Nat.ltb_lt (j + 1) _)), Hs2 by done. cbn [default id]. rewrite orb_true_r. f_equal.
    unfold slice, j. rewrite E1. replace (i + 1 + length body - (i + 1))%nat with (length body) by lia.
    by rewrite take_app_length. }
  pose proof (add_token_idle (mkScan true q (i + 1) true (sc_command st) (sc_args st)) body) as Hidle.
  cbn [sc_command sc_args] in Hidle. revert Hidle. generalize (add_token (mkScan true q (i + 1) true (sc_command st) (sc_args st)) false body).
  intros st2 (Hq2 & Ht2 & Ha). unfold scan_byte. rewrite (proj2 (Nat.ltb_lt _ _)), Hs2, Hq2, Ht2 by done. by split_and!.
Qed.

Lemma run_line s toks last st i acc :
  Forall token_ok toks → token_ok (Word last) → idle st acc → drop i s = print_line toks last →
  ∃ st', run s st i (S (length (print_line toks last))) = st' ∧
    idle st' (foldl push_token acc (token_text <$> toks ++ [Word last])).
Proof.
  intros Hok Hlast. revert st i acc. induction Hok as [|t toks Ht Hok IH]; intros st i acc Hidle E.
  - eexists. split; [reflexivity|]. cbn [print_line app fmap list_fmap foldl token_text] in *.
    rewrite <- Nat.add_1_r. by apply (run_word s st i last []); [..|rewrite app_nil_r|left].
  - cbn [print_line] in *.
    assert (idle (run s st i (length (print_token t) + 1)) (push_token acc (token_text t))) as Hidle'.
    { destruct t as [w|q body]; cbn [print_token token_text] in *.
      - apply (run_word s st i w (SPACE :: print_line toks last)); eauto.
      - replace (length (q :: body ++ [q]) + 1)%nat with (length body + 3)%nat by (cbn; rewrite length_app; cbn; lia).
        by apply (run_quoted s st i q body (print_line toks last)). }
    destruct (IH _ (i + (length (print_token t) + 1))%nat _ Hidle') as (st' & Er & Hst).
    { rewrite Nat.add_assoc, <- !drop_drop, E, drop_app_length. done. }
    exists st'. split; [|done]. rewrite length_app. cbn [length].
    replace (S (length (print_token t) + S (length (print_line toks last))))%nat
      with ((length (print_token t) + 1) + S (length (print_line toks last)))%nat by lia.
    by rewrite run_app.
Qed.

Lemma push_tokens c a l :
  c ≠ [] → (length a ≤ MAX_ARGS)%nat → foldl push_token (c, a) l = (c, take MAX_ARGS (a ++ l)).
Proof.
  intros Hc. revert a. induction l as [|t l IH]; intros a Ha; cbn [foldl].
  - by rewrite app_nil_r, take_ge.
  - unfold push_token at 2. cbn [fst snd]. destruct c as [|b c]; [done|].
    destruct (Nat.ltb_spec (length a) MAX_ARGS) as [H|H].
    + rewrite IH by (rewrite length_app; cbn; lia). by rewrite <- app_assoc.
    + rewrite IH by done. by rewrite !take_app_le, !take_ge by lia.
Qed.

(** *** Trimming *)

Lemma strip_any_graphic chars b s :
  forallb (λ c, match c with w :: _ => (w <? 0x21) || (0x7E <? w) | [] => false end) chars = true →
  graphic b → strip_any chars (b :: s) = None.
Proof.
  intros Hc Hb. induction chars as [|c chars IH]; [done|]. cbn [forallb] in Hc. apply andb_true_iff in Hc as [Hc Hcs].
  cbn [strip_any]. destruct c as [|w c]; [done|]. cbn [strip]. unfold graphic in Hb.
  destruct (Z.eqb_spec w b) as [->|]; [|by apply IH]. apply orb_true_iff in Hc as [Hc|Hc]; apply Z.ltb_lt in Hc; lia.
Qed.

Lemma strip_all_graphic chars b s n :
  forallb (λ c, match c with w :: _ => (w <? 0x21) || (0x7E <? w) | [] => false end) chars = true →
  graphic b → strip_all chars n (b :: s) = b :: s.
Proof. intros Hc Hb. destruct n as [|n]; [done|]. cbn [strip_all]. by rewrite strip_any_graphic. Qed.

Lemma trim_graphic a s b s' : graphic a → graphic b → a :: s = s' ++ [b] → trim (a :: s) = a :: s.
Proof.
  intros Ha Hb E. unfold trim, trim_start. rewrite strip_all_graphic by done. unfold trim_end.
  rewrite E at 2. rewrite reverse_snoc, strip_all_graphic by done. by rewrite reverse_cons, reverse_involutive.
Qed.

Lemma graphic_head toks last :
  Forall token_ok toks → token_ok (Word last) → ∃ a s, print_line toks last = a :: s ∧ graphic a.
Proof.
  intros Hok [Hw Hne]. destruct Hok as [|[w|q body] toks Ht _]; cbn [print_line print_token].
  - destruct Hw as [|a s Ha _]; [done|]. eauto.
  - destruct Ht as [[|a s Ha _] Ht]; [done|]. cbn. eauto.
  - destruct Ht as [Hq _]. cbn. do 2 eexists. split; [done|]. unfold graphic.
    apply orb_true_iff in Hq as [Hq|Hq]; apply Z.eqb_eq in Hq as ->; unfold DQUOTE, SQUOTE; lia.
Qed.

Lemma graphic_last toks last :
  token_ok (Word last) → ∃ s b, print_line toks last = s ++ [b] ∧ graphic b.
Proof.
  intros [Hw Hne]. induction toks as [|t toks (s & b & E & Hb)]; cbn [print_line].
  - destruct last as [|b w _] using rev_ind; [done|]. apply Forall_app in Hw as [_ Hb]. inversion Hb; subst. eauto.
  - exists (print_token t ++ SPACE :: s), b. rewrite E. split; [|done]. by rewrite <- app_assoc.
Qed.

(** Parsing the printed form of a command line gives its tokens back: the
    first is the command, the next sixteen are the arguments and the others are
    dropped; words are taken as they are and quoted text without its quotes,
    provided that the line does not end with a quoted token. *)
Theorem parse_command_roundtrip toks last first rest :
  Forall token_ok toks → token_ok (Word last) →
  token_text <$> toks ++ [Word last] = first :: rest → first ≠ [] →
  parse_command (print_line toks last) = Some (mkCommand first (take MAX_ARGS rest)).
Proof.
  intros Hok Hlast Hfirst Hne. destruct (graphic_head toks last Hok Hlast) as (a & s & Ea & Ha).
  destruct (graphic_last toks last Hlast) as (s' & b & Eb & Hb).
  unfold parse_command. assert (trim (print_line toks last) = print_line toks last) as -> by (rewrite Ea; apply (trim_graphic a s b s'); congruence).
  destruct (run_line (print_line toks last) toks last Scan_start 0 ([], [])) as (st & Er & _ & _ & Hst); [done..|].
  cbv zeta. rewrite Er. rewrite Hfirst in Hst. cbn [foldl push_token fst snd] in Hst.
  rewrite push_tokens in Hst by (done || cbn; lia). injection Hst as Hc Har. rewrite Hc, Har. cbn [app].
  rewrite Ea. by destruct first.
Qed.

(** A quoted token at the end of the line keeps its closing quote: the argument
    of [echo] is the two letters and the quote after them. *)
Lemma parse_command_last_quote :
  parse_command ([101; 99; 104; 111] ++ SPACE :: [DQUOTE; 104; 105; DQUOTE]) =
    Some (mkCommand [101; 99; 104; 111] [[104; 105; DQUOTE]]).
Proof. by vm_compute. Qed.

(** [cp 'my file' -f x] *)
Lemma parse_command_roundtrip_witness :
  parse_command (print_line [Word [99; 112]; Quoted SQUOTE [109; 121; 32; 102]; Word [45; 102]] [120]) =
    Some (mkCommand [99; 112] [[109; 121; 32; 102]; [45; 102]; [120]]).
Proof.
  apply (parse_command_roundtrip _ _ _ [[109; 121; 32; 102]; [45; 102]; [120]]).
  - repeat constructor; try done. by apply (bool_decide_unpack _); vm_compute.
  - repeat constructor; done.
  - done.
  - done.
Defined.

(** ** Numbers *)

Lemma digits_app radix acc s s' :
  digits radix acc (s ++ s') = (a ← digits radix acc s; digits radix a s').
Proof.
  revert acc. induction s as [|b s IH]; intros acc; [done|]. cbn [digits app].
  destruct (to_digit radix b); [|done]. cbn [mbind option_bind]. case_match; [done|]. apply IH.
Qed.

Definition digit_char (d : Z) : Z := if d <? 10 then 48 + d else 87 + d.

Fixpoint print_digits (radix : Z) (fuel : nat) (n : Z) : list Z :=
  match fuel with
  | O => []
  | S fuel =>
      if n <? radix then [digit_char n] else print_digits radix fuel (n / radix) ++ [digit_char (n mod radix)]
  end.

Lemma to_digit_char radix d : 0 ≤ d < radix → radix ≤ 36 → to_digit radix (digit_char d) = Some d.
Proof.
  intros Hd Hr. unfold to_digit, digit_char. destruct (Z.ltb_spec d 10).
  - rewrite (proj2 (Z.leb_le _ _)), (proj2 (Z.leb_le (48 + d) _)) by lia. cbn [andb].
    replace (48 + d - 48) with d by lia. by rewrite (proj2 (Z.ltb_lt _ _)) by lia.
  - rewrite (proj2 (Z.leb_le 48 _)), (proj2 (Z.leb_gt (87 + d) 57)) by lia. cbn [andb].
    rewrite (proj2 (Z.leb_le 97 _)), (proj2 (Z.leb_le (87 + d) 122)) by lia. cbn [andb].
    replace (87 + d - 97 + 10) with d by lia. by rewrite (proj2 (Z.ltb_lt _ _)) by lia.
Qed.

Lemma digits_print radix fuel n :
  2 ≤ radix ≤ 36 → (0 < fuel)%nat → 0 ≤ n < radix ^ Z.of_nat fuel → n ≤ U64_MAX →
  digits radix 0 (print_digits radix fuel n) = Some n.
Proof.
  intros Hr. revert n. induction fuel as [|fuel IH]; intros n Hf Hn Hmax; [lia|]. cbn [print_digits].
  destruct (Z.ltb_spec n radix) as [Hlt|Hge].
  - cbn [digits]. rewrite to_digit_char by lia. cbn [mbind option_bind]. by rewrite (proj2 (Z.ltb_ge _ _)) by lia.
  - rewrite Nat2Z.inj_succ, Z.pow_succ_r in Hn by lia. pose proof (Z.div_mod n radix). pose proof (Z.mod_pos_bound n radix).
    assert (n / radix < radix ^ Z.of_nat fuel) by (apply Z.div_lt_upper_bound; lia).
    assert (1 ≤ n / radix) by (apply Z.div_le_lower_bound; lia).
    assert (n / radix ≤ n) by (apply Z.div_le_upper_bound; nia).
    rewrite digits_app, IH; [|destruct fuel; [cbn in *; lia|lia]|lia|lia]. cbn [mbind option_bind digits].
    rewrite to_digit_char by lia. cbn [mbind option_bind].
    replace (n / radix * radix + n mod radix) with n by lia. by rewrite (proj2 (Z.ltb_ge _ _)) by lia.
Qed.

Lemma print_digits_head radix fuel n :
  2 ≤ radix ≤ 36 → (0 < fuel)%nat → 0 ≤ n < radix ^ Z.of_nat fuel → n ≤ U64_MAX →
  ∃ b s, print_digits radix fuel n = b :: s ∧ 48 ≤ b ∧ (s = [] ∨ b ≠ 48).
Proof.
  intros Hr. revert n. induction fuel as [|fuel IH]; intros n Hf Hn Hmax; [lia|]. cbn [print_digits].
  destruct (Z.ltb_spec n radix) as [Hlt|Hge].
  - do 2 eexists. split; [reflexivity|]. unfold digit_char. destruct (Z.ltb_spec n 10); auto with lia.
  - rewrite Nat2Z.inj_succ, Z.pow_succ_r in Hn by lia.
    assert (n / radix < radix ^ Z.of_nat fuel) by (apply Z.div_lt_upper_bound; lia).
    assert (1 ≤ n / radix) by (apply Z.div_le_lower_bound; lia).
    assert (n / radix ≤ n) by (apply Z.div_le_upper_bound; nia).
    assert (0 < fuel)%nat by (destruct fuel; [cbn in *; lia|lia]).
    destruct (IH (n / radix)) as (b & s & E & Hb & Hs); [lia..|].
    rewrite E. do 2 eexists. split; [reflexivity|]. split; [done|]. right. destruct Hs as [-> |?]; [|done].
    intros ->. assert (digits radix 0 [48] = Some 0) as E0.
    { cbn [digits]. change 48 with (digit_char 0). rewrite to_digit_char by lia. done. }
    pose proof (digits_print radix fuel (n / radix)) as Ed. rewrite E, E0 in Ed.
    assert (Some 0 = Some (n / radix)) as [=] by (apply Ed; lia). lia.
Qed.

Lemma from_str_radix_print radix fuel n :
  2 ≤ radix ≤ 36 → (0 < fuel)%nat → 0 ≤ n < radix ^ Z.of_nat fuel → n ≤ U64_MAX →
  from_str_radix (print_digits radix fuel n) radix = Some n.
Proof.
  intros Hr Hf Hn Hmax. pose proof (digits_print radix fuel n Hr Hf Hn Hmax) as Hd.
  destruct (print_digits_head radix fuel n Hr Hf Hn Hmax) as (b & s & E & Hb & _). rewrite E in *.
  unfold from_str_radix. rewrite (proj2 (Z.eqb_neq b 43)), (proj2 (Z.eqb_neq b 45)) by lia. by destruct s.
Qed.

(** Every [u64] is parsed from its decimal digits and from its hexadecimal,
    octal and binary digits after their prefixes. *)
Lemma parse_number_print n :
  0 ≤ n ≤ U64_MAX →
  parse_number (print_digits 10 20 n) = Some n ∧ parse_number (48 :: 120 :: print_digits 16 16 n) = Some n ∧
  parse_number (48 :: 111 :: print_digits 8 22 n) = Some n ∧ parse_number (48 :: 98 :: print_digits 2 64 n) = Some n.
Proof.
  intros Hn. unfold U64_MAX in Hn. split_and!; [|by apply from_str_radix_print; unfold U64_MAX; lia..].
  assert (2 ≤ 10 ≤ 36 ∧ (0 < 20)%nat ∧ 0 ≤ n < 10 ^ Z.of_nat 20 ∧ n ≤ U64_MAX) as (H1 & H2 & H3 & H4) by (unfold U64_MAX; lia).
  destruct (print_digits_head 10 20 n H1 H2 H3 H4) as (b & s & E & Hb & Hs).
  pose proof (from_str_radix_print 10 20 n H1 H2 H3 H4) as Hp. rewrite E in *. unfold parse_number.
  destruct Hs as [->|Hne]; [by destruct (decide (b = 48)) as [->|]; [|destruct b as [|p|p]; try done; repeat (destruct p as [p|p|]; try done)]|].
  destruct b as [|p|p]; try done. repeat (destruct p as [p|p|]; try done).
Qed.
