(* ===== verification/TermBuffer.v ===== *)
(** * Terminal: text buffers

    [drivers/terminal/src/buffer.rs]: the command line being edited, the
    command history and the display.  An array is a list of its fixed length;
    reading or writing outside it panics in the source and is [None] here, as
    is a subtraction below zero. *)

From S2P Require Import Prelude Graphics.

Definition MAX_LINE_LENGTH : nat := 256.
Definition MAX_VISIBLE_LINES : nat := 50.

(** [a[i] = x] on an array. *)
Definition store {A} (l : list A) (i : nat) (x : A) : option (list A) :=
  if (i <? length l)%nat then Some (<[i := x]> l) else None.

(** [a[dst] = a[src]] *)
Definition move_cell {A} (l : list A) (src dst : nat) : option (list A) := x ← l !! src; store l dst x.

(** A [for] loop whose body may panic. *)
Fixpoint for_each {A S} (f : S → A → option S) (s : S) (l : list A) : option S :=
  match l with [] => Some s | x :: l => s ← f s x; for_each f s l end.

(** ** The command line *)

Record InputBuffer := mkInput { ib_buffer : list Z; ib_len : nat; ib_cursor : nat }.

Definition InputBuffer_new : InputBuffer := mkInput (replicate MAX_LINE_LENGTH 0) 0 0.

Definition ib_clear (b : InputBuffer) : InputBuffer := mkInput (ib_buffer b) 0 0.
Definition ib_is_empty (b : InputBuffer) : bool := (ib_len b =? 0)%nat.

(** [for i in (cursor..len).rev() { buffer[i + 1] = buffer[i]; }] *)
Definition shift_right (buf : list Z) (cursor len : nat) : option (list Z) :=
  for_each (λ buf i, move_cell buf i (i + 1)) buf (reverse (seq cursor (len - cursor))).

(** [for i in from..len { buffer[i - 1] = buffer[i]; }] *)
Definition shift_left (buf : list Z) (from len : nat) : option (list Z) :=
  for_each (λ buf i, move_cell buf i (i - 1)) buf (seq from (len - from)).

Definition ib_insert (b : InputBuffer) (ch : Z) : option (InputBuffer * bool) :=
  if (MAX_LINE_LENGTH - 1 <=? ib_len b)%nat then Some (b, false)
  else
    buf ← shift_right (ib_buffer b) (ib_cursor b) (ib_len b);
    buf ← store buf (ib_cursor b) ch;
    Some (mkInput buf (ib_len b + 1) (ib_cursor b + 1), true).

Definition ib_backspace (b : InputBuffer) : option (InputBuffer * bool) :=
  if (ib_cursor b =? 0)%nat then Some (b, false)
  else
    buf ← shift_left (ib_buffer b) (ib_cursor b) (ib_len b);
    if (ib_len b =? 0)%nat then None else Some (mkInput buf (ib_len b - 1) (ib_cursor b - 1), true).

Definition ib_delete (b : InputBuffer) : option (InputBuffer * bool) :=
  if (ib_len b <=? ib_cursor b)%nat then Some (b, false)
  else
    buf ← shift_left (ib_buffer b) (ib_cursor b + 1) (ib_len b);
    Some (mkInput buf (ib_len b - 1) (ib_cursor b), true).

Definition cursor_left (b : InputBuffer) : InputBuffer * bool :=
  if (0 <? ib_cursor b)%nat then (mkInput (ib_buffer b) (ib_len b) (ib_cursor b - 1), true) else (b, false).

Definition cursor_right (b : InputBuffer) : InputBuffer * bool :=
  if (ib_cursor b <? ib_len b)%nat then (mkInput (ib_buffer b) (ib_len b) (ib_cursor b + 1), true) else (b, false).

Definition cursor_home (b : InputBuffer) : InputBuffer := mkInput (ib_buffer b) (ib_len b) 0.
Definition cursor_end (b : InputBuffer) : InputBuffer := mkInput (ib_buffer b) (ib_len b) (ib_len b).

(** [as_bytes] and [as_str]: [&buffer[..len]]. *)
Definition as_bytes (b : InputBuffer) : list Z := take (ib_len b) (ib_buffer b).

(** [InputBuffer::set]: bytes that do not fit are skipped one by one. *)
Definition set_byte (b : InputBuffer) (byte : Z) : option InputBuffer :=
  if (ib_len b <? MAX_LINE_LENGTH - 1)%nat then
    buf ← store (ib_buffer b) (ib_len b) byte; Some (mkInput buf (ib_len b + 1) (ib_cursor b))
  else Some b.

Definition ib_set (b : InputBuffer) (s : list Z) : option InputBuffer :=
  b ← for_each set_byte (ib_clear b) s; Some (cursor_end b).

(** ** History *)

Record History := mkHistory {
  entries : list (list Z);
  lengths : list nat;
  h_count : nat;
  h_index : nat;
}.

(** [capacity], 32 in [History::new] and never written. *)
Definition CAPACITY : nat := 32.

Definition History_new : History :=
  mkHistory (replicate CAPACITY (replicate MAX_LINE_LENGTH 0)) (replicate CAPACITY 0%nat) 0 0.

Definition set_index (h : History) (i : nat) : History := mkHistory (entries h) (lengths h) (h_count h) i.
Definition reset_navigation (h : History) : History := set_index h (h_count h).

(** [&entries[idx][..lengths[idx]]] *)
Definition stored (h : History) (idx : nat) : option (list Z) :=
  len ← lengths h !! idx; entry ← entries h !! idx;
  if (len <=? length entry)%nat then Some (take len entry) else None.

(** [entries[idx][..len].copy_from_slice(&bytes[..len])] *)
Definition copy_into (entry bytes : list Z) (len : nat) : option (list Z) :=
  if (len <=? length entry)%nat && (len <=? length bytes)%nat then Some (take len bytes ++ drop len entry) else None.

(** Is [cmd] the last entry? *)
Definition is_last (h : History) (cmd : list Z) : option bool :=
  if (0 <? h_count h)%nat then
    let last_idx := ((h_count h - 1) mod CAPACITY)%nat in
    last_len ← lengths h !! last_idx;
    if (last_len =? length cmd)%nat then last ← stored h last_idx; Some (bool_decide (last = cmd)) else Some false
  else Some false.

Definition h_push (h : History) (cmd : list Z) : option History :=
  if (length cmd =? 0)%nat then Some h
  else
    duplicate ← is_last h cmd;
    if duplicate : bool then Some (reset_navigation h)
    else
      let idx := (h_count h mod CAPACITY)%nat in
      let len := Nat.min (length cmd) (MAX_LINE_LENGTH - 1) in
      entry ← entries h !! idx;
      entry ← copy_into entry cmd len;
      es ← store (entries h) idx entry;
      ls ← store (lengths h) idx len;
      Some (reset_navigation (mkHistory es ls (h_count h + 1) (h_index h))).

(** The outer option is a panic, the inner one the result of the method. *)
Definition get_current (h : History) : option (option (list Z)) :=
  if (h_count h <=? h_index h)%nat then Some None
  else
    let start := if (h_count h <=? CAPACITY)%nat then 0%nat else (h_count h - CAPACITY)%nat in
    if (h_index h <? start)%nat then Some None
    else s ← stored h (h_index h mod CAPACITY); Some (Some s).

Definition h_previous (h : History) : option (History * option (list Z)) :=
  if (h_count h =? 0)%nat || (h_index h =? 0)%nat then Some (h, None)
  else let h := set_index h (h_index h - 1) in r ← get_current h; Some (h, r).

Definition h_next (h : History) : option (History * option (list Z)) :=
  if (h_count h <=? h_index h)%nat then Some (h, None)
  else
    let h := set_index h (h_index h + 1) in
    if (h_count h <=? h_index h)%nat then Some (h, None) else r ← get_current h; Some (h, r).

(** ** The display *)

Definition WINDOW_BG : Color := mkColor 30 30 30.
Definition TEXT_NORMAL : Color := mkColor 220 220 220.

Record Cell := mkCell { ch : Z; fg : Color; bg : Color }.
Definition Cell_empty : Cell := mkCell 32 TEXT_NORMAL WINDOW_BG.

Record Line := mkLine { cells : list Cell; line_len : nat }.
Definition Line_empty : Line := mkLine (replicate MAX_LINE_LENGTH Cell_empty) 0.

(** [Line::clear]: every cell is reset. *)
Definition line_clear (l : Line) : Line := mkLine ((λ _, Cell_empty) <$> cells l) 0.

Definition line_get (l : Line) (index : nat) : option (option Cell) :=
  if (index <? line_len l)%nat then c ← cells l !! index; Some (Some c) else Some None.

Definition line_set (l : Line) (index : nat) (c : Cell) : option Line :=
  if (index <? MAX_LINE_LENGTH)%nat then
    cs ← store (cells l) index c;
    Some (mkLine cs (if (line_len l <=? index)%nat then index + 1 else line_len l)%nat)
  else Some l.

Definition line_push (l : Line) (c : Cell) : option (Line * bool) :=
  if (line_len l <? MAX_LINE_LENGTH)%nat then
    cs ← store (cells l) (line_len l) c; Some (mkLine cs (line_len l + 1), true)
  else Some (l, false).

Definition push_char (l : Line) (c : Z) (color : Color) : option (Line * bool) :=
  line_push l (mkCell c color WINDOW_BG).

Fixpoint push_str (l : Line) (s : list Z) (color : Color) : option Line :=
  match s with
  | [] => Some l
  | c :: s => '(l, pushed) ← push_char l c color; if pushed : bool then push_str l s color else Some l
  end.

Record DisplayBuffer := mkDisplay {
  lines : list Line;
  line_count : nat;
  cursor_row : nat;
  cursor_col : nat;
  max_rows : nat;
  max_cols : nat;
  scroll_offset : nat;
}.

Definition DisplayBuffer_new : DisplayBuffer := mkDisplay (replicate MAX_VISIBLE_LINES Line_empty) 0 0 0 25 80 0.

Definition set_dimensions (d : DisplayBuffer) (rows cols : nat) : DisplayBuffer :=
  mkDisplay (lines d) (line_count d) (cursor_row d) (cursor_col d) (Nat.min rows MAX_VISIBLE_LINES)
    (Nat.min cols MAX_LINE_LENGTH) (scroll_offset d).

Definition display_clear (d : DisplayBuffer) : DisplayBuffer :=
  mkDisplay (line_clear <$> lines d) 0 0 0 (max_rows d) (max_cols d) 0.

Definition set_lines (d : DisplayBuffer) (ls : list Line) : DisplayBuffer :=
  mkDisplay ls (line_count d) (cursor_row d) (cursor_col d) (max_rows d) (max_cols d) (scroll_offset d).
Definition set_position (d : DisplayBuffer) (row col : nat) : DisplayBuffer :=
  mkDisplay (lines d) (line_count d) row col (max_rows d) (max_cols d) (scroll_offset d).

(** [while line_count <= cursor_row { line_count += 1; }] *)
Definition ensure_line (d : DisplayBuffer) : DisplayBuffer :=
  mkDisplay (lines d) (Nat.max (line_count d) (cursor_row d + 1)) (cursor_row d) (cursor_col d)
    (max_rows d) (max_cols d) (scroll_offset d).

(** [lines[i].clear()] *)
Definition clear_line (ls : list Line) (i : nat) : option (list Line) := l ← ls !! i; store ls i (line_clear l).

Definition scroll_up (d : DisplayBuffer) (n : nat) : option DisplayBuffer :=
  if (max_rows d <=? n)%nat then Some (display_clear d)
  else
    ls ← for_each (λ ls i, if (i + n <? max_rows d)%nat then move_cell ls (i + n) i else Some ls)
           (lines d) (seq 0 (max_rows d - n));
    ls ← for_each clear_line ls (seq (max_rows d - n) n);
    Some (set_lines d ls).

Definition newline (d : DisplayBuffer) : option DisplayBuffer :=
  let d := set_position d (cursor_row d + 1) 0 in
  d ← (if (max_rows d <=? cursor_row d)%nat then
         d ← scroll_up d 1;
         if (max_rows d =? 0)%nat then None else Some (set_position d (max_rows d - 1) (cursor_col d))
       else Some d);
  let d := ensure_line d in
  ls ← clear_line (lines d) (cursor_row d);
  Some (set_lines d ls).

Definition write_char (d : DisplayBuffer) (c : Z) (color : Color) : option DisplayBuffer :=
  if c =? 10 then newline d
  else if c =? 13 then Some (set_position d (cursor_row d) 0)
  else if c =? 8 then
    Some (if (0 <? cursor_col d)%nat then set_position d (cursor_row d) (cursor_col d - 1) else d)
  else
    let d := ensure_line d in
    l ← lines d !! cursor_row d;
    l ← line_set l (cursor_col d) (mkCell c color WINDOW_BG);
    ls ← store (lines d) (cursor_row d) l;
    let d := set_position (set_lines d ls) (cursor_row d) (cursor_col d + 1) in
    if (max_cols d <=? cursor_col d)%nat then newline d else Some d.

Definition write_str (d : DisplayBuffer) (s : list Z) (color : Color) : option DisplayBuffer :=
  for_each (λ d c, write_char d c color) d s.

Definition writeln (d : DisplayBuffer) (s : list Z) (color : Color) : option DisplayBuffer :=
  d ← write_str d s color; newline d.

Definition get_line (d : DisplayBuffer) (row : nat) : option (option Line) :=
  if (row <? max_rows d)%nat && (row <? line_count d)%nat then l ← lines d !! row; Some (Some l) else Some None.

Definition set_cursor (d : DisplayBuffer) (row col : nat) : DisplayBuffer :=
  set_position d (Nat.min row (max_rows d - 1)) (Nat.min col (max_cols d - 1)).
