(* ===== verification/TermBufferSafety.v ===== *)
(** * Terminal: the text buffers implement their specifications

    The line editor, the history ring and the scrolling display of
    [TermBuffer] against three specifications without arrays: a zipper, an
    unbounded log, and the list of all lines ever written.  In each case the
    operations also never panic. *)

From S2P Require Import Prelude Graphics TermBuffer.

(** ** Arrays and loops *)

Section arrays.
Context {A : Type}.
Implicit Types (l : list A) (x y : A).

Lemma store_middle l1 l2 x y : store (l1 ++ y :: l2) (length l1) x = Some (l1 ++ x :: l2).
Proof.
  unfold store. rewrite length_app. destruct (Nat.ltb_spec (length l1) (length l1 + length (y :: l2))); [|cbn in *; lia].
  by rewrite insert_app_r_alt, Nat.sub_diag by lia.
Qed.

Lemma store_lookup l i x : (i < length l)%nat → store l i x = Some (<[i := x]> l).
Proof. unfold store. intros. by destruct (Nat.ltb_spec i (length l)); [|lia]. Qed.

Lemma move_cell_eq l i j x : l !! i = Some x → move_cell l i j = store l j x.
Proof. intros E. unfold move_cell. by rewrite E. Qed.

(** Moving a block of cells one place down, left to right. *)
Lemma move_down l1 l2 l3 x : ∃ y, y ∈ x :: l2 ∧
  for_each (λ l i, move_cell l (i + 1) i) (l1 ++ x :: l2 ++ l3) (seq (length l1) (length l2)) = Some (l1 ++ l2 ++ y :: l3).
Proof.
  revert l1 x. induction l2 as [|z l2 IH]; intros l1 x; [exists x; split; [left|done]|].
  cbn [length seq for_each app]. rewrite (move_cell_eq _ _ _ z).
  2: { rewrite lookup_app_r by lia. by replace (length l1 + 1 - length l1)%nat with 1%nat by lia. }
  rewrite store_middle. cbn [mbind option_bind]. destruct (IH (l1 ++ [z]) z) as (y & Hin & Hy). exists y. split; [by right|].
  rewrite length_app, Nat.add_1_r, <- !(assoc_L (++)) in Hy. cbn in Hy. by rewrite Hy.
Qed.

(** Moving a block of cells one place up, right to left. *)
Lemma move_up l1 l2 l3 y : ∃ x,
  for_each (λ l i, move_cell l i (i + 1)) (l1 ++ l2 ++ y :: l3) (reverse (seq (length l1) (length l2)))
  = Some (l1 ++ x :: l2 ++ l3).
Proof.
  revert l3 y. induction l2 as [|z l2 IH] using rev_ind; intros l3 y; [by exists y|].
  assert (Hr : reverse (seq (length l1) (length (l2 ++ [z]))) = (length l1 + length l2)%nat :: reverse (seq (length l1) (length l2)))
    by by rewrite length_app, seq_app, reverse_app.
  rewrite Hr. cbn [for_each]. clear Hr.
  assert (E : l1 ++ (l2 ++ [z]) ++ y :: l3 = ((l1 ++ l2) ++ [z]) ++ y :: l3) by by rewrite <- !(assoc_L (++)).
  rewrite E, <- length_app, (move_cell_eq _ _ _ z).
  2: { rewrite lookup_app_l by (rewrite !length_app; cbn; lia). by rewrite lookup_app_r, Nat.sub_diag by lia. }
  replace (length (l1 ++ l2) + 1)%nat with (length ((l1 ++ l2) ++ [z])) by (rewrite (length_app (l1 ++ l2)); cbn; lia).
  rewrite store_middle. cbn [mbind option_bind]. destruct (IH (z :: l3) z) as [x Hx]. exists x.
  rewrite <- !(assoc_L (++)) in *. cbn in *. by rewrite Hx.
Qed.
End arrays.

Lemma for_each_fmap {A B S} (f : S → B → option S) (g : A → B) s l :
  for_each f s (g <$> l) = for_each (λ s x, f s (g x)) s l.
Proof. revert s. induction l as [|x l IH]; intros s; [done|]. cbn. destruct (f s (g x)); [apply IH|done]. Qed.

Lemma for_each_ext {A S} (f g : S → A → option S) s l :
  (∀ s x, x ∈ l → f s x = g s x) → for_each f s l = for_each g s l.
Proof.
  revert s. induction l as [|x l IH]; intros s H; [done|]. cbn. rewrite H by left.
  destruct (g s x); cbn; [|done]. apply IH. intros. apply H. by right.
Qed.

(** A loop whose body preserves a simulation preserves it. *)
Lemma for_each_sim {A S T} (R : S → T → Prop) (f : S → A → option S) (g : T → A → T) s t l :
  (∀ s t x, R s t → ∃ s', f s x = Some s' ∧ R s' (g t x)) →
  R s t → ∃ s', for_each f s l = Some s' ∧ R s' (foldl g t l).
Proof.
  intros H. revert s t. induction l as [|x l IH]; intros s t HR; [by exists s|].
  destruct (H s t x HR) as (s' & E & HR'). cbn. rewrite E. by apply IH.
Qed.

(** ** The line editor

    A zipper: the text before the cursor, nearest byte first, and the text
    after it. *)

Record Editor := mkEditor { before : list Z; after : list Z }.
Definition text (e : Editor) : list Z := reverse (before e) ++ after e.

Inductive Edit :=
| EInsert (c : Z) | EBackspace | EDelete | ELeft | ERight | EHome | EEnd | EClear | ESet (s : list Z).

Definition edit_spec (e : Editor) (op : Edit) : Editor * bool :=
  match op, e with
  | EInsert c, _ => if (255 <=? length (text e))%nat then (e, false) else (mkEditor (c :: before e) (after e), true)
  | EBackspace, mkEditor (_ :: b) a => (mkEditor b a, true)
  | EDelete, mkEditor b (_ :: a) => (mkEditor b a, true)
  | ELeft, mkEditor (c :: b) a => (mkEditor b (c :: a), true)
  | ERight, mkEditor b (c :: a) => (mkEditor (c :: b) a, true)
  | EHome, _ => (mkEditor [] (text e), true)
  | EEnd, _ => (mkEditor (reverse (text e)) [], true)
  | EClear, _ => (mkEditor [] [], true)
  | ESet s, _ => (mkEditor (reverse (take 255 s)) [], true)
  | _, _ => (e, false)
  end.

Definition edit (b : InputBuffer) (op : Edit) : option (InputBuffer * bool) :=
  match op with
  | EInsert c => ib_insert b c
  | EBackspace => ib_backspace b
  | EDelete => ib_delete b
  | ELeft => Some (cursor_left b)
  | ERight => Some (cursor_right b)
  | EHome => Some (cursor_home b, true)
  | EEnd => Some (cursor_end b, true)
  | EClear => Some (ib_clear b, true)
  | ESet s => b ← ib_set b s; Some (b, true)
  end.

Definition editor_rel (b : InputBuffer) (e : Editor) : Prop :=
  length (ib_buffer b) = 256%nat ∧ (length (text e) ≤ 255)%nat ∧
  ib_len b = length (text e) ∧ ib_cursor b = length (before e) ∧
  ∃ rest, ib_buffer b = text e ++ rest.

Lemma length_text e : length (text e) = (length (before e) + length (after e))%nat.
Proof. unfold text. by rewrite length_app, length_reverse. Qed.

Lemma editor_new : editor_rel InputBuffer_new (mkEditor [] []).
Proof. repeat split; cbn; try lia. by eexists. Qed.

Lemma insert_sim b e c : editor_rel b e →
  ∃ b', ib_insert b c = Some (b', (edit_spec e (EInsert c)).2) ∧ editor_rel b' (edit_spec e (EInsert c)).1.
Proof.
  intros HR. pose proof HR as (H1 & H2 & H3 & H4 & rest & H5). unfold ib_insert, edit_spec. rewrite H3.
  change (MAX_LINE_LENGTH - 1)%nat with 255%nat.
  destruct (Nat.leb_spec 255 (length (text e))).
  { by exists b. }
  destruct rest as [|y rest]; [rewrite app_nil_r in H5; rewrite H5 in H1; lia|].
  assert (E0 : ib_buffer b = reverse (before e) ++ after e ++ y :: rest) by (rewrite H5; unfold text; by rewrite <- (assoc_L (++))).
  unfold shift_right. rewrite E0, H4.
  replace (length (text e) - length (before e))%nat with (length (after e)) by (rewrite length_text; lia).
  destruct (move_up (reverse (before e)) (after e) rest y) as [x Hx]. rewrite length_reverse in Hx. rewrite Hx.
  cbn [mbind option_bind].
  pose proof (store_middle (reverse (before e)) (after e ++ rest) c x) as Hs. rewrite length_reverse in Hs. rewrite Hs.
  cbn [mbind option_bind]. eexists. split; [done|]. cbn.
  assert (E : text (mkEditor (c :: before e) (after e)) ++ rest = reverse (before e) ++ c :: after e ++ rest).
  { unfold text. cbn [before after]. by rewrite reverse_cons, <- !(assoc_L (++)). }
  repeat split; cbn [ib_buffer ib_len ib_cursor before].
  - rewrite <- E. rewrite H5 in H1. revert H1. rewrite !length_app, !length_text. cbn. lia.
  - rewrite length_text in *. cbn. lia.
  - rewrite !length_text. cbn. lia.
  - cbn. lia.
  - exists rest. by rewrite E.
Qed.

Lemma shift_left_sim l1 l2 l3 x from : from = S (length l1) → ∃ y,
  shift_left (l1 ++ x :: l2 ++ l3) from (from + length l2) = Some (l1 ++ l2 ++ y :: l3).
Proof.
  intros ->. destruct (move_down l1 l2 l3 x) as (y & _ & Hy). exists y. rewrite <- Hy. unfold shift_left.
  rewrite <- fmap_S_seq by done. replace (S (length l1) + length l2 - S (length l1))%nat with (length l2) by lia.
  rewrite for_each_fmap. apply for_each_ext. intros l i _. f_equal; lia.
Qed.

Lemma backspace_sim b e : editor_rel b e →
  ∃ b', ib_backspace b = Some (b', (edit_spec e EBackspace).2) ∧ editor_rel b' (edit_spec e EBackspace).1.
Proof.
  intros HR. pose proof HR as (H1 & H2 & H3 & H4 & rest & H5). unfold ib_backspace. rewrite H3, H4. rewrite length_text in *.
  destruct e as [[|c bef] aft]; cbn [before after length] in *.
  { by exists b. }
  change (S (length bef) =? 0)%nat with false. cbn iota.
  assert (E : ib_buffer b = reverse bef ++ c :: aft ++ rest).
  { rewrite H5. unfold text. cbn [before after]. by rewrite reverse_cons, <- !(assoc_L (++)). }
  destruct (shift_left_sim (reverse bef) aft rest c (S (length bef))) as [y Hy]; [by rewrite length_reverse|].
  rewrite E, Hy. cbn [mbind option_bind]. eexists. split; [done|]. cbn [edit_spec fst].
  repeat split; cbn [ib_buffer ib_len ib_cursor]; rewrite ?length_text; cbn; try lia.
  - rewrite E in H1. revert H1. rewrite !length_app. cbn. rewrite !length_app. cbn. lia.
  - exists (y :: rest). unfold text. cbn [before after]. by rewrite <- (assoc_L (++)).
Qed.

Lemma delete_sim b e : editor_rel b e →
  ∃ b', ib_delete b = Some (b', (edit_spec e EDelete).2) ∧ editor_rel b' (edit_spec e EDelete).1.
Proof.
  intros HR. pose proof HR as (H1 & H2 & H3 & H4 & rest & H5). unfold ib_delete. rewrite H3, H4. rewrite length_text in *.
  destruct e as [bef [|c aft]]; cbn [before after length] in *.
  { rewrite Nat.add_0_r, Nat.leb_refl. exists b. by destruct bef. }
  destruct (Nat.leb_spec (length bef + S (length aft)) (length bef)); [lia|].
  assert (E : ib_buffer b = reverse bef ++ c :: aft ++ rest).
  { rewrite H5. unfold text. cbn [before after]. by rewrite <- !(assoc_L (++)). }
  destruct (shift_left_sim (reverse bef) aft rest c (length bef + 1)) as [y Hy]; [rewrite length_reverse; lia|].
  rewrite E. replace (length bef + S (length aft))%nat with (length bef + 1 + length aft)%nat by lia. rewrite Hy.
  cbn [mbind option_bind]. eexists. split; [by destruct bef|].
  replace (edit_spec (mkEditor bef (c :: aft)) EDelete).1 with (mkEditor bef aft) by by destruct bef.
  repeat split; cbn [ib_buffer ib_len ib_cursor]; rewrite ?length_text; cbn; try lia.
  - rewrite E in H1. revert H1. rewrite !length_app. cbn. rewrite !length_app. cbn. lia.
  - exists (y :: rest). unfold text. cbn [before after]. by rewrite <- (assoc_L (++)).
Qed.

Lemma set_loop_sim buf (s acc : list Z) rest k :
  length buf = 256%nat → buf = acc ++ rest → (length acc ≤ 255)%nat →
  ∃ b, for_each set_byte (mkInput buf (length acc) k) s = Some b ∧
    editor_rel (cursor_end b) (mkEditor (reverse (take 255 (acc ++ s))) []).
Proof.
  revert buf acc rest. induction s as [|c s IH]; intros buf acc rest H1 -> H2.
  { eexists. split; [done|]. rewrite app_nil_r, take_ge by done.
    repeat split; cbn [ib_buffer ib_len ib_cursor cursor_end before after]; rewrite ?length_text; cbn [before after length]; rewrite ?length_reverse; try lia.
    exists rest. unfold text. cbn [before after]. by rewrite reverse_involutive, app_nil_r. }
  cbn [for_each]. unfold set_byte at 2. cbn [ib_buffer ib_len ib_cursor].
  change (MAX_LINE_LENGTH - 1)%nat with 255%nat. destruct (Nat.ltb_spec (length acc) 255) as [Hl|Hl].
  - destruct rest as [|y rest]; [rewrite app_nil_r in H1; lia|]. rewrite store_middle. cbn [mbind option_bind].
    destruct (IH (acc ++ c :: rest) (acc ++ [c]) rest) as (b & Hb & HR).
    + revert H1. rewrite !length_app. by cbn.
    + by rewrite <- (assoc_L (++)).
    + rewrite length_app. cbn. lia.
    + exists b. rewrite length_app in Hb. cbn in Hb. split; [done|]. by rewrite <- (assoc_L (++)) in HR.
  - cbn [mbind option_bind]. destruct (IH (acc ++ rest) acc rest) as (b & Hb & HR); [done..|].
    exists b. split; [done|]. rewrite take_app_ge in HR by lia. rewrite take_app_ge by lia.
    replace (255 - length acc)%nat with 0%nat in * by lia. done.
Qed.

Lemma left_sim b e : editor_rel b e →
  (cursor_left b).2 = (edit_spec e ELeft).2 ∧ editor_rel (cursor_left b).1 (edit_spec e ELeft).1.
Proof.
  intros HR. pose proof HR as (H1 & H2 & H3 & H4 & rest & H5). unfold cursor_left. rewrite H4.
  destruct e as [[|c bef] aft]; [by split|]. split; [done|]. cbn [before length]. change (0 <? S (length bef))%nat with true. cbn iota.
  rewrite length_text in *. cbn in H2, H3.
  repeat split; cbn [ib_buffer ib_len ib_cursor edit_spec fst before length]; rewrite ?length_text; cbn [before after length]; try done; try lia.
  exists rest. rewrite H5. unfold text. cbn [before after]. by rewrite reverse_cons, <- !(assoc_L (++)).
Qed.

Lemma right_sim b e : editor_rel b e →
  (cursor_right b).2 = (edit_spec e ERight).2 ∧ editor_rel (cursor_right b).1 (edit_spec e ERight).1.
Proof.
  intros HR. pose proof HR as (H1 & H2 & H3 & H4 & rest & H5). unfold cursor_right. rewrite H4, H3, length_text.
  destruct e as [bef [|c aft]]; cbn [before after length].
  { rewrite Nat.add_0_r, Nat.ltb_irrefl. by destruct bef. }
  destruct (Nat.ltb_spec (length bef) (length bef + S (length aft))); [|lia].
  replace (edit_spec (mkEditor bef (c :: aft)) ERight) with (mkEditor (c :: bef) aft, true) by by destruct bef.
  split; [done|]. rewrite length_text in *. cbn in H2, H3.
  repeat split; cbn [ib_buffer ib_len ib_cursor fst before length]; rewrite ?length_text; cbn [before after length]; try done; try lia.
  exists rest. rewrite H5. unfold text. cbn [before after]. by rewrite reverse_cons, <- !(assoc_L (++)).
Qed.

Lemma edit_sim b e op : editor_rel b e →
  ∃ b', edit b op = Some (b', (edit_spec e op).2) ∧ editor_rel b' (edit_spec e op).1.
Proof.
  intros HR. pose proof HR as (H1 & H2 & H3 & H4 & rest & H5). destruct op as [c| | | | | | | |s]; cbn [edit].
  - by apply insert_sim.
  - by apply backspace_sim.
  - by apply delete_sim.
  - destruct (left_sim b e HR) as [Hr HR']. exists (cursor_left b).1. rewrite <- Hr. by destruct (cursor_left b).
  - destruct (right_sim b e HR) as [Hr HR']. exists (cursor_right b).1. rewrite <- Hr. by destruct (cursor_right b).
  - eexists. split; [by destruct e|]. repeat split; cbn [edit_spec fst]; eauto.
  - eexists. split; [by destruct e|].
    assert (E : text (mkEditor (reverse (text e)) []) = text e) by (unfold text at 1; cbn [before after]; by rewrite reverse_involutive, app_nil_r).
    repeat split; cbn [edit_spec fst]; rewrite ?E; cbn [cursor_end ib_cursor before]; rewrite ?length_reverse; eauto.
  - eexists. split; [by destruct e|]. repeat split; cbn; eauto; lia.
  - destruct (set_loop_sim (ib_buffer b) s [] (ib_buffer b) 0) as (b' & Hb & HR'); [done..|cbn; lia|].
    unfold ib_set, ib_clear. cbn [length] in Hb. rewrite Hb. cbn [mbind option_bind]. eexists. by split; [destruct e|].
Qed.

(** A session of the editor and of its specification, with the answers given. *)
Fixpoint session (b : InputBuffer) (ops : list Edit) : option (InputBuffer * list bool) :=
  match ops with
  | [] => Some (b, [])
  | op :: ops => '(b, r) ← edit b op; '(b, rs) ← session b ops; Some (b, r :: rs)
  end.

Fixpoint session_spec (e : Editor) (ops : list Edit) : Editor * list bool :=
  match ops with
  | [] => (e, [])
  | op :: ops => let (e, r) := edit_spec e op in let (e, rs) := session_spec e ops in (e, r :: rs)
  end.

(** The command line editor is a zipper.  From an empty line, any sequence of
    insertions, deletions, cursor moves and replacements runs without a panic;
    it answers [true] and [false] as the zipper does, the text it holds is the
    zipper's and so is the position of the cursor, and the text never exceeds
    255 bytes. *)
Theorem line_editor_refines ops :
  ∃ b rs, session InputBuffer_new ops = Some (b, rs) ∧
    let '(e, rs') := session_spec (mkEditor [] []) ops in
    rs = rs' ∧ as_bytes b = text e ∧ ib_cursor b = length (before e) ∧ (length (text e) ≤ 255)%nat.
Proof.
  generalize editor_new. generalize InputBuffer_new (mkEditor [] []).
  induction ops as [|op ops IH]; intros b e HR.
  { exists b, []. split; [done|]. pose proof HR as (H1 & H2 & H3 & H4 & rest & H5). cbn.
    repeat split; [|done..]. unfold as_bytes. by rewrite H3, H5, take_app_length. }
  destruct (edit_sim b e op HR) as (b1 & E & HR1). cbn. rewrite E. cbn.
  destruct (edit_spec e op) as [e1 r]. destruct (IH _ _ HR1) as (b2 & rs & E2 & Hs). cbn in *. rewrite E2. cbn.
  exists b2, (r :: rs). split; [done|]. destruct (session_spec e1 ops). naive_solver.
Qed.

(** ** The history

    An unbounded log of commands, of which the last 32 can be recalled. *)

Record Log := mkLog { log : list (list Z); pos : nat }.

Inductive Recall := RPush (cmd : list Z) | RPrevious | RNext | RReset.

Definition recallable (l : Log) : option (list Z) :=
  if (length (log l) - 32 <=? pos l)%nat then log l !! pos l else None.

Definition recall_spec (l : Log) (op : Recall) : Log * option (list Z) :=
  match op with
  | RPush [] => (l, None)
  | RPush cmd =>
      if bool_decide (last (log l) = Some cmd) then (mkLog (log l) (length (log l)), None)
      else (mkLog (log l ++ [take 255 cmd]) (length (log l) + 1), None)
  | RPrevious =>
      if (length (log l) =? 0)%nat || (pos l =? 0)%nat then (l, None)
      else let l := mkLog (log l) (pos l - 1) in (l, recallable l)
  | RNext =>
      if (length (log l) <=? pos l)%nat then (l, None)
      else let l := mkLog (log l) (pos l + 1) in (l, recallable l)
  | RReset => (mkLog (log l) (length (log l)), None)
  end.

Definition recall (h : History) (op : Recall) : option (History * option (list Z)) :=
  match op with
  | RPush cmd => h ← h_push h cmd; Some (h, None)
  | RPrevious => h_previous h
  | RNext => h_next h
  | RReset => Some (reset_navigation h, None)
  end.

Definition history_rel (h : History) (l : Log) : Prop :=
  length (entries h) = 32%nat ∧ length (lengths h) = 32%nat ∧ Forall (λ e, length e = 256%nat) (entries h) ∧
  h_count h = length (log l) ∧ h_index h = pos l ∧
  ∀ i, (length (log l) - 32 ≤ i < length (log l))%nat → stored h (i mod 32) = log l !! i.

Lemma mod_window i n : (i < n < i + 32)%nat → (i mod 32 ≠ n mod 32)%nat.
Proof.
  intros H E. pose proof (Nat.div_mod_eq i 32). pose proof (Nat.div_mod_eq n 32). lia.
Qed.

Lemma get_current_sim h l : history_rel h l → get_current h = Some (recallable l).
Proof.
  intros (H1 & H2 & H3 & H4 & H5 & H6). unfold get_current, recallable. rewrite H4, H5. unfold CAPACITY.
  destruct (Nat.leb_spec (length (log l)) (pos l)) as [Hp|Hp].
  { rewrite (lookup_ge_None_2 _ _ Hp). by destruct (Nat.leb_spec (length (log l) - 32) (pos l)). }
  replace (if (length (log l) <=? 32)%nat then 0%nat else (length (log l) - 32)%nat) with (length (log l) - 32)%nat
    by (destruct (Nat.leb_spec (length (log l)) 32); lia).
  destruct (Nat.ltb_spec (pos l) (length (log l) - 32)), (Nat.leb_spec (length (log l) - 32) (pos l)); try lia; [done|].
  rewrite (H6 (pos l)) by lia. destruct (lookup_lt_is_Some_2 (log l) (pos l) Hp) as [x ->]. done.
Qed.

Lemma is_last_sim h l cmd : history_rel h l → is_last h cmd = Some (bool_decide (last (log l) = Some cmd)).
Proof.
  intros (H1 & H2 & H3 & H4 & H5 & H6). unfold is_last. rewrite H4. unfold CAPACITY.
  destruct (Nat.ltb_spec 0 (length (log l))) as [Hl|Hl].
  2: { destruct (log l) as [|??]; [|cbn in *; lia]. cbn. by rewrite bool_decide_eq_false_2. }
  assert (Hs : stored h ((length (log l) - 1) mod 32) = last (log l)).
  { rewrite H6 by lia. rewrite last_lookup. f_equal. lia. }
  assert (Hlast : is_Some (last (log l))) by (apply last_is_Some; intros E; rewrite E in Hl; cbn in Hl; lia).
  destruct Hlast as [x Hx]. rewrite Hx in Hs |- *. unfold stored in Hs.
  destruct (lengths h !! ((length (log l) - 1) mod 32)%nat) as [len|] eqn:E1; [|done].
  destruct (entries h !! ((length (log l) - 1) mod 32)%nat) as [entry|] eqn:E2; [|done].
  cbn [mbind option_bind] in *. destruct (Nat.leb_spec len (length entry)); [|done]. simplify_eq.
  destruct (Nat.eqb_spec len (length cmd)) as [->|Hne].
  - unfold stored. rewrite E1, E2. cbn [mbind option_bind]. destruct (Nat.leb_spec (length cmd) (length entry)); [|lia].
    cbn [mbind option_bind]. f_equal. apply bool_decide_ext. split; congruence.
  - f_equal. symmetry. apply bool_decide_eq_false_2. intros [= <-]. apply Hne. rewrite length_take. lia.
Qed.

Lemma push_sim h l cmd : history_rel h l →
  ∃ h', h_push h cmd = Some h' ∧ history_rel h' (recall_spec l (RPush cmd)).1.
Proof.
  intros HR. pose proof (is_last_sim h l cmd HR) as Hl. pose proof HR as (H1 & H2 & H3 & H4 & H5 & H6).
  unfold h_push. destruct cmd as [|c cmd]; [by exists h|]. set (cmd' := c :: cmd) in *.
  change (length cmd' =? 0)%nat with false. cbn iota. rewrite Hl. cbn [mbind option_bind].
  replace (recall_spec l (RPush cmd')) with
    (if bool_decide (last (log l) = Some cmd') then (mkLog (log l) (length (log l)), @None (list Z))
     else (mkLog (log l ++ [take 255 cmd']) (length (log l) + 1), None)) by done.
  case_bool_decide as Hd.
  { eexists. split; [done|]. repeat split; cbn; done. }
  unfold CAPACITY. rewrite H4. set (n := length (log l)) in *. assert (Hn : (n mod 32 < 32)%nat) by (apply Nat.mod_upper_bound; lia).
  destruct (lookup_lt_is_Some_2 (entries h) (n mod 32)%nat) as [entry He]; [lia|].
  pose proof (Forall_lookup_1 _ _ _ _ H3 He) as Hlen. cbn in Hlen. rewrite He. cbn [mbind option_bind].
  change (MAX_LINE_LENGTH - 1)%nat with 255%nat. set (len := Nat.min (length cmd') 255).
  unfold copy_into. destruct (Nat.leb_spec len (length entry)), (Nat.leb_spec len (length cmd')); try (unfold len in *; lia).
  cbn [mbind option_bind andb]. rewrite !store_lookup by lia. cbn [mbind option_bind].
  eexists. split; [done|]. cbn [fst].
  set (entry' := take len cmd' ++ drop len entry).
  assert (Hlen' : length entry' = 256%nat) by (unfold entry'; rewrite length_app, length_take, length_drop; lia).
  repeat split; cbn [entries lengths h_count h_index reset_navigation set_index log pos]; rewrite ?length_insert, ?length_app; try done; [by apply Forall_insert|].
  intros i Hi. cbn [length] in Hi. unfold stored. cbn [entries lengths reset_navigation set_index].
  destruct (decide (i = n)) as [->|Hne].
  - rewrite !list_lookup_insert_eq by lia. cbn [mbind option_bind].
    destruct (Nat.leb_spec len (length entry')); [|unfold len in *; lia].
    rewrite list_lookup_middle by done. f_equal. unfold entry'. rewrite take_app_le by (rewrite length_take; lia).
    rewrite take_take, Nat.min_id. unfold len. destruct (Nat.min_spec (length cmd') 255) as [[? ->]|[? ->]]; [|done].
    by rewrite !take_ge by lia.
  - rewrite !list_lookup_insert_ne by (apply not_eq_sym, mod_window; lia).
    rewrite lookup_app_l by lia. apply H6. lia.
Qed.

Lemma recall_sim h l op : history_rel h l →
  ∃ h', recall h op = Some (h', (recall_spec l op).2) ∧ history_rel h' (recall_spec l op).1.
Proof.
  intros HR. pose proof HR as (H1 & H2 & H3 & H4 & H5 & H6). destruct op as [cmd| | |]; cbn [recall].
  - destruct (push_sim h l cmd HR) as (h' & E & HR'). exists h'. rewrite E. split; [|done].
    cbn. destruct cmd; [done|]. by destruct (bool_decide _).
  - unfold h_previous. cbn [recall_spec]. rewrite H4, H5. destruct (_ || _); [by exists h|].
    assert (HR' : history_rel (set_index h (pos l - 1)) (mkLog (log l) (pos l - 1))) by by repeat split.
    rewrite (get_current_sim _ _ HR'). by eexists.
  - unfold h_next. cbn [recall_spec]. rewrite H4, H5. destruct (Nat.leb_spec (length (log l)) (pos l)); [by exists h|].
    assert (HR' : history_rel (set_index h (pos l + 1)) (mkLog (log l) (pos l + 1))) by by repeat split.
    cbn [h_count h_index set_index]. rewrite H4. rewrite (get_current_sim _ _ HR').
    destruct (Nat.leb_spec (length (log l)) (pos l + 1)); eexists; (split; [|exact HR']); [|done].
    cbn. unfold recallable. cbn. rewrite lookup_ge_None_2 by lia. by destruct (_ <=? _)%nat.
  - eexists. split; [done|]. repeat split; cbn; auto.
Qed.

Fixpoint recalls (h : History) (ops : list Recall) : option (list (option (list Z))) :=
  match ops with
  | [] => Some []
  | op :: ops => '(h, r) ← recall h op; rs ← recalls h ops; Some (r :: rs)
  end.

Fixpoint recalls_spec (l : Log) (ops : list Recall) : list (option (list Z)) :=
  match ops with
  | [] => []
  | op :: ops => let (l, r) := recall_spec l op in r :: recalls_spec l ops
  end.

Lemma history_new : history_rel History_new (mkLog [] 0).
Proof. repeat split; try done; [by repeat constructor|]. intros i Hi. cbn in Hi. lia. Qed.

(** The history ring is a log.  Any sequence of pushes and of presses of the
    up and down arrows answers as the unbounded log does, of which the last 32
    commands can be recalled, each cut to 255 bytes, an empty command and a
    repetition of the last one not being recorded; no access is out of range.
    In particular the ring never returns an overwritten entry. *)
Theorem history_refines ops : recalls History_new ops = Some (recalls_spec (mkLog [] 0) ops).
Proof.
  generalize history_new. generalize History_new (mkLog [] 0).
  induction ops as [|op ops IH]; intros h l HR; [done|].
  destruct (recall_sim h l op HR) as (h' & E & HR'). cbn. rewrite E. cbn.
  destruct (recall_spec l op) as [l' r]. cbn in *. by rewrite (IH _ _ HR').
Qed.

(** The up arrow keeps counting below the oldest command it can show: after
    forty commands and forty presses, one press of the down arrow shows nothing
    although 32 commands can be recalled. *)
Lemma history_runs_past_start :
  let cmds := (λ i, RPush [Z.of_nat i]) <$> seq 1 40 in
  last (recalls_spec (mkLog [] 0) (cmds ++ replicate 40 RPrevious ++ [RNext])) = Some None.
Proof. reflexivity. Qed.

(** ** The display

    All the lines ever completed, the current one, and the column. *)

Record Screen := mkScreen { finished : list (list Cell); current : list Cell; col : nat }.

Definition newline_spec (s : Screen) : Screen := mkScreen (finished s ++ [current s]) [] 0.

Definition write_spec (cols : nat) (s : Screen) (cc : Z * Color) : Screen :=
  let '(c, color) := cc in
  if c =? 10 then newline_spec s
  else if c =? 13 then mkScreen (finished s) (current s) 0
  else if c =? 8 then mkScreen (finished s) (current s) (col s - 1)
  else
    let s := mkScreen (finished s) (take (col s) (current s) ++ mkCell c color WINDOW_BG :: drop (col s + 1) (current s)) (col s + 1) in
    if (cols <=? col s)%nat then newline_spec s else s.

(** The last [rows] lines. *)
Definition visible (rows : nat) (s : Screen) : list (list Cell) :=
  drop (length (finished s) + 1 - rows) (finished s ++ [current s]).

(** What the renderer finds on a row. *)
Definition shown (d : DisplayBuffer) (row : nat) : option (list Cell) :=
  l ← get_line d row; Some (match l with Some l => take (line_len l) (cells l) | None => [] end).

Definition line_ok (l : Line) : Prop := length (cells l) = 256%nat ∧ (line_len l ≤ 256)%nat.
Definition line_text (l : Line) : list Cell := take (line_len l) (cells l).

(** The simulation, except that the cursor may stand past the last column. *)
Definition display_core (rows cols : nat) (d : DisplayBuffer) (s : Screen) : Prop :=
  (0 < rows ≤ 50)%nat ∧ (0 < cols ≤ 256)%nat ∧ max_rows d = rows ∧ max_cols d = cols ∧
  length (lines d) = 50%nat ∧ Forall line_ok (lines d) ∧
  cursor_col d = col s ∧ (col s ≤ length (current s) ≤ cols)%nat ∧
  (cursor_row d + 1 = Nat.min (length (finished s) + 1) rows)%nat ∧
  (line_count d = cursor_row d + 1 ∨ line_count d = 0 ∧ finished s = [] ∧ current s = [])%nat ∧
  line_text <$> take (cursor_row d + 1) (lines d) = visible rows s.

Definition display_rel (rows cols : nat) (d : DisplayBuffer) (s : Screen) : Prop :=
  display_core rows cols d s ∧ (col s < cols)%nat.

Lemma line_clear_ok l : line_ok l → line_ok (line_clear l) ∧ line_text (line_clear l) = [].
Proof. intros [H1 H2]. repeat split; cbn; [by rewrite length_fmap|lia]. Qed.

Lemma newline_visible_grow rows s : (length (finished s) + 1 < rows)%nat → visible rows (newline_spec s) = visible rows s ++ [[]].
Proof.
  intros. unfold visible. cbn. rewrite length_app. cbn.
  replace (length (finished s) + 1 + 1 - rows)%nat with 0%nat by lia. by replace (length (finished s) + 1 - rows)%nat with 0%nat by lia.
Qed.

Lemma newline_visible_scroll rows s : (0 < rows ≤ length (finished s) + 1)%nat →
  visible rows (newline_spec s) = drop 1 (visible rows s) ++ [[]].
Proof.
  intros. unfold visible. cbn [newline_spec finished current]. rewrite drop_drop, length_app. cbn [length].
  rewrite (drop_app_le (finished s ++ _)) by (rewrite length_app; cbn; lia). f_equal. f_equal. lia.
Qed.

(** Clearing a line that is there. *)
Lemma clear_line_middle ls1 ls2 l : clear_line (ls1 ++ l :: ls2) (length ls1) = Some (ls1 ++ line_clear l :: ls2).
Proof. unfold clear_line. rewrite list_lookup_middle by done. cbn. by rewrite store_middle. Qed.

Lemma scroll_lines d x mid post : mid ≠ [] →
  lines d = x :: mid ++ post → max_rows d = S (length mid) →
  ∃ l, l ∈ lines d ∧ scroll_up d 1 = Some (set_lines d (mid ++ line_clear l :: post)).
Proof.
  intros Hm Hl Hr. destruct (move_down [] mid post x) as (y & Hin & Hy). exists y.
  split. { rewrite Hl. set_solver. }
  unfold scroll_up. rewrite Hr, Hl. destruct (Nat.leb_spec (S (length mid)) 1); [destruct mid; [done|cbn in *; lia]|].
  replace (S (length mid) - 1)%nat with (length mid) by lia.
  rewrite (for_each_ext _ (λ l i, move_cell l (i + 1) i)).
  2: { intros ls i [??]%elem_of_seq. by destruct (Nat.ltb_spec (i + 1) (S (length mid))); [|lia]. }
  cbn in Hy. rewrite Hy. cbn [mbind option_bind seq for_each]. by rewrite clear_line_middle.
Qed.

(** A list of lines split at a row. *)
Lemma split_row (ls : list Line) i : (i < length ls)%nat → ∃ l1 l l2, ls = l1 ++ l :: l2 ∧ length l1 = i.
Proof.
  intros Hi. destruct (lookup_lt_is_Some_2 ls i Hi) as [l Hl]. exists (take i ls), l, (drop (S i) ls).
  split; [symmetry; by apply take_drop_middle|]. rewrite length_take. lia.
Qed.

(** What a new line leaves: the rows [kept], then a cleared row. *)
Definition newline_post (rows : nat) (d d' : DisplayBuffer) (kept : list Line) : Prop :=
  let row := Nat.min (cursor_row d + 1) (rows - 1) in
  ∃ l l2, lines d' = kept ++ l :: l2 ∧ length (lines d') = 50%nat ∧ Forall line_ok (lines d') ∧
    length kept = row ∧ line_text l = [] ∧ cursor_row d' = row ∧ cursor_col d' = 0%nat ∧
    max_rows d' = rows ∧ max_cols d' = max_cols d ∧
    ((line_count d ≤ cursor_row d + 1)%nat → line_count d' = (row + 1)%nat).

Lemma newline_post_intro rows d d' kept l l2 :
  lines d' = kept ++ line_clear l :: l2 → length (kept ++ l :: l2) = 50%nat → Forall line_ok (kept ++ l :: l2) →
  length kept = Nat.min (cursor_row d + 1) (rows - 1) → cursor_row d' = length kept → cursor_col d' = 0%nat →
  max_rows d' = rows → max_cols d' = max_cols d →
  ((line_count d ≤ cursor_row d + 1)%nat → line_count d' = (length kept + 1)%nat) →
  newline_post rows d d' kept.
Proof.
  intros H1 H2 H3 H4 H5 H6 H7 H8 H9. exists (line_clear l), l2.
  apply Forall_app in H3 as [Hk Hl]. apply Forall_cons in Hl as [Hl Hl2]. destruct (line_clear_ok l Hl).
  rewrite H1. rewrite length_app in *. cbn in *. repeat split; auto; try lia.
  by apply Forall_app_2; [|constructor].
Qed.

(** Room below: the rows so far are kept. *)
Lemma newline_room rows d :
  max_rows d = rows → (rows ≤ 50)%nat → length (lines d) = 50%nat → Forall line_ok (lines d) →
  (cursor_row d + 1 < rows)%nat →
  ∃ d', newline d = Some d' ∧ newline_post rows d d' (take (cursor_row d + 1) (lines d)).
Proof.
  intros Hr Hrows Hlen Hok Hc. destruct (split_row (lines d) (cursor_row d + 1)) as (l1 & l & l2 & El & H1); [lia|].
  unfold newline. cbn [max_rows cursor_row set_position]. rewrite Hr.
  destruct (Nat.leb_spec rows (cursor_row d + 1)); [lia|]. cbn [mbind option_bind lines ensure_line set_position cursor_row].
  rewrite El, <- H1, clear_line_middle, take_app_length. cbn [mbind option_bind]. eexists. split; [done|].
  rewrite El in Hlen, Hok. apply (newline_post_intro _ _ _ _ l l2); cbn; auto; lia.
Qed.

(** At the bottom: the rows move up by one. *)
Lemma newline_bottom rows d :
  max_rows d = rows → (0 < rows ≤ 50)%nat → length (lines d) = 50%nat → Forall line_ok (lines d) →
  (cursor_row d + 1 = rows)%nat →
  ∃ d', newline d = Some d' ∧ newline_post rows d d' (drop 1 (take rows (lines d))).
Proof.
  intros Hr Hrows Hlen Hok Hc. unfold newline. cbn [max_rows cursor_row set_position].
  destruct (Nat.leb_spec (max_rows d) (cursor_row d + 1)); [|lia].
  set (d0 := set_position d (cursor_row d + 1) 0).
  destruct (lines d) as [|x ls] eqn:El; [done|]. apply Forall_cons in Hok as [Hx Hls].
  destruct (decide (rows = 1%nat)) as [H1|Hn].
  - unfold scroll_up. cbn [max_rows d0 set_position]. rewrite Hr, H1. cbn [Nat.leb mbind option_bind max_rows display_clear d0 set_position].
    rewrite Hr, H1. cbn [Nat.eqb mbind option_bind lines ensure_line set_position cursor_row display_clear d0]. rewrite El.
    rewrite fmap_cons. pose proof (clear_line_middle [] (line_clear <$> ls) (line_clear x)) as Hcl. cbn [app length] in Hcl.
    replace (1 - 1)%nat with 0%nat by lia. rewrite Hcl. cbn [mbind option_bind]. eexists. split; [done|].
    assert (E0 : drop 1 (take 1 (x :: ls)) = []) by done. rewrite E0.
    apply (newline_post_intro _ _ _ _ (line_clear x) (line_clear <$> ls)); cbn; rewrite ?length_fmap; auto; try lia.
    constructor; [by apply line_clear_ok|]. apply Forall_fmap. eapply Forall_impl; [done|]. intros l Hl. by apply line_clear_ok.
  - cbn in Hlen. destruct (scroll_lines d0 x (take (rows - 1) ls) (drop (rows - 1) ls)) as (l & Hin & Hs).
    + intros E%(f_equal length). rewrite length_take in E. cbn in E. lia.
    + cbn. by rewrite take_drop.
    + cbn. rewrite length_take. lia.
    + rewrite Hs. cbn [mbind option_bind max_rows set_lines d0 set_position]. rewrite Hr.
      destruct (Nat.eqb_spec rows 0); [lia|]. cbn [mbind option_bind lines ensure_line set_position cursor_row set_lines d0].
      assert (Hk : length (take (rows - 1) ls) = (rows - 1)%nat) by (rewrite length_take; lia).
      pose proof (clear_line_middle (take (rows - 1) ls) (drop (rows - 1) ls) (line_clear l)) as Hcl. rewrite Hk in Hcl. rewrite Hcl.
      cbn [mbind option_bind]. eexists. split; [done|].
      replace (drop 1 (take rows (x :: ls))) with (take (rows - 1) ls) by (destruct rows; [lia|]; cbn; by rewrite Nat.sub_0_r).
      assert (Hl : line_ok l) by (eapply (Forall_forall line_ok (x :: ls)); [by constructor|]; cbn in Hin; by rewrite El in Hin).
      apply (newline_post_intro _ _ _ _ (line_clear l) (drop (rows - 1) ls)); cbn; auto; try lia.
      * rewrite length_app. cbn. rewrite length_drop. lia.
      * apply Forall_app_2; [by apply Forall_take|]. constructor; [by apply line_clear_ok|by apply Forall_drop].
Qed.

Lemma newline_sim rows cols d s : display_core rows cols d s →
  ∃ d', newline d = Some d' ∧ display_rel rows cols d' (newline_spec s).
Proof.
  intros (Hrows & Hcols & Hr & Hc & Hlen & Hok & Hcol & Hcur & Hrow & Hcount & Hvis).
  assert (Hpost : ∃ d' kept, newline d = Some d' ∧ newline_post rows d d' kept ∧ (line_text <$> kept) ++ [[]] = visible rows (newline_spec s)).
  { destruct (decide (cursor_row d + 1 < rows)%nat).
    - destruct (newline_room rows d) as (d' & E & HP); [auto; lia..|]. exists d', (take (cursor_row d + 1) (lines d)).
      repeat split; [done..|]. by rewrite newline_visible_grow, Hvis by lia.
    - destruct (newline_bottom rows d) as (d' & E & HP); [auto; lia..|]. exists d', (drop 1 (take rows (lines d))).
      repeat split; [done..|]. rewrite newline_visible_scroll by lia. rewrite <- Hvis, fmap_drop. do 4 f_equal. lia. }
  destruct Hpost as (d' & kept & E & (l & l2 & El & Hlen' & Hok' & Hk & Hl & Hrow' & Hcol' & Hr' & Hc' & Hcount') & Hv).
  exists d'. split; [done|]. split; [|cbn; lia].
  split_and!; auto; try congruence; cbn [newline_spec col current length finished]; try lia.
  - rewrite length_app. cbn. lia.
  - rewrite <- Hv, El, Hrow', <- Hk. rewrite take_app_ge by lia.
    replace (length kept + 1 - length kept)%nat with 1%nat by lia. cbn. by rewrite fmap_app, take_0, <- Hl.
Qed.

(** Writing a cell of a line. *)
Lemma line_set_text l i c : line_ok l → (i ≤ line_len l)%nat → (i < 256)%nat →
  ∃ l', line_set l i c = Some l' ∧ line_ok l' ∧ line_text l' = take i (line_text l) ++ c :: drop (i + 1) (line_text l).
Proof.
  intros [H1 H2] Hi Hi'. unfold line_set. change MAX_LINE_LENGTH with 256%nat.
  destruct (Nat.ltb_spec i 256); [|lia]. rewrite store_lookup by lia. cbn [mbind option_bind].
  eexists. split; [done|]. unfold line_ok, line_text. cbn [cells line_len].
  rewrite length_insert, insert_take_drop by lia.
  split; [split; [lia|]; destruct (Nat.leb_spec (line_len l) i); lia|].
  rewrite take_take, Nat.min_l by lia. assert (Ht : length (take i (cells l)) = i) by (rewrite length_take; lia).
  rewrite take_app_ge, Ht by (destruct (Nat.leb_spec (line_len l) i); lia). f_equal.
  destruct (Nat.leb_spec (line_len l) i).
  - replace (i + 1 - i)%nat with 1%nat by lia. cbn. by rewrite take_0, drop_ge by (rewrite length_take; lia).
  - destruct (line_len l - i)%nat as [|k] eqn:Ek; [lia|]. cbn. f_equal. rewrite skipn_firstn_comm.
    replace (line_len l - (i + 1))%nat with k by lia. by rewrite Nat.add_1_r.
Qed.

Lemma visible_last rows s : (0 < rows)%nat → visible rows s = drop (length (finished s) + 1 - rows) (finished s) ++ [current s].
Proof. intros. unfold visible. by rewrite drop_app_le by lia. Qed.

(** Writing a printable character, before the wrap is considered. *)
Lemma put_sim rows cols d s cell : display_rel rows cols d s →
  ∃ l l' ls, lines (ensure_line d) !! cursor_row d = Some l ∧ line_set l (cursor_col d) cell = Some l' ∧
    store (lines d) (cursor_row d) l' = Some ls ∧
    display_core rows cols (set_position (set_lines (ensure_line d) ls) (cursor_row d) (cursor_col d + 1))
      (mkScreen (finished s) (take (col s) (current s) ++ cell :: drop (col s + 1) (current s)) (col s + 1)).
Proof.
  intros [(Hrows & Hcols & Hr & Hc & Hlen & Hok & Hcol & Hcur & Hrow & Hcount & Hvis) Hlt].
  destruct (split_row (lines d) (cursor_row d)) as (l1 & l & l2 & El & H1); [lia|].
  rewrite El, <- H1 in Hvis. rewrite take_app_ge in Hvis by lia.
  replace (length l1 + 1 - length l1)%nat with 1%nat in Hvis by lia. cbn in Hvis. rewrite take_0, fmap_app, visible_last in Hvis by lia.
  apply app_inj_2 in Hvis as [Hv1 Hv2]; [|done]. injection Hv2 as Hv2.
  rewrite El in Hok. apply Forall_app in Hok as [Hok1 Hok2]. apply Forall_cons in Hok2 as [Hl Hok2].
  assert (Hll : line_len l = length (current s)).
  { rewrite <- Hv2. unfold line_text. rewrite length_take. destruct Hl. lia. }
  destruct (line_set_text l (col s) cell Hl) as (l' & E & Hl' & Ht); [lia..|].
  exists l, l', (l1 ++ l' :: l2). rewrite El, Hcol. rewrite <- H1, store_middle. cbn [ensure_line lines].
  split_and!; [rewrite El; by apply list_lookup_middle|done|done|].
  rewrite Hv2 in Ht. rewrite El in Hlen. rewrite length_app in Hlen. cbn in Hlen.
  assert (Hlen' : length (take (col s) (current s) ++ cell :: drop (col s + 1) (current s)) = Nat.max (col s + 1) (length (current s))).
  { rewrite length_app. cbn. rewrite length_take, length_drop. lia. }
  unfold display_core. cbn [max_rows max_cols lines set_position set_lines ensure_line cursor_col col current finished cursor_row line_count].
  rewrite Hlen'. split_and!; auto; try lia.
  - rewrite length_app. cbn. lia.
  - by apply Forall_app_2; [|constructor].
  - rewrite visible_last, take_app_ge by lia. replace (length l1 + 1 - length l1)%nat with 1%nat by lia. cbn.
    by rewrite take_0, fmap_app, Hv1, <- Ht.
Qed.

Lemma write_sim rows cols d s cc : display_rel rows cols d s →
  ∃ d', write_char d cc.1 cc.2 = Some d' ∧ display_rel rows cols d' (write_spec cols s cc).
Proof.
  intros HR. pose proof HR as [HC Hlt]. destruct cc as [c color]. unfold write_char, write_spec. cbn [fst snd].
  destruct (c =? 10); [by apply newline_sim|].
  pose proof HC as (Hrows & Hcols & Hr & Hc & Hlen & Hok & Hcol & Hcur & Hrow & Hcount & Hvis).
  destruct (c =? 13).
  { eexists. split; [done|]. split; [|cbn; lia]. split_and!; auto; cbn; lia. }
  destruct (c =? 8).
  { destruct (Nat.ltb_spec 0 (cursor_col d)).
    - eexists. split; [done|]. split; [|cbn; lia]. split_and!; auto; cbn; lia.
    - eexists. split; [done|]. split; [|cbn; lia]. split_and!; auto; cbn; lia. }
  destruct (put_sim rows cols d s (mkCell c color WINDOW_BG) HR) as (l & l' & ls & E1 & E2 & E3 & HC').
  cbn [ensure_line cursor_row cursor_col lines] in *. rewrite E1. cbn [mbind option_bind]. rewrite E2. cbn [mbind option_bind].
  rewrite E3. cbn [mbind option_bind]. unfold set_lines at 1. cbn [set_position max_cols cursor_col col ensure_line]. rewrite Hc, Hcol in *.
  destruct (Nat.leb_spec cols (col s + 1)); [by apply newline_sim|]. eexists. split; [done|]. by split.
Qed.

Lemma display_new rows cols : (0 < rows ≤ 50)%nat → (0 < cols ≤ 256)%nat →
  display_rel rows cols (set_dimensions DisplayBuffer_new rows cols) (mkScreen [] [] 0).
Proof.
  intros Hr Hc. split; [|cbn; lia]. unfold display_core.
  cbn [set_dimensions DisplayBuffer_new max_rows max_cols lines cursor_col cursor_row line_count].
  change MAX_VISIBLE_LINES with 50%nat. change MAX_LINE_LENGTH with 256%nat.
  split_and!; try (cbn; lia).
  - apply Forall_replicate. by split; [reflexivity|cbn; lia].
  - cbn [finished length]. lia.
  - by right.
  - unfold visible. cbn [finished current length app]. replace (0 + 1 - rows)%nat with 0%nat by lia. done.
Qed.

(** What the renderer finds are the last lines of the screen. *)
Lemma shown_visible rows cols d s row : display_rel rows cols d s → (row < rows)%nat →
  shown d row = Some (default [] (visible rows s !! row)).
Proof.
  intros [(Hrows & Hcols & Hr & Hc & Hlen & Hok & Hcol & Hcur & Hrow & Hcount & Hvis) Hlt] Hi.
  unfold shown, get_line. rewrite Hr. destruct (Nat.ltb_spec row rows); [|lia]. cbn [andb].
  rewrite <- Hvis, list_lookup_fmap. destruct (Nat.ltb_spec row (line_count d)).
  - destruct (lookup_lt_is_Some_2 (lines d) row) as [l Hl]; [lia|]. rewrite Hl.
    by rewrite lookup_take_lt, Hl by lia.
  - cbn. destruct Hcount as [Hcount|(Hcount & Hf & Hcu)].
    + by rewrite lookup_take_ge by lia.
    + assert (Hv : line_text <$> take (cursor_row d + 1) (lines d) = [[]]).
      { rewrite Hvis. unfold visible. rewrite Hf, Hcu. cbn. by replace (1 - rows)%nat with 0%nat by lia. }
      destruct (take (cursor_row d + 1) (lines d)) as [|l [|??]]; cbn in Hv; try discriminate Hv. injection Hv as Hv. destruct row; cbn; [by rewrite Hv|done].
Qed.

(** The display shows the end of what was written.  On a display of any size
    from 1 by 1 to 50 by 256, any text in any colours, with its line feeds,
    carriage returns and backspaces, is written without a panic, and afterwards
    row [i] of the window shows line [i] of the last [rows] of all the lines the
    text forms when it is wrapped at the last column. *)
Theorem display_refines rows cols (txt : list (Z * Color)) :
  (0 < rows ≤ 50)%nat → (0 < cols ≤ 256)%nat →
  ∃ d, for_each (λ d cc, write_char d cc.1 cc.2) (set_dimensions DisplayBuffer_new rows cols) txt = Some d ∧
    let s := foldl (write_spec cols) (mkScreen [] [] 0) txt in
    cursor_col d = col s ∧ (cursor_row d + 1 = length (visible rows s))%nat ∧
    ∀ row, (row < rows)%nat → shown d row = Some (default [] (visible rows s !! row)).
Proof.
  intros Hr Hc.
  destruct (for_each_sim (display_rel rows cols) (λ d cc, write_char d cc.1 cc.2) (write_spec cols)
    (set_dimensions DisplayBuffer_new rows cols) (mkScreen [] [] 0) txt) as (d & E & HR).
  - intros. by apply write_sim.
  - by apply display_new.
  - exists d. split; [done|]. cbn zeta. split_and!.
    + destruct HR as [(_ & _ & _ & _ & _ & _ & Hcol & _) _]. exact Hcol.
    + destruct HR as [(_ & _ & _ & _ & Hlen & _ & _ & _ & Hrow & _ & Hvis) _]. rewrite <- Hvis, length_fmap, length_take. lia.
    + intros. by eapply shown_visible.
Qed.

(** Three lines written on a window of two rows and four columns: the long one
    wraps and the first has scrolled away. *)
Lemma display_refines_witness :
  let txt := (λ c, (c, TEXT_NORMAL)) <$> [97; 10; 98; 99; 100; 101; 102; 8; 103] in
  (0 < 2 ≤ 50)%nat ∧ (0 < 4 ≤ 256)%nat ∧
  ∃ d, for_each (λ d cc, write_char d cc.1 cc.2) (set_dimensions DisplayBuffer_new 2 4) txt = Some d ∧
    let s := foldl (write_spec 4) (mkScreen [] [] 0) txt in
    cursor_col d = col s ∧ (cursor_row d + 1 = length (visible 2 s))%nat ∧
    ∀ row, (row < 2)%nat → shown d row = Some (default [] (visible 2 s !! row)).
Proof.
  cbn zeta. split; [lia|]. split; [lia|]. apply display_refines; lia.
Defined.
