(* ===== verification/UserLib.v ===== *)
(** * The system call library ([libs/syscall], [libs/libipc/src/protocol.rs])

    The stubs user programs call, on top of the dispatcher of [Syscall].  A
    stub loads the registers of its arguments; the other argument registers
    keep what they held, [left] below, and the kernel reads them all.  [None]
    is a call that faults or never returns. *)

From S2P Require Import Prelude Thread Input Vm Kernel Syscall LibIpc.

(** ** Errors ([error.rs]) *)

Inductive SyscallError :=
| Success | InvalidArgument | NotImplemented | OutOfMemory | PermissionDenied | Busy | SeMessageTooLarge | TimedOut
| SeWouldBlock | Deadlock.

Definition from_raw (value : Z) : option SyscallError :=
  if value =? 0 then Some Success
  else if value =? U64_MAX - 1 then Some InvalidArgument
  else if value =? U64_MAX - 2 then Some NotImplemented
  else if value =? U64_MAX - 3 then Some OutOfMemory
  else if value =? U64_MAX - 4 then Some PermissionDenied
  else if value =? U64_MAX - 5 then Some Busy
  else if value =? U64_MAX - 6 then Some SeMessageTooLarge
  else if value =? U64_MAX - 7 then Some TimedOut
  else if value =? U64_MAX - 8 then Some SeWouldBlock
  else if value =? U64_MAX - 9 then Some Deadlock
  else None.

Definition is_would_block (value : Z) : bool := value =? U64_MAX - 8.

(** The discriminants. *)
Definition error_value (e : SyscallError) : Z :=
  match e with
  | Success => 0 | InvalidArgument => U64_MAX - 1 | NotImplemented => U64_MAX - 2 | OutOfMemory => U64_MAX - 3
  | PermissionDenied => U64_MAX - 4 | Busy => U64_MAX - 5 | SeMessageTooLarge => U64_MAX - 6 | TimedOut => U64_MAX - 7
  | SeWouldBlock => U64_MAX - 8 | Deadlock => U64_MAX - 9
  end.

Section lib.
Context {D : Type} {ps2 : Ps2 D} {mmu : Mmu}.
Context (switch_context : CpuContext → CpuContext → CpuContext) (resume : Kernel D → Kernel D).
Context (fuel : nat).
Implicit Types (k : Kernel D) (left : list Z).

(** ** Stubs ([raw.rs]) *)

(** [rdi], [rsi], [rdx], [r10], [r8] and [r9] at the [syscall] instruction. *)
Definition argument_registers left (args : list Z) : list Z := args ++ drop (length args) left.

(** [syscall0] to [syscall6] differ in the number of [args]. *)
Definition syscall left k (num : Z) (args : list Z) : option (Kernel D * Z) :=
  match argument_registers left args with
  | [rdi; rsi; rdx; r10; r8; r9] =>
      match rust_syscall_dispatcher switch_context resume fuel k num rdi rsi rdx r10 r8 r9 with
      | Return k v => Some (k, v)
      | _ => None
      end
  | _ => None
  end.

(** ** IPC ([ipc.rs])

    A slice is its address and its length. *)

Definition lib_create_port left k : option (Kernel D * result Z SyscallError) :=
  '(k, r) ← syscall left k SYS_IPC_CREATE_PORT [];
  Some (k, if (r =? 0) || (U64_MAX - 10 <=? r) then Err OutOfMemory else Ok r).

Definition lib_close_port left k (port : Z) : option (Kernel D * result unit SyscallError) :=
  '(k, r) ← syscall left k SYS_IPC_CLOSE_PORT [port];
  Some (k, if r =? ESUCCESS then Ok tt else Err InvalidArgument).

Definition lib_send left k (port data_ptr data_len : Z) : option (Kernel D * result unit SyscallError) :=
  '(k, r) ← syscall left k SYS_IPC_SEND [port; data_ptr; data_len];
  Some (k, if r =? ESUCCESS then Ok tt else if r =? EPERM then Err PermissionDenied else Err InvalidArgument).

Definition lib_recv left k (port buf_ptr buf_len : Z) : option (Kernel D * result Z SyscallError) :=
  '(k, r) ← syscall left k SYS_IPC_RECV [port; buf_ptr; buf_len];
  Some (k, if U64_MAX - 10 <=? r then if r =? EWOULDBLOCK then Err SeWouldBlock else Err InvalidArgument else Ok r).

Definition lib_try_recv left k (port buf_ptr buf_len : Z) : option (Kernel D * result (option Z) SyscallError) :=
  '(k, r) ← syscall left k SYS_IPC_TRY_RECV [port; buf_ptr; buf_len];
  Some (k, if r =? EWOULDBLOCK then Ok None else if U64_MAX - 10 <=? r then Err InvalidArgument else Ok (Some r)).

Definition lib_send_async left k (port data_ptr data_len : Z) : option (Kernel D * result unit SyscallError) :=
  '(k, r) ← syscall left k SYS_IPC_SEND_ASYNC [port; data_ptr; data_len];
  Some (k, if r =? ESUCCESS then Ok tt else Err InvalidArgument).

Definition lib_wait_any left k (ports_ptr ports_len timeout_ms : Z) : option (Kernel D * result Z SyscallError) :=
  if (ports_len =? 0) || (64 <? ports_len) then Some (k, Err InvalidArgument)
  else
    '(k, r) ← syscall left k SYS_IPC_WAIT_ANY [ports_ptr; ports_len; timeout_ms];
    Some (k, if r <? ports_len then Ok r else if r =? EWOULDBLOCK then Err SeWouldBlock
             else if r =? ETIMEDOUT then Err TimedOut else Err InvalidArgument).

(** ** Threads and log ([thread.rs], [debug.rs]) *)

Definition yield_now left k : option (Kernel D) := '(k, _) ← syscall left k SYS_THREAD_YIELD []; Some k.
Definition sleep_ms left k (milliseconds : Z) : option (Kernel D) :=
  '(k, _) ← syscall left k SYS_THREAD_SLEEP [milliseconds]; Some k.
Definition lib_get_ticks left k : option (Kernel D * Z) := syscall left k SYS_GET_TICKS [].
Definition get_time_ms left k : option (Kernel D * Z) := '(k, t) ← lib_get_ticks left k; Some (k, wrap64 (t * 10)).
Definition lib_log left k (msg_ptr msg_len : Z) : option (Kernel D) :=
  '(k, _) ← syscall left k SYS_DEBUG_LOG [msg_ptr; msg_len]; Some k.

(** ** Ports of the PS/2 controller ([io.rs]) *)

Definition port_read_u8 left k (port : Z) : option (Kernel D * result Z SyscallError) :=
  '(k, r) ← syscall left k SYS_IO_PORT_READ [port; 1];
  Some (k, if r =? EPERM then Err PermissionDenied else if r =? EINVAL then Err InvalidArgument else Ok (wrap8 r)).

Definition port_write_u8 left k (port value : Z) : option (Kernel D * result unit SyscallError) :=
  '(k, r) ← syscall left k SYS_IO_PORT_WRITE [port; value];
  Some (k, if r =? ESUCCESS then Ok tt else if r =? EPERM then Err PermissionDenied else Err InvalidArgument).

Definition DATA_PORT : Z := 0x60.
Definition STATUS_PORT : Z := 0x64.
Definition COMMAND_PORT : Z := 0x64.
Definition STATUS_INPUT_FULL : Z := 0x02.

(** [?] on a result inside a stub. *)
Definition and_then {A B} (r : option (Kernel D * result A SyscallError))
    (f : Kernel D → A → option (Kernel D * result B SyscallError)) : option (Kernel D * result B SyscallError) :=
  '(k, r) ← r; match r with Ok a => f k a | Err e => Some (k, Err e) end.

Definition ps2_data_available left k : option (Kernel D * result bool SyscallError) :=
  and_then (port_read_u8 left k STATUS_PORT) (λ k s, Some (k, Ok (negb (Z.land s STATUS_OUTPUT_FULL =? 0)))).

Definition ps2_can_send left k : option (Kernel D * result bool SyscallError) :=
  and_then (port_read_u8 left k STATUS_PORT) (λ k s, Some (k, Ok (Z.land s STATUS_INPUT_FULL =? 0))).

(** The two waiting loops, over [for _ in 0..10000]. *)
Fixpoint ps2_wait (n : nat) (ready : Kernel D → option (Kernel D * result bool SyscallError)) k
    : option (Kernel D * result unit SyscallError) :=
  match n with
  | O => Some (k, Err TimedOut)
  | S n => and_then (ready k) (λ k b, if b : bool then Some (k, Ok tt) else ps2_wait n ready k)
  end.

Definition ps2_wait_input left k : option (Kernel D * result unit SyscallError) :=
  ps2_wait (Z.to_nat 10000) (ps2_can_send left) k.
Definition ps2_wait_output left k : option (Kernel D * result unit SyscallError) :=
  ps2_wait (Z.to_nat 10000) (ps2_data_available left) k.

Definition ps2_read_data left k : option (Kernel D * result Z SyscallError) := port_read_u8 left k DATA_PORT.
Definition ps2_write_data left k (data : Z) : option (Kernel D * result unit SyscallError) :=
  and_then (ps2_wait_input left k) (λ k _, port_write_u8 left k DATA_PORT data).
Definition ps2_write_command left k (cmd : Z) : option (Kernel D * result unit SyscallError) :=
  and_then (ps2_wait_input left k) (λ k _, port_write_u8 left k COMMAND_PORT cmd).

(** ** Input ([input.rs]) *)

Definition mouse_poll_byte left k : option (Kernel D * option Z) :=
  '(k, r) ← syscall left k SYS_MOUSE_POLL []; Some (k, if r =? EWOULDBLOCK then None else Some (wrap8 r)).

Definition keyboard_poll left k : option (Kernel D * option Z) :=
  '(k, r) ← syscall left k SYS_KEYBOARD_POLL []; Some (k, if r =? EWOULDBLOCK then None else Some (wrap8 r)).

(** The polling loops of the library and of the terminal: feed bytes to a
    decoder until it produces an event or there are none left.  [n] bounds
    the loop; [None] is running out of it. *)
Fixpoint poll_until {S E} (poll : Kernel D → option (Kernel D * option Z)) (decode : S → Z → S * option E)
    (n : nat) k (s : S) : option (Kernel D * S * option E) :=
  match n with
  | O => None
  | S n =>
      '(k, b) ← poll k;
      match b with
      | None => Some (k, s, None)
      | Some b => let '(s, e) := decode s b in match e with Some e => Some (k, s, Some e) | None => poll_until poll decode n k s end
      end
  end.

(** ** Typed messages ([protocol.rs])

    [at_ptr] is where the allocator put the frame. *)

Definition lib_send_message left k (seq port : Z) (t : MessageType) (payload : list Z) (at_ptr : Z)
    : option (Kernel D * result unit SyscallError) :=
  lib_send left k port at_ptr (Z.of_nat (length (frame_message seq t payload).1)).

Definition lib_send_message_async left k (seq port : Z) (t : MessageType) (payload : list Z) (at_ptr : Z)
    : option (Kernel D * result unit SyscallError) :=
  lib_send_async left k port at_ptr (Z.of_nat (length (frame_message seq t payload).1)).

(** What [try_recv_message] makes of the bytes [try_recv] left at [buf_ptr]. *)
Definition lib_try_recv_message left k (port buf_ptr buf_len : Z)
    : option (Kernel D * result (option (MessageHeader * Z)) SyscallError) :=
  and_then (lib_try_recv left k port buf_ptr buf_len) (λ k r,
    match r with
    | None => Some (k, Ok None)
    | Some len =>
        if len <? Z.of_nat HEADER_SIZE then Some (k, Err InvalidArgument)
        else
          bytes ← user_read (k_vm k) buf_ptr (Z.of_nat HEADER_SIZE);
          Some (k, match header_from_bytes bytes with Some h => Ok (Some (h, len)) | None => Err InvalidArgument end)
    end).
End lib.

(** ** Mouse packets ([input.rs], [MouseDriver]) *)

Record LibMouse := mkLibMouse { lm_packet : list Z; lm_cycle : Z }.
Definition LibMouse_new : LibMouse := mkLibMouse [0; 0; 0] 0.

Record LibMouseEvent := mkLibMouseEvent { lme_dx : Z; lme_dy : Z; lme_left : bool; lme_right : bool; lme_middle : bool }.

Definition lib_mouse_byte (m : LibMouse) (byte : Z) : LibMouse * option LibMouseEvent :=
  if lm_cycle m =? 0 then
    if negb (Z.land byte 0x08 =? 0) then (mkLibMouse (<[0%nat := byte]> (lm_packet m)) 1, None) else (m, None)
  else if lm_cycle m =? 1 then (mkLibMouse (<[1%nat := byte]> (lm_packet m)) 2, None)
  else if lm_cycle m =? 2 then
    let packet := <[2%nat := byte]> (lm_packet m) in
    let m := mkLibMouse packet 0 in
    let flags := packet !!! 0%nat in
    if negb (Z.land flags 0xC0 =? 0) then (m, None)
    else
      let dx := packet !!! 1%nat in
      let dy := packet !!! 2%nat in
      let dx := if negb (Z.land flags 0x10 =? 0) then dx - 256 else dx in
      let dy := if negb (Z.land flags 0x20 =? 0) then dy - 256 else dy in
      (m, Some (mkLibMouseEvent dx dy (negb (Z.land flags 0x01 =? 0)) (negb (Z.land flags 0x02 =? 0))
                  (negb (Z.land flags 0x04 =? 0))))
  else (mkLibMouse (lm_packet m) 0, None).
