(* ===== verification/Keys.v ===== *)
(** * Keyboards

    The three places where user space decodes PS/2 set 1 scancodes: the
    keyboard driver ([drivers/keyboard/src/main.rs]), the terminal
    ([drivers/terminal/src/input.rs]) and the table of the system call library
    ([libs/syscall/src/input.rs]). *)

From Stdlib Require Import Ascii.
From S2P Require Import Prelude Thread Input Vm Kernel Syscall LibIpc UserLib.

Definition chr (c : Ascii.ascii) : Z := Z.of_N (Ascii.N_of_ascii c).
#[global] Arguments chr c%_char.

(** [to_ascii_uppercase] and the like, on code points. *)
Definition is_lower (c : Z) : bool := (97 <=? c) && (c <=? 122).
Definition is_upper (c : Z) : bool := (65 <=? c) && (c <=? 90).
Definition uppercase (c : Z) : Z := if is_lower c then c - 32 else c.
Definition lowercase (c : Z) : Z := if is_upper c then c + 32 else c.

(** [letter], the same function in both programs. *)
Definition letter (base : Z) (shift caps : bool) : Z := if xorb shift caps then uppercase base else base.

(** ** The keyboard driver *)

Record KeyboardState := mkKeyboard {
  kb_shift : bool;
  kb_ctrl : bool;
  kb_alt : bool;
  kb_caps_lock : bool;
  kb_extended : bool;
}.

Definition KeyboardState_new : KeyboardState := mkKeyboard false false false false false.

Definition kb_modifiers (s : KeyboardState) : KeyModifiers :=
  mkModifiers (kb_shift s) (kb_ctrl s) (kb_alt s) (kb_caps_lock s).

Definition driver_translate (code : Z) (shift caps : bool) : Z :=
  match code with
  | 0x02 => if shift then chr "!" else chr "1"
  | 0x03 => if shift then chr "@" else chr "2"
  | 0x04 => if shift then chr "#" else chr "3"
  | 0x05 => if shift then chr "$" else chr "4"
  | 0x06 => if shift then chr "%" else chr "5"
  | 0x07 => if shift then chr "^" else chr "6"
  | 0x08 => if shift then chr "&" else chr "7"
  | 0x09 => if shift then chr "*" else chr "8"
  | 0x0A => if shift then chr "(" else chr "9"
  | 0x0B => if shift then chr ")" else chr "0"
  | 0x0C => if shift then chr "_" else chr "-"
  | 0x0D => if shift then chr "+" else chr "="
  | 0x0E => 0x08
  | 0x0F => 9
  | 0x1C => 10
  | 0x39 => chr " "
  | 0x01 => 0x1B
  | 0x1A => if shift then chr "{" else chr "["
  | 0x1B => if shift then chr "}" else chr "]"
  | 0x27 => if shift then chr ":" else chr ";"
  | 0x28 => if shift then 34 else 39
  | 0x29 => if shift then chr "~" else chr "`"
  | 0x2B => if shift then chr "|" else 92
  | 0x33 => if shift then chr "<" else chr ","
  | 0x34 => if shift then chr ">" else chr "."
  | 0x35 => if shift then chr "?" else chr "/"
  | 0x10 => letter (chr "q") shift caps
  | 0x11 => letter (chr "w") shift caps
  | 0x12 => letter (chr "e") shift caps
  | 0x13 => letter (chr "r") shift caps
  | 0x14 => letter (chr "t") shift caps
  | 0x15 => letter (chr "y") shift caps
  | 0x16 => letter (chr "u") shift caps
  | 0x17 => letter (chr "i") shift caps
  | 0x18 => letter (chr "o") shift caps
  | 0x19 => letter (chr "p") shift caps
  | 0x1E => letter (chr "a") shift caps
  | 0x1F => letter (chr "s") shift caps
  | 0x20 => letter (chr "d") shift caps
  | 0x21 => letter (chr "f") shift caps
  | 0x22 => letter (chr "g") shift caps
  | 0x23 => letter (chr "h") shift caps
  | 0x24 => letter (chr "j") shift caps
  | 0x25 => letter (chr "k") shift caps
  | 0x26 => letter (chr "l") shift caps
  | 0x2C => letter (chr "z") shift caps
  | 0x2D => letter (chr "x") shift caps
  | 0x2E => letter (chr "c") shift caps
  | 0x2F => letter (chr "v") shift caps
  | 0x30 => letter (chr "b") shift caps
  | 0x31 => letter (chr "n") shift caps
  | 0x32 => letter (chr "m") shift caps
  | _ => 0
  end.

Definition is_release (scancode : Z) : bool := negb (Z.land scancode 0x80 =? 0).

Definition driver_scancode (s : KeyboardState) (scancode : Z) : KeyboardState * option (Z * Z * bool) :=
  if scancode =? 0xE0 then (mkKeyboard (kb_shift s) (kb_ctrl s) (kb_alt s) (kb_caps_lock s) true, None)
  else
    let s := mkKeyboard (kb_shift s) (kb_ctrl s) (kb_alt s) (kb_caps_lock s) false in
    let release := is_release scancode in
    let code := Z.land scancode 0x7F in
    match code with
    | 0x2A | 0x36 => (mkKeyboard (negb release) (kb_ctrl s) (kb_alt s) (kb_caps_lock s) false, None)
    | 0x1D => (mkKeyboard (kb_shift s) (negb release) (kb_alt s) (kb_caps_lock s) false, None)
    | 0x38 => (mkKeyboard (kb_shift s) (kb_ctrl s) (negb release) (kb_caps_lock s) false, None)
    | 0x3A =>
        (if release then s else mkKeyboard (kb_shift s) (kb_ctrl s) (kb_alt s) (negb (kb_caps_lock s)) false, None)
    | _ =>
        let ascii := if release then 0 else driver_translate code (kb_shift s) (kb_caps_lock s) in
        (s, Some (scancode, ascii, negb release))
    end.

(** [KeyboardDriver]: the loop body of [run] for one scancode, the message it
    builds and whether one is sent.  [desktop_port] is [None] from [new] on. *)
Record KeyboardDriver := mkKeyboardDriver { kd_state : KeyboardState; kd_desktop_port : option Z; kd_event_count : Z }.

Definition KeyboardDriver_new : KeyboardDriver := mkKeyboardDriver KeyboardState_new None 0.

Definition keyboard_handle (d : KeyboardDriver) (scancode : Z) : KeyboardDriver * option (Z * MessageType * list Z) :=
  let '(s, r) := driver_scancode (kd_state d) scancode in
  match r with
  | None => (mkKeyboardDriver s (kd_desktop_port d) (kd_event_count d), None)
  | Some (sc, ascii, pressed) =>
      let event := mkKeyMessage sc ascii (kb_modifiers s) in
      (mkKeyboardDriver s (kd_desktop_port d) (wrap64 (kd_event_count d + 1)),
       port ← kd_desktop_port d; Some (port, if pressed : bool then MtKeyDown else MtKeyUp, key_to_bytes event))
  end.

(** ** The terminal *)

Inductive TermKey :=
| TkChar (c : Z) | TkControl (c : Z) | TkAlt (c : Z)
| TkEnter | TkBackspace | TkTab | TkEscape | TkDelete
| TkArrowUp | TkArrowDown | TkArrowLeft | TkArrowRight
| TkHome | TkEnd | TkPageUp | TkPageDown | TkFunction (n : Z) | TkInsert.

Record InputHandler := mkHandler {
  ih_shift_left : bool;
  ih_shift_right : bool;
  ih_ctrl : bool;
  ih_alt : bool;
  ih_caps_lock : bool;
  ih_extended : bool;
}.

Definition InputHandler_new : InputHandler := mkHandler false false false false false false.

Definition ih_shift (h : InputHandler) : bool := ih_shift_left h || ih_shift_right h.

Definition term_translate (code : Z) (shift caps : bool) : option Z :=
  match code with
  | 0x02 => Some (if shift then chr "!" else chr "1")
  | 0x03 => Some (if shift then chr "@" else chr "2")
  | 0x04 => Some (if shift then chr "#" else chr "3")
  | 0x05 => Some (if shift then chr "$" else chr "4")
  | 0x06 => Some (if shift then chr "%" else chr "5")
  | 0x07 => Some (if shift then chr "^" else chr "6")
  | 0x08 => Some (if shift then chr "&" else chr "7")
  | 0x09 => Some (if shift then chr "*" else chr "8")
  | 0x0A => Some (if shift then chr "(" else chr "9")
  | 0x0B => Some (if shift then chr ")" else chr "0")
  | 0x0C => Some (if shift then chr "_" else chr "-")
  | 0x0D => Some (if shift then chr "+" else chr "=")
  | 0x10 => Some (letter (chr "q") shift caps)
  | 0x11 => Some (letter (chr "w") shift caps)
  | 0x12 => Some (letter (chr "e") shift caps)
  | 0x13 => Some (letter (chr "r") shift caps)
  | 0x14 => Some (letter (chr "t") shift caps)
  | 0x15 => Some (letter (chr "y") shift caps)
  | 0x16 => Some (letter (chr "u") shift caps)
  | 0x17 => Some (letter (chr "i") shift caps)
  | 0x18 => Some (letter (chr "o") shift caps)
  | 0x19 => Some (letter (chr "p") shift caps)
  | 0x1A => Some (if shift then chr "{" else chr "[")
  | 0x1B => Some (if shift then chr "}" else chr "]")
  | 0x1E => Some (letter (chr "a") shift caps)
  | 0x1F => Some (letter (chr "s") shift caps)
  | 0x20 => Some (letter (chr "d") shift caps)
  | 0x21 => Some (letter (chr "f") shift caps)
  | 0x22 => Some (letter (chr "g") shift caps)
  | 0x23 => Some (letter (chr "h") shift caps)
  | 0x24 => Some (letter (chr "j") shift caps)
  | 0x25 => Some (letter (chr "k") shift caps)
  | 0x26 => Some (letter (chr "l") shift caps)
  | 0x27 => Some (if shift then chr ":" else chr ";")
  | 0x28 => Some (if shift then 34 else 39)
  | 0x29 => Some (if shift then chr "~" else chr "`")
  | 0x2B => Some (if shift then chr "|" else 92)
  | 0x2C => Some (letter (chr "z") shift caps)
  | 0x2D => Some (letter (chr "x") shift caps)
  | 0x2E => Some (letter (chr "c") shift caps)
  | 0x2F => Some (letter (chr "v") shift caps)
  | 0x30 => Some (letter (chr "b") shift caps)
  | 0x31 => Some (letter (chr "n") shift caps)
  | 0x32 => Some (letter (chr "m") shift caps)
  | 0x33 => Some (if shift then chr "<" else chr ",")
  | 0x34 => Some (if shift then chr ">" else chr ".")
  | 0x35 => Some (if shift then chr "?" else chr "/")
  | 0x39 => Some (chr " ")
  | _ => None
  end.

Definition set_ctrl (h : InputHandler) (v : bool) : InputHandler :=
  mkHandler (ih_shift_left h) (ih_shift_right h) v (ih_alt h) (ih_caps_lock h) (ih_extended h).
Definition set_alt (h : InputHandler) (v : bool) : InputHandler :=
  mkHandler (ih_shift_left h) (ih_shift_right h) (ih_ctrl h) v (ih_caps_lock h) (ih_extended h).

Definition term_extended (h : InputHandler) (code : Z) (release : bool) : InputHandler * option TermKey :=
  if release then (h, None)
  else
    match code with
    | 0x48 => (h, Some TkArrowUp)
    | 0x50 => (h, Some TkArrowDown)
    | 0x4B => (h, Some TkArrowLeft)
    | 0x4D => (h, Some TkArrowRight)
    | 0x47 => (h, Some TkHome)
    | 0x4F => (h, Some TkEnd)
    | 0x49 => (h, Some TkPageUp)
    | 0x51 => (h, Some TkPageDown)
    | 0x52 => (h, Some TkInsert)
    | 0x53 => (h, Some TkDelete)
    | 0x1D => (set_ctrl h true, None)
    | 0x38 => (set_alt h true, None)
    | _ => (h, None)
    end.

(** The keys that are neither modifiers nor characters. *)
Definition term_special (code : Z) : option TermKey :=
  match code with
  | 0x01 => Some TkEscape
  | 0x0E => Some TkBackspace
  | 0x0F => Some TkTab
  | 0x1C => Some TkEnter
  | 0x3B => Some (TkFunction 1)
  | 0x3C => Some (TkFunction 2)
  | 0x3D => Some (TkFunction 3)
  | 0x3E => Some (TkFunction 4)
  | 0x3F => Some (TkFunction 5)
  | 0x40 => Some (TkFunction 6)
  | 0x41 => Some (TkFunction 7)
  | 0x42 => Some (TkFunction 8)
  | 0x43 => Some (TkFunction 9)
  | 0x44 => Some (TkFunction 10)
  | 0x57 => Some (TkFunction 11)
  | 0x58 => Some (TkFunction 12)
  | _ => None
  end.

(** The end of [process_scancode]: a key press that is not a modifier. *)
Definition term_press (h : InputHandler) (code : Z) : option TermKey :=
  match term_special code with
  | Some e => Some e
  | None =>
      ch ← term_translate code (ih_shift h) (ih_caps_lock h);
      Some
        (if ih_ctrl h then
           TkControl (if is_lower ch || is_upper ch then lowercase ch - 97 + 1 else ch)
         else if ih_alt h then TkAlt ch
         else TkChar ch)
  end.

Definition term_scancode (h : InputHandler) (scancode : Z) : InputHandler * option TermKey :=
  let with_extended (h : InputHandler) (v : bool) :=
    mkHandler (ih_shift_left h) (ih_shift_right h) (ih_ctrl h) (ih_alt h) (ih_caps_lock h) v in
  if scancode =? 0xE0 then (with_extended h true, None)
  else
    let extended := ih_extended h in
    let h := with_extended h false in
    let release := is_release scancode in
    let code := Z.land scancode 0x7F in
    if extended then term_extended h code release
    else
      match code with
      | 0x2A => (mkHandler (negb release) (ih_shift_right h) (ih_ctrl h) (ih_alt h) (ih_caps_lock h) false, None)
      | 0x36 => (mkHandler (ih_shift_left h) (negb release) (ih_ctrl h) (ih_alt h) (ih_caps_lock h) false, None)
      | 0x1D => (set_ctrl h (negb release), None)
      | 0x38 => (set_alt h (negb release), None)
      | 0x3A =>
          (if release then h
           else mkHandler (ih_shift_left h) (ih_shift_right h) (ih_ctrl h) (ih_alt h) (negb (ih_caps_lock h)) false, None)
      | _ => (h, if release then None else term_press h code)
      end.

(** ** The table of the library *)

Definition SCANCODE_MAP : list Z :=
  [0; 27; chr "1"; chr "2"; chr "3"; chr "4"; chr "5"; chr "6"; chr "7"; chr "8"; chr "9"; chr "0"; chr "-"; chr "="; 8; 9;
   chr "q"; chr "w"; chr "e"; chr "r"; chr "t"; chr "y"; chr "u"; chr "i"; chr "o"; chr "p"; chr "["; chr "]"; 10; 0; chr "a"; chr "s";
   chr "d"; chr "f"; chr "g"; chr "h"; chr "j"; chr "k"; chr "l"; chr ";"; 39; chr "`"; 0; 92; chr "z"; chr "x"; chr "c"; chr "v";
   chr "b"; chr "n"; chr "m"; chr ","; chr "."; chr "/"; 0; chr "*"; 0; chr " "; 0; 0; 0; 0; 0; 0;
   0; 0; 0; 0; 0; 0; 0; chr "7"; chr "8"; chr "9"; chr "-"; chr "4"; chr "5"; chr "6"; chr "+"; chr "1";
   chr "2"; chr "3"; chr "0"; chr "."; 0; 0; 0; 0; 0; 0; 0; 0; 0; 0; 0; 0;
   0; 0; 0; 0; 0; 0; 0; 0; 0; 0; 0; 0; 0; 0; 0; 0;
   0; 0; 0; 0; 0; 0; 0; 0; 0; 0; 0; 0; 0; 0; 0; 0].

Definition SCANCODE_MAP_SHIFTED : list Z :=
  [0; 27; chr "!"; chr "@"; chr "#"; chr "$"; chr "%"; chr "^"; chr "&"; chr "*"; chr "("; chr ")"; chr "_"; chr "+"; 8; 9;
   chr "Q"; chr "W"; chr "E"; chr "R"; chr "T"; chr "Y"; chr "U"; chr "I"; chr "O"; chr "P"; chr "{"; chr "}"; 10; 0; chr "A"; chr "S";
   chr "D"; chr "F"; chr "G"; chr "H"; chr "J"; chr "K"; chr "L"; chr ":"; 34; chr "~"; 0; chr "|"; chr "Z"; chr "X"; chr "C"; chr "V";
   chr "B"; chr "N"; chr "M"; chr "<"; chr ">"; chr "?"; 0; chr "*"; 0; chr " "; 0; 0; 0; 0; 0; 0;
   0; 0; 0; 0; 0; 0; 0; chr "7"; chr "8"; chr "9"; chr "-"; chr "4"; chr "5"; chr "6"; chr "+"; chr "1";
   chr "2"; chr "3"; chr "0"; chr "."; 0; 0; 0; 0; 0; 0; 0; 0; 0; 0; 0; 0;
   0; 0; 0; 0; 0; 0; 0; 0; 0; 0; 0; 0; 0; 0; 0; 0;
   0; 0; 0; 0; 0; 0; 0; 0; 0; 0; 0; 0; 0; 0; 0; 0].

(** Indexing past the tables panics; [None] of the outer option. *)
Definition scancode_to_ascii (scancode : Z) (shift : bool) : option (option Z) :=
  if 128 <=? scancode then Some None
  else
    ch ← (if shift then SCANCODE_MAP_SHIFTED else SCANCODE_MAP) !! Z.to_nat scancode;
    Some (if ch =? 0 then None else Some ch).
