(* ===== verification/MouseDriver.v ===== *)
(** * The mouse driver ([drivers/mouse/src/main.rs])

    It drives the PS/2 controller from user space, through the port system
    calls of [UserLib]; [None] is a system call that does not return. *)

From S2P Require Import Prelude Thread Input Vm Kernel Syscall UserLib.

(** ** Packets *)

Record MouseState := mkMouse {
  ms_delta_x : Z;
  ms_delta_y : Z;
  ms_left_button : bool;
  ms_right_button : bool;
  ms_middle_button : bool;
}.

Record MouseDriver := mkMouseDriver {
  md_packet : list Z;
  md_cycle : Z;
  md_state : MouseState;
  md_initialized : bool;
}.

Definition MouseDriver_new : MouseDriver := mkMouseDriver [0; 0; 0] 0 (mkMouse 0 0 false false false) false.

(** [wrapping_sub(256)] on an [i16]. *)
Definition extend (negative : bool) (b : Z) : Z := if negative then to_signed 16 (b - 256) else b.

Definition finalize_packet (d : MouseDriver) : MouseDriver * option MouseState :=
  let flags := md_packet d !!! 0%nat in
  if Z.land flags 0x08 =? 0 then (d, None)
  else if negb (Z.land flags 0xC0 =? 0) then (d, None)
  else
    let dx := extend (negb (Z.land flags 0x10 =? 0)) (md_packet d !!! 1%nat) in
    let dy := extend (negb (Z.land flags 0x20 =? 0)) (md_packet d !!! 2%nat) in
    let s := mkMouse dx dy (negb (Z.land flags 0x01 =? 0)) (negb (Z.land flags 0x02 =? 0)) (negb (Z.land flags 0x04 =? 0)) in
    (mkMouseDriver (md_packet d) (md_cycle d) s (md_initialized d), Some s).

Definition set_packet (d : MouseDriver) (i : nat) (byte cycle : Z) : MouseDriver :=
  mkMouseDriver (<[i := byte]> (md_packet d)) cycle (md_state d) (md_initialized d).

Definition process_byte (d : MouseDriver) (byte : Z) : MouseDriver * option MouseState :=
  if md_cycle d =? 0 then
    if Z.land byte 0x08 =? 0 then (d, None) else (set_packet d 0 byte 1, None)
  else if md_cycle d =? 1 then (set_packet d 1 byte 2, None)
  else if md_cycle d =? 2 then finalize_packet (set_packet d 2 byte 0)
  else (mkMouseDriver (md_packet d) 0 (md_state d) (md_initialized d), None).

(** [get_mouse_state]: the deltas are reset by reading them. *)
Definition get_mouse_state (d : MouseDriver) : MouseDriver * MouseState :=
  let s := md_state d in
  (mkMouseDriver (md_packet d) (md_cycle d)
     (mkMouse 0 0 (ms_left_button s) (ms_right_button s) (ms_middle_button s)) (md_initialized d), s).

(** ** The controller *)

Section driver.
Context {D : Type} {ps2 : Ps2 D} {mmu : Mmu}.
Context (switch_context : CpuContext → CpuContext → CpuContext) (resume : Kernel D → Kernel D).
Context (fuel : nat) (left : list Z).
Implicit Types (k : Kernel D).

Definition port_read k (port : Z) : option (Kernel D * Z) :=
  '(k, r) ← port_read_u8 switch_context resume fuel left k port;
  Some (k, match r with Ok v => v | Err _ => 0 end).

Definition port_write k (port value : Z) : option (Kernel D) :=
  '(k, _) ← port_write_u8 switch_context resume fuel left k port value; Some k.

Definition read_data k : option (Kernel D * Z) := port_read k DATA_PORT.
Definition read_status k : option (Kernel D * Z) := port_read k STATUS_PORT.

Definition aux_data_available k : option (Kernel D * bool) :=
  '(k, status) ← read_status k;
  let mask := Z.lor STATUS_OUTPUT_FULL STATUS_AUX_DATA in
  Some (k, Z.land status mask =? mask).

(** [wait_for_input_empty] and [wait_for_output], over [for _ in 0..50000]. *)
Fixpoint wait_for (n : nat) (ready : Z → bool) k : option (Kernel D * bool) :=
  match n with
  | O => Some (k, false)
  | S n => '(k, status) ← read_status k; if ready status then Some (k, true) else wait_for n ready k
  end.

Definition TRIES : nat := Z.to_nat 50000.

Definition wait_for_input_empty k : option (Kernel D * bool) :=
  wait_for TRIES (λ s, Z.land s STATUS_INPUT_FULL =? 0) k.
Definition wait_for_output k : option (Kernel D * bool) :=
  wait_for TRIES (λ s, negb (Z.land s STATUS_OUTPUT_FULL =? 0)) k.

Definition send_controller_command k (cmd : Z) : option (Kernel D) :=
  '(k, _) ← wait_for_input_empty k; port_write k COMMAND_PORT cmd.
Definition write_data k (data : Z) : option (Kernel D) :=
  '(k, _) ← wait_for_input_empty k; port_write k DATA_PORT data.

Fixpoint drain_buffer (n : nat) k : option (Kernel D) :=
  match n with
  | O => Some k
  | S n => '(k, available) ← aux_data_available k; if available : bool then '(k, _) ← read_data k; drain_buffer n k else Some k
  end.

Definition CMD_ENABLE_AUX : Z := 0xA8.
Definition CMD_READ_CONFIG : Z := 0x20.
Definition CMD_WRITE_CONFIG : Z := 0x60.
Definition CMD_AUX_PREFIX : Z := 0xD4.
Definition MOUSE_ACK : Z := 0xFA.

(** [mouse_command] and [mouse_write_data] have the same body. *)
Definition mouse_command k (cmd : Z) : option (Kernel D * bool) :=
  k ← send_controller_command k CMD_AUX_PREFIX;
  k ← write_data k cmd;
  '(k, ready) ← wait_for_output k;
  if negb ready then Some (k, false)
  else '(k, response) ← read_data k; Some (k, response =? MOUSE_ACK).

(** [if !self.mouse_command(..) { return false; }], for each byte in turn. *)
Fixpoint mouse_commands k (bytes : list Z) : option (Kernel D * bool) :=
  match bytes with
  | [] => Some (k, true)
  | b :: bytes => '(k, ok) ← mouse_command k b; if ok : bool then mouse_commands k bytes else Some (k, false)
  end.

(** [MOUSE_SET_DEFAULTS], [MOUSE_SET_SCALING_1_1], [MOUSE_SET_RESOLUTION] and
    its value, [MOUSE_SET_SAMPLE_RATE] and its value, [MOUSE_ENABLE_STREAMING]. *)
Definition SETUP : list Z := [0xF6; 0xE6; 0xE8; 0x02; 0xF3; 100; 0xF4].

Definition driver_init k (d : MouseDriver) : option (Kernel D * MouseDriver * bool) :=
  k ← drain_buffer 100 k;
  k ← send_controller_command k CMD_ENABLE_AUX;
  k ← send_controller_command k CMD_READ_CONFIG;
  '(k, ready) ← wait_for_output k;
  if negb ready then Some (k, d, false)
  else
    '(k, config) ← read_data k;
    let new_config := Z.land (Z.lor config 0x03) (not_w 8 0x20) in
    k ← send_controller_command k CMD_WRITE_CONFIG;
    k ← write_data k new_config;
    '(k, ok) ← mouse_commands k SETUP;
    if ok : bool then Some (k, mkMouseDriver (md_packet d) (md_cycle d) (md_state d) true, true)
    else Some (k, d, false).

Definition poll_mouse k (d : MouseDriver) : option (Kernel D * MouseDriver * option MouseState) :=
  if negb (md_initialized d) then Some (k, d, None)
  else
    '(k, available) ← aux_data_available k;
    if available : bool then
      '(k, byte) ← read_data k;
      let '(d, s) := process_byte d byte in Some (k, d, s)
    else Some (k, d, None).
End driver.
