(* ===== verification/UserSafety.v ===== *)
(** * User space input: properties

    The keyboard layouts agree, the terminal tracks the modifiers that are
    held, the mouse decoders read the same packets, the polling loops consume
    the kernel's queue, and the initialisation of the mouse issues its command
    sequence. *)

From S2P Require Import Prelude Thread Sched Ipc Input InputSafety Vm Kernel Syscall SyscallSafety LibIpc UserLib Keys MouseDriver.

(** ** Layouts *)

(** A predicate on all seven bit codes, checked by evaluation. *)
Lemma codes_forall (P : Z → bool) : forallb P (seqZ 0 128) = true → ∀ c, 0 ≤ c < 128 → P c = true.
Proof. intros H c Hc. rewrite forallb_forall in H. apply H. apply list_elem_of_In, elem_of_seqZ. lia. Qed.

(** The keys of the numeric pad, which only the library maps. *)
Definition is_keypad (code : Z) : bool := (code =? 0x37) || ((0x47 <=? code) && (code <=? 0x53)).

Definition layouts_agree_on (code : Z) (shift caps : bool) : bool :=
  let c := driver_translate code shift caps in
  bool_decide (term_translate code shift caps = if (32 <=? c) && (c <? 127) then Some c else None) &&
  (is_keypad code ||
   bool_decide (scancode_to_ascii code (if is_lower (driver_translate code false false) then xorb shift caps else shift)
                = Some (if c =? 0 then None else Some c))).

(** One layout.  For every seven bit scancode, with or without shift and caps
    lock, the terminal translates a key to the printable character the
    keyboard driver translates it to, and to none where the driver has a
    control code or nothing; away from the numeric pad the library's table has
    the driver's character, caps lock acting on letters as shift does. *)
Theorem layouts_agree code shift caps : 0 ≤ code < 128 →
  let c := driver_translate code shift caps in
  term_translate code shift caps = (if (32 <=? c) && (c <? 127) then Some c else None) ∧
  (is_keypad code = false →
   scancode_to_ascii code (if is_lower (driver_translate code false false) then xorb shift caps else shift)
   = Some (if c =? 0 then None else Some c)).
Proof.
  intros Hc. cbn zeta.
  assert (H : layouts_agree_on code shift caps = true).
  { apply (codes_forall (λ code, layouts_agree_on code shift caps)); [|done]. destruct shift, caps; vm_compute; reflexivity. }
  unfold layouts_agree_on in H. apply andb_prop in H as [H1 H2]. split; [by apply bool_decide_eq_true in H1|].
  intros Hk. rewrite Hk in H2. by apply bool_decide_eq_true in H2.
Qed.

Lemma layouts_agree_witness :
  0 ≤ 0x1E < 128 ∧ is_keypad 0x1E = false ∧
  term_translate 0x1E true false = (if (32 <=? driver_translate 0x1E true false) && (driver_translate 0x1E true false <? 127)
    then Some (driver_translate 0x1E true false) else None).
Proof. split; [lia|]. split; [reflexivity|]. apply (layouts_agree 0x1E true false). lia. Defined.

(** ** Modifiers *)

Definition run_term (scancodes : list Z) : InputHandler := foldl (λ h s, (term_scancode h s).1) InputHandler_new scancodes.

(** Whether the last scancode of a key was a press. *)
Definition held (code : Z) (scancodes : list Z) : bool :=
  match last (filter (λ s, Z.land s 0x7F = code) scancodes) with Some s => negb (is_release s) | None => false end.

(** How often a key was pressed. *)
Definition presses (code : Z) (scancodes : list Z) : nat :=
  length (filter (λ s, Z.land s 0x7F = code ∧ is_release s = false) scancodes).

Lemma held_app code l s : held code (l ++ [s]) = if decide (Z.land s 0x7F = code) then negb (is_release s) else held code l.
Proof.
  unfold held. rewrite filter_app, filter_cons. destruct (decide _); cbn [filter list_filter].
  - by rewrite last_snoc.
  - by rewrite app_nil_r.
Qed.

Lemma presses_app code l s :
  presses code (l ++ [s]) = (presses code l + if decide (Z.land s 0x7F = code ∧ is_release s = false) then 1 else 0)%nat.
Proof. unfold presses. rewrite filter_app, length_app, filter_cons. by destruct (decide _). Qed.

(** A seven bit code is one of the five modifiers or none of them. *)
Lemma term_scancode_plain h s : s ≠ 0xE0 → ih_extended h = false →
  let code := Z.land s 0x7F in
  let h' := (term_scancode h s).1 in
  ih_shift_left h' = (if decide (code = 0x2A) then negb (is_release s) else ih_shift_left h) ∧
  ih_shift_right h' = (if decide (code = 0x36) then negb (is_release s) else ih_shift_right h) ∧
  ih_ctrl h' = (if decide (code = 0x1D) then negb (is_release s) else ih_ctrl h) ∧
  ih_alt h' = (if decide (code = 0x38) then negb (is_release s) else ih_alt h) ∧
  ih_caps_lock h' = (if decide (code = 0x3A ∧ is_release s = false) then negb (ih_caps_lock h) else ih_caps_lock h) ∧
  ih_extended h' = false.
Proof.
  intros Hs He. cbn zeta. unfold term_scancode. destruct (Z.eqb_spec s 0xE0); [done|]. rewrite He.
  destruct (is_release s);
    (destruct (decide (Z.land s 0x7F = 0x2A)) as [->|]; [done|]);
    (destruct (decide (Z.land s 0x7F = 0x36)) as [->|]; [done|]);
    (destruct (decide (Z.land s 0x7F = 0x1D)) as [->|]; [done|]);
    (destruct (decide (Z.land s 0x7F = 0x38)) as [->|]; [done|]);
    (destruct (decide (Z.land s 0x7F = 0x3A)) as [->|]; [done|]);
    rewrite decide_False by naive_solver; repeat case_match; try done.
Qed.

(** The terminal knows the modifiers that are held.  After any sequence of
    scancodes without the extended prefix, each of the left and right shift,
    control and alt flags says whether the last scancode of that key was a press,
    and caps lock is on after an odd number of presses. *)
Theorem modifiers_tracked scancodes : Forall (λ s, s ≠ 0xE0) scancodes →
  let h := run_term scancodes in
  ih_shift_left h = held 0x2A scancodes ∧ ih_shift_right h = held 0x36 scancodes ∧
  ih_ctrl h = held 0x1D scancodes ∧ ih_alt h = held 0x38 scancodes ∧
  ih_caps_lock h = Nat.odd (presses 0x3A scancodes).
Proof.
  intros H. cbn zeta.
  assert (HI : ih_extended (run_term scancodes) = false ∧
    ih_shift_left (run_term scancodes) = held 0x2A scancodes ∧ ih_shift_right (run_term scancodes) = held 0x36 scancodes ∧
    ih_ctrl (run_term scancodes) = held 0x1D scancodes ∧ ih_alt (run_term scancodes) = held 0x38 scancodes ∧
    ih_caps_lock (run_term scancodes) = Nat.odd (presses 0x3A scancodes)); [|naive_solver].
  induction scancodes as [|s l IH] using rev_ind; [done|].
  apply Forall_app in H as [Hl Hs]. apply Forall_cons in Hs as [Hs _]. destruct (IH Hl) as (I0 & I1 & I2 & I3 & I4 & I5).
  unfold run_term in *. rewrite foldl_snoc, !held_app, presses_app.
  destruct (term_scancode_plain _ s Hs I0) as (H1 & H2 & H3 & H4 & H5 & H6). cbn zeta in *.
  rewrite H1, H2, H3, H4, H5, H6, I1, I2, I3, I4, I5. repeat split.
  destruct (decide (_ ∧ _)); [by rewrite Nat.add_1_r, Nat.odd_succ, Nat.negb_odd|by rewrite Nat.add_0_r].
Qed.

(** Shift held, a letter, shift released. *)
Lemma modifiers_tracked_witness :
  Forall (λ s, s ≠ 0xE0) [0x2A; 0x1E; 0xAA; 0x3A] ∧
  let h := run_term [0x2A; 0x1E; 0xAA; 0x3A] in
  ih_shift_left h = held 0x2A [0x2A; 0x1E; 0xAA; 0x3A] ∧ ih_shift_right h = held 0x36 [0x2A; 0x1E; 0xAA; 0x3A] ∧
  ih_ctrl h = held 0x1D [0x2A; 0x1E; 0xAA; 0x3A] ∧ ih_alt h = held 0x38 [0x2A; 0x1E; 0xAA; 0x3A] ∧
  ih_caps_lock h = Nat.odd (presses 0x3A [0x2A; 0x1E; 0xAA; 0x3A]).
Proof.
  assert (H : Forall (λ s, s ≠ 0xE0) [0x2A; 0x1E; 0xAA; 0x3A]) by (repeat constructor; discriminate).
  exact (conj H (modifiers_tracked _ H)).
Defined.

(** The right control key sets the flag and its release does not clear it:
    letters typed afterwards arrive as control characters. *)
Lemma right_ctrl_sticks :
  let h := run_term [0xE0; 0x1D; 0xE0; 0x9D] in
  ih_ctrl h = true ∧ (term_scancode h 0x1E).2 = Some (TkControl 1).
Proof. split; reflexivity. Qed.

(** ** Mouse packets *)

(** Feed bytes to a decoder and collect its events. *)
Fixpoint decode_all {S E} (decode : S → Z → S * option E) (s : S) (bytes : list Z) : S * list E :=
  match bytes with
  | [] => (s, [])
  | b :: bytes =>
      let '(s, e) := decode s b in let '(s, es) := decode_all decode s bytes in
      (s, match e with Some e => e :: es | None => es end)
  end.

Lemma decode_all_app {S E} (decode : S → Z → S * option E) s l1 l2 :
  decode_all decode s (l1 ++ l2) =
  let '(s, es1) := decode_all decode s l1 in let '(s, es2) := decode_all decode s l2 in (s, es1 ++ es2).
Proof.
  revert s. induction l1 as [|b l1 IH]; intros s; cbn; [by destruct (decode_all decode s l2)|].
  destruct (decode s b) as [s1 e]. rewrite IH. destruct (decode_all decode s1 l1) as [s2 es1].
  destruct (decode_all decode s2 l2). by destruct e.
Qed.

(** What a packet says: nothing when a counter overflowed, and otherwise the
    movement, nine bits in two's complement, and the buttons. *)
Definition nine_bits (sign : bool) (low : Z) : Z := if sign then low - 256 else low.

Definition packet_spec (p : Z * Z * Z) : option LibMouseEvent :=
  let '(flags, x, y) := p in
  if Z.testbit flags 6 || Z.testbit flags 7 then None
  else Some (mkLibMouseEvent (nine_bits (Z.testbit flags 4) x) (nine_bits (Z.testbit flags 5) y)
               (Z.testbit flags 0) (Z.testbit flags 1) (Z.testbit flags 2)).

Definition packet_bytes (p : Z * Z * Z) : list Z := let '(flags, x, y) := p in [flags; x; y].
Definition packet_ok (p : Z * Z * Z) : Prop :=
  let '(flags, x, y) := p in is_byte flags ∧ is_byte x ∧ is_byte y ∧ Z.testbit flags 3 = true.

Lemma mask_bit f k : 0 ≤ k → negb (Z.land f (2 ^ k) =? 0) = Z.testbit f k.
Proof. intros. rewrite <- Z.shiftl_1_l, land_bit by done. apply negb_involutive. Qed.

Lemma mask_overflow f : negb (Z.land f 0xC0 =? 0) = Z.testbit f 6 || Z.testbit f 7.
Proof.
  destruct (Z.eqb_spec (Z.land f 0xC0) 0) as [E|E]; cbn [negb].
  - pose proof (f_equal (λ x, Z.testbit x 6) E) as E6. pose proof (f_equal (λ x, Z.testbit x 7) E) as E7. cbv beta in E6, E7.
    rewrite Z.land_spec, Z.bits_0 in E6, E7. change (Z.testbit 0xC0 6) with true in E6. change (Z.testbit 0xC0 7) with true in E7. rewrite andb_true_r in E6, E7. by rewrite E6, E7.
  - symmetry. apply not_false_iff_true. intros Hf. apply orb_false_elim in Hf as [H6 H7]. apply E.
    change 0xC0 with (Z.lor (2 ^ 6) (2 ^ 7)). bitwise i. rewrite !Z.pow2_bits_eqb by lia.
    destruct (Z.eqb_spec 6 i) as [<-|]; [by rewrite H6|]. destruct (Z.eqb_spec 7 i) as [<-|]; [by rewrite H7|]. by rewrite andb_false_r.
Qed.

(** Reduce a decoder on the three bytes of a packet. *)
Lemma lib_packet m p : lm_cycle m = 0 → length (lm_packet m) = 3%nat → packet_ok p →
  decode_all lib_mouse_byte m (packet_bytes p) =
  (mkLibMouse (packet_bytes p) 0, option_list (packet_spec p)).
Proof.
  destruct m as [[|a [|b [|c [|??]]]] cy], p as [[f x] y]; intros Hc Hl (Hf & Hx & Hy & H3); try discriminate Hl; clear Hl; cbn in Hc; subst cy.
  cbn [packet_bytes decode_all].
  unfold lib_mouse_byte at 1. cbn [lm_cycle Z.eqb lm_packet]. change 0x08 with (2 ^ 3). rewrite mask_bit, H3 by lia.
  cbn -[Z.land Z.testbit nine_bits]. rewrite mask_overflow. change 16 with (2 ^ 4). change 32 with (2 ^ 5).
  change (Z.land f 1) with (Z.land f (2 ^ 0)). change (Z.land f 2) with (Z.land f (2 ^ 1)). change (Z.land f 4) with (Z.land f (2 ^ 2)).
  rewrite !mask_bit by lia. destruct (Z.testbit f 6 || Z.testbit f 7); reflexivity.
Qed.

Definition as_event (s : MouseState) : LibMouseEvent :=
  mkLibMouseEvent (ms_delta_x s) (ms_delta_y s) (ms_left_button s) (ms_right_button s) (ms_middle_button s).

Lemma extend_small sign b : is_byte b → extend sign b = nine_bits sign b.
Proof.
  intros [Hb1 Hb2]. destruct sign; [|done]. unfold extend, nine_bits, to_signed, wrap.
  change (2 ^ 8) with 256 in Hb2. change (2 ^ (16 - 1)) with 32768. change (2 ^ 16) with 65536.
  destruct (Z.leb_spec 32768 ((b - 256) mod 65536)) as [H|H]; revert H; rewrite <- (Z.mod_unique (b - 256) 65536 (-1) (b + 65280)); lia.
Qed.

Lemma driver_packet d p : md_cycle d = 0 → length (md_packet d) = 3%nat → packet_ok p →
  let '(d', es) := decode_all process_byte d (packet_bytes p) in
  as_event <$> es = option_list (packet_spec p) ∧ md_cycle d' = 0 ∧ length (md_packet d') = 3%nat ∧
  md_initialized d' = md_initialized d.
Proof.
  destruct d as [[|a [|b [|c [|??]]]] cy st ini], p as [[f x] y]; intros Hc Hl (Hf & Hx & Hy & H3); try discriminate Hl; clear Hl; cbn in Hc; subst cy.
  cbn [packet_bytes decode_all].
  unfold process_byte at 1. cbn [md_cycle Z.eqb md_packet]. change 0x08 with (2 ^ 3).
  assert (E3 : Z.land f (2 ^ 3) =? 0 = false) by (apply negb_true_iff; by rewrite mask_bit).
  rewrite E3. cbn -[Z.land Z.testbit nine_bits]. unfold finalize_packet. cbn -[Z.land Z.testbit nine_bits]. change 8 with (2 ^ 3). rewrite E3.
  rewrite mask_overflow. change 16 with (2 ^ 4). change 32 with (2 ^ 5).
  change (Z.land f 1) with (Z.land f (2 ^ 0)). change (Z.land f 2) with (Z.land f (2 ^ 1)). change (Z.land f 4) with (Z.land f (2 ^ 2)).
  rewrite !mask_bit, !extend_small by (done || lia). destruct (Z.testbit f 6 || Z.testbit f 7); repeat split.
Qed.

Definition packets_bytes (ps : list (Z * Z * Z)) : list Z := ps ≫= packet_bytes.

Lemma lib_skip_junk m junk : lm_cycle m = 0 → Forall (λ b, Z.testbit b 3 = false) junk →
  decode_all lib_mouse_byte m junk = (m, []).
Proof.
  intros Hc. induction 1 as [|b junk Hb _ IH]; [done|]. cbn [decode_all]. unfold lib_mouse_byte at 1. rewrite Hc. cbn [Z.eqb].
  change 0x08 with (2 ^ 3). rewrite mask_bit, Hb by lia. by rewrite IH.
Qed.

Lemma driver_skip_junk d junk : md_cycle d = 0 → Forall (λ b, Z.testbit b 3 = false) junk →
  decode_all process_byte d junk = (d, []).
Proof.
  intros Hc. induction 1 as [|b junk Hb _ IH]; [done|]. cbn [decode_all]. unfold process_byte at 1. rewrite Hc. cbn [Z.eqb].
  change 0x08 with (2 ^ 3). assert (E : Z.land b (2 ^ 3) =? 0 = true) by (apply negb_false_iff; by rewrite mask_bit).
  by rewrite E, IH.
Qed.

Lemma lib_packets m ps : lm_cycle m = 0 → length (lm_packet m) = 3%nat → Forall packet_ok ps →
  (decode_all lib_mouse_byte m (packets_bytes ps)).2 = omap packet_spec ps.
Proof.
  intros Hc Hl H. revert m Hc Hl. induction H as [|p ps Hp _ IH]; intros m Hc Hl; [done|].
  unfold packets_bytes. cbn [mbind list_bind]. rewrite decode_all_app, lib_packet by done.
  specialize (IH (mkLibMouse (packet_bytes p) 0)). unfold packets_bytes in IH. destruct (decode_all _ _ (ps ≫= _)) as [m' es].
  cbn in *. rewrite IH by (done || by destruct p as [[??]?]). by destruct (packet_spec p).
Qed.

Lemma driver_packets d ps : md_cycle d = 0 → length (md_packet d) = 3%nat → Forall packet_ok ps →
  as_event <$> (decode_all process_byte d (packets_bytes ps)).2 = omap packet_spec ps.
Proof.
  intros Hc Hl H. revert d Hc Hl. induction H as [|p ps Hp _ IH]; intros d Hc Hl; [done|].
  unfold packets_bytes. cbn [mbind list_bind]. rewrite decode_all_app. pose proof (driver_packet d p Hc Hl Hp) as Hd.
  destruct (decode_all _ d (packet_bytes p)) as [d1 es1]. destruct Hd as (He & Hc1 & Hl1 & _).
  specialize (IH d1 Hc1 Hl1). unfold packets_bytes in IH. destruct (decode_all _ d1 (ps ≫= _)) as [d2 es2].
  cbn in *. rewrite fmap_app, He, IH. by destruct (packet_spec p).
Qed.

(** Mouse streams.  Fed any bytes that cannot start a packet and then any
    sequence of packets, the decoder of the library and that of the mouse
    driver, started afresh, both report for each packet in turn its movement,
    nine bits in two's complement per axis, and its buttons, and nothing for a
    packet whose counters overflowed. *)
Theorem mouse_stream_decoded junk ps : Forall (λ b, Z.testbit b 3 = false) junk → Forall packet_ok ps →
  (decode_all lib_mouse_byte LibMouse_new (junk ++ packets_bytes ps)).2 = omap packet_spec ps ∧
  as_event <$> (decode_all process_byte MouseDriver_new (junk ++ packets_bytes ps)).2 = omap packet_spec ps.
Proof.
  intros Hj Hp. rewrite !decode_all_app, lib_skip_junk, driver_skip_junk by done.
  rewrite <- (lib_packets LibMouse_new ps) at 1 by done. rewrite <- (driver_packets MouseDriver_new ps) by done.
  by destruct (decode_all lib_mouse_byte _ _), (decode_all process_byte _ _).
Qed.

(** A stray byte, a move to the left with the button held, an overflow. *)
Lemma mouse_stream_decoded_witness :
  let ps := [(0x19, 0xFD, 7); (0x48, 1, 1)] in
  Forall (λ b, Z.testbit b 3 = false) [0x07] ∧ Forall packet_ok ps ∧
  (decode_all lib_mouse_byte LibMouse_new ([0x07] ++ packets_bytes ps)).2 = omap packet_spec ps ∧
  as_event <$> (decode_all process_byte MouseDriver_new ([0x07] ++ packets_bytes ps)).2 = omap packet_spec ps.
Proof.
  cbn zeta. assert (H1 : Forall (λ b, Z.testbit b 3 = false) [0x07]) by (by repeat constructor).
  assert (H2 : Forall packet_ok [(0x19, 0xFD, 7); (0x48, 1, 1)]) by (repeat constructor; unfold is_byte, in_range; lia || reflexivity).
  exact (conj H1 (conj H2 (mouse_stream_decoded _ _ H1 H2))).
Defined.

(** ** Polling the kernel *)

(** The decoder on a queue: stop at the first event. *)
Fixpoint first_event {S E} (decode : S → Z → S * option E) (s : S) (queue : list Z) : S * list Z * option E :=
  match queue with
  | [] => (s, [], None)
  | b :: queue => let '(s, e) := decode s b in match e with Some e => (s, queue, Some e) | None => first_event decode s queue end
  end.

Lemma decode_first {S E} (decode : S → Z → S * option E) s codes :
  let '(s', q, e) := first_event decode s codes in
  match e with
  | Some e => (length q < length codes)%nat ∧ q `suffix_of` codes ∧
      decode_all decode s codes = ((decode_all decode s' q).1, e :: (decode_all decode s' q).2)
  | None => q = [] ∧ decode_all decode s codes = (s', [])
  end.
Proof.
  revert s. induction codes as [|b codes IH]; intros s; cbn [first_event decode_all]; [done|].
  destruct (decode s b) as [s1 [e|]].
  - destruct (decode_all decode s1 codes). split_and!; [cbn; lia|by apply suffix_cons_r|done].
  - specialize (IH s1). destruct (first_event decode s1 codes) as [[s' q] [e|]].
    + destruct IH as (H1 & H2 & H3). rewrite H3. split_and!; [cbn; lia|by apply suffix_cons_r|done].
    + destruct IH as [-> H]. by rewrite H.
Qed.

Section polling.
Context {D : Type} {ps2 : Ps2 D} {mmu : Mmu}.
Context (switch_context : CpuContext → CpuContext → CpuContext) (resume : Kernel D → Kernel D).
Context (fuel : nat).
Implicit Types (k : Kernel D) (left : list Z).

(** A polling call takes the oldest byte of a kernel buffer. *)
Definition takes (N : nat) (ring : Kernel D → RingBuffer) (poll : Kernel D → option (Kernel D * option Z)) : Prop :=
  ∀ k, ring_wf N (ring k) → Forall is_byte (ring_contents N (ring k)) →
    ∃ k', ring_wf N (ring k') ∧ poll k = Some (k', hd_error (ring_contents N (ring k))) ∧
      ring_contents N (ring k') = tl (ring_contents N (ring k)).

Lemma is_byte_wrap8 b : is_byte b → wrap8 b = b.
Proof. apply wrap_small. Qed.

Lemma byte_not_wouldblock b : is_byte b → b =? EWOULDBLOCK = false.
Proof. intros [? ?]. apply Z.eqb_neq. unfold EWOULDBLOCK, U64_MAX. change (2 ^ 8) with 256 in *. lia. Qed.

Lemma keyboard_poll_takes left : length left = 6%nat →
  takes KEYBOARD_BUFFER_SIZE k_keyboard (keyboard_poll switch_context resume fuel left).
Proof.
  intros Hl k Hwf Hb. destruct left as [|? [|? [|? [|? [|? [|? [|??]]]]]]]; try discriminate Hl.
  unfold keyboard_poll, syscall. cbn [argument_registers app drop length].
  change (rust_syscall_dispatcher switch_context resume fuel k SYS_KEYBOARD_POLL z z0 z1 z2 z3 z4) with (sys_keyboard_poll k).
  unfold sys_keyboard_poll, poll_keyboard_byte. destruct (ring_pop_spec _ (k_keyboard k) Hwf) as [Hwf' Hs].
  destruct (ring_contents _ (k_keyboard k)) as [|b q] eqn:E.
  - rewrite Hs. cbn. eexists. split; [|split; [done|]]; [done|]. cbn. by rewrite E.
  - destruct Hs as [Hs1 Hs2]. apply Forall_cons in Hb as [Hb _]. destruct (ring_pop _ _) as [r o]. cbn in *. subst o.
    cbn. rewrite byte_not_wouldblock, is_byte_wrap8 by done.
    eexists. split; [|split; [done|]]; done.
Qed.

Lemma mouse_poll_takes left : length left = 6%nat →
  takes MOUSE_BUFFER_SIZE k_mouse (mouse_poll_byte switch_context resume fuel left).
Proof.
  intros Hl k Hwf Hb. destruct left as [|? [|? [|? [|? [|? [|? [|??]]]]]]]; try discriminate Hl.
  unfold mouse_poll_byte, syscall. cbn [argument_registers app drop length].
  change (rust_syscall_dispatcher switch_context resume fuel k SYS_MOUSE_POLL z z0 z1 z2 z3 z4) with (sys_mouse_poll k).
  unfold sys_mouse_poll, poll_mouse_byte. destruct (ring_pop_spec _ (k_mouse k) Hwf) as [Hwf' Hs].
  destruct (ring_contents _ (k_mouse k)) as [|b q] eqn:E.
  - rewrite Hs. cbn. eexists. split; [|split; [done|]]; [done|]. cbn. by rewrite E.
  - destruct Hs as [Hs1 Hs2]. apply Forall_cons in Hb as [Hb _]. destruct (ring_pop _ _) as [r o]. cbn in *. subst o.
    cbn. rewrite byte_not_wouldblock, is_byte_wrap8 by done.
    eexists. split; [|split; [done|]]; done.
Qed.

Lemma poll_until_queue {S E} N ring poll (decode : S → Z → S * option E) n k s :
  takes N ring poll → ring_wf N (ring k) → Forall is_byte (ring_contents N (ring k)) →
  (length (ring_contents N (ring k)) < n)%nat →
  let '(s', q, e) := first_event decode s (ring_contents N (ring k)) in
  ∃ k', poll_until poll decode n k s = Some (k', s', e) ∧ ring_contents N (ring k') = q.
Proof.
  intros Ht. revert k s. induction n as [|n IH]; intros k s Hwf Hb Hn; [lia|].
  destruct (Ht k Hwf Hb) as (k1 & Hwf1 & Hp & Hq). cbn [poll_until]. rewrite Hp. cbn [mbind option_bind].
  destruct (ring_contents N (ring k)) as [|b q] eqn:Ek; cbn [first_event hd_error tl] in *; [by exists k1|].
  destruct (decode s b) as [s1 [e|]]; [by exists k1|]. apply Forall_cons in Hb as [_ Hb]. rewrite <- Hq in *.
  apply IH; [done..|]. cbn in Hn. lia.
Qed.
(** A property of the kernel that the polling call keeps, the loop keeps. *)
Lemma poll_until_keeps {S E} (I : Kernel D → Prop) poll (decode : S → Z → S * option E) n k s k' s' e :
  (∀ k k' b, I k → poll k = Some (k', b) → I k') → I k → poll_until poll decode n k s = Some (k', s', e) → I k'.
Proof.
  intros Hp. revert k s. induction n as [|n IH]; intros k s Hk; cbn [poll_until]; [done|].
  destruct (poll k) as [[k1 [b|]]|] eqn:E1; [|by intros [= <- <- <-]; eauto|done]. cbn [mbind option_bind].
  destruct (decode s b) as [s1 [e1|]]; [intros [= <- <- <-]; eauto|]. apply IH. eauto.
Qed.
End polling.

(** Polling ends and loses nothing.  When the kernel's keyboard buffer holds
    some bytes, the terminal's poll, which keeps making the system call until a
    key is decoded or the buffer is empty, returns within one call more than
    there are bytes; it has decoded exactly the bytes up to the first key, and
    the others are still in the kernel's buffer. *)
Theorem terminal_poll_correct {D} `{Ps2 D} `{Mmu} switch_context resume fuel left (k : Kernel D) h n :
  length left = 6%nat → ring_wf KEYBOARD_BUFFER_SIZE (k_keyboard k) →
  Forall is_byte (ring_contents KEYBOARD_BUFFER_SIZE (k_keyboard k)) → (KEYBOARD_BUFFER_SIZE ≤ n)%nat →
  let '(h', q, e) := first_event term_scancode h (ring_contents KEYBOARD_BUFFER_SIZE (k_keyboard k)) in
  ∃ k', poll_until (keyboard_poll switch_context resume fuel left) term_scancode n k h = Some (k', h', e) ∧
    ring_contents KEYBOARD_BUFFER_SIZE (k_keyboard k') = q.
Proof.
  intros Hl Hwf Hb Hn. apply poll_until_queue; [by apply keyboard_poll_takes|done..|].
  rewrite length_ring_contents. destruct (ring_len_spec _ _ Hwf). lia.
Qed.

#[local] Existing Instances no_ps2 flat_mmu.

(** Left shift, [a], [b] in the buffer: the first poll returns the capital. *)
Definition demo_typed : Kernel unit :=
  set_k_keyboard demo_port (ring_push 128 (ring_push 128 (ring_push 128 (RingBuffer_new 128) 0x2A).1 0x1E).1 0x30).1.

Lemma terminal_poll_correct_witness :
  ∃ k', poll_until (keyboard_poll no_switch id 0 [0; 0; 0; 0; 0; 0]) term_scancode 128 demo_typed InputHandler_new
    = Some (k', mkHandler true false false false false false, Some (TkChar 65)) ∧
    ring_contents KEYBOARD_BUFFER_SIZE (k_keyboard k') = [0x30].
Proof.
  assert (Hc : ring_contents KEYBOARD_BUFFER_SIZE (k_keyboard demo_typed) = [0x2A; 0x1E; 0x30]) by (vm_compute; reflexivity).
  pose proof (terminal_poll_correct no_switch id 0 [0; 0; 0; 0; 0; 0] demo_typed InputHandler_new 128) as H.
  rewrite Hc in H. apply H.
  - reflexivity.
  - split; [reflexivity|vm_compute; lia|vm_compute; lia].
  - repeat constructor; unfold is_byte, in_range; lia.
  - unfold KEYBOARD_BUFFER_SIZE. lia.
Defined.

(** ** Sending *)

(** What the library sends.  [send_async] hands the kernel a port, an address
    and a length where the kernel expects a port, a type, an address and a
    length, and so leaves the length in [r10] to chance: when the register
    holds more than 256 - as after any earlier system call, whose exit leaves
    the stack pointer there ([Entry.re_r10]) - the call fails and nothing is sent, and when it
    holds 0 an empty message goes out whose type is the address. *)
Theorem send_async_drops_data {D} `{Ps2 D} `{Mmu} switch_context resume fuel (k : Kernel D) tid rdi rsi rdx r10 r8 r9 port ptr len :
  current (k_sched k) = Some tid →
  (256 < r10 →
     lib_send_async switch_context resume fuel [rdi; rsi; rdx; r10; r8; r9] k port ptr len = Some (k, Err InvalidArgument)) ∧
  (r10 = 0 →
     ∃ res, lib_send_async switch_context resume fuel [rdi; rsi; rdx; r10; r8; r9] k port ptr len =
       Some (set_k_ipc k (send_message (rsize k) (k_ticks k) (k_ipc k) port
                            (Message_new (k_ticks k) tid (wrap32 ptr) [])).1, res)).
Proof.
  intros Hc. unfold lib_send_async, syscall. cbn [argument_registers app drop length].
  change (rust_syscall_dispatcher switch_context resume fuel k SYS_IPC_SEND_ASYNC port ptr len r10 r8 r9)
    with (sys_ipc_send_async k port ptr len r10).
  unfold sys_ipc_send_async. split.
  - intros Hr. unfold MAX_MESSAGE_SIZE. destruct (Z.ltb_spec 256 r10); [|lia]. reflexivity.
  - intros ->. cbn [Z.ltb Z.compare andb]. unfold with_caller. rewrite Hc. change (MAX_MESSAGE_SIZE <? 0) with false. cbn iota.
    destruct (send_message _ _ _ _ _) as [ipc [u|[]]]; eexists; reflexivity.
Qed.

(** A stack at [0x7000]; and a register that happens to be zero. *)
Lemma send_async_drops_data_witness :
  current (k_sched demo_port) = Some 2 ∧
  lib_send_async no_switch id 0 [0; 0; 0; 0x7000; 0; 0] demo_port 1 0x2000 5 = Some (demo_port, Err InvalidArgument) ∧
  ∃ k, lib_send_async no_switch id 0 [0; 0; 0; 0; 0; 0] demo_port 1 0x2000 5 = Some (k, Ok tt).
Proof.
  assert (Hc : current (k_sched demo_port) = Some 2) by (vm_compute; reflexivity). split; [exact Hc|]. split.
  - exact (proj1 (send_async_drops_data no_switch id 0 demo_port 2 0 0 0 0x7000 0 0 1 0x2000 5 Hc) eq_refl).
  - destruct (proj2 (send_async_drops_data no_switch id 0 demo_port 2 0 0 0 0 0 0 1 0x2000 5 Hc) eq_refl) as [res E].
    rewrite E. assert (Hr : res = Ok tt).
    { apply (f_equal (fmap snd)) in E. vm_compute in E. by injection E as <-. }
    rewrite Hr. eexists. reflexivity.
Defined.

(** ** Initialising the mouse *)

Section mouse_init.
Context {D : Type} {ports : Ps2 D} {mmu : Mmu}.
Context (switch_context : CpuContext → CpuContext → CpuContext) (resume : Kernel (logged D) → Kernel (logged D)).
Context (fuel : nat) (rdi rsi rdx r10 r8 r9 : Z).
Implicit Types (k : Kernel (logged D)).
Local Notation left := [rdi; rsi; rdx; r10; r8; r9].

(** [k'] is reached from [k] by writing [l] to the ports. *)
Definition wrote (l : list (Z * Z)) k k' : Prop := (k_dev k').2 = (k_dev k).2 ++ l.

Lemma wrote_trans l1 l2 k1 k2 k3 : wrote l1 k1 k2 → wrote l2 k2 k3 → wrote (l1 ++ l2) k1 k3.
Proof. unfold wrote. intros H1 H2. by rewrite H2, H1, <- app_assoc. Qed.

Lemma wrote_refl k : wrote [] k k.
Proof. unfold wrote. by rewrite app_nil_r. Qed.

Lemma port_read_wrote k port : port = DATA_PORT ∨ port = STATUS_PORT →
  ∃ k' v, port_read switch_context resume fuel left k port = Some (k', v) ∧ wrote [] k k'.
Proof.
  unfold port_read, port_read_u8, syscall, wrote. cbn [argument_registers app drop length].
  change (rust_syscall_dispatcher switch_context resume fuel k SYS_IO_PORT_READ port 1 rdx r10 r8 r9)
    with (sys_io_port_read k (wrap16 port) (wrap8 1)).
  intros [-> | ->]; unfold sys_io_port_read.
  - change (wrap16 DATA_PORT =? 96) with true. cbn iota. pose proof (in_data_log (k_dev k)) as E.
    destruct (in_data (k_dev k)) as [d v]. cbn [mbind option_bind].
    do 2 eexists. split; [reflexivity|]. cbn in *. by rewrite app_nil_r.
  - change (wrap16 STATUS_PORT =? 96) with false. change (wrap16 STATUS_PORT =? 100) with true. cbn iota.
    destruct (in_status (k_dev k)) as [d v] eqn:E. apply (f_equal (λ x, x.1.2)) in E. cbn in E.
    destruct (in_status (k_dev k).1) in E. cbn [mbind option_bind].
    do 2 eexists. split; [reflexivity|]. cbn in *. by rewrite app_nil_r.
Qed.

Lemma port_write_wrote k port v : port = DATA_PORT ∨ port = COMMAND_PORT → is_byte v →
  ∃ k', port_write switch_context resume fuel left k port v = Some k' ∧ wrote [(port, v)] k k'.
Proof.
  unfold port_write, port_write_u8, syscall, wrote. cbn [argument_registers app drop length].
  change (rust_syscall_dispatcher switch_context resume fuel k SYS_IO_PORT_WRITE port v rdx r10 r8 r9)
    with (sys_io_port_write k (wrap16 port) (wrap8 v)).
  intros Hp Hv. rewrite is_byte_wrap8 by done. destruct Hp as [-> | ->]; unfold sys_io_port_write.
  - change (wrap16 DATA_PORT =? 96) with true. cbn iota. cbn [mbind option_bind]. eexists. by split.
  - change (wrap16 COMMAND_PORT =? 96) with false. change (wrap16 COMMAND_PORT =? 100) with true. cbn iota.
    cbn [mbind option_bind]. eexists. by split.
Qed.

Lemma wait_for_wrote n ready k : ∃ k' b, wait_for switch_context resume fuel left n ready k = Some (k', b) ∧ wrote [] k k'.
Proof.
  revert k. induction n as [|n IH]; intros k; cbn [wait_for]; [do 2 eexists; split; [done|apply wrote_refl]|].
  unfold read_status at 1. destruct (port_read_wrote k STATUS_PORT) as (k1 & v & E & Hw); [by right|]. rewrite E.
  cbn [mbind option_bind]. destruct (ready v); [by exists k1, true|].
  destruct (IH k1) as (k2 & b & E2 & Hw2). exists k2, b. split; [done|]. apply (wrote_trans [] [] _ _ _ Hw Hw2).
Qed.

Lemma command_wrote k cmd : is_byte cmd →
  ∃ k', send_controller_command switch_context resume fuel left k cmd = Some k' ∧ wrote [(COMMAND_PORT, cmd)] k k'.
Proof.
  intros Hb. unfold send_controller_command, wait_for_input_empty. destruct (wait_for_wrote TRIES (λ s, Z.land s STATUS_INPUT_FULL =? 0) k) as (k1 & b & E & Hw).
  rewrite E. cbn [mbind option_bind]. destruct (port_write_wrote k1 COMMAND_PORT cmd) as (k2 & E2 & Hw2); [by right|done|].
  exists k2. split; [done|]. exact (wrote_trans [] _ _ _ _ Hw Hw2).
Qed.

Lemma data_wrote k v : is_byte v →
  ∃ k', write_data switch_context resume fuel left k v = Some k' ∧ wrote [(DATA_PORT, v)] k k'.
Proof.
  intros Hb. unfold write_data, wait_for_input_empty. destruct (wait_for_wrote TRIES (λ s, Z.land s STATUS_INPUT_FULL =? 0) k) as (k1 & b & E & Hw).
  rewrite E. cbn [mbind option_bind]. destruct (port_write_wrote k1 DATA_PORT v) as (k2 & E2 & Hw2); [by left|done|].
  exists k2. split; [done|]. exact (wrote_trans [] _ _ _ _ Hw Hw2).
Qed.

Lemma drain_wrote n k : ∃ k', drain_buffer switch_context resume fuel left n k = Some k' ∧ wrote [] k k'.
Proof.
  revert k. induction n as [|n IH]; intros k; cbn [drain_buffer]; [eexists; split; [done|apply wrote_refl]|].
  unfold aux_data_available, read_status at 1. destruct (port_read_wrote k STATUS_PORT) as (k1 & v & E & Hw); [by right|]. rewrite E.
  cbn [mbind option_bind]. destruct (_ =? _); [|by exists k1].
  unfold read_data at 1. destruct (port_read_wrote k1 DATA_PORT) as (k2 & v2 & E2 & Hw2); [by left|]. rewrite E2. cbn [mbind option_bind].
  destruct (IH k2) as (k3 & E3 & Hw3). exists k3. split; [done|]. exact (wrote_trans [] _ _ _ _ Hw (wrote_trans [] _ _ _ _ Hw2 Hw3)).
Qed.

(** The two port writes of a mouse command. *)
Definition mouse_writes (cmd : Z) : list (Z * Z) := [(COMMAND_PORT, CMD_AUX_PREFIX); (DATA_PORT, cmd)].

Lemma mouse_command_wrote k cmd : is_byte cmd →
  ∃ k' ok, mouse_command switch_context resume fuel left k cmd = Some (k', ok) ∧ wrote (mouse_writes cmd) k k'.
Proof.
  intros Hb. unfold mouse_command. destruct (command_wrote k CMD_AUX_PREFIX) as (k1 & E1 & H1); [by split|].
  rewrite E1. cbn [mbind option_bind]. destruct (data_wrote k1 cmd Hb) as (k2 & E2 & H2). rewrite E2. cbn [mbind option_bind].
  unfold wait_for_output. destruct (wait_for_wrote TRIES (λ s, negb (Z.land s STATUS_OUTPUT_FULL =? 0)) k2) as (k3 & b & E3 & H3). rewrite E3. cbn [mbind option_bind].
  pose proof (wrote_trans _ _ _ _ _ H1 (wrote_trans _ _ _ _ _ H2 H3)) as H. cbn in H.
  destruct b; cbn [negb]; [|by exists k3, false]. unfold read_data.
  destruct (port_read_wrote k3 DATA_PORT) as (k4 & v & E4 & H4); [by left|]. rewrite E4. cbn [mbind option_bind].
  exists k4, (v =? MOUSE_ACK). split; [done|]. exact (wrote_trans _ [] _ _ _ H H4).
Qed.

Lemma mouse_commands_wrote bytes k : Forall is_byte bytes →
  ∃ k' ok, mouse_commands switch_context resume fuel left k bytes = Some (k', ok) ∧
    (ok = true → wrote (bytes ≫= mouse_writes) k k').
Proof.
  intros Hb. revert k. induction Hb as [|b bytes Hb _ IH]; intros k; cbn [mouse_commands].
  { do 2 eexists. split; [done|]. intros _. apply wrote_refl. }
  destruct (mouse_command_wrote k b Hb) as (k1 & ok & E & Hw). rewrite E. cbn [mbind option_bind].
  destruct ok; [|by exists k1, false]. destruct (IH k1) as (k2 & ok2 & E2 & Hw2). exists k2, ok2. split; [done|].
  intros Hok. exact (wrote_trans _ _ _ _ _ Hw (Hw2 Hok)).
Qed.

Lemma lor_land_byte b m n : is_byte b → is_byte m → is_byte n → is_byte (Z.land (Z.lor b m) n).
Proof.
  intros Hb Hm Hn. assert (H : Z.land (Z.lor b m) n = wrap8 (Z.land (Z.lor b m) n)).
  { unfold wrap. rewrite <- Z.land_ones by lia. bitwise i. rewrite <- andb_assoc. f_equal.
    destruct (decide (i < 8)).
    - by rewrite Z.ones_spec_low, andb_true_r by lia.
    - rewrite (testbit_in_range 8 n i) by (done || lia). done. }
  rewrite H. by apply wrap_range.
Qed.

Lemma port_read_byte k port : ∀ k' v, port_read switch_context resume fuel left k port = Some (k', v) → is_byte v.
Proof.
  intros k' v. unfold port_read, port_read_u8. destruct (syscall _ _ _ _ _ _ _) as [[k1 r]|]; cbn [mbind option_bind]; [|done].
  intros [= _ <-]. destruct (r =? EPERM); [by split|]. destruct (r =? EINVAL); [by split|]. apply wrap_range. lia.
Qed.

(** The mouse driver's initialisation.  Against any controller it returns,
    and it reports success only after writing to the controller's ports
    exactly this: enable the mouse port, read and write back the configuration
    with both interrupts on and the mouse clock running, then, each through
    the prefix that addresses the mouse, set the defaults, scaling one to one,
    resolution 2, sample rate 100, and streaming. *)
Lemma driver_init_sends k d :
  ∃ k' d' ok, driver_init switch_context resume fuel left k d = Some (k', d', ok) ∧ md_initialized d' = md_initialized d || ok ∧
    (ok = true → ∃ config, Z.testbit config 0 = true ∧ Z.testbit config 1 = true ∧ Z.testbit config 5 = false ∧
       wrote ([(0x64, 0xA8); (0x64, 0x20); (0x64, 0x60); (0x60, config)] ++ (SETUP ≫= mouse_writes)) k k').
Proof.
  unfold driver_init. destruct (drain_wrote 100 k) as (k1 & -> & H1). cbn [mbind option_bind].
  destruct (command_wrote k1 CMD_ENABLE_AUX) as (k2 & -> & H2); [by split|]. cbn [mbind option_bind].
  destruct (command_wrote k2 CMD_READ_CONFIG) as (k3 & -> & H3); [by split|]. cbn [mbind option_bind].
  unfold wait_for_output at 1.
  destruct (wait_for_wrote TRIES (λ s, negb (Z.land s STATUS_OUTPUT_FULL =? 0)) k3) as (k4 & b & -> & H4). cbn [mbind option_bind].
  destruct b; cbn [negb]; [|exists k4, d, false; by rewrite orb_false_r]. unfold read_data at 1.
  destruct (port_read_wrote k4 DATA_PORT) as (k5 & config & E5 & H5); [by left|]. pose proof (port_read_byte _ _ _ _ E5) as Hb. rewrite E5. cbn [mbind option_bind].
  destruct (command_wrote k5 CMD_WRITE_CONFIG) as (k6 & -> & H6); [by split|]. cbn [mbind option_bind].
  set (config' := Z.land (Z.lor config 3) (not_w 8 32)).
  destruct (data_wrote k6 config') as (k7 & -> & H7); [apply lor_land_byte; [done|by split..]|]. cbn [mbind option_bind].
  destruct (mouse_commands_wrote SETUP k7) as (k8 & ok & -> & H8); [by repeat constructor|]. cbn [mbind option_bind].
  exists k8. destruct ok; do 2 eexists; (split; [reflexivity|]); (split; [by rewrite ?orb_true_r, ?orb_false_r|]); [|done].
  intros _. exists config'. unfold config'. rewrite !Z.land_spec, !Z.lor_spec.
  split; [by rewrite orb_true_r|]. split; [by rewrite orb_true_r|]. split; [apply andb_false_r|].
  unfold wrote in *. rewrite H8, H7, H6, H5, H4, H3, H2, H1 by done. by rewrite !app_nil_r, <- !app_assoc.
Qed.
End mouse_init.
