(* ===== verification/Canvas.v ===== *)
(** * Drawing from user space

    The framebuffer handle of the system call library
    ([libs/syscall/src/graphics.rs]), the surfaces of the GUI library
    ([libs/libgui/src/surface.rs], [color.rs], [font.rs]) and the display driver
    ([drivers/display/src/main.rs]).  A framebuffer and a surface have the
    geometry of the kernel's framebuffer and write to the same memory, so they
    are the record of [Graphics], always in the BGR format; arithmetic on [u32]
    wraps. *)

From S2P Require Import Prelude Graphics.

(** ** The framebuffer handle *)

(** [Color::to_bgr32] and [Color::to_rgb32]. *)
Definition to_bgr32 (c : Color) : Z := Z.lor (Z.lor (Z.shiftl (c_b c) 16) (Z.shiftl (c_g c) 8)) (c_r c).
Definition to_rgb32 (c : Color) : Z := Z.lor (Z.lor (Z.shiftl (c_r c) 16) (Z.shiftl (c_g c) 8)) (c_b c).

Definition u_draw_pixel (fb : Framebuffer) (px : Pixels) (x y : Z) (c : Color) : Pixels :=
  if (fb_width fb <=? x) || (fb_height fb <=? y) then px else store fb px x y (to_bgr32 c).

(** The loops of [fill_rect]: [for dx in 0..width] and [for dy in 0..height],
    each left at the edge of the screen. *)
Fixpoint u_fill_line (fb : Framebuffer) (px : Pixels) (x y v : Z) (n : nat) : Pixels :=
  match n with
  | O => px
  | S n => if fb_width fb <=? x then px else u_fill_line fb (store fb px x y v) (wrap32 (x + 1)) y v n
  end.

Fixpoint u_fill_lines (fb : Framebuffer) (px : Pixels) (x y width v : Z) (n : nat) : Pixels :=
  match n with
  | O => px
  | S n =>
      if fb_height fb <=? y then px
      else u_fill_lines fb (u_fill_line fb px x y v (Z.to_nat width)) x (wrap32 (y + 1)) width v n
  end.

Definition u_fill_rect (fb : Framebuffer) (px : Pixels) (x y width height : Z) (c : Color) : Pixels :=
  u_fill_lines fb px x y width (to_bgr32 c) (Z.to_nat height).

Definition u_clear (fb : Framebuffer) (px : Pixels) (c : Color) : Pixels :=
  u_fill_rect fb px 0 0 (fb_width fb) (fb_height fb) c.

Definition FONT_DATA : list (list Z) :=
  [[0x00; 0x00; 0x00; 0x00; 0x00; 0x00; 0x00; 0x00];
   [0x18; 0x3C; 0x3C; 0x18; 0x18; 0x00; 0x18; 0x00];
   [0x36; 0x36; 0x00; 0x00; 0x00; 0x00; 0x00; 0x00];
   [0x36; 0x36; 0x7F; 0x36; 0x7F; 0x36; 0x36; 0x00];
   [0x0C; 0x3E; 0x03; 0x1E; 0x30; 0x1F; 0x0C; 0x00];
   [0x00; 0x63; 0x33; 0x18; 0x0C; 0x66; 0x63; 0x00];
   [0x1C; 0x36; 0x1C; 0x6E; 0x3B; 0x33; 0x6E; 0x00];
   [0x06; 0x06; 0x03; 0x00; 0x00; 0x00; 0x00; 0x00];
   [0x18; 0x0C; 0x06; 0x06; 0x06; 0x0C; 0x18; 0x00];
   [0x06; 0x0C; 0x18; 0x18; 0x18; 0x0C; 0x06; 0x00];
   [0x00; 0x66; 0x3C; 0xFF; 0x3C; 0x66; 0x00; 0x00];
   [0x00; 0x0C; 0x0C; 0x3F; 0x0C; 0x0C; 0x00; 0x00];
   [0x00; 0x00; 0x00; 0x00; 0x00; 0x0C; 0x0C; 0x06];
   [0x00; 0x00; 0x00; 0x3F; 0x00; 0x00; 0x00; 0x00];
   [0x00; 0x00; 0x00; 0x00; 0x00; 0x0C; 0x0C; 0x00];
   [0x60; 0x30; 0x18; 0x0C; 0x06; 0x03; 0x01; 0x00];
   [0x3E; 0x63; 0x73; 0x7B; 0x6F; 0x67; 0x3E; 0x00];
   [0x0C; 0x0E; 0x0C; 0x0C; 0x0C; 0x0C; 0x3F; 0x00];
   [0x1E; 0x33; 0x30; 0x1C; 0x06; 0x33; 0x3F; 0x00];
   [0x1E; 0x33; 0x30; 0x1C; 0x30; 0x33; 0x1E; 0x00];
   [0x38; 0x3C; 0x36; 0x33; 0x7F; 0x30; 0x78; 0x00];
   [0x3F; 0x03; 0x1F; 0x30; 0x30; 0x33; 0x1E; 0x00];
   [0x1C; 0x06; 0x03; 0x1F; 0x33; 0x33; 0x1E; 0x00];
   [0x3F; 0x33; 0x30; 0x18; 0x0C; 0x0C; 0x0C; 0x00];
   [0x1E; 0x33; 0x33; 0x1E; 0x33; 0x33; 0x1E; 0x00];
   [0x1E; 0x33; 0x33; 0x3E; 0x30; 0x18; 0x0E; 0x00];
   [0x00; 0x0C; 0x0C; 0x00; 0x00; 0x0C; 0x0C; 0x00];
   [0x00; 0x0C; 0x0C; 0x00; 0x00; 0x0C; 0x0C; 0x06];
   [0x18; 0x0C; 0x06; 0x03; 0x06; 0x0C; 0x18; 0x00];
   [0x00; 0x00; 0x3F; 0x00; 0x00; 0x3F; 0x00; 0x00];
   [0x06; 0x0C; 0x18; 0x30; 0x18; 0x0C; 0x06; 0x00];
   [0x1E; 0x33; 0x30; 0x18; 0x0C; 0x00; 0x0C; 0x00];
   [0x3E; 0x63; 0x7B; 0x7B; 0x7B; 0x03; 0x1E; 0x00];
   [0x0C; 0x1E; 0x33; 0x33; 0x3F; 0x33; 0x33; 0x00];
   [0x3F; 0x66; 0x66; 0x3E; 0x66; 0x66; 0x3F; 0x00];
   [0x3C; 0x66; 0x03; 0x03; 0x03; 0x66; 0x3C; 0x00];
   [0x1F; 0x36; 0x66; 0x66; 0x66; 0x36; 0x1F; 0x00];
   [0x7F; 0x46; 0x16; 0x1E; 0x16; 0x46; 0x7F; 0x00];
   [0x7F; 0x46; 0x16; 0x1E; 0x16; 0x06; 0x0F; 0x00];
   [0x3C; 0x66; 0x03; 0x03; 0x73; 0x66; 0x7C; 0x00];
   [0x33; 0x33; 0x33; 0x3F; 0x33; 0x33; 0x33; 0x00];
   [0x1E; 0x0C; 0x0C; 0x0C; 0x0C; 0x0C; 0x1E; 0x00];
   [0x78; 0x30; 0x30; 0x30; 0x33; 0x33; 0x1E; 0x00];
   [0x67; 0x66; 0x36; 0x1E; 0x36; 0x66; 0x67; 0x00];
   [0x0F; 0x06; 0x06; 0x06; 0x46; 0x66; 0x7F; 0x00];
   [0x63; 0x77; 0x7F; 0x7F; 0x6B; 0x63; 0x63; 0x00];
   [0x63; 0x67; 0x6F; 0x7B; 0x73; 0x63; 0x63; 0x00];
   [0x1C; 0x36; 0x63; 0x63; 0x63; 0x36; 0x1C; 0x00];
   [0x3F; 0x66; 0x66; 0x3E; 0x06; 0x06; 0x0F; 0x00];
   [0x1E; 0x33; 0x33; 0x33; 0x3B; 0x1E; 0x38; 0x00];
   [0x3F; 0x66; 0x66; 0x3E; 0x36; 0x66; 0x67; 0x00];
   [0x1E; 0x33; 0x07; 0x0E; 0x38; 0x33; 0x1E; 0x00];
   [0x3F; 0x2D; 0x0C; 0x0C; 0x0C; 0x0C; 0x1E; 0x00];
   [0x33; 0x33; 0x33; 0x33; 0x33; 0x33; 0x3F; 0x00];
   [0x33; 0x33; 0x33; 0x33; 0x33; 0x1E; 0x0C; 0x00];
   [0x63; 0x63; 0x63; 0x6B; 0x7F; 0x77; 0x63; 0x00];
   [0x63; 0x63; 0x36; 0x1C; 0x1C; 0x36; 0x63; 0x00];
   [0x33; 0x33; 0x33; 0x1E; 0x0C; 0x0C; 0x1E; 0x00];
   [0x7F; 0x63; 0x31; 0x18; 0x4C; 0x66; 0x7F; 0x00];
   [0x1E; 0x06; 0x06; 0x06; 0x06; 0x06; 0x1E; 0x00];
   [0x03; 0x06; 0x0C; 0x18; 0x30; 0x60; 0x40; 0x00];
   [0x1E; 0x18; 0x18; 0x18; 0x18; 0x18; 0x1E; 0x00];
   [0x08; 0x1C; 0x36; 0x63; 0x00; 0x00; 0x00; 0x00];
   [0x00; 0x00; 0x00; 0x00; 0x00; 0x00; 0x00; 0xFF];
   [0x0C; 0x0C; 0x18; 0x00; 0x00; 0x00; 0x00; 0x00];
   [0x00; 0x00; 0x1E; 0x30; 0x3E; 0x33; 0x6E; 0x00];
   [0x07; 0x06; 0x06; 0x3E; 0x66; 0x66; 0x3B; 0x00];
   [0x00; 0x00; 0x1E; 0x33; 0x03; 0x33; 0x1E; 0x00];
   [0x38; 0x30; 0x30; 0x3e; 0x33; 0x33; 0x6E; 0x00];
   [0x00; 0x00; 0x1E; 0x33; 0x3f; 0x03; 0x1E; 0x00];
   [0x1C; 0x36; 0x06; 0x0f; 0x06; 0x06; 0x0F; 0x00];
   [0x00; 0x00; 0x6E; 0x33; 0x33; 0x3E; 0x30; 0x1F];
   [0x07; 0x06; 0x36; 0x6E; 0x66; 0x66; 0x67; 0x00];
   [0x0C; 0x00; 0x0E; 0x0C; 0x0C; 0x0C; 0x1E; 0x00];
   [0x30; 0x00; 0x30; 0x30; 0x30; 0x33; 0x33; 0x1E];
   [0x07; 0x06; 0x66; 0x36; 0x1E; 0x36; 0x67; 0x00];
   [0x0E; 0x0C; 0x0C; 0x0C; 0x0C; 0x0C; 0x1E; 0x00];
   [0x00; 0x00; 0x33; 0x7F; 0x7F; 0x6B; 0x63; 0x00];
   [0x00; 0x00; 0x1F; 0x33; 0x33; 0x33; 0x33; 0x00];
   [0x00; 0x00; 0x1E; 0x33; 0x33; 0x33; 0x1E; 0x00];
   [0x00; 0x00; 0x3B; 0x66; 0x66; 0x3E; 0x06; 0x0F];
   [0x00; 0x00; 0x6E; 0x33; 0x33; 0x3E; 0x30; 0x78];
   [0x00; 0x00; 0x3B; 0x6E; 0x66; 0x06; 0x0F; 0x00];
   [0x00; 0x00; 0x3E; 0x03; 0x1E; 0x30; 0x1F; 0x00];
   [0x08; 0x0C; 0x3E; 0x0C; 0x0C; 0x2C; 0x18; 0x00];
   [0x00; 0x00; 0x33; 0x33; 0x33; 0x33; 0x6E; 0x00];
   [0x00; 0x00; 0x33; 0x33; 0x33; 0x1E; 0x0C; 0x00];
   [0x00; 0x00; 0x63; 0x6B; 0x7F; 0x7F; 0x36; 0x00];
   [0x00; 0x00; 0x63; 0x36; 0x1C; 0x36; 0x63; 0x00];
   [0x00; 0x00; 0x33; 0x33; 0x33; 0x3E; 0x30; 0x1F];
   [0x00; 0x00; 0x3F; 0x19; 0x0C; 0x26; 0x3F; 0x00];
   [0x38; 0x0C; 0x0C; 0x07; 0x0C; 0x0C; 0x38; 0x00];
   [0x18; 0x18; 0x18; 0x00; 0x18; 0x18; 0x18; 0x00];
   [0x07; 0x0C; 0x0C; 0x38; 0x0C; 0x0C; 0x07; 0x00];
   [0x6E; 0x3B; 0x00; 0x00; 0x00; 0x00; 0x00; 0x00];
   [0x00; 0x00; 0x00; 0x00; 0x00; 0x00; 0x00; 0x00]].

Definition get_font_glyph (ch : Z) : list Z :=
  FONT_DATA !!! (if (32 <=? ch) && (ch <? 128) then Z.to_nat (ch - 32) else 0%nat).

(** [(glyph[row] >> col) & 1]: the least significant bit is on the left. *)
Definition u_draw_char (fb : Framebuffer) (px : Pixels) (x y ch : Z) (fg bg : Color) : Pixels :=
  let glyph := get_font_glyph ch in
  foldl (λ px '(row, col),
    u_draw_pixel fb px (wrap32 (x + col)) (wrap32 (y + row))
      (if Z.land (Z.shiftr (glyph !!! Z.to_nat row) col) 1 =? 1 then fg else bg)) px cells.

Fixpoint u_draw_string (fb : Framebuffer) (px : Pixels) (x y : Z) (text : list Z) (fg bg : Color) : Pixels :=
  match text with
  | [] => px
  | ch :: text =>
      if fb_width fb <? wrap32 (x + 8) then px
      else u_draw_string fb (u_draw_char fb px x y ch fg bg) (wrap32 (x + 8)) y text fg bg
  end.

Definition u_draw_hline (fb : Framebuffer) (px : Pixels) (x y width : Z) (c : Color) : Pixels := u_fill_rect fb px x y width 1 c.
Definition u_draw_vline (fb : Framebuffer) (px : Pixels) (x y height : Z) (c : Color) : Pixels := u_fill_rect fb px x y 1 height c.

Definition u_draw_rect (fb : Framebuffer) (px : Pixels) (x y width height : Z) (c : Color) : Pixels :=
  let px := u_draw_hline fb px x y width c in
  let px := u_draw_hline fb px x (wrap32 (y + height - 1)) width c in
  let px := u_draw_vline fb px x y height c in
  u_draw_vline fb px (wrap32 (x + width - 1)) y height c.

(** ** Surfaces

    [stride] is in pixels, as the offsets of the source compute it; the
    identifier and [owned] are never read. *)

Record Surface := mkSurface { sf_canvas : Framebuffer; sf_dirty : bool }.

Definition Surface_new (width height stride bpp buffer : Z) : Surface :=
  mkSurface (mkFb buffer width height stride PfBgr bpp) false.

(** [libgui]'s colours carry an alpha component. *)
Record GColor := mkGColor { g_r : Z; g_g : Z; g_b : Z; g_a : Z }.
Definition rgb (r g b : Z) : GColor := mkGColor r g b 255.
Definition from_u32 (v : Z) : GColor :=
  mkGColor (Z.land (Z.shiftr v 16) 0xFF) (Z.land (Z.shiftr v 8) 0xFF) (Z.land v 0xFF) (Z.land (Z.shiftr v 24) 0xFF).
Definition g_bgr32 (c : GColor) : Z := Z.lor (Z.lor (Z.shiftl (g_b c) 16) (Z.shiftl (g_g c) 8)) (g_r c).
Definition g_rgb32 (c : GColor) : Z := Z.lor (Z.lor (Z.shiftl (g_r c) 16) (Z.shiftl (g_g c) 8)) (g_b c).

Definition blend (under over : GColor) : GColor :=
  if g_a over =? 255 then over
  else if g_a over =? 0 then under
  else
    let alpha := g_a over in
    let inv_alpha := 255 - alpha in
    let mix a b := wrap8 ((a * inv_alpha + b * alpha) / 255) in
    mkGColor (mix (g_r under) (g_r over)) (mix (g_g under) (g_g over)) (mix (g_b under) (g_b over)) 255.

Definition sf_contains (s : Surface) (x y : Z) : bool :=
  (0 <=? x) && (0 <=? y) && (x <? fb_width (sf_canvas s)) && (y <? fb_height (sf_canvas s)).

Definition outside (s : Surface) (x y : Z) : bool := (fb_width (sf_canvas s) <=? x) || (fb_height (sf_canvas s) <=? y).

Definition touch (s : Surface) : Surface := mkSurface (sf_canvas s) true.
Definition sf_present (s : Surface) : Surface := mkSurface (sf_canvas s) false.

Definition set_pixel (s : Surface) (px : Pixels) (x y : Z) (c : GColor) : Surface * Pixels :=
  if outside s x y then (s, px) else (touch s, store (sf_canvas s) px x y (g_bgr32 c)).

Definition get_pixel (s : Surface) (px : Pixels) (x y : Z) : option GColor :=
  if outside s x y then None
  else
    let value := default 0 (px !! (fb_address (sf_canvas s) + pixel_offset (sf_canvas s) x y)) in
    Some (rgb (Z.land value 0xFF) (Z.land (Z.shiftr value 8) 0xFF) (Z.land (Z.shiftr value 16) 0xFF)).

Definition sf_fill_rect (s : Surface) (px : Pixels) (x y width height : Z) (c : GColor) : Surface * Pixels :=
  let x_end := Z.min (wrap32 (x + width)) (fb_width (sf_canvas s)) in
  let y_end := Z.min (wrap32 (y + height)) (fb_height (sf_canvas s)) in
  (touch s, foldl (fill_line (sf_canvas s) x x_end (g_bgr32 c)) px (seqZ y (y_end - y))).

Definition sf_clear (s : Surface) (px : Pixels) (c : GColor) : Surface * Pixels :=
  sf_fill_rect s px 0 0 (fb_width (sf_canvas s)) (fb_height (sf_canvas s)) c.

Definition sf_draw_hline (s : Surface) (px : Pixels) (x y len : Z) (c : GColor) : Surface * Pixels :=
  if fb_height (sf_canvas s) <=? y then (s, px)
  else
    let x_end := Z.min (wrap32 (x + len)) (fb_width (sf_canvas s)) in
    (touch s, fill_line (sf_canvas s) x x_end (g_bgr32 c) px y).

Definition sf_draw_vline (s : Surface) (px : Pixels) (x y len : Z) (c : GColor) : Surface * Pixels :=
  if fb_width (sf_canvas s) <=? x then (s, px)
  else
    let y_end := Z.min (wrap32 (y + len)) (fb_height (sf_canvas s)) in
    (touch s, foldl (λ px y, store (sf_canvas s) px x y (g_bgr32 c)) px (seqZ y (y_end - y))).

Definition sf_draw_rect (s : Surface) (px : Pixels) (x y width height : Z) (c : GColor) : Surface * Pixels :=
  let '(s, px) := sf_draw_hline s px x y width c in
  let '(s, px) := sf_draw_hline s px x (wrap32 (y + saturating_sub height 1)) width c in
  let '(s, px) := sf_draw_vline s px x y height c in
  sf_draw_vline s px (wrap32 (x + saturating_sub width 1)) y height c.

(** The font of the GUI library. *)
Definition get_glyph (ch : Z) : list Z :=
  match ch with
  | 0x20 => [0x00; 0x00; 0x00; 0x00; 0x00; 0x00; 0x00; 0x00]
  | 0x21 => [0x18; 0x18; 0x18; 0x18; 0x18; 0x00; 0x18; 0x00]
  | 0x22 => [0x6C; 0x6C; 0x24; 0x00; 0x00; 0x00; 0x00; 0x00]
  | 0x23 => [0x6C; 0x6C; 0xFE; 0x6C; 0xFE; 0x6C; 0x6C; 0x00]
  | 0x24 => [0x18; 0x3E; 0x60; 0x3C; 0x06; 0x7C; 0x18; 0x00]
  | 0x25 => [0x00; 0xC6; 0xCC; 0x18; 0x30; 0x66; 0xC6; 0x00]
  | 0x26 => [0x38; 0x6C; 0x38; 0x76; 0xDC; 0xCC; 0x76; 0x00]
  | 0x27 => [0x18; 0x18; 0x30; 0x00; 0x00; 0x00; 0x00; 0x00]
  | 0x28 => [0x0C; 0x18; 0x30; 0x30; 0x30; 0x18; 0x0C; 0x00]
  | 0x29 => [0x30; 0x18; 0x0C; 0x0C; 0x0C; 0x18; 0x30; 0x00]
  | 0x2A => [0x00; 0x66; 0x3C; 0xFF; 0x3C; 0x66; 0x00; 0x00]
  | 0x2B => [0x00; 0x18; 0x18; 0x7E; 0x18; 0x18; 0x00; 0x00]
  | 0x2C => [0x00; 0x00; 0x00; 0x00; 0x00; 0x18; 0x18; 0x30]
  | 0x2D => [0x00; 0x00; 0x00; 0x7E; 0x00; 0x00; 0x00; 0x00]
  | 0x2E => [0x00; 0x00; 0x00; 0x00; 0x00; 0x18; 0x18; 0x00]
  | 0x2F => [0x06; 0x0C; 0x18; 0x30; 0x60; 0xC0; 0x80; 0x00]
  | 0x30 => [0x3C; 0x66; 0x6E; 0x76; 0x66; 0x66; 0x3C; 0x00]
  | 0x31 => [0x18; 0x38; 0x18; 0x18; 0x18; 0x18; 0x7E; 0x00]
  | 0x32 => [0x3C; 0x66; 0x06; 0x0C; 0x18; 0x30; 0x7E; 0x00]
  | 0x33 => [0x3C; 0x66; 0x06; 0x1C; 0x06; 0x66; 0x3C; 0x00]
  | 0x34 => [0x0C; 0x1C; 0x3C; 0x6C; 0x7E; 0x0C; 0x0C; 0x00]
  | 0x35 => [0x7E; 0x60; 0x7C; 0x06; 0x06; 0x66; 0x3C; 0x00]
  | 0x36 => [0x1C; 0x30; 0x60; 0x7C; 0x66; 0x66; 0x3C; 0x00]
  | 0x37 => [0x7E; 0x06; 0x0C; 0x18; 0x30; 0x30; 0x30; 0x00]
  | 0x38 => [0x3C; 0x66; 0x66; 0x3C; 0x66; 0x66; 0x3C; 0x00]
  | 0x39 => [0x3C; 0x66; 0x66; 0x3E; 0x06; 0x0C; 0x38; 0x00]
  | 0x3A => [0x00; 0x18; 0x18; 0x00; 0x18; 0x18; 0x00; 0x00]
  | 0x3B => [0x00; 0x18; 0x18; 0x00; 0x18; 0x18; 0x30; 0x00]
  | 0x3C => [0x0C; 0x18; 0x30; 0x60; 0x30; 0x18; 0x0C; 0x00]
  | 0x3D => [0x00; 0x00; 0x7E; 0x00; 0x7E; 0x00; 0x00; 0x00]
  | 0x3E => [0x30; 0x18; 0x0C; 0x06; 0x0C; 0x18; 0x30; 0x00]
  | 0x3F => [0x3C; 0x66; 0x0C; 0x18; 0x18; 0x00; 0x18; 0x00]
  | 0x40 => [0x3C; 0x66; 0x6E; 0x6A; 0x6E; 0x60; 0x3C; 0x00]
  | 0x41 => [0x18; 0x3C; 0x66; 0x66; 0x7E; 0x66; 0x66; 0x00]
  | 0x42 => [0x7C; 0x66; 0x66; 0x7C; 0x66; 0x66; 0x7C; 0x00]
  | 0x43 => [0x3C; 0x66; 0x60; 0x60; 0x60; 0x66; 0x3C; 0x00]
  | 0x44 => [0x78; 0x6C; 0x66; 0x66; 0x66; 0x6C; 0x78; 0x00]
  | 0x45 => [0x7E; 0x60; 0x60; 0x7C; 0x60; 0x60; 0x7E; 0x00]
  | 0x46 => [0x7E; 0x60; 0x60; 0x7C; 0x60; 0x60; 0x60; 0x00]
  | 0x47 => [0x3C; 0x66; 0x60; 0x6E; 0x66; 0x66; 0x3E; 0x00]
  | 0x48 => [0x66; 0x66; 0x66; 0x7E; 0x66; 0x66; 0x66; 0x00]
  | 0x49 => [0x3C; 0x18; 0x18; 0x18; 0x18; 0x18; 0x3C; 0x00]
  | 0x4A => [0x06; 0x06; 0x06; 0x06; 0x66; 0x66; 0x3C; 0x00]
  | 0x4B => [0x66; 0x6C; 0x78; 0x70; 0x78; 0x6C; 0x66; 0x00]
  | 0x4C => [0x60; 0x60; 0x60; 0x60; 0x60; 0x60; 0x7E; 0x00]
  | 0x4D => [0xC6; 0xEE; 0xFE; 0xD6; 0xC6; 0xC6; 0xC6; 0x00]
  | 0x4E => [0x66; 0x76; 0x7E; 0x7E; 0x6E; 0x66; 0x66; 0x00]
  | 0x4F => [0x3C; 0x66; 0x66; 0x66; 0x66; 0x66; 0x3C; 0x00]
  | 0x50 => [0x7C; 0x66; 0x66; 0x7C; 0x60; 0x60; 0x60; 0x00]
  | 0x51 => [0x3C; 0x66; 0x66; 0x66; 0x6A; 0x6C; 0x36; 0x00]
  | 0x52 => [0x7C; 0x66; 0x66; 0x7C; 0x6C; 0x66; 0x66; 0x00]
  | 0x53 => [0x3C; 0x66; 0x60; 0x3C; 0x06; 0x66; 0x3C; 0x00]
  | 0x54 => [0x7E; 0x18; 0x18; 0x18; 0x18; 0x18; 0x18; 0x00]
  | 0x55 => [0x66; 0x66; 0x66; 0x66; 0x66; 0x66; 0x3C; 0x00]
  | 0x56 => [0x66; 0x66; 0x66; 0x66; 0x66; 0x3C; 0x18; 0x00]
  | 0x57 => [0xC6; 0xC6; 0xC6; 0xD6; 0xFE; 0xEE; 0xC6; 0x00]
  | 0x58 => [0x66; 0x66; 0x3C; 0x18; 0x3C; 0x66; 0x66; 0x00]
  | 0x59 => [0x66; 0x66; 0x66; 0x3C; 0x18; 0x18; 0x18; 0x00]
  | 0x5A => [0x7E; 0x06; 0x0C; 0x18; 0x30; 0x60; 0x7E; 0x00]
  | 0x5B => [0x3C; 0x30; 0x30; 0x30; 0x30; 0x30; 0x3C; 0x00]
  | 0x5C => [0xC0; 0x60; 0x30; 0x18; 0x0C; 0x06; 0x02; 0x00]
  | 0x5D => [0x3C; 0x0C; 0x0C; 0x0C; 0x0C; 0x0C; 0x3C; 0x00]
  | 0x5E => [0x10; 0x38; 0x6C; 0xC6; 0x00; 0x00; 0x00; 0x00]
  | 0x5F => [0x00; 0x00; 0x00; 0x00; 0x00; 0x00; 0xFE; 0x00]
  | 0x60 => [0x30; 0x18; 0x0C; 0x00; 0x00; 0x00; 0x00; 0x00]
  | 0x61 => [0x00; 0x00; 0x3C; 0x06; 0x3E; 0x66; 0x3E; 0x00]
  | 0x62 => [0x60; 0x60; 0x7C; 0x66; 0x66; 0x66; 0x7C; 0x00]
  | 0x63 => [0x00; 0x00; 0x3C; 0x60; 0x60; 0x60; 0x3C; 0x00]
  | 0x64 => [0x06; 0x06; 0x3E; 0x66; 0x66; 0x66; 0x3E; 0x00]
  | 0x65 => [0x00; 0x00; 0x3C; 0x66; 0x7E; 0x60; 0x3C; 0x00]
  | 0x66 => [0x1C; 0x30; 0x7C; 0x30; 0x30; 0x30; 0x30; 0x00]
  | 0x67 => [0x00; 0x00; 0x3E; 0x66; 0x66; 0x3E; 0x06; 0x3C]
  | 0x68 => [0x60; 0x60; 0x7C; 0x66; 0x66; 0x66; 0x66; 0x00]
  | 0x69 => [0x18; 0x00; 0x38; 0x18; 0x18; 0x18; 0x3C; 0x00]
  | 0x6A => [0x0C; 0x00; 0x1C; 0x0C; 0x0C; 0x0C; 0x6C; 0x38]
  | 0x6B => [0x60; 0x60; 0x66; 0x6C; 0x78; 0x6C; 0x66; 0x00]
  | 0x6C => [0x38; 0x18; 0x18; 0x18; 0x18; 0x18; 0x3C; 0x00]
  | 0x6D => [0x00; 0x00; 0xEC; 0xFE; 0xD6; 0xC6; 0xC6; 0x00]
  | 0x6E => [0x00; 0x00; 0x7C; 0x66; 0x66; 0x66; 0x66; 0x00]
  | 0x6F => [0x00; 0x00; 0x3C; 0x66; 0x66; 0x66; 0x3C; 0x00]
  | 0x70 => [0x00; 0x00; 0x7C; 0x66; 0x66; 0x7C; 0x60; 0x60]
  | 0x71 => [0x00; 0x00; 0x3E; 0x66; 0x66; 0x3E; 0x06; 0x06]
  | 0x72 => [0x00; 0x00; 0x6E; 0x70; 0x60; 0x60; 0x60; 0x00]
  | 0x73 => [0x00; 0x00; 0x3E; 0x60; 0x3C; 0x06; 0x7C; 0x00]
  | 0x74 => [0x30; 0x30; 0x7C; 0x30; 0x30; 0x30; 0x1C; 0x00]
  | 0x75 => [0x00; 0x00; 0x66; 0x66; 0x66; 0x66; 0x3E; 0x00]
  | 0x76 => [0x00; 0x00; 0x66; 0x66; 0x66; 0x3C; 0x18; 0x00]
  | 0x77 => [0x00; 0x00; 0xC6; 0xC6; 0xD6; 0xFE; 0x6C; 0x00]
  | 0x78 => [0x00; 0x00; 0x66; 0x3C; 0x18; 0x3C; 0x66; 0x00]
  | 0x79 => [0x00; 0x00; 0x66; 0x66; 0x66; 0x3E; 0x06; 0x3C]
  | 0x7A => [0x00; 0x00; 0x7E; 0x0C; 0x18; 0x30; 0x7E; 0x00]
  | 0x7B => [0x0E; 0x18; 0x18; 0x70; 0x18; 0x18; 0x0E; 0x00]
  | 0x7C => [0x18; 0x18; 0x18; 0x00; 0x18; 0x18; 0x18; 0x00]
  | 0x7D => [0x70; 0x18; 0x18; 0x0E; 0x18; 0x18; 0x70; 0x00]
  | 0x7E => [0x76; 0xDC; 0x00; 0x00; 0x00; 0x00; 0x00; 0x00]
  | _ => [0xFF; 0x81; 0x81; 0x81; 0x81; 0x81; 0x81; 0xFF]
  end.

Definition text_width (text : list Z) : Z := wrap32 (wrap32 (Z.of_nat (length text)) * FONT_WIDTH).

(** [(glyph[row] >> (7 - col)) & 1 == 1] *)
Definition gui_bit (glyph : list Z) (row col : Z) : bool :=
  Z.land (Z.shiftr (glyph !!! Z.to_nat row) (7 - col)) 1 =? 1.

Definition sf_draw_char (s : Surface) (px : Pixels) (x y ch : Z) (fg bg : GColor) : Surface * Pixels :=
  let glyph := get_glyph ch in
  (touch s,
   foldl (λ px '(row, col),
     let p := wrap32 (x + col) in
     let q := wrap32 (y + row) in
     if outside s p q then px
     else store (sf_canvas s) px p q (if gui_bit glyph row col then g_bgr32 fg else g_bgr32 bg)) px cells).

Fixpoint sf_draw_string (s : Surface) (px : Pixels) (x y : Z) (text : list Z) (fg bg : GColor) : Surface * Pixels :=
  match text with
  | [] => (s, px)
  | ch :: text =>
      if fb_width (sf_canvas s) <? wrap32 (x + FONT_WIDTH) then (s, px)
      else let '(s, px) := sf_draw_char s px x y ch fg bg in sf_draw_string s px (wrap32 (x + FONT_WIDTH)) y text fg bg
  end.

(** Only the set bits of a glyph. *)
Definition draw_bits (s : Surface) (px : Pixels) (x y ch v : Z) : Pixels :=
  let glyph := get_glyph ch in
  foldl (λ px '(row, col),
    let p := wrap32 (x + col) in
    let q := wrap32 (y + row) in
    if outside s p q then px else if gui_bit glyph row col then store (sf_canvas s) px p q v else px) px cells.

Fixpoint draw_bits_string (s : Surface) (px : Pixels) (x y : Z) (text : list Z) (v : Z) : Pixels :=
  match text with
  | [] => px
  | ch :: text =>
      if fb_width (sf_canvas s) <? wrap32 (x + FONT_WIDTH) then px
      else draw_bits_string s (draw_bits s px x y ch v) (wrap32 (x + FONT_WIDTH)) y text v
  end.

Definition draw_string_transparent (s : Surface) (px : Pixels) (x y : Z) (text : list Z) (fg : GColor) : Surface * Pixels :=
  (touch s, draw_bits_string s px x y text (g_bgr32 fg)).

(** [blit]: [for y in 0..height { for x in 0..width { .. } }] *)
Definition blit_step (src : Surface) (src_x src_y dst_x dst_y : Z) (st : Surface * Pixels) (p : Z * Z) : Surface * Pixels :=
  let '(y, x) := p in
  match get_pixel src st.2 (wrap32 (src_x + x)) (wrap32 (src_y + y)) with
  | Some color => set_pixel st.1 st.2 (wrap32 (dst_x + x)) (wrap32 (dst_y + y)) color
  | None => st
  end.

Definition grid (width height : Z) : list (Z * Z) := y ← seqZ 0 height; x ← seqZ 0 width; [(y, x)].

Definition blit (dst : Surface) (px : Pixels) (src : Surface) (src_x src_y dst_x dst_y width height : Z) : Surface * Pixels :=
  foldl (blit_step src src_x src_y dst_x dst_y) (dst, px) (grid width height).

(** [create_surface]: a corner of the framebuffer [fb], the answer of
    [get_framebuffer_info], which the system call library does not have. *)
Definition create_surface (fb : Framebuffer) (width height : Z) : Surface :=
  Surface_new (Z.min width (fb_width fb)) (Z.min height (fb_height fb)) (fb_stride fb) (fb_bytes_per_pixel fb) (fb_address fb).

Definition create_fullscreen_surface (fb : Framebuffer) : Surface :=
  Surface_new (fb_width fb) (fb_height fb) (fb_stride fb) (fb_bytes_per_pixel fb) (fb_address fb).

(** ** The display driver *)

(** What [main] draws once it has the framebuffer. *)
Definition display_bytes (s : string) : list Z := (λ c, Z.of_N (Ascii.N_of_ascii c)) <$> String.list_ascii_of_string s.

Definition display_main (fb : Framebuffer) (px : Pixels) : Pixels :=
  let px := u_fill_rect fb px 0 0 (fb_width fb) (fb_height fb) (mkColor 46 52 64) in
  let px := u_fill_rect fb px 0 0 (fb_width fb) 24 (mkColor 36 41 51) in
  let px := u_draw_string fb px 8 4 (display_bytes "Atom Display Driver") (mkColor 136 192 208) (mkColor 36 41 51) in
  let px := u_draw_string fb px 16 40 (display_bytes "Display Driver Active") COLOR_WHITE (mkColor 46 52 64) in
  u_draw_string fb px 16 60 (display_bytes "Waiting for IPC clients...") (mkColor 200 200 200) (mkColor 46 52 64).
