(* ===== verification/CanvasSafety.v ===== *)
(** * Drawing from user space: properties

    Everything the library, the surfaces and the display driver draw stays in
    the frame; the library's rectangles are the kernel's; pixels read back as
    they were written, and copying a region copies its colours. *)

From S2P Require Import Prelude Graphics Canvas.

(** ** Sequences of stores *)

Definition pokes (px : Pixels) (l : list (Z * Z)) : Pixels := foldl (λ px av, <[av.1 := av.2]> px) px l.

Lemma pokes_miss px l a : (∀ v, (a, v) ∉ l) → pokes px l !! a = px !! a.
Proof.
  revert px. induction l as [|[b v] l IH]; intros px H; [done|]. cbn. rewrite IH.
  - rewrite lookup_insert_ne; [done|]. intros ->. apply (H v). left.
  - intros w Hw. apply (H w). by right.
Qed.

Lemma pokes_hit px l a v : (a, v) ∈ l → (∀ w, (a, w) ∈ l → w = v) → pokes px l !! a = Some v.
Proof.
  revert px. induction l as [|[b w] l IH]; intros px Hin Hu; [by apply elem_of_nil in Hin|]. cbn.
  destruct (decide ((a, v) ∈ l)) as [Hl|Hno].
  - apply IH; [done|]. intros w' Hw'. apply Hu. by right.
  - change (pokes (<[b:=w]> px) l !! a = Some v). rewrite pokes_miss.
    2: { intros w' Hw'. apply Hno. rewrite <- (Hu w'); [done|by right]. }
    apply elem_of_cons in Hin as [[= -> ->]|Hin]; [by rewrite lookup_insert_eq|done].
Qed.

(** ** The library *)

Lemma u_draw_pixel_confined fb px x y c : fb_wf fb → 0 ≤ x → 0 ≤ y → confined fb px (u_draw_pixel fb px x y c).
Proof.
  intros Hwf Hx Hy. unfold u_draw_pixel. destruct (Z.leb_spec (fb_width fb) x), (Z.leb_spec (fb_height fb) y); try done.
  destruct (fw_width _ Hwf). apply store_confined; [done|lia..].
Qed.

Lemma u_fill_line_confined fb px x y v n :
  fb_wf fb → 0 ≤ x → 0 ≤ y < fb_height fb → confined fb px (u_fill_line fb px x y v n).
Proof.
  intros Hwf. revert px x. induction n as [|n IH]; intros px x Hx Hy; [done|]. cbn.
  destruct (Z.leb_spec (fb_width fb) x); [done|]. destruct (fw_width _ Hwf).
  etrans; [|apply IH; [apply wrap32_nonneg|done]]. apply store_confined; [done|lia|done].
Qed.

Lemma u_fill_rect_confined fb px x y w h c : fb_wf fb → 0 ≤ x → 0 ≤ y → confined fb px (u_fill_rect fb px x y w h c).
Proof.
  intros Hwf Hx Hy. unfold u_fill_rect. revert px y Hy. induction (Z.to_nat h) as [|n IH]; intros px y Hy; [done|]. cbn.
  destruct (Z.leb_spec (fb_height fb) y); [done|].
  etrans; [|apply IH, wrap32_nonneg]. apply u_fill_line_confined; [done|done|lia].
Qed.

Lemma u_draw_char_confined fb px x y ch fg bg : fb_wf fb → confined fb px (u_draw_char fb px x y ch fg bg).
Proof.
  intros Hwf. apply confined_foldl. intros p [row col] _. apply u_draw_pixel_confined; [done|apply wrap32_nonneg..].
Qed.

Lemma u_draw_string_confined fb px x y text fg bg : fb_wf fb → confined fb px (u_draw_string fb px x y text fg bg).
Proof.
  intros Hwf. revert px x. induction text as [|ch text IH]; intros px x; [done|]. cbn.
  destruct (_ <? _); [done|]. etrans; [by apply u_draw_char_confined|apply IH].
Qed.

(** Walk back through a sequence of drawing calls. *)
Ltac stay :=
  repeat first
    [ reflexivity
    | etrans; [|apply u_fill_rect_confined; [assumption|first [apply wrap32_nonneg|apply Z.le_max_l|lia]..]]
    | etrans; [|apply u_draw_string_confined; assumption]
    | etrans; [|apply u_draw_char_confined; assumption] ].

Lemma display_main_confined fb px : fb_wf fb → confined fb px (display_main fb px).
Proof. intros Hwf. unfold display_main. stay. Qed.

Lemma to_bgr32_kernel fb c : fb_format fb = PfBgr → to_bgr32 c = pixel_value fb c.
Proof. intros E. unfold pixel_value. by rewrite E. Qed.

(** The loops that stop at the edge are the loops up to the edge. *)
Lemma u_fill_line_eq fb px x y v n : 0 ≤ x → x + Z.of_nat n < 2 ^ 32 →
  u_fill_line fb px x y v n = fill_line fb x (Z.min (x + Z.of_nat n) (fb_width fb)) v px y.
Proof.
  revert px x. induction n as [|n IH]; intros px x Hx Hn; unfold fill_line; cbn [u_fill_line].
  { rewrite seqZ_nil by lia. done. }
  destruct (Z.leb_spec (fb_width fb) x); [by rewrite seqZ_nil by lia|].
  rewrite wrap_small by (unfold in_range; lia). rewrite IH by lia. unfold fill_line.
  replace (x + 1 + Z.of_nat n) with (x + Z.of_nat (S n)) by lia.
  rewrite (seqZ_cons x) by lia. cbn [foldl]. rewrite Z.add_1_r, <- Z.sub_1_r. do 2 f_equal. lia.
Qed.

(** The rectangle of the library is the rectangle of the kernel. *)
Lemma u_fill_rect_kernel fb px x y w h c : fb_format fb = PfBgr →
  in_range 32 x → in_range 32 y → 0 ≤ w → 0 ≤ h → x + w < 2 ^ 32 → y + h < 2 ^ 32 →
  u_fill_rect fb px x y w h c = fill_rect fb px x y w h c.
Proof.
  intros Hf [Hx _] [Hy _] Hw Hh Hxw Hyh. unfold u_fill_rect, fill_rect. rewrite <- (to_bgr32_kernel fb c Hf).
  cbv zeta. rewrite !wrap_small by (unfold in_range; lia). generalize (to_bgr32 c) as v. intros v.
  rewrite <- (Z2Nat.id h) at 2 by lia. rewrite <- (Z2Nat.id h) in Hyh by lia.
  revert px y Hy Hyh. induction (Z.to_nat h) as [|n IH]; intros px y Hy Hyh; cbn [u_fill_lines].
  { rewrite seqZ_nil by lia. done. }
  destruct (Z.leb_spec (fb_height fb) y); [by rewrite seqZ_nil by lia|].
  rewrite (wrap_small 32 (y + 1)) by (unfold in_range; lia). rewrite IH by lia.
  rewrite u_fill_line_eq, Z2Nat.id by lia.
  replace (y + 1 + Z.of_nat n) with (y + Z.of_nat (S n)) by lia.
  rewrite (seqZ_cons y) by lia. cbn [foldl]. rewrite Z.add_1_r, <- Z.sub_1_r. do 2 f_equal. lia.
Qed.

(** ** Surfaces *)

(** The three channels of a packed pixel. *)
Lemma channels r g b : is_byte r → is_byte g → is_byte b →
  let v := Z.lor (Z.lor (Z.shiftl b 16) (Z.shiftl g 8)) r in
  Z.land v 0xFF = r ∧ Z.land (Z.shiftr v 8) 0xFF = g ∧ Z.land (Z.shiftr v 16) 0xFF = b.
Proof.
  intros Hr Hg Hb v. unfold v. change 0xFF with (Z.ones 8).
  split_and!; bitwise i; rewrite ?Z.shiftr_spec, ?Z.lor_spec, ?Z.shiftl_spec by lia.
  - destruct (decide (i < 8)) as [Hi|Hi].
    + rewrite Z.ones_spec_low, andb_true_r, !(Z.testbit_neg_r _ (i - _)) by lia. done.
    + rewrite Z.ones_spec_high, andb_false_r, (testbit_in_range 8 r i) by (done || lia). done.
  - destruct (decide (i < 8)) as [Hi|Hi].
    + rewrite Z.ones_spec_low, andb_true_r, (Z.testbit_neg_r _ (i + 8 - 16)) by lia.
      rewrite (testbit_in_range 8 r (i + 8)) by (done || lia). rewrite orb_false_r. cbn [orb]. f_equal. lia.
    + rewrite Z.ones_spec_high, andb_false_r, (testbit_in_range 8 g i) by (done || lia). done.
  - destruct (decide (i < 8)) as [Hi|Hi].
    + rewrite Z.ones_spec_low, andb_true_r by lia.
      rewrite (testbit_in_range 8 r (i + 16)), (testbit_in_range 8 g (i + 16 - 8)) by (done || lia). rewrite !orb_false_r. f_equal. lia.
    + rewrite Z.ones_spec_high, andb_false_r, (testbit_in_range 8 b i) by (done || lia). done.
Qed.

(** The colour of a pixel of a surface, as [get_pixel] sees it. *)
Definition opaque (c : GColor) : GColor := rgb (g_r c) (g_g c) (g_b c).
Definition color_ok (c : GColor) : Prop := is_byte (g_r c) ∧ is_byte (g_g c) ∧ is_byte (g_b c).

Lemma get_set_pixel s px x y c u w : fb_wf (sf_canvas s) → color_ok c →
  0 ≤ x → 0 ≤ y → 0 ≤ u < fb_width (sf_canvas s) → 0 ≤ w < fb_height (sf_canvas s) →
  get_pixel s (set_pixel s px x y c).2 u w = if decide (x = u ∧ y = w) then Some (opaque c) else get_pixel s px u w.
Proof.
  intros Hwf (Hr & Hg & Hb) Hx Hy Hu Hw. destruct (fw_width _ Hwf). unfold set_pixel, get_pixel, outside.
  destruct (Z.leb_spec (fb_width (sf_canvas s)) u), (Z.leb_spec (fb_height (sf_canvas s)) w); try lia. cbn [orb].
  destruct (Z.leb_spec (fb_width (sf_canvas s)) x), (Z.leb_spec (fb_height (sf_canvas s)) y); cbn [orb snd];
    [rewrite decide_False by lia; done..|].
  unfold store. destruct (decide (x = u ∧ y = w)) as [[-> ->]|Hne].
  - rewrite lookup_insert_eq. cbn [default id]. destruct (channels _ _ _ Hr Hg Hb) as (E1 & E2 & E3). unfold g_bgr32.
    by rewrite E1, E2, E3.
  - rewrite lookup_insert_ne; [done|]. intros E. apply Hne.
    apply (pixel_offset_inj (sf_canvas s) x y u w); [done|lia..].
Qed.

Lemma set_pixel_confined s px x y c : fb_wf (sf_canvas s) → 0 ≤ x → 0 ≤ y →
  confined (sf_canvas s) px (set_pixel s px x y c).2 ∧ sf_canvas (set_pixel s px x y c).1 = sf_canvas s.
Proof.
  intros Hwf Hx Hy. unfold set_pixel, outside. destruct (fw_width _ Hwf).
  destruct (Z.leb_spec (fb_width (sf_canvas s)) x), (Z.leb_spec (fb_height (sf_canvas s)) y); try (split; done).
  split; [|done]. cbn [orb snd]. apply store_confined; [done|lia..].
Qed.

Lemma get_pixel_canvas s s' px x y : sf_canvas s = sf_canvas s' → get_pixel s px x y = get_pixel s' px x y.
Proof. unfold get_pixel, outside. by intros ->. Qed.

(** Two frames without a common pixel. *)
Definition disjoint_frames (f g : Framebuffer) : Prop := ∀ a, in_frame f a → ¬ in_frame g a.

Lemma get_pixel_other s t px px' x y : fb_wf (sf_canvas s) → disjoint_frames (sf_canvas s) (sf_canvas t) →
  confined (sf_canvas t) px px' → 0 ≤ x → 0 ≤ y → get_pixel s px' x y = get_pixel s px x y.
Proof.
  intros Hwf Hd Hc Hx Hy. unfold get_pixel, outside. destruct (fw_width _ Hwf).
  destruct (Z.leb_spec (fb_width (sf_canvas s)) x), (Z.leb_spec (fb_height (sf_canvas s)) y); try done. cbn [orb].
  rewrite Hc; [done|]. apply Hd. destruct (pixel_offset_spec (sf_canvas s) x y) as [E Hr]; [done|lia..|].
  exists (y * fb_stride (sf_canvas s) + x). lia.
Qed.

Lemma get_pixel_ok s px x y c : get_pixel s px x y = Some c → color_ok c ∧ opaque c = c.
Proof.
  unfold get_pixel. destruct (outside _ _ _); [done|]. intros [= <-]. unfold color_ok, is_byte, in_range. cbn [rgb g_r g_g g_b].
  change 0xFF with (Z.ones 8). rewrite !Z.land_ones by lia. repeat split; apply Z.mod_pos_bound; lia.
Qed.

Section blit.
Context (src : Surface) (px0 : Pixels) (src_x src_y dst_x dst_y width height : Z).
Context (Hsx : 0 ≤ src_x) (Hsy : 0 ≤ src_y) (Hdx : 0 ≤ dst_x) (Hdy : 0 ≤ dst_y).
Context (Hsw : src_x + width < 2 ^ 32) (Hsh : src_y + height < 2 ^ 32) (Hdw : dst_x + width < 2 ^ 32) (Hdh : dst_y + height < 2 ^ 32).
Context (Hsrc : fb_wf (sf_canvas src)).

(** The destination after the cells [done] have been copied. *)
Definition blitted (dst : Surface) (done : list (Z * Z)) (st : Surface * Pixels) : Prop :=
  sf_canvas st.1 = sf_canvas dst ∧ confined (sf_canvas dst) px0 st.2 ∧
  ∀ u w, 0 ≤ u < fb_width (sf_canvas dst) → 0 ≤ w < fb_height (sf_canvas dst) →
    get_pixel dst st.2 u w =
    if decide ((w - dst_y, u - dst_x) ∈ done) then
      match get_pixel src px0 (src_x + (u - dst_x)) (src_y + (w - dst_y)) with Some c => Some c | None => get_pixel dst px0 u w end
    else get_pixel dst px0 u w.

Lemma blit_step_blitted dst done st y x : fb_wf (sf_canvas dst) → disjoint_frames (sf_canvas src) (sf_canvas dst) →
  0 ≤ x < width → 0 ≤ y < height → blitted dst done st →
  blitted dst (done ++ [(y, x)]) (blit_step src src_x src_y dst_x dst_y st (y, x)).
Proof.
  intros Hwf Hd Hx Hy (Hc & Hconf & Hp). unfold blit_step. rewrite !wrap_small by (unfold in_range; lia).
  rewrite (get_pixel_other src dst px0 st.2) by (done || lia).
  assert (Hin : ∀ u w, (w - dst_y, u - dst_x) ∈ done ++ [(y, x)] ↔ (w - dst_y, u - dst_x) ∈ done ∨ (dst_x + x = u ∧ dst_y + y = w)).
  { intros u w. rewrite elem_of_app, list_elem_of_singleton. split; intros [?|H]; [by left|right; injection H; lia|by left|right].
    destruct H. f_equal; lia. }
  destruct (get_pixel src px0 (src_x + x) (src_y + y)) as [c|] eqn:E.
  - destruct (get_pixel_ok _ _ _ _ _ E) as [Hok Hop].
    destruct (set_pixel_confined st.1 st.2 (dst_x + x) (dst_y + y) c) as [H1 H2]; [by rewrite Hc|lia..|].
    split_and!; [by rewrite H2|etrans; [exact Hconf|by rewrite <- Hc]|]. intros u w Hu Hw.
    rewrite (get_pixel_canvas dst st.1), get_set_pixel, Hop by (rewrite ?Hc; done || lia).
    rewrite <- (get_pixel_canvas dst st.1), Hp by (done || lia). rewrite (decide_ext _ _ _ _ (Hin u w)).
    destruct (decide (dst_x + x = u ∧ dst_y + y = w)) as [[<- <-]|Hne].
    + rewrite decide_True by by right. replace (src_x + (dst_x + x - dst_x)) with (src_x + x) by lia.
      replace (src_y + (dst_y + y - dst_y)) with (src_y + y) by lia. by rewrite E.
    + apply decide_ext. tauto.
  - split_and!; [done..|]. intros u w Hu Hw. rewrite Hp, (decide_ext _ _ _ _ (Hin u w)) by done.
    destruct (decide (dst_x + x = u ∧ dst_y + y = w)) as [[<- <-]|Hne]; [|apply decide_ext; tauto].
    replace (src_x + (dst_x + x - dst_x)) with (src_x + x) by lia.
    replace (src_y + (dst_y + y - dst_y)) with (src_y + y) by lia. rewrite E. by repeat case_decide.
Qed.

Lemma blit_loop dst todo : fb_wf (sf_canvas dst) → disjoint_frames (sf_canvas src) (sf_canvas dst) →
  (∀ y x, (y, x) ∈ todo → 0 ≤ x < width ∧ 0 ≤ y < height) →
  ∀ done st, blitted dst done st → blitted dst (done ++ todo) (foldl (blit_step src src_x src_y dst_x dst_y) st todo).
Proof.
  intros Hwf Hd. induction todo as [|[y x] todo IH]; intros Hr done st Hst; [by rewrite app_nil_r|].
  cbn [foldl]. rewrite (cons_middle (y, x)), (assoc_L (++)). destruct (Hr y x) as [Hx Hy]; [left|].
  apply IH; [intros; apply Hr; by right|]. by apply blit_step_blitted.
Qed.
End blit.

Lemma elem_of_grid width height y x : (y, x) ∈ grid width height ↔ 0 ≤ x < width ∧ 0 ≤ y < height.
Proof.
  unfold grid. rewrite list_elem_of_bind. setoid_rewrite list_elem_of_bind. setoid_rewrite list_elem_of_singleton.
  setoid_rewrite elem_of_seqZ. split; [intros (y' & (x' & [= -> ->] & ?) & ?); lia|].
  intros [? ?]. exists y. split; [|lia]. exists x. split; [done|lia].
Qed.

(** Copying between surfaces.  When the rectangles do not wrap around and the
    two surfaces share no memory, each pixel of the destination that lies in
    the rectangle and whose counterpart lies on the source gets the
    counterpart's colour, every other pixel of the destination keeps its own,
    and nothing outside the destination's frame changes. *)
Theorem blit_copies dst src px src_x src_y dst_x dst_y width height :
  fb_wf (sf_canvas dst) → fb_wf (sf_canvas src) → disjoint_frames (sf_canvas src) (sf_canvas dst) →
  0 ≤ src_x → 0 ≤ src_y → 0 ≤ dst_x → 0 ≤ dst_y →
  src_x + width < 2 ^ 32 → src_y + height < 2 ^ 32 → dst_x + width < 2 ^ 32 → dst_y + height < 2 ^ 32 →
  let px' := (blit dst px src src_x src_y dst_x dst_y width height).2 in
  confined (sf_canvas dst) px px' ∧
  ∀ u w, 0 ≤ u < fb_width (sf_canvas dst) → 0 ≤ w < fb_height (sf_canvas dst) →
    get_pixel dst px' u w =
    if decide (dst_x ≤ u < dst_x + width ∧ dst_y ≤ w < dst_y + height) then
      match get_pixel src px (src_x + (u - dst_x)) (src_y + (w - dst_y)) with Some c => Some c | None => get_pixel dst px u w end
    else get_pixel dst px u w.
Proof.
  intros Hdst Hsrc Hd ????????. cbn zeta.
  destruct (blit_loop src px src_x src_y dst_x dst_y width height) with (dst := dst) (todo := grid width height) (done := @nil (Z * Z)) (st := (dst, px))
    as (_ & Hc & Hp); try done.
  { intros y x. by rewrite elem_of_grid. }
  split; [exact Hc|]. intros u w Hu Hw. unfold blit. rewrite Hp by done. apply decide_ext. cbn [app]. rewrite elem_of_grid. lia.
Qed.

Definition demo_src : Surface := Surface_new 3 2 4 4 0x1000.
Definition demo_dst : Surface := Surface_new 8 4 8 4 0x2000.

Lemma blit_copies_witness :
  let px := (set_pixel demo_src ∅ 1 0 (rgb 10 20 30)).2 in
  let px' := (blit demo_dst px demo_src 0 0 2 1 3 2).2 in
  get_pixel demo_dst px' 3 1 = Some (rgb 10 20 30) ∧ get_pixel demo_dst px' 0 0 = get_pixel demo_dst px 0 0.
Proof.
  cbn zeta. assert (H1 : fb_wf (sf_canvas demo_dst)) by (split; cbn; lia). assert (H2 : fb_wf (sf_canvas demo_src)) by (split; cbn; lia).
  assert (Hd : disjoint_frames (sf_canvas demo_src) (sf_canvas demo_dst)).
  { intros a (i & Hi & ->) (j & Hj & E). cbn in *. lia. }
  destruct (blit_copies demo_dst demo_src (set_pixel demo_src ∅ 1 0 (rgb 10 20 30)).2 0 0 2 1 3 2 H1 H2 Hd) as [_ Hp]; [lia..|].
  split; (rewrite Hp by (cbn; lia)); vm_compute; reflexivity.
Defined.
