(* ===== verification/Desktop.v ===== *)
(** * The desktop environment ([drivers/ui_shell/src/main.rs])

    The window manager, the cursor and the compositor.  Coordinates are [i32]
    and sizes [u32]; arithmetic wraps at those widths. *)

From S2P Require Import Prelude Graphics Canvas LibIpc UserLib.

Definition i32 (x : Z) : Z := to_signed 32 x.
Definition u32 (x : Z) : Z := wrap32 x.

(** ** Theme *)

Definition DESKTOP_BG : Color := mkColor 46 52 64.
Definition PANEL_BG : Color := mkColor 36 41 51.
Definition PANEL_TEXT : Color := mkColor 236 239 244.
Definition ACCENT : Color := mkColor 136 192 208.
Definition DESKTOP_WINDOW_BG : Color := mkColor 46 52 64.
Definition WINDOW_HEADER : Color := mkColor 59 66 82.
Definition WINDOW_HEADER_FOCUSED : Color := mkColor 76 86 106.
Definition DESKTOP_WINDOW_BORDER : Color := mkColor 67 76 94.
Definition DOCK_BG : Color := mkColor 36 41 51.

(** ** Windows *)

Record Window := mkWindow {
  w_id : Z;
  w_title : list Z;
  w_x : Z;
  w_y : Z;
  w_width : Z;
  w_height : Z;
  w_visible : bool;
  w_focused : bool;
  w_event_port : option Z;
}.

Definition Window_new (id : Z) (title : list Z) (x y width height : Z) : Window :=
  mkWindow id title x y width height true false None.

Definition set_focused (v : bool) (w : Window) : Window :=
  mkWindow (w_id w) (w_title w) (w_x w) (w_y w) (w_width w) (w_height w) (w_visible w) v (w_event_port w).

Definition win_contains (w : Window) (px py : Z) : bool :=
  (w_x w <=? px) && (w_y w <=? py) && (px <? i32 (w_x w + i32 (w_width w))) && (py <? i32 (w_y w + i32 (w_height w))).

Definition header_contains (w : Window) (px py : Z) : bool :=
  (w_x w <=? px) && (w_y w <=? py) && (px <? i32 (w_x w + i32 (w_width w))) && (py <? i32 (w_y w + 24)).

(** ** The window manager: bottom to top *)

Record WindowManager := mkWm { wm_windows : list Window; wm_next_id : Z; wm_focused_id : option Z }.

Definition WindowManager_new : WindowManager := mkWm [] 1 None.

Definition has_id (id : Z) (w : Window) : bool := w_id w =? id.

Definition focus_window (m : WindowManager) (id : Z) : WindowManager :=
  let windows :=
    match wm_focused_id m with
    | Some prev_id => update_first (has_id prev_id) (set_focused false) (wm_windows m)
    | None => wm_windows m
    end in
  match find_first (has_id id) windows with
  | Some window => mkWm (remove_first (has_id id) windows ++ [set_focused true window]) (wm_next_id m) (Some id)
  | None => mkWm windows (wm_next_id m) (wm_focused_id m)
  end.

Definition create_window (m : WindowManager) (title : list Z) (x y width height : Z) : WindowManager * Z :=
  let id := wm_next_id m in
  let m := mkWm (wm_windows m ++ [Window_new id title x y width height]) (u32 (wm_next_id m + 1)) (wm_focused_id m) in
  (focus_window m id, id).

Definition window_at (m : WindowManager) (x y : Z) : option Z :=
  w_id <$> find_first (λ w, w_visible w && win_contains w x y) (reverse (wm_windows m)).

Definition close_window (m : WindowManager) (id : Z) : WindowManager :=
  let windows := filter (λ w, w_id w ≠ id) (wm_windows m) in
  mkWm windows (wm_next_id m)
    (if bool_decide (wm_focused_id m = Some id) then w_id <$> last windows else wm_focused_id m).

(** ** The cursor *)

Record CursorState := mkCursor {
  cu_x : Z;
  cu_y : Z;
  cu_saved_region : list Z;
  cu_saved_x : Z;
  cu_saved_y : Z;
  cu_has_saved : bool;
}.

Definition CursorState_new (width height : Z) : CursorState :=
  mkCursor (i32 (width / 2)) (i32 (height / 2)) (replicate 256 0) 0 0 false.

(** [clamp] panics when its bounds are in the wrong order, [None] here. *)
Definition clamp (v lo hi : Z) : option Z := if hi <? lo then None else Some (Z.max lo (Z.min v hi)).

Definition apply_delta (c : CursorState) (dx dy width height : Z) : option CursorState :=
  x ← clamp (i32 (cu_x c + dx)) 0 (i32 (u32 (width - 1)));
  y ← clamp (i32 (cu_y c - dy)) 0 (i32 (u32 (height - 1)));
  Some (mkCursor x y (cu_saved_region c) (cu_saved_x c) (cu_saved_y c) (cu_has_saved c)).

(** The 16 by 16 cells of the saved region, row by row. *)
Definition region : list (Z * Z) := row ← seqZ 0 16; col ← seqZ 0 16; [(row, col)].

Definition region_pixel (fb : Framebuffer) (x0 y0 : Z) (rc : Z * Z) : option Z :=
  let px := u32 (u32 x0 + rc.2) in
  let py := u32 (u32 y0 + rc.1) in
  if (px <? fb_width fb) && (py <? fb_height fb) then Some (fb_address fb + pixel_offset fb px py) else None.

Definition save_region (fb : Framebuffer) (px : Pixels) (c : CursorState) : CursorState :=
  let saved := foldl (λ saved rc,
    match region_pixel fb (cu_x c) (cu_y c) rc with
    | Some a => <[Z.to_nat (rc.1 * 16 + rc.2) := default 0 (px !! a)]> saved
    | None => saved
    end) (cu_saved_region c) region in
  mkCursor (cu_x c) (cu_y c) saved (cu_x c) (cu_y c) true.

Definition restore_region (fb : Framebuffer) (px : Pixels) (c : CursorState) : Pixels :=
  if cu_has_saved c then
    foldl (λ px rc,
      match region_pixel fb (cu_saved_x c) (cu_saved_y c) rc with
      | Some a => <[a := cu_saved_region c !!! Z.to_nat (rc.1 * 16 + rc.2)]> px
      | None => px
      end) px region
  else px.

Definition cursor_shape : list (list Z) :=
  [[1;0;0;0;0;0;0;0;0;0];
   [1;1;0;0;0;0;0;0;0;0];
   [1;2;1;0;0;0;0;0;0;0];
   [1;2;2;1;0;0;0;0;0;0];
   [1;2;2;2;1;0;0;0;0;0];
   [1;2;2;2;2;1;0;0;0;0];
   [1;2;2;2;2;2;1;0;0;0];
   [1;2;2;2;2;2;2;1;0;0];
   [1;2;2;2;2;2;2;2;1;0];
   [1;2;2;2;2;2;2;2;2;1];
   [1;2;2;2;2;1;1;1;1;1];
   [1;2;1;2;1;0;0;0;0;0];
   [1;1;0;1;2;1;0;0;0;0];
   [0;0;0;1;2;1;0;0;0;0];
   [0;0;0;0;1;2;1;0;0;0];
   [0;0;0;0;1;1;0;0;0;0]].

(** The cells of the shape with what is drawn there. *)
Definition shape_cells : list (Z * Z * Z) :=
  '(row, cols) ← zip (seqZ 0 16) cursor_shape; '(col, pixel) ← zip (seqZ 0 10) cols; [(row, col, pixel)].

Definition draw_cursor (fb : Framebuffer) (px : Pixels) (c : CursorState) : Pixels :=
  foldl (λ px '(row, col, pixel),
    let p := u32 (u32 (cu_x c) + col) in
    let q := u32 (u32 (cu_y c) + row) in
    if (p <? fb_width fb) && (q <? fb_height fb) then
      if pixel =? 1 then u_draw_pixel fb px p q COLOR_BLACK
      else if pixel =? 2 then u_draw_pixel fb px p q COLOR_WHITE
      else px
    else px) px shape_cells.

(** ** The compositor *)

Record Compositor := mkCompositor {
  co_fb : Framebuffer;
  co_wm : WindowManager;
  co_cursor : CursorState;
  co_mouse : LibMouse;
  co_dirty : bool;
}.

Definition Compositor_new (fb : Framebuffer) : Compositor :=
  mkCompositor fb WindowManager_new (CursorState_new (fb_width fb) (fb_height fb)) LibMouse_new true.

Definition set_wm (c : Compositor) (m : WindowManager) (dirty : bool) : Compositor :=
  mkCompositor (co_fb c) m (co_cursor c) (co_mouse c) dirty.
Definition set_cursor_state (c : Compositor) (cu : CursorState) : Compositor :=
  mkCompositor (co_fb c) (co_wm c) cu (co_mouse c) (co_dirty c).

Definition handle_click (c : Compositor) (x y : Z) : Compositor :=
  match window_at (co_wm c) x y with
  | None => c
  | Some id =>
      let c := if bool_decide (wm_focused_id (co_wm c) = Some id) then c else set_wm c (focus_window (co_wm c) id) true in
      match find_first (has_id id) (wm_windows (co_wm c)) with
      | Some w =>
          let close_x := i32 (w_x w + i32 (w_width w) - 20) in
          let close_y := i32 (w_y w + 6) in
          if (close_x <=? x) && (x <? i32 (close_x + 12)) && (close_y <=? y) && (y <? i32 (close_y + 12)) then
            set_wm c (close_window (co_wm c) id) true
          else c
      | None => c
      end
  end.

(** [handle_key] ends the program on escape and otherwise does nothing. *)
Definition key_quits (scancode : Z) : bool := scancode =? 0x01.

Definition bytes (s : string) : list Z := display_bytes s.

Definition draw_panel (fb : Framebuffer) (px : Pixels) : Pixels :=
  let width := fb_width fb in
  let px := u_fill_rect fb px 0 0 width 28 PANEL_BG in
  let px := u_draw_string fb px 12 6 (bytes "Atom") ACCENT PANEL_BG in
  let px := u_draw_string fb px 70 6 (bytes "|  Desktop Environment") PANEL_TEXT PANEL_BG in
  let clock_x := saturating_sub width 80 in
  u_draw_string fb px clock_x 6 (bytes "12:00") PANEL_TEXT PANEL_BG.

Definition draw_window (fb : Framebuffer) (px : Pixels) (w : Window) : Pixels :=
  let x := u32 (w_x w) in
  let y := u32 (w_y w) in
  let width := w_width w in
  let height := w_height w in
  let px := u_fill_rect fb px (u32 (x + 3)) (u32 (y + 3)) width height (mkColor 20 20 30) in
  let px := u_fill_rect fb px x y width height DESKTOP_WINDOW_BORDER in
  let px := u_fill_rect fb px (u32 (x + 1)) (u32 (y + 1)) (u32 (width - 2)) (u32 (height - 2)) DESKTOP_WINDOW_BG in
  let header_color := if w_focused w then WINDOW_HEADER_FOCUSED else WINDOW_HEADER in
  let px := u_fill_rect fb px (u32 (x + 1)) (u32 (y + 1)) (u32 (width - 2)) 22 header_color in
  let px := u_draw_string fb px (u32 (x + 8)) (u32 (y + 5)) (w_title w) PANEL_TEXT header_color in
  let btn_x := u32 (x + width - 18) in
  let btn_y := u32 (y + 6) in
  let px := u_fill_rect fb px btn_x btn_y 10 10 (mkColor 255 95 86) in
  let px := u_fill_rect fb px (u32 (btn_x - 14)) btn_y 10 10 (mkColor 255 189 46) in
  u_fill_rect fb px (u32 (btn_x - 28)) btn_y 10 10 (mkColor 39 201 63).

Definition icons : list (Color * list Z) :=
  [(mkColor 191 97 106, bytes "F"); (mkColor 163 190 140, bytes "S"); (mkColor 94 129 172, bytes "B");
   (mkColor 80 80 80, bytes ">_")].

Definition draw_dock (fb : Framebuffer) (px : Pixels) : Pixels :=
  let dock_w := 300 in
  let dock_h := 48 in
  let dock_x := saturating_sub (fb_width fb / 2) (dock_w / 2) in
  let dock_y := saturating_sub (fb_height fb) (dock_h + 10) in
  let px := u_fill_rect fb px dock_x dock_y dock_w dock_h DOCK_BG in
  let icon_size := 32 in
  let padding := 16 in
  let start_x := u32 (dock_x + padding) in
  let icon_y := u32 (dock_y + (dock_h - icon_size) / 2) in
  foldl (λ px '(i, (color, label)),
    let ix := u32 (start_x + i * (icon_size + padding)) in
    let px := u_fill_rect fb px ix icon_y icon_size icon_size color in
    u_draw_string fb px (u32 (ix + 8)) (u32 (icon_y + 10)) label COLOR_WHITE color) px (zip (seqZ 0 4) icons).

Definition draw_all (c : Compositor) (px : Pixels) : Compositor * Pixels :=
  let fb := co_fb c in
  let px := restore_region fb px (co_cursor c) in
  let px := u_fill_rect fb px 0 0 (fb_width fb) (fb_height fb) DESKTOP_BG in
  let px := draw_panel fb px in
  let px := foldl (λ px w, if w_visible w then draw_window fb px w else px) px (wm_windows (co_wm c)) in
  let px := draw_dock fb px in
  let c := set_cursor_state c (save_region fb px (co_cursor c)) in
  (c, draw_cursor fb px (co_cursor c)).

(** The body of the mouse loop of [run], with [prev_left]. *)
Definition mouse_event (c : Compositor) (px : Pixels) (prev_left : bool) (e : LibMouseEvent) : option (Compositor * Pixels * bool) :=
  let fb := co_fb c in
  let px := restore_region fb px (co_cursor c) in
  cu ← apply_delta (co_cursor c) (lme_dx e) (lme_dy e) (fb_width fb) (fb_height fb);
  let c := set_cursor_state c cu in
  let c := if lme_left e && negb prev_left then handle_click c (cu_x cu) (cu_y cu) else c in
  let cu := save_region fb px (co_cursor c) in
  let c := set_cursor_state c cu in
  Some (c, draw_cursor fb px cu, lme_left e).

(** [run] before its loop. *)
Definition desktop_start (fb : Framebuffer) (px : Pixels) : Compositor * Pixels :=
  let c := Compositor_new fb in
  let c := set_wm c (create_window (co_wm c) (bytes "Welcome to Atom") 100 100 400 300).1 (co_dirty c) in
  let c := set_wm c (create_window (co_wm c) (bytes "Terminal") 150 150 500 350).1 (co_dirty c) in
  draw_all c px.

(** The end of an iteration: redraw when something changed. *)
Definition redraw (c : Compositor) (px : Pixels) : Compositor * Pixels :=
  if co_dirty c then let '(c, px) := draw_all c px in (set_wm c (co_wm c) false, px) else (c, px).
