(* ===== verification/DesktopSafety.v ===== *)
(** * The desktop environment: properties

    The stack of windows keeps its order and its focus, a click reaches the
    topmost window under it, moving the mouse leaves the picture intact, and
    everything drawn stays on the screen. *)

From S2P Require Import Prelude Graphics Canvas CanvasSafety LibIpc UserLib Desktop.

(** ** The window stack *)

(** Identifiers are distinct and were handed out; only the focused window has
    its flag set. *)
Record wm_ids (m : WindowManager) : Prop := {
  wm_nodup : NoDup (w_id <$> wm_windows m);
  wm_below : Forall (λ i, 1 ≤ i < wm_next_id m) (w_id <$> wm_windows m);
  wm_next : 1 ≤ wm_next_id m;
  wm_flag : ∀ w, w ∈ wm_windows m → w_focused w = true → wm_focused_id m = Some (w_id w);
}.

(** And the focused window is the one on top. *)
Definition wm_wf (m : WindowManager) : Prop := wm_ids m ∧ wm_focused_id m = last (w_id <$> wm_windows m).

Inductive wm_reach : WindowManager → Prop :=
| wr_new : wm_reach WindowManager_new
| wr_create m title x y width height :
    wm_reach m → wm_next_id m < 2 ^ 32 - 1 → wm_reach (create_window m title x y width height).1
| wr_focus m id : wm_reach m → wm_reach (focus_window m id)
| wr_close m id : wm_reach m → wm_reach (close_window m id).

(** Taking the previous window's flag away. *)
Definition unfocused (m : WindowManager) : list Window :=
  match wm_focused_id m with
  | Some prev => update_first (has_id prev) (set_focused false) (wm_windows m)
  | None => wm_windows m
  end.

Lemma unfocused_ids m : w_id <$> unfocused m = w_id <$> wm_windows m.
Proof.
  unfold unfocused. destruct (wm_focused_id m); [|done]. by apply map_update_first.
Qed.

Lemma elem_of_update_first {A} (p : A → bool) f (l : list A) x :
  x ∈ update_first p f l → x ∈ l ∨ ∃ y, y ∈ l ∧ p y = true ∧ x = f y.
Proof.
  induction l as [|y l IH]; cbn; [by left|]. destruct (p y) eqn:E; intros [->|H]%elem_of_cons.
  - right. exists y. by split; [left|].
  - left. by right.
  - left. left.
  - destruct (IH H) as [?|(z & ? & ? & ?)]; [left; by right|]. right. exists z. by split; [right|].
Qed.

Lemma remove_first_perm {A} (p : A → bool) (l : list A) x : find_first p l = Some x → l ≡ₚ x :: remove_first p l.
Proof.
  induction l as [|y l IH]; cbn; [done|]. destruct (p y); [by intros [= ->]|].
  intros E. rewrite IH at 1 by done. constructor.
Qed.

Lemma unfocused_flags m w : wm_ids m → w ∈ unfocused m → w_focused w = false.
Proof.
  intros [Hnd _ _ Hf] Hw. unfold unfocused in Hw. destruct (wm_focused_id m) as [prev|] eqn:Ep.
  - assert (Hf' : ∀ w, w ∈ wm_windows m → w_id w ≠ prev → w_focused w = false).
    { intros v Hv Hne. destruct (w_focused v) eqn:E; [|done]. specialize (Hf v Hv E). congruence. }
    clear Hf. induction (wm_windows m) as [|v l IH]; cbn in *; [by apply elem_of_nil in Hw|].
    apply NoDup_cons in Hnd as [Hv Hnd]. unfold has_id in Hw at 1. destruct (Z.eqb_spec (w_id v) prev) as [E|E].
    + apply elem_of_cons in Hw as [->|Hw]; [done|]. apply Hf'; [by right|]. intros E'. apply Hv.
      rewrite E, <- E'. by apply list_elem_of_fmap_2.
    + apply elem_of_cons in Hw as [->|Hw]; [apply Hf'; [left|done]|]. apply IH; [done|done|].
      intros u Hu. apply Hf'. by right.
  - destruct (w_focused w) eqn:E; [|done]. by specialize (Hf w Hw E).
Qed.

Lemma focus_window_unfold m id :
  focus_window m id =
  match find_first (has_id id) (unfocused m) with
  | Some window => mkWm (remove_first (has_id id) (unfocused m) ++ [set_focused true window]) (wm_next_id m) (Some id)
  | None => mkWm (unfocused m) (wm_next_id m) (wm_focused_id m)
  end.
Proof. done. Qed.

Lemma focus_found m id w : wm_ids m → find_first (has_id id) (unfocused m) = Some w → wm_wf (focus_window m id).
Proof.
  intros Hi E. pose proof (unfocused_flags m) as Hfl. pose proof (unfocused_ids m) as Hids. rewrite focus_window_unfold, E.
  pose proof Hi as [Hnd Hb Hn Hf]. destruct (find_first_Some _ _ _ E) as [Hid Hin]. apply Z.eqb_eq in Hid.
  assert (Hp : w_id <$> (remove_first (has_id id) (unfocused m) ++ [set_focused true w]) ≡ₚ w_id <$> wm_windows m).
  { rewrite <- Hids. rewrite (remove_first_perm _ _ _ E) at 2. rewrite fmap_app. cbn. by rewrite <- Permutation_cons_append. }
  split; [split|]; cbn [wm_windows wm_next_id wm_focused_id]; [by rewrite Hp|by rewrite Hp|done| |].
  - intros v Hv Hfoc. apply elem_of_app in Hv as [Hv|Hv%list_elem_of_singleton].
    + rewrite Hfl in Hfoc; [done|done|]. rewrite (remove_first_perm _ _ _ E). by right.
    + subst v. cbn. by rewrite Hid.
  - rewrite fmap_app. cbn [fmap list_fmap]. by rewrite last_snoc, <- Hid.
Qed.

Lemma focus_window_wf m id : wm_wf m → wm_wf (focus_window m id).
Proof.
  intros [Hi Ht]. destruct (find_first (has_id id) (unfocused m)) as [w|] eqn:E; [by apply (focus_found m id w)|].
  rewrite focus_window_unfold, E. destruct Hi as [Hnd Hb Hn Hf] eqn:EHi.
  split; [split|]; cbn [wm_windows wm_next_id wm_focused_id]; rewrite ?unfocused_ids; [done..| |done].
  intros v Hv Hfoc. by rewrite (unfocused_flags m v Hi) in Hfoc.
Qed.

Lemma find_first_is_Some {A} (p : A → bool) l x : x ∈ l → p x = true → ∃ y, find_first p l = Some y.
Proof.
  intros Hx Hp. destruct (find_first p l) eqn:E; [by eexists|]. rewrite find_first_None in E.
  rewrite (E x Hx) in Hp. done.
Qed.

Lemma create_window_wf m title x y width height : wm_wf m → wm_next_id m < 2 ^ 32 - 1 →
  wm_wf (create_window m title x y width height).1.
Proof.
  intros [[Hnd Hb Hn Hf] Ht] Hlt. cbn. unfold u32. rewrite wrap_small by (unfold in_range; lia).
  set (w := Window_new (wm_next_id m) title x y width height).
  set (m1 := mkWm (wm_windows m ++ [w]) (wm_next_id m + 1) (wm_focused_id m)).
  assert (Hi : wm_ids m1).
  { rewrite Forall_forall in Hb. split; cbn [m1 wm_windows wm_next_id wm_focused_id].
    - rewrite fmap_app. apply NoDup_app. split_and!; [done| |apply NoDup_singleton].
      intros i Hi%Hb. cbn. rewrite list_elem_of_singleton. lia.
    - rewrite fmap_app. apply Forall_app_2; [|cbn; repeat constructor; lia]. apply Forall_forall. intros i Hi%Hb. lia.
    - lia.
    - intros v Hv Hfoc. apply elem_of_app in Hv as [Hv|Hv%list_elem_of_singleton]; [by apply Hf|]. by subst v. }
  assert (Hin : wm_next_id m ∈ w_id <$> unfocused m1).
  { rewrite unfocused_ids. cbn. rewrite fmap_app. apply elem_of_app. right. cbn. left. }
  apply list_elem_of_fmap in Hin as (v & Hv & Hin).
  destruct (find_first_is_Some (has_id (wm_next_id m)) (unfocused m1) v Hin) as [u Hu]; [unfold has_id; by rewrite <- Hv, Z.eqb_refl|].
  exact (focus_found m1 _ u Hi Hu).
Qed.

Lemma close_window_wf m id : wm_wf m → wm_wf (close_window m id).
Proof.
  intros [[Hnd Hb Hn Hf] Ht]. unfold close_window. set (ws := filter (λ w, w_id w ≠ id) (wm_windows m)).
  assert (Hsub : w_id <$> ws `sublist_of` w_id <$> wm_windows m) by (apply fmap_sublist, sublist_filter).
  assert (Hlast : wm_focused_id m ≠ Some id → last (w_id <$> ws) = last (w_id <$> wm_windows m)).
  { intros Hne. rewrite Ht in Hne. unfold ws. destruct (wm_windows m) as [|w l] eqn:E using rev_ind; [done|].
    rewrite fmap_app in *. cbn in Hne |- *. rewrite last_snoc in *. rewrite filter_app, filter_cons.
    rewrite decide_True by congruence. rewrite fmap_app. cbn. by rewrite last_snoc. }
  split; [split|]; cbn [wm_windows wm_next_id wm_focused_id].
  - eapply sublist_NoDup; done.
  - rewrite Forall_forall in *. intros i Hi. apply Hb. eapply elem_of_sublist; done.
  - done.
  - intros w [Hne Hw]%list_elem_of_filter Hfoc. specialize (Hf w Hw Hfoc). rewrite bool_decide_eq_false_2; [done|]. congruence.
  - case_bool_decide; [by rewrite fmap_last|]. by rewrite Hlast.
Qed.

Lemma wm_reach_wf m : wm_reach m → wm_wf m.
Proof.
  induction 1 as [|m title x y width height _ IH Hn|m id _ IH|m id _ IH].
  - split; [split|]; cbn; try done; try constructor. intros w Hw. by apply elem_of_nil in Hw.
  - by apply create_window_wf.
  - by apply focus_window_wf.
  - by apply close_window_wf.
Qed.

(** The window stack.  However windows are created, focused and closed, their
    identifiers stay distinct, the focused identifier is that of the topmost
    window, if there is any, and no other window has its focus flag set. *)
Theorem window_stack_invariant m : wm_reach m →
  NoDup (w_id <$> wm_windows m) ∧ wm_focused_id m = last (w_id <$> wm_windows m) ∧
  ∀ w, w ∈ wm_windows m → w_focused w = true → last (w_id <$> wm_windows m) = Some (w_id w).
Proof.
  intros [[Hnd Hb Hn Hf] Ht]%wm_reach_wf. split_and!; [done..|]. intros w Hw Hfoc. rewrite <- Ht. by apply Hf.
Qed.

Definition demo_wm : WindowManager :=
  focus_window (create_window (create_window WindowManager_new [65] 0 0 100 100).1 [66] 50 50 100 100).1 1.

Lemma window_stack_invariant_witness :
  wm_reach demo_wm ∧ NoDup (w_id <$> wm_windows demo_wm) ∧
  wm_focused_id demo_wm = last (w_id <$> wm_windows demo_wm) ∧ wm_focused_id demo_wm = Some 1.
Proof.
  assert (H : wm_reach demo_wm) by (repeat constructor).
  destruct (window_stack_invariant demo_wm H) as (H1 & H2 & _). exact (conj H (conj H1 (conj H2 eq_refl))).
Defined.

(** Closing the focused window hands the focus to the one below without setting
    its flag: it is drawn as if it had no focus, and clicking it does not change
    that, since it already is the focused one. *)
Lemma close_forgets_flag :
  let m := close_window demo_wm 1 in
  wm_focused_id m = Some 2 ∧ w_focused <$> wm_windows m = [false] ∧
  let c := set_wm (Compositor_new demo_fb) m false in
  w_focused <$> wm_windows (co_wm (handle_click c 60 60)) = [false].
Proof. by vm_compute. Qed.

(** ** Clicks *)

(** The topmost visible window at a point: none above it covers the point. *)
Lemma window_at_top m x y id : window_at m x y = Some id →
  ∃ below w above, wm_windows m = below ++ w :: above ∧ w_id w = id ∧
    w_visible w = true ∧ win_contains w x y = true ∧
    Forall (λ v, w_visible v && win_contains v x y = false) above.
Proof.
  unfold window_at. generalize (wm_windows m) as l. intros l.
  induction l as [|v l IH] using rev_ind; [done|]. rewrite reverse_app. cbn.
  destruct (w_visible v && win_contains v x y) eqn:E.
  - intros [= <-]. apply andb_prop in E as [E1 E2]. exists l, v, []. by split_and!.
  - intros H. destruct (IH H) as (below & w & above & -> & Hid & Hv & Hc & Ha). exists below, w, (above ++ [v]).
    split_and!; [by rewrite <- (assoc_L (++))|done..|]. apply Forall_app_2; [done|]. by constructor.
Qed.

(** The close button of a window. *)
Definition on_close (w : Window) (x y : Z) : bool :=
  let close_x := i32 (w_x w + i32 (w_width w) - 20) in
  let close_y := i32 (w_y w + 6) in
  (close_x <=? x) && (x <? i32 (close_x + 12)) && (close_y <=? y) && (y <? i32 (close_y + 12)).

Lemma find_by_id m w : NoDup (w_id <$> wm_windows m) → w ∈ wm_windows m → find_first (has_id (w_id w)) (wm_windows m) = Some w.
Proof.
  induction (wm_windows m) as [|v l IH]; intros Hnd Hw; [by apply elem_of_nil in Hw|]. cbn in *.
  apply NoDup_cons in Hnd as [Hv Hnd]. unfold has_id at 1. destruct (Z.eqb_spec (w_id v) (w_id w)) as [E|E].
  - apply elem_of_cons in Hw as [->|Hw]; [done|]. destruct Hv. rewrite E. by apply list_elem_of_fmap_2.
  - apply IH; [done|]. by apply elem_of_cons in Hw as [->|?].
Qed.

(** Focusing leaves the geometry of every window alone. *)
Definition geometry (w : Window) : Z * list Z * Z * Z * Z * Z * bool := (w_id w, w_title w, w_x w, w_y w, w_width w, w_height w, w_visible w).

Lemma on_close_geometry v w x y : geometry v = geometry w → on_close v x y = on_close w x y.
Proof. unfold geometry, on_close. intros [= _ _ -> -> -> _ _]. done. Qed.

Lemma update_first_geometry p b l : geometry <$> update_first p (set_focused b) l = geometry <$> l.
Proof. by apply map_update_first. Qed.

Lemma focus_geometry m id w : wm_wf m → w ∈ wm_windows m → w_id w = id →
  ∃ ws v, wm_windows (focus_window m id) = ws ++ [v] ∧ geometry v = geometry w ∧ wm_focused_id (focus_window m id) = Some id.
Proof.
  intros [[Hnd _ _ _] _] Hw <-. rewrite focus_window_unfold.
  assert (Hg : geometry <$> unfocused m = geometry <$> wm_windows m).
  { unfold unfocused. destruct (wm_focused_id m); [apply update_first_geometry|done]. }
  assert (Hin : geometry w ∈ geometry <$> unfocused m) by (rewrite Hg; by apply list_elem_of_fmap_2).
  apply list_elem_of_fmap in Hin as (u & Hu & Hin).
  assert (Hid : w_id u = w_id w) by (by injection Hu).
  assert (E : find_first (has_id (w_id w)) (unfocused m) = Some u).
  { rewrite <- Hid. apply (find_by_id (mkWm (unfocused m) 0 None)); [|done]. cbn. by rewrite unfocused_ids. }
  rewrite E. cbn. do 2 eexists. split; [done|]. by split.
Qed.

(** The focused window is the last one. *)
Lemma focused_last m w : wm_wf m → w ∈ wm_windows m → wm_focused_id m = Some (w_id w) → ∃ ws, wm_windows m = ws ++ [w].
Proof.
  intros [[Hnd _ _ _] Ht] Hw Hf. rewrite Hf in Ht. destruct (wm_windows m) as [|v l] using rev_ind; [done|].
  rewrite fmap_app in *. cbn in Ht, Hnd. rewrite last_snoc in Ht. injection Ht as Ht. exists l.
  apply elem_of_app in Hw as [Hw|Hw%list_elem_of_singleton]; [|by subst]. exfalso.
  apply NoDup_app in Hnd as (_ & Hnd & _). apply (Hnd (w_id w)); [by apply list_elem_of_fmap_2|]. rewrite Ht. left.
Qed.

(** What happens once the clicked window is on top. *)
Definition click_close (c : Compositor) (id x y : Z) : Compositor :=
  match find_first (has_id id) (wm_windows (co_wm c)) with
  | Some w => if on_close w x y then set_wm c (close_window (co_wm c) id) true else c
  | None => c
  end.

Lemma click_close_spec c v ws w x y : wm_wf (co_wm c) → wm_windows (co_wm c) = ws ++ [v] → geometry v = geometry w →
  wm_focused_id (co_wm c) = Some (w_id w) →
  let m' := co_wm (click_close c (w_id w) x y) in
  if on_close w x y then w_id w ∉ (w_id <$> wm_windows m')
  else ∃ ws v, wm_windows m' = ws ++ [v] ∧ geometry v = geometry w ∧ wm_focused_id m' = Some (w_id w).
Proof.
  intros [[Hnd _ _ _] _] Hl Hg Hf. unfold click_close.
  assert (Hid : w_id v = w_id w) by (by injection Hg).
  assert (E : find_first (has_id (w_id w)) (wm_windows (co_wm c)) = Some v).
  { rewrite <- Hid. apply find_by_id; [done|]. rewrite Hl. set_solver. }
  rewrite E, (on_close_geometry v w x y Hg).
  cbn zeta. destruct (on_close w x y); [|by exists ws, v]. cbn. intros (u & Hu & Hin)%list_elem_of_fmap.
  apply list_elem_of_filter in Hin as [Hne _]. congruence.
Qed.

(** A click goes to the topmost visible window under it.  If there is none,
    nothing changes; otherwise the window ends up on top and focused, unless
    the click is on its close button, in which case no window with its
    identifier is left. *)
Theorem click_reaches_top m c x y : wm_reach m → co_wm c = m →
  match window_at m x y with
  | None => handle_click c x y = c
  | Some id =>
      ∃ below w above, wm_windows m = below ++ w :: above ∧ w_id w = id ∧ w_visible w = true ∧ win_contains w x y = true ∧
        Forall (λ v, w_visible v && win_contains v x y = false) above ∧
        let m' := co_wm (handle_click c x y) in
        if on_close w x y then id ∉ (w_id <$> wm_windows m')
        else ∃ ws v, wm_windows m' = ws ++ [v] ∧ geometry v = geometry w ∧ wm_focused_id m' = Some id
  end.
Proof.
  intros Hwf%wm_reach_wf Hm. destruct (window_at m x y) as [id|] eqn:E.
  2: { unfold handle_click. by rewrite Hm, E. }
  destruct (window_at_top m x y id E) as (below & w & above & Hl & Hid & Hv & Hc & Ha).
  exists below, w, above. split_and!; [done..|]. assert (Hw : w ∈ wm_windows m) by (rewrite Hl; set_solver).
  subst id. unfold handle_click. rewrite Hm, E. case_bool_decide as Hf.
  - destruct (focused_last m w Hwf Hw Hf) as [ws Hws].
    change (let m' := co_wm (click_close c (w_id w) x y) in
      if on_close w x y then w_id w ∉ (w_id <$> wm_windows m')
      else ∃ ws v, wm_windows m' = ws ++ [v] ∧ geometry v = geometry w ∧ wm_focused_id m' = Some (w_id w)).
    apply (click_close_spec c w ws); by rewrite ?Hm.
  - destruct (focus_geometry m (w_id w) w Hwf Hw eq_refl) as (ws & v & Hws & Hg & Hf').
    change (let m' := co_wm (click_close (set_wm c (focus_window m (w_id w)) true) (w_id w) x y) in
      if on_close w x y then w_id w ∉ (w_id <$> wm_windows m')
      else ∃ ws v, wm_windows m' = ws ++ [v] ∧ geometry v = geometry w ∧ wm_focused_id m' = Some (w_id w)).
    by apply (click_close_spec _ v ws); [apply focus_window_wf|..].
Qed.

(** A click on the part of the second window that sticks out. *)
Lemma click_reaches_top_witness :
  wm_reach demo_wm ∧ wm_focused_id (co_wm (handle_click (set_wm (Compositor_new demo_fb) demo_wm false) 120 120)) = Some 2.
Proof.
  assert (H : wm_reach demo_wm) by (repeat constructor). split; [exact H|].
  pose proof (click_reaches_top demo_wm (set_wm (Compositor_new demo_fb) demo_wm false) 120 120 H eq_refl) as Hc.
  assert (E : window_at demo_wm 120 120 = Some 2) by (vm_compute; reflexivity). rewrite E in Hc.
  destruct Hc as (below & w & above & Hl & Hid & _ & _ & _ & Hc).
  assert (Hw : w = set_focused false (Window_new 2 [66] 50 50 100 100)).
  { assert (Hd : wm_windows demo_wm = [set_focused false (Window_new 2 [66] 50 50 100 100); set_focused true (Window_new 1 [65] 0 0 100 100)])
      by (vm_compute; reflexivity).
    rewrite Hd in Hl. destruct below as [|? [|? [|??]]]; cbn in Hl; simplify_eq; reflexivity. }
  rewrite Hw in Hc. destruct Hc as (ws & v & _ & _ & Hf). exact Hf.
Defined.

(** ** The cursor *)

Definition cell_index (rc : Z * Z) : nat := Z.to_nat (rc.1 * 16 + rc.2).

Lemma elem_of_region rc : rc ∈ region ↔ 0 ≤ rc.1 < 16 ∧ 0 ≤ rc.2 < 16.
Proof.
  destruct rc as [r c]. unfold region. rewrite list_elem_of_bind. setoid_rewrite list_elem_of_bind.
  setoid_rewrite list_elem_of_singleton. setoid_rewrite elem_of_seqZ. cbn. split; [intros (y' & (x' & [= -> ->] & ?) & ?); lia|].
  intros [? ?]. exists r. split; [|lia]. exists c. split; [done|lia].
Qed.

Lemma cell_index_inj rc rc' : rc ∈ region → rc' ∈ region → cell_index rc = cell_index rc' → rc = rc'.
Proof.
  destruct rc as [r c], rc' as [r' c']. rewrite !elem_of_region. unfold cell_index. cbn. intros ? ? E%Z2Nat.inj; [|lia..].
  f_equal; lia.
Qed.

(** The 256 cells are never enumerated below. *)
#[local] Opaque region.

(** The saved region, one cell at a time. *)
Definition save_cells (fb : Framebuffer) (px : Pixels) (x y : Z) (saved : list Z) (cs : list (Z * Z)) : list Z :=
  foldl (λ saved rc,
    match region_pixel fb x y rc with
    | Some a => <[Z.to_nat (rc.1 * 16 + rc.2) := default 0 (px !! a)]> saved
    | None => saved
    end) saved cs.

Lemma save_cells_lookup fb px x y saved cs rc a : length saved = 256%nat → cs ⊆ region → rc ∈ cs →
  region_pixel fb x y rc = Some a → save_cells fb px x y saved cs !!! cell_index rc = default 0 (px !! a).
Proof.
  revert saved. induction cs as [|rc' cs IH] using rev_ind; intros saved Hl Hsub Hin Ha; [by apply elem_of_nil in Hin|].
  unfold save_cells. rewrite foldl_snoc.
  assert (Hlen : length (save_cells fb px x y saved cs) = 256%nat).
  { clear -Hl. revert saved Hl. induction cs as [|q cs IH]; intros saved Hl; [done|]. cbn. apply IH. case_match; [by rewrite length_insert|done]. }
  change (foldl _ saved cs) with (save_cells fb px x y saved cs).
  destruct (decide (rc' = rc)) as [->|Hne].
  - rewrite Ha. apply list_lookup_total_insert_eq. rewrite Hlen.
    assert (Hr : rc ∈ region) by (apply Hsub; set_solver). apply elem_of_region in Hr. lia.
  - assert (Hin' : rc ∈ cs) by (apply elem_of_app in Hin as [?|?%list_elem_of_singleton]; [done|congruence]).
    assert (Hsub' : cs ⊆ region) by set_solver.
    destruct (region_pixel fb x y rc') as [a'|]; [|by apply IH].
    rewrite list_lookup_total_insert_ne; [by apply IH|]. intros E. apply Hne. apply cell_index_inj; [set_solver..|done].
Qed.

(** A store for each cell of the region whose pixel is on the screen. *)
Lemma restore_pokes fb px c : cu_has_saved c = true →
  restore_region fb px c =
  pokes px (omap (λ rc, a ← region_pixel fb (cu_saved_x c) (cu_saved_y c) rc; Some (a, cu_saved_region c !!! cell_index rc)) region).
Proof.
  intros Hs. unfold restore_region. rewrite Hs. revert px. induction region as [|rc l IH]; intros px; [done|]. cbn.
  destruct (region_pixel _ _ _ rc); cbn; apply IH.
Qed.

Lemma restore_lookup fb px c a : cu_has_saved c = true →
  (∀ rc, rc ∈ region → region_pixel fb (cu_saved_x c) (cu_saved_y c) rc ≠ Some a) →
  restore_region fb px c !! a = px !! a.
Proof.
  intros Hs H. rewrite restore_pokes by done. apply pokes_miss. intros v (rc & Hrc & E)%list_elem_of_omap.
  destruct (region_pixel _ _ _ rc) as [a'|] eqn:Ea; [|done]. cbn in E. simplify_eq. by apply (H rc).
Qed.

(** What the cursor covers lies in the region that was saved. *)
Lemma shape_region row col pixel : (row, col, pixel) ∈ shape_cells → (row, col) ∈ region.
Proof.
  intros H. apply elem_of_region. cbn.
  assert (Hall : forallb (λ '(r, c, _), (0 <=? r) && (r <? 16) && (0 <=? c) && (c <? 16)) shape_cells = true) by (vm_compute; reflexivity).
  rewrite forallb_forall in Hall. apply list_elem_of_In in H. specialize (Hall _ H). cbn in Hall.
  rewrite !andb_true_iff, !Z.leb_le, !Z.ltb_lt in Hall. lia.
Qed.

Lemma draw_cursor_lookup fb px c a :
  (∀ rc, rc ∈ region → region_pixel fb (cu_x c) (cu_y c) rc ≠ Some a) → draw_cursor fb px c !! a = px !! a.
Proof.
  intros H. unfold draw_cursor. apply (foldl_preserves (λ p : Pixels, p !! a = px !! a)); [done|].
  intros p [[row col] pixel] Hin%shape_region Hp. cbn zeta.
  destruct (_ && _) eqn:E; [|done]. specialize (H _ Hin). unfold region_pixel in H. cbn [fst snd] in H. rewrite E in H.
  destruct (pixel =? 1), (pixel =? 2); try done;
    (unfold u_draw_pixel, store; destruct (_ || _); [done|]; rewrite lookup_insert_ne; [done|congruence]).
Qed.

(** Saving, drawing the cursor and restoring is seen by no one. *)
Lemma cursor_roundtrip fb px c : length (cu_saved_region c) = 256%nat →
  same_picture (restore_region fb (draw_cursor fb px (save_region fb px c)) (save_region fb px c)) px.
Proof.
  intros Hl a. set (c' := save_region fb px c).
  assert (Hsaved : cu_saved_region c' = save_cells fb px (cu_x c) (cu_y c) (cu_saved_region c) region) by reflexivity.
  destruct (decide (Exists (λ rc, region_pixel fb (cu_x c) (cu_y c) rc = Some a) region)) as [(rc & Hrc & Ha)%Exists_exists|Hno].
  - rewrite restore_pokes by reflexivity. cbn [cu_saved_x cu_saved_y c' save_region].
    rewrite (pokes_hit _ _ a (default 0 (px !! a))); [done| |].
    + apply list_elem_of_omap. exists rc. split; [done|]. rewrite Ha. cbn [mbind option_bind]. do 2 f_equal.
      rewrite Hsaved. by apply (save_cells_lookup fb px _ _ _ region).
    + intros w (rc' & Hrc' & E)%list_elem_of_omap. destruct (region_pixel fb (cu_x c) (cu_y c) rc') as [a'|] eqn:Ea'; [|done].
      cbn [mbind option_bind] in E. rewrite Hsaved in E. apply (inj Some), (inj2 pair) in E as [-> <-]. by apply (save_cells_lookup fb px _ _ _ region).
  - assert (Hno' : ∀ rc, rc ∈ region → region_pixel fb (cu_x c) (cu_y c) rc ≠ Some a) by (intros rc Hrc E; apply Hno, Exists_exists; eauto).
    rewrite restore_lookup; [|reflexivity|exact Hno']. rewrite draw_cursor_lookup; [reflexivity|exact Hno'].
Qed.

Lemma save_region_length fb px c : length (cu_saved_region c) = 256%nat → length (cu_saved_region (save_region fb px c)) = 256%nat.
Proof.
  intros Hl. cbn. apply (foldl_preserves (λ s : list Z, length s = 256%nat)); [done|].
  intros s rc _ Hs. case_match; [by rewrite length_insert|done].
Qed.

(** The picture under the cursor. *)
Definition background (c : Compositor) (px : Pixels) : Pixels := restore_region (co_fb c) px (co_cursor c).

Record cursor_ok (c : Compositor) : Prop := {
  ck_width : 1 ≤ fb_width (co_fb c) < 2 ^ 31;
  ck_height : 1 ≤ fb_height (co_fb c) < 2 ^ 31;
  ck_x : 0 ≤ cu_x (co_cursor c) < fb_width (co_fb c);
  ck_y : 0 ≤ cu_y (co_cursor c) < fb_height (co_fb c);
  ck_region : length (cu_saved_region (co_cursor c)) = 256%nat;
}.

Lemma i32_small x : - 2 ^ 31 ≤ x < 2 ^ 31 → i32 x = x.
Proof.
  intros H. unfold i32, to_signed, wrap. change (2 ^ (32 - 1)) with (2 ^ 31). destruct (decide (0 ≤ x)).
  - rewrite Z.mod_small by lia. destruct (Z.leb_spec (2 ^ 31) x); lia.
  - rewrite <- (Z.mod_unique x (2 ^ 32) (-1) (x + 2 ^ 32)) by lia. destruct (Z.leb_spec (2 ^ 31) (x + 2 ^ 32)); lia.
Qed.

Lemma clamp_range v hi : 0 ≤ hi → ∃ r, clamp v 0 hi = Some r ∧ 0 ≤ r ≤ hi.
Proof. intros. unfold clamp. destruct (Z.ltb_spec hi 0); [lia|]. eexists. split; [done|]. lia. Qed.

Lemma handle_click_kept c x y : co_cursor (handle_click c x y) = co_cursor c ∧ co_fb (handle_click c x y) = co_fb c.
Proof.
  unfold handle_click. destruct (window_at _ _ _); [|done]. case_bool_decide; destruct (find_first _ _); try done; by case_match.
Qed.

Lemma mouse_event_spec c px prev e : cursor_ok c →
  ∃ c' px' prev', mouse_event c px prev e = Some (c', px', prev') ∧ co_fb c' = co_fb c ∧ cursor_ok c' ∧
    same_picture (background c' px') (background c px).
Proof.
  intros [Hw Hh Hx Hy Hr]. unfold mouse_event, apply_delta. unfold u32. rewrite !wrap_small by (unfold in_range; lia).
  rewrite !(i32_small (_ - 1)) by lia.
  destruct (clamp_range (i32 (cu_x (co_cursor c) + lme_dx e)) (fb_width (co_fb c) - 1)) as (x & -> & Hxr); [lia|].
  cbn [mbind option_bind].
  destruct (clamp_range (i32 (cu_y (co_cursor c) - lme_dy e)) (fb_height (co_fb c) - 1)) as (y & -> & Hyr); [lia|].
  cbn [mbind option_bind].
  set (cu := mkCursor x y (cu_saved_region (co_cursor c)) (cu_saved_x (co_cursor c)) (cu_saved_y (co_cursor c)) (cu_has_saved (co_cursor c))).
  set (c1 := set_cursor_state c cu).
  set (c2 := if lme_left e && negb prev then handle_click c1 (cu_x cu) (cu_y cu) else c1).
  assert (Hc2 : co_cursor c2 = cu ∧ co_fb c2 = co_fb c).
  { unfold c2. destruct (_ && _); [|done]. destruct (handle_click_kept c1 (cu_x cu) (cu_y cu)) as [-> ->]. done. }
  destruct Hc2 as [Hc Hf]. do 3 eexists. split; [reflexivity|]. rewrite Hc. split; [exact Hf|]. split.
  - split; cbn [co_fb co_cursor set_cursor_state]; rewrite ?Hf; [done..|cbn; lia|cbn; lia|by apply save_region_length].
  - unfold background at 1. cbn [co_fb co_cursor set_cursor_state]. rewrite Hf. by apply cursor_roundtrip.
Qed.

(** Events in turn. *)
Fixpoint mouse_events (c : Compositor) (px : Pixels) (prev : bool) (es : list LibMouseEvent) : option (Compositor * Pixels * bool) :=
  match es with
  | [] => Some (c, px, prev)
  | e :: es => '(c, px, prev) ← mouse_event c px prev e; mouse_events c px prev es
  end.

(** The mouse does not damage the picture.  On a screen of at least one pixel
    and less than 2^31 in each direction, any sequence of movements and clicks
    is handled without a panic, the cursor stays on the screen, and what is
    seen once the cursor is taken away is what would have been seen before. *)
Theorem mouse_preserves_picture c px prev es : cursor_ok c →
  ∃ c' px' prev', mouse_events c px prev es = Some (c', px', prev') ∧
    0 ≤ cu_x (co_cursor c') < fb_width (co_fb c) ∧ 0 ≤ cu_y (co_cursor c') < fb_height (co_fb c) ∧
    same_picture (background c' px') (background c px).
Proof.
  revert c px prev. induction es as [|e es IH]; intros c px prev Hok.
  { exists c, px, prev. destruct Hok. split_and!; try lia; reflexivity. }
  destruct (mouse_event_spec c px prev e Hok) as (c1 & px1 & prev1 & E & Hf & Hok1 & Hb).
  destruct (IH c1 px1 prev1 Hok1) as (c2 & px2 & prev2 & E2 & Hx & Hy & Hb2).
  exists c2, px2, prev2. cbn. rewrite E. cbn. split; [exact E2|]. rewrite Hf in Hx, Hy. split_and!; [lia..|]. by rewrite Hb2.
Qed.

Definition demo_desktop : Compositor := Compositor_new demo_fb.

Lemma mouse_preserves_picture_witness :
  let es := [mkLibMouseEvent 5 (-3) true false false; mkLibMouseEvent (-100) 7 false false false] in
  cursor_ok demo_desktop ∧
  ∃ c' px' prev', mouse_events demo_desktop {[ 0x80000000 := 7 ]} false es = Some (c', px', prev') ∧
    0 ≤ cu_x (co_cursor c') < 40 ∧ 0 ≤ cu_y (co_cursor c') < 20 ∧
    same_picture (background c' px') (background demo_desktop {[ 0x80000000 := 7 ]}).
Proof.
  cbn zeta. assert (H : cursor_ok demo_desktop) by (split; vm_compute; intuition discriminate || reflexivity).
  split; [exact H|]. exact (mouse_preserves_picture demo_desktop _ false _ H).
Defined.

(** ** Staying on the screen *)

Lemma region_pixel_frame fb x y rc a : fb_wf fb → region_pixel fb x y rc = Some a → in_frame fb a.
Proof.
  intros Hwf. unfold region_pixel. destruct (_ && _) eqn:E; [|done]. intros [= <-].
  apply andb_prop in E as [E1%Z.ltb_lt E2%Z.ltb_lt]. destruct (fw_width _ Hwf).
  destruct (pixel_offset_spec fb (u32 (u32 x + rc.2)) (u32 (u32 y + rc.1))) as [-> Hr]; [done|split; [apply wrap32_nonneg|lia]..|].
  by eexists.
Qed.

Lemma restore_confined fb px c : fb_wf fb → confined fb px (restore_region fb px c).
Proof.
  intros Hwf a Ha. destruct (cu_has_saved c) eqn:Hs; [|unfold restore_region; by rewrite Hs].
  apply restore_lookup; [done|]. intros rc _ E. apply Ha. exact (region_pixel_frame fb _ _ rc a Hwf E).
Qed.

Lemma draw_cursor_confined fb px c : fb_wf fb → confined fb px (draw_cursor fb px c).
Proof.
  intros Hwf a Ha. apply draw_cursor_lookup. intros rc _ E. apply Ha. exact (region_pixel_frame fb _ _ rc a Hwf E).
Qed.

Lemma draw_panel_confined fb px : fb_wf fb → confined fb px (draw_panel fb px).
Proof. intros Hwf. unfold draw_panel. stay. Qed.

Lemma draw_window_confined fb px w : fb_wf fb → confined fb px (draw_window fb px w).
Proof. intros Hwf. unfold draw_window, u32. stay. Qed.

Lemma draw_dock_confined fb px : fb_wf fb → confined fb px (draw_dock fb px).
Proof.
  intros Hwf. unfold draw_dock, u32. cbv zeta. etrans; [|apply confined_foldl].
  - stay.
  - intros p [i [color label]] _. stay.
Qed.

(** The desktop stays on the screen.  Drawing the whole desktop, and handling
    any sequence of mouse events, writes no memory outside the frame, wherever
    the windows and the cursor are. *)
Theorem desktop_confined c px prev es : fb_wf (co_fb c) →
  confined (co_fb c) px (draw_all c px).2 ∧
  ∀ c' px' prev', mouse_events c px prev es = Some (c', px', prev') → confined (co_fb c) px px'.
Proof.
  intros Hwf. split.
  - unfold draw_all. cbn [snd]. etrans; [|by apply draw_cursor_confined]. etrans; [|by apply draw_dock_confined].
    etrans; [|apply confined_foldl; intros p w _; case_match; [by apply draw_window_confined|done]].
    etrans; [|by apply draw_panel_confined]. stay. by apply restore_confined.
  - revert c px prev Hwf. induction es as [|e es IH]; intros c px prev Hwf c' px' prev'; [by intros [= <- <- <-]|].
    cbn. unfold mouse_event. destruct (apply_delta _ _ _ _ _) as [cu|]; [|done]. cbn [mbind option_bind].
    set (c2 := if lme_left e && negb prev then _ else _).
    assert (Hf : co_fb c2 = co_fb c).
    { unfold c2. destruct (_ && _); [|done]. by destruct (handle_click_kept (set_cursor_state c cu) (cu_x cu) (cu_y cu)) as [_ ->]. }
    intros H. apply IH in H; [|cbn; by rewrite Hf]. cbn [co_fb set_cursor_state] in H. rewrite Hf in H.
    etrans; [|exact H]. etrans; [|by apply draw_cursor_confined]. by apply restore_confined.
Qed.

Lemma desktop_confined_witness :
  fb_wf (co_fb demo_desktop) ∧ ¬ in_frame demo_fb 0x80001400 ∧
  (draw_all demo_desktop ∅).2 !! 0x80001400 = None.
Proof.
  assert (Hn : ¬ in_frame demo_fb 0x80001400).
  { intros (i & Hi & E). cbn in Hi, E. lia. }
  split; [exact demo_fb_wf|]. split; [exact Hn|].
  exact (proj1 (desktop_confined demo_desktop ∅ false [] demo_fb_wf) 0x80001400 Hn).
Defined.
