(* ===== verification/Gui.v ===== *)
(** * The GUI library: events and applications

    [libs/libgui/src/event.rs] and [application.rs]: the events an application
    receives, its queue and its polling.  Surfaces are in [Canvas]. *)

From Stdlib Require Import Ascii.
From S2P Require Import Prelude Thread Input Vm Kernel Syscall LibIpc UserLib Keys.

Record GuiKey := mkGuiKey { gk_scancode : Z; gk_character : Z; gk_pressed : bool; gk_modifiers : KeyModifiers }.

Definition is_printable (e : GuiKey) : bool := (0x20 <=? gk_character e) && (gk_character e <? 0x7F).
Definition as_char (e : GuiKey) : option Z := if is_printable e then Some (gk_character e) else None.

Inductive GuiButton := GbLeft | GbRight | GbMiddle.

Inductive GuiMouse :=
| GmMove (x y dx dy : Z)
| GmButtonDown (button : GuiButton) (x y : Z)
| GmButtonUp (button : GuiButton) (x y : Z)
| GmScroll (delta x y : Z).

Definition gm_position (e : GuiMouse) : Z * Z :=
  match e with GmMove x y _ _ => (x, y) | GmButtonDown _ x y => (x, y) | GmButtonUp _ x y => (x, y) | GmScroll _ x y => (x, y) end.

Inductive GuiWindowEvent :=
| GwResize (width height : Z)
| GwMove (x y : Z)
| GwFocus
| GwUnfocus
| GwClose
| GwExpose (x y width height : Z).

Inductive GuiEvent :=
| GeKey (e : GuiKey)
| GeMouse (e : GuiMouse)
| GeWindow (e : GuiWindowEvent)
| GeRedraw
| GeQuit
| GeNone.

(** ** Applications *)

Record Application := mkApp { app_event_port : option Z; app_event_queue : list GuiEvent; app_quit_requested : bool }.

Definition Application_new : Application := mkApp None [] false.
Definition app_quit (a : Application) : Application := mkApp (app_event_port a) (app_event_queue a) true.
Definition push_event (a : Application) (e : GuiEvent) : Application :=
  mkApp (app_event_port a) (app_event_queue a ++ [e]) (app_quit_requested a).

(** The table of [application.rs], for presses. *)
Definition gui_scancode_to_ascii (scancode : Z) : Z :=
  if is_release scancode then 0
  else
  match scancode with
  | 0x02 => chr "1"
  | 0x03 => chr "2"
  | 0x04 => chr "3"
  | 0x05 => chr "4"
  | 0x06 => chr "5"
  | 0x07 => chr "6"
  | 0x08 => chr "7"
  | 0x09 => chr "8"
  | 0x0A => chr "9"
  | 0x0B => chr "0"
  | 0x0C => chr "-"
  | 0x0D => chr "="
  | 0x0E => 0x08
  | 0x0F => 9
  | 0x10 => chr "q"
  | 0x11 => chr "w"
  | 0x12 => chr "e"
  | 0x13 => chr "r"
  | 0x14 => chr "t"
  | 0x15 => chr "y"
  | 0x16 => chr "u"
  | 0x17 => chr "i"
  | 0x18 => chr "o"
  | 0x19 => chr "p"
  | 0x1A => chr "["
  | 0x1B => chr "]"
  | 0x1C => 10
  | 0x1E => chr "a"
  | 0x1F => chr "s"
  | 0x20 => chr "d"
  | 0x21 => chr "f"
  | 0x22 => chr "g"
  | 0x23 => chr "h"
  | 0x24 => chr "j"
  | 0x25 => chr "k"
  | 0x26 => chr "l"
  | 0x27 => chr ";"
  | 0x28 => 39
  | 0x29 => chr "`"
  | 0x2B => 92
  | 0x2C => chr "z"
  | 0x2D => chr "x"
  | 0x2E => chr "c"
  | 0x2F => chr "v"
  | 0x30 => chr "b"
  | 0x31 => chr "n"
  | 0x32 => chr "m"
  | 0x33 => chr ","
  | 0x34 => chr "."
  | 0x35 => chr "/"
  | 0x39 => chr " "
  | _ => 0
  end.

(** [poll_event]; [event_queue.pop()] takes the last event pushed, and [key]
    is what polling the keyboard returns: [poll_keyboard], which the code calls,
    is not a function of the system call library. *)
Definition app_poll_event (a : Application) (key : option Z) : Application * GuiEvent :=
  if app_quit_requested a then (a, GeQuit)
  else
    match last (app_event_queue a) with
    | Some e => (mkApp (app_event_port a) (take (length (app_event_queue a) - 1) (app_event_queue a)) (app_quit_requested a), e)
    | None =>
        match key with
        | Some scancode =>
            (a, GeKey (mkGuiKey scancode (gui_scancode_to_ascii scancode) (Z.land scancode 0x80 =? 0)
                         (mkModifiers false false false false)))
        | None => (a, GeNone)
        end
    end.

(** ** Properties *)

(** The application's table is the driver's without shift and caps lock, the
    escape key apart. *)
Lemma gui_layout code : 0 ≤ code < 128 → code ≠ 1 → gui_scancode_to_ascii code = driver_translate code false false.
Proof.
  intros Hc Hne. assert (H : forallb (λ c, (c =? 1) || (gui_scancode_to_ascii c =? driver_translate c false false)) (seqZ 0 128) = true)
    by (vm_compute; reflexivity).
  rewrite forallb_forall in H. specialize (H code). rewrite orb_true_iff, !Z.eqb_eq in H.
  destruct H as [?|?]; [|done|done]. apply list_elem_of_In, elem_of_seqZ. lia.
Qed.

(** Events come out in the reverse of the order they were pushed in. *)
Lemma app_events_reversed a events key : app_quit_requested a = false → app_event_queue a = [] →
  (fix poll (n : nat) (a : Application) : list GuiEvent :=
     match n with O => [] | S n => let '(a, e) := app_poll_event a key in e :: poll n a end)
    (length events) (foldl push_event a events) = reverse events.
Proof.
  intros Hq He. assert (H : foldl push_event a events = mkApp (app_event_port a) events false).
  { rewrite <- (app_nil_l events) at 2. rewrite <- He, <- Hq. clear Hq He. revert a.
    induction events as [|e events IH]; intros a; cbn; [by rewrite app_nil_r; destruct a|]. rewrite IH. cbn. by rewrite <- (assoc_L (++)). }
  rewrite H. clear H He. induction events as [|e events IH] using rev_ind; [done|].
  rewrite length_app, Nat.add_1_r, reverse_snoc. unfold app_poll_event at 1. cbn [app_quit_requested app_event_queue].
  rewrite last_snoc. cbn [app_event_port app_quit_requested]. rewrite length_app. cbn [length].
  replace (length events + 1 - 1)%nat with (length events) by lia. rewrite take_app_length. f_equal. exact IH.
Qed.
