(* ===== verification/TermWindow.v ===== *)
(** * Terminal: window and rendering ([drivers/terminal/src/window.rs])

    The geometry of the window, its frame, and the drawing of cells, rows and
    the cursor through the framebuffer handle of [Canvas].  Sizes are [u32] and
    wrap. *)

From S2P Require Import Prelude Graphics Canvas TermBuffer.

(** ** Theme *)

Definition WINDOW_BORDER : Color := mkColor 60 60 60.
Definition TITLE_BAR_BG : Color := mkColor 45 45 45.
Definition TITLE_BAR_TEXT : Color := mkColor 200 200 200.
Definition TEXT_DIM : Color := mkColor 128 128 128.
Definition TEXT_ERROR : Color := mkColor 255 100 100.
Definition TEXT_SUCCESS : Color := mkColor 100 255 100.
Definition TEXT_INFO : Color := mkColor 100 180 255.
Definition TEXT_WARNING : Color := mkColor 255 200 100.
Definition PROMPT_USER : Color := mkColor 136 192 208.
Definition PROMPT_PATH : Color := mkColor 163 190 140.
Definition PROMPT_SYMBOL : Color := mkColor 180 142 173.
Definition CURSOR_BG : Color := mkColor 200 200 200.

(** ** Geometry *)

Record WindowConfig := mkConfig {
  wc_x : Z;
  wc_y : Z;
  wc_width : Z;
  wc_height : Z;
  wc_title_bar_height : Z;
  wc_border_width : Z;
  wc_padding : Z;
  wc_char_width : Z;
  wc_char_height : Z;
}.

Definition WindowConfig_new : WindowConfig := mkConfig 80 60 640 400 24 1 8 8 8.

Definition content_x (c : WindowConfig) : Z := wrap32 (wc_x c + wc_border_width c + wc_padding c).
Definition content_y (c : WindowConfig) : Z := wrap32 (wc_y c + wc_title_bar_height c + wc_padding c).
Definition content_width (c : WindowConfig) : Z := wrap32 (wc_width c - 2 * wc_border_width c - 2 * wc_padding c).
Definition content_height (c : WindowConfig) : Z :=
  wrap32 (wc_height c - wc_title_bar_height c - 2 * wc_padding c - wc_border_width c).

Definition cols (c : WindowConfig) : Z := content_width c / wc_char_width c.
Definition rows (c : WindowConfig) : Z := content_height c / wc_char_height c.

Record TerminalWindow := mkTermWindow { tw_config : WindowConfig; tw_title : list Z; tw_needs_full_redraw : bool }.

Definition TerminalWindow_new (title : list Z) : TerminalWindow := mkTermWindow WindowConfig_new title true.

(** ** Drawing *)

Definition clear_content (cfg : WindowConfig) (fb : Framebuffer) (px : Pixels) : Pixels :=
  u_fill_rect fb px (wrap32 (wc_x cfg + wc_border_width cfg)) (wrap32 (wc_y cfg + wc_title_bar_height cfg))
    (wrap32 (wc_width cfg - 2 * wc_border_width cfg))
    (wrap32 (wc_height cfg - wc_title_bar_height cfg - wc_border_width cfg)) WINDOW_BG.

Definition draw_frame (w : TerminalWindow) (fb : Framebuffer) (px : Pixels) : Pixels :=
  let cfg := tw_config w in
  let px := u_fill_rect fb px (wrap32 (wc_x cfg + 4)) (wrap32 (wc_y cfg + 4)) (wc_width cfg) (wc_height cfg) (mkColor 0 0 0) in
  let px := u_fill_rect fb px (wc_x cfg) (wc_y cfg) (wc_width cfg) (wc_height cfg) WINDOW_BORDER in
  let px :=
    u_fill_rect fb px (wrap32 (wc_x cfg + wc_border_width cfg)) (wrap32 (wc_y cfg + wc_border_width cfg))
      (wrap32 (wc_width cfg - 2 * wc_border_width cfg)) (wrap32 (wc_title_bar_height cfg - wc_border_width cfg)) TITLE_BAR_BG in
  let px :=
    u_draw_string fb px (wrap32 (wc_x cfg + wc_padding cfg + wc_border_width cfg))
      (wrap32 (wc_y cfg + wrap32 (wc_title_bar_height cfg - wc_char_height cfg) / 2)) (tw_title w) TITLE_BAR_TEXT TITLE_BAR_BG in
  let button_y := wrap32 (wc_y cfg + wrap32 (wc_title_bar_height cfg - 12) / 2) in
  let button_x := wrap32 (wc_x cfg + wc_width cfg - wc_padding cfg - 12 - wc_border_width cfg) in
  let px := u_fill_rect fb px button_x button_y 12 12 (mkColor 255 95 86) in
  let px := u_fill_rect fb px (wrap32 (button_x - 18)) button_y 12 12 (mkColor 255 189 46) in
  let px := u_fill_rect fb px (wrap32 (button_x - 36)) button_y 12 12 (mkColor 39 201 63) in
  clear_content cfg fb px.

(** The corner of a character cell. *)
Definition cell_x (cfg : WindowConfig) (col : Z) : Z := wrap32 (content_x cfg + col * wc_char_width cfg).
Definition cell_y (cfg : WindowConfig) (row : Z) : Z := wrap32 (content_y cfg + row * wc_char_height cfg).

Definition tw_draw_char (cfg : WindowConfig) (fb : Framebuffer) (px : Pixels) (row col ch : Z) (fg bg : Color) : Pixels :=
  let x := cell_x cfg col in
  let y := cell_y cfg row in
  let px := u_fill_rect fb px x y (wc_char_width cfg) (wc_char_height cfg) bg in
  u_draw_char fb px x y ch fg bg.

Definition tw_draw_text (cfg : WindowConfig) (fb : Framebuffer) (px : Pixels) (row col : Z) (text : list Z) (fg bg : Color) : Pixels :=
  u_draw_string fb px (cell_x cfg col) (cell_y cfg row) text fg bg.

Definition tw_draw_cursor (cfg : WindowConfig) (fb : Framebuffer) (px : Pixels) (row col : Z) : Pixels :=
  u_fill_rect fb px (cell_x cfg col) (cell_y cfg row) (wc_char_width cfg) (wc_char_height cfg) CURSOR_BG.

Definition draw_char_with_cursor (cfg : WindowConfig) (fb : Framebuffer) (px : Pixels) (row col ch : Z) : Pixels :=
  let x := cell_x cfg col in
  let y := cell_y cfg row in
  let px := u_fill_rect fb px x y (wc_char_width cfg) (wc_char_height cfg) CURSOR_BG in
  u_draw_char fb px x y ch WINDOW_BG CURSOR_BG.

Definition clear_row (cfg : WindowConfig) (fb : Framebuffer) (px : Pixels) (row : Z) : Pixels :=
  u_fill_rect fb px (content_x cfg) (cell_y cfg row) (content_width cfg) (wc_char_height cfg) WINDOW_BG.

Definition clear_to_eol (cfg : WindowConfig) (fb : Framebuffer) (px : Pixels) (row col : Z) : Pixels :=
  let remaining_width := saturating_sub (content_width cfg) (wrap32 (col * wc_char_width cfg)) in
  u_fill_rect fb px (cell_x cfg col) (cell_y cfg row) remaining_width (wc_char_height cfg) WINDOW_BG.

(** The pixel copies of [scroll_region], without any check against the screen. *)
Definition copy_pixel (fb : Framebuffer) (px : Pixels) (src_y dst_y x : Z) : Pixels :=
  let src := fb_address fb + wrap32 (wrap32 (src_y * fb_stride fb) + x) * fb_bytes_per_pixel fb in
  let dst := fb_address fb + wrap32 (wrap32 (dst_y * fb_stride fb) + x) * fb_bytes_per_pixel fb in
  <[dst := default 0 (px !! src)]> px.

Definition scroll_region (cfg : WindowConfig) (fb : Framebuffer) (px : Pixels) (lines : Z) : Pixels :=
  let total_rows := rows cfg in
  if (lines =? 0) || (total_rows <=? lines) then clear_content cfg fb px
  else
    let remaining_rows := total_rows - lines in
    let px :=
      foldl (λ px row,
        let src_y := wrap32 (content_y cfg + (row + lines) * wc_char_height cfg) in
        let dst_y := wrap32 (content_y cfg + row * wc_char_height cfg) in
        foldl (λ px line,
          foldl (λ px col,
            copy_pixel fb px (wrap32 (src_y + line)) (wrap32 (dst_y + line)) (wrap32 (content_x cfg + col)))
            px (seqZ 0 (content_width cfg)))
          px (seqZ 0 (wc_char_height cfg)))
        px (seqZ 0 remaining_rows) in
    foldl (λ px row, clear_row cfg fb px row) px (seqZ remaining_rows (total_rows - remaining_rows)).
