(* ===== verification/TermCommands.v ===== *)
(** * Terminal: built-in commands

    [drivers/terminal/src/commands/] and [ipc_client.rs].  A command is a
    function from its arguments, the current directory and the tick counter to
    what it prints, the new current directory and its result; [None] is a
    panic.  A local array filled from the left is the list of the bytes written
    so far, and writing past its end panics. *)

From S2P Require Import Prelude Graphics Canvas TermBuffer TermWindow TermParser.

Definition txt (s : string) : list Z := display_bytes s.

(** ** Lines *)

(** [line[pos] = b; pos += 1] on an array of [N] bytes. *)
Definition put (N : nat) (l : list Z) (b : Z) : option (list Z) := if (length l <? N)%nat then Some (l ++ [b]) else None.
Definition put_all (N : nat) (l s : list Z) : option (list Z) := for_each (put N) l s.

(** [for byte in s { if pos < lim { .. } }] *)
Definition put_upto (N lim : nat) (l s : list Z) : option (list Z) :=
  for_each (λ l b, if (length l <? lim)%nat then put N l b else Some l) l s.

(** [while pos < lim { line[pos] = b' '; pos += 1; }] *)
Definition pad (N lim : nat) (l : list Z) : option (list Z) := put_all N l (replicate (lim - length l) 32).

(** The digits of a positive number, most significant first, in an array of 20. *)
Fixpoint dec_loop (fuel : nat) (n : Z) (acc : list Z) : option (list Z) :=
  if n =? 0 then Some acc
  else match fuel with O => None | S fuel => dec_loop fuel (n / 10) ((48 + n mod 10) :: acc) end.

(** [format_number] into a buffer of [cap] bytes: what it writes. *)
Definition format_number (n : Z) (cap : nat) : option (list Z) :=
  if (cap =? 0)%nat then Some []
  else if n =? 0 then Some [48]
  else ds ← dec_loop 20 n []; Some (if (cap <? length ds)%nat then [] else ds).

(** [pos += format_number(n, &mut line[pos..])] *)
Definition put_number (N : nat) (l : list Z) (n : Z) : option (list Z) :=
  ds ← format_number n (N - length l); Some (l ++ ds).

Definition format_size_kb (N : nat) (l : list Z) (kb : Z) : option (list Z) :=
  if kb <? 1024 then l ← put_number N l kb; put_upto N N l (txt " KB")
  else if kb <? 1024 * 1024 then l ← put_number N l (kb / 1024); put_upto N N l (txt " MB")
  else l ← put_number N l (kb / (1024 * 1024)); put_upto N N l (txt " GB").

(** ** Results and output *)

Inductive CommandResult := CrOk | CrNotFound | CrError | CrClear | CrExit.

(** A call of [write_str] ([o_newline] false) or [writeln]. *)
Record Out := mkOut { o_text : list Z; o_color : Color; o_newline : bool }.

Definition println (s : list Z) : Out := mkOut s TEXT_NORMAL true.
Definition println_colored (s : list Z) (c : Color) : Out := mkOut s c true.
Definition print (s : list Z) : Out := mkOut s TEXT_NORMAL false.
Definition error (s : list Z) : Out := mkOut s TEXT_ERROR true.
Definition success (s : list Z) : Out := mkOut s TEXT_SUCCESS true.
Definition info (s : list Z) : Out := mkOut s TEXT_INFO true.
Definition warning (s : list Z) : Out := mkOut s TEXT_WARNING true.

Definition blank : Out := println [].

Definition output (d : DisplayBuffer) (o : Out) : option DisplayBuffer :=
  if o_newline o then writeln d (o_text o) (o_color o) else write_str d (o_text o) (o_color o).

(** What a command needs and changes besides the display. *)
Record Shell := mkShell { current_dir : list Z; sh_ticks : Z }.

Definition Effect : Type := option (list Out * Shell * CommandResult).

Definition done (out : list Out) (sh : Shell) : Effect := Some (out, sh, CrOk).

(** ** Services ([ipc_client.rs])

    The client answers from constants; no service is asked yet. *)

Definition query_processes : list (Z * list Z * list Z) :=
  [(0, txt "kernel", txt "running"); (1, txt "init", txt "running"); (2, txt "display", txt "running");
   (3, txt "keyboard", txt "running"); (4, txt "mouse", txt "running"); (5, txt "ui_shell", txt "running");
   (6, txt "terminal", txt "running")].

Definition query_memory : Z * Z * Z :=
  let total_kb := 128 * 1024 in let used_kb := 32 * 1024 in (total_kb, used_kb, total_kb - used_kb).

Definition query_services : list (list Z * Z * list Z) :=
  [(txt "display_server", 5, txt "active"); (txt "keyboard_driver", 6, txt "active"); (txt "mouse_driver", 7, txt "active");
   (txt "ui_shell", 8, txt "active")].

Definition kill_process (pid : Z) : bool := 10 <=? pid.
Definition spawn_process (path : list Z) (args : list (list Z)) : option Z := None.

Definition list_directory (path : list Z) : list (list Z * bool * Z) :=
  [(txt "bin", true, 0); (txt "etc", true, 0); (txt "dev", true, 0); (txt "sys", true, 0); (txt "proc", true, 0);
   (txt "home", true, 0)].

(** The buffer is left alone. *)
Definition read_file (path buffer : list Z) : option nat * list Z := (None, buffer).

Record FileInfo := mkFileInfo { fi_size : Z; fi_is_dir : bool; fi_created : Z; fi_modified : Z }.

Definition stat_file (path : list Z) : option FileInfo := None.

Definition read_log : list (list Z) :=
  [txt "[0.000] Atom OS kernel initializing"; txt "[0.001] Memory manager initialized"; txt "[0.002] Scheduler started";
   txt "[0.003] IPC subsystem ready"; txt "[0.010] Loading userspace drivers"; txt "[0.020] Display server started";
   txt "[0.030] Input drivers initialized"; txt "[0.050] UI shell launched"].

(** [format_number] of [ipc_client.rs]: count the digits, then fill the buffer
    from position [digits] down; [pos -= 1] and the store are checked. *)
Fixpoint count_digits (fuel : nat) (temp : Z) (digits : nat) : option nat :=
  if temp =? 0 then Some digits
  else match fuel with O => None | S fuel => count_digits fuel (temp / 10) (S digits) end.

Fixpoint fill_back (fuel : nat) (n : Z) (pos : nat) (buffer : list Z) : option (list Z) :=
  if n =? 0 then Some buffer
  else match fuel, pos with
       | S fuel, S pos =>
           if (pos <? length buffer)%nat then fill_back fuel (n / 10) pos (<[pos := 48 + n mod 10]> buffer) else None
       | _, _ => None
       end.

(** The buffer after the call and the number of bytes written. *)
Definition ipc_format_number (n : Z) (buffer : list Z) : option (list Z * nat) :=
  if (length buffer =? 0)%nat then Some (buffer, 0%nat)
  else if n =? 0 then Some (<[0%nat := 48]> buffer, 1%nat)
  else
    digits ← count_digits 20 n 0;
    if (length buffer <? digits)%nat then Some (buffer, 0%nat)
    else buffer ← fill_back 20 n digits buffer; Some (buffer, digits).

(** [pos += format_number(n, &mut buffer[pos..])]: the rest of the buffer is
    zero, and what the call wrote is appended. *)
Definition ipc_number (N : nat) (l : list Z) (n : Z) : option (list Z) :=
  '(buffer, len) ← ipc_format_number n (replicate (N - length l) 0); Some (l ++ take len buffer).

(** [format_uptime] into a buffer of [N] bytes. *)
Definition put_if_room (N : nat) (l : list Z) (b : Z) : option (list Z) := if (length l <? N)%nat then put N l b else Some l.

Definition format_uptime (ticks : Z) (N : nat) : option (list Z) :=
  let total_seconds := ticks / 100 in
  let hours := total_seconds / 3600 in
  let minutes := total_seconds mod 3600 / 60 in
  let seconds := total_seconds mod 60 in
  l ← ipc_number N [] hours;
  l ← put_if_room N l 58;
  l ← (if minutes <? 10 then put_if_room N l 48 else Some l);
  l ← ipc_number N l minutes;
  l ← put_if_room N l 58;
  l ← (if seconds <? 10 then put_if_room N l 48 else Some l);
  ipc_number N l seconds.

(** [format_size] into a buffer of [N] bytes: the unit when it fits. *)
Definition put_unit (N : nat) (l unit : list Z) : option (list Z) :=
  if (length l + length unit <=? N)%nat then put_all N l unit else Some l.

Definition format_size (size : Z) (N : nat) : option (list Z) :=
  if size <? 1024 then l ← ipc_number N [] size; put_unit N l (txt " B")
  else if size <? 1024 * 1024 then l ← ipc_number N [] (size / 1024); put_unit N l (txt " KB")
  else if size <? 1024 * 1024 * 1024 then l ← ipc_number N [] (size / (1024 * 1024)); put_unit N l (txt " MB")
  else l ← ipc_number N [] (size / (1024 * 1024 * 1024)); put_unit N l (txt " GB").

(** Build something for each element, in order. *)
Fixpoint map_opt {A B} (f : A → option B) (l : list A) : option (list B) :=
  match l with [] => Some [] | x :: l => y ← f x; ys ← map_opt f l; Some (y :: ys) end.

(** ** Filesystem commands ([filesystem.rs]) *)

Definition set_current_dir (sh : Shell) (path : list Z) : option Shell :=
  if (length path <=? 255)%nat then Some (mkShell path (sh_ticks sh)) else None.

Definition ROOT : list Z := [SLASH].

Definition starts_with (b : Z) (s : list Z) : bool := match s with c :: _ => c =? b | [] => false end.

(** A line of the long listing. *)
Definition ls_long_line (name : list Z) (is_dir : bool) (size : Z) : option Out :=
  l ← put_all 80 [] (if is_dir then txt "dir   " else txt "file  ");
  l ← (if is_dir then put_all 80 l (txt "-         ")
       else ds ← format_number size 10; l ← put_all 80 l ds; pad 80 16 l);
  l ← put_upto 80 76 l name;
  Some (if is_dir then println_colored l PROMPT_PATH else println l).

Definition ls_short_line (name : list Z) (is_dir : bool) : option Out :=
  if is_dir then l ← put_all 64 [] name; l ← put 64 l SLASH; Some (println_colored l PROMPT_PATH)
  else Some (println name).

Definition ls_entries (show_all long_format : bool) (entries : list (list Z * bool * Z)) : option (list Out) :=
  map_opt (λ '(name, is_dir, size), if long_format : bool then ls_long_line name is_dir size else ls_short_line name is_dir)
    (filter (λ e, show_all = true ∨ starts_with 46 e.1.1 = false) entries).

Definition cmd_ls (cmd : ParsedCommand) (sh : Shell) : Effect :=
  let path := default (current_dir sh) (arg cmd 0) in
  let show_all := has_flag cmd (txt "-a") (txt "--all") in
  let long_format := has_flag cmd (txt "-l") (txt "--long") in
  header ← put_all 64 [] (txt "Contents of ");
  header ← put_upto 64 60 header path;
  entries ← ls_entries show_all long_format (list_directory path);
  done ([blank; println_colored header TEXT_INFO; blank] ++
        (if long_format then [println (txt "TYPE  SIZE      NAME"); println (txt "----  ----      ----")] else []) ++
        entries ++ [blank]) sh.

(** The last slash before the final byte, or 0. *)
Definition last_slash (path : list Z) : nat :=
  foldl (λ last i, if default 0 (path !! i) =? SLASH then i else last) 0%nat (seq 0 (length path - 1)).

(** [new_path] of [cmd_cd] and [full_path] of [cmd_cat]. *)
Definition build_path (current target : list Z) : option (list Z) :=
  if starts_with SLASH target then put_upto 256 255 [] target
  else
    l ← put_upto 256 254 [] current;
    l ← (if (0 <? length l)%nat && negb (default 0 (last l) =? SLASH) then put 256 l SLASH else Some l);
    put_upto 256 255 l target.

Definition drop_trailing_slash (path : list Z) : list Z :=
  if (1 <? length path)%nat && (default 0 (last path) =? SLASH) then take (length path - 1) path else path.

Definition cmd_cd (cmd : ParsedCommand) (sh : Shell) : Effect :=
  match arg cmd 0 with
  | None => sh ← set_current_dir sh ROOT; done [] sh
  | Some target =>
      if bool_decide (target = txt "~") || bool_decide (target = ROOT) then sh ← set_current_dir sh ROOT; done [] sh
      else if bool_decide (target = txt "..") then
        if bool_decide (current_dir sh = ROOT) then done [] sh
        else if (length (current_dir sh) =? 0)%nat then None
        else
          let i := last_slash (current_dir sh) in
          sh ← set_current_dir sh (if (i =? 0)%nat then ROOT else take i (current_dir sh)); done [] sh
      else if bool_decide (target = txt ".") then done [] sh
      else
        new_path ← build_path (current_dir sh) target;
        sh ← set_current_dir sh (drop_trailing_slash new_path); done [] sh
  end.

Definition cmd_pwd (cmd : ParsedCommand) (sh : Shell) : Effect := done [println_colored (current_dir sh) PROMPT_PATH] sh.

Definition cmd_cat (cmd : ParsedCommand) (sh : Shell) : Effect :=
  match arg cmd 0 with
  | None => Some ([error (txt "Usage: cat <filename>")], sh, CrError)
  | Some filename =>
      path ← build_path (current_dir sh) filename;
      match read_file path (replicate 1024 0) with
      | (Some len, buffer) =>
          if (len <=? length buffer)%nat then done ([blank] ++ (println <$> split_on 10 (take len buffer)) ++ [blank]) sh
          else None
      | (None, _) =>
          done [warning (txt "File reading not yet implemented"); info (txt "In a full implementation, this would:");
                info (txt "  1. Send request to filesystem service");
                info (txt "  2. Receive file data via shared memory"); info (txt "  3. Display contents to terminal")] sh
      end
  end.

Definition tree_line (e : list Z * bool * Z) : option Out :=
  let '(name, is_dir, _) := e in
  l ← put_all 64 [] (txt "|-- ");
  l ← put_upto 64 60 l name;
  l ← (if is_dir : bool then put 64 l SLASH else Some l);
  Some (if is_dir then println_colored l PROMPT_PATH else println l).

(** The depth option is parsed and not used. *)
Definition cmd_tree (cmd : ParsedCommand) (sh : Shell) : Effect :=
  let path := default (current_dir sh) (arg cmd 0) in
  entries ← map_opt tree_line (list_directory path);
  done ([blank; println_colored path PROMPT_PATH] ++ entries ++ [blank]) sh.

(** ** Process commands ([process.rs]) *)

Definition ps_line (p : Z * list Z * list Z) : option Out :=
  let '(pid, name, state) := p in
  pid_str ← format_number pid 8;
  let pid_len := Nat.min (length pid_str) 5 in
  l ← put_all 64 [] (replicate (5 - pid_len) 32);
  l ← put_all 64 l (take pid_len pid_str);
  l ← put 64 l 32;
  l ← put_upto 64 22 l name;
  l ← pad 64 22 l;
  l ← put_upto 64 60 l state;
  Some (println l).

Definition cmd_ps (cmd : ParsedCommand) (sh : Shell) : Effect :=
  processes ← map_opt ps_line query_processes;
  done ([blank; println_colored (txt "Running Processes") TEXT_INFO; println (txt "-----------------"); blank;
         println (txt "PID   NAME             STATE"); println (txt "---   ----             -----")] ++
        processes ++ [blank]) sh.

Definition cmd_kill (cmd : ParsedCommand) (sh : Shell) : Effect :=
  match arg cmd 0 with
  | None => Some ([error (txt "Usage: kill <pid>")], sh, CrError)
  | Some pid_arg =>
      match parse_number pid_arg with
      | None => Some ([error (txt "Invalid PID")], sh, CrError)
      | Some pid =>
          if pid <? 10 then Some ([warning (txt "Cannot terminate system process")], sh, CrError)
          else if kill_process pid then
            msg ← put_all 64 [] (txt "Signal sent to process ");
            msg ← put_number 64 msg pid;
            done [success msg] sh
          else Some ([error (txt "Failed to send signal to process")], sh, CrError)
      end
  end.

(** The arguments passed on: an array of 16, then a slice of it. *)
Definition exec_args (args : list (list Z)) : option (list (list Z)) :=
  let arr := drop 1 (take (Nat.min (length args) 16) args) in
  let arr := arr ++ replicate (16 - length arr) [] in
  if (length args - 1 <=? 16)%nat then Some (take (length args - 1) arr) else None.

Definition cmd_exec (cmd : ParsedCommand) (sh : Shell) : Effect :=
  match arg cmd 0 with
  | None => Some ([error (txt "Usage: exec <program> [args...]")], sh, CrError)
  | Some program =>
      args ← exec_args (args cmd);
      match spawn_process program args with
      | Some pid =>
          msg ← put_all 64 [] (txt "Started process with PID ");
          msg ← put_number 64 msg pid;
          done [info (txt "Attempting to execute program..."); success msg] sh
      | None =>
          done [info (txt "Attempting to execute program..."); warning (txt "Process spawning not yet implemented");
                info (txt "In a full implementation, this would:"); info (txt "  1. Send request to process manager");
                info (txt "  2. Load executable from filesystem"); info (txt "  3. Create new address space");
                info (txt "  4. Start execution")] sh
      end
  end.

(** A line of the memory report, with a percentage of the total when asked. *)
Definition percent (part total : Z) : Z := if 0 <? total then wrap8 (wrap64 (part * 100) / total) else 0.

Definition memory_line (label : list Z) (kb : Z) (whole : option Z) : option Out :=
  l ← put_all 64 [] label;
  l ← format_size_kb 64 l kb;
  match whole with
  | None => Some (println l)
  | Some total =>
      l ← put_all 64 l (txt " (");
      l ← put_number 64 l (percent kb total);
      l ← put_all 64 l (txt "%)");
      Some (println l)
  end.

Definition memory_bar (used total : Z) : option Out :=
  let bar_width := 40 in
  let used_bars := if 0 <? total then wrap64 (used * bar_width) / total else 0 in
  bar ← put 64 [] 91;
  bar ← put_all 64 bar ((λ i, if i <? used_bars then 35 else 45) <$> seqZ 0 bar_width);
  bar ← put 64 bar 93;
  Some (println_colored bar TEXT_INFO).

Definition cmd_memory (cmd : ParsedCommand) (sh : Shell) : Effect :=
  let '(total_kb, used_kb, free_kb) := query_memory in
  total ← memory_line (txt "Total:     ") total_kb None;
  used ← memory_line (txt "Used:      ") used_kb (Some total_kb);
  free ← memory_line (txt "Free:      ") free_kb (Some total_kb);
  bar ← memory_bar used_kb total_kb;
  done [blank; println_colored (txt "Memory Usage") TEXT_INFO; println (txt "------------"); blank; total; used; free; blank;
        bar; blank] sh.

Definition service_line (s : list Z * Z * list Z) : option Out :=
  let '(name, port, status) := s in
  l ← put_upto 64 20 [] name;
  l ← pad 64 20 l;
  port_str ← format_number port 8;
  l ← put_all 64 l port_str;
  l ← pad 64 28 l;
  l ← put_upto 64 60 l status;
  Some (if bool_decide (status = txt "active") then println_colored l TEXT_SUCCESS else println l).

Definition cmd_services (cmd : ParsedCommand) (sh : Shell) : Effect :=
  services ← map_opt service_line query_services;
  done ([blank; println_colored (txt "Registered Services") TEXT_INFO; println (txt "-------------------"); blank;
         println (txt "NAME                PORT    STATUS"); println (txt "----                ----    ------")] ++
        services ++ [blank]) sh.

(** ** System commands ([system.rs], [mod.rs]) *)

Definition OS_NAME : list Z := txt "Atom OS".
Definition OS_VERSION : list Z := txt "0.1.0".
Definition OS_CODENAME : list Z := txt "Helium".
Definition KERNEL_VERSION : list Z := txt "0.1.0-microkernel".

Definition is_one_of (s : list Z) (names : list string) : bool := existsb (λ n, bool_decide (s = txt n)) names.

Definition get_command_help (name : list Z) : option (list Z * list Z) :=
  let c := to_ascii_lowercase <$> name in
  if is_one_of c ["help"; "?"]%string then Some (txt "help [command]", txt "Display help information")
  else if is_one_of c ["version"; "ver"]%string then Some (txt "version", txt "Display system version information")
  else if is_one_of c ["uptime"]%string then Some (txt "uptime", txt "Show system uptime")
  else if is_one_of c ["date"; "time"]%string then Some (txt "date", txt "Display current date and time")
  else if is_one_of c ["clear"; "cls"]%string then Some (txt "clear", txt "Clear the terminal screen")
  else if is_one_of c ["echo"]%string then Some (txt "echo [text...]", txt "Display text")
  else if is_one_of c ["sysinfo"]%string then Some (txt "sysinfo", txt "Display system information summary")
  else if is_one_of c ["ps"; "procs"]%string then Some (txt "ps", txt "List running processes")
  else if is_one_of c ["kill"]%string then Some (txt "kill <pid>", txt "Terminate a process")
  else if is_one_of c ["exec"; "run"]%string then Some (txt "exec <program>", txt "Execute a program")
  else if is_one_of c ["mem"; "memory"]%string then Some (txt "mem", txt "Display memory usage")
  else if is_one_of c ["services"; "svc"]%string then Some (txt "services", txt "List registered services")
  else if is_one_of c ["ls"; "dir"]%string then Some (txt "ls [path]", txt "List directory contents")
  else if is_one_of c ["cd"]%string then Some (txt "cd <path>", txt "Change current directory")
  else if is_one_of c ["pwd"]%string then Some (txt "pwd", txt "Print working directory")
  else if is_one_of c ["cat"; "type"]%string then Some (txt "cat <file>", txt "Display file contents")
  else if is_one_of c ["tree"]%string then Some (txt "tree [path]", txt "Display directory tree")
  else if is_one_of c ["exit"; "quit"]%string then Some (txt "exit", txt "Exit the terminal")
  else if is_one_of c ["log"; "dmesg"]%string then Some (txt "log", txt "Display system log")
  else if is_one_of c ["ports"]%string then Some (txt "ports", txt "List IPC ports")
  else if is_one_of c ["caps"]%string then Some (txt "caps", txt "List capabilities")
  else None.

Definition get_all_commands : list (list Z * list Z) :=
  [(txt "help", txt "Display help information"); (txt "version", txt "Show system version");
   (txt "uptime", txt "Show system uptime"); (txt "date", txt "Show current date/time");
   (txt "sysinfo", txt "System information summary"); (txt "clear", txt "Clear terminal screen");
   (txt "echo", txt "Display text"); (txt "log", txt "Display system log"); (txt "ps", txt "List processes");
   (txt "kill", txt "Terminate a process"); (txt "exec", txt "Execute a program"); (txt "mem", txt "Memory usage");
   (txt "services", txt "List services"); (txt "ls", txt "List directory"); (txt "cd", txt "Change directory");
   (txt "pwd", txt "Print working directory"); (txt "cat", txt "Display file contents"); (txt "tree", txt "Directory tree");
   (txt "exit", txt "Exit terminal")].

Definition category (name : list Z) : list Z :=
  if is_one_of name ["help"; "version"; "uptime"; "date"; "sysinfo"; "clear"; "echo"; "log"]%string then txt "System"
  else if is_one_of name ["ps"; "kill"; "exec"; "mem"; "services"]%string then txt "Process"
  else if is_one_of name ["ls"; "cd"; "pwd"; "cat"; "tree"]%string then txt "Filesystem"
  else txt "Other".

Definition help_line (name desc : list Z) : option Out :=
  l ← put_upto 64 12 [] name;
  l ← pad 64 12 l;
  l ← put_upto 64 60 l desc;
  Some (println l).

Fixpoint help_lines (current : list Z) (commands : list (list Z * list Z)) : option (list Out) :=
  match commands with
  | [] => Some []
  | (name, desc) :: commands =>
      let new_category := category name in
      let heading := if bool_decide (new_category = current) then [] else [blank; println_colored new_category PROMPT_USER] in
      l ← help_line name desc;
      rest ← help_lines new_category commands;
      Some (heading ++ [l] ++ rest)
  end.

Definition cmd_help (cmd : ParsedCommand) (sh : Shell) : Effect :=
  match arg cmd 0 with
  | Some topic =>
      match get_command_help topic with
      | Some (usage, desc) => done [blank; println_colored usage TEXT_INFO; println desc; blank] sh
      | None => done [error (txt "No help available for that command.")] sh
      end
  | None =>
      ls ← help_lines [] get_all_commands;
      done ([blank; println_colored (txt "Atom Terminal - Available Commands") TEXT_INFO;
             println (txt "-----------------------------------"); blank] ++ ls ++
            [blank; println (txt "Type 'help <command>' for more information."); blank]) sh
  end.

Definition cmd_version (cmd : ParsedCommand) (sh : Shell) : Effect :=
  l ← put_all 64 [] (txt "Version ");
  l ← put_all 64 l OS_VERSION;
  l ← put_all 64 l (txt " (");
  l ← put_all 64 l OS_CODENAME;
  l ← put 64 l 41;
  k ← put_all 64 [] (txt "Kernel: ");
  k ← put_all 64 k KERNEL_VERSION;
  done [blank; println_colored OS_NAME TEXT_INFO; println l; println k; println (txt "Architecture: x86_64"); blank] sh.

Definition cmd_uptime (cmd : ParsedCommand) (sh : Shell) : Effect :=
  buffer ← format_uptime (sh_ticks sh) 64;
  l ← put_all 80 [] (txt "System uptime: ");
  l ← put_all 80 l buffer;
  done [blank; println_colored l TEXT_INFO; blank] sh.

(** Two digits. *)
Definition put_two (N : nat) (l : list Z) (n : Z) : option (list Z) :=
  l ← (if n <? 10 then put N l 48 else Some l); put_number N l n.

Definition cmd_date (cmd : ParsedCommand) (sh : Shell) : Effect :=
  let total_seconds := sh_ticks sh / 100 in
  let hours := total_seconds / 3600 mod 24 in
  let minutes := total_seconds mod 3600 / 60 in
  let seconds := total_seconds mod 60 in
  l ← put_two 32 [] hours;
  l ← put 32 l 58;
  l ← put_two 32 l minutes;
  l ← put 32 l 58;
  l ← put_two 32 l seconds;
  l ← put_upto 32 32 l (txt " UTC (simulated)");
  done [blank; println_colored l TEXT_INFO; blank] sh.

Fixpoint echo_args (l : list Z) (first : bool) (args : list (list Z)) : option (list Z) :=
  match args with
  | [] => Some l
  | a :: args =>
      l ← (if negb first then put_if_room 256 l 32 else Some l);
      l ← put_upto 256 256 l a;
      echo_args l false args
  end.

Definition cmd_echo (cmd : ParsedCommand) (sh : Shell) : Effect :=
  output ← echo_args [] true (args cmd); done [println output] sh.

Definition cmd_sysinfo (cmd : ParsedCommand) (sh : Shell) : Effect :=
  let '(total, used, free) := query_memory in
  uptime ← format_uptime (sh_ticks sh) 64;
  m ← put_number 64 [] (used / 1024);
  m ← put_all 64 m (txt " MB / ");
  m ← put_number 64 m (total / 1024);
  m ← put_all 64 m (txt " MB");
  done [blank; println_colored (txt "System Information") TEXT_INFO; println (txt "=================="); blank;
        print (txt "OS:           "); println_colored OS_NAME PROMPT_USER; print (txt "Version:      "); println OS_VERSION;
        print (txt "Kernel:       "); println KERNEL_VERSION; print (txt "Architecture: "); println (txt "x86_64"); blank;
        print (txt "Uptime:       "); println uptime; print (txt "Memory:       "); println m; blank] sh.

Definition cmd_log (cmd : ParsedCommand) (sh : Shell) : Effect :=
  done ([blank; println_colored (txt "System Log") TEXT_INFO; println (txt "----------"); blank] ++ (println <$> read_log) ++ [blank]) sh.

Definition cmd_ports (cmd : ParsedCommand) (sh : Shell) : Effect :=
  done [blank; println_colored (txt "IPC Ports") TEXT_INFO; println (txt "---------"); blank; println (txt "Port  Service");
        println (txt "----  -------"); println (txt "1     service_manager"); println (txt "2     process_manager");
        println (txt "3     memory_manager"); println (txt "4     filesystem"); println (txt "5     display_server");
        println (txt "6     input_server"); blank] sh.

Definition cmd_caps (cmd : ParsedCommand) (sh : Shell) : Effect :=
  done [blank; println_colored (txt "Process Capabilities") TEXT_INFO; println (txt "--------------------"); blank;
        println (txt "CAP_GRAPHICS     - Framebuffer access"); println (txt "CAP_INPUT        - Keyboard/mouse input");
        println (txt "CAP_IPC          - IPC messaging"); println (txt "CAP_MEMORY       - Memory allocation"); blank] sh.

(** ** Dispatch *)

Definition execute (cmd : ParsedCommand) (sh : Shell) : Effect :=
  let c := to_ascii_lowercase <$> command cmd in
  if is_one_of c ["help"; "?"]%string then cmd_help cmd sh
  else if is_one_of c ["version"; "ver"]%string then cmd_version cmd sh
  else if is_one_of c ["uptime"]%string then cmd_uptime cmd sh
  else if is_one_of c ["date"; "time"]%string then cmd_date cmd sh
  else if is_one_of c ["clear"; "cls"]%string then Some ([], sh, CrClear)
  else if is_one_of c ["echo"]%string then cmd_echo cmd sh
  else if is_one_of c ["sysinfo"]%string then cmd_sysinfo cmd sh
  else if is_one_of c ["ps"; "procs"]%string then cmd_ps cmd sh
  else if is_one_of c ["kill"]%string then cmd_kill cmd sh
  else if is_one_of c ["exec"; "run"]%string then cmd_exec cmd sh
  else if is_one_of c ["mem"; "memory"]%string then cmd_memory cmd sh
  else if is_one_of c ["services"; "svc"]%string then cmd_services cmd sh
  else if is_one_of c ["ls"; "dir"]%string then cmd_ls cmd sh
  else if is_one_of c ["cd"]%string then cmd_cd cmd sh
  else if is_one_of c ["pwd"]%string then cmd_pwd cmd sh
  else if is_one_of c ["cat"; "type"]%string then cmd_cat cmd sh
  else if is_one_of c ["tree"]%string then cmd_tree cmd sh
  else if is_one_of c ["exit"; "quit"; "logout"]%string then Some ([], sh, CrExit)
  else if is_one_of c ["log"; "dmesg"]%string then cmd_log cmd sh
  else if is_one_of c ["ports"]%string then cmd_ports cmd sh
  else if is_one_of c ["caps"]%string then cmd_caps cmd sh
  else Some ([error (txt "Unknown command. Type 'help' for available commands.")], sh, CrNotFound).
