(* ===== verification/CommandSafety.v ===== *)
(** * Terminal: safety of the commands

    Numbers are printed as they are parsed, by both printers of the terminal;
    every command runs to its end on any arguments the parser can produce and
    leaves an absolute current directory that fits its array. *)

From S2P Require Import Prelude Graphics Canvas TermBuffer TermWindow TermParser TermParserSafety TermCommands.

(** ** Lines *)

Lemma put_ok N l b : (length l < N)%nat → put N l b = Some (l ++ [b]).
Proof. intros. unfold put. by destruct (Nat.ltb_spec (length l) N); [|lia]. Qed.

Lemma put_all_ok N l s : (length l + length s ≤ N)%nat → put_all N l s = Some (l ++ s).
Proof.
  unfold put_all. revert l. induction s as [|b s IH]; intros l Hl; cbn in *; [by rewrite app_nil_r|].
  rewrite put_ok by lia. cbn.
  rewrite IH by (rewrite length_app; cbn; lia). by rewrite <- (assoc_L app).
Qed.

Lemma put_upto_ok N lim l s : (lim ≤ N)%nat → put_upto N lim l s = Some (l ++ take (lim - length l) s).
Proof.
  intros HN. unfold put_upto. revert l. induction s as [|b s IH]; intros l; cbn [for_each]; [by rewrite take_nil, app_nil_r|].
  destruct (Nat.ltb_spec (length l) lim).
  - rewrite put_ok by lia. cbn [mbind option_bind]. rewrite IH, length_app. cbn [length].
    replace (lim - length l)%nat with (S (lim - (length l + 1))) by lia. cbn [take]. by rewrite <- (assoc_L app).
  - cbn [mbind option_bind]. rewrite IH. by replace (lim - length l)%nat with 0%nat by lia.
Qed.

Lemma put_if_room_ok N l b : (length l ≤ N)%nat → ∃ l', put_if_room N l b = Some l' ∧ (length l' ≤ N)%nat.
Proof.
  intros. unfold put_if_room. destruct (Nat.ltb_spec (length l) N); [|by exists l].
  rewrite put_ok by done. eexists. split; [done|]. rewrite length_app. cbn. lia.
Qed.

(** ** Numbers *)

(** The decimal digits of a number, most significant first; none for 0. *)
Fixpoint decimal (fuel : nat) (n : Z) : list Z :=
  match fuel with
  | O => []
  | S fuel => if n =? 0 then [] else decimal fuel (n / 10) ++ [48 + n mod 10]
  end.

Lemma div10 n k : 0 ≤ n < 10 ^ Z.of_nat (S k) → 0 ≤ n / 10 < 10 ^ Z.of_nat k.
Proof.
  intros Hn. rewrite Nat2Z.inj_succ, Z.pow_succ_r in Hn by lia.
  split; [apply Z.div_pos; lia|apply Z.div_lt_upper_bound; lia].
Qed.

Lemma dec_loop_decimal fuel n acc : 0 ≤ n < 10 ^ Z.of_nat fuel → dec_loop fuel n acc = Some (decimal fuel n ++ acc).
Proof.
  revert n acc. induction fuel as [|fuel IH]; intros n acc Hn; cbn [dec_loop decimal].
  { cbn in Hn. by replace n with 0 by lia. }
  destruct (Z.eqb_spec n 0); [done|]. rewrite IH by (by apply div10). by rewrite <- (assoc_L app).
Qed.

Lemma length_decimal fuel k n : 0 ≤ n < 10 ^ Z.of_nat k → (length (decimal fuel n) ≤ k)%nat.
Proof.
  revert k n. induction fuel as [|fuel IH]; intros k n Hn; cbn [decimal]; [cbn; lia|].
  destruct (Z.eqb_spec n 0); [cbn; lia|]. destruct k as [|k]; [cbn in Hn; lia|].
  rewrite length_app. cbn. specialize (IH k (n / 10) (div10 _ _ Hn)). lia.
Qed.

Lemma decimal_print fuel n : 0 < n < 10 ^ Z.of_nat fuel → decimal fuel n = print_digits 10 fuel n.
Proof.
  revert n. induction fuel as [|fuel IH]; intros n Hn; [done|]. cbn [decimal print_digits].
  rewrite (proj2 (Z.eqb_neq n 0)) by lia. unfold digit_char. destruct (Z.ltb_spec n 10).
  - rewrite Z.div_small, Z.mod_small by lia. by destruct fuel.
  - pose proof (Z.mod_pos_bound n 10). rewrite (proj2 (Z.ltb_lt (n mod 10) 10)) by lia. f_equal. apply IH.
    pose proof (div10 n fuel). assert (1 ≤ n / 10) by (apply Z.div_le_lower_bound; lia). lia.
Qed.

Lemma u64_decimal n : 0 ≤ n ≤ U64_MAX → 0 ≤ n < 10 ^ Z.of_nat 20.
Proof. unfold U64_MAX. cbn. lia. Qed.

Lemma format_number_eq n cap : 0 ≤ n ≤ U64_MAX → (0 < cap)%nat →
  format_number n cap = Some (if n =? 0 then [48] else if (cap <? length (decimal 20 n))%nat then [] else decimal 20 n).
Proof.
  intros Hn Hcap. unfold format_number. rewrite (proj2 (Nat.eqb_neq cap 0)) by lia.
  destruct (Z.eqb_spec n 0); [done|]. rewrite dec_loop_decimal by (by apply u64_decimal). cbn. by rewrite app_nil_r.
Qed.

(** The printer is total, stays in its buffer, and is as short as the number. *)
Lemma format_number_ok n cap k : 0 ≤ n ≤ U64_MAX → n < 10 ^ Z.of_nat (S k) →
  ∃ ds, format_number n cap = Some ds ∧ (length ds ≤ cap)%nat ∧ (length ds ≤ S k)%nat.
Proof.
  intros Hn Hk. destruct cap as [|cap]; [exists []; cbn; split_and!; [done|lia..]|].
  rewrite format_number_eq by lia. eexists. split; [done|].
  pose proof (length_decimal 20 (S k) n). destruct (n =? 0); [cbn; lia|].
  destruct (Nat.ltb_spec (S cap) (length (decimal 20 n))); cbn [length]; lia.
Qed.

Lemma put_number_ok N l n k : 0 ≤ n ≤ U64_MAX → n < 10 ^ Z.of_nat (S k) → (length l ≤ N)%nat →
  ∃ l', put_number N l n = Some l' ∧ (length l' ≤ N)%nat ∧ (length l' ≤ length l + S k)%nat.
Proof.
  intros Hn Hk Hl. destruct (format_number_ok n (N - length l) k Hn Hk) as (ds & E & H1 & H2).
  unfold put_number. rewrite E. eexists. split; [done|]. rewrite length_app. lia.
Qed.

(** *** The printer of [ipc_client.rs] *)

Lemma count_digits_decimal fuel n d : 0 ≤ n < 10 ^ Z.of_nat fuel →
  count_digits fuel n d = Some (d + length (decimal fuel n))%nat.
Proof.
  revert n d. induction fuel as [|fuel IH]; intros n d Hn; cbn [count_digits decimal].
  { cbn in Hn. replace n with 0 by lia. cbn. f_equal. lia. }
  destruct (Z.eqb_spec n 0); [cbn; f_equal; lia|]. rewrite IH by (by apply div10). rewrite length_app. cbn. f_equal. lia.
Qed.

Lemma fill_back_decimal fuel n pre post : 0 ≤ n < 10 ^ Z.of_nat fuel → length pre = length (decimal fuel n) →
  fill_back fuel n (length pre) (pre ++ post) = Some (decimal fuel n ++ post).
Proof.
  revert n pre post. induction fuel as [|fuel IH]; intros n pre post Hn Hl; cbn [fill_back decimal] in *.
  { cbn in Hn. replace n with 0 by lia. by destruct pre. }
  destruct (Z.eqb_spec n 0); [by destruct pre|]. rewrite length_app in Hl. cbn in Hl.
  destruct pre as [|x pre _] using rev_ind; [cbn in Hl; lia|]. rewrite length_app in *. cbn [length] in *.
  replace (length pre + 1)%nat with (S (length pre)) by lia.
  destruct (Nat.ltb_spec (length pre) (length ((pre ++ [x]) ++ post))) as [_|Hb]; [|rewrite !length_app in Hb; cbn in Hb; lia].
  rewrite <- (assoc_L app). rewrite insert_app_r_alt, Nat.sub_diag by lia. cbn [insert list_insert app].
  rewrite IH by (solve [by apply div10 | lia]). by rewrite <- (assoc_L app).
Qed.

Lemma ipc_format_number_eq n buffer : 0 ≤ n ≤ U64_MAX →
  ∃ buffer' len, ipc_format_number n buffer = Some (buffer', len) ∧ format_number n (length buffer) = Some (take len buffer').
Proof.
  intros Hn. pose proof (u64_decimal n Hn) as Hd. unfold ipc_format_number. destruct (Nat.eqb_spec (length buffer) 0) as [E|E].
  { do 2 eexists. split; [done|]. unfold format_number. by rewrite E. }
  rewrite format_number_eq by lia. destruct (Z.eqb_spec n 0) as [->|].
  { do 2 eexists. split; [done|]. by destruct buffer. }
  rewrite count_digits_decimal by done. cbn [mbind option_bind]. rewrite Nat.add_0_l.
  destruct (Nat.ltb_spec (length buffer) (length (decimal 20 n))).
  { do 2 eexists. split; [done|]. done. }
  assert (Ht : length (take (length (decimal 20 n)) buffer) = length (decimal 20 n)) by (rewrite length_take; lia).
  pose proof (fill_back_decimal 20 n _ (drop (length (decimal 20 n)) buffer) Hd Ht) as Hf.
  rewrite Ht, take_drop in Hf. rewrite Hf. cbn [mbind option_bind].
  do 2 eexists. split; [done|]. by rewrite take_app_length.
Qed.

(** Both number printers of the terminal agree with its parser.  Given room
    for twenty bytes, the printer of the commands and the different one of the
    IPC client write the same digits for every 64-bit number, and the parser
    reads the number back from them; with less room than the digits need,
    both write nothing. *)
Theorem number_roundtrip n buffer : 0 ≤ n ≤ U64_MAX → buffer ≠ [] →
  ∃ ds buffer' len, format_number n (length buffer) = Some ds ∧ ipc_format_number n buffer = Some (buffer', len) ∧
    take len buffer' = ds ∧ (ds = [] ∨ parse_number ds = Some n) ∧ ((20 ≤ length buffer)%nat → parse_number ds = Some n).
Proof.
  intros Hn Hb. destruct (ipc_format_number_eq n buffer Hn) as (buffer' & len & E1 & E2).
  assert (Hlen : (0 < length buffer)%nat) by (destruct buffer; [done|cbn; lia]).
  exists (take len buffer'), buffer', len. rewrite (format_number_eq n _ Hn Hlen) in *. apply (inj Some) in E2.
  split; [by rewrite E2|]. split; [exact E1|]. split; [reflexivity|]. rewrite <- E2. clear E1 E2.
  destruct (Z.eqb_spec n 0) as [->|Hne]; [split; [right|]; reflexivity|].
  pose proof (u64_decimal n Hn) as Hd. pose proof (length_decimal 20 20 n Hd).
  pose proof (proj1 (parse_number_print n Hn)) as Hp. rewrite <- decimal_print in Hp by lia.
  destruct (Nat.ltb_spec (length buffer) (length (decimal 20 n))); split; [by left|lia|by right|by intros].
Qed.

Lemma number_roundtrip_witness :
  ∃ ds buffer' len, format_number 18446744073709551615 (length (replicate 20 0)) = Some ds ∧
    ipc_format_number 18446744073709551615 (replicate 20 0) = Some (buffer', len) ∧
    take len buffer' = ds ∧ (ds = [] ∨ parse_number ds = Some 18446744073709551615) ∧
    ((20 ≤ length (replicate 20 0))%nat → parse_number ds = Some 18446744073709551615).
Proof. apply number_roundtrip; [unfold U64_MAX; lia|discriminate]. Defined.

(** ** What the parser can produce *)

Lemma digits_range radix acc s n : 0 ≤ radix → 0 ≤ acc ≤ U64_MAX → digits radix acc s = Some n → 0 ≤ n ≤ U64_MAX.
Proof.
  intros Hr. revert acc. induction s as [|b s IH]; intros acc Ha; cbn [digits]; [by intros [= <-]|].
  destruct (to_digit radix b) as [d|] eqn:Ed; [|done]. cbn [mbind option_bind].
  assert (0 ≤ d).
  { revert Ed. unfold to_digit. repeat case_match; intros [= <-]; rewrite ?andb_true_iff, ?Z.leb_le in *; lia. }
  destruct (Z.ltb_spec U64_MAX (acc * radix + d)); [done|]. apply IH. nia.
Qed.

Lemma parse_number_range s n : parse_number s = Some n → 0 ≤ n ≤ U64_MAX.
Proof.
  assert (Hf : ∀ s radix, 0 ≤ radix → from_str_radix s radix = Some n → 0 ≤ n ≤ U64_MAX).
  { intros s' radix Hr. unfold from_str_radix. repeat case_match; try done; apply digits_range; unfold U64_MAX; lia. }
  unfold parse_number. repeat case_match; apply Hf; lia.
Qed.

Lemma scan_args_bound s l st : (length (sc_args st) ≤ 16)%nat → (length (sc_args (foldl (scan_byte s) st l)) ≤ 16)%nat.
Proof.
  revert st. induction l as [|i l IH]; intros st Hst; [done|]. apply IH.
  assert (Ha : ∀ q tok, (length (sc_args (add_token st q tok)) ≤ 16)%nat).
  { intros q tok. unfold add_token. destruct (sc_command st); [done|]. change MAX_ARGS with 16%nat.
    destruct (Nat.ltb_spec (length (sc_args st)) 16); [|done]. cbn [sc_args]. rewrite length_app. cbn. lia. }
  unfold scan_byte. repeat case_match; auto.
Qed.

Lemma parse_command_args line cmd : parse_command line = Some cmd → (length (args cmd) ≤ 16)%nat.
Proof.
  unfold parse_command. destruct (trim line) as [|b s]; [done|].
  pose proof (scan_args_bound (b :: s) (seq 0 (S (length (b :: s)))) Scan_start) as Hs.
  destruct (sc_command _); [done|]. intros [= <-]. apply Hs. cbn. lia.
Qed.

(** ** The current directory *)

(** Absolute, and short enough for its array. *)
Definition dir_ok (d : list Z) : Prop := starts_with SLASH d = true ∧ (length d ≤ 255)%nat.

Lemma root_ok : dir_ok ROOT.
Proof. split; [done|cbn; lia]. Qed.

Lemma starts_with_take b n d : (0 < n)%nat → starts_with b (take n d) = starts_with b d.
Proof. destruct n; [lia|]. by destruct d. Qed.

Lemma starts_with_app b d e : starts_with b d = true → starts_with b (d ++ e) = true.
Proof. by destruct d. Qed.

Lemma starts_with_length b d : starts_with b d = true → (0 < length d)%nat.
Proof. destruct d; cbn; [done|lia]. Qed.

Lemma build_path_ok current target : dir_ok current →
  ∃ p, build_path current target = Some p ∧ dir_ok p.
Proof.
  intros [Hs Hl]. unfold build_path. destruct (starts_with SLASH target) eqn:Et.
  { rewrite put_upto_ok by lia. eexists. split; [done|]. cbn [app length].
    split; [by rewrite starts_with_take by lia|rewrite length_take; lia]. }
  rewrite put_upto_ok by lia. cbn [app mbind option_bind length]. rewrite Nat.sub_0_r.
  set (l := take 254 current).
  assert (Hl1 : starts_with SLASH l = true ∧ (length l ≤ 254)%nat).
  { split; [unfold l; by rewrite starts_with_take by lia|unfold l; rewrite length_take; lia]. }
  assert (∃ l', (if (0 <? length l)%nat && negb (default 0 (last l) =? SLASH) then put 256 l SLASH else Some l) = Some l' ∧
    starts_with SLASH l' = true ∧ (length l' ≤ 255)%nat) as (l' & -> & H1 & H2).
  { destruct (_ && _).
    - rewrite put_ok by lia. eexists. split; [done|]. split; [apply starts_with_app, Hl1|rewrite length_app; cbn [length]; lia].
    - exists l. split_and!; [done|apply Hl1|lia]. }
  cbn [mbind option_bind]. rewrite put_upto_ok by lia. eexists. split; [done|].
  split; [by apply starts_with_app|rewrite length_app, length_take; lia].
Qed.

Lemma drop_trailing_ok p : dir_ok p → dir_ok (drop_trailing_slash p).
Proof.
  intros [Hs Hl]. unfold drop_trailing_slash. destruct (Nat.ltb_spec 1 (length p)); [|done].
  destruct (_ =? _); [|done]. cbn [andb]. split; [by rewrite starts_with_take by lia|rewrite length_take; lia].
Qed.

Lemma set_dir_ok sh p : dir_ok p → set_current_dir sh p = Some (mkShell p (sh_ticks sh)).
Proof. intros [_ Hl]. unfold set_current_dir. by rewrite (proj2 (Nat.leb_le _ _)). Qed.

(** ** Every command ends *)

Definition effect_ok (e : Effect) : Prop := ∃ out sh r, e = Some (out, sh, r) ∧ dir_ok (current_dir sh).

Lemma effect_ok_intro out sh r : dir_ok (current_dir sh) → effect_ok (Some (out, sh, r)).
Proof. intros. by exists out, sh, r. Qed.

Lemma cmd_cd_ok cmd sh : dir_ok (current_dir sh) → effect_ok (cmd_cd cmd sh).
Proof.
  intros Hd. unfold cmd_cd, done. destruct (arg cmd 0) as [target|].
  2: { rewrite set_dir_ok by apply root_ok. by apply effect_ok_intro, root_ok. }
  destruct (_ || _); [rewrite set_dir_ok by apply root_ok; by apply effect_ok_intro, root_ok|].
  destruct (bool_decide (target = _)).
  { destruct (bool_decide _); [by apply effect_ok_intro|]. pose proof (starts_with_length _ _ (proj1 Hd)).
    rewrite (proj2 (Nat.eqb_neq _ 0)) by lia. set (i := last_slash _).
    assert (dir_ok (if (i =? 0)%nat then ROOT else take i (current_dir sh))).
    { destruct (Nat.eqb_spec i 0); [apply root_ok|]. destruct Hd. split; [by rewrite starts_with_take by lia|rewrite length_take; lia]. }
    rewrite set_dir_ok by done. by apply effect_ok_intro. }
  destruct (bool_decide _); [by apply effect_ok_intro|].
  destruct (build_path_ok (current_dir sh) target Hd) as (p & -> & Hp). cbn [mbind option_bind].
  rewrite set_dir_ok by (by apply drop_trailing_ok). by apply effect_ok_intro, drop_trailing_ok.
Qed.

Lemma cmd_cat_ok cmd sh : dir_ok (current_dir sh) → effect_ok (cmd_cat cmd sh).
Proof.
  intros Hd. unfold cmd_cat. destruct (arg cmd 0) as [f|]; [|by apply effect_ok_intro].
  destruct (build_path_ok (current_dir sh) f Hd) as (p & -> & _). by apply effect_ok_intro.
Qed.

Lemma cmd_ls_ok cmd sh : dir_ok (current_dir sh) → effect_ok (cmd_ls cmd sh).
Proof.
  intros Hd. unfold cmd_ls. rewrite put_all_ok by (vm_compute; lia). cbn [mbind option_bind]. rewrite put_upto_ok by lia.
  cbn [mbind option_bind]. generalize (has_flag cmd (txt "-a") (txt "--all")) (has_flag cmd (txt "-l") (txt "--long")).
  intros all long. assert (∃ ls, ls_entries all long (list_directory (default (current_dir sh) (arg cmd 0))) = Some ls) as [ls ->].
  { destruct all, long; eexists; vm_compute; reflexivity. }
  by apply effect_ok_intro.
Qed.

Lemma cmd_tree_ok cmd sh : dir_ok (current_dir sh) → effect_ok (cmd_tree cmd sh).
Proof.
  intros Hd. unfold cmd_tree. assert (∃ ls, map_opt tree_line (list_directory (default (current_dir sh) (arg cmd 0))) = Some ls) as [ls ->].
  { eexists. vm_compute. reflexivity. }
  by apply effect_ok_intro.
Qed.

Lemma u64_pow n : n ≤ U64_MAX → n < 10 ^ Z.of_nat (S 19).
Proof. unfold U64_MAX. cbn. lia. Qed.

Lemma cmd_kill_ok cmd sh : dir_ok (current_dir sh) → effect_ok (cmd_kill cmd sh).
Proof.
  intros Hd. unfold cmd_kill. destruct (arg cmd 0) as [a|]; [|by apply effect_ok_intro].
  destruct (parse_number a) as [pid|] eqn:Ep; [|by apply effect_ok_intro]. apply parse_number_range in Ep.
  destruct (_ <? _); [by apply effect_ok_intro|]. destruct (kill_process pid); [|by apply effect_ok_intro].
  rewrite put_all_ok by (vm_compute; lia). cbn [mbind option_bind].
  destruct (put_number_ok 64 ([] ++ txt "Signal sent to process ") pid 19) as (l & -> & _);
    [exact Ep|apply u64_pow, Ep|vm_compute; lia|]. by apply effect_ok_intro.
Qed.

Lemma cmd_exec_ok cmd sh : dir_ok (current_dir sh) → (length (args cmd) ≤ 16)%nat → effect_ok (cmd_exec cmd sh).
Proof.
  intros Hd Ha. unfold cmd_exec, exec_args. destruct (arg cmd 0); [|by apply effect_ok_intro].
  rewrite (proj2 (Nat.leb_le _ 16)) by lia. by apply effect_ok_intro.
Qed.

Lemma ipc_number_ok N l n : 0 ≤ n ≤ U64_MAX → (length l ≤ N)%nat → ∃ l', ipc_number N l n = Some l' ∧ (length l' ≤ N)%nat.
Proof.
  intros Hn Hl. unfold ipc_number. destruct (ipc_format_number_eq n (replicate (N - length l) 0) Hn) as (b & len & -> & E).
  rewrite length_replicate in E. destruct (format_number_ok n (N - length l) 19 Hn (u64_pow n (proj2 Hn))) as (ds & E' & H & _).
  eexists. split; [done|]. rewrite E in E'. injection E' as ->. rewrite length_app. lia.
Qed.

(** The parts of a time of day are 64-bit numbers, the last two below 60. *)
Lemma time_parts ticks : 0 ≤ ticks ≤ U64_MAX →
  0 ≤ ticks / 100 / 3600 ≤ U64_MAX ∧ 0 ≤ (ticks / 100) mod 3600 / 60 < 60 ∧ 0 ≤ (ticks / 100) mod 60 < 60.
Proof.
  intros Ht. pose proof (Z.mod_pos_bound (ticks / 100) 3600). pose proof (Z.mod_pos_bound (ticks / 100) 60).
  pose proof (Z.div_pos ticks 100). pose proof (Z.div_pos (ticks / 100) 3600). pose proof (Z.div_pos ((ticks / 100) mod 3600) 60).
  assert (ticks / 100 ≤ ticks) by (apply Z.div_le_upper_bound; lia).
  assert (ticks / 100 / 3600 ≤ ticks / 100) by (apply Z.div_le_upper_bound; lia).
  assert ((ticks / 100) mod 3600 / 60 < 60) by (apply Z.div_lt_upper_bound; lia). lia.
Qed.

Ltac step_bind H := destruct H as (?l & -> & ?); [try done; try lia..|]; cbn [mbind option_bind].

Lemma format_uptime_ok ticks N : 0 ≤ ticks ≤ U64_MAX → ∃ l, format_uptime ticks N = Some l ∧ (length l ≤ N)%nat.
Proof.
  intros Ht. destruct (time_parts ticks Ht) as (Hh & Hm & Hs). assert (60 ≤ U64_MAX) by (unfold U64_MAX; lia).
  assert (Hz : ∀ (c : bool) l, (length l ≤ N)%nat → ∃ l', (if c then put_if_room N l 48 else Some l) = Some l' ∧ (length l' ≤ N)%nat).
  { intros [] l Hl; [by apply put_if_room_ok|by exists l]. }
  unfold format_uptime. cbv zeta. step_bind (ipc_number_ok N [] (ticks / 100 / 3600)); [cbn; lia|].
  step_bind (put_if_room_ok N l 58). step_bind (Hz ((ticks / 100) mod 3600 / 60 <? 10) l0).
  step_bind (ipc_number_ok N l1 ((ticks / 100) mod 3600 / 60)). step_bind (put_if_room_ok N l2 58).
  step_bind (Hz ((ticks / 100) mod 60 <? 10) l3). apply ipc_number_ok; [lia|done].
Qed.

Lemma cmd_uptime_ok cmd sh : dir_ok (current_dir sh) → 0 ≤ sh_ticks sh ≤ U64_MAX → effect_ok (cmd_uptime cmd sh).
Proof.
  intros Hd Ht. unfold cmd_uptime. destruct (format_uptime_ok (sh_ticks sh) 64 Ht) as (l & -> & Hl). cbn [mbind option_bind].
  rewrite put_all_ok by (vm_compute; lia). cbn [mbind option_bind].
  rewrite put_all_ok; [by apply effect_ok_intro|]. change (length ([] ++ txt "System uptime: ")) with 15%nat. lia.
Qed.

Lemma put_two_ok N l n : 0 ≤ n < 100 → (length l + 3 ≤ N)%nat → ∃ l', put_two N l n = Some l' ∧ (length l' ≤ length l + 3)%nat.
Proof.
  intros Hn Hl. unfold put_two. assert (100 ≤ U64_MAX) by (unfold U64_MAX; lia).
  assert (∃ l', (if n <? 10 then put N l 48 else Some l) = Some l' ∧ (length l' ≤ length l + 1)%nat) as (l' & -> & Hl').
  { destruct (n <? 10); [|exists l; split; [done|lia]]. rewrite put_ok by lia. eexists. split; [done|]. rewrite length_app. cbn. lia. }
  destruct (put_number_ok N l' n 1) as (l2 & E & H1 & H2); [lia|cbn; lia|lia|]. exists l2. split; [done|lia].
Qed.

Lemma cmd_date_ok cmd sh : dir_ok (current_dir sh) → 0 ≤ sh_ticks sh ≤ U64_MAX → effect_ok (cmd_date cmd sh).
Proof.
  intros Hd Ht. destruct (time_parts _ Ht) as (Hh & Hm & Hs). pose proof (Z.mod_pos_bound (sh_ticks sh / 100 / 3600) 24).
  unfold cmd_date. cbv zeta.
  destruct (put_two_ok 32 [] ((sh_ticks sh / 100 / 3600) mod 24)) as (l1 & -> & H1); [lia|cbn; lia|]. cbn [mbind option_bind length] in *.
  rewrite put_ok by lia. cbn [mbind option_bind].
  destruct (put_two_ok 32 (l1 ++ [58]) ((sh_ticks sh / 100) mod 3600 / 60)) as (l2 & -> & H2); [lia|rewrite length_app; cbn; lia|].
  rewrite length_app in H2. cbn [mbind option_bind length] in *. rewrite put_ok by lia. cbn [mbind option_bind].
  destruct (put_two_ok 32 (l2 ++ [58]) ((sh_ticks sh / 100) mod 60)) as (l3 & -> & H3); [lia|rewrite length_app; cbn; lia|].
  cbn [mbind option_bind]. rewrite put_upto_ok by lia. by apply effect_ok_intro.
Qed.

Lemma echo_args_ok l first args : (length l ≤ 256)%nat → ∃ l', echo_args l first args = Some l'.
Proof.
  revert l first. induction args as [|a args IH]; intros l first Hl; cbn [echo_args]; [by exists l|].
  assert (∃ l', (if negb first then put_if_room 256 l 32 else Some l) = Some l' ∧ (length l' ≤ 256)%nat) as (l' & -> & Hl').
  { destruct first; [by exists l|by apply put_if_room_ok]. }
  cbn [mbind option_bind]. rewrite put_upto_ok by lia. cbn [mbind option_bind]. apply IH. rewrite length_app, length_take. lia.
Qed.

Lemma cmd_echo_ok cmd sh : dir_ok (current_dir sh) → effect_ok (cmd_echo cmd sh).
Proof.
  intros Hd. unfold cmd_echo. destruct (echo_args_ok [] true (args cmd)) as (l & ->); [cbn; lia|]. by apply effect_ok_intro.
Qed.

Lemma cmd_sysinfo_ok cmd sh : dir_ok (current_dir sh) → 0 ≤ sh_ticks sh ≤ U64_MAX → effect_ok (cmd_sysinfo cmd sh).
Proof.
  intros Hd Ht. unfold cmd_sysinfo, query_memory. destruct (format_uptime_ok (sh_ticks sh) 64 Ht) as (l & -> & Hl).
  by apply effect_ok_intro.
Qed.

(** A command whose text does not depend on anything. *)
Lemma constant_ok {A} (m : option A) (f : A → list Out) sh a : m = Some a → dir_ok (current_dir sh) →
  effect_ok (x ← m; done (f x) sh).
Proof. intros -> Hd. by apply effect_ok_intro. Qed.

Lemma cmd_help_ok cmd sh : dir_ok (current_dir sh) → effect_ok (cmd_help cmd sh).
Proof.
  intros Hd. unfold cmd_help. destruct (arg cmd 0) as [topic|].
  - destruct (get_command_help topic) as [[usage desc]|]; by apply effect_ok_intro.
  - eapply constant_ok; [vm_compute; reflexivity|done].
Qed.

Lemma cmd_ps_ok cmd sh : dir_ok (current_dir sh) → effect_ok (cmd_ps cmd sh).
Proof. intros Hd. unfold cmd_ps. eapply constant_ok; [vm_compute; reflexivity|done]. Qed.

Lemma cmd_services_ok cmd sh : dir_ok (current_dir sh) → effect_ok (cmd_services cmd sh).
Proof. intros Hd. unfold cmd_services. eapply constant_ok; [vm_compute; reflexivity|done]. Qed.

Lemma cmd_memory_ok cmd sh : dir_ok (current_dir sh) → effect_ok (cmd_memory cmd sh).
Proof. intros Hd. by eexists _, sh, CrOk. Qed.

Lemma cmd_version_ok cmd sh : dir_ok (current_dir sh) → effect_ok (cmd_version cmd sh).
Proof. intros Hd. by eexists _, sh, CrOk. Qed.

#[local] Hint Resolve cmd_help_ok cmd_version_ok cmd_uptime_ok cmd_date_ok cmd_echo_ok cmd_sysinfo_ok cmd_ps_ok cmd_kill_ok
  cmd_exec_ok cmd_memory_ok cmd_services_ok cmd_ls_ok cmd_cd_ok cmd_cat_ok cmd_tree_ok effect_ok_intro : commands.

Lemma execute_ok cmd sh : dir_ok (current_dir sh) → 0 ≤ sh_ticks sh ≤ U64_MAX → (length (args cmd) ≤ 16)%nat →
  effect_ok (execute cmd sh).
Proof. intros Hd Ht Ha. unfold execute. repeat case_match; try (by apply effect_ok_intro); auto with commands. Qed.

(** Commands typed one after the other, at any time. *)
Fixpoint run_lines (sh : Shell) (lines : list (list Z * Z)) : option (Shell * list CommandResult) :=
  match lines with
  | [] => Some (sh, [])
  | (line, ticks) :: lines =>
      match parse_command line with
      | None => run_lines sh lines
      | Some cmd =>
          '(_, sh, r) ← execute cmd (mkShell (current_dir sh) ticks);
          '(sh, rs) ← run_lines sh lines; Some (sh, r :: rs)
      end
  end.

(** No command line crashes the terminal.  Whatever is typed and whenever,
    parsing and executing it reads and writes inside every fixed-size array
    the commands use, and the current directory remains an absolute path of
    at most 255 bytes - which is what setting it takes for granted. *)
Theorem commands_never_panic (lines : list (list Z * Z)) : Forall (λ lt, 0 ≤ lt.2 ≤ U64_MAX) lines →
  ∃ sh rs, run_lines (mkShell ROOT 0) lines = Some (sh, rs) ∧ starts_with SLASH (current_dir sh) = true ∧
    (length (current_dir sh) ≤ 255)%nat.
Proof.
  assert (Hd : dir_ok (current_dir (mkShell ROOT 0))) by apply root_ok. revert Hd. generalize (mkShell ROOT 0).
  induction lines as [|[line ticks] lines IH]; intros sh Hd Hl; [exists sh, []; split; [done|apply Hd]|].
  apply Forall_cons in Hl as [Ht Hl]. cbn [run_lines]. destruct (parse_command line) as [cmd|] eqn:Ep; [|by apply IH].
  destruct (execute_ok cmd (mkShell (current_dir sh) ticks) Hd Ht (parse_command_args _ _ Ep)) as (out & sh' & r & -> & Hd').
  cbn [mbind option_bind]. destruct (IH sh' Hd' Hl) as (sh2 & rs & -> & H). by exists sh2, (r :: rs).
Qed.

Lemma commands_never_panic_witness :
  ∃ sh rs, run_lines (mkShell ROOT 0) [(txt "cd home/user", 7); (txt "ls -l", 8); (txt "cd ..", 9)] = Some (sh, rs) ∧
    starts_with SLASH (current_dir sh) = true ∧ (length (current_dir sh) ≤ 255)%nat.
Proof. apply commands_never_panic. repeat constructor; cbn; unfold U64_MAX; lia. Defined.
