(* ===== verification/Terminal.v ===== *)
(** * Terminal: the program ([drivers/terminal/src/main.rs], [ipc_client.rs])

    The terminal's state, what each key does to it, how it is drawn, and its
    main loop over the system calls of [UserLib].  [None] is a panic.  The
    calls of [log] are left out, and [get_ticks] is the tick counter that a key
    is handled at. *)

From S2P Require Import Prelude Thread Input Vm Kernel Syscall UserLib Keys Graphics Canvas TermBuffer TermWindow TermParser TermCommands.

(** ** State *)

Record Terminal := mkTerminal {
  t_window : TerminalWindow;
  t_display : DisplayBuffer;
  t_input : InputBuffer;
  t_handler : InputHandler;
  t_history : History;
  t_response_port : option Z;
  t_running : bool;
  t_prompt_row : nat;
  t_prompt_col : nat;
  (** [CURRENT_DIR] of [filesystem.rs]. *)
  t_dir : list Z;
}.

Definition Terminal_new : Terminal :=
  mkTerminal (TerminalWindow_new (txt "Atom Terminal")) DisplayBuffer_new InputBuffer_new InputHandler_new History_new
    None true 0 0 ROOT.

Definition set_display (t : Terminal) (d : DisplayBuffer) : Terminal :=
  mkTerminal (t_window t) d (t_input t) (t_handler t) (t_history t) (t_response_port t) (t_running t)
    (t_prompt_row t) (t_prompt_col t) (t_dir t).
Definition set_input (t : Terminal) (b : InputBuffer) : Terminal :=
  mkTerminal (t_window t) (t_display t) b (t_handler t) (t_history t) (t_response_port t) (t_running t)
    (t_prompt_row t) (t_prompt_col t) (t_dir t).
Definition set_handler (t : Terminal) (h : InputHandler) : Terminal :=
  mkTerminal (t_window t) (t_display t) (t_input t) h (t_history t) (t_response_port t) (t_running t)
    (t_prompt_row t) (t_prompt_col t) (t_dir t).
Definition set_history (t : Terminal) (h : History) : Terminal :=
  mkTerminal (t_window t) (t_display t) (t_input t) (t_handler t) h (t_response_port t) (t_running t)
    (t_prompt_row t) (t_prompt_col t) (t_dir t).
Definition set_port (t : Terminal) (p : option Z) : Terminal :=
  mkTerminal (t_window t) (t_display t) (t_input t) (t_handler t) (t_history t) p (t_running t)
    (t_prompt_row t) (t_prompt_col t) (t_dir t).
Definition set_prompt (t : Terminal) (row col : nat) : Terminal :=
  mkTerminal (t_window t) (t_display t) (t_input t) (t_handler t) (t_history t) (t_response_port t) (t_running t)
    row col (t_dir t).
Definition set_dir (t : Terminal) (dir : list Z) : Terminal :=
  mkTerminal (t_window t) (t_display t) (t_input t) (t_handler t) (t_history t) (t_response_port t) (t_running t)
    (t_prompt_row t) (t_prompt_col t) dir.
Definition stop (t : Terminal) : Terminal :=
  mkTerminal (t_window t) (t_display t) (t_input t) (t_handler t) (t_history t) (t_response_port t) false
    (t_prompt_row t) (t_prompt_col t) (t_dir t).

(** ** Banner and prompt *)

Definition welcome : list Out :=
  [mkOut [] TEXT_NORMAL true; mkOut (txt "  Atom Terminal v0.1.0") TEXT_INFO true;
   mkOut (txt "  Type 'help' for available commands.") TEXT_DIM true; mkOut [] TEXT_NORMAL true].

Definition prompt : list Out :=
  [mkOut (txt "user") PROMPT_USER false; mkOut (txt "@") TEXT_DIM false; mkOut (txt "atom") PROMPT_USER false;
   mkOut (txt ":") TEXT_DIM false; mkOut (txt "/") PROMPT_PATH false; mkOut (txt "$ ") PROMPT_SYMBOL false].

Definition show (t : Terminal) (out : list Out) : option Terminal :=
  d ← for_each output (t_display t) out; Some (set_display t d).

Definition show_welcome (t : Terminal) : option Terminal := show t welcome.

Definition show_prompt (t : Terminal) : option Terminal :=
  t ← show t prompt; Some (set_prompt t (cursor_row (t_display t)) (cursor_col (t_display t))).

(** ** Keys *)

(** [KeyEvent::Char]: [is_ascii] and not [is_ascii_control]. *)
Definition printable (c : Z) : bool := (0 <=? c) && (c <? 128) && negb ((c <? 32) || (c =? 127)).

Definition key_char (t : Terminal) (c : Z) : option Terminal :=
  if printable c then '(b, _) ← ib_insert (t_input t) c; Some (set_input t b) else Some t.

(** The command is over: clear the line and prompt again. *)
Definition next_prompt (t : Terminal) : option Terminal := show_prompt (set_input t (ib_clear (t_input t))).

(** Parse and execute a line; the flag tells whether the terminal goes on. *)
Definition run_command (t : Terminal) (ticks : Z) (line : list Z) : option (Terminal * bool) :=
  match parse_command line with
  | None => Some (t, true)
  | Some cmd =>
      '(out, sh, r) ← execute cmd (mkShell (t_dir t) ticks);
      t ← show (set_dir t (current_dir sh)) out;
      Some match r with
           | CrExit => (stop t, false)
           | CrClear => (set_display t (display_clear (t_display t)), true)
           | _ => (t, true)
           end
  end.

Definition key_enter (t : Terminal) (ticks : Z) : option Terminal :=
  d ← newline (t_display t);
  let t := set_display t d in
  let line := as_bytes (t_input t) in
  if (length line =? 0)%nat then next_prompt t
  else
    h ← h_push (t_history t) line;
    '(t, continue) ← run_command (set_history t h) ticks line;
    if continue : bool then next_prompt t else Some t.

Definition key_up (t : Terminal) : option Terminal :=
  '(h, prev) ← h_previous (t_history t);
  let t := set_history t h in
  match prev with Some s => b ← ib_set (t_input t) s; Some (set_input t b) | None => Some t end.

Definition key_down (t : Terminal) : option Terminal :=
  '(h, next) ← h_next (t_history t);
  let t := set_history t h in
  match next with
  | Some s => b ← ib_set (t_input t) s; Some (set_input t b)
  | None => Some (set_input t (ib_clear (t_input t)))
  end.

Definition key_tab (t : Terminal) : option Terminal :=
  b ← for_each (λ b c, '(b, _) ← ib_insert b c; Some b) (t_input t) (replicate 4 32); Some (set_input t b).

(** [while cursor < len { delete(); }]; the line is shorter than the bound. *)
Fixpoint kill_to_end (n : nat) (b : InputBuffer) : option InputBuffer :=
  if (ib_cursor b <? ib_len b)%nat then
    match n with O => None | S n => '(b, _) ← ib_delete b; kill_to_end n b end
  else Some b.

Definition key_control (t : Terminal) (c : Z) : option Terminal :=
  match c with
  | 0x03 => d ← writeln (t_display t) (txt "^C") TEXT_DIM; next_prompt (set_display t d)
  | 0x04 => Some (if ib_is_empty (t_input t) then stop t else t)
  | 0x0C => show_prompt (set_display t (display_clear (t_display t)))
  | 0x01 => Some (set_input t (cursor_home (t_input t)))
  | 0x05 => Some (set_input t (cursor_end (t_input t)))
  | 0x15 => Some (set_input t (ib_clear (t_input t)))
  | 0x0B => b ← kill_to_end MAX_LINE_LENGTH (t_input t); Some (set_input t b)
  | _ => Some t
  end.

Definition handle_key (t : Terminal) (ticks : Z) (key : TermKey) : option Terminal :=
  match key with
  | TkChar c => key_char t c
  | TkEnter => key_enter t ticks
  | TkBackspace => '(b, _) ← ib_backspace (t_input t); Some (set_input t b)
  | TkDelete => '(b, _) ← ib_delete (t_input t); Some (set_input t b)
  | TkArrowLeft => Some (set_input t (cursor_left (t_input t)).1)
  | TkArrowRight => Some (set_input t (cursor_right (t_input t)).1)
  | TkArrowUp => key_up t
  | TkArrowDown => key_down t
  | TkHome => Some (set_input t (cursor_home (t_input t)))
  | TkEnd => Some (set_input t (cursor_end (t_input t)))
  | TkTab => key_tab t
  | TkEscape => Some (set_input t (ib_clear (t_input t)))
  | TkControl c => key_control t c
  | TkAlt _ | TkPageUp | TkPageDown | TkFunction _ | TkInsert => Some t
  end.

(** ** Drawing *)

Definition config (t : Terminal) : WindowConfig := tw_config (t_window t).

Definition render_cell (cfg : WindowConfig) (fb : Framebuffer) (line : Line) (row : nat) (px : Pixels) (c : nat) : option Pixels :=
  cell ← line_get line c;
  Some match cell with
       | Some cell => tw_draw_char cfg fb px (Z.of_nat row) (Z.of_nat c) (ch cell) (fg cell) (bg cell)
       | None => tw_draw_char cfg fb px (Z.of_nat row) (Z.of_nat c) 32 TEXT_NORMAL WINDOW_BG
       end.

Definition render_row (t : Terminal) (fb : Framebuffer) (px : Pixels) (row : nat) : option Pixels :=
  line ← get_line (t_display t) row;
  match line with
  | Some line => for_each (render_cell (config t) fb line row) px (seq 0 (Z.to_nat (cols (config t))))
  | None => Some (clear_row (config t) fb px (Z.of_nat row))
  end.

(** A byte of the command line, inverted under the cursor. *)
Definition render_input_byte (t : Terminal) (fb : Framebuffer) (px : Pixels) (ib : nat * Z) : Pixels :=
  let '(i, byte) := ib in
  let row := wrap32 (Z.of_nat (t_prompt_row t)) in
  let c := (t_prompt_col t + i)%nat in
  if Z.of_nat c <? cols (config t) then
    if (i =? ib_cursor (t_input t))%nat then draw_char_with_cursor (config t) fb px row (wrap32 (Z.of_nat c)) byte
    else tw_draw_char (config t) fb px row (wrap32 (Z.of_nat c)) byte TEXT_NORMAL WINDOW_BG
  else px.

Definition render_input (t : Terminal) (fb : Framebuffer) (px : Pixels) : Pixels :=
  let row := wrap32 (Z.of_nat (t_prompt_row t)) in
  let bytes := as_bytes (t_input t) in
  let px := clear_to_eol (config t) fb px row (wrap32 (Z.of_nat (t_prompt_col t))) in
  let px := foldl (render_input_byte t fb) px (zip (seq 0 (length bytes)) bytes) in
  let c := (t_prompt_col t + length bytes)%nat in
  if (length bytes <=? ib_cursor (t_input t))%nat && (Z.of_nat c <? cols (config t)) then
    tw_draw_cursor (config t) fb px row (wrap32 (Z.of_nat c))
  else px.

Definition render (t : Terminal) (fb : Framebuffer) (px : Pixels) : option Pixels :=
  px ← for_each (render_row t fb) px (seq 0 (Z.to_nat (rows (config t)))); Some (render_input t fb px).

(** ** The program *)

Section Program.
Context {D : Type} {ps2 : Ps2 D} {mmu : Mmu}.
Context (switch_context : CpuContext → CpuContext → CpuContext) (resume : Kernel D → Kernel D).
Context (fuel : nat) (left : list Z).

(** [IpcClient::init] and [IpcClient::cleanup]. *)
Definition ipc_init (k : Kernel D) (t : Terminal) : option (Kernel D * Terminal) :=
  '(k, r) ← lib_create_port switch_context resume fuel left k;
  Some (k, match r with Ok port => set_port t (Some port) | Err _ => t end).

Definition ipc_cleanup (k : Kernel D) (t : Terminal) : option (Kernel D * Terminal) :=
  match t_response_port t with
  | Some port => '(k, _) ← lib_close_port switch_context resume fuel left k port; Some (k, set_port t None)
  | None => Some (k, t)
  end.

(** The part of [init] after the client's. *)
Definition term_start (t : Terminal) (fb : Framebuffer) (px : Pixels) : option (Terminal * Pixels) :=
  let cfg := config t in
  let t := set_display t (set_dimensions (t_display t) (Z.to_nat (rows cfg)) (Z.to_nat (cols cfg))) in
  let px := draw_frame (t_window t) fb px in
  t ← show_welcome t;
  t ← show_prompt t;
  px ← render t fb px;
  Some (t, px).

Definition term_init (k : Kernel D) (t : Terminal) (fb : Framebuffer) (px : Pixels) : option (Kernel D * Terminal * Pixels) :=
  '(k, t) ← ipc_init k t;
  '(t, px) ← term_start t fb px;
  Some (k, t, px).

(** [InputHandler::poll] *)
Definition poll_key (n : nat) (k : Kernel D) (h : InputHandler) : option (Kernel D * InputHandler * option TermKey) :=
  poll_until (keyboard_poll switch_context resume fuel left) term_scancode n k h.

(** The inner loop of [run]; [n] bounds it and each [poll]. *)
Fixpoint handle_events (n : nat) (k : Kernel D) (t : Terminal) (needs_render : bool) : option (Kernel D * Terminal * bool) :=
  match n with
  | O => None
  | S m =>
      '(k, h, e) ← poll_key n k (t_handler t);
      let t := set_handler t h in
      match e with
      | None => Some (k, t, needs_render)
      | Some key => t ← handle_key t (k_ticks k) key; handle_events m k t true
      end
  end.

(** One round of the outer loop of [run]. *)
Definition run_round (n : nat) (k : Kernel D) (t : Terminal) (fb : Framebuffer) (px : Pixels) : option (Kernel D * Terminal * Pixels) :=
  '(k, t, needs_render) ← handle_events n k t false;
  px ← (if needs_render : bool then render t fb px else Some px);
  k ← yield_now switch_context resume fuel left k;
  Some (k, t, px).
End Program.
