(* ===== verification/TerminalSafety.v ===== *)
(** * Terminal: the program refines a simple session

    An abstract session has a line with a cursor, an unbounded log of commands
    and an unbounded screen.  Whatever keys are pressed, the terminal never
    panics and shows what the session says. *)

From S2P Require Import Prelude Graphics Canvas CanvasSafety TermBuffer TermBufferSafety TermWindow TermParser TermCommands CommandSafety Keys Terminal.

(** ** The session *)

Record Session := mkSession {
  s_editor : Editor;
  s_log : Log;
  s_screen : Screen;
  s_prompt : nat * nat;
  s_dir : list Z;
  s_running : bool;
}.

(** The window has 44 rows of 77 columns. *)
Definition ROWS : nat := 44.
Definition COLS : nat := 77.

Definition blank_screen : Screen := mkScreen [] [] 0.

Definition write_text (sc : Screen) (s : list Z) (color : Color) : Screen :=
  foldl (λ sc c, write_spec COLS sc (c, color)) sc s.

Definition write_out (sc : Screen) (o : Out) : Screen :=
  let sc := write_text sc (o_text o) (o_color o) in if o_newline o then newline_spec sc else sc.

Definition on_editor (s : Session) (e : Editor) : Session :=
  mkSession e (s_log s) (s_screen s) (s_prompt s) (s_dir s) (s_running s).
Definition on_screen (s : Session) (sc : Screen) : Session :=
  mkSession (s_editor s) (s_log s) sc (s_prompt s) (s_dir s) (s_running s).
Definition on_log (s : Session) (l : Log) : Session :=
  mkSession (s_editor s) l (s_screen s) (s_prompt s) (s_dir s) (s_running s).
Definition ended (s : Session) : Session :=
  mkSession (s_editor s) (s_log s) (s_screen s) (s_prompt s) (s_dir s) false.

(** Editing goes through the specification of the line editor. *)
Definition edited (s : Session) (op : Edit) : Session := on_editor s (edit_spec (s_editor s) op).1.

Definition prompted (s : Session) : Session :=
  let sc := foldl write_out (s_screen s) prompt in
  mkSession (s_editor s) (s_log s) sc (Nat.min (length (finished sc)) (ROWS - 1), col sc) (s_dir s) (s_running s).

(** A command line that is not empty. *)
Definition executed (s : Session) (ticks : Z) (line : list Z) : Session * bool :=
  match parse_command line with
  | None => (s, true)
  | Some cmd =>
      match execute cmd (mkShell (s_dir s) ticks) with
      | None => (s, false)
      | Some (out, sh, r) =>
          let s := mkSession (s_editor s) (s_log s) (foldl write_out (s_screen s) out) (s_prompt s) (current_dir sh) (s_running s) in
          match r with CrExit => (ended s, false) | CrClear => (on_screen s blank_screen, true) | _ => (s, true) end
      end
  end.

Definition entered (s : Session) (ticks : Z) : Session :=
  let line := text (s_editor s) in
  let s := on_screen s (newline_spec (s_screen s)) in
  match line with
  | [] => prompted (edited s EClear)
  | _ =>
      let '(s, continue) := executed (on_log s (recall_spec (s_log s) (RPush line)).1) ticks line in
      if continue : bool then prompted (edited s EClear) else s
  end.

(** An arrow: the command recalled, or else [none]. *)
Definition recalled (s : Session) (op : Recall) (none : Session → Session) : Session :=
  let '(l, r) := recall_spec (s_log s) op in
  let s := on_log s l in
  match r with Some cmd => edited s (ESet cmd) | None => none s end.

Definition control (s : Session) (c : Z) : Session :=
  match c with
  | 0x03 => prompted (edited (on_screen s (write_out (s_screen s) (mkOut (txt "^C") TEXT_DIM true))) EClear)
  | 0x04 => if bool_decide (text (s_editor s) = []) then ended s else s
  | 0x0C => prompted (on_screen s blank_screen)
  | 0x01 => edited s EHome
  | 0x05 => edited s EEnd
  | 0x15 => edited s EClear
  | 0x0B => on_editor s (mkEditor (before (s_editor s)) [])
  | _ => s
  end.

Definition pressed (s : Session) (ticks : Z) (key : TermKey) : Session :=
  match key with
  | TkChar c => if printable c then edited s (EInsert c) else s
  | TkEnter => entered s ticks
  | TkBackspace => edited s EBackspace
  | TkDelete => edited s EDelete
  | TkArrowLeft => edited s ELeft
  | TkArrowRight => edited s ERight
  | TkArrowUp => recalled s RPrevious id
  | TkArrowDown => recalled s RNext (λ s, edited s EClear)
  | TkHome => edited s EHome
  | TkEnd => edited s EEnd
  | TkTab => foldl (λ s c, edited s (EInsert c)) s (replicate 4 32)
  | TkEscape => edited s EClear
  | TkControl c => control s c
  | TkAlt _ | TkPageUp | TkPageDown | TkFunction _ | TkInsert => s
  end.

Definition session_start : Session :=
  prompted (mkSession (mkEditor [] []) (mkLog [] 0) (foldl write_out blank_screen welcome) (0, 0)%nat ROOT true).

(** What is written is followed symbolically. *)
#[local] Opaque prompt welcome txt execute parse_command write_spec.

(** ** The simulation *)

Record term_rel (t : Terminal) (s : Session) : Prop := {
  tr_editor : editor_rel (t_input t) (s_editor s);
  tr_log : history_rel (t_history t) (s_log s);
  tr_screen : display_rel ROWS COLS (t_display t) (s_screen s);
  tr_prompt : (t_prompt_row t, t_prompt_col t) = s_prompt s;
  tr_dir : t_dir t = s_dir s;
  tr_dir_ok : dir_ok (s_dir s);
  tr_running : t_running t = s_running s;
  tr_window : tw_config (t_window t) = WindowConfig_new;
}.

Lemma write_str_sim d sc s color : display_rel ROWS COLS d sc →
  ∃ d', write_str d s color = Some d' ∧ display_rel ROWS COLS d' (write_text sc s color).
Proof.
  unfold write_str, write_text. revert d sc. induction s as [|c s IH]; intros d sc HR; cbn [for_each foldl]; [by exists d|].
  destruct (write_sim ROWS COLS d sc (c, color) HR) as (d' & E & HR'). cbn [fst snd] in E. rewrite E. by apply IH.
Qed.

Lemma output_sim d sc o : display_rel ROWS COLS d sc → ∃ d', output d o = Some d' ∧ display_rel ROWS COLS d' (write_out sc o).
Proof.
  intros HR. destruct (write_str_sim d sc (o_text o) (o_color o) HR) as (d' & E & HR'). unfold output, write_out, writeln.
  rewrite E. cbn zeta. destruct (o_newline o); [|by exists d']. apply newline_sim, HR'.
Qed.

Lemma outputs_sim d sc out : display_rel ROWS COLS d sc →
  ∃ d', for_each output d out = Some d' ∧ display_rel ROWS COLS d' (foldl write_out sc out).
Proof.
  revert d sc. induction out as [|o out IH]; intros d sc HR; cbn [for_each foldl]; [by exists d|].
  destruct (output_sim d sc o HR) as (d' & -> & HR'). by apply IH.
Qed.

Lemma display_clear_sim d sc : display_rel ROWS COLS d sc → display_rel ROWS COLS (display_clear d) blank_screen.
Proof.
  intros [(Hrows & Hcols & Hr & Hc & Hlen & Hok & _) _]. split; [|cbn; lia]. unfold display_core.
  cbn [display_clear max_rows max_cols lines cursor_col cursor_row line_count blank_screen finished current col length].
  split_and!; try (done || lia).
  - by rewrite length_fmap.
  - apply Forall_fmap. eapply Forall_impl; [exact Hok|]. intros l Hl. by apply line_clear_ok.
  - by right.
  - by destruct (lines d).
Qed.

(** Steps of the terminal that change one part. *)
Lemma rel_editor t s b e : term_rel t s → editor_rel b e → term_rel (set_input t b) (on_editor s e).
Proof. intros [] ?. by split. Qed.
Lemma rel_log t s h l : term_rel t s → history_rel h l → term_rel (set_history t h) (on_log s l).
Proof. intros [] ?. by split. Qed.
Lemma rel_screen t s d sc : term_rel t s → display_rel ROWS COLS d sc → term_rel (set_display t d) (on_screen s sc).
Proof. intros [] ?. by split. Qed.
Lemma rel_stop t s : term_rel t s → term_rel (stop t) (ended s).
Proof. intros []. by split. Qed.

Lemma rel_edit t s op : term_rel t s →
  ∃ b r, edit (t_input t) op = Some (b, r) ∧ term_rel (set_input t b) (edited s op).
Proof.
  intros HR. destruct (edit_sim _ _ op (tr_editor _ _ HR)) as (b & E & HE). eexists _, _. split; [exact E|]. by apply rel_editor.
Qed.

Lemma rel_clear t s : term_rel t s → term_rel (set_input t (ib_clear (t_input t))) (edited s EClear).
Proof. intros HR. destruct (rel_edit t s EClear HR) as (b & r & E & H). cbn in E. by injection E as <- <-. Qed.

Lemma show_sim t s out : term_rel t s →
  ∃ t', show t out = Some t' ∧ term_rel t' (on_screen s (foldl write_out (s_screen s) out)).
Proof.
  intros HR. destruct (outputs_sim _ _ out (tr_screen _ _ HR)) as (d & E & HD). unfold show. rewrite E.
  eexists. split; [done|]. by apply rel_screen.
Qed.

Lemma show_prompt_sim t s : term_rel t s → ∃ t', show_prompt t = Some t' ∧ term_rel t' (prompted s).
Proof.
  intros HR. unfold show_prompt. destruct (show_sim t s prompt HR) as (t' & -> & HR'). cbn [mbind option_bind].
  eexists. split; [reflexivity|].
  destruct (tr_screen _ _ HR') as [(_ & _ & _ & _ & _ & _ & Hcol & _ & Hrow & _) _].
  assert (Hp : (cursor_row (t_display t'), cursor_col (t_display t')) = s_prompt (prompted s)).
  { cbn [prompted s_prompt on_screen s_screen] in *. rewrite Hcol. f_equal. unfold ROWS in *. lia. }
  destruct HR' as [H1 H2 H3 H4 H5 H6 H7 H8].
  split; [exact H1|exact H2|exact H3|exact Hp|exact H5|exact H6|exact H7|exact H8].
Qed.

Lemma next_prompt_sim t s : term_rel t s → ∃ t', next_prompt t = Some t' ∧ term_rel t' (prompted (edited s EClear)).
Proof. intros HR. by apply show_prompt_sim, rel_clear. Qed.

(** ** Keys *)

Lemma text_nil b e : editor_rel b e → ib_is_empty b = bool_decide (text e = []).
Proof.
  intros (_ & _ & H & _). unfold ib_is_empty. rewrite H. destruct (text e); [by rewrite bool_decide_eq_true_2|].
  by rewrite bool_decide_eq_false_2.
Qed.

Lemma as_bytes_text b e : editor_rel b e → as_bytes b = text e.
Proof. intros (_ & _ & H & _ & rest & E). unfold as_bytes. by rewrite H, E, take_app_length. Qed.

(** Deleting ends with nothing after the cursor, and 256 turns are enough. *)
Lemma kill_sim n b e : editor_rel b e → (length (after e) ≤ n)%nat →
  ∃ b', kill_to_end n b = Some b' ∧ editor_rel b' (mkEditor (before e) []).
Proof.
  revert b e. induction n as [|n IH]; intros b [bef aft] HR Hn; pose proof HR as (_ & _ & Hl & Hc & _);
    rewrite length_text in Hl; cbn [before after] in *.
  - destruct aft; [|cbn in Hn; lia]. exists b. cbn [kill_to_end].
    by destruct (Nat.ltb_spec (ib_cursor b) (ib_len b)); [cbn in *; lia|].
  - cbn [kill_to_end]. destruct (Nat.ltb_spec (ib_cursor b) (ib_len b)).
    + destruct aft as [|c aft]; [cbn in *; lia|]. destruct (delete_sim b _ HR) as (b' & -> & HR'). cbn [mbind option_bind].
      destruct bef; cbn in HR'; (destruct (IH b' _ HR') as (b2 & E & H2); [cbn in *; lia|]; by exists b2).
    + destruct aft; [by exists b|cbn in *; lia].
Qed.

Lemma tab_sim t s cs : term_rel t s →
  ∃ b, for_each (λ b c, '(b, _) ← ib_insert b c; Some b) (t_input t) cs = Some b ∧
    term_rel (set_input t b) (foldl (λ s c, edited s (EInsert c)) s cs).
Proof.
  revert t s. induction cs as [|c cs IH]; intros t s HR; cbn [for_each foldl].
  { exists (t_input t). split; [done|]. by destruct t. }
  destruct (rel_edit t s (EInsert c) HR) as (b & r & E & H). cbn [edit] in E. rewrite E. cbn [mbind option_bind].
  destruct (IH _ _ H) as (b' & Eb & Hb). by exists b'.
Qed.

Lemma recall_key t s op : term_rel t s →
  ∃ h r, recall (t_history t) op = Some (h, r) ∧ r = (recall_spec (s_log s) op).2 ∧
    term_rel (set_history t h) (on_log s (recall_spec (s_log s) op).1).
Proof.
  intros HR. destruct (recall_sim _ _ op (tr_log _ _ HR)) as (h & E & H). eexists _, _. split; [exact E|].
  split; [done|]. by apply rel_log.
Qed.

Lemma set_line_sim t s line : term_rel t s →
  ∃ b, ib_set (t_input t) line = Some b ∧ term_rel (set_input t b) (edited s (ESet line)).
Proof.
  intros HR. destruct (rel_edit t s (ESet line) HR) as (b & r & E & H). exists b. split; [|done].
  cbn [edit] in E. destruct (ib_set _ _); [|done]. cbn in E. by injection E as -> _.
Qed.

Lemma key_up_sim t s : term_rel t s → ∃ t', key_up t = Some t' ∧ term_rel t' (recalled s RPrevious id).
Proof.
  intros HR. destruct (recall_key t s RPrevious HR) as (h & r & E & -> & H). cbn [recall] in E. unfold key_up, recalled. rewrite E.
  destruct (recall_spec (s_log s) RPrevious) as [l [cmd|]]; cbn [mbind option_bind snd fst] in *; [|by eexists].
  destruct (set_line_sim _ _ cmd H) as (b & -> & Hb). by eexists.
Qed.

Lemma key_down_sim t s : term_rel t s → ∃ t', key_down t = Some t' ∧ term_rel t' (recalled s RNext (λ s, edited s EClear)).
Proof.
  intros HR. destruct (recall_key t s RNext HR) as (h & r & E & -> & H). cbn [recall] in E. unfold key_down, recalled. rewrite E.
  destruct (recall_spec (s_log s) RNext) as [l [cmd|]]; cbn [mbind option_bind snd fst] in *.
  - destruct (set_line_sim _ _ cmd H) as (b & -> & Hb). by eexists.
  - eexists. split; [done|]. by apply rel_clear.
Qed.

Lemma run_command_sim t s ticks line : term_rel t s → 0 ≤ ticks ≤ U64_MAX →
  ∃ t', run_command t ticks line = Some (t', (executed s ticks line).2) ∧ term_rel t' (executed s ticks line).1.
Proof.
  intros HR Ht. unfold run_command, executed. destruct (parse_command line) as [cmd|] eqn:Ep; [|by exists t].
  rewrite (tr_dir _ _ HR).
  destruct (execute_ok cmd (mkShell (s_dir s) ticks) (tr_dir_ok _ _ HR) Ht (parse_command_args _ _ Ep)) as (out & sh & r & -> & Hd).
  cbn [mbind option_bind].
  assert (HR1 : term_rel (set_dir t (current_dir sh)) (mkSession (s_editor s) (s_log s) (s_screen s) (s_prompt s) (current_dir sh) (s_running s)))
    by (destruct HR; by split).
  destruct (show_sim _ _ out HR1) as (t' & -> & HR2). cbn [mbind option_bind on_screen s_screen] in *.
  destruct r; eexists; (split; [reflexivity|]); try exact HR2.
  - apply (rel_screen _ _ _ _ HR2), (display_clear_sim _ _ (tr_screen _ _ HR2)).
  - by apply rel_stop.
Qed.

Lemma key_enter_sim t s ticks : term_rel t s → 0 ≤ ticks ≤ U64_MAX →
  ∃ t', key_enter t ticks = Some t' ∧ term_rel t' (entered s ticks).
Proof.
  intros HR Ht. unfold key_enter, entered. destruct (newline_sim _ _ _ _ (proj1 (tr_screen _ _ HR))) as (d & -> & Hd).
  cbn [mbind option_bind]. pose proof (rel_screen _ _ _ _ HR Hd) as HR1. cbn [t_input set_display t_history].
  rewrite (as_bytes_text _ _ (tr_editor _ _ HR)). destruct (text (s_editor s)) as [|c line]; [by apply next_prompt_sim|].
  change (length (c :: line) =? 0)%nat with false. cbn iota.
  destruct (push_sim _ _ (c :: line) (tr_log _ _ HR)) as (h & -> & Hh). cbn [mbind option_bind].
  destruct (run_command_sim _ _ ticks (c :: line) (rel_log _ _ _ _ HR1 Hh) Ht) as (t' & -> & HR2). cbn [mbind option_bind].
  change (s_log (on_screen s (newline_spec (s_screen s)))) with (s_log s).
  destruct (executed _ ticks (c :: line)) as [s' []]; cbn [fst snd] in *; [by apply next_prompt_sim|by exists t'].
Qed.

Lemma control_sim t s c : term_rel t s → ∃ t', key_control t c = Some t' ∧ term_rel t' (control s c).
Proof.
  intros HR. pose proof (tr_editor _ _ HR) as HE. pose proof (tr_screen _ _ HR) as HD.
  assert (Hedit : ∀ b e, editor_rel b e → ∃ t', Some (set_input t b) = Some t' ∧ term_rel t' (on_editor s e)).
  { intros b e Hb. eexists. split; [done|]. by apply rel_editor. }
  assert (Hhome : editor_rel (cursor_home (t_input t)) (edit_spec (s_editor s) EHome).1).
  { by destruct (edit_sim _ _ EHome HE) as (b & [= <-] & H). }
  assert (Hend : editor_rel (cursor_end (t_input t)) (edit_spec (s_editor s) EEnd).1).
  { by destruct (edit_sim _ _ EEnd HE) as (b & [= <-] & H). }
  destruct (kill_sim MAX_LINE_LENGTH _ _ HE) as (bk & Ek & Hk).
  { destruct HE as (_ & Hl & _). rewrite length_text in Hl. change MAX_LINE_LENGTH with 256%nat. lia. }
  destruct (output_sim _ _ (mkOut (txt "^C") TEXT_DIM true) HD) as (dc & Ec & Hc).
  unfold output in Ec. cbn [o_newline o_text o_color] in Ec.
  pose proof (rel_clear t s HR) as Hclear. pose proof (display_clear_sim _ _ HD) as Hblank.
  unfold key_control, control. rewrite Ek, Ec, (text_nil _ _ HE). cbn [mbind option_bind].
  repeat case_match; first [by exists t | by apply Hedit | by apply next_prompt_sim, rel_screen
    | by apply show_prompt_sim, rel_screen | by eexists; split; [done|apply rel_stop] | by eexists].
Qed.

Lemma handle_key_sim t s ticks key : term_rel t s → 0 ≤ ticks ≤ U64_MAX →
  ∃ t', handle_key t ticks key = Some t' ∧ term_rel t' (pressed s ticks key).
Proof.
  intros HR Ht. destruct key; cbn [handle_key pressed]; try (by exists t).
  - unfold key_char. destruct (printable c); [|by exists t].
    destruct (rel_edit t s (EInsert c) HR) as (b & r & E & H). cbn [edit] in E. rewrite E. by eexists.
  - by apply control_sim.
  - by apply key_enter_sim.
  - destruct (rel_edit t s EBackspace HR) as (b & r & E & H). cbn [edit] in E. rewrite E. by eexists.
  - unfold key_tab. destruct (tab_sim t s (replicate 4 32) HR) as (b & -> & H). by eexists.
  - eexists. split; [done|]. by apply rel_clear.
  - destruct (rel_edit t s EDelete HR) as (b & r & E & H). cbn [edit] in E. rewrite E. by eexists.
  - by apply key_up_sim.
  - by apply key_down_sim.
  - destruct (rel_edit t s ELeft HR) as (b & r & E & H). cbn [edit] in E. injection E as E. eexists. split; [done|]. by rewrite E.
  - destruct (rel_edit t s ERight HR) as (b & r & E & H). cbn [edit] in E. injection E as E. eexists. split; [done|]. by rewrite E.
  - destruct (rel_edit t s EHome HR) as (b & r & E & H). cbn [edit] in E. injection E as <- _. by eexists.
  - destruct (rel_edit t s EEnd HR) as (b & r & E & H). cbn [edit] in E. injection E as <- _. by eexists.
Qed.

(** ** Drawing *)

(** Draw calls whose corners are wrapped sums. *)
Ltac stay_cells :=
  unfold tw_draw_char, draw_char_with_cursor, tw_draw_cursor, clear_row, clear_to_eol, cell_x, cell_y, content_x; cbv zeta; stay.

Lemma for_each_confined {A} (f : Pixels → A → option Pixels) fb px l :
  (∀ p x, x ∈ l → ∃ p', f p x = Some p' ∧ confined fb p p') → ∃ px', for_each f px l = Some px' ∧ confined fb px px'.
Proof.
  revert px. induction l as [|x l IH]; intros px Hf; cbn [for_each]; [by exists px|].
  destruct (Hf px x) as (p & -> & Hp); [by left|]. cbn [mbind option_bind].
  destruct (IH p) as (p' & E & Hp'); [intros q y Hy; apply Hf; by right|]. exists p'. split; [exact E|]. by etrans.
Qed.

Lemma render_cell_ok cfg fb line row px c : fb_wf fb → line_ok line →
  ∃ px', render_cell cfg fb line row px c = Some px' ∧ confined fb px px'.
Proof.
  intros Hwf [H1 H2]. unfold render_cell, line_get. destruct (Nat.ltb_spec c (line_len line)).
  - destruct (lookup_lt_is_Some_2 (cells line) c) as [cell ->]; [lia|]. eexists. split; [reflexivity|]. stay_cells.
  - eexists. split; [reflexivity|]. stay_cells.
Qed.

Lemma render_row_ok t s fb px row : fb_wf fb → term_rel t s → ∃ px', render_row t fb px row = Some px' ∧ confined fb px px'.
Proof.
  intros Hwf HR. destruct (tr_screen _ _ HR) as [(Hrows & _ & Hr & _ & Hlen & Hok & _) _]. unfold render_row, get_line.
  destruct (_ && _) eqn:E; [|eexists; split; [reflexivity|stay_cells]].
  apply andb_prop in E as [E%Nat.ltb_lt _].
  destruct (lookup_lt_is_Some_2 (lines (t_display t)) row) as [l Hl]; [lia|]. rewrite Hl. cbn [mbind option_bind].
  apply for_each_confined. intros p c _. apply render_cell_ok; [done|]. by eapply Forall_lookup_1.
Qed.

Lemma render_input_confined t fb px : fb_wf fb → confined fb px (render_input t fb px).
Proof.
  intros Hwf. unfold render_input. cbv zeta.
  set (p1 := clear_to_eol _ _ _ _ _). assert (H1 : confined fb px p1) by (unfold p1; stay_cells).
  set (p2 := foldl _ _ _). assert (H2 : confined fb p1 p2).
  { apply confined_foldl. intros p [i b] _. unfold render_input_byte. destruct (_ <? _); [|done]. destruct (_ =? _)%nat; stay_cells. }
  destruct (_ && _); [|by etrans]. etrans; [exact H1|]. etrans; [exact H2|]. stay_cells.
Qed.

Lemma render_ok t s fb px : fb_wf fb → term_rel t s → ∃ px', render t fb px = Some px' ∧ confined fb px px'.
Proof.
  intros Hwf HR. unfold render.
  destruct (for_each_confined (render_row t fb) fb px (seq 0 (Z.to_nat (rows (config t))))) as (p & -> & Hp).
  { intros p row _. by apply (render_row_ok t s). }
  eexists. split; [reflexivity|]. etrans; [exact Hp|by apply render_input_confined].
Qed.

(** ** The whole terminal *)

Lemma term_start_sim fb px : fb_wf fb →
  ∃ t px', term_start Terminal_new fb px = Some (t, px') ∧ term_rel t session_start ∧ confined fb px px'.
Proof.
  intros Hwf. unfold term_start. cbv zeta.
  set (t0 := set_display Terminal_new _).
  assert (H0 : term_rel t0 (mkSession (mkEditor [] []) (mkLog [] 0) blank_screen (0, 0)%nat ROOT true)).
  { split; try done; [apply editor_new|apply history_new| |apply root_ok]. apply (display_new 44 77); lia. }
  destruct (show_sim t0 _ welcome H0) as (t1 & E1 & H1). unfold show_welcome. rewrite E1. cbn [mbind option_bind].
  destruct (show_prompt_sim t1 _ H1) as (t2 & -> & H2). cbn [mbind option_bind].
  destruct (render_ok t2 _ fb (draw_frame (t_window t0) fb px) Hwf H2) as (px' & -> & Hp). cbn [mbind option_bind].
  exists t2, px'. split; [reflexivity|]. split; [exact H2|]. etrans; [|exact Hp].
  change (t_window t0) with (TerminalWindow_new (txt "Atom Terminal")). unfold draw_frame, clear_content. cbv zeta.
  cbn [TerminalWindow_new tw_config WindowConfig_new wc_x wc_y]. stay.
Qed.

(** Keys with the tick at which each is handled. *)
Definition press_all (t : Terminal) (keys : list (Z * TermKey)) : option Terminal :=
  for_each (λ t tk, handle_key t tk.1 tk.2) t keys.

Lemma press_all_sim t s keys : term_rel t s → Forall (λ tk, 0 ≤ tk.1 ≤ U64_MAX) keys →
  ∃ t', press_all t keys = Some t' ∧ term_rel t' (foldl (λ s tk, pressed s tk.1 tk.2) s keys).
Proof.
  unfold press_all. revert t s. induction keys as [|[ticks key] keys IH]; intros t s HR Hk; cbn [for_each foldl]; [by exists t|].
  apply Forall_cons in Hk as [Hk Hks]. destruct (handle_key_sim t s ticks key HR Hk) as (t' & E & H'). cbn [fst snd]. rewrite E.
  by apply IH.
Qed.

(** C22. The terminal refines its session.  After it starts, any sequence of keys
    at any times is handled without a panic; the line being edited, the cursor
    in it, the current directory, whether the terminal goes on, where the
    prompt stands and every row of the display are those of the abstract
    session; and drawing it then succeeds and writes nothing outside the
    frame. *)
Theorem terminal_refines fb px keys : fb_wf fb → Forall (λ tk, 0 ≤ tk.1 ≤ U64_MAX) keys →
  ∃ t0 px0 t px', term_start Terminal_new fb px = Some (t0, px0) ∧ press_all t0 keys = Some t ∧
    render t fb px0 = Some px' ∧ confined fb px px' ∧
    let s := foldl (λ s tk, pressed s tk.1 tk.2) session_start keys in
    as_bytes (t_input t) = text (s_editor s) ∧ ib_cursor (t_input t) = length (before (s_editor s)) ∧
    t_dir t = s_dir s ∧ t_running t = s_running s ∧ (t_prompt_row t, t_prompt_col t) = s_prompt s ∧
    ∀ row, (row < ROWS)%nat → shown (t_display t) row = Some (default [] (visible ROWS (s_screen s) !! row)).
Proof.
  intros Hwf Hk. destruct (term_start_sim fb px Hwf) as (t0 & px0 & E0 & H0 & Hc0).
  destruct (press_all_sim t0 _ keys H0 Hk) as (t & E & HR). destruct (render_ok t _ fb px0 Hwf HR) as (px' & Er & Hc).
  exists t0, px0, t, px'. split; [exact E0|]. split; [exact E|]. split; [exact Er|]. split; [by etrans|]. cbv zeta.
  split; [apply as_bytes_text, HR|]. split; [apply (tr_editor _ _ HR)|]. split; [apply HR|]. split; [apply HR|]. split; [apply HR|].
  intros row Hrow. by apply (shown_visible ROWS COLS), Hrow; apply HR.
Qed.

#[local] Transparent prompt welcome txt execute parse_command write_spec.

(** [cd home], Enter, then Ctrl-D on the empty line. *)
Definition demo_keys : list (Z * TermKey) := ((λ c, (5, TkChar c)) <$> txt "cd home") ++ [(6, TkEnter); (7, TkControl 4)].

Lemma terminal_refines_witness :
  let s := foldl (λ s tk, pressed s tk.1 tk.2) session_start demo_keys in
  s_dir s = txt "/home" ∧ s_running s = false ∧
  ∃ t0 px0 t px', term_start Terminal_new demo_fb ∅ = Some (t0, px0) ∧ press_all t0 demo_keys = Some t ∧
    render t demo_fb px0 = Some px' ∧ confined demo_fb ∅ px' ∧
    as_bytes (t_input t) = text (s_editor s) ∧ ib_cursor (t_input t) = length (before (s_editor s)) ∧
    t_dir t = s_dir s ∧ t_running t = s_running s ∧ (t_prompt_row t, t_prompt_col t) = s_prompt s ∧
    ∀ row, (row < ROWS)%nat → shown (t_display t) row = Some (default [] (visible ROWS (s_screen s) !! row)).
Proof.
  assert (H : Forall (λ tk : Z * TermKey, 0 ≤ tk.1 ≤ U64_MAX) demo_keys) by (apply (bool_decide_unpack _); vm_compute; exact I).
  split; [vm_compute; reflexivity|]. split; [vm_compute; reflexivity|].
  exact (terminal_refines demo_fb ∅ demo_keys demo_fb_wf H).
Defined.
