(* ===== verification/TerminalLoop.v ===== *)
(** * Terminal: the event loop over the kernel

    One round of the terminal's inner loop, with its system calls, takes every
    scan code the kernel has queued and presses the keys they stand for. *)

From S2P Require Import Prelude Thread Sched Input InputSafety Vm Kernel Syscall SyscallSafety LibIpc UserLib Keys UserSafety Graphics Canvas TermBuffer TermBufferSafety TermWindow TermParser TermCommands CommandSafety Terminal TerminalSafety.

#[local] Opaque prompt welcome txt execute parse_command write_spec.

(** ** Handling a key leaves the decoder alone *)

Lemma show_handler t out t' : show t out = Some t' → t_handler t' = t_handler t.
Proof. unfold show. destruct (for_each output _ _); [|done]. by intros [= <-]. Qed.

Lemma show_prompt_handler t t' : show_prompt t = Some t' → t_handler t' = t_handler t.
Proof.
  unfold show_prompt. destruct (show t prompt) as [t1|] eqn:E; [|done]. cbn [mbind option_bind].
  intros [= <-]. by rewrite <- (show_handler _ _ _ E).
Qed.

Lemma next_prompt_handler t t' : next_prompt t = Some t' → t_handler t' = t_handler t.
Proof. intros H. by rewrite (show_prompt_handler _ _ H). Qed.

Lemma run_command_handler t ticks line t' b : run_command t ticks line = Some (t', b) → t_handler t' = t_handler t.
Proof.
  unfold run_command. destruct (parse_command line) as [cmd|]; [|by intros [= <- _]].
  destruct (execute _ _) as [[[out sh] r]|]; [|done]. cbn [mbind option_bind].
  destruct (show _ out) as [t1|] eqn:E; [|done]. apply show_handler in E. cbn [mbind option_bind].
  destruct r; intros [= <- _]; exact E.
Qed.

Lemma key_enter_handler t ticks t' : key_enter t ticks = Some t' → t_handler t' = t_handler t.
Proof.
  unfold key_enter. destruct (newline _) as [d|]; [|done]. cbn [mbind option_bind].
  destruct (_ =? _)%nat; [intros H; by rewrite (next_prompt_handler _ _ H)|].
  destruct (h_push _ _) as [h|]; [|done]. cbn [mbind option_bind].
  destruct (run_command _ _ _) as [[t1 []]|] eqn:E; [| |done]; apply run_command_handler in E; cbn [mbind option_bind].
  - intros H. by rewrite (next_prompt_handler _ _ H), E.
  - by intros [= <-].
Qed.

Lemma key_control_handler t c t' : key_control t c = Some t' → t_handler t' = t_handler t.
Proof.
  unfold key_control. destruct (writeln _ _ _) as [d|], (kill_to_end _ _) as [b|]; cbn [mbind option_bind];
    repeat case_match; intros H'; try discriminate H';
    first [by injection H' as <- | by rewrite (next_prompt_handler _ _ H') | by rewrite (show_prompt_handler _ _ H')].
Qed.

Lemma handle_key_handler t ticks key t' : handle_key t ticks key = Some t' → t_handler t' = t_handler t.
Proof.
  destruct key; cbn [handle_key]; try (by intros [= <-]); [|apply key_control_handler|apply key_enter_handler|..].
  all: unfold key_char, key_tab, key_up, key_down; repeat case_match; intros H';
    repeat match type of H' with context [?m ≫= _] => destruct m as [?|]; cbn [mbind option_bind] in H'; [|discriminate H'] end;
    repeat case_match; simplify_eq; try done.
  all: match goal with H : context [?m ≫= _] |- _ => destruct m; cbn [mbind option_bind] in H; by simplify_eq end.
Qed.

Lemma term_start_handler fb px t px' : term_start Terminal_new fb px = Some (t, px') → t_handler t = InputHandler_new.
Proof.
  unfold term_start. cbv zeta. unfold show_welcome. destruct (show _ welcome) as [t1|] eqn:E1; [|done]. cbn [mbind option_bind].
  destruct (show_prompt t1) as [t2|] eqn:E2; [|done]. cbn [mbind option_bind]. destruct (render _ _ _); [|done].
  intros [= <- _]. by rewrite (show_prompt_handler _ _ E2), (show_handler _ _ _ E1).
Qed.

Section loop.
Context {D : Type} {ps2 : Ps2 D} {mmu : Mmu}.
Context (switch_context : CpuContext → CpuContext → CpuContext) (resume : Kernel D → Kernel D).
Context (fuel : nat) (left : list Z) (Hleft : length left = 6%nat).
Implicit Types (k : Kernel D).

Lemma keyboard_poll_keeps ticks k k' b : ring_wf KEYBOARD_BUFFER_SIZE (k_keyboard k) ∧ k_ticks k = ticks →
  keyboard_poll switch_context resume fuel left k = Some (k', b) →
  ring_wf KEYBOARD_BUFFER_SIZE (k_keyboard k') ∧ k_ticks k' = ticks.
Proof.
  intros [Hwf Ht]. destruct left as [|? [|? [|? [|? [|? [|? [|??]]]]]]]; try discriminate Hleft.
  unfold keyboard_poll, syscall. cbn [argument_registers app drop length].
  change (rust_syscall_dispatcher switch_context resume fuel k SYS_KEYBOARD_POLL z z0 z1 z2 z3 z4) with (sys_keyboard_poll k).
  unfold sys_keyboard_poll, poll_keyboard_byte. destruct (ring_pop_spec _ (k_keyboard k) Hwf) as [Hwf' _].
  destruct (ring_pop _ _) as [r [o|]]; cbn in *; by intros [= <- <-].
Qed.

Lemma handle_events_sim n k t s rendered : term_rel t s → 0 ≤ k_ticks k ≤ U64_MAX →
  ring_wf KEYBOARD_BUFFER_SIZE (k_keyboard k) → Forall is_byte (ring_contents KEYBOARD_BUFFER_SIZE (k_keyboard k)) →
  (length (ring_contents KEYBOARD_BUFFER_SIZE (k_keyboard k)) < n)%nat →
  let '(h, keys) := decode_all term_scancode (t_handler t) (ring_contents KEYBOARD_BUFFER_SIZE (k_keyboard k)) in
  ∃ k' t', handle_events switch_context resume fuel left n k t rendered = Some (k', t', rendered || negb (bool_decide (keys = []))) ∧
    ring_contents KEYBOARD_BUFFER_SIZE (k_keyboard k') = [] ∧ t_handler t' = h ∧
    term_rel t' (foldl (λ s key, pressed s (k_ticks k) key) s keys).
Proof.
  revert k t s rendered. induction n as [|n IH]; intros k t s rendered HR Ht Hwf Hb Hn; [lia|].
  cbn [handle_events]. unfold poll_key.
  pose proof (poll_until_queue KEYBOARD_BUFFER_SIZE k_keyboard _ term_scancode (S n) k (t_handler t)
    (keyboard_poll_takes switch_context resume fuel left Hleft) Hwf Hb Hn) as Hq.
  pose proof (decode_first term_scancode (t_handler t) (ring_contents KEYBOARD_BUFFER_SIZE (k_keyboard k))) as Hd.
  destruct (first_event _ _ _) as [[h1 q] e]. destruct Hq as (k1 & Ek & Eq). rewrite Ek. cbn [mbind option_bind].
  destruct (poll_until_keeps (λ k', ring_wf KEYBOARD_BUFFER_SIZE (k_keyboard k') ∧ k_ticks k' = k_ticks k)
    _ _ _ _ _ _ _ _ (keyboard_poll_keeps (k_ticks k)) (conj Hwf eq_refl) Ek) as [Hwf1 Ht1].
  assert (HR1 : term_rel (set_handler t h1) s) by (destruct HR; by split).
  destruct e as [key|].
  - destruct Hd as (Hlen & Hsuf & Hd). rewrite Hd.
    destruct (handle_key_sim _ _ (k_ticks k1) key HR1) as (t1 & E1 & HR2); [by rewrite Ht1|].
    rewrite E1. cbn [mbind option_bind]. pose proof (handle_key_handler _ _ _ _ E1) as Hh. cbn [t_handler set_handler] in Hh.
    assert (Hb1 : Forall is_byte q) by (destruct Hsuf as [l Hsuf]; rewrite Hsuf in Hb; by apply Forall_app in Hb as [_ ?]).
    specialize (IH k1 t1 _ true HR2). rewrite Eq, Hh, Ht1 in IH. specialize (IH Ht Hwf1 Hb1 ltac:(lia)).
    destruct (decode_all term_scancode h1 q) as [h2 keys]. destruct IH as (k2 & t2 & E2 & Hr & Hh2 & HR3).
    exists k2, t2. split; [|by split_and!]. rewrite E2. cbn [orb fst snd]. rewrite bool_decide_eq_false_2 by done.
    by rewrite orb_true_r.
  - destruct Hd as [-> Hd]. rewrite Hd. exists k1, (set_handler t h1). split; [|by split_and!].
    rewrite bool_decide_eq_true_2 by done. by rewrite orb_false_r.
Qed.
End loop.

(** C23. A round of input ends and loses no key.  When the kernel has queued some
    scan codes, the terminal's inner loop - the system calls that fetch them,
    the decoder, and the handling of each key - returns; the queue is empty,
    the terminal is in the state its session reaches by pressing exactly the
    keys the codes stand for, in order, and it asks to be drawn again if and
    only if there was a key. *)
Theorem terminal_round_terminates {D} `{Ps2 D} `{Mmu} switch_context resume fuel left (k : Kernel D) fb px n :
  length left = 6%nat → fb_wf fb → 0 ≤ k_ticks k ≤ U64_MAX →
  ring_wf KEYBOARD_BUFFER_SIZE (k_keyboard k) → Forall is_byte (ring_contents KEYBOARD_BUFFER_SIZE (k_keyboard k)) →
  (KEYBOARD_BUFFER_SIZE ≤ n)%nat →
  let keys := (decode_all term_scancode InputHandler_new (ring_contents KEYBOARD_BUFFER_SIZE (k_keyboard k))).2 in
  ∃ t0 px0 k' t', term_start Terminal_new fb px = Some (t0, px0) ∧
    handle_events switch_context resume fuel left n k t0 false = Some (k', t', negb (bool_decide (keys = []))) ∧
    ring_contents KEYBOARD_BUFFER_SIZE (k_keyboard k') = [] ∧
    as_bytes (t_input t') = text (s_editor (foldl (λ s key, pressed s (k_ticks k) key) session_start keys)) ∧
    t_running t' = s_running (foldl (λ s key, pressed s (k_ticks k) key) session_start keys).
Proof.
  intros Hl Hwf Ht Hr Hb Hn. cbv zeta. destruct (term_start_sim fb px Hwf) as (t0 & px0 & E0 & HR & _).
  pose proof (handle_events_sim switch_context resume fuel left Hl n k t0 _ false HR Ht Hr Hb) as Hs.
  rewrite length_ring_contents in Hs. destruct (ring_len_spec _ _ Hr). specialize (Hs ltac:(lia)).
  rewrite (term_start_handler _ _ _ _ E0) in Hs. destruct (decode_all term_scancode _ _) as [h keys].
  destruct Hs as (k' & t' & E & Hq & _ & HR'). exists t0, px0, k', t'. split; [exact E0|]. split; [exact E|].
  split; [exact Hq|]. split; [apply as_bytes_text, HR'|apply HR'].
Qed.

#[local] Transparent prompt welcome txt execute parse_command write_spec.
#[local] Existing Instances no_ps2 flat_mmu.

(** Shift and [a], then [b]: the line becomes [AB]. *)
Lemma terminal_round_terminates_witness :
  let keys := (decode_all term_scancode InputHandler_new (ring_contents KEYBOARD_BUFFER_SIZE (k_keyboard demo_typed))).2 in
  keys = [TkChar 65; TkChar 66] ∧
  ∃ t0 px0 k' t', term_start Terminal_new demo_fb ∅ = Some (t0, px0) ∧
    handle_events no_switch id 0 [0; 0; 0; 0; 0; 0] 128 demo_typed t0 false = Some (k', t', negb (bool_decide (keys = []))) ∧
    ring_contents KEYBOARD_BUFFER_SIZE (k_keyboard k') = [] ∧
    as_bytes (t_input t') = text (s_editor (foldl (λ s key, pressed s (k_ticks demo_typed) key) session_start keys)) ∧
    t_running t' = s_running (foldl (λ s key, pressed s (k_ticks demo_typed) key) session_start keys).
Proof.
  assert (Hc : ring_contents KEYBOARD_BUFFER_SIZE (k_keyboard demo_typed) = [0x2A; 0x1E; 0x30]) by (vm_compute; reflexivity).
  split; [rewrite Hc; vm_compute; reflexivity|].
  apply (terminal_round_terminates no_switch id 0 [0; 0; 0; 0; 0; 0] demo_typed demo_fb ∅ 128).
  - reflexivity.
  - exact demo_fb_wf.
  - vm_compute. split; discriminate.
  - split; [reflexivity|vm_compute; lia|vm_compute; lia].
  - rewrite Hc. repeat constructor; unfold is_byte, in_range; lia.
  - unfold KEYBOARD_BUFFER_SIZE. lia.
Defined.
