(* ===== verification/Programs.v ===== *)
(** * The programs as loops over the system calls

    The [main] functions of the desktop, the terminal and the three drivers, one
    definition for what comes before the endless loop and one for a round of
    it, up to and including [yield_now].  A program that has called [exit] has
    no state any more: the [None] inside the results.  Calls of [log], which
    only write to the log, are left out, and so is [spin_loop]. *)

From S2P Require Import Prelude Thread Input Vm Kernel Syscall LibIpc UserLib Keys MouseDriver Graphics Canvas Terminal Desktop.

Section programs.
Context {D : Type} {ps2 : Ps2 D} {mmu : Mmu}.
Context (switch_context : CpuContext → CpuContext → CpuContext) (resume : Kernel D → Kernel D).
Context (fuel : nat) (left : list Z).
Implicit Types (k : Kernel D).

(** ** The library ([thread.rs], [graphics.rs]) *)

(** [exit]: behind the call is a loop that nothing leaves. *)
Definition lib_exit k (code : Z) : option (Kernel D) :=
  '(k, _) ← syscall switch_context resume fuel left k SYS_THREAD_EXIT [code]; Some k.

(** [panic] of every program. *)
Definition program_panic k : option (Kernel D) := lib_exit k 0xFF.

(** The library's [FramebufferInfo]. *)
Record UserFramebuffer := mkUserFb {
  uf_address : Z;
  uf_width : Z;
  uf_height : Z;
  uf_stride : Z;
  uf_bytes_per_pixel : Z;
  uf_size : Z;
}.

(** The six words at [info_ptr] after the call that fills them. *)
Definition framebuffer_words k (num info_ptr : Z) : option (Kernel D * option (list Z)) :=
  '(k, r) ← syscall switch_context resume fuel left k num [info_ptr];
  if r =? ESUCCESS then
    bytes ← user_read (k_vm k) info_ptr 48;
    Some (k, Some (bytes_words 6 bytes))
  else Some (k, None).

Definition user_framebuffer (info : list Z) (size : Z) : UserFramebuffer :=
  mkUserFb (info !!! 0%nat) (wrap32 (info !!! 1%nat)) (wrap32 (info !!! 2%nat)) (wrap32 (info !!! 3%nat))
    (wrap32 (info !!! 4%nat)) size.

Definition lib_get_framebuffer k (info_ptr : Z) : option (Kernel D * option UserFramebuffer) :=
  '(k, r) ← framebuffer_words k SYS_GET_FRAMEBUFFER info_ptr;
  Some (k, option_map (λ info, user_framebuffer info
    (wrap64 (wrap64 (info !!! 3%nat * info !!! 2%nat) * info !!! 4%nat))) r).

Definition lib_map_framebuffer k (info_ptr : Z) : option (Kernel D * option UserFramebuffer) :=
  '(k, r) ← framebuffer_words k SYS_MAP_FRAMEBUFFER info_ptr;
  Some (k, option_map (λ info, user_framebuffer info (info !!! 5%nat)) r).

(** The handle the drawing operations take.  The library knows no pixel
    format: [to_bgr32] is used whatever the screen has. *)
Definition handle (u : UserFramebuffer) : Framebuffer :=
  mkFb (uf_address u) (uf_width u) (uf_height u) (uf_stride u) PfBgr (uf_bytes_per_pixel u).

(** ** The desktop ([ui_shell]) *)

Definition set_mouse (c : Compositor) (m : LibMouse) : Compositor :=
  mkCompositor (co_fb c) (co_wm c) (co_cursor c) m (co_dirty c).

(** [main], [Compositor::new] and [run] before the loop. *)
Definition desktop_main k (info_ptr : Z) (px : Pixels) : option (Kernel D * option (Compositor * Pixels)) :=
  '(k, fb) ← lib_get_framebuffer k info_ptr;
  match fb with
  | None => k ← lib_exit k 1; Some (k, None)
  | Some u =>
      '(k, port) ← lib_create_port switch_context resume fuel left k;
      match port with
      | Err _ => k ← program_panic k; Some (k, None)
      | Ok _ => Some (k, Some (desktop_start (handle u) px))
      end
  end.

(** The loop over the mouse events; [n] bounds it. *)
Fixpoint desktop_mouse (n : nat) k (c : Compositor) (px : Pixels) (prev_left : bool)
    : option (Kernel D * option (Compositor * Pixels * bool)) :=
  match n with
  | O => None
  | S m =>
      '(k, lm, e) ← poll_until (mouse_poll_byte switch_context resume fuel left) lib_mouse_byte n k (co_mouse c);
      let c := set_mouse c lm in
      match e with
      | None => Some (k, Some (c, px, prev_left))
      | Some e =>
          match mouse_event c px prev_left e with
          | Some (c, px, prev_left) => desktop_mouse m k c px prev_left
          | None => k ← program_panic k; Some (k, None)
          end
      end
  end.

(** The loop over the scan codes; the answer is whether it called [exit]. *)
Fixpoint desktop_keys (n : nat) k : option (Kernel D * bool) :=
  match n with
  | O => None
  | S n =>
      '(k, b) ← keyboard_poll switch_context resume fuel left k;
      match b with
      | None => Some (k, false)
      | Some scancode => if key_quits scancode then k ← lib_exit k 0; Some (k, true) else desktop_keys n k
      end
  end.

Definition desktop_round (n : nat) k (c : Compositor) (px : Pixels) (prev_left : bool)
    : option (Kernel D * option (Compositor * Pixels * bool)) :=
  '(k, r) ← desktop_mouse n k c px prev_left;
  match r with
  | None => Some (k, None)
  | Some (c, px, prev_left) =>
      '(k, quit) ← desktop_keys n k;
      if quit : bool then Some (k, None)
      else
        let '(c, px) := redraw c px in
        k ← yield_now switch_context resume fuel left k;
        Some (k, Some (c, px, prev_left))
  end.

(** ** The terminal *)

Definition term_main k (info_ptr : Z) (px : Pixels) : option (Kernel D * option (UserFramebuffer * Terminal * Pixels)) :=
  '(k, fb) ← lib_get_framebuffer k info_ptr;
  match fb with
  | None => k ← lib_exit k 1; Some (k, None)
  | Some u =>
      '(k, t, px) ← term_init switch_context resume fuel left k Terminal_new (handle u) px;
      Some (k, Some (u, t, px))
  end.

(** [while self.running], and the exit behind it. *)
Definition term_turn (n : nat) k (t : Terminal) (u : UserFramebuffer) (px : Pixels) : option (Kernel D * option (Terminal * Pixels)) :=
  if t_running t then
    '(k, t, px) ← run_round switch_context resume fuel left n k t (handle u) px;
    Some (k, Some (t, px))
  else k ← lib_exit k 0; Some (k, None).

(** ** The keyboard driver *)

(** [run] before the loop: its own port, or none. *)
Definition keyboard_main k : option (Kernel D * KeyboardDriver) :=
  '(k, _) ← lib_create_port switch_context resume fuel left k; Some (k, KeyboardDriver_new).

(** The loop over the scan codes.  [seq] is the sequence counter of the
    message library and [at_ptr] where its allocator puts a frame. *)
Fixpoint keyboard_codes (n : nat) k (d : KeyboardDriver) (seq at_ptr : Z) : option (Kernel D * KeyboardDriver * Z) :=
  match n with
  | O => None
  | S n =>
      '(k, b) ← keyboard_poll switch_context resume fuel left k;
      match b with
      | None => Some (k, d, seq)
      | Some scancode =>
          let '(d, msg) := keyboard_handle d scancode in
          match msg with
          | None => keyboard_codes n k d seq at_ptr
          | Some (port, t, payload) =>
              '(k, _) ← lib_send_message_async switch_context resume fuel left k seq port t payload at_ptr;
              keyboard_codes n k d (frame_message seq t payload).2 at_ptr
          end
      end
  end.

Definition keyboard_round (n : nat) k (d : KeyboardDriver) (seq at_ptr : Z) : option (Kernel D * KeyboardDriver * Z) :=
  '(k, d, seq) ← keyboard_codes n k d seq at_ptr;
  k ← yield_now switch_context resume fuel left k;
  Some (k, d, seq).

(** ** The mouse driver *)

Definition mouse_main k : option (Kernel D * option MouseDriver) :=
  '(k, d, ok) ← driver_init switch_context resume fuel left k MouseDriver_new;
  if ok : bool then Some (k, Some d) else k ← lib_exit k 1; Some (k, None).

Definition mouse_round k (d : MouseDriver) : option (Kernel D * MouseDriver) :=
  '(k, d, _) ← poll_mouse switch_context resume fuel left k d;
  k ← yield_now switch_context resume fuel left k;
  Some (k, d).

(** ** The display driver: its loop only yields *)

Definition display_start k (info_ptr : Z) (px : Pixels) : option (Kernel D * option Pixels) :=
  '(k, fb) ← lib_get_framebuffer k info_ptr;
  match fb with
  | None => k ← lib_exit k 1; Some (k, None)
  | Some u => Some (k, Some (display_main (handle u) px))
  end.
End programs.
