(* ===== verification/ProgramSafety.v ===== *)
(** * The programs' rounds terminate and say what they do to the kernel

    A round of the desktop and of the keyboard driver over the system calls:
    it returns, and the kernel afterwards is the kernel before with the two
    input buffers drained, at the yield or at the exit that ends the round. *)

From S2P Require Import Prelude Thread Cap CapManager Sched Input InputSafety Vm Ipc Kernel Syscall SyscallSafety LibIpc UserLib Keys MouseDriver UserSafety Graphics Canvas CanvasSafety Desktop DesktopSafety Programs.

(** ** The decoder's state does not enter the handling of an event *)

Lemma handle_click_mouse c m x y : handle_click (set_mouse c m) x y = set_mouse (handle_click c x y) m.
Proof.
  unfold handle_click. cbn [co_wm set_mouse]. destruct (window_at (co_wm c) x y) as [id|]; [|done].
  case_bool_decide; cbn [co_wm set_mouse set_wm]; destruct (find_first _ _) as [w|]; try done; by destruct (_ && _).
Qed.

Lemma mouse_event_mouse c m px prev e :
  mouse_event (set_mouse c m) px prev e = (λ '(c, px, prev), (set_mouse c m, px, prev)) <$> mouse_event c px prev e.
Proof.
  unfold mouse_event. cbn [co_fb co_cursor set_mouse].
  destruct (apply_delta _ _ _ _ _) as [cu|]; [|done]. cbn [mbind option_bind fmap option_fmap option_map].
  change (set_cursor_state (set_mouse c m) cu) with (set_mouse (set_cursor_state c cu) m).
  destruct (_ && _); [rewrite handle_click_mouse|]; reflexivity.
Qed.

Lemma mouse_events_mouse c m px prev es :
  mouse_events (set_mouse c m) px prev es = (λ '(c, px, prev), (set_mouse c m, px, prev)) <$> mouse_events c px prev es.
Proof.
  revert c px prev. induction es as [|e es IH]; intros c px prev; [done|]. cbn [mouse_events].
  rewrite mouse_event_mouse. destruct (mouse_event c px prev e) as [[[c1 px1] prev1]|]; [|done]. apply IH.
Qed.

Lemma cursor_ok_mouse c m : cursor_ok c → cursor_ok (set_mouse c m).
Proof. intros []. by split. Qed.

Section rounds.
Context {D : Type} {ps2 : Ps2 D} {mmu : Mmu}.
Context (switch_context : CpuContext → CpuContext → CpuContext) (resume : Kernel D → Kernel D).
Context (fuel : nat) (left : list Z) (Hleft : length left = 6%nat).
Implicit Types (k : Kernel D).

Local Notation kbd_bytes k := (ring_contents KEYBOARD_BUFFER_SIZE (k_keyboard k)).
Local Notation mouse_bytes k := (ring_contents MOUSE_BUFFER_SIZE (k_mouse k)).

(** ** The calls *)

Ltac open_call :=
  destruct left as [|? [|? [|? [|? [|? [|? [|??]]]]]]]; try discriminate Hleft;
  unfold lib_exit, yield_now, keyboard_poll, mouse_poll_byte, syscall; cbn [argument_registers app drop length].

Lemma lib_exit_spec k tid code : current (k_sched k) = Some tid →
  lib_exit switch_context resume fuel left k code = Some (resched switch_context resume (set_thread_state_k k tid Exited)).
Proof.
  intros Hc. open_call.
  change (rust_syscall_dispatcher switch_context resume fuel k SYS_THREAD_EXIT code z0 z1 z2 z3 z4)
    with (sys_thread_exit switch_context resume k code).
  unfold sys_thread_exit. by rewrite Hc.
Qed.

Lemma yield_now_spec k : yield_now switch_context resume fuel left k = Some (resched switch_context resume k).
Proof. open_call. reflexivity. Qed.

Lemma mouse_poll_only k k' b : ring_wf MOUSE_BUFFER_SIZE (k_mouse k) →
  mouse_poll_byte switch_context resume fuel left k = Some (k', b) →
  ∃ r, ring_wf MOUSE_BUFFER_SIZE r ∧ k' = set_k_mouse k r.
Proof.
  intros Hwf. open_call.
  change (rust_syscall_dispatcher switch_context resume fuel k SYS_MOUSE_POLL z z0 z1 z2 z3 z4) with (sys_mouse_poll k).
  unfold sys_mouse_poll, poll_mouse_byte. destruct (ring_pop_spec _ (k_mouse k) Hwf) as [Hwf' _].
  destruct (ring_pop _ _) as [r [o|]]; cbn in *; intros [= <- <-]; by exists r.
Qed.

Lemma keyboard_poll_only k k' b : ring_wf KEYBOARD_BUFFER_SIZE (k_keyboard k) →
  keyboard_poll switch_context resume fuel left k = Some (k', b) →
  ∃ r, ring_wf KEYBOARD_BUFFER_SIZE r ∧ k' = set_k_keyboard k r.
Proof.
  intros Hwf. open_call.
  change (rust_syscall_dispatcher switch_context resume fuel k SYS_KEYBOARD_POLL z z0 z1 z2 z3 z4) with (sys_keyboard_poll k).
  unfold sys_keyboard_poll, poll_keyboard_byte. destruct (ring_pop_spec _ (k_keyboard k) Hwf) as [Hwf' _].
  destruct (ring_pop _ _) as [r [o|]]; cbn in *; intros [= <- <-]; by exists r.
Qed.

Lemma mouse_polls_only {S E} (decode : S → Z → S * option E) n k s k' s' e : ring_wf MOUSE_BUFFER_SIZE (k_mouse k) →
  poll_until (mouse_poll_byte switch_context resume fuel left) decode n k s = Some (k', s', e) →
  ∃ r, ring_wf MOUSE_BUFFER_SIZE r ∧ k' = set_k_mouse k r.
Proof.
  intros Hwf. apply (poll_until_keeps (λ k', ∃ r, ring_wf MOUSE_BUFFER_SIZE r ∧ k' = set_k_mouse k r)).
  - intros ? k2 b (r & Hr & ->) H2. destruct (mouse_poll_only (set_k_mouse k r) _ _ Hr H2) as (r2 & Hr2 & ->). by exists r2.
  - exists (k_mouse k). split; [done|by destruct k].
Qed.

(** One scan code, and the kernel otherwise as it was. *)
Lemma keyboard_poll_step k : ring_wf KEYBOARD_BUFFER_SIZE (k_keyboard k) → Forall is_byte (kbd_bytes k) →
  ∃ r, ring_wf KEYBOARD_BUFFER_SIZE r ∧ ring_contents KEYBOARD_BUFFER_SIZE r = tl (kbd_bytes k) ∧
    keyboard_poll switch_context resume fuel left k = Some (set_k_keyboard k r, hd_error (kbd_bytes k)).
Proof.
  intros Hwf Hb. destruct (keyboard_poll_takes switch_context resume fuel left Hleft k Hwf Hb) as (k1 & _ & Hp & Hq).
  destruct (keyboard_poll_only _ _ _ Hwf Hp) as (r & Hr & ->). by exists r.
Qed.

(** ** The desktop *)

Lemma desktop_mouse_run n k c px prev : cursor_ok c →
  ring_wf MOUSE_BUFFER_SIZE (k_mouse k) → Forall is_byte (mouse_bytes k) → (length (mouse_bytes k) < n)%nat →
  let '(m, es) := decode_all lib_mouse_byte (co_mouse c) (mouse_bytes k) in
  ∃ r c1 px1 prev1, mouse_events c px prev es = Some (c1, px1, prev1) ∧
    ring_wf MOUSE_BUFFER_SIZE r ∧ ring_contents MOUSE_BUFFER_SIZE r = [] ∧
    desktop_mouse switch_context resume fuel left n k c px prev = Some (set_k_mouse k r, Some (set_mouse c1 m, px1, prev1)).
Proof.
  revert k c px prev. induction n as [|n IH]; intros k c px prev Hok Hwf Hb Hn; [lia|]. cbn [desktop_mouse].
  pose proof (poll_until_queue MOUSE_BUFFER_SIZE k_mouse _ lib_mouse_byte (S n) k (co_mouse c)
    (mouse_poll_takes switch_context resume fuel left Hleft) Hwf Hb Hn) as Hq.
  pose proof (decode_first lib_mouse_byte (co_mouse c) (mouse_bytes k)) as Hd.
  destruct (first_event _ _ _) as [[m1 q] e]. destruct Hq as (k1 & Ek & Eq). rewrite Ek. cbn [mbind option_bind].
  destruct (mouse_polls_only _ _ _ _ _ _ _ Hwf Ek) as (r1 & Hr1 & ->).
  cbn [k_mouse set_k_mouse] in Eq. destruct e as [e|].
  - destruct Hd as (Hlen & [l Hsuf] & Hd). rewrite Hd.
    destruct (mouse_event_spec c px prev e Hok) as (c1 & px1 & prev1 & E1 & _ & Hok1 & _).
    rewrite mouse_event_mouse, E1. cbn [fmap option_fmap option_map].
    specialize (IH (set_k_mouse k r1) (set_mouse c1 m1) px1 prev1 (cursor_ok_mouse _ _ Hok1)).
    cbn [k_mouse set_k_mouse co_mouse set_mouse] in IH. rewrite Eq in IH.
    rewrite Hsuf in Hb, Hn. apply Forall_app in Hb as [_ Hb]. rewrite Hsuf in Hlen. specialize (IH Hr1 Hb ltac:(lia)).
    destruct (decode_all lib_mouse_byte m1 q) as [m2 es]. destruct IH as (r & c2 & px2 & prev2 & E2 & Hr & Hc & E3).
    rewrite mouse_events_mouse in E2. destruct (mouse_events c1 px1 prev1 es) as [[[c3 px3] prev3]|] eqn:E4; [|done].
    injection E2 as <- <- <-. exists r, c3, px3, prev3. cbn [fst snd mouse_events]. rewrite E1. by split_and!.
  - destruct Hd as [-> Hd]. rewrite Hd. exists r1, c, px, prev. by split_and!.
Qed.

(** The scan codes before the first escape are dropped. *)
Lemma desktop_keys_run n k tid : current (k_sched k) = Some tid →
  ring_wf KEYBOARD_BUFFER_SIZE (k_keyboard k) → Forall is_byte (kbd_bytes k) → (length (kbd_bytes k) < n)%nat →
  ∃ r, ring_wf KEYBOARD_BUFFER_SIZE r ∧
    if bool_decide (0x01 ∈ kbd_bytes k) then
      (∃ l, kbd_bytes k = l ++ 0x01 :: ring_contents KEYBOARD_BUFFER_SIZE r ∧ 0x01 ∉ l) ∧
      desktop_keys switch_context resume fuel left n k =
        Some (resched switch_context resume (set_thread_state_k (set_k_keyboard k r) tid Exited), true)
    else ring_contents KEYBOARD_BUFFER_SIZE r = [] ∧
      desktop_keys switch_context resume fuel left n k = Some (set_k_keyboard k r, false).
Proof.
  revert k. induction n as [|n IH]; intros k Hc Hwf Hb Hn; [lia|].
  destruct (keyboard_poll_step k Hwf Hb) as (r & Hr & Hq & Hp). cbn [desktop_keys]. rewrite Hp. cbn [mbind option_bind].
  destruct (kbd_bytes k) as [|b q] eqn:E; cbn [hd_error tl] in *.
  { exists r. by rewrite bool_decide_eq_false_2 by apply not_elem_of_nil. }
  unfold key_quits. destruct (Z.eqb_spec b 0x01) as [->|Hne].
  - exists r. rewrite bool_decide_eq_true_2 by apply list_elem_of_here. rewrite (lib_exit_spec _ tid) by done.
    split; [done|]. split; [|done]. exists []. split; [by rewrite Hq|apply not_elem_of_nil].
  - apply Forall_cons in Hb as [_ Hb]. cbn [length] in Hn.
    destruct (IH (set_k_keyboard k r)) as (r2 & Hr2 & H); cbn [k_keyboard k_sched set_k_keyboard]; rewrite ?Hq; [done..|lia|].
    cbn [k_keyboard set_k_keyboard] in H. rewrite Hq in H. exists r2. split; [done|].
    assert (Hiff : 0x01 ∈ b :: q ↔ 0x01 ∈ q) by (rewrite elem_of_cons; naive_solver). rewrite (bool_decide_ext _ _ Hiff).
    case_bool_decide; [|exact H]. destruct H as [(l & -> & Hl) H]. split; [|exact H].
    exists (b :: l). split; [done|]. rewrite not_elem_of_cons. split; [congruence|done].
Qed.

(** ** The keyboard driver *)

Definition driver_after (d : KeyboardDriver) (codes : list Z) : KeyboardDriver :=
  foldl (λ d code, (keyboard_handle d code).1) d codes.

Lemma keyboard_handle_unconnected d code : kd_desktop_port d = None →
  (keyboard_handle d code).2 = None ∧ kd_desktop_port (keyboard_handle d code).1 = None.
Proof.
  intros Hd. unfold keyboard_handle. destruct (driver_scancode _ _) as [s [[[sc ascii] pressed]|]]; cbn; [|done].
  by rewrite Hd.
Qed.

Lemma driver_after_port d codes : kd_desktop_port d = None → kd_desktop_port (driver_after d codes) = None.
Proof.
  revert d. induction codes as [|b codes IH]; intros d Hd; [done|]. apply IH, keyboard_handle_unconnected, Hd.
Qed.

Lemma keyboard_codes_run n k d seq at_ptr : kd_desktop_port d = None →
  ring_wf KEYBOARD_BUFFER_SIZE (k_keyboard k) → Forall is_byte (kbd_bytes k) → (length (kbd_bytes k) < n)%nat →
  ∃ r, ring_wf KEYBOARD_BUFFER_SIZE r ∧ ring_contents KEYBOARD_BUFFER_SIZE r = [] ∧
    keyboard_codes switch_context resume fuel left n k d seq at_ptr =
      Some (set_k_keyboard k r, driver_after d (kbd_bytes k), seq).
Proof.
  revert k d. induction n as [|n IH]; intros k d Hd Hwf Hb Hn; [lia|].
  destruct (keyboard_poll_step k Hwf Hb) as (r & Hr & Hq & Hp). cbn [keyboard_codes]. rewrite Hp. cbn [mbind option_bind].
  destruct (kbd_bytes k) as [|b q] eqn:E; cbn [hd_error tl] in *; [by exists r|].
  destruct (keyboard_handle_unconnected d b Hd) as [Hm Hd1]. apply Forall_cons in Hb as [_ Hb]. cbn [length] in Hn.
  unfold driver_after. cbn [foldl]. destruct (keyboard_handle d b) as [d1 msg]. cbn [fst snd] in *. subst msg.
  destruct (IH (set_k_keyboard k r) d1) as (r2 & Hr2 & Hc & H); cbn [k_keyboard set_k_keyboard]; rewrite ?Hq; [done..|lia|].
  exists r2. split_and!; [done..|]. rewrite H. cbn [k_keyboard set_k_keyboard]. by rewrite Hq.
Qed.
End rounds.

(** ** Rounds *)

Lemma draw_all_cursor c px : cursor_ok c → cursor_ok (draw_all c px).1.
Proof.
  intros [Hw Hh Hx Hy Hr]. unfold draw_all. cbv zeta. cbn [fst].
  set (px' := draw_dock _ _). clearbody px'. split; cbn [co_fb co_cursor set_cursor_state]; try done; try by apply save_region_length.
Qed.

Lemma redraw_cursor c px : cursor_ok c → cursor_ok (redraw c px).1.
Proof.
  intros Hok. unfold redraw. destruct (co_dirty c); [|done]. pose proof (draw_all_cursor c px Hok) as H.
  destruct (draw_all c px) as [c1 px1]. destruct H. by split.
Qed.

Lemma mouse_events_cursor c px prev es c1 px1 prev1 : cursor_ok c →
  mouse_events c px prev es = Some (c1, px1, prev1) → cursor_ok c1.
Proof.
  revert c px prev. induction es as [|e es IH]; intros c px prev Hok; [by intros [= <- _ _]|].
  destruct (mouse_event_spec c px prev e Hok) as (c2 & px2 & prev2 & E & _ & Hok2 & _). cbn [mouse_events]. rewrite E.
  by apply IH.
Qed.

(** What is left of a kernel whose input buffers were polled. *)
Definition polled {D} (k : Kernel D) (mouse keys : RingBuffer) : Kernel D := set_k_keyboard (set_k_mouse k mouse) keys.

(** C24. A round of the desktop.  Whatever bytes the interrupts have left in the
    kernel's two buffers, a round of the event loop with its system calls
    returns.  The mouse buffer is drained and the compositor has handled
    exactly the packets its bytes make up, in order, a packet begun in the last
    round included.  Without an escape among the scan codes these are drained
    too, the screen is redrawn if something changed and the program yields,
    with nothing else of the kernel touched and the cursor on the screen for the
    next round; with one, the program calls [exit], which marks its thread exited
    and runs the scheduler, nothing is redrawn, and the codes behind the first
    escape stay in the buffer. *)
Theorem desktop_round_correct {D} `{Ps2 D} `{Mmu} switch_context resume fuel left (k : Kernel D) tid c px prev n :
  length left = 6%nat → current (k_sched k) = Some tid → cursor_ok c →
  ring_wf MOUSE_BUFFER_SIZE (k_mouse k) → Forall is_byte (ring_contents MOUSE_BUFFER_SIZE (k_mouse k)) →
  ring_wf KEYBOARD_BUFFER_SIZE (k_keyboard k) → Forall is_byte (ring_contents KEYBOARD_BUFFER_SIZE (k_keyboard k)) →
  (MOUSE_BUFFER_SIZE ≤ n)%nat → (KEYBOARD_BUFFER_SIZE ≤ n)%nat →
  let codes := ring_contents KEYBOARD_BUFFER_SIZE (k_keyboard k) in
  let '(m, es) := decode_all lib_mouse_byte (co_mouse c) (ring_contents MOUSE_BUFFER_SIZE (k_mouse k)) in
  ∃ c1 px1 prev1 rm rk, mouse_events c px prev es = Some (c1, px1, prev1) ∧ ring_contents MOUSE_BUFFER_SIZE rm = [] ∧
    if bool_decide (0x01 ∈ codes) then
      (∃ l, codes = l ++ 0x01 :: ring_contents KEYBOARD_BUFFER_SIZE rk ∧ 0x01 ∉ l) ∧
      desktop_round switch_context resume fuel left n k c px prev =
        Some (resched switch_context resume (set_thread_state_k (polled k rm rk) tid Exited), None)
    else
      let '(c2, px2) := redraw (set_mouse c1 m) px1 in
      ring_contents KEYBOARD_BUFFER_SIZE rk = [] ∧ cursor_ok c2 ∧
      desktop_round switch_context resume fuel left n k c px prev =
        Some (resched switch_context resume (polled k rm rk), Some (c2, px2, prev1)).
Proof.
  intros Hl Hc Hok Hm Hmb Hk Hkb Hn1 Hn2. cbv zeta. destruct (ring_len_spec _ _ Hm), (ring_len_spec _ _ Hk).
  pose proof (desktop_mouse_run switch_context resume fuel left Hl n k c px prev Hok Hm Hmb
    ltac:(rewrite length_ring_contents; lia)) as HM.
  destruct (decode_all lib_mouse_byte _ _) as [m es]. destruct HM as (rm & c1 & px1 & prev1 & E1 & Hrm & Hrc & EM).
  destruct (desktop_keys_run switch_context resume fuel left Hl n (set_k_mouse k rm) tid) as (rk & Hrk & HK);
    [done..|cbn [k_keyboard set_k_mouse]; rewrite length_ring_contents; lia|].
  exists c1, px1, prev1, rm, rk. split; [done|]. split; [done|]. unfold desktop_round. rewrite EM. cbn [mbind option_bind].
  cbn [k_keyboard set_k_mouse] in HK. case_bool_decide.
  - destruct HK as [Hs EK]. split; [done|]. by rewrite EK.
  - destruct HK as [Hs EK]. rewrite EK. cbn [mbind option_bind].
    pose proof (redraw_cursor (set_mouse c1 m) px1 (cursor_ok_mouse _ _ (mouse_events_cursor _ _ _ _ _ _ _ Hok E1))) as Hr.
    destruct (redraw _ _) as [c2 px2]. rewrite yield_now_spec by done. by split_and!.
Qed.

#[local] Existing Instances no_ps2 flat_mmu.

(** A movement and half a packet, and two scan codes, of which the second is
    escape in the second kernel. *)
Definition demo_moved : Kernel unit :=
  set_k_keyboard (set_k_mouse demo_port
    (foldl (λ r b, (ring_push MOUSE_BUFFER_SIZE r b).1) (RingBuffer_new MOUSE_BUFFER_SIZE) [0x08; 5; 3; 0x09]))
    (foldl (λ r b, (ring_push KEYBOARD_BUFFER_SIZE r b).1) (RingBuffer_new KEYBOARD_BUFFER_SIZE) [0x1E; 0x9E]).

Definition demo_escaped : Kernel unit :=
  set_k_keyboard demo_moved
    (foldl (λ r b, (ring_push KEYBOARD_BUFFER_SIZE r b).1) (RingBuffer_new KEYBOARD_BUFFER_SIZE) [0x1E; 0x01; 0x81]).

Lemma desktop_round_correct_witness :
  (∃ k' c2 px2 prev2, desktop_round no_switch id 0 [0; 0; 0; 0; 0; 0] 256 demo_moved demo_desktop ∅ false =
     Some (k', Some (c2, px2, prev2)) ∧ cursor_ok c2) ∧
  (∃ k', desktop_round no_switch id 0 [0; 0; 0; 0; 0; 0] 256 demo_escaped demo_desktop ∅ false = Some (k', None)).
Proof.
  assert (Hok : cursor_ok demo_desktop) by (split; vm_compute; intuition discriminate || reflexivity).
  assert (Em : ring_contents MOUSE_BUFFER_SIZE (k_mouse demo_moved) = [0x08; 5; 3; 0x09]) by (vm_compute; reflexivity).
  assert (Ek : ring_contents KEYBOARD_BUFFER_SIZE (k_keyboard demo_moved) = [0x1E; 0x9E]) by (vm_compute; reflexivity).
  assert (Ee : ring_contents KEYBOARD_BUFFER_SIZE (k_keyboard demo_escaped) = [0x1E; 0x01; 0x81]) by (vm_compute; reflexivity).
  assert (Wm : ring_wf MOUSE_BUFFER_SIZE (k_mouse demo_moved)) by (split; [reflexivity|vm_compute; lia..]).
  assert (Wk : ring_wf KEYBOARD_BUFFER_SIZE (k_keyboard demo_moved)) by (split; [reflexivity|vm_compute; lia..]).
  assert (We : ring_wf KEYBOARD_BUFFER_SIZE (k_keyboard demo_escaped)) by (split; [reflexivity|vm_compute; lia..]).
  pose proof (desktop_round_correct no_switch id 0 [0; 0; 0; 0; 0; 0] demo_moved 2 demo_desktop ∅ false 256) as H1.
  pose proof (desktop_round_correct no_switch id 0 [0; 0; 0; 0; 0; 0] demo_escaped 2 demo_desktop ∅ false 256) as H2.
  change (k_mouse demo_escaped) with (k_mouse demo_moved) in H2. cbv zeta in H1, H2.
  rewrite Em in H1, H2. rewrite Ek in H1. rewrite Ee in H2.
  rewrite bool_decide_eq_false_2 in H1 by (rewrite !not_elem_of_cons; split_and!; [done..|apply not_elem_of_nil]).
  rewrite bool_decide_eq_true_2 in H2 by (right; left).
  destruct (decode_all _ _ _) as [m es].
  assert (B : ∀ b, 0 ≤ b < 256 → is_byte b) by done.
  split.
  - destruct H1 as (c1 & px1 & prev1 & rm & rk & _ & _ & H1);
      [reflexivity|vm_compute; reflexivity|exact Hok|exact Wm|repeat constructor; apply B; lia|exact Wk
      |repeat constructor; apply B; lia|unfold MOUSE_BUFFER_SIZE; lia|unfold KEYBOARD_BUFFER_SIZE; lia|].
    destruct (redraw _ _) as [c2 px2]. destruct H1 as (_ & Hc & H1). do 4 eexists. split; [exact H1|exact Hc].
  - destruct H2 as (c1 & px1 & prev1 & rm & rk & _ & _ & _ & H2);
      [reflexivity|vm_compute; reflexivity|exact Hok|exact Wm|repeat constructor; apply B; lia|exact We
      |repeat constructor; apply B; lia|unfold MOUSE_BUFFER_SIZE; lia|unfold KEYBOARD_BUFFER_SIZE; lia|].
    eexists. exact H2.
Defined.

(** The keyboard driver keeps what it reads.  Started with no port of the
    desktop, as [new] leaves it, a round takes every scan code out of the
    kernel's buffer, sends none of them, and yields: nothing but the buffer
    has changed in the kernel, and the codes it took are gone for the programs
    that poll the same buffer. *)
Theorem keyboard_driver_swallows {D} `{Ps2 D} `{Mmu} switch_context resume fuel left (k : Kernel D) codes seq at_ptr n :
  length left = 6%nat → ring_wf KEYBOARD_BUFFER_SIZE (k_keyboard k) →
  Forall is_byte (ring_contents KEYBOARD_BUFFER_SIZE (k_keyboard k)) → (KEYBOARD_BUFFER_SIZE ≤ n)%nat →
  let d := driver_after KeyboardDriver_new codes in
  let d' := driver_after KeyboardDriver_new (codes ++ ring_contents KEYBOARD_BUFFER_SIZE (k_keyboard k)) in
  kd_desktop_port d' = None ∧
  ∃ rk, ring_contents KEYBOARD_BUFFER_SIZE rk = [] ∧
    keyboard_round switch_context resume fuel left n k d seq at_ptr =
      Some (resched switch_context resume (set_k_keyboard k rk), d', seq).
Proof.
  intros Hl Hk Hkb Hn. cbv zeta. split; [by apply driver_after_port|]. destruct (ring_len_spec _ _ Hk).
  destruct (keyboard_codes_run switch_context resume fuel left Hl n k (driver_after KeyboardDriver_new codes) seq at_ptr)
    as (rk & _ & Hc & E); [by apply driver_after_port|done..|rewrite length_ring_contents; lia|].
  exists rk. split; [done|]. unfold keyboard_round. rewrite E. cbn [mbind option_bind]. rewrite yield_now_spec by done.
  cbn [mbind option_bind]. unfold driver_after. by rewrite foldl_app.
Qed.

(** ** The framebuffer a program gets *)

(** The memory of the caller: what is written at a readable address reads
    back, and the bytes behind it are as they were. *)
Class MmuLaws `{Mmu} : Prop := {
  user_write_read v v' a n bytes old : Forall is_byte bytes → Z.of_nat (length bytes) ≤ n →
    user_read v a n = Some old → user_write v a bytes = Some v' →
    user_read v' a n = Some (bytes ++ drop (length bytes) old);
}.

Lemma words_bytes_byte ws : Forall is_byte (words_bytes ws).
Proof.
  unfold words_bytes. apply Forall_forall. intros b. rewrite list_elem_of_bind. intros (w & Hb & _).
  by eapply Forall_forall; [apply (le_bytes_byte 8 w)|].
Qed.

Lemma length_le_bytes_8 x : length (le_bytes 8 x) = 8%nat.
Proof. reflexivity. Qed.

Lemma bytes_words_cons n w l : in_range 64 w → bytes_words (S n) (le_bytes 8 w ++ l) = w :: bytes_words n l.
Proof.
  intros Hw. unfold bytes_words. cbn [seq fmap list_fmap]. f_equal.
  - rewrite Nat.mul_0_r, drop_0, (take_app_length' (le_bytes 8 w)) by done. rewrite le_value_bytes. by apply wrap_small.
  - rewrite <- fmap_S_seq, <- list_fmap_compose. apply list_fmap_ext. intros i x _. cbn [compose].
    replace (8 * S x)%nat with (length (le_bytes 8 w) + 8 * x)%nat by (rewrite (length_le_bytes_8 w); lia).
    by rewrite drop_app_add.
Qed.

Lemma bytes_words_app n ws rest : Forall (in_range 64) ws →
  bytes_words (length ws + n) (words_bytes ws ++ rest) = ws ++ bytes_words n rest.
Proof.
  induction 1 as [|w ws Hw _ IH]; [done|]. change (words_bytes (w :: ws)) with (le_bytes 8 w ++ words_bytes ws).
  rewrite <- app_assoc. change (length (w :: ws) + n)%nat with (S (length ws + n)). rewrite bytes_words_cons by done.
  by rewrite IH.
Qed.

Lemma desktop_start_cursor fb px : 1 ≤ fb_width fb < 2 ^ 31 → 1 ≤ fb_height fb < 2 ^ 31 → cursor_ok (desktop_start fb px).1.
Proof.
  intros Hw Hh. unfold desktop_start. cbv zeta. apply draw_all_cursor.
  split; cbn [co_fb co_cursor set_wm Compositor_new CursorState_new cu_x cu_y cu_saved_region]; [done..| | |done].
  all: rewrite i32_small; [split; [apply Z.div_pos; lia|apply Z.div_lt; lia]|].
  all: split; [etrans; [|apply Z.div_pos; lia]; lia|]; apply Z.div_lt_upper_bound; lia.
Qed.

Section start.
Context {D : Type} {ps2 : Ps2 D} `{MmuLaws}.
Context (switch_context : CpuContext → CpuContext → CpuContext) (resume : Kernel D → Kernel D).
Context (fuel : nat) (left : list Z) (Hleft : length left = 6%nat).
Implicit Types (k : Kernel D).

Lemma lib_get_framebuffer_spec k fb info_ptr old v : k_fb k = Some fb → fb_wf fb → in_range 64 (fb_address fb) →
  fb_stride fb < 2 ^ 32 → fb_height fb < 2 ^ 32 → info_ptr ≠ 0 → user_read (k_vm k) info_ptr 48 = Some old →
  user_write (k_vm k) info_ptr
    (words_bytes [fb_address fb; fb_width fb; fb_height fb; fb_stride fb; fb_bytes_per_pixel fb]) = Some v →
  lib_get_framebuffer switch_context resume fuel left k info_ptr =
    Some (set_k_vm k v, Some (mkUserFb (fb_address fb) (fb_width fb) (fb_height fb) (fb_stride fb) 4
                                (fb_stride fb * fb_height fb * 4))).
Proof.
  intros Hfb [Hw Hh Ha Hbpp] Haddr Hs Hht Hp Hold Hv.
  destruct left as [|? [|? [|? [|? [|? [|? [|??]]]]]]]; try discriminate Hleft.
  unfold lib_get_framebuffer, framebuffer_words, syscall. cbn [argument_registers app drop length].
  change (rust_syscall_dispatcher switch_context resume fuel k SYS_GET_FRAMEBUFFER info_ptr z0 z1 z2 z3 z4)
    with (sys_get_framebuffer k info_ptr).
  assert (E : sys_get_framebuffer k info_ptr = Return (set_k_vm k v) ESUCCESS).
  { unfold sys_get_framebuffer. rewrite (proj2 (Z.eqb_neq _ _) Hp), Hfb. cbn -[words_bytes copy_out].
    unfold copy_out. by rewrite Hv. }
  rewrite E. cbn [mbind option_bind].
  change (ESUCCESS =? ESUCCESS) with true. cbn [k_vm set_k_vm].
  pose proof (λ Hn, user_write_read _ _ _ 48 _ old (words_bytes_byte _) Hn Hold Hv) as Hr.
  rewrite Hr by (vm_compute; discriminate). cbn [mbind option_bind].
  set (ws := [fb_address fb; fb_width fb; fb_height fb; fb_stride fb; fb_bytes_per_pixel fb]).
  assert (Hws : Forall (in_range 64) ws).
  { unfold ws. rewrite !Forall_cons, Forall_nil, Hbpp. unfold in_range in *. split_and!; lia || done. }
  rewrite (bytes_words_app 1 ws _ Hws : bytes_words 6 _ = _).
  unfold user_framebuffer. generalize (bytes_words 1 (drop (length (words_bytes ws)) old)). intros tail. unfold ws.
  cbn [option_map lookup_total list_lookup_total app]. rewrite Hbpp.
  rewrite !(wrap_small 32) by (unfold in_range; lia). do 3 f_equal. f_equal.
  assert (0 ≤ fb_stride fb * fb_height fb) by (apply Z.mul_nonneg_nonneg; lia).
  rewrite (wrap_small 64 (fb_stride fb * fb_height fb)) by (unfold in_range; lia).
  apply wrap_small. unfold in_range. lia.
Qed.

Lemma lib_create_port_spec k tid : current (k_sched k) = Some tid → 0 < next_port (k_ipc k) < U64_MAX - 10 →
  ∃ k', lib_create_port switch_context resume fuel left k = Some (k', Ok (next_port (k_ipc k))) ∧
    get_port_owner (k_ipc k') (next_port (k_ipc k)) = Some tid.
Proof.
  intros Hc Hn. destruct left as [|? [|? [|? [|? [|? [|? [|??]]]]]]]; try discriminate Hleft.
  unfold lib_create_port, syscall. cbn [argument_registers app drop length].
  change (rust_syscall_dispatcher switch_context resume fuel k SYS_IPC_CREATE_PORT z z0 z1 z2 z3 z4)
    with (sys_ipc_create_port k).
  unfold sys_ipc_create_port, with_caller. rewrite Hc. unfold create_port. cbv zeta.
  destruct (create_root_capability _ _ _ _ _) as [cm [cap|e]]; cbn [mbind option_bind];
    rewrite (proj2 (Z.eqb_neq (next_port _) 0)) by lia; rewrite (proj2 (Z.leb_gt _ _)) by lia;
    eexists; (split; [reflexivity|]); unfold get_port_owner; cbn; by rewrite lookup_insert_eq.
Qed.
End start.

(** The desktop comes up.  With a framebuffer in the kernel and room for the
    six words on the program's stack, [main] gets the kernel's description of
    the screen - address, size and stride - creates its event port and draws
    on that screen; the cursor is on it, so that the rounds of the loop run.
    Without a framebuffer it calls [exit]. *)
Theorem desktop_starts {D} `{Ps2 D} `{MmuLaws} switch_context resume fuel left (k : Kernel D) tid info_ptr px :
  length left = 6%nat → current (k_sched k) = Some tid → info_ptr ≠ 0 →
  match k_fb k with
  | None => desktop_main switch_context resume fuel left k info_ptr px =
      Some (resched switch_context resume (set_thread_state_k k tid Exited), None)
  | Some fb => ∀ old v, fb_wf fb → in_range 64 (fb_address fb) → fb_stride fb < 2 ^ 32 →
      1 ≤ fb_width fb < 2 ^ 31 → 1 ≤ fb_height fb < 2 ^ 31 → 0 < next_port (k_ipc k) < U64_MAX - 10 →
      user_read (k_vm k) info_ptr 48 = Some old →
      user_write (k_vm k) info_ptr
        (words_bytes [fb_address fb; fb_width fb; fb_height fb; fb_stride fb; fb_bytes_per_pixel fb]) = Some v →
      let fb' := mkFb (fb_address fb) (fb_width fb) (fb_height fb) (fb_stride fb) PfBgr 4 in
      ∃ k', desktop_main switch_context resume fuel left k info_ptr px = Some (k', Some (desktop_start fb' px)) ∧
        cursor_ok (desktop_start fb' px).1 ∧ get_port_owner (k_ipc k') (next_port (k_ipc k)) = Some tid
  end.
Proof.
  intros Hl Hc Hp. destruct (k_fb k) as [fb|] eqn:Hfb.
  - intros old v Hwf Ha Hs Hw Hh Hn Hold Hv. cbv zeta. unfold desktop_main.
    rewrite (lib_get_framebuffer_spec switch_context resume fuel left Hl k fb info_ptr old v) by (done || lia).
    cbn [mbind option_bind].
    destruct (lib_create_port_spec switch_context resume fuel left Hl (set_k_vm k v) tid Hc Hn) as (k' & -> & Ho).
    exists k'. split_and!; [done|by apply desktop_start_cursor|done].
  - unfold desktop_main, lib_get_framebuffer, framebuffer_words.
    replace (syscall switch_context resume fuel left k SYS_GET_FRAMEBUFFER [info_ptr]) with (Some (k, EINVAL)).
    + cbn [mbind option_bind]. change (EINVAL =? ESUCCESS) with false. cbn [mbind option_bind option_map].
      by rewrite (lib_exit_spec _ _ _ _ Hl _ tid).
    + destruct left as [|? [|? [|? [|? [|? [|? [|??]]]]]]]; try discriminate Hl.
      unfold syscall. cbn [argument_registers app drop length].
      change (rust_syscall_dispatcher switch_context resume fuel k SYS_GET_FRAMEBUFFER info_ptr z0 z1 z2 z3 z4)
        with (sys_get_framebuffer k info_ptr).
      unfold sys_get_framebuffer. by rewrite (proj2 (Z.eqb_neq _ _) Hp), Hfb.
Qed.

(** ** A memory with these laws: the one of the examples *)

Lemma flat_read_write m a b : is_byte b → flat_read (flat_write m a b) a = b.
Proof.
  intros Hb. unfold flat_write. set (j := a mod 8). assert (Hj : 0 ≤ j < 8) by (apply Z.mod_pos_bound; lia).
  unfold flat_read at 1. fold j. rewrite mem_read_write, Z.div_add by (apply Z.pow_nonzero; lia).
  unfold flat_read. fold j. set (x := mem_read m (a - j) / 2 ^ (8 * j)).
  replace (x + (b - x mod 256)) with (b + (x / 256) * 256) by (pose proof (Z.div_mod x 256); lia).
  rewrite Z.mod_add by lia. by apply Z.mod_small.
Qed.

(** Changing a byte of a word leaves its other bytes alone. *)
Lemma byte_frame w b i j : is_byte b → 0 ≤ i < 8 → 0 ≤ j < 8 → i ≠ j →
  (w + (b - w / 2 ^ (8 * j) mod 256) * 2 ^ (8 * j)) / 2 ^ (8 * i) mod 256 = w / 2 ^ (8 * i) mod 256.
Proof.
  intros Hb Hi Hj Hne. set (d := b - w / 2 ^ (8 * j) mod 256). destruct (decide (i < j)) as [Hlt|Hge].
  - replace (d * 2 ^ (8 * j)) with (d * 2 ^ (8 * (j - i) - 8) * 256 * 2 ^ (8 * i)).
    + rewrite Z.div_add by (apply Z.pow_nonzero; lia). by rewrite Z.mod_add by lia.
    + rewrite <- !Z.mul_assoc. f_equal. change 256 with (2 ^ 8). rewrite <- !Z.pow_add_r by lia. f_equal. lia.
  - replace (2 ^ (8 * i)) with (2 ^ (8 * j) * 256 * 2 ^ (8 * (i - j) - 8)).
    + rewrite <- !Z.div_div by lia. do 2 f_equal. rewrite Z.div_add by (apply Z.pow_nonzero; lia).
      unfold d. set (x := w / 2 ^ (8 * j)).
      replace (x + (b - x mod 256)) with (b + (x / 256) * 256) by (pose proof (Z.div_mod x 256); lia).
      rewrite Z.div_add by lia. unfold is_byte, in_range in Hb. rewrite (Z.div_small b) by lia. lia.
    + change 256 with (2 ^ 8). rewrite <- !Z.pow_add_r by lia. f_equal. lia.
Qed.

Lemma flat_read_write_ne m a a' b : is_byte b → a ≠ a' → flat_read (flat_write m a b) a' = flat_read m a'.
Proof.
  intros Hb Hne. unfold flat_write. unfold flat_read at 1 3.
  pose proof (Z.mod_pos_bound a 8). pose proof (Z.mod_pos_bound a' 8).
  destruct (decide (a - a mod 8 = a' - a' mod 8)) as [E|E]; [|by rewrite mem_read_write_ne].
  rewrite <- E, mem_read_write. unfold flat_read. apply byte_frame; [done|lia..|]. intros E'. rewrite E' in E. lia.
Qed.

Lemma flat_write_all m a bytes i : Forall is_byte bytes →
  flat_read (foldl (λ m '(i, b), flat_write m (a + i) b) m (zip (seqZ 0 (Z.of_nat (length bytes))) bytes)) (a + i) =
  if decide (0 ≤ i < Z.of_nat (length bytes)) then bytes !!! Z.to_nat i else flat_read m (a + i).
Proof.
  induction bytes as [|b bytes IH] using rev_ind; intros Hb; [by rewrite decide_False by (cbn; lia)|].
  apply Forall_app in Hb as [Hb Hb1]. apply Forall_cons in Hb1 as [Hb1 _]. specialize (IH Hb).
  rewrite length_app, Nat2Z.inj_add, seqZ_app, zip_with_app by (rewrite ?length_seqZ; lia).
  rewrite foldl_app. change (Z.of_nat (length [b])) with 1. replace (seqZ (0 + Z.of_nat (length bytes)) 1)
    with [Z.of_nat (length bytes)] by (rewrite seqZ_cons by lia; by rewrite Z.add_0_l).
  cbn [zip zip_with foldl].
  destruct (decide (i = Z.of_nat (length bytes))) as [->|Hne].
  - rewrite (flat_read_write _ _ b Hb1), decide_True by lia.
    by rewrite Nat2Z.id, lookup_total_app_r, Nat.sub_diag by lia.
  - rewrite (flat_read_write_ne _ _ _ b Hb1) by lia. rewrite IH. repeat case_decide; try lia; try done.
    by rewrite lookup_total_app_l by lia.
Qed.

#[local] Instance flat_mmu_laws : MmuLaws (H := flat_mmu).
Proof.
  split. intros v v' a n bytes old Hb Hn [= <-] [= <-]. cbn [user_read flat_mmu vm_mem vm_set_mem]. f_equal.
  apply list_eq. intros i. rewrite list_lookup_fmap. destruct (decide (Z.of_nat i < n)) as [Hi|Hi].
  - rewrite (lookup_seqZ_lt a n i) by lia. cbn [fmap option_fmap option_map]. rewrite flat_write_all by done.
    case_decide as Hd.
    + rewrite Nat2Z.id, lookup_app_l by lia. symmetry. apply list_lookup_lookup_total_lt. lia.
    + rewrite lookup_app_r, lookup_drop, list_lookup_fmap, (lookup_seqZ_lt a n) by lia.
      cbn [fmap option_fmap option_map]. do 2 f_equal. lia.
  - rewrite (lookup_seqZ_ge a n i) by lia. symmetry. apply lookup_ge_None_2.
    rewrite length_app, length_drop, length_fmap, length_seqZ. lia.
Qed.

(** The desktop on a screen of 40 by 20 pixels, and without a screen. *)
Definition demo_screen : Kernel unit :=
  let k := demo_port in
  mkKernel (k_threads k) (k_next_tid k) (k_sched k) (k_cpu k) (k_caps k) (k_ipc k) (k_vm k) (k_spaces k)
    (k_next_space k) (k_regions k) (k_next_region k) (k_policy k) (k_irq k) (k_counts k) (k_keyboard k)
    (k_mouse k) (Some demo_fb) (k_ticks k) (k_dev k).

Lemma desktop_starts_witness :
  (∃ k', desktop_main no_switch id 0 [0; 0; 0; 0; 0; 0] demo_screen 0x2000 ∅ = Some (k', Some (desktop_start demo_fb ∅)) ∧
     cursor_ok (desktop_start demo_fb ∅).1) ∧
  desktop_main no_switch id 0 [0; 0; 0; 0; 0; 0] demo_port 0x2000 ∅ =
    Some (resched no_switch id (set_thread_state_k demo_port 2 Exited), None).
Proof.
  split; [|exact (desktop_starts no_switch id 0 [0; 0; 0; 0; 0; 0] demo_port 2 0x2000 ∅ eq_refl eq_refl ltac:(lia))].
  destruct (desktop_starts no_switch id 0 [0; 0; 0; 0; 0; 0] demo_screen 2 0x2000 ∅ eq_refl eq_refl ltac:(lia) _ _ demo_fb_wf
    ltac:(done) ltac:(done) ltac:(done) ltac:(done) ltac:(done) eq_refl eq_refl) as (k' & E & Hc & _).
  exists k'. split; [exact E|exact Hc].
Defined.
