(* ===== verification/X86.v ===== *)
(** * The processor, as far as the assembly files use it

    Byte-addressed memory with little-endian accesses, the general registers,
    the segment selectors and [cr3], and one constructor for each form of
    instruction that occurs in [interrupts/handlers.asm],
    [interrupts/switch.asm] and [syscall/handler.asm]; the last five take the
    address of a symbol or a constant shift.  The flags that arithmetic sets are
    not kept: no list reads them, and conditional branches are written out.
    Straight-line assembly is a list of instructions;
    the branches between the lists are written in the definitions that use
    them. *)

From S2P Require Import Prelude.

(** ** Byte memory *)

Definition byte_at (m : Memory) (a : Z) : Z := wrap8 (mem_read m a).

Definition bytes_at (m : Memory) (a : Z) (n : nat) : list Z := (λ i, byte_at m (a + Z.of_nat i)) <$> seq 0 n.

Definition load (n : nat) (m : Memory) (a : Z) : Z := le_value (bytes_at m a n).

Fixpoint store_bytes (m : Memory) (a : Z) (l : list Z) : Memory :=
  match l with [] => m | b :: l => store_bytes (mem_write m a b) (a + 1) l end.

Definition store (n : nat) (m : Memory) (a v : Z) : Memory := store_bytes m a (le_bytes n v).

(** ** Registers and instructions *)

Inductive reg :=
| RAX | RBX | RCX | RDX | RSI | RDI | RBP | RSP
| R8 | R9 | R10 | R11 | R12 | R13 | R14 | R15.

#[export] Instance reg_eq_dec : EqDecision reg.
Proof. solve_decision. Defined.

(** Closed facts about lists of registers, by computation. *)
Ltac reg_in := apply (bool_decide_unpack _); reflexivity.

Inductive seg := CS | SS | DS | ES.

Record Mach := mkMach {
  regs : reg → Z;
  mem : Memory;
  m_rflags : Z;
  m_cs : Z; m_ss : Z; m_ds : Z; m_es : Z;
  m_cr3 : Z;
  m_rip : Z;
}.

Definition upd (f : reg → Z) (r : reg) (v : Z) : reg → Z := λ r', if decide (r' = r) then v else f r'.

Definition set_reg (s : Mach) (r : reg) (v : Z) : Mach :=
  mkMach (upd (regs s) r v) (mem s) (m_rflags s) (m_cs s) (m_ss s) (m_ds s) (m_es s) (m_cr3 s) (m_rip s).

Definition set_mem (s : Mach) (m : Memory) : Mach :=
  mkMach (regs s) m (m_rflags s) (m_cs s) (m_ss s) (m_ds s) (m_es s) (m_cr3 s) (m_rip s).

Definition set_flags (s : Mach) (v : Z) : Mach :=
  mkMach (regs s) (mem s) v (m_cs s) (m_ss s) (m_ds s) (m_es s) (m_cr3 s) (m_rip s).

Definition set_cr3 (s : Mach) (v : Z) : Mach :=
  mkMach (regs s) (mem s) (m_rflags s) (m_cs s) (m_ss s) (m_ds s) (m_es s) v (m_rip s).

Definition get_seg (s : Mach) (g : seg) : Z := match g with CS => m_cs s | SS => m_ss s | DS => m_ds s | ES => m_es s end.

(** [mov ds, ax] and [mov es, ax]; the files write no other selector. *)
Definition set_seg (s : Mach) (g : seg) (v : Z) : Mach :=
  match g with
  | DS => mkMach (regs s) (mem s) (m_rflags s) (m_cs s) (m_ss s) v (m_es s) (m_cr3 s) (m_rip s)
  | ES => mkMach (regs s) (mem s) (m_rflags s) (m_cs s) (m_ss s) (m_ds s) v (m_cr3 s) (m_rip s)
  | CS | SS => s
  end.

(** The address [[base + offset]]. *)
Definition ea (s : Mach) (base : reg) (off : Z) : Z := wrap64 (regs s base + off).

Definition push_val (s : Mach) (v : Z) : Mach :=
  let rsp := wrap64 (regs s RSP - 8) in
  set_reg (set_mem s (store 8 (mem s) rsp v)) RSP rsp.

Definition pop_val (s : Mach) : Z * Mach :=
  (load 8 (mem s) (regs s RSP), set_reg s RSP (wrap64 (regs s RSP + 8))).

(** The low 16 bits of a register. *)
Definition low16 (old v : Z) : Z := Z.lor (Z.land old (not_w 64 0xFFFF)) (wrap16 v).

Inductive instr :=
| Push (r : reg)
| PushI (v : Z)
| PushM (base : reg) (off : Z)
| Pop (r : reg)
| Mov (d r : reg)
| Lea (d base : reg) (off : Z)
| Ld (d base : reg) (off : Z)
| Ld16 (d base : reg) (off : Z)
| Movzx (d base : reg) (off : Z)
| St (base : reg) (off : Z) (r : reg)
| St16 (base : reg) (off : Z) (r : reg)
| AddI (d : reg) (v : Z)
| SubI (d : reg) (v : Z)
| AndI (d : reg) (v : Z)
| OrI (d : reg) (v : Z)
| Pushfq
| MovFromSeg (d : reg) (g : seg)
| MovToSeg (g : seg) (r : reg)
| MovFromCr3 (d : reg)
| MovToCr3 (r : reg)
| Cli
| LeaA (d : reg) (a : Z)
| LdA (d : reg) (a : Z)
| StA (a : Z) (r : reg)
| ShlI (d : reg) (n : Z)
| SarI (d : reg) (n : Z).

Definition IF_BIT : Z := 0x200.

Definition step (s : Mach) (i : instr) : Mach :=
  match i with
  | Push r => push_val s (regs s r)
  | PushI v => push_val s v
  | PushM base off => push_val s (load 8 (mem s) (ea s base off))
  | Pop r => let '(v, s) := pop_val s in set_reg s r v
  | Mov d r => set_reg s d (regs s r)
  | Lea d base off => set_reg s d (ea s base off)
  | Ld d base off => set_reg s d (load 8 (mem s) (ea s base off))
  | Ld16 d base off => set_reg s d (low16 (regs s d) (load 2 (mem s) (ea s base off)))
  | Movzx d base off => set_reg s d (load 2 (mem s) (ea s base off))
  | St base off r => set_mem s (store 8 (mem s) (ea s base off) (regs s r))
  | St16 base off r => set_mem s (store 2 (mem s) (ea s base off) (regs s r))
  | AddI d v => set_reg s d (wrap64 (regs s d + v))
  | SubI d v => set_reg s d (wrap64 (regs s d - v))
  | AndI d v => set_reg s d (Z.land (regs s d) v)
  | OrI d v => set_reg s d (Z.lor (regs s d) v)
  | Pushfq => push_val s (m_rflags s)
  | MovFromSeg d g => set_reg s d (low16 (regs s d) (get_seg s g))
  | MovToSeg g r => set_seg s g (wrap16 (regs s r))
  | MovFromCr3 d => set_reg s d (m_cr3 s)
  | MovToCr3 r => set_cr3 s (regs s r)
  | Cli => set_flags s (Z.land (m_rflags s) (not_w 64 IF_BIT))
  | LeaA d a => set_reg s d (wrap64 a)
  | LdA d a => set_reg s d (load 8 (mem s) (wrap64 a))
  | StA a r => set_mem s (store 8 (mem s) (wrap64 a) (regs s r))
  | ShlI d n => set_reg s d (wrap64 (Z.shiftl (regs s d) n))
  | SarI d n => set_reg s d (wrap64 (Z.shiftr (to_signed 64 (regs s d)) n))
  end.

Definition run (code : list instr) (s : Mach) : Mach := foldl step s code.

(** [iretq]: the return address, [cs], the flags, the stack pointer and [ss]
    from the stack, in that order. *)
Definition iretq (s : Mach) : Mach :=
  let a := regs s RSP in
  mkMach (upd (regs s) RSP (load 8 (mem s) (wrap64 (a + 24)))) (mem s)
    (load 8 (mem s) (wrap64 (a + 16)))
    (wrap16 (load 8 (mem s) (wrap64 (a + 8)))) (wrap16 (load 8 (mem s) (wrap64 (a + 32))))
    (m_ds s) (m_es s) (m_cr3 s) (load 8 (mem s) a).

(** ** Memory lemmas *)

Lemma store_bytes_at m a l b :
  mem_read (store_bytes m a l) b =
    if decide (a ≤ b < a + Z.of_nat (length l)) then default 0 (l !! Z.to_nat (b - a)) else mem_read m b.
Proof.
  revert m a. induction l as [|x l IH]; intros m a; cbn [store_bytes length].
  { by rewrite decide_False by lia. }
  rewrite IH. destruct (decide (a = b)) as [->|].
  - rewrite decide_False by lia. rewrite decide_True by lia. rewrite Z.sub_diag. apply mem_read_write.
  - repeat case_decide; try lia; [|by apply mem_read_write_ne].
    replace (Z.to_nat (b - a)) with (S (Z.to_nat (b - (a + 1)))) by lia. done.
Qed.

Lemma bytes_at_byte m a n : Forall is_byte (bytes_at m a n).
Proof. apply Forall_fmap, Forall_forall. intros i _. apply wrap_range. lia. Qed.

Lemma length_bytes_at m a n : length (bytes_at m a n) = n.
Proof. unfold bytes_at. by rewrite length_fmap, length_seq. Qed.

Lemma load_range n m a : in_range (8 * Z.of_nat n) (load n m a).
Proof. pose proof (le_value_range _ (bytes_at_byte m a n)) as H. by rewrite length_bytes_at in H. Qed.

Lemma bytes_at_store m a l : Forall is_byte l → bytes_at (store_bytes m a l) a (length l) = l.
Proof.
  intros Hl. apply list_eq. intros i. unfold bytes_at. rewrite list_lookup_fmap.
  destruct (decide (i < length l)%nat) as [Hi|Hi].
  - rewrite lookup_seq_lt by lia. cbn. unfold byte_at. rewrite store_bytes_at, decide_True by lia.
    replace (Z.to_nat (a + Z.of_nat i - a)) with i by lia. apply lookup_lt_is_Some in Hi as [x Hx]. rewrite Hx. cbn.
    f_equal. apply wrap_small. by apply (Forall_lookup_1 _ _ _ _ Hl Hx).
  - rewrite lookup_seq_ge by lia. symmetry. apply lookup_ge_None. lia.
Qed.

Lemma bytes_at_ext m m' a n :
  (∀ b, a ≤ b < a + Z.of_nat n → mem_read m b = mem_read m' b) → bytes_at m a n = bytes_at m' a n.
Proof.
  intros H. apply list_fmap_ext. intros ? i Hi. apply lookup_seq in Hi as [-> ?]. unfold byte_at. by rewrite H by lia.
Qed.

(** A load reads what was last stored there, at its width. *)
Lemma load_store n m a v : load n (store n m a v) a = wrap (8 * Z.of_nat n) v.
Proof.
  pose proof (bytes_at_store m a _ (le_bytes_byte n v)) as H. rewrite length_le_bytes in H.
  unfold load, store. rewrite H. apply le_value_bytes.
Qed.

Lemma load_store_ne n k m a b v :
  b + Z.of_nat n ≤ a ∨ a + Z.of_nat k ≤ b → load n (store k m a v) b = load n m b.
Proof.
  intros H. unfold load, store. f_equal. apply bytes_at_ext. intros c Hc.
  rewrite store_bytes_at, length_le_bytes, decide_False by lia. done.
Qed.

Lemma load_ext n m m' a :
  (∀ b, a ≤ b < a + Z.of_nat n → mem_read m b = mem_read m' b) → load n m a = load n m' a.
Proof. intros H. unfold load. f_equal. by apply bytes_at_ext. Qed.

Lemma store_ne k m a v b : b < a ∨ a + Z.of_nat k ≤ b → mem_read (store k m a v) b = mem_read m b.
Proof. intros H. unfold store. rewrite store_bytes_at, length_le_bytes, decide_False by lia. done. Qed.

(** The low half word of a word. *)
Lemma load_low16 m a : wrap16 (load 8 m a) = load 2 m a.
Proof.
  unfold load, bytes_at. cbn [seq fmap list_fmap le_value].
  pose proof (wrap_range 8 (mem_read m (a + Z.of_nat 0))) as H0. pose proof (wrap_range 8 (mem_read m (a + Z.of_nat 1))) as H1.
  change (byte_at m (a + Z.of_nat 0)) with (wrap8 (mem_read m (a + Z.of_nat 0))).
  change (byte_at m (a + Z.of_nat 1)) with (wrap8 (mem_read m (a + Z.of_nat 1))). unfold in_range in *.
  generalize dependent (wrap8 (mem_read m (a + Z.of_nat 0))). generalize dependent (wrap8 (mem_read m (a + Z.of_nat 1))).
  intros b1 H1 b0 H0. match goal with |- wrap16 (_ + 256 * (_ + 256 * ?x)) = _ =>
    replace (b0 + 256 * (b1 + 256 * x)) with (b0 + 256 * b1 + x * 2 ^ 16) by lia end.
  unfold wrap. rewrite Z.mod_add, Z.mod_small by lia. lia.
Qed.

(** ** Running code *)

Lemma run_code_app c1 c2 s : run (c1 ++ c2) s = run c2 (run c1 s).
Proof. apply foldl_app. Qed.

Lemma upd_eq f r v : upd f r v r = v.
Proof. unfold upd. by rewrite decide_True. Qed.

Lemma upd_ne f r r' v : r' ≠ r → upd f r v r' = f r'.
Proof. intros. unfold upd. by rewrite decide_False. Qed.

(** ** Stacks of words *)

(** The words from [a] upwards. *)
Definition stack_holds (m : Memory) (a : Z) (l : list Z) : Prop :=
  ∀ i v, l !! i = Some v → load 8 m (a + 8 * Z.of_nat i) = wrap64 v.

Lemma stack_holds_cons m a v l : load 8 m a = wrap64 v → stack_holds m (a + 8) l → stack_holds m a (v :: l).
Proof.
  intros Hv Hl [|i] x Hi.
  - injection Hi as <-. rewrite <- Hv. f_equal. lia.
  - rewrite <- (Hl i x Hi). f_equal. lia.
Qed.

Lemma stack_holds_app m a l l' :
  stack_holds m a l → stack_holds m (a + 8 * Z.of_nat (length l)) l' → stack_holds m a (l ++ l').
Proof.
  intros Hl Hl' i v Hi. apply lookup_app_Some in Hi as [Hi|[Hle Hi]]; [exact (Hl _ _ Hi)|]. rewrite <- (Hl' _ _ Hi). f_equal. lia.
Qed.

Lemma stack_holds_ext m m' a l :
  (∀ b, a ≤ b < a + 8 * Z.of_nat (length l) → mem_read m' b = mem_read m b) → stack_holds m a l → stack_holds m' a l.
Proof.
  intros He Hl i v Hi. rewrite <- (Hl i v Hi). apply load_ext. intros b Hb. apply He.
  apply lookup_lt_Some in Hi. lia.
Qed.

(** What pushing the values [vs] makes of a state: they lie on top of the
    stack, the last one lowest, and nothing else has changed. *)
Record pushed (vs : list Z) (s s' : Mach) : Prop := {
  pu_rsp : regs s' RSP = regs s RSP - 8 * Z.of_nat (length vs);
  pu_regs r : r ≠ RSP → regs s' r = regs s r;
  pu_stack : stack_holds (mem s') (regs s' RSP) (rev vs);
  pu_mem b : b < regs s' RSP ∨ regs s RSP ≤ b → mem_read (mem s') b = mem_read (mem s) b;
}.

Lemma pushed_nil s : pushed [] s s.
Proof. split; [cbn; lia|done| |done]. by intros i v. Qed.

Lemma pushed_snoc vs s s' v :
  pushed vs s s' → 8 * Z.of_nat (S (length vs)) ≤ regs s RSP < 2 ^ 64 → pushed (vs ++ [v]) s (push_val s' v).
Proof.
  intros [Hrsp Hregs Hst Hm] Hb. assert (wrap64 (regs s' RSP - 8) = regs s' RSP - 8) as E.
  { apply wrap_small. unfold in_range. rewrite Hrsp. lia. }
  unfold push_val. rewrite E. split; cbn [regs mem set_reg set_mem m_rflags m_cs m_ss m_ds m_es m_cr3 m_rip].
  - rewrite upd_eq, length_app. cbn. lia.
  - intros r Hr. rewrite upd_ne by done. by apply Hregs.
  - rewrite upd_eq, rev_app_distr. cbn [rev app]. apply stack_holds_cons; [by apply (load_store 8)|].
    replace (regs s' RSP - 8 + 8) with (regs s' RSP) by lia. eapply stack_holds_ext; [|exact Hst].
    intros b Hb'. apply store_ne. lia.
  - rewrite upd_eq. intros b Hb'. rewrite store_ne by lia. apply Hm. lia.
Qed.

Lemma pushed_app vs vs' s s' s'' :
  pushed vs s s' → pushed vs' s' s'' → pushed (vs ++ vs') s s''.
Proof.
  intros [Hrsp Hregs Hst Hm] [Hrsp' Hregs' Hst' Hm']. split.
  - rewrite length_app. lia.
  - intros r Hr. by rewrite Hregs', Hregs.
  - rewrite rev_app_distr. apply stack_holds_app; [done|]. rewrite length_rev, Hrsp'.
    replace (_ - _ + _) with (regs s' RSP) by lia. eapply stack_holds_ext; [|exact Hst]. intros b Hb. apply Hm'. lia.
  - intros b Hb. rewrite Hm', Hm by lia. done.
Qed.

Lemma pushed_vals vs s :
  8 * Z.of_nat (length vs) ≤ regs s RSP < 2 ^ 64 → pushed vs s (foldl push_val s vs).
Proof.
  induction vs as [|v vs IH] using rev_ind; intros Hb; [apply pushed_nil|]. rewrite length_app in Hb. cbn in Hb.
  rewrite foldl_app. cbn [foldl]. apply pushed_snoc; [apply IH|]; lia.
Qed.

Lemma run_pushes rs s :
  RSP ∉ rs → 8 * Z.of_nat (length rs) ≤ regs s RSP < 2 ^ 64 → pushed (regs s <$> rs) s (run (Push <$> rs) s).
Proof.
  induction rs as [|r rs IH] using rev_ind; intros Hr Hb; [apply pushed_nil|].
  rewrite length_app in Hb. cbn in Hb. rewrite !fmap_app, run_code_app. cbn [fmap list_fmap run foldl step].
  assert (pushed (regs s <$> rs) s (run (Push <$> rs) s)) as IH' by (apply IH; [set_solver|lia]).
  rewrite (pu_regs _ _ _ IH' r) by set_solver. apply pushed_snoc; [done|]. rewrite length_fmap. lia.
Qed.

(** What popping the registers [rs] makes of a state. *)
Record popped (rs : list reg) (s s' : Mach) : Prop := {
  po_rsp : regs s' RSP = regs s RSP + 8 * Z.of_nat (length rs);
  po_in i r : rs !! i = Some r → regs s' r = load 8 (mem s) (regs s RSP + 8 * Z.of_nat i);
  po_out r : r ∉ rs → r ≠ RSP → regs s' r = regs s r;
  po_mem : mem s' = mem s;
}.

Lemma run_pops rs s :
  RSP ∉ rs → NoDup rs → 0 ≤ regs s RSP → regs s RSP + 8 * Z.of_nat (length rs) < 2 ^ 64 →
  popped rs s (run (Pop <$> rs) s).
Proof.
  induction rs as [|r rs IH] using rev_ind; intros Hr Hnd H0 Hb.
  { split; [cbn; lia|done..]. }
  apply NoDup_app in Hnd as (Hnd & Hd & _). rewrite length_app in Hb. cbn in Hb.
  destruct IH as [Irsp Iin Iout Imem]; [set_solver|done|done|lia|].
  rewrite fmap_app, run_code_app. cbn [fmap list_fmap run foldl step pop_val].
  change (foldl step s (Pop <$> rs)) with (run (Pop <$> rs) s).
  assert (r ≠ RSP) by set_solver.
  split; cbn [regs mem set_reg m_rflags m_cs m_ss m_ds m_es m_cr3 m_rip].
  - rewrite upd_ne, upd_eq, Irsp, length_app by done. cbn. rewrite wrap_small by (unfold in_range; lia). lia.
  - intros i x Hi. apply lookup_app_Some in Hi as [Hi|[Hle Hi]].
    + assert (x ∈ rs) by by apply (list_elem_of_lookup_2 _ i).
      rewrite !upd_ne by set_solver. by apply Iin.
    + apply list_lookup_singleton_Some in Hi as [Hi ->]. rewrite upd_eq, Imem, Irsp. f_equal. lia.
  - intros x Hx Hx'. rewrite !upd_ne by set_solver. apply Iout; set_solver.
  - done.
Qed.

(** [iretq] from a stack that holds five words. *)
Lemma iretq_words s a rip cs fl sp ss :
  regs s RSP = a → 0 ≤ a → a + 40 < 2 ^ 64 → stack_holds (mem s) a [rip; cs; fl; sp; ss] →
  iretq s = mkMach (upd (regs s) RSP (wrap64 sp)) (mem s) (wrap64 fl) (wrap16 (wrap64 cs)) (wrap16 (wrap64 ss))
    (m_ds s) (m_es s) (m_cr3 s) (wrap64 rip).
Proof.
  intros Ha H0 H1 Hst. unfold iretq.
  rewrite Ha, (wrap_small 64 (a + 8)), (wrap_small 64 (a + 16)), (wrap_small 64 (a + 24)), (wrap_small 64 (a + 32)) by (unfold in_range; lia).
  assert (∀ i x, [rip; cs; fl; sp; ss] !! i = Some x → load 8 (mem s) (a + 8 * Z.of_nat i) = wrap64 x) as H by exact Hst.
  pose proof (H 0%nat _ eq_refl) as W0. pose proof (H 1%nat _ eq_refl) as W1. pose proof (H 2%nat _ eq_refl) as W2.
  pose proof (H 3%nat _ eq_refl) as W3. pose proof (H 4%nat _ eq_refl) as W4.
  change (8 * Z.of_nat 0) with 0 in W0. change (8 * Z.of_nat 1) with 8 in W1. change (8 * Z.of_nat 2) with 16 in W2.
  change (8 * Z.of_nat 3) with 24 in W3. change (8 * Z.of_nat 4) with 32 in W4. rewrite Z.add_0_r in W0.
  by rewrite W0, W1, W2, W3, W4.
Qed.

(** A prefix of what a stack holds. *)
Lemma stack_holds_prefix m a l l' : stack_holds m a (l ++ l') → stack_holds m a l.
Proof. intros H i x Hi. apply H. by apply lookup_app_l_Some. Qed.
