(* ===== verification/Descriptors.v ===== *)
(** * Descriptor tables

    [arch/gdt.rs] and [interrupts/idt.rs]: the segment descriptors, the task
    state segment and the 256 gates, as the code writes them, and as the
    processor reads them back from the bytes in memory. *)

From S2P Require Import Prelude Thread.

(** ** [arch/gdt.rs] *)

Definition DOUBLE_FAULT_IST_INDEX : nat := 0.
Definition DOUBLE_FAULT_STACK_SIZE : Z := 4096.

(** [repr(C, packed)] *)
Record Tss := mkTss {
  tss_reserved_0 : Z;
  tss_rsp0 : Z; tss_rsp1 : Z; tss_rsp2 : Z;
  tss_reserved_1 : Z;
  tss_ist : list Z;
  tss_reserved_2 : Z;
  tss_reserved_3 : Z;
  tss_iomap_base : Z;
}.

Definition Tss_static : Tss := mkTss 0 0 0 0 0 (replicate 7 0) 0 0 0.

(** [size_of::<Tss>()] *)
Definition TSS_SIZE : Z := 4 + 8 + 8 + 8 + 8 + 7 * 8 + 8 + 2 + 2.

Definition tss_bytes (t : Tss) : list Z :=
  le_bytes 4 (tss_reserved_0 t) ++ le_bytes 8 (tss_rsp0 t) ++ le_bytes 8 (tss_rsp1 t) ++ le_bytes 8 (tss_rsp2 t) ++
  le_bytes 8 (tss_reserved_1 t) ++ mjoin (le_bytes 8 <$> tss_ist t) ++ le_bytes 8 (tss_reserved_2 t) ++
  le_bytes 2 (tss_reserved_3 t) ++ le_bytes 2 (tss_iomap_base t).

Definition GDT_KERNEL_CODE : Z := 0x00AF9A000000FFFF.
Definition GDT_KERNEL_DATA : Z := 0x00AF92000000FFFF.
Definition GDT_USER_CODE : Z := 0x00AFFA000000FFFF.
Definition GDT_USER_DATA : Z := 0x00AFF2000000FFFF.

Definition KERNEL_CODE_SELECTOR : Z := 0x08.
Definition KERNEL_DATA_SELECTOR : Z := 0x10.
Definition TSS_SELECTOR : Z := 0x28.

Definition Gdt_static : list Z := [0; GDT_KERNEL_CODE; GDT_KERNEL_DATA; GDT_USER_CODE; GDT_USER_DATA; 0; 0].

(** [size_of::<Gdt>()]: seven words, padded to the alignment of 16. *)
Definition GDT_SIZE : Z := 64.

Definition gdt_bytes (g : list Z) : list Z := mjoin (le_bytes 8 <$> g) ++ replicate 8 0.

(** The registers the privileged instructions load. *)
Record TableRegister := mkTableRegister { tr_limit : Z; tr_base : Z }.

Record Segments := mkSegments {
  sg_gdt : list Z;
  sg_tss : Tss;
  sg_gdtr : TableRegister;
  sg_tr : Z;
  sg_cs : Z; sg_ds : Z; sg_es : Z; sg_ss : Z;
}.

(** What the linker decides: where the tables and the stack lie. *)
Record Layout := mkLayout { la_gdt : Z; la_tss : Z; la_double_fault_stack : Z; la_idt : Z }.

Definition double_fault_stack_top (la : Layout) : Z := wrap64 (la_double_fault_stack la + DOUBLE_FAULT_STACK_SIZE).

Definition set_rsp0 (t : Tss) (rsp0 : Z) : Tss :=
  mkTss (tss_reserved_0 t) (Z.land rsp0 (not_w 64 0xF)) (tss_rsp1 t) (tss_rsp2 t) (tss_reserved_1 t) (tss_ist t)
    (tss_reserved_2 t) (tss_reserved_3 t) (tss_iomap_base t).

Definition tss_descriptor_low (tss_addr limit : Z) : Z :=
  Z.lor (Z.lor (Z.lor (Z.lor (Z.land limit 0xFFFF)
    (wrap64 (Z.shiftl (Z.land tss_addr 0xFFFFFF) 16)))
    (wrap64 (Z.shiftl 0x89 40)))
    (wrap64 (Z.shiftl (Z.land limit 0xF0000) 32)))
    (wrap64 (Z.shiftl (Z.land tss_addr 0xFF000000) 32)).

Definition write_tss_descriptor (la : Layout) (gdt : list Z) : list Z :=
  let tss_addr := la_tss la in
  let limit := TSS_SIZE - 1 in
  let low := tss_descriptor_low tss_addr limit in
  let high := Z.shiftr tss_addr 32 in
  <[6%nat := high]> (<[5%nat := low]> gdt).

(** [lgdt], the far return that loads [cs], and the three data selectors. *)
Definition load_gdt_and_segments (la : Layout) (s : Segments) : Segments :=
  mkSegments (sg_gdt s) (sg_tss s) (mkTableRegister (wrap16 (GDT_SIZE - 1)) (la_gdt la)) (sg_tr s)
    KERNEL_CODE_SELECTOR KERNEL_DATA_SELECTOR KERNEL_DATA_SELECTOR KERNEL_DATA_SELECTOR.

Definition load_tr (s : Segments) : Segments :=
  mkSegments (sg_gdt s) (sg_tss s) (sg_gdtr s) TSS_SELECTOR (sg_cs s) (sg_ds s) (sg_es s) (sg_ss s).

Definition gdt_init (la : Layout) (s : Segments) (tss_rsp0 : Z) : Segments :=
  let t := set_rsp0 (sg_tss s) tss_rsp0 in
  let t := mkTss (tss_reserved_0 t) (Descriptors.tss_rsp0 t) (tss_rsp1 t) (tss_rsp2 t) (tss_reserved_1 t)
    (<[DOUBLE_FAULT_IST_INDEX := double_fault_stack_top la]> (tss_ist t))
    (tss_reserved_2 t) (tss_reserved_3 t) (wrap16 TSS_SIZE) in
  let s := mkSegments (write_tss_descriptor la (sg_gdt s)) t (sg_gdtr s) (sg_tr s) (sg_cs s) (sg_ds s) (sg_es s) (sg_ss s) in
  load_tr (load_gdt_and_segments la s).

(** ** [interrupts/idt.rs] *)

Definition IDT_SIZE : Z := 256.
Definition DOUBLE_FAULT_IST : Z := 1.
Definition TIMER_INTERRUPT_VECTOR : Z := 32.
Definition KEYBOARD_INTERRUPT_VECTOR : Z := 33.
Definition MOUSE_INTERRUPT_VECTOR : Z := 44.
Definition USER_TRAP_INTERRUPT_VECTOR : Z := 0x68.

Record IdtEntry := mkIdtEntry {
  offset_low : Z;
  selector : Z;
  ist : Z;
  type_attr : Z;
  offset_mid : Z;
  offset_high : Z;
  reserved : Z;
}.

Definition IdtEntry_new : IdtEntry := mkIdtEntry 0 0 0 0 0 0 0.

(** Every field is assigned, so the entry's old value does not matter. *)
Definition set_handler (_ : IdtEntry) (handler selector ist type_attr : Z) : IdtEntry :=
  mkIdtEntry (wrap16 (Z.land handler 0xFFFF)) selector (Z.land ist 0x07) type_attr
    (wrap16 (Z.land (Z.shiftr handler 16) 0xFFFF)) (wrap32 (Z.land (Z.shiftr handler 32) 0xFFFFFFFF)) 0.

Definition entry_bytes (e : IdtEntry) : list Z :=
  le_bytes 2 (offset_low e) ++ le_bytes 2 (selector e) ++ le_bytes 1 (ist e) ++ le_bytes 1 (type_attr e) ++
  le_bytes 2 (offset_mid e) ++ le_bytes 4 (offset_high e) ++ le_bytes 4 (reserved e).

Definition Idt_new : list IdtEntry := replicate (Z.to_nat IDT_SIZE) IdtEntry_new.

Definition idt_bytes (idt : list IdtEntry) : list Z := mjoin (entry_bytes <$> idt).

Definition GATE_TYPE_INTERRUPT : Z := 0x8E.
Definition GATE_TYPE_TRAP : Z := 0x8F.
Definition KERNEL_CS : Z := KERNEL_CODE_SELECTOR.
Definition DPL_RING3 : Z := 0x60.

(** The addresses of the handlers. *)
Record Handlers := mkHandlers {
  exception_handler : Z → Z;
  unexpected_interrupt_handler : Z → Z;
  timer_interrupt_handler : Z;
  keyboard_interrupt_handler : Z;
  mouse_interrupt_handler : Z;
  user_trap_interrupt_handler : Z;
}.

(** [unexpected_interrupt_table] of [handlers.asm]. *)
Definition unexpected_interrupt_table (h : Handlers) : list Z := unexpected_interrupt_handler h <$> seqZ 0 256.

(** The vectors with a stub of their own in [handlers.asm]. *)
Definition exception_vectors : list Z := seqZ 0 15 ++ seqZ 16 6.

(** The entries [init] sets after the defaults: vector, handler, stack and
    gate type. *)
Definition dedicated (h : Handlers) : list (Z * (Z * Z * Z)) :=
  ((λ v, (v, (exception_handler h v,
      if v =? 8 then DOUBLE_FAULT_IST else 0,
      if v =? 3 then GATE_TYPE_TRAP else GATE_TYPE_INTERRUPT))) <$> exception_vectors) ++
  [(TIMER_INTERRUPT_VECTOR, (timer_interrupt_handler h, 0, GATE_TYPE_INTERRUPT));
   (KEYBOARD_INTERRUPT_VECTOR, (keyboard_interrupt_handler h, 0, GATE_TYPE_INTERRUPT));
   (MOUSE_INTERRUPT_VECTOR, (mouse_interrupt_handler h, 0, GATE_TYPE_INTERRUPT));
   (USER_TRAP_INTERRUPT_VECTOR, (user_trap_interrupt_handler h, 0, Z.lor GATE_TYPE_TRAP DPL_RING3))].

Definition install (idt : list IdtEntry) (x : Z * (Z * Z * Z)) : list IdtEntry :=
  let '(v, (handler, ist, type_attr)) := x in
  alter (λ e, set_handler e handler KERNEL_CS ist type_attr) (Z.to_nat v) idt.

Definition install_defaults (h : Handlers) (idt : list IdtEntry) : list IdtEntry :=
  zip_with (λ e handler_addr, set_handler e handler_addr KERNEL_CS 0 GATE_TYPE_INTERRUPT) idt (unexpected_interrupt_table h).

(** The table and what [lidt] loads. *)
Definition idt_init (la : Layout) (h : Handlers) (idt : list IdtEntry) : list IdtEntry * TableRegister :=
  let idt := foldl install (install_defaults h idt) (dedicated h) in
  (idt, mkTableRegister (wrap16 (IDT_SIZE * 16 - 1)) (la_idt la)).

(** ** The processor's reading of the tables *)

Record Gate := mkGate {
  g_offset : Z; g_selector : Z; g_ist : Z; g_trap : bool; g_dpl : Z; g_present : bool;
}.

(** The gate of a vector: none past the limit of the table; [type] is the low
    half byte, [0xE] for an interrupt gate and [0xF] for a trap gate. *)
Definition cpu_gate (idtr : TableRegister) (image : list Z) (v : Z) : option Gate :=
  let o := Z.to_nat (16 * v) in
  let attr := field image (o + 5) 1 in
  if (16 * v + 15 <=? tr_limit idtr) && (Z.lor 1 (Z.land attr 0x1F) =? 0xF) then
    Some (mkGate
      (field image o 2 + 2 ^ 16 * field image (o + 6) 2 + 2 ^ 32 * field image (o + 8) 4)
      (field image (o + 2) 2) (Z.land (field image (o + 4) 1) 7)
      (Z.testbit attr 0) (Z.land (Z.shiftr attr 5) 3) (Z.testbit attr 7))
  else None.

(** The parts of a segment descriptor that long mode uses. *)
Record Segment := mkSegment { s_dpl : Z; s_code : bool; s_long : bool; s_writable : bool; s_present : bool }.

Definition cpu_segment (gdtr : TableRegister) (image : list Z) (sel : Z) : option Segment :=
  let o := Z.to_nat (8 * (sel / 8)) in
  let access := field image (o + 5) 1 in
  if (8 * (sel / 8) + 7 <=? tr_limit gdtr) && Z.testbit access 4 then
    Some (mkSegment (Z.land (Z.shiftr access 5) 3) (Z.testbit access 3) (Z.testbit (field image (o + 6) 1) 5)
      (Z.testbit access 1) (Z.testbit access 7))
  else None.

(** The base and limit of the system descriptor that [ltr] finds: type 9, an
    available 64-bit task state segment. *)
Definition cpu_tss (gdtr : TableRegister) (image : list Z) (sel : Z) : option (Z * Z) :=
  let o := Z.to_nat (8 * (sel / 8)) in
  if (8 * (sel / 8) + 15 <=? tr_limit gdtr) && (field image (o + 5) 1 =? 0x89) then
    Some (field image (o + 2) 3 + 2 ^ 24 * field image (o + 7) 1 + 2 ^ 32 * field image (o + 8) 4,
          field image o 2 + 2 ^ 16 * Z.land (field image (o + 6) 1) 0xF)
  else None.

(** [rsp0] and the interrupt stack table of a task state segment. *)
Definition cpu_rsp0 (image : list Z) : Z := field image 4 8.
Definition cpu_ist (image : list Z) (i : Z) : Z := field image (36 + 8 * Z.to_nat (i - 1)) 8.
Definition cpu_iomap_base (image : list Z) : Z := field image 102 2.

(** ** Encoding lemmas *)

(** A field of a little-endian number is a slice of it. *)
Lemma field_le_bytes k x o n : (o + n ≤ k)%nat → field (le_bytes k x) o n = x / 2 ^ (8 * Z.of_nat o) mod 2 ^ (8 * Z.of_nat n).
Proof.
  revert k x. induction o as [|o IH]; intros k x Hk.
  - unfold field. rewrite drop_0. cbn [Z.of_nat Z.mul]. rewrite Z.pow_0_r, Z.div_1_r.
    transitivity (le_value (le_bytes n x)); [f_equal|apply le_value_bytes].
    revert k x Hk. induction n as [|n IHn]; intros k x Hk; [done|]. destruct k as [|k]; [lia|].
    cbn [le_bytes take]. f_equal. apply IHn. lia.
  - destruct k as [|k]; [lia|]. cbn [le_bytes]. change (field (x mod 256 :: le_bytes k (x / 256)) (S o) n) with (field (le_bytes k (x / 256)) o n).
    rewrite IH by lia. rewrite Z.div_div by lia. do 2 f_equal. replace (8 * Z.of_nat (S o)) with (8 + 8 * Z.of_nat o) by lia.
    by rewrite Z.pow_add_r by lia.
Qed.

Lemma drop_mjoin {A} n (l : list (list A)) i x :
  Forall (λ y, length y = n) l → l !! i = Some x → ∃ rest, drop (n * i) (mjoin l) = x ++ rest.
Proof.
  intros Hl. revert i. induction Hl as [|y l Hy Hl IH]; intros i; [done|]. destruct i as [|i]; cbn [mjoin list_join lookup list_lookup].
  - intros [= ->]. rewrite Nat.mul_0_r, drop_0. eauto.
  - intros Hi. destruct (IH i Hi) as [rest Hr]. exists rest. rewrite drop_app, Hy.
    rewrite (drop_ge y) by lia. rewrite app_nil_l. replace (n * S i - n)%nat with (n * i)%nat by lia. done.
Qed.

(** A field inside one of the equal-sized parts of an image. *)
Lemma field_mjoin n (l : list (list Z)) tail i x o len :
  Forall (λ y, length y = n) l → l !! i = Some x → (o + len ≤ n)%nat →
  field (mjoin l ++ tail) (n * i + o) len = field x o len.
Proof.
  intros Hl Hi Ho. destruct (drop_mjoin n l i x Hl Hi) as [rest Hr]. unfold field. f_equal.
  assert (length x = n) as Hx by exact (Forall_lookup_1 _ _ _ _ Hl Hi).
  assert (n * i ≤ length (mjoin l))%nat as Hle.
  { destruct (decide (n * i ≤ length (mjoin l))%nat) as [|Hgt]; [done|]. rewrite drop_ge in Hr by lia.
    destruct x; [cbn in Hx; lia|discriminate]. }
  rewrite <- drop_drop, drop_app_le, Hr by done. rewrite <- app_assoc, drop_app_le, take_app_le by (rewrite ?length_drop; lia). done.
Qed.

Lemma lor_add x y k : 0 ≤ k → in_range k x → Z.lor x (y * 2 ^ k) = x + y * 2 ^ k.
Proof.
  intros Hk Hx. rewrite <- Z.shiftl_mul_pow2 by done. rewrite Z.add_nocarry_lxor, Z.lxor_lor; [done|..];
    bitwise i; (destruct (decide (i < k)); [rewrite Z.shiftl_spec_low by lia; apply andb_false_r|]);
    by rewrite (testbit_in_range k x i) by (done || lia).
Qed.

Lemma land_ones_mod x k : 0 ≤ k → Z.land x (2 ^ k - 1) = x mod 2 ^ k.
Proof. intros. rewrite <- Z.land_ones by done. by rewrite Z.ones_equiv, Z.sub_1_r. Qed.

Lemma land_field x o n : 0 ≤ o → 0 ≤ n → Z.land x ((2 ^ n - 1) * 2 ^ o) = (x / 2 ^ o) mod 2 ^ n * 2 ^ o.
Proof.
  intros Ho Hn. rewrite <- Z.shiftr_div_pow2, <- land_ones_mod by done. rewrite <- !Z.shiftl_mul_pow2 by done.
  bitwise i. destruct (decide (i < o)).
  - rewrite !Z.shiftl_spec_low by lia. apply andb_false_r.
  - rewrite !Z.shiftl_spec, Z.land_spec, Z.shiftr_spec by lia. do 2 f_equal. lia.
Qed.

Lemma tss_descriptor_low_value a :
  in_range 64 a →
  tss_descriptor_low a (TSS_SIZE - 1) = 103 + a mod 2 ^ 24 * 2 ^ 16 + 0x89 * 2 ^ 40 + (a / 2 ^ 24) mod 2 ^ 8 * 2 ^ 56.
Proof.
  intros Ha. unfold tss_descriptor_low. change (TSS_SIZE - 1) with 103.
  change (Z.land 103 0xFFFF) with 103. change (wrap64 (Z.shiftl (Z.land 103 0xF0000) 32)) with 0.
  change (wrap64 (Z.shiftl 0x89 40)) with (0x89 * 2 ^ 40). rewrite Z.lor_0_r.
  change 0xFFFFFF with (2 ^ 24 - 1). change 0xFF000000 with ((2 ^ 8 - 1) * 2 ^ 24).
  rewrite land_ones_mod, land_field, !Z.shiftl_mul_pow2 by lia.
  pose proof (Z.mod_pos_bound a (2 ^ 24)). pose proof (Z.mod_pos_bound (a / 2 ^ 24) (2 ^ 8)).
  rewrite <- Z.mul_assoc, <- Z.pow_add_r by lia. change (24 + 32) with 56.
  rewrite !wrap_small by (unfold in_range; lia). rewrite (lor_add 103 _ 16), (lor_add _ 0x89 40), (lor_add _ _ 56) by (unfold in_range; lia). done.
Qed.

(** The descriptor that the task register finds. *)
Lemma tss_descriptor_decodes a :
  in_range 64 a →
  let image := le_bytes 8 (tss_descriptor_low a (TSS_SIZE - 1)) ++ le_bytes 8 (Z.shiftr a 32) in
  field image 5 1 = 0x89 ∧
  field image 2 3 + 2 ^ 24 * field image 7 1 + 2 ^ 32 * field image 8 4 = a ∧
  field image 0 2 + 2 ^ 16 * Z.land (field image 6 1) 0xF = TSS_SIZE - 1.
Proof.
  intros Ha image. set (low := tss_descriptor_low a (TSS_SIZE - 1)) in *.
  assert (∀ o n, (o + n ≤ 8)%nat → field image o n = low / 2 ^ (8 * Z.of_nat o) mod 2 ^ (8 * Z.of_nat n)) as Hl.
  { intros o n Ho. rewrite <- (field_le_bytes 8) by done. unfold field, image. f_equal.
    rewrite drop_app_le, take_app_le by (rewrite ?length_drop, length_le_bytes; lia). done. }
  assert (field image 8 4 = a / 2 ^ 32) as Hh.
  { change (field image 8 4) with (field (le_bytes 8 (Z.shiftr a 32)) 0 4). rewrite field_le_bytes by lia.
    rewrite Z.shiftr_div_pow2 by lia. cbn [Z.of_nat]. rewrite Z.mul_0_r, Z.pow_0_r, Z.div_1_r. apply Z.mod_small.
    unfold in_range in Ha. pose proof (Z.div_pos a (2 ^ 32)). pose proof (Z.div_lt_upper_bound a (2 ^ 32) (2 ^ 32)). lia. }
  rewrite Hh, !Hl by lia. subst low. rewrite tss_descriptor_low_value by done.
  pose proof (Z.mod_pos_bound a (2 ^ 24)). pose proof (Z.mod_pos_bound (a / 2 ^ 24) (2 ^ 8)).
  pose proof (Z.div_mod a (2 ^ 24)). pose proof (Z.div_mod (a / 2 ^ 24) (2 ^ 8)) as Hd. rewrite Z.div_div in Hd by lia.
  change (2 ^ 24 * 2 ^ 8) with (2 ^ 32) in Hd.
  generalize dependent (a mod 2 ^ 24). intros b Hb Ea. generalize dependent ((a / 2 ^ 24) mod 2 ^ 8). intros c Hc Hd.
  set (x := 103 + b * 2 ^ 16 + 137 * 2 ^ 40 + c * 2 ^ 56).
  assert (x / 2 ^ (8 * Z.of_nat 5) mod 2 ^ (8 * Z.of_nat 1) = 0x89) as ->.
  { replace (x / _) with (137 + c * 2 ^ 16) by (subst x; apply (Z.div_unique _ _ _ (103 + b * 2 ^ 16)); lia). rewrite <- (Z.mod_unique _ _ (c * 2 ^ 8) 137); lia. }
  assert (x / 2 ^ (8 * Z.of_nat 2) mod 2 ^ (8 * Z.of_nat 3) = b) as ->.
  { replace (x / _) with (b + 137 * 2 ^ 24 + c * 2 ^ 40) by (subst x; apply (Z.div_unique _ _ _ 103); lia). rewrite <- (Z.mod_unique _ _ (137 + c * 2 ^ 16) b); lia. }
  assert (x / 2 ^ (8 * Z.of_nat 7) mod 2 ^ (8 * Z.of_nat 1) = c) as ->.
  { replace (x / _) with c by (subst x; apply (Z.div_unique _ _ _ (103 + b * 2 ^ 16 + 137 * 2 ^ 40)); lia). apply Z.mod_small. lia. }
  assert (x / 2 ^ (8 * Z.of_nat 0) mod 2 ^ (8 * Z.of_nat 2) = 103) as ->.
  { replace (x / _) with x by (by rewrite Z.pow_0_r, Z.div_1_r). rewrite <- (Z.mod_unique _ _ (b + 137 * 2 ^ 24 + c * 2 ^ 40) 103); lia. }
  assert (x / 2 ^ (8 * Z.of_nat 6) mod 2 ^ (8 * Z.of_nat 1) = 0) as ->.
  { replace (x / _) with (c * 2 ^ 8) by (subst x; apply (Z.div_unique _ _ _ (103 + b * 2 ^ 16 + 137 * 2 ^ 40)); lia). rewrite <- (Z.mod_unique _ _ c 0); lia. }
  split; [done|]. split; [lia|done].
Qed.

(** ** The tables after initialisation *)

Record layout_ok (la : Layout) : Prop := {
  lo_tss : in_range 64 (la_tss la);
  lo_stack : 0 ≤ la_double_fault_stack la ∧ la_double_fault_stack la + DOUBLE_FAULT_STACK_SIZE < 2 ^ 64;
  lo_aligned : la_double_fault_stack la mod 16 = 0;
}.

Lemma gdt_tss_field la o n :
  (o + n ≤ 16)%nat →
  field (gdt_bytes (write_tss_descriptor la Gdt_static)) (40 + o) n =
  field (le_bytes 8 (tss_descriptor_low (la_tss la) (TSS_SIZE - 1)) ++ le_bytes 8 (Z.shiftr (la_tss la) 32)) o n.
Proof.
  intros Ho. set (image := _ ++ _). unfold field. rewrite <- drop_drop.
  change (drop 40 (gdt_bytes (write_tss_descriptor la Gdt_static))) with (image ++ replicate 8 0).
  assert (length image = 16%nat) by done. rewrite drop_app_le, take_app_le by (rewrite ?length_drop; lia). done.
Qed.

Lemma aligned_16 x : in_range 64 x → Z.land x (not_w 64 0xF) = x / 16 * 16.
Proof. intros. exact (mask_low 4 x ltac:(lia) ltac:(done)). Qed.

(** After [gdt::init] the processor finds in the descriptor table a kernel
    code and data segment of ring 0 under the selectors it has loaded, user
    segments of ring 3 under the user selectors, and under the task register a
    64-bit task state segment with the address and size of [TSS]; its bytes give
    the kernel stack, rounded down to 16, the top of the double-fault stack as
    the first interrupt stack, and an I/O bitmap that lies past its limit. *)
Theorem segment_tables_correct la s rsp0 :
  layout_ok la → in_range 64 rsp0 → sg_gdt s = Gdt_static → sg_tss s = Tss_static →
  let s' := gdt_init la s rsp0 in
  let seg := cpu_segment (sg_gdtr s') (gdt_bytes (sg_gdt s')) in
  let t := tss_bytes (sg_tss s') in
  tr_base (sg_gdtr s') = la_gdt la ∧
  seg (sg_cs s') = Some (mkSegment 0 true true true true) ∧
  seg (sg_ss s') = Some (mkSegment 0 false true true true) ∧
  seg USER_CODE_SELECTOR = Some (mkSegment 3 true true true true) ∧
  seg USER_DATA_SELECTOR = Some (mkSegment 3 false true true true) ∧
  cpu_tss (sg_gdtr s') (gdt_bytes (sg_gdt s')) (sg_tr s') = Some (la_tss la, TSS_SIZE - 1) ∧
  Z.of_nat (length t) = TSS_SIZE ∧ TSS_SIZE - 1 < cpu_iomap_base t ∧
  cpu_rsp0 t = rsp0 / 16 * 16 ∧
  cpu_ist t DOUBLE_FAULT_IST = la_double_fault_stack la + DOUBLE_FAULT_STACK_SIZE ∧
  cpu_ist t DOUBLE_FAULT_IST mod 16 = 0.
Proof.
  destruct s as [g tss gdtr tr c d e ss']. intros [Htss Hst Hal] Hr Hg Ht s' seg t.
  cbn [sg_gdt sg_tss] in Hg, Ht. subst g tss.
  assert (cpu_rsp0 t = rsp0 / 16 * 16) as E0.
  { change (cpu_rsp0 t) with (le_value (le_bytes 8 (Z.land rsp0 (not_w 64 0xF)))). rewrite le_value_bytes, aligned_16 by done.
    apply wrap_small. unfold in_range in *. change (8 * Z.of_nat 8) with 64. pose proof (Z.div_mod rsp0 16). pose proof (Z.mod_pos_bound rsp0 16). lia. }
  assert (cpu_ist t DOUBLE_FAULT_IST = la_double_fault_stack la + DOUBLE_FAULT_STACK_SIZE) as E1.
  { change (cpu_ist t DOUBLE_FAULT_IST) with (le_value (le_bytes 8 (double_fault_stack_top la))).
    rewrite le_value_bytes. change (8 * Z.of_nat 8) with 64. unfold double_fault_stack_top.
    assert (in_range 64 (la_double_fault_stack la + DOUBLE_FAULT_STACK_SIZE)) by (unfold in_range, DOUBLE_FAULT_STACK_SIZE in *; lia).
    by rewrite !wrap_small by (rewrite ?wrap_small; done). }
  destruct (tss_descriptor_decodes (la_tss la) Htss) as (D1 & D2 & D3).
  split_and!; try reflexivity; try done.
  - set (g := gdt_bytes (write_tss_descriptor la Gdt_static)).
    change (cpu_tss _ _ _) with
      (if (55 <=? 63) && (field g (40 + 5) 1 =? 0x89) then
         Some (field g (40 + 2) 3 + 2 ^ 24 * field g (40 + 7) 1 + 2 ^ 32 * field g (40 + 8) 4,
               field g (40 + 0) 2 + 2 ^ 16 * Z.land (field g (40 + 6) 1) 0xF) else None).
    subst g. rewrite !gdt_tss_field by lia. rewrite D1, D2, D3. reflexivity.
  - rewrite E1. unfold DOUBLE_FAULT_STACK_SIZE. rewrite Z.add_mod, Hal by lia. done.
Qed.

Lemma set_handler_bytes e h ist ty :
  in_range 64 h → in_range 8 ty → 0 ≤ ist < 8 →
  let image := entry_bytes (set_handler e h KERNEL_CS ist ty) in
  field image 0 2 + 2 ^ 16 * field image 6 2 + 2 ^ 32 * field image 8 4 = h ∧
  field image 2 2 = KERNEL_CS ∧ field image 4 1 = ist ∧ field image 5 1 = ty.
Proof.
  intros Hh Hty Hist image.
  assert (∀ n x, le_value (le_bytes n (wrap (8 * Z.of_nat n) x)) = x mod 2 ^ (8 * Z.of_nat n)) as W.
  { intros n x. rewrite le_value_bytes. unfold wrap. apply Z.mod_mod. lia. }
  change (field image 0 2) with (le_value (le_bytes 2 (wrap (8 * Z.of_nat 2) (Z.land h 0xFFFF)))).
  change (field image 6 2) with (le_value (le_bytes 2 (wrap (8 * Z.of_nat 2) (Z.land (Z.shiftr h 16) 0xFFFF)))).
  change (field image 8 4) with (le_value (le_bytes 4 (wrap (8 * Z.of_nat 4) (Z.land (Z.shiftr h 32) 0xFFFFFFFF)))).
  change (field image 4 1) with (le_value (le_bytes 1 (Z.land ist 0x07))).
  change (field image 5 1) with (le_value (le_bytes 1 ty)).
  rewrite !W, !le_value_bytes. change (8 * Z.of_nat 2) with 16. change (8 * Z.of_nat 4) with 32. change (8 * Z.of_nat 1) with 8.
  change 0xFFFF with (2 ^ 16 - 1). change 0xFFFFFFFF with (2 ^ 32 - 1). change 0x07 with (2 ^ 3 - 1).
  rewrite !land_ones_mod, !Z.shiftr_div_pow2, !Z.mod_mod by lia.
  split_and!; [|done| |].
  - unfold in_range in Hh. rewrite (Z.mod_small (h / 2 ^ 32)).
    + pose proof (Z.div_mod h (2 ^ 16)). pose proof (Z.div_mod (h / 2 ^ 16) (2 ^ 16)) as Hd. rewrite Z.div_div in Hd by lia.
      change (2 ^ 16 * 2 ^ 16) with (2 ^ 32) in Hd. lia.
    + pose proof (Z.div_pos h (2 ^ 32)). pose proof (Z.div_lt_upper_bound h (2 ^ 32) (2 ^ 32)). lia.
  - rewrite (Z.mod_small ist) by lia. apply wrap_small. unfold in_range. lia.
  - by apply wrap_small.
Qed.

(** Where a vector leads: its own stub or handler if it has one, else the
    catch-all stub of its number. *)
Definition handler_of (h : Handlers) (v : Z) : Z :=
  if decide (v ∈ exception_vectors) then exception_handler h v
  else if v =? TIMER_INTERRUPT_VECTOR then timer_interrupt_handler h
  else if v =? KEYBOARD_INTERRUPT_VECTOR then keyboard_interrupt_handler h
  else if v =? MOUSE_INTERRUPT_VECTOR then mouse_interrupt_handler h
  else if v =? USER_TRAP_INTERRUPT_VECTOR then user_trap_interrupt_handler h
  else unexpected_interrupt_handler h v.

Definition ist_of (v : Z) : Z := if v =? 8 then 1 else 0.
Definition trap_of (v : Z) : bool := (v =? 3) || (v =? USER_TRAP_INTERRUPT_VECTOR).
Definition dpl_of (v : Z) : Z := if v =? USER_TRAP_INTERRUPT_VECTOR then 3 else 0.

Record handlers_ok (h : Handlers) : Prop := {
  ho_exception v : in_range 64 (exception_handler h v);
  ho_unexpected v : in_range 64 (unexpected_interrupt_handler h v);
  ho_timer : in_range 64 (timer_interrupt_handler h);
  ho_keyboard : in_range 64 (keyboard_interrupt_handler h);
  ho_mouse : in_range 64 (mouse_interrupt_handler h);
  ho_trap : in_range 64 (user_trap_interrupt_handler h);
}.

Lemma handler_of_range h v : handlers_ok h → in_range 64 (handler_of h v).
Proof. intros [? ? ? ? ? ?]. unfold handler_of. repeat case_match; auto. Qed.

Lemma installs_lookup_ne l idt v :
  Forall (λ x, 0 ≤ x.1 ∧ x.1 ≠ v) l → 0 ≤ v → foldl install idt l !! Z.to_nat v = idt !! Z.to_nat v.
Proof.
  intros Hl Hv. revert idt. induction Hl as [|[w [[h i] t]] l [Hw Hne] _ IH]; intros idt; [done|].
  cbn [foldl]. rewrite IH. cbn in *. apply list_lookup_alter_ne. lia.
Qed.

Lemma installs_lookup l idt v h ist ty :
  NoDup l.*1 → Forall (λ x, 0 ≤ x.1) l → (v, (h, ist, ty)) ∈ l → (Z.to_nat v < length idt)%nat →
  foldl install idt l !! Z.to_nat v = Some (set_handler IdtEntry_new h KERNEL_CS ist ty).
Proof.
  revert idt. induction l as [|[v' [[h' ist'] ty']] l IH]; intros idt Hnd Hpos Hin Hlen; [set_solver|].
  apply NoDup_cons in Hnd as [Hni Hnd]. apply Forall_cons in Hpos as [Hp Hpos]. cbn [foldl]. apply elem_of_cons in Hin as [[= -> -> -> ->]|Hin].
  - rewrite installs_lookup_ne; [| |done].
    2:{ apply Forall_forall. intros x Hx. split; [by apply (Forall_forall (λ x, 0 ≤ x.1) l)|].
        intros <-. apply Hni. exact (list_elem_of_fmap_2 fst l x Hx). }
    cbn. rewrite list_lookup_alter_eq. apply lookup_lt_is_Some in Hlen as [e ->]. done.
  - apply IH; [done..|]. cbn. by rewrite length_alter.
Qed.

Definition type_of (v : Z) : Z := if v =? 0x68 then 0xEF else if v =? 3 then 0x8F else 0x8E.

Lemma dedicated_in h v :
  v ∈ exception_vectors ++ [32; 33; 44; 0x68] → (v, (handler_of h v, ist_of v, type_of v)) ∈ dedicated h.
Proof.
  intros Hv. unfold dedicated. apply elem_of_app in Hv as [Hv|Hv]; apply elem_of_app; [left|right].
  - apply list_elem_of_fmap. exists v. split; [|done]. unfold handler_of. rewrite decide_True by done.
    do 2 f_equal. unfold exception_vectors in Hv. rewrite elem_of_app, !elem_of_seqZ in Hv. unfold type_of.
    destruct (Z.eqb_spec v 0x68); [lia|done].
  - set_unfold. destruct Hv as [->|[->|[->|[->|[]]]]]; auto.
Qed.

Lemma idt_lookup la h v :
  0 ≤ v < 256 →
  (idt_init la h Idt_new).1 !! Z.to_nat v = Some (set_handler IdtEntry_new (handler_of h v) KERNEL_CS (ist_of v) (type_of v)).
Proof.
  intros Hv. unfold idt_init. cbn [fst].
  assert (length (install_defaults h Idt_new) = 256%nat) as Hlen.
  { unfold install_defaults. rewrite length_zip_with. done. }
  destruct (decide (v ∈ exception_vectors ++ [32; 33; 44; 0x68])) as [Hin|Hni].
  - apply installs_lookup; [| |by apply dedicated_in|lia].
    + apply (bool_decide_unpack _). reflexivity.
    + apply Forall_forall. intros x Hx. apply (list_elem_of_fmap_2 fst) in Hx. revert Hx.
      generalize x.1. apply Forall_forall. apply (bool_decide_unpack _). reflexivity.
  - assert (∀ k, k ∈ exception_vectors ++ [32; 33; 44; 0x68] → v ≠ k) as Hne by (intros k Hk ->; done).
    rewrite installs_lookup_ne; [| |lia].
    + unfold install_defaults, unexpected_interrupt_table, Idt_new. rewrite lookup_zip_with, lookup_replicate_2 by (unfold IDT_SIZE; lia).
      cbn [mbind option_bind]. rewrite list_lookup_fmap, lookup_seqZ_lt by lia. cbn. f_equal. f_equal.
      * unfold handler_of. rewrite decide_False by (intros Hin; apply Hni, elem_of_app; by left).
        rewrite !(λ k H, proj2 (Z.eqb_neq v k) (Hne k H)) by (apply (bool_decide_unpack _); reflexivity). f_equal. lia.
      * unfold ist_of. by rewrite (proj2 (Z.eqb_neq v 8)) by (apply Hne, (bool_decide_unpack _); reflexivity).
      * unfold type_of. by rewrite !(λ k H, proj2 (Z.eqb_neq v k) (Hne k H)) by (apply (bool_decide_unpack _); reflexivity).
    + apply Forall_forall. intros x Hx. split.
      * apply (list_elem_of_fmap_2 fst) in Hx. revert Hx. generalize x.1. apply Forall_forall. apply (bool_decide_unpack _). reflexivity.
      * intros <-. apply Hni. apply (list_elem_of_fmap_2 fst) in Hx. exact Hx.
Qed.

Lemma length_entry_bytes e : length (entry_bytes e) = 16%nat.
Proof. reflexivity. Qed.

(** The gate of a vector in the initialised table. *)
Lemma idt_gate la h v :
  handlers_ok h → 0 ≤ v < 256 →
  cpu_gate (idt_init la h Idt_new).2 (idt_bytes (idt_init la h Idt_new).1) v =
    Some (mkGate (handler_of h v) KERNEL_CODE_SELECTOR (ist_of v) (trap_of v) (dpl_of v) true).
Proof.
  intros Hh Hv. pose proof (idt_lookup la h v Hv) as Hl. set (idt := (idt_init la h Idt_new).1) in *. clearbody idt.
  set (e := set_handler IdtEntry_new (handler_of h v) KERNEL_CS (ist_of v) (type_of v)) in *.
  assert (∀ o n, (o + n ≤ 16)%nat → field (idt_bytes idt) (Z.to_nat (16 * v) + o) n = field (entry_bytes e) o n) as F.
  { intros o n Ho. rewrite <- (app_nil_r (idt_bytes idt)). replace (Z.to_nat (16 * v)) with (16 * Z.to_nat v)%nat by lia.
    apply (field_mjoin 16); [|by rewrite list_lookup_fmap, Hl|done].
    apply Forall_fmap, Forall_forall. intros x _. apply length_entry_bytes. }
  assert (in_range 8 (type_of v)) by (unfold type_of, in_range; repeat case_match; lia).
  destruct (set_handler_bytes IdtEntry_new (handler_of h v) (ist_of v) (type_of v)) as (B1 & B2 & B3 & B4);
    [by apply handler_of_range|done|unfold ist_of; case_match; lia|]. fold e in B1, B2, B3, B4.
  unfold cpu_gate. pose proof (F 0%nat 2%nat ltac:(lia)) as F0. rewrite Nat.add_0_r in F0. rewrite F0, !F by lia. rewrite B1, B2, B3, B4.
  rewrite (proj2 (Z.leb_le _ _)) by (change (tr_limit _) with 4095; lia).
  unfold type_of, ist_of, trap_of, dpl_of, USER_TRAP_INTERRUPT_VECTOR.
  destruct (Z.eqb_spec v 0x68) as [->|]; [reflexivity|]. destruct (Z.eqb_spec v 3) as [->|]; [reflexivity|].
  destruct (Z.eqb_spec v 8); reflexivity.
Qed.

(** After [idt::init] the processor finds for each of the 256 vectors a
    present gate to the handler of that vector - its own stub for an exception,
    the timer, keyboard, mouse and user-trap handlers, the catch-all stub of its
    number otherwise - in the kernel's code segment; only the double fault uses
    the interrupt stack table, only the breakpoint and the user trap leave
    interrupts enabled, and only the user trap can be raised from ring 3. *)
Theorem vectors_reach_handlers la h v :
  handlers_ok h → 0 ≤ v < 256 →
  let '(idt, idtr) := idt_init la h Idt_new in
  tr_base idtr = la_idt la ∧
  cpu_gate idtr (idt_bytes idt) v =
    Some (mkGate (handler_of h v) KERNEL_CODE_SELECTOR (ist_of v) (trap_of v) (dpl_of v) true).
Proof. intros Hh Hv. pose proof (idt_gate la h v Hh Hv) as H. exact (conj eq_refl H). Qed.

Definition demo_layout : Layout := mkLayout 0x200000 0x300040 0x301000 0x400000.
Definition demo_handlers : Handlers :=
  mkHandlers (λ v, 0xFFFFFFFF80001000 + 16 * (v mod 32)) (λ v, 0xFFFFFFFF80002000 + 16 * (v mod 256))
    0xFFFFFFFF80005000 0xFFFFFFFF80005100 0xFFFFFFFF80005200 0xFFFFFFFF80005300.

Lemma demo_handlers_ok : handlers_ok demo_handlers.
Proof.
  split; try intros v; unfold in_range; cbn [demo_handlers exception_handler unexpected_interrupt_handler timer_interrupt_handler
    keyboard_interrupt_handler mouse_interrupt_handler user_trap_interrupt_handler];
    pose proof (Z.mod_pos_bound 0 32); try pose proof (Z.mod_pos_bound v 32); try pose proof (Z.mod_pos_bound v 256); lia.
Qed.

Lemma segment_tables_correct_witness :
  let s' := gdt_init demo_layout (mkSegments Gdt_static Tss_static (mkTableRegister 0 0) 0 0x38 0x30 0x30 0x30) 0x9008 in
  cpu_tss (sg_gdtr s') (gdt_bytes (sg_gdt s')) (sg_tr s') = Some (0x300040, 103) ∧
  cpu_rsp0 (tss_bytes (sg_tss s')) = 0x9000 ∧ cpu_ist (tss_bytes (sg_tss s')) 1 = 0x302000.
Proof.
  intros s'. destruct (segment_tables_correct demo_layout (mkSegments Gdt_static Tss_static (mkTableRegister 0 0) 0 0x38 0x30 0x30 0x30) 0x9008)
    as (_ & _ & _ & _ & _ & H1 & _ & _ & H2 & H3 & _).
  - split; [unfold in_range; cbn; lia|unfold DOUBLE_FAULT_STACK_SIZE; cbn; lia|reflexivity].
  - unfold in_range. lia.
  - reflexivity.
  - reflexivity.
  - split; [exact H1|]. split; [exact H2|exact H3].
Defined.

Lemma vectors_reach_handlers_witness :
  let '(idt, idtr) := idt_init demo_layout demo_handlers Idt_new in
  cpu_gate idtr (idt_bytes idt) 8 = Some (mkGate 0xFFFFFFFF80001080 0x08 1 false 0 true).
Proof.
  pose proof (vectors_reach_handlers demo_layout demo_handlers 8 demo_handlers_ok ltac:(lia)) as H.
  destruct (idt_init demo_layout demo_handlers Idt_new) as [idt idtr]. exact (proj2 H).
Defined.
