(* ===== verification/Traps.v ===== *)
(** * Interrupt entry and return

    [interrupts/handlers.asm] and the frames of [interrupts/handlers.rs]: what
    the processor pushes when it takes an interrupt, what the stubs add, the
    frame the Rust handlers read, and the way back to the interrupted code. *)

From S2P Require Import Prelude Thread X86 Descriptors.

(** ** Taking an interrupt

    The processor's part.  The gate and the task state segment come from the
    tables; the stack is the one of the interrupt stack table if the gate names
    one, the kernel stack if the privilege level changes, the current one
    otherwise, and is aligned to 16 bytes before five words are pushed. *)

(** Vectors for which the processor pushes an error code. *)
Definition cpu_pushes_error (v : Z) : bool := bool_decide (v ∈ [8; 10; 11; 12; 13; 14; 17; 21; 29; 30]).

Definition entry_stack (g : Gate) (tss : list Z) (s : Mach) : Z :=
  if g_ist g =? 0 then (if Z.land (m_cs s) 3 =? 3 then cpu_rsp0 tss else regs s RSP) else cpu_ist tss (g_ist g).

Definition hardware_frame (s : Mach) (error : option Z) : list Z :=
  [m_ss s; regs s RSP; m_rflags s; m_cs s; m_rip s] ++ match error with Some e => [e] | None => [] end.

(** [TF], [NT], [RF] and [VM] are cleared, [IF] too unless the gate is a trap
    gate; on a change of level [ss] becomes the null selector. *)
Definition deliver (g : Gate) (tss : list Z) (s : Mach) (error : option Z) : Mach :=
  let s1 := set_reg s RSP (Z.land (entry_stack g tss s) (not_w 64 0xF)) in
  let s2 := foldl push_val s1 (hardware_frame s error) in
  let cleared := Z.lor 0x34100 (if g_trap g then 0 else IF_BIT) in
  mkMach (regs s2) (mem s2) (Z.land (m_rflags s) (not_w 64 cleared)) (g_selector g)
    (if Z.land (m_cs s) 3 =? 3 then 0 else m_ss s) (m_ds s) (m_es s) (m_cr3 s) (g_offset g).

(** ** [handlers.asm] *)

(** The registers in the order the two common paths push them. *)
Definition saved_registers : list reg :=
  [RAX; RBX; RCX; RDX; RSI; RDI; RBP; R8; R9; R10; R11; R12; R13; R14; R15].

(** The order of the pops. *)
Definition restored_registers : list reg :=
  [R15; R14; R13; R12; R11; R10; R9; R8; RBP; RDI; RSI; RDX; RCX; RBX; RAX].

Definition EXCEPTION_HANDLER_NO_ERR (v : Z) : list instr := [PushI 0; PushI v].
Definition EXCEPTION_HANDLER_ERR (v : Z) : list instr := [PushI v].
Definition UNEXPECTED_INTERRUPT_HANDLER (v : Z) : list instr := [PushI 0; PushI v].

(** Which macro each exception vector is an instance of. *)
Definition exception_stub (v : Z) : list instr :=
  if bool_decide (v ∈ [8; 10; 11; 12; 13; 14; 17; 21]) then EXCEPTION_HANDLER_ERR v else EXCEPTION_HANDLER_NO_ERR v.

(** From [exception_common] to the call, and from the call to [iretq]. *)
Definition exception_common : list instr := (Push <$> saved_registers) ++ [Mov RCX RSP; SubI RSP 32].
Definition exception_return : list instr := [AddI RSP 32] ++ (Pop <$> restored_registers) ++ [AddI RSP 16].

Definition unexpected_common : list instr :=
  (Push <$> saved_registers) ++ [Ld RCX RSP (15 * 8); Lea RDX RSP (15 * 8 + 16); SubI RSP 32].
Definition unexpected_return : list instr := [AddI RSP 32] ++ (Pop <$> restored_registers) ++ [AddI RSP 16].

(** ** [handlers.rs] *)

Record InterruptStackFrame := mkStackFrame {
  instruction_pointer : Z;
  code_segment : Z;
  cpu_flags : Z;
  stack_pointer : Z;
  stack_segment : Z;
}.

Record InterruptFrame := mkInterruptFrame {
  f_r15 : Z; f_r14 : Z; f_r13 : Z; f_r12 : Z; f_r11 : Z; f_r10 : Z; f_r9 : Z; f_r8 : Z;
  f_rbp : Z; f_rdi : Z; f_rsi : Z; f_rdx : Z; f_rcx : Z; f_rbx : Z; f_rax : Z;
  exception_number : Z;
  error_code : Z;
  f_rip : Z; f_cs : Z; f_rflags : Z; f_rsp : Z; f_ss : Z;
}.

(** The [repr(C)] structures at an address. *)
Definition read_stack_frame (m : Memory) (a : Z) : InterruptStackFrame :=
  mkStackFrame (load 8 m a) (load 8 m (a + 8)) (load 8 m (a + 16)) (load 8 m (a + 24)) (load 8 m (a + 32)).

Definition read_frame (m : Memory) (a : Z) : InterruptFrame :=
  let w i := load 8 m (a + 8 * i) in
  mkInterruptFrame (w 0) (w 1) (w 2) (w 3) (w 4) (w 5) (w 6) (w 7) (w 8) (w 9) (w 10) (w 11) (w 12) (w 13) (w 14)
    (w 15) (w 16) (w 17) (w 18) (w 19) (w 20) (w 21).

(** What [rust_unexpected_interrupt_handler] does, in order; the release build
    has no assertion on the vector. *)
Inductive action :=
| SendEoi
| WarnInvalid (vector : Z)
| WarnUnexpected (vector rip cpl : Z).

Definition rust_unexpected_interrupt_handler (m : Memory) (vector stack_ptr : Z) : list action :=
  if 255 <? vector then [SendEoi; WarnInvalid vector]
  else
    let frame := read_stack_frame m stack_ptr in
    let cpl := Z.land (code_segment frame) 0x3 in
    if vector =? 0xFF then [SendEoi]
    else [WarnUnexpected vector (instruction_pointer frame) cpl; SendEoi].

(** What a function of the Windows convention keeps for its caller: the stack
    pointer, and the caller's memory above the 32 bytes of home space. *)
Record returns (s s' : Mach) : Prop := {
  rt_rsp : regs s' RSP = regs s RSP;
  rt_mem b : regs s RSP + 32 ≤ b → mem_read (mem s') b = mem_read (mem s) b;
  rt_seg : m_ds s' = m_ds s ∧ m_es s' = m_es s ∧ m_cr3 s' = m_cr3 s;
}.

(** ** Properties *)

(** Register values and selectors have their width. *)
Record mach_ok (s : Mach) : Prop := {
  mo_regs r : in_range 64 (regs s r);
  mo_flags : in_range 64 (m_rflags s);
  mo_cs : in_range 16 (m_cs s);
  mo_ss : in_range 16 (m_ss s);
  mo_rip : in_range 64 (m_rip s);
}.

Lemma range_16_64 x : in_range 16 x → in_range 64 x.
Proof. unfold in_range. lia. Qed.

(** The stack after delivery, stub and register pushes. *)
Definition frame_words (s : Mach) (error : option Z) (stub : list Z) : list Z :=
  hardware_frame s error ++ stub ++ (regs s <$> saved_registers).

Section entry.
Context (g : Gate) (tss : list Z) (s : Mach).
Context (Hs : mach_ok s) (Hstack : in_range 64 (entry_stack g tss s)) (Hroom : 256 ≤ entry_stack g tss s).

(** Where the frame begins. *)
Definition base : Z := entry_stack g tss s / 16 * 16.

Lemma base_range : 256 ≤ base ∧ base < 2 ^ 64 ∧ base mod 16 = 0.
Proof using Hstack Hroom.
  unfold base, in_range in *. pose proof (Z.div_mod (entry_stack g tss s) 16). pose proof (Z.mod_pos_bound (entry_stack g tss s) 16).
  pose proof (Z.div_le_lower_bound (entry_stack g tss s) 16 16). split_and!; [lia|lia|]. apply Z.mod_mul. lia.
Qed.

Lemma run_pushis vs s' :
  8 * Z.of_nat (length vs) ≤ regs s' RSP < 2 ^ 64 → pushed vs s' (run (PushI <$> vs) s').
Proof.
  intros Hb. assert (∀ s, run (PushI <$> vs) s = foldl push_val s vs) as ->; [|by apply pushed_vals].
  unfold run. induction vs as [|v vs IH]; intros s''; [done|]. cbn [fmap list_fmap foldl step]. apply IH.
  cbn [length] in Hb. lia.
Qed.

Lemma entry_shape error vs :
  (length (hardware_frame s error ++ vs) ≤ 8)%nat →
  let s2 := run ((PushI <$> vs) ++ (Push <$> saved_registers)) (deliver g tss s error) in
  regs s2 RSP = base - 8 * Z.of_nat (length (frame_words s error vs)) ∧
  (∀ r, r ≠ RSP → regs s2 r = regs s r) ∧
  stack_holds (mem s2) (regs s2 RSP) (rev (frame_words s error vs)) ∧
  (∀ b, base ≤ b → mem_read (mem s2) b = mem_read (mem s) b).
Proof using Hstack Hroom.
  intros Hlen s2. pose proof base_range. rewrite length_app in Hlen.
  set (s0 := set_reg s RSP base).
  assert (regs s0 RSP = base) as E0 by (unfold s0; cbn; apply upd_eq).
  assert (pushed (hardware_frame s error) s0 (deliver g tss s error)) as P1.
  { assert (pushed (hardware_frame s error) s0 (foldl push_val s0 (hardware_frame s error))) as [a b c d].
    { apply pushed_vals. rewrite E0. lia. }
    unfold deliver. rewrite aligned_16 by done. split; assumption. }
  assert (pushed vs (deliver g tss s error) (run (PushI <$> vs) (deliver g tss s error))) as P2.
  { apply run_pushis. rewrite (pu_rsp _ _ _ P1), E0. lia. }
  pose proof (pushed_app _ _ _ _ _ P1 P2) as P12.
  assert (pushed (regs s <$> saved_registers) (run (PushI <$> vs) (deliver g tss s error)) s2) as P3.
  { unfold s2. rewrite run_code_app. replace (regs s <$> saved_registers) with (regs (run (PushI <$> vs) (deliver g tss s error)) <$> saved_registers).
    - apply run_pushes; [reg_in|]. rewrite (pu_rsp _ _ _ P12), E0, length_app.
      change (length saved_registers) with 15%nat. lia.
    - apply list_fmap_ext. intros i r Hr. rewrite (pu_regs _ _ _ P12). 
      + unfold s0. cbn. apply upd_ne. intros ->. apply list_elem_of_lookup_2 in Hr. revert Hr. reg_in.
      + intros ->. apply list_elem_of_lookup_2 in Hr. revert Hr. reg_in. }
  pose proof (pushed_app _ _ _ _ _ P12 P3) as [Prsp Pregs Pst Pm]. rewrite <- app_assoc in *. fold (frame_words s error vs) in *.
  split_and!; [by rewrite Prsp, E0| |done|].
  - intros r Hr. rewrite Pregs by done. unfold s0. cbn. by apply upd_ne.
  - intros b Hb. rewrite Pm by (rewrite E0; lia). done.
Qed.
End entry.

(** The processor takes vector [v]; [e] is the error code, if there is one. *)
Definition take_interrupt (idtr : TableRegister) (image tss : list Z) (v : Z) (s : Mach) (e : Z) : option Mach :=
  g ← cpu_gate idtr image v; Some (deliver g tss s (if cpu_pushes_error v then Some e else None)).

(** The stack on which a vector is taken. *)
Definition stack_of (tss : list Z) (v : Z) (s : Mach) : Z :=
  if v =? 8 then cpu_ist tss 1 else if Z.land (m_cs s) 3 =? 3 then cpu_rsp0 tss else regs s RSP.

Lemma entry_stack_of h tss v s trap dpl :
  entry_stack (mkGate h KERNEL_CODE_SELECTOR (ist_of v) trap dpl true) tss s = stack_of tss v s.
Proof. unfold entry_stack, stack_of, ist_of. cbn [g_ist]. by destruct (v =? 8). Qed.

(** Reading a structure from a stack that holds its words. *)
Lemma read_frame_words m a r15 r14 r13 r12 r11 r10 r9 r8 rbp rdi rsi rdx rcx rbx rax v e rip cs fl sp ss :
  let l := [r15; r14; r13; r12; r11; r10; r9; r8; rbp; rdi; rsi; rdx; rcx; rbx; rax; v; e; rip; cs; fl; sp; ss] in
  Forall (in_range 64) l → stack_holds m a l →
  read_frame m a = mkInterruptFrame r15 r14 r13 r12 r11 r10 r9 r8 rbp rdi rsi rdx rcx rbx rax v e rip cs fl sp ss.
Proof.
  intros l Hl Hst. assert (∀ i x, l !! i = Some x → load 8 m (a + 8 * Z.of_nat i) = x) as H.
  { intros i x Hi. rewrite (Hst i x Hi). apply wrap_small. by apply (Forall_lookup_1 _ _ _ _ Hl Hi). }
  unfold read_frame. f_equal;
    [exact (H 0%nat _ eq_refl)|exact (H 1%nat _ eq_refl)|exact (H 2%nat _ eq_refl)|exact (H 3%nat _ eq_refl)|exact (H 4%nat _ eq_refl)
    |exact (H 5%nat _ eq_refl)|exact (H 6%nat _ eq_refl)|exact (H 7%nat _ eq_refl)|exact (H 8%nat _ eq_refl)|exact (H 9%nat _ eq_refl)
    |exact (H 10%nat _ eq_refl)|exact (H 11%nat _ eq_refl)|exact (H 12%nat _ eq_refl)|exact (H 13%nat _ eq_refl)|exact (H 14%nat _ eq_refl)
    |exact (H 15%nat _ eq_refl)|exact (H 16%nat _ eq_refl)|exact (H 17%nat _ eq_refl)|exact (H 18%nat _ eq_refl)|exact (H 19%nat _ eq_refl)
    |exact (H 20%nat _ eq_refl)|exact (H 21%nat _ eq_refl)].
Qed.

(** What an exception stub pushes besides the processor's words. *)
Definition stub_words (v : Z) : list Z := if cpu_pushes_error v then [v] else [0; v].

Lemma exception_stub_words v : v ∈ exception_vectors → exception_stub v = PushI <$> stub_words v.
Proof.
  intros Hv. unfold exception_stub, stub_words, cpu_pushes_error, EXCEPTION_HANDLER_ERR, EXCEPTION_HANDLER_NO_ERR.
  unfold exception_vectors in Hv. rewrite elem_of_app, !elem_of_seqZ in Hv.
  destruct (decide (v ∈ [8; 10; 11; 12; 13; 14; 17; 21])) as [H|H].
  - rewrite !bool_decide_eq_true_2; [done| |done]. set_unfold. naive_solver.
  - rewrite !bool_decide_eq_false_2; [done| |done]. set_unfold. intros ?. apply H. naive_solver lia.
Qed.

(** Whatever code an exception interrupts, and on each of the three stacks it
    can be taken on, the stub of its vector hands [rust_exception_handler] a
    pointer to a frame that holds the interrupted registers, the vector, the
    processor's error code (0 where it pushes none) and the interrupted [rip],
    [cs], flags, [rsp] and [ss] under the names [InterruptFrame] gives them; the
    stack is aligned for the call and nothing above the stack has been written. *)
Theorem exception_frame_correct la h tss s v e :
  handlers_ok h → mach_ok s → in_range 64 e → v ∈ exception_vectors →
  in_range 64 (stack_of tss v s) → 256 ≤ stack_of tss v s →
  let '(idt, idtr) := idt_init la h Idt_new in
  ∃ s1, take_interrupt idtr (idt_bytes idt) tss v s e = Some s1 ∧
  m_rip s1 = exception_handler h v ∧
  let s2 := run (exception_stub v ++ exception_common) s1 in
  read_frame (mem s2) (regs s2 RCX) =
    mkInterruptFrame (regs s R15) (regs s R14) (regs s R13) (regs s R12) (regs s R11) (regs s R10) (regs s R9) (regs s R8)
      (regs s RBP) (regs s RDI) (regs s RSI) (regs s RDX) (regs s RCX) (regs s RBX) (regs s RAX)
      v (if cpu_pushes_error v then e else 0) (m_rip s) (m_cs s) (m_rflags s) (regs s RSP) (m_ss s) ∧
  regs s2 RSP mod 16 = 0 ∧
  ∀ b, stack_of tss v s ≤ b → mem_read (mem s2) b = mem_read (mem s) b.
Proof.
  intros Hh Hs He Hv Hr1 Hr2. assert (0 ≤ v < 256) as Hv'.
  { unfold exception_vectors in Hv. rewrite elem_of_app, !elem_of_seqZ in Hv. lia. }
  pose proof (idt_gate la h v Hh Hv') as Hg. destruct (idt_init la h Idt_new) as [idt idtr]. cbn [fst snd] in Hg.
  unfold take_interrupt. rewrite Hg. cbn [mbind option_bind]. eexists. split; [reflexivity|].
  split; [cbn [m_rip deliver g_offset]; unfold handler_of; by rewrite decide_True|].
  set (g := mkGate _ _ _ _ _ _). set (error := if cpu_pushes_error v then Some e else None).
  set (s2 := run (exception_stub v ++ exception_common) (deliver g tss s error)).
  rewrite <- (entry_stack_of (handler_of h v) tss v s (trap_of v) (dpl_of v)) in Hr1, Hr2 |- *. fold g in Hr1, Hr2 |- *.
  destruct (base_range g tss s Hr1 Hr2) as (Hb1 & Hb2 & Hb3).
  destruct (entry_shape g tss s Hr1 Hr2 error (stub_words v)) as (E1 & E2 & E3 & E4).
  { unfold error, stub_words. destruct (cpu_pushes_error v); cbn; lia. }
  set (s3 := run ((PushI <$> stub_words v) ++ (Push <$> saved_registers)) (deliver g tss s error)) in *.
  assert (s2 = run [Mov RCX RSP; SubI RSP 32] s3) as E.
  { unfold s2, s3, exception_common. by rewrite exception_stub_words, app_assoc, run_code_app by done. }
  assert (length (frame_words s error (stub_words v)) = 22%nat) as Hlen.
  { unfold error, stub_words. by destruct (cpu_pushes_error v). }
  assert (wrap64 (regs s3 RSP - 32) = base g tss s - 208) as Hw.
  { rewrite E1, Hlen. rewrite wrap_small by (unfold in_range; lia). lia. }
  rewrite E. cbn [run foldl step set_reg regs mem]. rewrite !upd_eq. rewrite !(upd_ne _ RSP RCX), !(upd_ne _ RCX RSP), upd_eq by done. rewrite Hw.
  destruct Hs as [Or Of Oc Os Op]. pose proof (range_16_64 _ Oc). pose proof (range_16_64 _ Os).
  split_and!.
  - apply read_frame_words.
    + assert (in_range 64 v) by (unfold in_range; lia). assert (in_range 64 (if cpu_pushes_error v then e else 0)) by (destruct (cpu_pushes_error v); [done|unfold in_range; lia]).
      repeat (apply Forall_cons_2; [done|]). by apply Forall_nil_2.
    + revert E3. unfold frame_words, hardware_frame, error, stub_words. by destruct (cpu_pushes_error v).
  - replace (base g tss s - 208) with (base g tss s + (-13) * 16) by lia. by rewrite Z.mod_add by lia.
  - intros b Hb. apply E4. unfold base. pose proof (Z.div_mod (entry_stack g tss s) 16). pose proof (Z.mod_pos_bound (entry_stack g tss s) 16). lia.
Qed.

(** ** Vectors without a handler of their own *)

Definition unexpected_vectors : list Z := filter (λ v, v ∉ exception_vectors ++ [32; 33; 44; 0x68]) (seqZ 0 256).

Lemma unexpected_handler h v : v ∈ unexpected_vectors → handler_of h v = unexpected_interrupt_handler h v ∧ 0 ≤ v < 256 ∧ v ≠ 8.
Proof.
  intros [Hn Hv]%list_elem_of_filter. apply elem_of_seqZ in Hv. rewrite elem_of_app in Hn.
  assert (∀ k, k ∈ exception_vectors ++ [32; 33; 44; 0x68] → v ≠ k) as Hne.
  { intros k Hk ->. apply Hn. by apply elem_of_app. }
  split_and!; [|lia..|apply Hne; reg_in].
  unfold handler_of. rewrite decide_False by tauto.
  by rewrite !(λ k H, proj2 (Z.eqb_neq v k) (Hne k H)) by (reg_in).
Qed.

(** The frame the catch-all handler is given. *)
Lemma read_stack_frame_words m a rip cs fl sp ss :
  stack_holds m a [rip; cs; fl; sp; ss] → Forall (in_range 64) [rip; cs; fl; sp; ss] →
  read_stack_frame m a = mkStackFrame rip cs fl sp ss.
Proof.
  intros Hst Hl. assert (∀ i x, [rip; cs; fl; sp; ss] !! i = Some x → load 8 m (a + 8 * Z.of_nat i) = x) as H.
  { intros i x Hi. rewrite (Hst i x Hi). apply wrap_small. by apply (Forall_lookup_1 _ _ _ _ Hl Hi). }
  unfold read_stack_frame. f_equal; [|exact (H 1%nat _ eq_refl)|exact (H 2%nat _ eq_refl)|exact (H 3%nat _ eq_refl)|exact (H 4%nat _ eq_refl)].
  rewrite <- (H 0%nat _ eq_refl). f_equal. lia.
Qed.

Lemma hardware_words_ok s : mach_ok s → Forall (in_range 64) [m_rip s; m_cs s; m_rflags s; regs s RSP; m_ss s].
Proof.
  intros [? ? ? ? ?]. repeat (apply Forall_cons_2; [auto using range_16_64|]). by apply Forall_nil_2.
Qed.

Section unexpected.
Context (g : Gate) (tss : list Z) (s : Mach) (error : option Z) (v : Z).
Context (Hs : mach_ok s) (Hr1 : in_range 64 (entry_stack g tss s)) (Hr2 : 256 ≤ entry_stack g tss s) (Hv : 0 ≤ v < 256).

Definition at_call : Mach := run (UNEXPECTED_INTERRUPT_HANDLER v ++ unexpected_common) (deliver g tss s error).

(** What the stack holds at the call, above the home space. *)
Definition call_words : list Z := rev (hardware_frame s error ++ [0; v] ++ (regs s <$> saved_registers)).

Lemma run_at_call : run (UNEXPECTED_INTERRUPT_HANDLER v ++ unexpected_common) (deliver g tss s error) = at_call.
Proof using. reflexivity. Qed.

Lemma length_call_words : (17 ≤ length call_words ≤ 23)%nat.
Proof using. unfold call_words. rewrite length_rev, !length_app. cbn [length saved_registers fmap list_fmap]. destruct error; cbn; lia. Qed.

Lemma call_words_vector : call_words !! 15%nat = Some v.
Proof using. unfold call_words. rewrite rev_app_distr, lookup_app_l; [reflexivity|cbn; lia]. Qed.

Lemma call_words_hardware i : call_words !! (17 + i)%nat = rev (hardware_frame s error) !! i.
Proof using.
  unfold call_words. rewrite rev_app_distr. assert (length (rev ([0; v] ++ (regs s <$> saved_registers))) = 17%nat) as E by reflexivity.
  rewrite lookup_app_r by lia. rewrite E. f_equal. lia.
Qed.

Lemma at_call_eq :
  at_call = run [Ld RCX RSP (15 * 8); Lea RDX RSP (15 * 8 + 16); SubI RSP 32]
    (run ((PushI <$> [0; v]) ++ (Push <$> saved_registers)) (deliver g tss s error)).
Proof using. unfold at_call, unexpected_common. by rewrite app_assoc, run_code_app. Qed.

(** The three instructions before the call. *)
Lemma call_step s3 :
  regs s3 RSP = base g tss s - 8 * Z.of_nat (length call_words) → stack_holds (mem s3) (regs s3 RSP) call_words →
  let s4 := run [Ld RCX RSP (15 * 8); Lea RDX RSP (15 * 8 + 16); SubI RSP 32] s3 in
  regs s4 RSP = regs s3 RSP - 32 ∧ mem s4 = mem s3 ∧ regs s4 RCX = v ∧ regs s4 RDX = regs s3 RSP + 136.
Proof using Hr1 Hr2 Hv.
  intros E1 E3 s4. destruct (base_range g tss s Hr1 Hr2) as (Hb1 & Hb2 & _). pose proof length_call_words.
  pose proof (E3 15%nat v call_words_vector) as Hw. change (8 * Z.of_nat 15) with (15 * 8) in Hw.
  assert (regs s4 RSP = wrap64 (regs s3 RSP - 32)) as -> by reflexivity.
  assert (regs s4 RDX = wrap64 (regs s3 RSP + (15 * 8 + 16))) as -> by reflexivity.
  assert (regs s4 RCX = load 8 (mem s3) (wrap64 (regs s3 RSP + 15 * 8))) as -> by reflexivity.
  rewrite !wrap_small by (unfold in_range; lia). rewrite Hw, wrap_small by (unfold in_range; lia).
  split_and!; [done|reflexivity|done|lia].
Qed.

Lemma call_shape :
  regs at_call RSP = base g tss s - 8 * Z.of_nat (length call_words) - 32 ∧
  32 ≤ regs at_call RSP ∧
  stack_holds (mem at_call) (regs at_call RSP + 32) call_words ∧
  regs at_call RCX = v ∧
  regs at_call RDX = regs at_call RSP + 32 + 136.
Proof using Hr1 Hr2 Hv.
  destruct (base_range g tss s Hr1 Hr2) as (Hb1 & Hb2 & _). pose proof length_call_words.
  assert (length (hardware_frame s error ++ [0%Z; v]) ≤ 8)%nat as Hl by (destruct error; cbn; lia).
  pose proof (entry_shape g tss s Hr1 Hr2 error [0; v] Hl) as (E1 & _ & E3 & _). rewrite at_call_eq.
  generalize dependent (run ((PushI <$> [0; v]) ++ (Push <$> saved_registers)) (deliver g tss s error)). intros s3 E1 E3.
  assert (length (frame_words s error [0; v]) = length call_words) as El by (unfold call_words; by rewrite length_rev).
  rewrite El in E1. destruct (call_step s3 E1 E3) as (-> & -> & -> & ->).
  split_and!; [lia|lia| |done|lia]. replace (regs s3 RSP - 32 + 32) with (regs s3 RSP) by lia. exact E3.
Qed.

(** The way back through the pops, when the handler has returned. *)
Lemma return_shape s3 :
  returns at_call s3 →
  let s4 := run unexpected_return s3 in
  (∀ r, r ≠ RSP → regs s4 r = regs s r) ∧
  regs s4 RSP = base g tss s - 8 * Z.of_nat (length (hardware_frame s error)) ∧
  stack_holds (mem s4) (regs s4 RSP) (rev (hardware_frame s error)) ∧
  m_ds s4 = m_ds s ∧ m_es s4 = m_es s ∧ m_cr3 s4 = m_cr3 s.
Proof using Hs Hr1 Hr2 Hv.
  intros [Rr Rm Rs] s4. destruct call_shape as (C1 & C2 & C3 & _). destruct (base_range g tss s Hr1 Hr2) as (Hb1 & Hb2 & _).
  set (a := regs at_call RSP + 32) in *.
  assert (length call_words = 17 + length (hardware_frame s error))%nat as Hlen.
  { unfold call_words. rewrite length_rev, !length_app, length_fmap. cbn [length saved_registers]. lia. }
  assert (stack_holds (mem s3) a call_words) as Hst.
  { eapply stack_holds_ext; [|exact C3]. intros b Hb. apply Rm. lia. }
  set (s3a := run [AddI RSP 32] s3). assert (regs s3a RSP = a) as Ea.
  { unfold s3a. cbn. rewrite upd_eq, Rr. apply wrap_small. unfold in_range. fold a. lia. }
  assert (popped restored_registers s3a (run (Pop <$> restored_registers) s3a)) as [P1 P2 P3 P4].
  { apply run_pops; [reg_in|reg_in|lia|].
    rewrite Ea. change (length restored_registers) with 15%nat. lia. }
  set (s3b := run (Pop <$> restored_registers) s3a) in *.
  assert (s4 = run [AddI RSP 16] s3b) as -> by (unfold s4, s3b, s3a, unexpected_return; by rewrite !run_code_app).
  assert (regs s3b RSP = a + 120) as Eb by (rewrite P1, Ea; reflexivity).
  cbn [run foldl step set_reg regs mem m_ds m_es m_cr3]. rewrite upd_eq, Eb, wrap_small by (unfold in_range; lia).
  split_and!.
  - intros r Hr. rewrite upd_ne by done. assert (∃ i, restored_registers !! i = Some r ∧ call_words !! i = Some (regs s r)) as (i & Hi & Hc).
    { assert (∀ i, (i < 15)%nat → call_words !! i = regs s <$> restored_registers !! i) as Hc.
      { intros i Hi. unfold call_words. rewrite !rev_app_distr, <- app_assoc, lookup_app_l by (cbn; lia). 
        change (rev (regs s <$> saved_registers)) with (regs s <$> restored_registers). apply list_lookup_fmap. }
      destruct (list_elem_of_lookup_1 restored_registers r) as [i Hi]; [destruct r; try done; reg_in|].
      exists i. split; [done|]. rewrite Hc; [by rewrite Hi|]. by apply lookup_lt_Some in Hi. }
    rewrite (P2 i r Hi), Ea. transitivity (wrap64 (regs s r)); [exact (Hst i _ Hc)|]. apply wrap_small, Hs.
  - lia.
  - rewrite P4. intros i x Hi. replace (a + 120 + 16 + 8 * Z.of_nat i) with (a + 8 * Z.of_nat (17 + i)) by lia.
    apply (Hst (17 + i)%nat x). by rewrite call_words_hardware.
  - change (m_ds s3b) with (m_ds s3). by rewrite (proj1 Rs).
  - change (m_es s3b) with (m_es s3). by rewrite (proj1 (proj2 Rs)).
  - change (m_cr3 s3b) with (m_cr3 s3). by rewrite (proj2 (proj2 Rs)).
Qed.

(** The five words above the vector and the pushed 0, as the handler and
    [iretq] take them. *)
Lemma handler_frame rip cs fl sp ss rest :
  rev (hardware_frame s error) = [rip; cs; fl; sp; ss] ++ rest → Forall (in_range 64) [rip; cs; fl; sp; ss] →
  read_stack_frame (mem at_call) (regs at_call RDX) = mkStackFrame rip cs fl sp ss.
Proof using Hr1 Hr2 Hv.
  intros E Hl. destruct call_shape as (C1 & C2 & C3 & C4 & ->). apply read_stack_frame_words; [|done].
  apply (stack_holds_prefix _ _ _ rest). rewrite <- E. intros i x Hi.
  replace (regs at_call RSP + 32 + 136 + 8 * Z.of_nat i) with (regs at_call RSP + 32 + 8 * Z.of_nat (17 + i)) by lia.
  apply C3. by rewrite call_words_hardware.
Qed.

Lemma resumed s3 rip cs fl sp ss rest :
  rev (hardware_frame s error) = [rip; cs; fl; sp; ss] ++ rest → Forall (in_range 64) [rip; cs; fl; sp; ss] →
  returns at_call s3 →
  let s4 := iretq (run unexpected_return s3) in
  (∀ r, r ≠ RSP → regs s4 r = regs s r) ∧ regs s4 RSP = sp ∧ m_rip s4 = rip ∧ m_rflags s4 = fl ∧
  m_cs s4 = wrap16 cs ∧ m_ss s4 = wrap16 ss ∧ m_ds s4 = m_ds s ∧ m_es s4 = m_es s ∧ m_cr3 s4 = m_cr3 s.
Proof using Hs Hr1 Hr2 Hv.
  intros E Hl Hret. generalize (return_shape s3 Hret). cbv zeta. generalize (run unexpected_return s3).
  intros s4 (R1 & R2 & R3 & R4 & R5 & R6). rewrite E in R3.
  destruct (base_range g tss s Hr1 Hr2) as (Hb1 & Hb2 & _).
  assert (5 ≤ length (hardware_frame s error) ≤ 6)%nat by (destruct error; cbn; lia).
  apply stack_holds_prefix in R3. rewrite (iretq_words _ _ rip cs fl sp ss eq_refl) by (done || lia).
  repeat match type of Hl with Forall _ (_ :: _) => let H := fresh in apply Forall_cons in Hl as [H Hl] end.
  cbn [regs m_rflags m_cs m_ss m_ds m_es m_cr3 m_rip]. rewrite upd_eq, !(wrap_small 64) by done.
  split_and!; try done. intros r Hr. rewrite upd_ne by done. by apply R1.
Qed.
End unexpected.

(** A vector with no handler of its own for which the processor pushes no
    error code is harmless: [rust_unexpected_interrupt_handler] receives the
    vector and a pointer to the interrupted [rip], [cs], flags, [rsp] and [ss],
    sends one end-of-interrupt whichever way it takes, and when it has returned
    as its calling convention says, the interrupted code continues with every
    register, selector, its flags and its stack as they were. *)
Theorem unexpected_interrupt_returns la h tss s v e s3 :
  handlers_ok h → mach_ok s → v ∈ unexpected_vectors → cpu_pushes_error v = false →
  in_range 64 (stack_of tss v s) → 256 ≤ stack_of tss v s →
  let '(idt, idtr) := idt_init la h Idt_new in
  ∃ s1, take_interrupt idtr (idt_bytes idt) tss v s e = Some s1 ∧
  m_rip s1 = unexpected_interrupt_handler h v ∧
  let s2 := run (UNEXPECTED_INTERRUPT_HANDLER v ++ unexpected_common) s1 in
  rust_unexpected_interrupt_handler (mem s2) (regs s2 RCX) (regs s2 RDX) =
    (if v =? 255 then [SendEoi] else [WarnUnexpected v (m_rip s) (Z.land (m_cs s) 3); SendEoi]) ∧
  (returns s2 s3 →
   let s4 := iretq (run unexpected_return s3) in
   (∀ r, regs s4 r = regs s r) ∧ m_rip s4 = m_rip s ∧ m_rflags s4 = m_rflags s ∧ m_cs s4 = m_cs s ∧ m_ss s4 = m_ss s ∧
   m_ds s4 = m_ds s ∧ m_es s4 = m_es s ∧ m_cr3 s4 = m_cr3 s).
Proof.
  intros Hh Hs Hv Hne Hr1 Hr2. destruct (unexpected_handler h v Hv) as (Hhv & Hv' & _).
  pose proof (idt_gate la h v Hh Hv') as Hg. destruct (idt_init la h Idt_new) as [idt idtr]. cbn [fst snd] in Hg.
  unfold take_interrupt. rewrite Hg, Hne. cbn [mbind option_bind]. eexists. split; [reflexivity|].
  split; [cbn [m_rip deliver g_offset]; exact Hhv|]. 
  rewrite <- (entry_stack_of (handler_of h v) tss v s (trap_of v) (dpl_of v)) in Hr1, Hr2. set (g := mkGate _ _ _ _ _ _) in *.
  rewrite run_at_call.
  pose proof (hardware_words_ok s Hs) as Hw. split.
  - rewrite (proj1 (proj2 (proj2 (proj2 (call_shape g tss s None v Hr1 Hr2 Hv'))))).
    unfold rust_unexpected_interrupt_handler. rewrite (proj2 (Z.ltb_ge 255 v)) by lia.
    by rewrite (handler_frame g tss s None v Hr1 Hr2 Hv' _ _ _ _ _ [] eq_refl Hw).
  - intros Hret. destruct (resumed g tss s None v Hs Hr1 Hr2 Hv' s3 _ _ _ _ _ [] eq_refl Hw Hret) as (R1 & R2 & R3 & R4 & R5 & R6 & R7).
    rewrite R5, R6, !wrap_small by apply Hs. split_and!; try done; [|apply R7..].
    intros r. destruct (decide (r = RSP)) as [->|]; auto.
Qed.

(** Vectors 29 and 30 have the catch-all stub too, but the processor pushes an
    error code for them and the stub pushes a second one: the handler takes the
    error code for the interrupted address, and the return jumps to it. *)
Theorem unexpected_error_code_returns_wrong la h tss s v e s3 :
  handlers_ok h → mach_ok s → v ∈ [29; 30] → in_range 64 e →
  in_range 64 (stack_of tss v s) → 256 ≤ stack_of tss v s →
  let '(idt, idtr) := idt_init la h Idt_new in
  ∃ s1, take_interrupt idtr (idt_bytes idt) tss v s e = Some s1 ∧
  let s2 := run (UNEXPECTED_INTERRUPT_HANDLER v ++ unexpected_common) s1 in
  rust_unexpected_interrupt_handler (mem s2) (regs s2 RCX) (regs s2 RDX) = [WarnUnexpected v e (Z.land (m_rip s) 3); SendEoi] ∧
  (returns s2 s3 →
   let s4 := iretq (run unexpected_return s3) in
   m_rip s4 = e ∧ m_cs s4 = wrap16 (m_rip s) ∧ m_rflags s4 = m_cs s ∧ regs s4 RSP = m_rflags s).
Proof.
  intros Hh Hs Hv He Hr1 Hr2. assert (0 ≤ v < 256) as Hv' by (set_unfold; lia).
  assert (cpu_pushes_error v = true) as Hpe by (apply bool_decide_eq_true_2; set_unfold; tauto).
  pose proof (idt_gate la h v Hh Hv') as Hg. destruct (idt_init la h Idt_new) as [idt idtr]. cbn [fst snd] in Hg.
  unfold take_interrupt. rewrite Hg, Hpe. cbn [mbind option_bind]. eexists. split; [reflexivity|].
  rewrite <- (entry_stack_of (handler_of h v) tss v s (trap_of v) (dpl_of v)) in Hr1, Hr2. set (g := mkGate _ _ _ _ _ _) in *.
  rewrite run_at_call.
  pose proof (hardware_words_ok s Hs) as Hw.
  assert (Forall (in_range 64) [e; m_rip s; m_cs s; m_rflags s; regs s RSP]) as Hw'.
  { apply Forall_cons_2; [done|]. exact (proj1 (proj1 (Forall_app _ [m_rip s; m_cs s; m_rflags s; regs s RSP] [m_ss s]) Hw)). }
  split.
  - rewrite (proj1 (proj2 (proj2 (proj2 (call_shape g tss s (Some e) v Hr1 Hr2 Hv'))))).
    unfold rust_unexpected_interrupt_handler. rewrite (proj2 (Z.ltb_ge 255 v)) by lia.
    rewrite (handler_frame g tss s (Some e) v Hr1 Hr2 Hv' _ _ _ _ _ [m_ss s] eq_refl Hw').
    by rewrite (proj2 (Z.eqb_neq v 0xFF)) by (set_unfold; lia).
  - intros Hret. destruct (resumed g tss s (Some e) v Hs Hr1 Hr2 Hv' s3 _ _ _ _ _ [m_ss s] eq_refl Hw' Hret) as (R1 & R2 & R3 & R4 & R5 & _).
    done.
Qed.

Definition demo_tss : list Z :=
  tss_bytes (sg_tss (gdt_init demo_layout (mkSegments Gdt_static Tss_static (mkTableRegister 0 0) 0 0x38 0x30 0x30 0x30) 0x9008)).

(** User code at [0x401000], interrupted. *)
Definition demo_mach : Mach :=
  mkMach (λ r, match r with RAX => 1 | RBX => 2 | RSP => 0x7FFF00 | R15 => 15 | _ => 7 end) ∅ 0x202 0x1B 0x23 0x23 0x23 0x1000 0x401000.

Lemma demo_mach_ok : mach_ok demo_mach.
Proof. split; [intros []|..]; unfold in_range; cbn; lia. Qed.

Lemma demo_stack v : v ≠ 8 → stack_of demo_tss v demo_mach = 0x9000.
Proof. intros Hv. unfold stack_of. rewrite (proj2 (Z.eqb_neq v 8)) by done. reflexivity. Qed.

Lemma exception_frame_correct_witness :
  let '(idt, idtr) := idt_init demo_layout demo_handlers Idt_new in
  ∃ s1, take_interrupt idtr (idt_bytes idt) demo_tss 14 demo_mach 6 = Some s1 ∧
  let s2 := run (exception_stub 14 ++ exception_common) s1 in
  exception_number (read_frame (mem s2) (regs s2 RCX)) = 14 ∧ error_code (read_frame (mem s2) (regs s2 RCX)) = 6 ∧
  f_rip (read_frame (mem s2) (regs s2 RCX)) = 0x401000 ∧ f_rbx (read_frame (mem s2) (regs s2 RCX)) = 2.
Proof.
  pose proof (exception_frame_correct demo_layout demo_handlers demo_tss demo_mach 14 6 demo_handlers_ok demo_mach_ok
    ltac:(unfold in_range; lia) ltac:(reg_in) ltac:(rewrite demo_stack by lia; unfold in_range; lia)
    ltac:(rewrite demo_stack; lia)) as H.
  destruct (idt_init demo_layout demo_handlers Idt_new) as [idt idtr]. destruct H as (s1 & H1 & _ & H2).
  exists s1. split; [exact H1|]. revert H2. cbv zeta. generalize (run (exception_stub 14 ++ exception_common) s1).
  intros s2 (Hf & _). rewrite Hf. split_and!; reflexivity.
Defined.

Lemma unexpected_interrupt_returns_witness :
  let '(idt, idtr) := idt_init demo_layout demo_handlers Idt_new in
  ∃ s1, take_interrupt idtr (idt_bytes idt) demo_tss 200 demo_mach 0 = Some s1 ∧
  let s2 := run (UNEXPECTED_INTERRUPT_HANDLER 200 ++ unexpected_common) s1 in
  rust_unexpected_interrupt_handler (mem s2) (regs s2 RCX) (regs s2 RDX) = [WarnUnexpected 200 0x401000 3; SendEoi].
Proof.
  pose proof (unexpected_interrupt_returns demo_layout demo_handlers demo_tss demo_mach 200 0 demo_mach demo_handlers_ok demo_mach_ok
    ltac:(apply (bool_decide_unpack _); vm_compute; exact I) eq_refl ltac:(rewrite demo_stack by lia; unfold in_range; lia)
    ltac:(rewrite demo_stack; lia)) as H.
  destruct (idt_init demo_layout demo_handlers Idt_new) as [idt idtr]. destruct H as (s1 & H1 & _ & H2 & _).
  exists s1. split; [exact H1|exact H2].
Defined.

Lemma unexpected_error_code_returns_wrong_witness :
  let '(idt, idtr) := idt_init demo_layout demo_handlers Idt_new in
  ∃ s1, take_interrupt idtr (idt_bytes idt) demo_tss 29 demo_mach 0x72 = Some s1 ∧
  m_rip (iretq (run unexpected_return (run (UNEXPECTED_INTERRUPT_HANDLER 29 ++ unexpected_common) s1))) = 0x72.
Proof.
  destruct (idt_init demo_layout demo_handlers Idt_new) as [idt idtr] eqn:E.
  destruct (take_interrupt idtr (idt_bytes idt) demo_tss 29 demo_mach 0x72) as [s1|] eqn:E1.
  - exists s1. split; [reflexivity|].
    pose proof (unexpected_error_code_returns_wrong demo_layout demo_handlers demo_tss demo_mach 29 0x72
      (run (UNEXPECTED_INTERRUPT_HANDLER 29 ++ unexpected_common) s1) demo_handlers_ok demo_mach_ok
      ltac:(set_solver) ltac:(unfold in_range; lia) ltac:(rewrite demo_stack by lia; unfold in_range; lia) ltac:(rewrite demo_stack; lia)) as H.
    rewrite E in H. destruct H as (s1' & H1 & _ & H2). rewrite E1 in H1. injection H1 as <-. apply H2. by split.
  - exfalso.
    pose proof (unexpected_error_code_returns_wrong demo_layout demo_handlers demo_tss demo_mach 29 0x72
      demo_mach demo_handlers_ok demo_mach_ok
      ltac:(set_solver) ltac:(unfold in_range; lia) ltac:(rewrite demo_stack by lia; unfold in_range; lia) ltac:(rewrite demo_stack; lia)) as H.
    rewrite E in H. destruct H as (s1' & H1 & _). rewrite E1 in H1. discriminate H1.
Defined.
