(* ===== verification/Entry.v ===== *)
(** * The system call path

    From the [syscall] instruction of a user thread to
    [rust_syscall_dispatcher] and back: the model-specific registers that
    [init] of [syscall/mod.rs] writes, what the processor makes of them, and
    [syscall/handler.asm] as code of [X86.v].  The scratch words and the kernel
    stack are globals of the assembly file, one for the whole machine. *)

From S2P Require Import Prelude Thread X86 Descriptors Traps.

(** ** [syscall/mod.rs]: the model-specific registers *)

Definition MSR_STAR : Z := 0xC0000081.
Definition MSR_LSTAR : Z := 0xC0000082.
Definition MSR_SFMASK : Z := 0xC0000084.
Definition MSR_EFER : Z := 0xC0000080.

(** The registers by number; the instructions take the value in two halves. *)
Definition wrmsr (m : Memory) (msr value : Z) : Memory :=
  let low := wrap32 value in
  let high := wrap32 (Z.shiftr value 32) in
  mem_write m msr (high * 2 ^ 32 + low).

Definition rdmsr (m : Memory) (msr : Z) : Z :=
  let low := wrap32 (mem_read m msr) in
  let high := wrap32 (Z.shiftr (mem_read m msr) 32) in
  Z.lor (wrap64 (Z.shiftl high 32)) low.

(** [syscall_entry] is the address of the assembly routine. *)
Definition syscall_init (syscall_entry : Z) (m : Memory) : Memory :=
  let star_value :=
    Z.lor (wrap64 (Z.shiftl (Z.land USER_CODE_SELECTOR (not_w 64 3)) 48)) (wrap64 (Z.shiftl KERNEL_CODE_SELECTOR 32)) in
  let m := wrmsr m MSR_STAR star_value in
  let m := wrmsr m MSR_LSTAR syscall_entry in
  let sfmask := Z.lor (Z.lor (Z.shiftl 1 8) (Z.shiftl 1 9)) (Z.shiftl 1 10) in
  let m := wrmsr m MSR_SFMASK sfmask in
  let efer := rdmsr m MSR_EFER in
  let efer := Z.lor efer 1 in
  wrmsr m MSR_EFER efer.

(** The [syscall] instruction, with [m_rip] the address behind it: an undefined
    opcode unless enabled; the return address and the flags go to [rcx] and
    [r11], the flags of the mask are cleared, the selectors come from [STAR]. *)
Definition cpu_syscall (m : Memory) (s : Mach) : option Mach :=
  if Z.testbit (mem_read m MSR_EFER) 0 then
    let sel := wrap16 (Z.shiftr (mem_read m MSR_STAR) 32) in
    Some (mkMach (upd (upd (regs s) RCX (m_rip s)) R11 (m_rflags s)) (mem s)
      (Z.land (m_rflags s) (not_w 64 (mem_read m MSR_SFMASK)))
      (Z.land sel 0xFFFC) (wrap16 (sel + 8)) (m_ds s) (m_es s) (m_cr3 s) (mem_read m MSR_LSTAR))
  else None.

(** ** [syscall/handler.asm] *)

Definition STACK_BYTES : Z := 16384.

(** The registers the entry saves on the kernel stack. *)
Definition saved_on_entry : list reg := [RBX; RBP; R12; R13; R14; R15].

Section code.
(** Where the linker puts the [.bss] of the file. *)
Context (bss : Z).

Definition temp_user_rsp : Z := bss.
Definition temp_user_rcx : Z := bss + 8.
Definition temp_user_r11 : Z := bss + 16.
Definition temp_arg4 : Z := bss + 24.
Definition temp_arg5 : Z := bss + 32.
Definition temp_kernel_stack : Z := bss + 40.

(** From [syscall_entry] to [call rust_syscall_dispatcher]. *)
Definition syscall_entry : list instr :=
  [StA temp_user_rsp RSP; StA temp_user_rcx RCX; StA temp_user_r11 R11; StA temp_arg4 R8; StA temp_arg5 R9;
   LeaA RSP (temp_kernel_stack + STACK_BYTES); AndI RSP (not_w 64 15)] ++
  (Push <$> saved_on_entry) ++
  [Mov RCX RAX; Mov RAX RDX; Mov RDX RDI; Mov R8 RSI; Mov R9 RAX;
   SubI RSP 56;
   Mov RAX R10; St RSP 32 RAX;
   LdA RAX temp_arg4; St RSP 40 RAX;
   LdA RAX temp_arg5; St RSP 48 RAX].

(** From the call to [iretq]. *)
Definition syscall_exit : list instr :=
  [AddI RSP 56] ++ (Pop <$> [R15; R14; R13; R12; RBP; RBX]) ++
  [LdA RCX temp_user_rcx; LdA R11 temp_user_r11;
   AndI R11 0x3C7FD7; OrI R11 0x200;
   ShlI RCX 16; SarI RCX 16;
   LdA R10 temp_user_rsp; Mov RSP R10] ++
  [PushI 0x23; Push R10; Push R11; PushI 0x1B; Push RCX].

(** The arguments of the call in the Windows convention: four in registers, the
    others above the 32 bytes of home space. *)
Definition call_arguments (s : Mach) : list Z :=
  [regs s RCX; regs s RDX; regs s R8; regs s R9;
   load 8 (mem s) (regs s RSP + 32); load 8 (mem s) (regs s RSP + 40); load 8 (mem s) (regs s RSP + 48)].

(** What the dispatcher leaves of the machine it was called on: its result is in
    [rax], the registers the convention preserves are as they were, and so are
    the words the entry saved; home space and argument slots are its own. *)
Record dispatched (s s' : Mach) (result : Z) : Prop := {
  di_result : regs s' RAX = result;
  di_saved r : r ∈ [RBX; RBP; RSI; RDI; RSP; R12; R13; R14; R15] → regs s' r = regs s r;
  di_stack b : regs s RSP + 56 ≤ b < regs s RSP + 104 → mem_read (mem s') b = mem_read (mem s) b;
  di_scratch b : bss ≤ b < bss + 24 → mem_read (mem s') b = mem_read (mem s) b;
}.
End code.

(** ** Properties *)

(** The section is aligned and lies inside the address space. *)
Record bss_ok (bss : Z) : Prop := {
  bo_range : 0 ≤ bss ∧ bss + 40 + STACK_BYTES < 2 ^ 64;
  bo_aligned : bss mod 16 = 0;
}.

Definition top (bss : Z) : Z := bss + 16416.

Section path.
Context (bss : Z) (Hbss : bss_ok bss).

Lemma bss_small o : 0 ≤ o ≤ 16424 → wrap64 (bss + o) = bss + o.
Proof using Hbss. intros. destruct Hbss as [[]]. apply wrap_small. unfold in_range, STACK_BYTES in *. lia. Qed.

Lemma stack_top_value : Z.land (wrap64 (temp_kernel_stack bss + STACK_BYTES)) (not_w 64 15) = top bss.
Proof using Hbss.
  destruct Hbss as [Hr Ha]. unfold temp_kernel_stack, STACK_BYTES, top in *. rewrite wrap_small by (unfold in_range; lia).
  rewrite aligned_16 by (unfold in_range; lia). pose proof (Z.div_mod bss 16). 
  replace (bss + 40 + 16384) with (8 + (bss / 16 + 1026) * 16) by lia. rewrite Z.div_add by lia. change (8 / 16) with 0. lia.
Qed.

(** The machine at the call. *)
Record at_call (s s' : Mach) : Prop := {
  ac_rsp : regs s' RSP = top bss - 104;
  ac_args : call_arguments s' = [regs s RAX; regs s RDI; regs s RSI; regs s RDX; regs s R10; regs s R8; regs s R9];
  ac_keep r : r ∈ [RBX; RBP; RSI; RDI; R10; R11; R12; R13; R14; R15] → regs s' r = regs s r;
  ac_saved i r : saved_on_entry !! i = Some r → load 8 (mem s') (top bss - 8 * (Z.of_nat i + 1)) = regs s r;
  ac_scratch : load 8 (mem s') bss = regs s RSP ∧ load 8 (mem s') (bss + 8) = regs s RCX ∧ load 8 (mem s') (bss + 16) = regs s R11;
  ac_mem b : b < bss ∨ top bss ≤ b → mem_read (mem s') b = mem_read (mem s) b;
}.

(** The scratch words and the switch to the kernel stack. *)
Lemma scratch_run s :
  (∀ r, in_range 64 (regs s r)) →
  let s1 := run [StA (temp_user_rsp bss) RSP; StA (temp_user_rcx bss) RCX; StA (temp_user_r11 bss) R11; StA (temp_arg4 bss) R8;
     StA (temp_arg5 bss) R9; LeaA RSP (temp_kernel_stack bss + STACK_BYTES); AndI RSP (not_w 64 15)] s in
  regs s1 RSP = top bss ∧ (∀ r, r ≠ RSP → regs s1 r = regs s r) ∧
  (∀ o r, (o, r) ∈ [(0, RSP); (8, RCX); (16, R11); (24, R8); (32, R9)] → load 8 (mem s1) (bss + o) = regs s r) ∧
  (∀ b, b < bss ∨ bss + 40 ≤ b → mem_read (mem s1) b = mem_read (mem s) b).
Proof using Hbss.
  intros Hr s1. assert (regs s1 RSP = Z.land (wrap64 (temp_kernel_stack bss + STACK_BYTES)) (not_w 64 15)) as E1 by reflexivity.
  assert (∀ r, r ≠ RSP → regs s1 r = regs s r) as E2 by (intros []; done || reflexivity).
  assert (mem s1 = store 8 (store 8 (store 8 (store 8 (store 8 (mem s) (wrap64 bss) (regs s RSP)) (wrap64 (bss + 8)) (regs s RCX))
    (wrap64 (bss + 16)) (regs s R11)) (wrap64 (bss + 24)) (regs s R8)) (wrap64 (bss + 32)) (regs s R9)) as E3 by reflexivity.
  clearbody s1. rewrite stack_top_value in E1. rewrite !bss_small in E3 by lia.
  replace (wrap64 bss) with bss in E3 by (pose proof (bss_small 0); rewrite Z.add_0_r in *; symmetry; auto with lia).
  split_and!; [done|done| |].
  - assert (∀ a m r, load 8 (store 8 m a (regs s r)) a = regs s r) as W by (intros; rewrite (load_store 8); apply wrap_small, Hr).
    intros o r Hin. rewrite E3. repeat (apply elem_of_cons in Hin as [[= -> ->]|Hin]); [..|by apply elem_of_nil in Hin];
      rewrite ?Z.add_0_r, ?load_store_ne by lia; apply W.
  - intros b Hb. rewrite E3, !store_ne by lia. done.
Qed.

(** The arguments. *)
Lemma arguments_run s :
  regs s RSP = top bss - 48 →
  let s1 := run [Mov RCX RAX; Mov RAX RDX; Mov RDX RDI; Mov R8 RSI; Mov R9 RAX; SubI RSP 56; Mov RAX R10; St RSP 32 RAX;
     LdA RAX (temp_arg4 bss); St RSP 40 RAX; LdA RAX (temp_arg5 bss); St RSP 48 RAX] s in
  regs s1 RSP = top bss - 104 ∧
  regs s1 RCX = regs s RAX ∧ regs s1 RDX = regs s RDI ∧ regs s1 R8 = regs s RSI ∧ regs s1 R9 = regs s RDX ∧
  (∀ r, r ∈ [RBX; RBP; RSI; RDI; R10; R11; R12; R13; R14; R15] → regs s1 r = regs s r) ∧
  mem s1 = store 8 (store 8 (store 8 (mem s) (top bss - 72) (regs s R10)) (top bss - 64) (load 8 (mem s) (bss + 24)))
    (top bss - 56) (load 8 (mem s) (bss + 32)).
Proof using Hbss.
  intros Hs s1. assert (regs s1 RSP = wrap64 (regs s RSP - 56)) as E1 by reflexivity.
  assert (regs s1 RCX = regs s RAX ∧ regs s1 RDX = regs s RDI ∧ regs s1 R8 = regs s RSI ∧ regs s1 R9 = regs s RDX) as E2 by done.
  assert (∀ r, r ∈ [RBX; RBP; RSI; RDI; R10; R11; R12; R13; R14; R15] → regs s1 r = regs s r) as E3.
  { intros [] H; first [reflexivity|exfalso; revert H; reg_in]. }
  set (w o := wrap64 (wrap64 (regs s RSP - 56) + o)).
  assert (mem s1 = let m := store 8 (mem s) (w 32) (regs s R10) in
    let m := store 8 m (w 40) (load 8 m (wrap64 (bss + 24))) in store 8 m (w 48) (load 8 m (wrap64 (bss + 32)))) as E4 by reflexivity.
  assert (∀ o, 0 ≤ o ≤ 48 → w o = top bss - 104 + o) as Hw.
  { intros o Ho. unfold w. rewrite Hs. unfold top. replace (bss + 16416 - 48 - 56) with (bss + 16312) by lia.
    rewrite bss_small by lia. rewrite <- Z.add_assoc, bss_small by lia. lia. }
  clearbody s1. cbv zeta in E4. rewrite !Hw, !bss_small in E4 by lia.
  rewrite !load_store_ne in E4 by (unfold top; lia). rewrite E1. specialize (Hw 0). unfold w in Hw. rewrite Hs in *.
  split_and!; try done; [|apply E2..|].
  - unfold top. replace (bss + 16416 - 48 - 56) with (bss + 16312) by lia. rewrite bss_small by lia. lia.
  - rewrite E4. f_equal; [f_equal; [f_equal|]|]; lia.
Qed.

Lemma entry_run s : (∀ r, in_range 64 (regs s r)) → at_call s (run (syscall_entry bss) s).
Proof using Hbss.
  intros Hr. unfold syscall_entry. rewrite !run_code_app.
  generalize (scratch_run s Hr). cbv zeta. generalize (run [StA (temp_user_rsp bss) RSP; StA (temp_user_rcx bss) RCX;
     StA (temp_user_r11 bss) R11; StA (temp_arg4 bss) R8; StA (temp_arg5 bss) R9; LeaA RSP (temp_kernel_stack bss + STACK_BYTES);
     AndI RSP (not_w 64 15)] s). intros s1 (S1 & S2 & S3 & S4).
  destruct Hbss as [[B0 B1] _]. unfold STACK_BYTES in B1.
  assert (pushed (regs s1 <$> saved_on_entry) s1 (run (Push <$> saved_on_entry) s1)) as P.
  { apply run_pushes; [reg_in|]. rewrite S1. unfold top. cbn. lia. }
  generalize dependent (run (Push <$> saved_on_entry) s1). intros s2 [P1 P2 P3 P4].
  rewrite S1 in P1, P4. change (8 * Z.of_nat _) with 48 in P1. rewrite P1 in P3, P4.
  generalize (arguments_run s2 P1). cbv zeta. generalize (run [Mov RCX RAX; Mov RAX RDX; Mov RDX RDI; Mov R8 RSI; Mov R9 RAX;
     SubI RSP 56; Mov RAX R10; St RSP 32 RAX; LdA RAX (temp_arg4 bss); St RSP 40 RAX; LdA RAX (temp_arg5 bss); St RSP 48 RAX] s2).
  intros s3 (A1 & A2 & A3 & A4 & A5 & A6 & A7).
  assert (∀ r, r ≠ RSP → regs s2 r = regs s r) as R by (intros; rewrite P2, S2 by done; done).
  assert (∀ o r, (o, r) ∈ [(0, RSP); (8, RCX); (16, R11); (24, R8); (32, R9)] → load 8 (mem s2) (bss + o) = regs s r) as Sc.
  { intros o r Hin. rewrite <- (S3 o r Hin). apply load_ext. intros b Hb. apply P4. left. unfold top.
    repeat (apply elem_of_cons in Hin as [[= -> ->]|Hin]); [lia..|by apply elem_of_nil in Hin]. }
  rewrite (Sc 24 R8), (Sc 32 R9), R in A7 by (done || set_solver).
  split; [done|..].
  - unfold call_arguments. rewrite A1, A2, A3, A4, A5, !R by done. unfold top in *.
    replace (bss + 16416 - 104 + 32) with (bss + 16416 - 72) by lia. replace (bss + 16416 - 104 + 40) with (bss + 16416 - 64) by lia.
    replace (bss + 16416 - 104 + 48) with (bss + 16416 - 56) by lia. rewrite A7.
    assert (∀ a m r, load 8 (store 8 m a (regs s r)) a = regs s r) as W by (intros; rewrite (load_store 8); apply wrap_small, Hr).
    rewrite W, (load_store_ne 8 8 _ (bss + 16416 - 56) (bss + 16416 - 64)), W by lia.
    rewrite !(load_store_ne 8 8 _ _ (bss + 16416 - 72)), W by lia. done.
  - intros r Hin. rewrite A6 by done. apply R. intros ->. revert Hin. apply (bool_decide_unpack _). reflexivity.
  - intros i r Hi. assert (i < 6)%nat as Hi' by exact (lookup_lt_Some _ _ _ Hi).
    rewrite A7, !load_store_ne by (unfold top; lia).
    assert (rev (regs s1 <$> saved_on_entry) !! (5 - i)%nat = Some (regs s r)) as Hrev.
    { destruct i as [|[|[|[|[|[|?]]]]]]; [injection Hi as <-; cbn; by rewrite S2..|lia]. }
    rewrite <- (wrap_small 64 (regs s r)) by apply Hr. rewrite <- (P3 _ _ Hrev). f_equal. lia.
  - rewrite A7, !load_store_ne by (unfold top; lia). rewrite <- (Z.add_0_r bss) at 1.
    rewrite (Sc 0 RSP), (Sc 8 RCX), (Sc 16 R11) by set_solver. done.
  - intros b Hb. rewrite A7, !store_ne by (unfold top in *; lia). rewrite P4 by (unfold top in *; lia). apply S4. unfold top in *. lia.
Qed.

(** [shl rcx, 16; sar rcx, 16] *)
Definition canonical (rcx : Z) : Z := wrap64 (Z.shiftr (to_signed 64 (wrap64 (Z.shiftl rcx 16))) 16).

Lemma canonical_user a : 0 ≤ a < 2 ^ 47 → canonical a = a.
Proof.
  intros Ha. unfold canonical, to_signed. rewrite Z.shiftl_mul_pow2 by lia. rewrite !(wrap_small 64 (a * 2 ^ 16)) by (unfold in_range; lia).
  rewrite (proj2 (Z.leb_gt _ _)) by lia. rewrite Z.shiftr_div_pow2, Z.div_mul by lia. apply wrap_small. unfold in_range. lia.
Qed.

(** The flags the user continues with. *)
Definition returned_flags (r11 : Z) : Z := Z.lor (Z.land r11 0x3C7FD7) 0x200.

Lemma returned_flags_range fl : in_range 64 (returned_flags fl).
Proof.
  assert (returned_flags fl = returned_flags fl mod 2 ^ 22) as ->.
  { unfold returned_flags. rewrite <- Z.land_ones by lia. bitwise i. destruct (decide (i < 22)).
    - rewrite Z.ones_spec_low by lia. by rewrite andb_true_r.
    - rewrite (testbit_in_range 22 0x3C7FD7), (testbit_in_range 22 0x200) by (unfold in_range; lia). by rewrite andb_false_r. }
  pose proof (Z.mod_pos_bound (returned_flags fl) (2 ^ 22)). unfold in_range. lia.
Qed.

(** What the kernel stack and the scratch words hold for the way back: the saved
    registers [f], and the user's stack pointer, return address and flags. *)
Record holds_frame (m : Memory) (f : reg → Z) (rsp rcx r11 : Z) : Prop := {
  hf_saved i r : saved_on_entry !! i = Some r → load 8 m (top bss - 8 * (Z.of_nat i + 1)) = f r;
  hf_rsp : load 8 m bss = rsp;
  hf_rcx : load 8 m (bss + 8) = rcx;
  hf_r11 : load 8 m (bss + 16) = r11;
}.

(** The user's machine after the way back; the frame for [iretq] lies below the
    user's stack pointer. *)
Record returned (s s' : Mach) (f : reg → Z) (rsp rcx r11 : Z) : Prop := {
  re_rip : m_rip s' = canonical rcx;
  re_flags : m_rflags s' = returned_flags r11;
  re_cs : m_cs s' = USER_CODE_SELECTOR;
  re_ss : m_ss s' = USER_DATA_SELECTOR;
  re_rsp : regs s' RSP = rsp;
  re_saved r : r ∈ saved_on_entry → regs s' r = f r;
  re_left r : r ∈ [RAX; RDX; RSI; RDI; R8; R9] → regs s' r = regs s r;
  re_r10 : regs s' R10 = rsp;
  re_frame : stack_holds (mem s') (rsp - 40) [canonical rcx; USER_CODE_SELECTOR; returned_flags r11; rsp; USER_DATA_SELECTOR];
  re_mem b : b < rsp - 40 ∨ rsp ≤ b → mem_read (mem s') b = mem_read (mem s) b;
}.

(** The registers before the frame is pushed. *)
Lemma reload_run s :
  let s1 := run [LdA RCX (temp_user_rcx bss); LdA R11 (temp_user_r11 bss); AndI R11 0x3C7FD7; OrI R11 0x200; ShlI RCX 16; SarI RCX 16;
     LdA R10 (temp_user_rsp bss); Mov RSP R10] s in
  mem s1 = mem s ∧ regs s1 RCX = canonical (load 8 (mem s) (wrap64 (bss + 8))) ∧
  regs s1 R11 = returned_flags (load 8 (mem s) (wrap64 (bss + 16))) ∧
  regs s1 R10 = load 8 (mem s) (wrap64 bss) ∧ regs s1 RSP = load 8 (mem s) (wrap64 bss) ∧
  ∀ r, r ∉ [RCX; R11; R10; RSP] → regs s1 r = regs s r.
Proof.
  intros s1. split_and!; [reflexivity..|]. intros [] H; first [reflexivity|exfalso; apply H; reg_in].
Qed.

(** The kernel stack is unwound. *)
Lemma unwind_run s f :
  regs s RSP = top bss - 104 →
  (∀ i r, saved_on_entry !! i = Some r → load 8 (mem s) (top bss - 8 * (Z.of_nat i + 1)) = f r) →
  let s1 := run ([AddI RSP 56] ++ (Pop <$> [R15; R14; R13; R12; RBP; RBX])) s in
  mem s1 = mem s ∧ (∀ r, r ∈ saved_on_entry → regs s1 r = f r) ∧ (∀ r, r ∉ RSP :: saved_on_entry → regs s1 r = regs s r).
Proof using Hbss.
  intros Hs F1 s1. subst s1. rewrite run_code_app. destruct Hbss as [[B0 B1] _]. unfold STACK_BYTES in B1.
  assert (∀ r, r ≠ RSP → regs (run [AddI RSP 56] s) r = regs s r) as A2 by (intros; cbn; by rewrite upd_ne).
  assert (regs (run [AddI RSP 56] s) RSP = top bss - 48) as A1.
  { cbn [run foldl step set_reg regs]. rewrite upd_eq, Hs. unfold top. replace (bss + 16416 - 104 + 56) with (bss + 16368) by lia.
    rewrite bss_small by lia. lia. }
  assert (mem (run [AddI RSP 56] s) = mem s) as A3 by reflexivity.
  generalize dependent (run [AddI RSP 56] s). intros s1 A2 A1 A3.
  assert (popped [R15; R14; R13; R12; RBP; RBX] s1 (run (Pop <$> [R15; R14; R13; R12; RBP; RBX]) s1)) as P.
  { apply run_pops; [reg_in..| |]; rewrite A1; unfold top; cbn; lia. }
  generalize dependent (run (Pop <$> [R15; R14; R13; R12; RBP; RBX]) s1). intros s2 [_ P2 P3 P4]. rewrite A3 in *.
  rewrite A1 in P2. unfold top in *. split_and!; [done| |].
  - intros r Hin. unfold saved_on_entry in Hin. repeat (apply elem_of_cons in Hin as [->|Hin]); [..|by apply elem_of_nil in Hin].
    + rewrite (P2 5%nat _ eq_refl), <- (F1 0%nat _ eq_refl). f_equal. lia.
    + rewrite (P2 4%nat _ eq_refl), <- (F1 1%nat _ eq_refl). f_equal. lia.
    + rewrite (P2 3%nat _ eq_refl), <- (F1 2%nat _ eq_refl). f_equal. lia.
    + rewrite (P2 2%nat _ eq_refl), <- (F1 3%nat _ eq_refl). f_equal. lia.
    + rewrite (P2 1%nat _ eq_refl), <- (F1 4%nat _ eq_refl). f_equal. lia.
    + rewrite (P2 0%nat _ eq_refl), <- (F1 5%nat _ eq_refl). f_equal. lia.
  - intros r Hr. unfold saved_on_entry in Hr. rewrite P3, A2 by set_solver. done.
Qed.

Lemma push_val_regs s v r : r ≠ RSP → regs (push_val s v) r = regs s r.
Proof. intros. unfold push_val. cbn [regs set_reg set_mem]. by apply upd_ne. Qed.

Lemma exit_run s f rsp rcx r11 :
  regs s RSP = top bss - 104 → holds_frame (mem s) f rsp rcx r11 → 40 ≤ rsp →
  returned s (iretq (run (syscall_exit bss) s)) f rsp rcx r11.
Proof using Hbss.
  intros Hs [F1 F2 F3 F4] Hrsp. unfold syscall_exit. rewrite app_assoc, !(run_code_app (_ ++ _)), run_code_app.
  generalize (unwind_run s f Hs F1). cbv zeta. generalize (run ([AddI RSP 56] ++ (Pop <$> [R15; R14; R13; R12; RBP; RBX])) s).
  intros s2 (P4 & P2 & P3).
  generalize (reload_run s2). cbv zeta. generalize (run [LdA RCX (temp_user_rcx bss); LdA R11 (temp_user_r11 bss); AndI R11 0x3C7FD7;
     OrI R11 0x200; ShlI RCX 16; SarI RCX 16; LdA R10 (temp_user_rsp bss); Mov RSP R10] s2).
  intros s3 (R1 & R2 & R3 & R4 & R5 & R6). rewrite P4 in *.
  replace (wrap64 bss) with bss in * by (pose proof (bss_small 0); rewrite Z.add_0_r in *; symmetry; auto with lia).
  rewrite !bss_small in * by lia. rewrite F2 in *. rewrite F3 in *. rewrite F4 in *.
  assert (in_range 64 rsp) as Hr by (rewrite <- F2; exact (load_range 8 _ _)).
  set (vs := [0x23; rsp; returned_flags r11; 0x1B; canonical rcx]).
  assert (pushed vs s3 (run [PushI 0x23; Push R10; Push R11; PushI 0x1B; Push RCX] s3)) as Q.
  { cbn [run foldl step]. rewrite !push_val_regs, R2, R3, R4 by done. apply (pushed_vals vs). rewrite R5. cbn. unfold in_range in Hr. lia. }
  generalize dependent (run [PushI 0x23; Push R10; Push R11; PushI 0x1B; Push RCX] s3). intros s4 [Q1 Q2 Q3 Q4].
  rewrite R5 in Q1, Q4. change (8 * Z.of_nat (length vs)) with 40 in Q1.
  rewrite (iretq_words s4 _ _ _ _ _ _ eq_refl ltac:(lia) ltac:(unfold in_range in Hr; lia) Q3). rewrite Q1 in *.
  assert (∀ r, r ∉ [RCX; R11; R10; RSP] → regs s4 r = regs s2 r) as R by (intros r ?; rewrite Q2, R6 by set_solver; done).
  split; cbn [m_rip m_rflags m_cs m_ss regs mem]; [| |reflexivity|reflexivity| | | | |exact Q3|].
  - apply wrap_small. unfold canonical. by apply wrap_range.
  - apply wrap_small, returned_flags_range.
  - rewrite upd_eq. by apply wrap_small.
  - intros r Hin. assert (r ∉ [RCX; R11; R10; RSP]) by (unfold saved_on_entry in Hin; set_solver).
    rewrite upd_ne, R, P2 by set_solver. done.
  - intros r Hin. assert (r ∉ [RCX; R11; R10; RSP] ∧ r ∉ RSP :: saved_on_entry) as [? ?] by (unfold saved_on_entry; set_solver).
    rewrite upd_ne, R, P3 by set_solver. done.
  - rewrite upd_ne, Q2 by done. done.
  - intros b Hb. rewrite Q4 by lia. by rewrite R1.
Qed.

(** The machine the dispatcher returns to still holds the frame of the entry. *)
Lemma frame_kept s s2 s3 result :
  at_call s s2 → dispatched bss s2 s3 result →
  regs s3 RSP = top bss - 104 ∧ holds_frame (mem s3) (regs s) (regs s RSP) (regs s RCX) (regs s R11).
Proof using Hbss.
  intros [A1 _ A3 A4 (A5 & A6 & A7) _] [_ D2 D3 D4]. rewrite A1 in D3.
  split; [rewrite D2 by set_solver; done|]. split.
  - intros i r Hi. rewrite <- (A4 i r Hi). apply load_ext. intros b Hb. apply D3.
    assert (i < 6)%nat by exact (lookup_lt_Some _ _ _ Hi). lia.
  - rewrite <- A5. apply load_ext. intros. apply D4. lia.
  - rewrite <- A6. apply load_ext. intros. apply D4. lia.
  - rewrite <- A7. apply load_ext. intros. apply D4. lia.
Qed.

(** ** The model-specific registers *)

Lemma wrmsr_value m msr v : mem_read (wrmsr m msr v) msr = wrap64 v.
Proof.
  unfold wrmsr. rewrite mem_read_write. unfold wrap. rewrite Z.shiftr_div_pow2 by lia.
  change (2 ^ 64) with (2 ^ 32 * 2 ^ 32). rewrite Z.rem_mul_r by lia. lia.
Qed.

Lemma wrmsr_other m msr v msr' : msr' ≠ msr → mem_read (wrmsr m msr v) msr' = mem_read m msr'.
Proof. intros. unfold wrmsr. by rewrite mem_read_write_ne by done. Qed.

(** [syscall] after [init]. *)
Lemma syscall_enters entry m s :
  in_range 64 entry →
  cpu_syscall (syscall_init entry m) s =
    Some (mkMach (upd (upd (regs s) RCX (m_rip s)) R11 (m_rflags s)) (mem s) (Z.land (m_rflags s) (not_w 64 0x700))
      KERNEL_CODE_SELECTOR KERNEL_DATA_SELECTOR (m_ds s) (m_es s) (m_cr3 s) entry).
Proof.
  intros He. set (m' := syscall_init entry m).
  assert (Z.testbit (mem_read m' MSR_EFER) 0 = true) as E1.
  { unfold m', syscall_init. rewrite wrmsr_value. unfold wrap. rewrite Z.mod_pow2_bits_low, Z.lor_spec by lia. apply orb_true_r. }
  assert (mem_read m' MSR_STAR = 0x0018000800000000) as E2.
  { unfold m', syscall_init. rewrite !wrmsr_other by done. rewrite wrmsr_value. reflexivity. }
  assert (mem_read m' MSR_LSTAR = entry) as E3.
  { unfold m', syscall_init. rewrite !(wrmsr_other _ _ _ MSR_LSTAR) by done. rewrite wrmsr_value. by apply wrap_small. }
  assert (mem_read m' MSR_SFMASK = 0x700) as E4.
  { unfold m', syscall_init. rewrite wrmsr_other by done. rewrite wrmsr_value. reflexivity. }
  unfold cpu_syscall. rewrite E1, E2, E3, E4. reflexivity.
Qed.

(** ** The path *)

(** C27. After [gdt::init] and [syscall::init] the [syscall] instruction of any
    user thread enters the assembly routine in ring 0 with interrupts disabled,
    which passes the user's seven values to the dispatcher in order.  When the
    dispatcher returns, and no other thread has entered in between, the user
    continues in ring 3 behind its instruction with the result in [rax], its
    stack, the registers the convention preserves and the allowed flags; [rdx],
    [r8] and [r9] show what the dispatcher left in them, [r10] the stack pointer.  On the way the kernel
    has written five words below the user's stack pointer, wherever it points,
    and nothing else. *)
Theorem system_call_path la sg0 rsp0 entry msrs s :
  layout_ok la → in_range 64 rsp0 → sg_gdt sg0 = Gdt_static → sg_tss sg0 = Tss_static →
  in_range 64 entry → mach_ok s → 40 ≤ regs s RSP → m_rip s < 2 ^ 47 →
  let sg := gdt_init la sg0 rsp0 in
  let seg := cpu_segment (sg_gdtr sg) (gdt_bytes (sg_gdt sg)) in
  ∃ s1, cpu_syscall (syscall_init entry msrs) s = Some s1 ∧ m_rip s1 = entry ∧
  seg (m_cs s1) = Some (mkSegment 0 true true true true) ∧ seg (m_ss s1) = Some (mkSegment 0 false true true true) ∧
  Z.testbit (m_rflags s1) 9 = false ∧
  let s2 := run (syscall_entry bss) s1 in
  call_arguments s2 = [regs s RAX; regs s RDI; regs s RSI; regs s RDX; regs s R10; regs s R8; regs s R9] ∧
  ∀ s3 result, dispatched bss s2 s3 result →
  let s4 := iretq (run (syscall_exit bss) s3) in
  m_rip s4 = m_rip s ∧ m_rflags s4 = returned_flags (m_rflags s) ∧
  seg (m_cs s4) = Some (mkSegment 3 true true true true) ∧ seg (m_ss s4) = Some (mkSegment 3 false true true true) ∧
  regs s4 RAX = result ∧
  (∀ r, r ∈ [RSP; RBX; RBP; RSI; RDI; R12; R13; R14; R15] → regs s4 r = regs s r) ∧
  (∀ r, r ∈ [RDX; R8; R9] → regs s4 r = regs s3 r) ∧ regs s4 R10 = regs s RSP ∧
  stack_holds (mem s4) (regs s RSP - 40) [m_rip s; USER_CODE_SELECTOR; returned_flags (m_rflags s); regs s RSP; USER_DATA_SELECTOR] ∧
  (∀ b, b < regs s RSP - 40 ∨ regs s RSP ≤ b → mem_read (mem s4) b = mem_read (mem s3) b).
Proof using Hbss.
  intros Hla Hr0 Hg Ht He [Or Of _ _ Op] Hsp Hrip sg seg.
  destruct (segment_tables_correct la sg0 rsp0 Hla Hr0 Hg Ht) as (_ & G1 & G2 & G3 & G4 & _). fold sg seg in G1, G2, G3, G4.
  change (sg_cs sg) with KERNEL_CODE_SELECTOR in G1. change (sg_ss sg) with KERNEL_DATA_SELECTOR in G2.
  rewrite (syscall_enters entry msrs s He). eexists. split; [reflexivity|]. cbn [m_rip m_cs m_ss m_rflags].
  split; [done|]. split; [exact G1|]. split; [exact G2|]. split.
  { rewrite Z.land_spec. change (Z.testbit (not_w 64 0x700) 9) with false. apply andb_false_r. }
  set (s1 := mkMach _ _ _ _ _ _ _ _ _). assert (at_call s1 (run (syscall_entry bss) s1)) as A.
  { apply entry_run. intros r. unfold s1. cbn [regs]. unfold upd. repeat case_decide; done. }
  set (s2 := run (syscall_entry bss) s1) in *. clearbody s2. split; [exact (ac_args _ _ A)|].
  intros s3 result D. set (s4 := iretq (run (syscall_exit bss) s3)). destruct (frame_kept s1 s2 s3 result A D) as [Hs3 Hf].
  destruct (exit_run s3 _ _ _ _ Hs3 Hf Hsp) as [E1 E2 E3 E4 E5 E6 E7 E8 E9 E10]. fold s4 in E1, E2, E3, E4, E5, E6, E7, E8, E9, E10.
  change (regs s1 RSP) with (regs s RSP) in *. change (regs s1 RCX) with (m_rip s) in *. change (regs s1 R11) with (m_rflags s) in *.
  rewrite canonical_user in E1, E9 by (unfold in_range in Op; lia).
  clearbody s4. assert (∀ r, r ∈ [RSI; RDI] → regs s3 r = regs s r) as K.
  { intros r Hr. destruct r; try (exfalso; revert Hr; reg_in);
      rewrite (di_saved _ _ _ _ D), (ac_keep _ _ A) by reg_in; reflexivity. }
  split_and!; [exact E1|exact E2|by rewrite E3|by rewrite E4| | | |exact E8|exact E9|exact E10].
  - rewrite E7 by reg_in. apply (di_result _ _ _ _ D).
  - intros r Hin. destruct r; first [exact E5|rewrite E6 by reg_in; reflexivity|rewrite E7 by reg_in; apply K; reg_in|exfalso; revert Hin; reg_in].
  - intros r Hin. apply E7. clear - Hin. set_solver.
Qed.

(** The way back of a call whose frame another thread's entry has overwritten. *)
Lemma return_to_other s s2 t t2 s3 result :
  at_call s s2 → at_call t t2 → dispatched bss (set_mem s2 (mem t2)) s3 result → 40 ≤ regs t RSP →
  returned s3 (iretq (run (syscall_exit bss) s3)) (regs t) (regs t RSP) (regs t RCX) (regs t R11) ∧
  ∀ r, r ∈ [RSI; RDI] → regs s3 r = regs s r.
Proof using Hbss.
  intros A B D Hsp.
  assert (dispatched bss t2 (set_reg (set_mem t2 (mem s3)) RAX result) result) as D'.
  { destruct D as [D1 D2 D3 D4]. cbn [regs mem set_mem] in *. rewrite (ac_rsp _ _ A) in D3.
    split; [apply upd_eq| |rewrite (ac_rsp _ _ B); exact D3|exact D4].
    intros r Hr. cbn. apply upd_ne. clear - Hr. set_solver. }
  destruct (frame_kept t t2 _ result B D') as [_ Hf]. cbn [mem set_reg set_mem] in Hf. split.
  - apply exit_run; [|exact Hf|exact Hsp]. rewrite (di_saved _ _ _ _ D) by reg_in. exact (ac_rsp _ _ A).
  - intros r Hr. destruct r; try (exfalso; revert Hr; reg_in); rewrite (di_saved _ _ _ _ D) by reg_in;
      apply (ac_keep _ _ A); reg_in.
Qed.

(** C28. The scratch words and the kernel stack are shared by all threads: when a
    second thread enters while the first is still in its call - switched out in
    a blocking call - the first returns to the second thread's code with the
    second thread's stack and saved registers. *)
Theorem entry_interleaved s t s3 result :
  (∀ r, in_range 64 (regs s r)) → (∀ r, in_range 64 (regs t r)) → 40 ≤ regs t RSP → regs t RCX < 2 ^ 47 →
  dispatched bss (set_mem (run (syscall_entry bss) s) (mem (run (syscall_entry bss) t))) s3 result →
  let s4 := iretq (run (syscall_exit bss) s3) in
  m_rip s4 = regs t RCX ∧ (∀ r, r ∈ [RSP; RBX; RBP; R12; R13; R14; R15] → regs s4 r = regs t r) ∧
  regs s4 RAX = result ∧ regs s4 RDI = regs s RDI ∧ regs s4 RSI = regs s RSI.
Proof using Hbss.
  intros Hs Ht Hsp Hrip D s4.
  destruct (return_to_other _ _ _ _ _ _ (entry_run s Hs) (entry_run t Ht) D Hsp) as [[E1 _ _ _ E5 E6 E7 _ _ _] K].
  fold s4 in E1, E5, E6, E7. pose proof (di_result _ _ _ _ D) as Hres. clear D. clearbody s4.
  rewrite canonical_user in E1 by (pose proof (Ht RCX); unfold in_range in *; lia). split_and!; [done| |..].
  - intros r Hin. destruct r; first [exact E5|apply E6; reg_in|exfalso; revert Hin; reg_in].
  - rewrite E7 by reg_in. exact Hres.
  - rewrite E7, K by reg_in. done.
  - rewrite E7, K by reg_in. done.
Qed.

(** The dispatcher is called with a stack that is 8 off the alignment of 16 the
    convention asks for. *)
Theorem dispatcher_stack_misaligned s :
  (∀ r, in_range 64 (regs s r)) → regs (run (syscall_entry bss) s) RSP mod 16 = 8.
Proof using Hbss.
  intros Hs. rewrite (ac_rsp _ _ (entry_run s Hs)). unfold top. destruct Hbss as [_ Ha].
  replace (bss + 16416 - 104) with (bss + 16312) by lia. rewrite Z.add_mod, Ha by lia. reflexivity.
Qed.
End path.

(** ** Witnesses *)

Definition demo_user : Mach :=
  mkMach (λ r, match r with RAX => 4 | RDI => 1 | RSI => 2 | RDX => 3 | RSP => 0x7000 | RBX => 9 | _ => 0 end) ∅ 0x202
    0x1B 0x23 0x23 0x23 0x1000 0x400002.

(** A dispatcher that only returns a value. *)
Lemma dispatched_value bss s v : dispatched bss s (set_reg s RAX v) v.
Proof. split; [apply upd_eq| |done..]. intros r Hr. apply upd_ne. clear - Hr. set_solver. Qed.

Lemma demo_bss_ok : bss_ok 0x10000.
Proof. by split; unfold STACK_BYTES. Qed.

Lemma demo_user_ok : mach_ok demo_user.
Proof. split; try done. by intros []. Qed.

Lemma demo_layout_ok : layout_ok (mkLayout 0x1000 0x2000 0x3000 0x4000).
Proof. by split. Qed.

Lemma system_call_path_witness :
  ∃ s1, cpu_syscall (syscall_init 0x9000 ∅) demo_user = Some s1 ∧ m_rip s1 = 0x9000 ∧
  call_arguments (run (syscall_entry 0x10000) s1) = [4; 1; 2; 3; 0; 0; 0] ∧
  m_rip (iretq (run (syscall_exit 0x10000) (set_reg (run (syscall_entry 0x10000) s1) RAX 42))) = 0x400002.
Proof.
  destruct (system_call_path 0x10000 demo_bss_ok _ (mkSegments Gdt_static Tss_static (mkTableRegister 0 0) 0 0 0 0 0) 0x8000 0x9000 ∅ demo_user
    demo_layout_ok ltac:(done) eq_refl eq_refl ltac:(done) demo_user_ok ltac:(done) ltac:(done))
    as (s1 & H1 & H2 & _ & _ & _ & H3 & H4).
  exists s1. split; [exact H1|]. split; [exact H2|]. split; [exact H3|].
  destruct (H4 (set_reg (run (syscall_entry 0x10000) s1) RAX 42) 42) as [H5 _]; [|exact H5].
  apply dispatched_value.
Defined.

Definition demo_other : Mach := set_reg (set_reg demo_user RCX 0x500000) RBX 7.

Lemma entry_interleaved_witness :
  let s2 := run (syscall_entry 0x10000) demo_user in
  let t2 := run (syscall_entry 0x10000) demo_other in
  m_rip (iretq (run (syscall_exit 0x10000) (set_reg (set_mem s2 (mem t2)) RAX 42))) = 0x500000.
Proof.
  intros s2 t2. destruct (entry_interleaved 0x10000 demo_bss_ok demo_user demo_other (set_reg (set_mem s2 (mem t2)) RAX 42) 42) as [H _];
    [by intros []..|done|done|apply dispatched_value|exact H].
Defined.

Lemma dispatcher_stack_misaligned_witness : regs (run (syscall_entry 0x10000) demo_user) RSP mod 16 = 8.
Proof. apply (dispatcher_stack_misaligned 0x10000 demo_bss_ok). by intros []. Defined.
