(* ===== verification/Switch.v ===== *)
(** * The context switch

    [interrupts/switch.asm]: [switch_context] saves the running thread's
    registers into its [CpuContext] and continues in another one;
    [switch_to_context] only does the second half.  Changing [cr3] does not
    change what the kernel's own addresses mean, so memory is one map. *)

From S2P Require Import Prelude Thread X86.

(** ** [switch.asm] *)

Definition OFF_RAX : Z := 0.
Definition OFF_RBX : Z := 8.
Definition OFF_RCX : Z := 16.
Definition OFF_RDX : Z := 24.
Definition OFF_RSI : Z := 32.
Definition OFF_RDI : Z := 40.
Definition OFF_RBP : Z := 48.
Definition OFF_RSP : Z := 56.
Definition OFF_R8 : Z := 64.
Definition OFF_R9 : Z := 72.
Definition OFF_R10 : Z := 80.
Definition OFF_R11 : Z := 88.
Definition OFF_R12 : Z := 96.
Definition OFF_R13 : Z := 104.
Definition OFF_R14 : Z := 112.
Definition OFF_R15 : Z := 120.
Definition OFF_RIP : Z := 128.
Definition OFF_RFLAGS : Z := 136.
Definition OFF_CS : Z := 144.
Definition OFF_SS : Z := 146.
Definition OFF_DS : Z := 148.
Definition OFF_ES : Z := 150.
Definition OFF_CR3 : Z := 160.

(** [mov [r12 + OFF], reg] for each pair. *)
Definition save (l : list (Z * reg)) : list instr := (λ x, St R12 x.1 x.2) <$> l.

(** [mov reg, [r15 + OFF]] for each pair. *)
Definition restore (l : list (Z * reg)) : list instr := (λ x, Ld x.2 R15 x.1) <$> l.

Definition prologue : list instr :=
  [Push RBP; Mov RBP RSP; Push R12; Push R13; Push R14; Push R15; Mov R12 RCX; Mov R15 RDX].

Definition saved_first : list (Z * reg) :=
  [(OFF_RAX, RAX); (OFF_RBX, RBX); (OFF_RCX, RCX); (OFF_RDX, RDX); (OFF_RSI, RSI); (OFF_RDI, RDI); (OFF_RBP, RBP)].

Definition saved_second : list (Z * reg) :=
  [(OFF_R8, R8); (OFF_R9, R9); (OFF_R10, R10); (OFF_R11, R11); (OFF_R12, R12); (OFF_R13, R13); (OFF_R14, R14); (OFF_R15, R15)].

(** [switch_context] up to the jump. *)
Definition switch_context_save : list instr :=
  prologue ++ save saved_first ++ [Lea RAX RBP 8; St R12 OFF_RSP RAX] ++ save saved_second ++
  [Ld RAX RBP 8; St R12 OFF_RIP RAX;
   Pushfq; Pop RAX; St R12 OFF_RFLAGS RAX;
   MovFromSeg RAX CS; St16 R12 OFF_CS RAX;
   MovFromSeg RAX SS; St16 R12 OFF_SS RAX;
   MovFromCr3 RAX; St R12 OFF_CR3 RAX] ++
  [Mov RSP RBP; Pop RBP].

(** The registers restored before the frame is built. *)
Definition restored : list (Z * reg) :=
  [(OFF_RAX, RAX); (OFF_RBX, RBX); (OFF_RCX, RCX); (OFF_RDX, RDX); (OFF_RSI, RSI); (OFF_RDI, RDI); (OFF_RBP, RBP);
   (OFF_R8, R8); (OFF_R9, R9); (OFF_R10, R10); (OFF_R11, R11); (OFF_R12, R12); (OFF_R13, R13); (OFF_R14, R14)].

(** The five words for [iretq], and [r15] last. *)
Definition build_frame : list instr :=
  [PushM R15 OFF_SS; PushM R15 OFF_RSP; PushM R15 OFF_RFLAGS; PushM R15 OFF_CS; PushM R15 OFF_RIP; Ld R15 R15 OFF_R15].

Definition iret_to_kernel (s : Mach) : Mach := iretq (run (restore restored ++ build_frame) s).

Definition iret_to_user (s : Mach) : Mach :=
  let s := run [Ld RAX R15 OFF_RFLAGS; AndI RAX 0x3C7FD7; OrI RAX 0x202; St R15 OFF_RFLAGS RAX;
                Ld16 RAX R15 OFF_DS; MovToSeg DS RAX; Ld16 RAX R15 OFF_ES; MovToSeg ES RAX] s in
  iretq (run (restore restored ++ build_frame) s).

(** [cr3] is written only when the context names a page table that is not the
    current one. *)
Definition load_page_table (s : Mach) : Mach :=
  let s := run [Ld RAX R15 OFF_CR3] s in
  if regs s RAX =? 0 then s
  else
    let s := run [MovFromCr3 RCX] s in
    if regs s RAX =? regs s RCX then s else run [MovToCr3 RAX] s.

Definition switch_to_context_internal (s : Mach) : Mach :=
  let s := load_page_table (run [Cli] s) in
  let s := run [Movzx RAX R15 OFF_CS] s in
  if Z.land (regs s RAX) 3 =? 0 then iret_to_kernel s else iret_to_user s.

Definition switch_to_context (s : Mach) : Mach := switch_to_context_internal (run [Mov R15 RCX] s).

Definition switch_context (s : Mach) : Mach := switch_to_context_internal (run switch_context_save s).

(** ** The context in memory *)

(** The [repr(C)] structure of [thread.rs] at an address. *)
Definition read_context (m : Memory) (a : Z) : CpuContext :=
  let q o := load 8 m (a + o) in
  let h o := load 2 m (a + o) in
  mkCtx (q 0) (q 8) (q 16) (q 24) (q 32) (q 40) (q 48) (q 56) (q 64) (q 72) (q 80) (q 88) (q 96) (q 104) (q 112) (q 120)
    (q 128) (q 136) (h 144) (h 146) (h 148) (h 150) (h 152) (h 154) (q 160).

Definition CONTEXT_SIZE : Z := 168.

Definition ctx_reg (c : CpuContext) (r : reg) : Z :=
  match r with
  | RAX => rax c | RBX => rbx c | RCX => rcx c | RDX => rdx c | RSI => rsi c | RDI => rdi c | RBP => rbp c | RSP => rsp c
  | R8 => r8 c | R9 => r9 c | R10 => r10 c | R11 => r11 c | R12 => r12 c | R13 => r13 c | R14 => r14 c | R15 => r15 c
  end.

Lemma read_context_ext m m' a :
  (∀ b, a ≤ b < a + CONTEXT_SIZE → mem_read m b = mem_read m' b) → read_context m a = read_context m' a.
Proof.
  intros H. unfold read_context, CONTEXT_SIZE in *. f_equal; apply load_ext; intros b Hb; apply H; lia.
Qed.

(** ** Restoring *)

Lemma run_cons i c s : run (i :: c) s = run c (step s i).
Proof. reflexivity. Qed.

Lemma run_restore l s a :
  regs s R15 = a → 0 ≤ a → a + CONTEXT_SIZE < 2 ^ 64 → Forall (λ x, 0 ≤ x.1 ≤ 160 ∧ x.2 ≠ R15) l → NoDup l.*2 →
  let s' := run (restore l) s in
  mem s' = mem s ∧ (∀ o r, (o, r) ∈ l → regs s' r = load 8 (mem s) (a + o)) ∧ (∀ r, r ∉ l.*2 → regs s' r = regs s r) ∧
  m_rflags s' = m_rflags s ∧ m_cs s' = m_cs s ∧ m_ss s' = m_ss s ∧ m_ds s' = m_ds s ∧ m_es s' = m_es s ∧ m_cr3 s' = m_cr3 s.
Proof.
  intros Ha H0 H1 Hl Hnd s'. revert s Ha s'. induction l as [|[o r] l IH]; intros s Ha s'.
  { unfold s'. split_and!; try done. set_solver. }
  apply Forall_cons in Hl as [[Ho Hr] Hl]. apply NoDup_cons in Hnd as [Hni Hnd]. cbn [fst snd] in *.
  assert (regs (step s (Ld r R15 o)) R15 = a) as Ha' by (cbn; by rewrite upd_ne).
  assert (wrap64 (a + o) = a + o) as Hw by (apply wrap_small; unfold in_range, CONTEXT_SIZE in *; lia).
  destruct (IH Hl Hnd (step s (Ld r R15 o)) Ha') as (I1 & I2 & I3 & I4).
  change (run (restore l) (step s (Ld r R15 o))) with s' in *. clearbody s'.
  split_and!; [done| | |apply I4..].
  - intros o' r' [[= -> ->]|Hin]%elem_of_cons; [|by apply I2]. rewrite I3 by done. cbn [step set_reg regs]. rewrite upd_eq.
    unfold ea. by rewrite Ha, Hw.
  - intros r' Hr'. apply not_elem_of_cons in Hr' as [Hne Hr']. rewrite I3 by done. cbn [step set_reg regs]. by apply upd_ne.
Qed.

(** Pushing words of a context that does not overlap the stack. *)
Lemma run_push_context offs s a :
  regs s R15 = a → 0 ≤ a → a + CONTEXT_SIZE < 2 ^ 64 → Forall (λ o, 0 ≤ o ≤ 160) offs →
  8 * Z.of_nat (length offs) ≤ regs s RSP < 2 ^ 64 →
  a + CONTEXT_SIZE ≤ regs s RSP - 8 * Z.of_nat (length offs) ∨ regs s RSP ≤ a →
  pushed ((λ o, load 8 (mem s) (a + o)) <$> offs) s (run (PushM R15 <$> offs) s).
Proof.
  intros Ha H0 H1 Hl Hb Hd. induction offs as [|o offs IH] using rev_ind; [apply pushed_nil|].
  apply Forall_app in Hl as [Hl Ho]. apply Forall_cons in Ho as [Ho _]. rewrite length_app in Hb, Hd. cbn in Hb, Hd.
  assert (pushed ((λ o, load 8 (mem s) (a + o)) <$> offs) s (run (PushM R15 <$> offs) s)) as P by (apply IH; [done|lia|lia]). clear IH.
  rewrite !fmap_app, run_code_app. cbn [fmap list_fmap]. rewrite run_cons. cbn [run foldl step].
  generalize dependent (run (PushM R15 <$> offs) s). intros s' P.
  assert (load 8 (mem s') (ea s' R15 o) = load 8 (mem s) (a + o)) as ->.
  { unfold ea. rewrite (pu_regs _ _ _ P), Ha by done. rewrite wrap_small by (unfold in_range, CONTEXT_SIZE in *; lia).
    apply load_ext. intros b Hb'. apply (pu_mem _ _ _ P). rewrite (pu_rsp _ _ _ P), length_fmap. unfold CONTEXT_SIZE in *. lia. }
  apply pushed_snoc; [done|]. rewrite length_fmap. lia.
Qed.

(** The machine that a restored context describes. *)
Definition in_context (c : CpuContext) (s' : Mach) : Prop :=
  (∀ r, regs s' r = ctx_reg c r) ∧ m_rip s' = rip c ∧ m_rflags s' = rflags c ∧ m_cs s' = cs c ∧ m_ss s' = ss c.

(** Memory as before but for the five words under the stack pointer. *)
Definition same_but_frame (s s' : Mach) : Prop :=
  ∀ b, b < regs s RSP - 40 ∨ regs s RSP ≤ b → mem_read (mem s') b = mem_read (mem s) b.

Record context_at (s : Mach) (a : Z) : Prop := {
  ca_reg : regs s R15 = a;
  ca_low : 0 ≤ a;
  ca_high : a + CONTEXT_SIZE < 2 ^ 64;
  ca_stack : 40 ≤ regs s RSP < 2 ^ 64;
  ca_apart : a + CONTEXT_SIZE ≤ regs s RSP - 40 ∨ regs s RSP ≤ a;
}.

Lemma frame_run s a :
  context_at s a →
  let s' := run build_frame s in
  let w o := load 8 (mem s) (a + o) in
  regs s' RSP = regs s RSP - 40 ∧ regs s' R15 = w 120 ∧ (∀ r, r ≠ RSP → r ≠ R15 → regs s' r = regs s r) ∧
  stack_holds (mem s') (regs s' RSP) [w 128; w 144; w 136; w 56; w 146] ∧ same_but_frame s s' ∧
  m_ds s' = m_ds s ∧ m_es s' = m_es s ∧ m_cr3 s' = m_cr3 s.
Proof.
  intros [Ha H0 H1 Hsp Hd] s' w.
  assert (pushed (w <$> [146; 56; 136; 144; 128]) s (run (PushM R15 <$> [146; 56; 136; 144; 128]) s)) as P.
  { apply run_push_context; [done..| |exact Hsp|exact Hd]. reg_in. }
  assert (s' = step (run (PushM R15 <$> [146; 56; 136; 144; 128]) s) (Ld R15 R15 120)) as E by reflexivity.
  assert (m_ds s' = m_ds s ∧ m_es s' = m_es s ∧ m_cr3 s' = m_cr3 s) as Hseg by done. clearbody s'.
  generalize dependent (run (PushM R15 <$> [146; 56; 136; 144; 128]) s). intros s5 [P1 P2 P3 P4] ->.
  cbn [step set_reg regs mem]. rewrite upd_eq, upd_ne by done. change (8 * Z.of_nat (length _)) with 40 in P1.
  split_and!; [done| | |exact P3| |apply Hseg..].
  - unfold ea. rewrite P2, Ha by done. rewrite wrap_small by (unfold in_range, CONTEXT_SIZE in *; lia).
    apply load_ext. intros b Hb. apply P4. rewrite P1. unfold CONTEXT_SIZE in *. lia.
  - intros r Hr Hr'. rewrite upd_ne by done. by apply P2.
  - intros b Hb. cbn [mem set_reg]. apply P4. lia.
Qed.

Lemma word_range m a : in_range 64 (load 8 m a).
Proof. exact (load_range 8 m a). Qed.

(** What [iretq] makes of the frame and the restored registers. *)
Lemma restore_and_iret s a :
  context_at s a →
  let s' := iretq (run (restore restored ++ build_frame) s) in
  in_context (read_context (mem s) a) s' ∧ same_but_frame s s' ∧ m_ds s' = m_ds s ∧ m_es s' = m_es s ∧ m_cr3 s' = m_cr3 s.
Proof.
  intros Hc s'. pose proof Hc as [Ha H0 H1 Hsp Hd].
  assert (s' = iretq (run build_frame (run (restore restored) s))) as E by (unfold s'; by rewrite run_code_app). clearbody s'. subst s'.
  generalize (run_restore restored s a Ha H0 H1 ltac:(reg_in) ltac:(reg_in)).
  cbv zeta. generalize (run (restore restored) s). intros s1 (R1 & R2 & R3 & _ & _ & _ & R4 & R5 & R6).
  assert (regs s1 R15 = a ∧ regs s1 RSP = regs s RSP) as [A1 A2].
  { rewrite !R3; [done|reg_in..]. }
  assert (context_at s1 a) as Hc1 by (split; rewrite ?A2; done).
  generalize (frame_run s1 a Hc1). cbv zeta. generalize (run build_frame s1).
  intros s2 (F1 & F2 & F3 & F4 & F5 & F6 & F7 & F8). rewrite R1 in *. rewrite A2 in F1.
  rewrite (iretq_words s2 _ _ _ _ _ _ eq_refl ltac:(lia) ltac:(lia) F4).
  cbn [m_ds m_es m_cr3]. split; [|split; [|rewrite F6, F7, F8; done]].
  - unfold in_context. cbn [regs m_rip m_rflags m_cs m_ss read_context rip rflags cs ss].
    rewrite !(wrap_small 64) by apply word_range. rewrite !load_low16. split_and!; try done.
    intros r. destruct (decide (r = RSP)) as [->|Hr]; [by rewrite upd_eq|]. rewrite upd_ne by done.
    destruct (decide (r = R15)) as [->|Hr']; [exact F2|]. rewrite F3 by done.
    destruct r; try done; cbn [ctx_reg]; apply R2; reg_in.
  - intros b Hb. cbn [mem]. rewrite F5, R1 by (rewrite A2; done). done.
Qed.

Lemma iret_to_kernel_correct s a :
  context_at s a →
  in_context (read_context (mem s) a) (iret_to_kernel s) ∧ same_but_frame s (iret_to_kernel s) ∧
  m_ds (iret_to_kernel s) = m_ds s ∧ m_es (iret_to_kernel s) = m_es s ∧ m_cr3 (iret_to_kernel s) = m_cr3 s.
Proof. exact (restore_and_iret s a). Qed.

(** ** The way to user mode *)

(** The flags a user context continues with: the dangerous ones removed, the
    reserved bit and the interrupt flag set. *)
Definition user_flags (fl : Z) : Z := Z.lor (Z.land fl 0x3C7FD7) 0x202.

Definition with_rflags (c : CpuContext) (v : Z) : CpuContext :=
  mkCtx (rax c) (rbx c) (rcx c) (rdx c) (rsi c) (rdi c) (rbp c) (rsp c) (r8 c) (r9 c) (r10 c) (r11 c) (r12 c) (r13 c) (r14 c) (r15 c)
    (rip c) v (cs c) (ss c) (ds c) (es c) (fs c) (gs c) (cr3 c).

Lemma low16_wrap x v : wrap16 (low16 x v) = wrap16 v.
Proof.
  unfold low16, wrap. rewrite <- !Z.land_ones by lia. bitwise i.
  destruct (decide (i < 16)).
  - rewrite Z.ones_spec_low by lia. rewrite not_w_spec by lia. change 0xFFFF with (Z.ones 16).
    rewrite Z.ones_spec_low, bool_decide_eq_true_2 by lia. cbn. by rewrite andb_false_r, !andb_true_r.
  - rewrite Z.ones_spec_high by lia. by rewrite !andb_false_r.
Qed.

Lemma user_flags_range fl : in_range 64 (user_flags fl).
Proof.
  assert (user_flags fl = user_flags fl mod 2 ^ 22) as ->.
  { unfold user_flags. rewrite <- Z.land_ones by lia. bitwise i. destruct (decide (i < 22)).
    - rewrite Z.ones_spec_low by lia. by rewrite andb_true_r.
    - rewrite (testbit_in_range 22 0x3C7FD7), (testbit_in_range 22 0x202) by (unfold in_range; lia). by rewrite andb_false_r. }
  pose proof (Z.mod_pos_bound (user_flags fl) (2 ^ 22)). unfold in_range. lia.
Qed.

(** What the user path does before it restores the registers. *)
Lemma user_prepared s a :
  context_at s a →
  let c := read_context (mem s) a in
  let s1 := run [Ld RAX R15 OFF_RFLAGS; AndI RAX 0x3C7FD7; OrI RAX 0x202; St R15 OFF_RFLAGS RAX;
                 Ld16 RAX R15 OFF_DS; MovToSeg DS RAX; Ld16 RAX R15 OFF_ES; MovToSeg ES RAX] s in
  mem s1 = store 8 (mem s) (a + 136) (user_flags (rflags c)) ∧ (∀ r, r ≠ RAX → regs s1 r = regs s r) ∧
  m_ds s1 = ds c ∧ m_es s1 = es c ∧ m_cr3 s1 = m_cr3 s ∧ read_context (mem s1) a = with_rflags c (user_flags (rflags c)).
Proof.
  intros [Ha H0 H1 Hsp Hd] c s1.
  assert (mem s1 = store 8 (mem s) (ea s R15 136) (user_flags (load 8 (mem s) (ea s R15 136)))) as M by reflexivity.
  assert (m_ds s1 = wrap16 (low16 (user_flags (load 8 (mem s) (ea s R15 136))) (load 2 (mem s1) (ea s R15 148)))) as D by reflexivity.
  assert (∃ x, m_es s1 = wrap16 (low16 x (load 2 (mem s1) (ea s R15 150)))) as [x E] by (eexists; reflexivity).
  assert (∀ r, r ≠ RAX → regs s1 r = regs s r) as R by (intros []; done || reflexivity).
  assert (m_cr3 s1 = m_cr3 s) as C by reflexivity. clearbody s1.
  unfold ea in *. rewrite Ha in *. 
  assert (∀ o, 0 ≤ o ≤ 160 → wrap64 (a + o) = a + o) as W by (intros; apply wrap_small; unfold in_range, CONTEXT_SIZE in *; lia).
  rewrite (W 136) in M, D by lia. rewrite (W 148) in D by lia. rewrite (W 150) in E by lia.
  rewrite low16_wrap in D, E. fold wrap16 in D, E. rewrite wrap_small in D, E by exact (load_range 2 _ _).
  change (load 8 (mem s) (a + 136)) with (rflags c) in M. rewrite M in *. rewrite load_store_ne in D, E by lia.
  split_and!; try done. unfold read_context, with_rflags, c. cbn [rax rbx rcx rdx rsi rdi rbp rsp r8 r9 r10 r11 r12 r13 r14 r15 rip rflags cs ss ds es fs gs cr3 read_context].
  f_equal; try (apply load_store_ne; lia). rewrite load_store. apply wrap_small. apply user_flags_range.
Qed.

(** ** Continuing in a context *)

Lemma page_table_loaded s a :
  context_at s a →
  let s' := run [Movzx RAX R15 OFF_CS] (load_page_table (run [Cli] s)) in
  let c := read_context (mem s) a in
  mem s' = mem s ∧ (∀ r, r ≠ RAX → r ≠ RCX → regs s' r = regs s r) ∧ regs s' RAX = cs c ∧
  m_cr3 s' = (if cr3 c =? 0 then m_cr3 s else cr3 c) ∧ m_ds s' = m_ds s ∧ m_es s' = m_es s.
Proof.
  intros [Ha H0 H1 Hsp Hd] s' c.
  assert (∀ o, 0 ≤ o ≤ 160 → wrap64 (a + o) = a + o) as W by (intros; apply wrap_small; unfold in_range, CONTEXT_SIZE in *; lia).
  assert (load 8 (mem s) (ea s R15 OFF_CR3) = cr3 c) as E by (unfold ea; rewrite Ha, W by (unfold OFF_CR3; lia); reflexivity).
  assert (load 2 (mem s) (ea s R15 OFF_CS) = cs c) as Ec by (unfold ea; rewrite Ha, W by (unfold OFF_CS; lia); reflexivity).
  clearbody c. unfold s', load_page_table. clear s'.
  change (regs (run [Ld RAX R15 OFF_CR3] (run [Cli] s)) RAX) with (load 8 (mem s) (ea s R15 OFF_CR3)).
  change (regs (run [MovFromCr3 RCX] (run [Ld RAX R15 OFF_CR3] (run [Cli] s))) RAX) with (load 8 (mem s) (ea s R15 OFF_CR3)).
  change (regs (run [MovFromCr3 RCX] (run [Ld RAX R15 OFF_CR3] (run [Cli] s))) RCX) with (m_cr3 s).
  destruct (Z.eqb_spec (load 8 (mem s) (ea s R15 OFF_CR3)) 0) as [Ez|En].
  - rewrite E in Ez. rewrite Ez. split_and!; [reflexivity|intros []; reflexivity || done|exact Ec|reflexivity|reflexivity|reflexivity].
  - rewrite E in En. rewrite (proj2 (Z.eqb_neq (cr3 c) 0)) by done.
    destruct (Z.eqb_spec (load 8 (mem s) (ea s R15 OFF_CR3)) (m_cr3 s)) as [Es|_].
    + rewrite E in Es. rewrite Es. split_and!; [reflexivity|intros []; reflexivity || done|exact Ec|reflexivity|reflexivity|reflexivity].
    + split_and!; [reflexivity|intros []; reflexivity || done|exact Ec|exact E|reflexivity|reflexivity].
Qed.

(** The context the machine really continues in. *)
Definition entered (c : CpuContext) : CpuContext :=
  if Z.land (cs c) 3 =? 0 then c else with_rflags c (user_flags (rflags c)).

Lemma continued s a :
  context_at s a →
  let c := read_context (mem s) a in
  let s' := switch_to_context_internal s in
  in_context (entered c) s' ∧ m_cr3 s' = (if cr3 c =? 0 then m_cr3 s else cr3 c) ∧
  m_ds s' = (if Z.land (cs c) 3 =? 0 then m_ds s else ds c) ∧ m_es s' = (if Z.land (cs c) 3 =? 0 then m_es s else es c) ∧
  ∀ b, (b < regs s RSP - 40 ∨ regs s RSP ≤ b) → (Z.land (cs c) 3 = 0 ∨ b < a + 136 ∨ a + 144 ≤ b) →
       mem_read (mem s') b = mem_read (mem s) b.
Proof.
  intros Hc c s'. destruct (page_table_loaded s a Hc) as (P1 & P2 & P3 & P4 & P5 & P6). fold c in P3, P4.
  unfold s', switch_to_context_internal. clear s'. generalize dependent (run [Movzx RAX R15 OFF_CS] (load_page_table (run [Cli] s))).
  intros s1 P1 P2 P3 P4 P5 P6. assert (context_at s1 a) as Hc1 by (destruct Hc; split; rewrite ?P2 by done; done).
  rewrite P3. unfold entered. destruct (Z.eqb_spec (Z.land (cs c) 3) 0) as [Ek|Eu].
  - destruct (iret_to_kernel_correct s1 a Hc1) as (K1 & K2 & K3 & K4 & K5). rewrite P1 in K1.
    split_and!; [apply K1..|congruence|congruence|congruence|]. intros b Hb _. rewrite K2, P1 by (rewrite P2; done). done.
  - unfold iret_to_user. destruct (user_prepared s1 a Hc1) as (U1 & U2 & U3 & U4 & U5 & U6).
    generalize dependent (run [Ld RAX R15 OFF_RFLAGS; AndI RAX 0x3C7FD7; OrI RAX 0x202; St R15 OFF_RFLAGS RAX;
                 Ld16 RAX R15 OFF_DS; MovToSeg DS RAX; Ld16 RAX R15 OFF_ES; MovToSeg ES RAX] s1).
    intros s2 U1 U2 U3 U4 U5 U6. rewrite P1 in U1, U3, U4, U6. fold c in U1, U3, U4, U6.
    assert (context_at s2 a) as Hc2 by (destruct Hc1; split; rewrite ?U2 by done; done).
    destruct (restore_and_iret s2 a Hc2) as (K1 & K2 & K3 & K4 & K5). rewrite U6 in K1.
    split_and!; [apply K1..|congruence|congruence|congruence|].
    intros b Hb [?|Hb']; [done|]. rewrite K2 by (rewrite U2, P2 by done; done). rewrite U1. rewrite store_ne by lia. done.
Qed.

(** ** Saving *)

Definition saves (m : Memory) (a : Z) (f : reg → Z) (l : list (Z * reg)) : Memory :=
  foldl (λ m x, store 8 m (wrap64 (a + x.1)) (f x.2)) m l.

Lemma run_save l s : run (save l) s = set_mem s (saves (mem s) (regs s R12) (regs s) l).
Proof.
  revert s. induction l as [|x l IH]; intros s; [by destruct s|]. change (run (save (x :: l)) s) with (run (save l) (step s (St R12 x.1 x.2))).
  rewrite IH. reflexivity.
Qed.

(** [switch_context(old, new)] is called with the return address on top of the
    stack; the two contexts and the stack do not overlap. *)
Record call_ok (s : Mach) (old new : Z) : Prop := {
  co_old : regs s RCX = old;
  co_new : regs s RDX = new;
  co_regs r : in_range 64 (regs s r);
  co_flags : in_range 64 (m_rflags s);
  co_cs : in_range 16 (m_cs s);
  co_ss : in_range 16 (m_ss s);
  co_cr3 : in_range 64 (m_cr3 s);
  co_old_range : 0 ≤ old ∧ old + CONTEXT_SIZE < 2 ^ 64;
  co_new_range : 0 ≤ new ∧ new + CONTEXT_SIZE < 2 ^ 64;
  co_stack : 48 ≤ regs s RSP ∧ regs s RSP + 16 < 2 ^ 64;
  co_old_apart : old + CONTEXT_SIZE ≤ regs s RSP - 48 ∨ regs s RSP + 8 ≤ old;
  co_new_apart : new + CONTEXT_SIZE ≤ regs s RSP - 48 ∨ regs s RSP + 8 ≤ new;
  co_apart : old + CONTEXT_SIZE ≤ new ∨ new + CONTEXT_SIZE ≤ old;
}.

Lemma prologue_run s old new :
  call_ok s old new →
  let s1 := run prologue s in
  let sp := regs s RSP in
  regs s1 RBP = sp - 8 ∧ regs s1 RSP = sp - 40 ∧ regs s1 R12 = old ∧ regs s1 R15 = new ∧
  (∀ r, r ∉ [RBP; RSP; R12; R15] → regs s1 r = regs s r) ∧
  load 8 (mem s1) (sp - 8) = regs s RBP ∧
  (∀ b, b < sp - 40 ∨ sp ≤ b → mem_read (mem s1) b = mem_read (mem s) b) ∧
  m_rflags s1 = m_rflags s ∧ m_cs s1 = m_cs s ∧ m_ss s1 = m_ss s ∧ m_ds s1 = m_ds s ∧ m_es s1 = m_es s ∧ m_cr3 s1 = m_cr3 s.
Proof.
  intros [Ho Hn Hr _ _ _ _ _ _ [Hs0 Hs1] _ _ _] s1 sp. subst sp. set (sp := regs s RSP) in *.
  assert (∀ k, 0 ≤ k ≤ 48 → wrap64 (sp - k) = sp - k) as W by (intros; apply wrap_small; unfold in_range; lia).
  assert (regs s1 RBP = wrap64 (sp - 8)) as E1 by reflexivity.
  assert (regs s1 RSP = wrap64 (wrap64 (wrap64 (wrap64 (wrap64 (sp - 8) - 8) - 8) - 8) - 8)) as E2 by reflexivity.
  assert (regs s1 R12 = regs s RCX) as E3 by reflexivity. assert (regs s1 R15 = regs s RDX) as E4 by reflexivity.
  assert (∀ r, r ∉ [RBP; RSP; R12; R15] → regs s1 r = regs s r) as E5.
  { intros [] H; first [reflexivity|exfalso; apply H; reg_in]. }
  assert (mem s1 = store 8 (store 8 (store 8 (store 8 (store 8 (mem s) (wrap64 (sp - 8)) (regs s RBP))
    (wrap64 (wrap64 (sp - 8) - 8)) (regs s R12)) (wrap64 (wrap64 (wrap64 (sp - 8) - 8) - 8)) (regs s R13))
    (wrap64 (wrap64 (wrap64 (wrap64 (sp - 8) - 8) - 8) - 8)) (regs s R14))
    (wrap64 (wrap64 (wrap64 (wrap64 (wrap64 (sp - 8) - 8) - 8) - 8) - 8)) (regs s R15)) as E6 by reflexivity.
  assert (m_rflags s1 = m_rflags s ∧ m_cs s1 = m_cs s ∧ m_ss s1 = m_ss s ∧ m_ds s1 = m_ds s ∧ m_es s1 = m_es s ∧ m_cr3 s1 = m_cr3 s) as E7
    by (split_and!; reflexivity).
  clearbody s1. rewrite (W 8) in * by lia. replace (sp - 8 - 8) with (sp - 16) in * by lia. rewrite (W 16) in * by lia.
  replace (sp - 16 - 8) with (sp - 24) in * by lia. rewrite (W 24) in * by lia.
  replace (sp - 24 - 8) with (sp - 32) in * by lia. rewrite (W 32) in * by lia.
  replace (sp - 32 - 8) with (sp - 40) in * by lia. rewrite (W 40) in * by lia.
  destruct E7 as (? & ? & ? & ? & ? & ?). split_and!; try done; try congruence.
  - rewrite E6. rewrite !load_store_ne by lia. rewrite (load_store 8). apply wrap_small, Hr.
  - intros b Hb. rewrite E6, !store_ne by lia. done.
Qed.

(** What the saving code makes of memory, one store after the other. *)
Definition saved_memory (m : Memory) (f : reg → Z) (fl c sg pt a bp sp : Z) : Memory :=
  let m3 := saves (store 8 (saves m a f saved_first) (wrap64 (a + OFF_RSP)) (wrap64 (bp + 8))) a f saved_second in
  let m5 := store 8 (store 8 m3 (wrap64 (a + OFF_RIP)) (load 8 m3 (wrap64 (bp + 8)))) (wrap64 (sp - 8)) fl in
  let x := load 8 m5 (wrap64 (sp - 8)) in
  store 8 (store 2 (store 2 (store 8 m5 (wrap64 (a + OFF_RFLAGS)) x) (wrap64 (a + OFF_CS)) (low16 x c))
    (wrap64 (a + OFF_SS)) (low16 (low16 x c) sg)) (wrap64 (a + OFF_CR3)) pt.

Lemma save_run s1 :
  let s2 := run (save saved_first ++ [Lea RAX RBP 8; St R12 OFF_RSP RAX] ++ save saved_second ++
    [Ld RAX RBP 8; St R12 OFF_RIP RAX; Pushfq; Pop RAX; St R12 OFF_RFLAGS RAX; MovFromSeg RAX CS; St16 R12 OFF_CS RAX;
     MovFromSeg RAX SS; St16 R12 OFF_SS RAX; MovFromCr3 RAX; St R12 OFF_CR3 RAX]) s1 in
  mem s2 = saved_memory (mem s1) (regs s1) (m_rflags s1) (m_cs s1) (m_ss s1) (m_cr3 s1) (regs s1 R12) (regs s1 RBP) (regs s1 RSP) ∧
  (∀ r, r ≠ RAX → r ≠ RSP → regs s2 r = regs s1 r) ∧
  m_rflags s2 = m_rflags s1 ∧ m_cs s2 = m_cs s1 ∧ m_ss s2 = m_ss s1 ∧ m_ds s2 = m_ds s1 ∧ m_es s2 = m_es s1 ∧ m_cr3 s2 = m_cr3 s1.
Proof.
  intros s2. split; [reflexivity|]. split; [intros []; done || reflexivity|]. split_and!; reflexivity.
Qed.

Section saved_memory.
Context (m : Memory) (f : reg → Z) (fl c sg pt a bp sp : Z).
Context (Hf : ∀ r, in_range 64 (f r)) (Hfl : in_range 64 fl) (Hc : in_range 16 c) (Hsg : in_range 16 sg) (Hpt : in_range 64 pt).
Context (Ha : 0 ≤ a ∧ a + CONTEXT_SIZE < 2 ^ 64) (Hbp : 0 ≤ bp ∧ bp + 16 < 2 ^ 64) (Hsp : 8 ≤ sp < 2 ^ 64).
Context (Hd1 : a + CONTEXT_SIZE ≤ bp + 8 ∨ bp + 16 ≤ a) (Hd2 : a + CONTEXT_SIZE ≤ sp - 8 ∨ sp ≤ a).

Local Abbreviation after := (saved_memory m f fl c sg pt a bp sp).

(** The memory as explicit stores, without wrapping addresses. *)
Lemma saved_memory_stores :
  after =
    let m1 := store 8 (store 8 (store 8 (store 8 (store 8 (store 8 (store 8 m (a + 0) (f RAX)) (a + 8) (f RBX)) (a + 16) (f RCX))
      (a + 24) (f RDX)) (a + 32) (f RSI)) (a + 40) (f RDI)) (a + 48) (f RBP) in
    let m3 := store 8 (store 8 (store 8 (store 8 (store 8 (store 8 (store 8 (store 8 (store 8 m1 (a + 56) (bp + 8)) (a + 64) (f R8))
      (a + 72) (f R9)) (a + 80) (f R10)) (a + 88) (f R11)) (a + 96) (f R12)) (a + 104) (f R13)) (a + 112) (f R14)) (a + 120) (f R15) in
    store 8 (store 2 (store 2 (store 8 (store 8 (store 8 m3 (a + 128) (load 8 m (bp + 8))) (sp - 8) fl) (a + 136) fl)
      (a + 144) (low16 fl c)) (a + 146) (low16 (low16 fl c) sg)) (a + 160) pt.
Proof using Hfl Ha Hbp Hsp Hd1 Hd2.
  assert (∀ o, 0 ≤ o ≤ 160 → wrap64 (a + o) = a + o) as W by (intros; apply wrap_small; unfold in_range, CONTEXT_SIZE in *; lia).
  unfold saved_memory, saves. cbn [foldl saved_first saved_second fst snd].
  unfold OFF_RAX, OFF_RBX, OFF_RCX, OFF_RDX, OFF_RSI, OFF_RDI, OFF_RBP, OFF_RSP, OFF_R8, OFF_R9, OFF_R10, OFF_R11, OFF_R12, OFF_R13,
    OFF_R14, OFF_R15, OFF_RIP, OFF_RFLAGS, OFF_CS, OFF_SS, OFF_CR3.
  rewrite !W by lia. rewrite !(wrap_small 64 (bp + 8)), !(wrap_small 64 (sp - 8)) by (unfold in_range; lia).
  rewrite load_store. change (8 * Z.of_nat 8) with 64. rewrite (wrap_small 64 fl) by done. unfold CONTEXT_SIZE in *.
  rewrite !(load_store_ne 8 8 _ _ (bp + 8)) by lia. reflexivity.
Qed.

Lemma saved_context :
  read_context after a =
    mkCtx (f RAX) (f RBX) (f RCX) (f RDX) (f RSI) (f RDI) (f RBP) (bp + 8) (f R8) (f R9) (f R10) (f R11) (f R12) (f R13) (f R14) (f R15)
      (load 8 m (bp + 8)) fl c sg (load 2 m (a + 148)) (load 2 m (a + 150)) (load 2 m (a + 152)) (load 2 m (a + 154)) pt.
Proof using Hf Hfl Hc Hsg Hpt Ha Hbp Hsp Hd1 Hd2.
  rewrite saved_memory_stores. cbv zeta. unfold read_context, CONTEXT_SIZE in *.
  assert (in_range 64 (bp + 8)) by (unfold in_range; lia).
  f_equal; repeat (rewrite load_store_ne by lia); try reflexivity; rewrite load_store;
    change (8 * Z.of_nat 8) with 64; change (8 * Z.of_nat 2) with 16; rewrite ?low16_wrap; apply wrap_small; auto using word_range.
Qed.

Lemma saved_memory_other b :
  (b < a ∨ a + CONTEXT_SIZE ≤ b) → (b < sp - 8 ∨ sp ≤ b) → mem_read after b = mem_read m b.
Proof using Hfl Ha Hbp Hsp Hd1 Hd2.
  intros Hb Hb'. rewrite saved_memory_stores. cbv zeta. unfold CONTEXT_SIZE in *. repeat (rewrite store_ne by lia). done.
Qed.
End saved_memory.

(** ** The switch *)

(** The state in which [switch_context] jumps to the second half. *)
Lemma switch_saved s old new :
  call_ok s old new →
  let s9 := run switch_context_save s in
  let sp := regs s RSP in
  context_at s9 new ∧ regs s9 RSP = sp ∧
  read_context (mem s9) old =
    mkCtx (regs s RAX) (regs s RBX) old new (regs s RSI) (regs s RDI) (sp - 8) sp (regs s R8) (regs s R9) (regs s R10) (regs s R11)
      old (regs s R13) (regs s R14) new (load 8 (mem s) sp) (m_rflags s) (m_cs s) (m_ss s)
      (load 2 (mem s) (old + 148)) (load 2 (mem s) (old + 150)) (load 2 (mem s) (old + 152)) (load 2 (mem s) (old + 154)) (m_cr3 s) ∧
  (∀ b, (b < old ∨ old + CONTEXT_SIZE ≤ b) → (b < sp - 48 ∨ sp ≤ b) → mem_read (mem s9) b = mem_read (mem s) b) ∧
  m_cr3 s9 = m_cr3 s.
Proof.
  intros Hok s9 sp. unfold s9, switch_context_save. clear s9. rewrite run_code_app.
  generalize (prologue_run s old new Hok). cbv zeta. fold sp. generalize (run prologue s).
  intros s1 (P1 & P2 & P3 & P4 & P5 & P6 & P7 & P8 & P9 & P10 & _ & _ & P13). rewrite app_assoc, app_assoc, app_assoc, run_code_app, <- !app_assoc.
  generalize (save_run s1). cbv zeta. rewrite P3, P1, P2, P8, P9, P10, P13.
  match goal with |- context [run ?c s1] => generalize (run c s1) end.
  intros s2 (S1 & S2 & _ & _ & _ & _ & _ & S8). destruct Hok as [Ho Hn Hr Hfl Hcs Hss Hcr [Ho0 Ho1] [Hn0 Hn1] [Hs0 Hs1] Hao Han Hap]. fold sp in Hs0, Hs1, Hao, Han.
  assert (∀ r, in_range 64 (regs s1 r)) as Hr1.
  { intros r. destruct (decide (r ∈ [RBP; RSP; R12; R15])) as [Hin|Hni]; [|by rewrite P5].
    unfold in_range, CONTEXT_SIZE in *. set_unfold in Hin. destruct Hin as [->|[->|[->|[->|[]]]]]; lia. }
  assert (0 ≤ old ∧ old + CONTEXT_SIZE < 2 ^ 64) as HA by done. assert (0 ≤ sp - 8 ∧ sp - 8 + 16 < 2 ^ 64) as HB by lia.
  assert (8 ≤ sp - 40 < 2 ^ 64) as HC by lia. assert (old + CONTEXT_SIZE ≤ sp - 8 + 8 ∨ sp - 8 + 16 ≤ old) as HD by lia.
  assert (old + CONTEXT_SIZE ≤ sp - 40 - 8 ∨ sp - 40 ≤ old) as HE by lia.
  pose proof (saved_context (mem s1) (regs s1) _ _ _ _ old (sp - 8) (sp - 40) Hr1 Hfl Hcs Hss Hcr HA HB HC HD HE) as Hctx.
  pose proof (saved_memory_other (mem s1) (regs s1) _ (m_cs s) (m_ss s) (m_cr3 s) old (sp - 8) (sp - 40) Hfl HA HB HC HD HE) as Hoth.
  rewrite <- S1 in Hctx, Hoth.
  assert (load 8 (mem s2) (sp - 8) = regs s RBP) as Hbp.
  { rewrite <- P6. apply load_ext. intros b Hb. apply Hoth; unfold CONTEXT_SIZE in *; lia. }
  cbn [run foldl step pop_val set_reg regs mem m_cr3]. 
  assert (regs s2 RBP = sp - 8) as Erb by (by rewrite S2). assert (regs s2 R15 = new) as Er by (by rewrite S2).
  rewrite !upd_eq. rewrite Erb. replace (sp - 8 + 8) with sp by lia. rewrite !(wrap_small 64 sp) by (unfold in_range; lia).
  split_and!.
  - split; cbn [regs set_reg]; rewrite ?(upd_ne _ RBP R15), ?(upd_ne _ RSP R15), ?(upd_ne _ RBP RSP), ?upd_eq by done; [done|done|done|lia|lia].
  - rewrite (upd_ne _ RBP RSP), upd_eq by done. done.
  - rewrite Hctx, P1, P3, P4. rewrite !P5 by (reg_in). rewrite Ho, Hn. replace (sp - 8 + 8) with sp by lia.
    assert (∀ n b, (b + Z.of_nat n ≤ sp - 40 ∨ sp ≤ b) → load n (mem s1) b = load n (mem s) b) as L.
    { intros n b Hb. apply load_ext. intros b' Hb'. apply P7. lia. }
    rewrite !L by (unfold CONTEXT_SIZE in *; lia). done.
  - intros b Hb Hb'. rewrite Hoth by lia. apply P7. lia.
  - by rewrite S8.
Qed.

(** C34. [switch_context(old, new)] stores the running thread into [old] - the
    registers, the return address, the flags and the page table; but [rbp] and
    [rsp] are those of the routine's own frame and [r12] and [r15] its two
    arguments, which it has overwritten by then - and continues with the
    registers, address, stack, selectors and flags of [new], in [new]'s page
    table if it names one; a user context's flags are sanitised on the way. *)
Theorem switch_context_correct s old new :
  call_ok s old new →
  let s' := switch_context s in
  let sp := regs s RSP in
  let to := read_context (mem s) new in
  read_context (mem s') old =
    mkCtx (regs s RAX) (regs s RBX) old new (regs s RSI) (regs s RDI) (sp - 8) sp (regs s R8) (regs s R9) (regs s R10) (regs s R11)
      old (regs s R13) (regs s R14) new (load 8 (mem s) sp) (m_rflags s) (m_cs s) (m_ss s)
      (load 2 (mem s) (old + 148)) (load 2 (mem s) (old + 150)) (load 2 (mem s) (old + 152)) (load 2 (mem s) (old + 154)) (m_cr3 s) ∧
  in_context (entered to) s' ∧ m_cr3 s' = (if cr3 to =? 0 then m_cr3 s else cr3 to).
Proof.
  intros Hok s' sp to. destruct (switch_saved s old new Hok) as (Hc & Hsp & Hold & Hmem & Hcr). unfold s', switch_context.
  generalize dependent (run switch_context_save s). intros s9 Hc Hsp Hold Hmem Hcr. fold sp in Hsp, Hmem, Hold.
  destruct Hok as [_ _ _ _ _ _ _ [Ho0 Ho1] [Hn0 Hn1] [Hs0 Hs1] Hao Han Hap]. fold sp in Hs0, Hs1, Hao, Han.
  destruct (continued s9 new Hc) as (C1 & C2 & _ & _ & C5).
  assert (read_context (mem s9) new = to) as E.
  { apply read_context_ext. intros b Hb. apply Hmem; unfold CONTEXT_SIZE in *; lia. }
  rewrite E in C1, C2. split; [|split; [done|by rewrite C2, Hcr]].
  rewrite <- Hold. apply read_context_ext. intros b Hb. apply C5; rewrite ?Hsp; unfold CONTEXT_SIZE in *; lia.
Qed.

(** C35. A kernel thread that [switch_context] has switched away from does not come
    back as from a call: when another thread switches to its saved context, it
    continues at the return address with [rbx], [rsi], [rdi], [r13] and [r14]
    kept, but with the return address still on its stack, [rbp] inside the
    routine's frame, and the two context pointers in [r12] and [r15] - registers
    the calling convention says the routine preserves. *)
Theorem resumed_thread_is_clobbered s old new t :
  call_ok s old new → Z.land (m_cs s) 3 = 0 →
  (∀ b, old ≤ b < old + CONTEXT_SIZE → mem_read (mem t) b = mem_read (mem (switch_context s)) b) →
  regs t RCX = old → 40 ≤ regs t RSP < 2 ^ 64 → old + CONTEXT_SIZE ≤ regs t RSP - 40 ∨ regs t RSP ≤ old →
  let u := switch_to_context t in
  m_rip u = load 8 (mem s) (regs s RSP) ∧ m_rflags u = m_rflags s ∧ m_cs u = m_cs s ∧ m_ss u = m_ss s ∧
  (∀ r, r ∈ [RAX; RBX; RSI; RDI; R8; R9; R10; R11; R13; R14] → regs u r = regs s r) ∧
  regs u RSP = regs s RSP ∧ regs u RBP = regs s RSP - 8 ∧ regs u R12 = old ∧ regs u R15 = new.
Proof.
  intros Hok Hk Hkeep Hrcx Hsp Hd u. destruct (switch_saved s old new Hok) as (Hc & Hs & Hold & Hmem & _).
  assert (read_context (mem t) old = read_context (mem (run switch_context_save s)) old) as E.
  { rewrite (read_context_ext _ _ _ Hkeep). unfold switch_context. 
    generalize dependent (run switch_context_save s). intros s9 Hc Hs Hold Hmem.
    destruct (continued s9 new Hc) as (_ & _ & _ & _ & C5). destruct Hok as [_ _ _ _ _ _ _ ? ? ? Hao Han Hap].
    apply read_context_ext. intros b Hb. apply C5; rewrite ?Hs; unfold CONTEXT_SIZE in *; lia. }
  rewrite Hold in E. assert (context_at (run [Mov R15 RCX] t) old) as Hct.
  { destruct Hok. split; cbn; rewrite ?upd_eq, ?(upd_ne _ R15 RSP) by done; lia. }
  destruct (continued _ _ Hct) as ((C1 & C2 & C3 & C4 & C5) & _). change (mem (run [Mov R15 RCX] t)) with (mem t) in *.
  rewrite E in *. unfold entered in *. cbn [cs] in *. rewrite Hk in *. cbn [Z.eqb ctx_reg rip rflags cs ss] in *.
  change (switch_to_context_internal (run [Mov R15 RCX] t)) with u in *. clearbody u.
  split_and!; [done..| |exact (C1 RSP)|exact (C1 RBP)|exact (C1 R12)|exact (C1 R15)].
  intros r Hr. rewrite C1. set_unfold in Hr. destruct_or!; subst; done.
Qed.

(** A thread in the kernel switches to a user context. *)
Definition demo_call : Mach :=
  mkMach (λ r, match r with RCX => 0x10000 | RDX => 0x20000 | RSP => 0x8000 | RBP => 0x8100 | R12 => 12 | R15 => 15 | _ => 7 end)
    (store 8 (store 8 (store 2 ∅ (0x20000 + 144) 0x1B) (0x20000 + 128) 0x401000) 0x8000 0x123456) 0x246 0x08 0x10 0x10 0x10 0x1000 0.

Lemma demo_call_ok : call_ok demo_call 0x10000 0x20000.
Proof. split; try (intros []); unfold in_range, CONTEXT_SIZE; cbn; lia. Qed.

Lemma switch_context_correct_witness :
  m_rip (switch_context demo_call) = 0x401000 ∧ rip (read_context (mem (switch_context demo_call)) 0x10000) = 0x123456.
Proof.
  destruct (switch_context_correct demo_call 0x10000 0x20000 demo_call_ok) as (H1 & H2 & _). rewrite H1.
  split; [|vm_compute; reflexivity]. destruct H2 as (_ & H2 & _). etransitivity; [exact H2|]. vm_compute. reflexivity.
Defined.

(** Later another thread switches back. *)
Definition demo_back (m : Memory) : Mach :=
  mkMach (λ r, match r with RCX => 0x10000 | RSP => 0x6000 | _ => 1 end) m 0x202 0x08 0x10 0x10 0x10 0x1000 0.

Lemma resumed_thread_is_clobbered_witness :
  let u := switch_to_context (demo_back (mem (switch_context demo_call))) in
  m_rip u = 0x123456 ∧ regs u RBX = 7 ∧ regs u RSP = 0x8000 ∧ regs u RBP = 0x7FF8 ∧ regs u R12 = 0x10000 ∧ regs u R15 = 0x20000.
Proof.
  pose proof (resumed_thread_is_clobbered demo_call 0x10000 0x20000) as H.
  generalize dependent (switch_context demo_call). intros s' H.
  specialize (H (demo_back (mem s')) demo_call_ok eq_refl (λ b _, eq_refl) eq_refl ltac:(cbn; lia) ltac:(right; cbn; lia)).
  revert H. generalize (switch_to_context (demo_back (mem s'))). intros u (H1 & _ & _ & _ & H2 & H3 & H4 & H5 & H6).
  split_and!; [rewrite H1; vm_compute; reflexivity|apply H2; set_solver|exact H3|exact H4|exact H5|exact H6].
Defined.
