(* ===== verification/Console.v ===== *)
(** * Console and log

    [vga.rs], [serial.rs], [log.rs], [util.rs] and [build_info.rs]: the text
    screen, the serial port, the kernel log that writes to both, and the state
    of the interrupt flag around them.  Format arguments are the bytes they
    render to; the screen is a map from cell numbers to 16-bit cells; the serial
    port's registers are an interface. *)

From S2P Require Import Prelude.

Definition text (s : string) : list Z := (λ c, Z.of_N (Ascii.N_of_ascii c)) <$> String.list_ascii_of_string s.

(** ** [vga.rs] *)

Definition VGA_WIDTH : Z := 80.
Definition VGA_HEIGHT : Z := 25.

Inductive VgaColor :=
| Black | Blue | Green | Cyan | Red | Magenta | Brown | LightGray
| DarkGray | LightBlue | LightGreen | LightCyan | LightRed | Pink | Yellow | White.

Definition color_value (c : VgaColor) : Z :=
  match c with
  | Black => 0 | Blue => 1 | Green => 2 | Cyan => 3 | Red => 4 | Magenta => 5 | Brown => 6 | LightGray => 7
  | DarkGray => 8 | LightBlue => 9 | LightGreen => 10 | LightCyan => 11 | LightRed => 12 | Pink => 13 | Yellow => 14 | White => 15
  end.

Definition make_color (fg bg : VgaColor) : Z := Z.lor (wrap8 (Z.shiftl (color_value bg) 4)) (color_value fg).
Definition make_vga_entry (c color : Z) : Z := Z.lor (wrap16 (Z.shiftl color 8)) c.

Record VgaWriter := mkVgaWriter { v_row : Z; v_col : Z; v_fg : VgaColor; v_bg : VgaColor }.

Definition VgaWriter_new : VgaWriter := mkVgaWriter 0 0 White Black.

Definition set_color (w : VgaWriter) (fg bg : VgaColor) : VgaWriter := mkVgaWriter (v_row w) (v_col w) fg bg.

(** The cells from [0xB8000]; [write_volatile] at [VGA_BUFFER.add(i)]. *)
Definition cell (m : Memory) (i : Z) : Z := mem_read m i.
Definition put_cell (m : Memory) (i v : Z) : Memory := mem_write m i v.

Definition blank (w : VgaWriter) : Z := make_vga_entry 32 (make_color (v_fg w) (v_bg w)).

Definition clear_screen (w : VgaWriter) (m : Memory) : VgaWriter * Memory :=
  let m := foldl (λ m i, put_cell m i (blank w)) m (seqZ 0 (VGA_WIDTH * VGA_HEIGHT)) in
  (mkVgaWriter 0 0 (v_fg w) (v_bg w), m).

Definition scroll (w : VgaWriter) (m : Memory) : Memory :=
  let m := foldl (λ m row, foldl (λ m col,
      let src := row * VGA_WIDTH + col in
      let dst := (row - 1) * VGA_WIDTH + col in
      put_cell m dst (cell m src)) m (seqZ 0 VGA_WIDTH)) m (seqZ 1 (VGA_HEIGHT - 1)) in
  foldl (λ m col, put_cell m ((VGA_HEIGHT - 1) * VGA_WIDTH + col) (blank w)) m (seqZ 0 VGA_WIDTH).

Definition new_line (w : VgaWriter) (m : Memory) : VgaWriter * Memory :=
  let w := mkVgaWriter (v_row w + 1) 0 (v_fg w) (v_bg w) in
  if VGA_HEIGHT <=? v_row w then (mkVgaWriter (VGA_HEIGHT - 1) (v_col w) (v_fg w) (v_bg w), scroll w m) else (w, m).

Definition vga_write_byte (w : VgaWriter) (m : Memory) (byte : Z) : VgaWriter * Memory :=
  if byte =? 10 then new_line w m
  else if byte =? 13 then (mkVgaWriter (v_row w) 0 (v_fg w) (v_bg w), m)
  else
    let '(w, m) := if VGA_WIDTH <=? v_col w then new_line w m else (w, m) in
    let color := make_color (v_fg w) (v_bg w) in
    let offset := v_row w * VGA_WIDTH + v_col w in
    (mkVgaWriter (v_row w) (v_col w + 1) (v_fg w) (v_bg w), put_cell m offset (make_vga_entry byte color)).

(** The byte that is shown: printable ones, line feed and carriage return as
    they are, a block for the others. *)
Definition shown_byte (byte : Z) : Z :=
  if ((0x20 <=? byte) && (byte <=? 0x7e)) || (byte =? 10) || (byte =? 13) then byte else 0xfe.

Definition vga_write_string (w : VgaWriter) (m : Memory) (s : list Z) : VgaWriter * Memory :=
  foldl (λ '(w, m) byte, vga_write_byte w m (shown_byte byte)) (w, m) s.

(** [enumerate] with [break] at the right edge; the row is not checked. *)
Definition write_string_at (m : Memory) (s : list Z) (row col : Z) (fg bg : VgaColor) : Memory :=
  let color := make_color fg bg in
  let offset := wrap64 (row * VGA_WIDTH + col) in
  foldl (λ m '(i, byte), put_cell m (offset + i) (make_vga_entry byte color)) m
    (take (Z.to_nat (VGA_WIDTH - col)) (zip (seqZ 0 (Z.of_nat (length s))) s)).

(** ** [build_info.rs] *)

Definition KERNEL_NAME : list Z := text "Atom Kernel".
Definition VERSION : list Z := text "0.1.0".
Definition PHASE : list Z := text "6.3".
Definition PHASE_LABEL : list Z := text "Service Manager & Declarative Boot".
Definition BUILD_DATE : list Z := text "2025-12-22".
Definition VERSION_TAG : list Z := KERNEL_NAME ++ text " v" ++ VERSION.
Definition BOOT_BANNER : list Z :=
  KERNEL_NAME ++ text " v" ++ VERSION ++ text " - Phase " ++ PHASE ++ text ": " ++ PHASE_LABEL.

Definition display_boot_message (w : VgaWriter) (m : Memory) : VgaWriter * Memory :=
  let '(w, m) := clear_screen w m in
  let '(w, m) := vga_write_string (set_color w LightCyan Black) m BOOT_BANNER in
  let '(w, m) := vga_write_string w m [10] in
  let '(w, m) := vga_write_string (set_color w DarkGray Black) m (replicate 64 61 ++ [10; 10]) in
  (set_color w White Black, m).

(** ** [serial.rs] *)

Class Uart (D : Type) := {
  inb : D → Z → D * Z;
  outb : D → Z → Z → D;
}.

Definition COM1 : Z := 0x3F8.

Section serial.
Context `{Uart D}.

Definition serial_init (d : D) (base : Z) : D :=
  let d := outb d (base + 1) 0x00 in
  let d := outb d (base + 3) 0x80 in
  let d := outb d (base + 0) 0x03 in
  let d := outb d (base + 1) 0x00 in
  let d := outb d (base + 3) 0x03 in
  let d := outb d (base + 2) 0xC7 in
  let d := outb d (base + 4) 0x0B in
  let d := outb d (base + 4) 0x1E in
  let d := outb d (base + 0) 0xAE in
  let '(d, v) := inb d (base + 0) in
  if negb (v =? 0xAE) then d else outb d (base + 4) 0x0F.

Definition is_transmit_empty (d : D) (base : Z) : D * bool :=
  let '(d, v) := inb d (base + 5) in (d, negb (Z.land v 0x20 =? 0)).

(** The loop waits for the transmitter; [None] after [fuel] polls. *)
Fixpoint serial_write_byte (fuel : nat) (d : D) (base byte : Z) : option D :=
  match fuel with
  | O => None
  | S fuel =>
      let '(d, ready) := is_transmit_empty d base in
      if ready then Some (outb d base byte) else serial_write_byte fuel d base byte
  end.

Fixpoint serial_write_str (fuel : nat) (d : D) (base : Z) (s : list Z) : option D :=
  match s with
  | [] => Some d
  | byte :: s =>
      d ← (if byte =? 10 then serial_write_byte fuel d base 13 else Some d);
      d ← serial_write_byte fuel d base byte;
      serial_write_str fuel d base s
  end.
End serial.

(** ** [log.rs] *)

Inductive LogLevel := Debug | Info | Warn | Error | Panic.

Definition level_value (l : LogLevel) : Z := match l with Debug => 0 | Info => 1 | Warn => 2 | Error => 3 | Panic => 4 end.

Definition as_str (l : LogLevel) : list Z :=
  match l with
  | Debug => text "DEBUG" | Info => text "INFO " | Warn => text "WARN " | Error => text "ERROR" | Panic => text "PANIC"
  end.

Definition level_color (l : LogLevel) : VgaColor :=
  match l with Debug => DarkGray | Info => White | Warn => Yellow | Error => LightRed | Panic => Red end.

(** The state the log works on: the device, the interrupt flag, the two
    settings, the screen and the tick counter. *)
Record Console (D : Type) := mkConsole {
  c_uart : D;
  c_irq : bool;
  c_level : LogLevel;
  c_vga : bool;
  c_writer : VgaWriter;
  c_cells : Memory;
  c_ticks : Z;
}.
Arguments mkConsole {D}. Arguments c_uart {D}. Arguments c_irq {D}. Arguments c_level {D}. Arguments c_vga {D}.
Arguments c_writer {D}. Arguments c_cells {D}. Arguments c_ticks {D}.

Definition format_timestamp (ms : Z) : Z * Z := (ms / 1000, ms mod 1000).

(** [{}] of an unsigned integer, and [{:03}]. *)
Fixpoint decimal_digits (fuel : nat) (n : Z) : list Z :=
  match fuel with
  | O => []
  | S fuel => (if n <? 10 then [] else decimal_digits fuel (n / 10)) ++ [48 + n mod 10]
  end.
Definition show_u64 (n : Z) : list Z := decimal_digits 20 n.
Definition show_03 (n : Z) : list Z := let d := show_u64 n in replicate (3 - length d) 48 ++ d.

Definition log_line (seconds milliseconds : Z) (level : LogLevel) (origin args file : list Z) (line : Z) : list Z :=
  text "[t=" ++ show_u64 seconds ++ text "." ++ show_03 milliseconds ++ text "s] [" ++ as_str level ++ text "] [" ++ origin ++ text "] " ++ args ++
  (match level with
   | Debug => text " (" ++ file ++ text ":" ++ show_u64 line ++ text ")"
   | _ => []
   end) ++ [10].

Section log.
Context `{Uart D}.
Implicit Types (c : Console D).

Definition set_uart c (d : D) := mkConsole d (c_irq c) (c_level c) (c_vga c) (c_writer c) (c_cells c) (c_ticks c).
Definition set_irq c (b : bool) := mkConsole (c_uart c) b (c_level c) (c_vga c) (c_writer c) (c_cells c) (c_ticks c).
Definition set_screen c (x : VgaWriter * Memory) := mkConsole (c_uart c) (c_irq c) (c_level c) (c_vga c) x.1 x.2 (c_ticks c).

(** [cli], the text, [sti]. *)
Definition serial_print (fuel : nat) c (s : list Z) : option (Console D) :=
  let c := set_irq c false in
  d ← serial_write_str fuel (c_uart c) COM1 s;
  let c := set_uart c d in
  Some (set_irq c true).

Definition vga_clear_screen c (bg : VgaColor) : Console D :=
  let c := set_irq c false in
  let c := set_screen c (clear_screen (set_color (c_writer c) White bg) (c_cells c)) in
  set_irq c true.

Definition write_colored c (s : list Z) (fg bg : VgaColor) : Console D :=
  let c := set_irq c false in
  let old_fg := v_fg (c_writer c) in
  let old_bg := v_bg (c_writer c) in
  let '(w, m) := vga_write_string (set_color (c_writer c) fg bg) (c_cells c) s in
  let c := set_screen c (set_color w old_fg old_bg, m) in
  set_irq c true.

Definition write_vga_log c (seconds milliseconds : Z) (level : LogLevel) (origin args file : list Z) (line : Z) : Console D :=
  let c := write_colored c (text "[t=" ++ show_u64 seconds ++ text "." ++ show_03 milliseconds ++ text "s] ") DarkGray Black in
  let c := write_colored c (text "[" ++ as_str level ++ text "] ") (level_color level) Black in
  let c := write_colored c (text "[" ++ origin ++ text "] ") LightBlue Black in
  let '(w, m) := vga_write_string (set_color (c_writer c) White Black) (c_cells c) args in
  let '(w, m) := match level with
    | Debug => vga_write_string w m (text " (" ++ file ++ text ":" ++ show_u64 line ++ text ")")
    | _ => (w, m)
    end in
  set_screen c (vga_write_byte w m 10).

Definition log (fuel : nat) c (level : LogLevel) (origin args file : list Z) (line : Z) : option (Console D) :=
  if level_value level <? level_value (c_level c) then Some c
  else
    let timestamp_ms := wrap64 (c_ticks c * 10) in
    let '(seconds, milliseconds) := format_timestamp timestamp_ms in
    c ← serial_print fuel c (log_line seconds milliseconds level origin args file line);
    if c_vga c then Some (write_vga_log c seconds milliseconds level origin args file line) else Some c.

Definition set_level c (l : LogLevel) : Console D := mkConsole (c_uart c) (c_irq c) l (c_vga c) (c_writer c) (c_cells c) (c_ticks c).
Definition log_init c : Console D := set_level c Debug.
Definition set_vga_output c (b : bool) : Console D := mkConsole (c_uart c) (c_irq c) (c_level c) b (c_writer c) (c_cells c) (c_ticks c).

(** ** [util.rs] *)

(** [pushfq; pop], [cli], the closure, and [sti] if the flag was set. *)
Definition without_interrupts {R} (f : Console D → option (Console D * R)) c : option (Console D * R) :=
  let saved := c_irq c in
  let c := set_irq c false in
  '(c, result) ← f c;
  Some (if saved then set_irq c true else c, result).
End log.
