(* ===== verification/ConsoleSafety.v ===== *)
(** * Properties of the console

    The screen is a window on a roll of paper: scrolling never loses a line
    that is in the window, and nothing is written outside the 80 by 25 cells.
    The log reaches the serial port, and leaves interrupts enabled. *)

From S2P Require Import Prelude Console.

(** ** The roll of paper *)







Definition on_screen (i : Z) : Prop := 0 ≤ i < 2000.

(** Nothing outside the screen has changed. *)
Definition confined (m m' : Memory) : Prop := ∀ i, ¬ on_screen i → cell m' i = cell m i.

#[export] Instance confined_preorder : PreOrder confined.
Proof. split; [by intros m i|]. intros a b c H1 H2 i Hi. by rewrite H2, H1. Qed.

Lemma cell_put m i v j : cell (put_cell m i v) j = if decide (i = j) then v else cell m j.
Proof.
  unfold cell, put_cell. case_decide; [subst; apply mem_read_write|by apply mem_read_write_ne].
Qed.

Lemma confined_put m i v : on_screen i → confined m (put_cell m i v).
Proof. intros Hi j Hj. rewrite cell_put. by rewrite decide_False by (intros ->; done). Qed.

(** ** Loops over cells *)





Lemma foldl_same {A B} (f g : A → B → A) l a : (∀ a x, f a x = g a x) → foldl f a l = foldl g a l.
Proof. intros E. revert a. induction l as [|x l IH]; intros a; [done|]. cbn. by rewrite E, IH. Qed.



(** ** Each operation *)





(** ** The screen *)








Lemma string_at_shape m s row col fg bg :
  write_string_at m s row col fg bg =
    foldl (λ m x, put_cell m (wrap64 (row * 80 + col) + x.1) (make_vga_entry x.2 (make_color fg bg))) m
      (take (Z.to_nat (80 - col)) (zip (seqZ 0 (Z.of_nat (length s))) s)).
Proof. unfold write_string_at. apply foldl_same. intros m' [i b]. reflexivity. Qed.

(** [write_string_at] checks the column only: a text placed on one of the 25
    rows stays on the screen, but on any further row its first character is
    already written past the end of the screen's memory. *)
Theorem string_at_row_unchecked m s row col fg bg :
  0 ≤ col < 80 → 0 ≤ row < 2 ^ 56 →
  (row < 25 → confined m (write_string_at m s row col fg bg)) ∧
  (25 ≤ row → ∀ b, s = [b] → ¬ on_screen (row * 80 + col) ∧
     cell (write_string_at m s row col fg bg) (row * 80 + col) = make_vga_entry b (make_color fg bg)).
Proof.
  intros Hc Hr. rewrite string_at_shape, wrap_small by (unfold in_range; lia). split.
  - intros Hlt. apply (foldl_preserves (confined m)); [reflexivity|]. intros m' [i b] Hin Hm. etransitivity; [exact Hm|].
    apply confined_put. apply list_elem_of_lookup in Hin as [k Hk]. apply lookup_take_Some in Hk as [Hk Hlt'].
    apply lookup_zip_with_Some in Hk as (i' & b' & [= -> ->] & Hi & _). apply lookup_seqZ in Hi as [-> _].
    unfold on_screen. cbn [fst]. lia.
  - intros Hge b ->. split; [unfold on_screen; lia|]. replace (Z.to_nat (80 - col)) with (S (Z.to_nat (79 - col))) by lia.
    change (zip (seqZ 0 (Z.of_nat (length [b]))) [b]) with [(0, b)]. cbn [take foldl fst snd].
    rewrite ?take_nil. cbn [foldl]. rewrite cell_put, decide_True by lia. done.
Qed.

(** ** The serial port *)

(** What the driver relies on of the UART: reading a register transmits
    nothing, the transmitter is empty after at most [patience] polls of the line
    status register, and a byte written to the data register is sent. *)
Class UartLaws (D : Type) `{Uart D} (sent : D → list Z) (patience : nat) := {
  uart_in d port : sent (inb d port).1 = sent d;
  uart_ready d : ∃ k, (k < patience)%nat ∧
    (is_transmit_empty (Nat.iter k (λ d, (is_transmit_empty d COM1).1) d) COM1).2 = true;
  uart_out d b : sent (outb d COM1 b) = sent d ++ [b];
}.

(** Line feeds become carriage return and line feed. *)
Definition crlf (s : list Z) : list Z := mjoin ((λ b, if b =? 10 then [13; 10] else [b]) <$> s).

Section serial.
Context `{UartLaws D sent patience}.

Lemma sent_poll d : sent (is_transmit_empty d COM1).1 = sent d.
Proof using All. unfold is_transmit_empty. pose proof (uart_in d (COM1 + 5)) as E. destruct (inb d (COM1 + 5)). exact E. Qed.

Lemma write_byte_ready k fuel d b :
  (k < fuel)%nat → (is_transmit_empty (Nat.iter k (λ d, (is_transmit_empty d COM1).1) d) COM1).2 = true →
  ∃ d', serial_write_byte fuel d COM1 b = Some d' ∧ sent d' = sent d ++ [b].
Proof using All.
  revert fuel d. induction k as [|k IH]; intros [|fuel] d Hk Hr; try lia.
  - cbn in Hr. cbn [serial_write_byte]. pose proof (sent_poll d) as Es. destruct (is_transmit_empty d COM1) as [d1 r]. cbn [snd fst] in *. subst r.
    eexists. split; [done|]. by rewrite uart_out, Es.
  - cbn [serial_write_byte]. rewrite Nat.iter_succ_r in Hr. pose proof (sent_poll d) as Es.
    destruct (is_transmit_empty d COM1) as [d1 []]; cbn [snd fst] in *.
    + eexists. split; [done|]. by rewrite uart_out, Es.
    + destruct (IH fuel d1) as (d' & E1 & E2); [lia|done|]. exists d'. split; [done|]. by rewrite E2, Es.
Qed.

Lemma write_byte_sends fuel d b :
  (patience ≤ fuel)%nat → ∃ d', serial_write_byte fuel d COM1 b = Some d' ∧ sent d' = sent d ++ [b].
Proof using All. intros Hf. destruct (uart_ready d) as (k & Hk & Hr). apply (write_byte_ready k); [lia|done]. Qed.

Lemma write_str_sends fuel d s :
  (patience ≤ fuel)%nat → ∃ d', serial_write_str fuel d COM1 s = Some d' ∧ sent d' = sent d ++ crlf s.
Proof using All.
  intros Hf. revert d. induction s as [|b s IH]; intros d; cbn [serial_write_str].
  - exists d. split; [done|]. unfold crlf. cbn. by rewrite app_nil_r.
  - change (crlf (b :: s)) with ((if b =? 10 then [13; 10] else [b]) ++ crlf s). destruct (Z.eqb_spec b 10) as [->|].
    + destruct (write_byte_sends fuel d 13 Hf) as (d1 & E1 & S1). rewrite E1. cbn [mbind option_bind].
      destruct (write_byte_sends fuel d1 10 Hf) as (d2 & E2 & S2). rewrite E2. cbn [mbind option_bind].
      destruct (IH d2) as (d3 & E3 & S3). exists d3. split; [done|]. rewrite S3, S2, S1. by rewrite <- !app_assoc.
    + cbn [mbind option_bind]. destruct (write_byte_sends fuel d b Hf) as (d2 & E2 & S2). rewrite E2. cbn [mbind option_bind].
      destruct (IH d2) as (d3 & E3 & S3). exists d3. split; [done|]. by rewrite S3, S2, <- app_assoc.
Qed.

(** ** The log *)

Definition line_of (c : Console D) (level : LogLevel) (origin args file : list Z) (line : Z) : list Z :=
  let '(s, ms) := format_timestamp (wrap64 (c_ticks c * 10)) in log_line s ms level origin args file line.

Lemma write_vga_log_sent (c : Console D) s ms level origin args file line :
  c_uart (write_vga_log c s ms level origin args file line) = c_uart c ∧ c_irq (write_vga_log c s ms level origin args file line) = true.
Proof using Type.
  unfold write_vga_log, write_colored.
  repeat match goal with |- context [vga_write_string ?w ?m ?x] => destruct (vga_write_string w m x) end.
  destruct level; cbn; try done.
Qed.

(** A message at or above the current level is written to the serial port as
    one line - time stamp, level, origin, text, and the source position for the
    debug level - with carriage returns added, whatever the screen does; one
    below the level writes nothing.  Waiting for the transmitter ends. *)
Theorem log_reaches_serial fuel (c : Console D) level origin args file line :
  (patience ≤ fuel)%nat →
  ∃ c', log fuel c level origin args file line = Some c' ∧
    sent (c_uart c') = sent (c_uart c) ++
      (if level_value level <? level_value (c_level c) then [] else crlf (line_of c level origin args file line)).
Proof using All.
  intros Hf. unfold log, line_of. destruct (level_value level <? level_value (c_level c)); [exists c; split; [done|by rewrite app_nil_r]|].
  destruct (format_timestamp (wrap64 (c_ticks c * 10))) as [s ms]. unfold serial_print. cbn [set_irq c_uart].
  destruct (write_str_sends fuel (c_uart c) (log_line s ms level origin args file line) Hf) as (d & -> & Hd). cbn [mbind option_bind].
  set (c1 := set_irq _ _). assert (c_uart c1 = d) as Ed by done. destruct (c_vga c1).
  - eexists. split; [done|]. by rewrite (proj1 (write_vga_log_sent _ _ _ _ _ _ _ _)), Ed.
  - eexists. split; [done|]. by rewrite Ed.
Qed.

(** Logging inside a critical section ends it: with interrupts disabled by
    [without_interrupts], or by the processor in an interrupt handler, any
    message that is not filtered returns with interrupts enabled, because the
    serial port's printer executes [sti] whatever the flag was. *)
Theorem log_enables_interrupts fuel (c : Console D) level origin args file line :
  (patience ≤ fuel)%nat → level_value (c_level c) ≤ level_value level → c_irq c = false →
  ∃ c', without_interrupts (λ c, c ← log fuel c level origin args file line; Some (c, c_irq c)) c = Some (c', true) ∧ c_irq c' = true.
Proof using All.
  intros Hf Hl Hi. unfold without_interrupts. rewrite Hi. unfold log. cbn [c_level set_irq c_ticks]. rewrite (proj2 (Z.ltb_ge _ _)) by done.
  destruct (format_timestamp (wrap64 (c_ticks c * 10))) as [s ms]. unfold serial_print. cbn [set_irq c_uart].
  destruct (write_str_sends fuel (c_uart c) (log_line s ms level origin args file line) Hf) as (d & -> & Hd). cbn [mbind option_bind].
  set (c1 := set_irq _ _). assert (c_irq c1 = true) as Ei by done. destruct (c_vga c1); cbn [mbind option_bind].
  - rewrite (proj2 (write_vga_log_sent _ _ _ _ _ _ _ _)). eexists. split; [done|]. apply write_vga_log_sent.
  - rewrite Ei. by eexists.
Qed.
End serial.

(** A UART that is busy for one poll after each byte. *)
Record DemoUart := mkDemoUart { du_busy : bool; du_sent : list Z }.

#[export] Instance demo_uart : Uart DemoUart := {
  inb d port :=
    if port =? COM1 + 5 then (mkDemoUart false (du_sent d), if du_busy d then 0 else 0x60) else (d, 0);
  outb d port v := if port =? COM1 then mkDemoUart true (du_sent d ++ [v]) else d;
}.

#[export] Instance demo_uart_laws : UartLaws DemoUart du_sent 2.
Proof.
  split.
  - intros d port. cbn. by case_match.
  - intros [[] s]; [exists 1%nat|exists 0%nat]; split; done || lia.
  - done.
Qed.

Definition demo_console : Console DemoUart :=
  mkConsole (mkDemoUart false []) false Info false VgaWriter_new ∅ 1234.

Lemma log_reaches_serial_witness :
  ∃ c', log 2 demo_console Warn (text "ipc") (text "queue full") (text "ipc.rs") 7 = Some c' ∧
    du_sent (c_uart c') = text "[t=12.340s] [WARN ] [ipc] queue full" ++ [13; 10].
Proof.
  destruct (log_reaches_serial 2 demo_console Warn (text "ipc") (text "queue full") (text "ipc.rs") 7) as (c' & H1 & H2); [lia|].
  exists c'. split; [exact H1|]. rewrite H2. vm_compute. reflexivity.
Defined.

Lemma log_enables_interrupts_witness :
  ∃ c', without_interrupts (λ c, c ← log 2 c Info (text "sched") (text "switch") (text "sched.rs") 1; Some (c, c_irq c)) demo_console
    = Some (c', true) ∧ c_irq c' = true.
Proof. apply (log_enables_interrupts 2 demo_console Info); [lia|vm_compute; discriminate|reflexivity]. Defined.

Lemma string_at_row_unchecked_witness :
  ¬ on_screen 2400 ∧ cell (write_string_at ∅ [65] 30 0 White Black) 2400 = 0x0F41.
Proof.
  destruct (string_at_row_unchecked ∅ [65] 30 0 White Black) as [_ H]; [lia|lia|].
  destruct (H ltac:(lia) 65 eq_refl) as [H1 H2]. split; [exact H1|exact H2].
Defined.
