(* ===== verification/Boot.v ===== *)
(** * From the firmware to the kernel

    [arch/x86_64/boot.asm], [arch/x86_64/uefi.rs], [boot.rs] and [system.rs]:
    the entry shim, the loop that fetches the memory map and leaves the boot
    services, and the data handed to the kernel.  The firmware's services are an
    interface; the calls made to them are logged. *)

From S2P Require Import Prelude Exec X86 Pmm Vm Graphics LibIpc.

(** ** [boot.asm] *)

Definition BOOT_STACK_BYTES : Z := 262144.

(** [lea rsp, [stack_top - 8]; sub rsp, 0x20], up to the call of [efi_main]. *)
Definition efi_entry (stack_top : Z) (s : Mach) : Mach :=
  run [SubI RSP 0x20] (set_reg s RSP (wrap64 (stack_top - 8))).

(** ** [boot.rs] *)

Record MemoryMap := mkMemoryMap { mm_buffer : Z; mm_size : Z; mm_descriptor_size : Z }.

Record MemoryMapIter := mkIter { it_buffer : Z; it_size : Z; it_descriptor_size : Z; it_offset : Z }.

Definition iter (mm : MemoryMap) : MemoryMapIter := mkIter (mm_buffer mm) (mm_size mm) (mm_descriptor_size mm) 0.

(** [next]: the address of the descriptor. *)
Definition iter_next (it : MemoryMapIter) : option (Z * MemoryMapIter) :=
  if it_size it <=? it_offset it then None
  else Some (it_buffer it + it_offset it,
             mkIter (it_buffer it) (it_size it) (it_descriptor_size it) (wrap64 (it_offset it + it_descriptor_size it))).

(** The addresses a [for] loop visits; [None] if it has not ended. *)
Fixpoint iter_all (fuel : nat) (it : MemoryMapIter) : option (list Z) :=
  match fuel with
  | O => None
  | S fuel =>
      match iter_next it with
      | None => Some []
      | Some (a, it) => l ← iter_all fuel it; Some (a :: l)
      end
  end.

Record EfiMemoryDescriptor := mkEfiDesc {
  d_typ : Z; d_pad : Z; d_physical_start : Z; d_virtual_start : Z; d_number_of_pages : Z; d_attribute : Z;
}.

(** [size_of::<EfiMemoryDescriptor>()] *)
Definition EFI_DESCRIPTOR_SIZE : Z := 40.

Definition read_descriptor (m : Memory) (a : Z) : EfiMemoryDescriptor :=
  mkEfiDesc (load 4 m a) (load 4 m (a + 4)) (load 8 m (a + 8)) (load 8 m (a + 16)) (load 8 m (a + 24)) (load 8 m (a + 32)).

(** A descriptor as the memory managers use it. *)
Definition as_efi (d : EfiMemoryDescriptor) : EfiDescriptor :=
  mkEfi (mkDesc (d_typ d) (d_physical_start d) (d_number_of_pages d)) (d_attribute d).

Definition descriptors (fuel : nat) (m : Memory) (mm : MemoryMap) : option (list EfiDescriptor) :=
  option_map (map (λ a, as_efi (read_descriptor m a))) (iter_all fuel (iter mm)).

(** [display_uefi_memory_map] of [kernel.rs]: the megabytes it reports. *)
Definition usable_ram_mb (ds : list MemoryDescriptor) : Z :=
  foldl (λ c d, if typ d =? 7 then wrap64 (c + wrap64 (number_of_pages d * 4096)) else c) 0 ds / (1024 * 1024).

Definition ExecutableImage_empty : ExecutableImage := mkImage 0 0.

Inductive BootMethod := Uefi | Legacy.
Inductive CpuArchitecture := X86_64 | AArch64 | UnknownArchitecture.

Record CpuInfo := mkCpuInfo { vendor : list Z; brand : list Z; architecture : CpuArchitecture }.

(** The framebuffer is the part of [FramebufferInfo] that [graphics.rs] uses. *)
Record BootInfo := mkBootInfo {
  memory_map : MemoryMap;
  framebuffer : option FramebufferInfo;
  verbose : bool;
  boot_method : BootMethod;
  cpu : CpuInfo;
  init_payload : ExecutableImage;
}.

(** ** [system.rs] *)

(** [rposition(|b| b != 0)], one past it, or 0. *)
Fixpoint trimmed_length (bytes : list Z) : nat :=
  match bytes with
  | [] => 0
  | b :: bytes => let n := trimmed_length bytes in if (0 <? n)%nat then S n else if b =? 0 then 0%nat else 1%nat
  end.

Definition trim_nulls (from_utf8 : list Z → bool) (bytes : list Z) : list Z :=
  let s := take (trimmed_length bytes) bytes in if from_utf8 s then s else [].

(** [Once]: the first value stays. *)
Definition system_init (info : option (CpuInfo * BootMethod)) (c : CpuInfo) (b : BootMethod) : option (CpuInfo * BootMethod) :=
  match info with Some i => Some i | None => Some (c, b) end.

(** ** [uefi.rs] *)

Definition EFI_SUCCESS : Z := 0.
Definition EFI_BUFFER_TOO_SMALL : Z := 0x8000000000000005.
Definition EFI_INVALID_PARAMETER : Z := 0x8000000000000002.

Section cpuid.
(** [cpuid] at a leaf: [eax], [ebx], [ecx], [edx]. *)
Context (cpuid : Z → Z * Z * Z * Z).

Definition get_cpu_vendor : list Z :=
  let '(_, ebx, ecx, edx) := cpuid 0 in le_bytes 4 ebx ++ le_bytes 4 edx ++ le_bytes 4 ecx.

Definition get_cpu_brand : list Z :=
  mjoin ((λ i, let '(eax, ebx, ecx, edx) := cpuid (0x80000002 + i) in
    le_bytes 4 eax ++ le_bytes 4 ebx ++ le_bytes 4 ecx ++ le_bytes 4 edx) <$> seqZ 0 3).

Definition cpu_info : CpuInfo := mkCpuInfo get_cpu_vendor get_cpu_brand X86_64.
End cpuid.

(** The graphics protocol as the firmware exposes it; each pointer can be null. *)
Record GopModeInfo := mkGopModeInfo { horizontal_resolution : Z; vertical_resolution : Z; gop_pixel_format : Z; gop_pixels_per_scan_line : Z }.
Record GopMode := mkGopMode { gop_info : option GopModeInfo; frame_buffer_base : Z; frame_buffer_size : Z }.

Definition gop_format (v : Z) : PixelFormat :=
  if v =? 0 then PfRgb else if v =? 1 then PfBgr else if v =? 2 then PfBitmask else if v =? 3 then PfBltOnly else PfUnknown.

(** [locate]: the status of [locate_protocol] was success and the interface is
    not null; then its mode pointer. *)
Definition setup_framebuffer (locate : option (option GopMode)) : option FramebufferInfo :=
  match locate with
  | None => None
  | Some None => None
  | Some (Some mode) =>
      match gop_info mode with
      | None => None
      | Some info =>
          match gop_format (gop_pixel_format info) with
          | PfBltOnly => None
          | f => Some (mkFbInfo (frame_buffer_base mode) (frame_buffer_size mode) (horizontal_resolution info)
                   (vertical_resolution info) (gop_pixels_per_scan_line info) f)
          end
      end
  end.

(** The boot services the loop calls.  [get_memory_map] takes the size the
    caller says its buffer has and returns the status, the size it reports, the
    key of the map and the size of a descriptor. *)
Class Firmware (F : Type) := {
  fw_get_memory_map : F → Z → Z → F * (Z * Z * Z * Z);
  fw_allocate_pool : F → Z → F * (Z * Z);
  fw_free_pool : F → Z → F;
  fw_exit_boot_services : F → Z → F * Z;
}.

Inductive fw_event :=
| EvGetMap (declared buf status size key desc : Z)
| EvAlloc (size status ptr : Z)
| EvFree (ptr : Z)
| EvExit (key status : Z).

Inductive boot_outcome :=
| BootReturn (status : Z)
| BootEnter (map : MemoryMap)
| BootAgain.

Section efi.
Context `{Firmware F}.

Record BootState := mkBootState { b_fw : F; b_log : list fw_event; mmap_buf : Z; mmap_buf_size : Z }.

Definition logged (st : BootState) (f : F) (e : fw_event) : BootState :=
  mkBootState f (b_log st ++ [e]) (mmap_buf st) (mmap_buf_size st).

Definition set_buf (st : BootState) (buf size : Z) : BootState := mkBootState (b_fw st) (b_log st) buf size.

Definition get_memory_map (st : BootState) (declared buf : Z) : BootState * (Z * Z * Z * Z) :=
  let '(f, (status, size, key, desc)) := fw_get_memory_map (b_fw st) declared buf in
  (logged st f (EvGetMap declared buf status size key desc), (status, size, key, desc)).

Definition allocate_pool (st : BootState) (size : Z) : BootState * (Z * Z) :=
  let '(f, (status, ptr)) := fw_allocate_pool (b_fw st) size in (logged st f (EvAlloc size status ptr), (status, ptr)).

Definition exit_boot_services (st : BootState) (key : Z) : BootState * Z :=
  let '(f, status) := fw_exit_boot_services (b_fw st) key in (logged st f (EvExit key status), status).

Definition cleanup_pool (st : BootState) : BootState :=
  if negb (mmap_buf st =? 0) then
    set_buf (logged st (fw_free_pool (b_fw st) (mmap_buf st)) (EvFree (mmap_buf st))) 0 (mmap_buf_size st)
  else st.

(** The second half of an iteration, with a buffer. *)
Definition fetch_and_exit (st : BootState) : BootState * boot_outcome :=
  let '(st, (st_map, actual_size, map_key2, desc_size2)) := get_memory_map st (mmap_buf_size st) (mmap_buf st) in
  if st_map =? EFI_BUFFER_TOO_SMALL then
    (set_buf st (mmap_buf st) (saturating_add 64 actual_size (Z.min (desc_size2 * 16) U64_MAX)), BootAgain)
  else if negb (st_map =? EFI_SUCCESS) then (cleanup_pool st, BootReturn st_map)
  else
    let '(st, st_exit) := exit_boot_services st map_key2 in
    if st_exit =? EFI_INVALID_PARAMETER then (st, BootAgain)
    else if negb (st_exit =? EFI_SUCCESS) then (cleanup_pool st, BootReturn st_exit)
    else (st, BootEnter (mkMemoryMap (mmap_buf st) actual_size desc_size2)).

(** One iteration of the loop. *)
Definition boot_round (st : BootState) : BootState * boot_outcome :=
  let '(st, (status, needed_size, _, desc_size)) := get_memory_map st 0 0 in
  if negb (status =? EFI_BUFFER_TOO_SMALL) && negb (status =? EFI_SUCCESS) then (cleanup_pool st, BootReturn status)
  else
    let slack := if negb (desc_size =? 0) then wrap64 (desc_size * 16) else 4096 in
    let alloc_size := saturating_add 64 needed_size slack in
    if (mmap_buf st =? 0) || (mmap_buf_size st <? alloc_size) then
      let st := cleanup_pool st in
      let st := set_buf st (mmap_buf st) alloc_size in
      let '(st, (st_alloc, new_buf)) := allocate_pool st (mmap_buf_size st) in
      if negb (st_alloc =? EFI_SUCCESS) || (new_buf =? 0) then
        (cleanup_pool st, BootReturn (if st_alloc =? EFI_SUCCESS then EFI_INVALID_PARAMETER else st_alloc))
      else fetch_and_exit (set_buf st new_buf (mmap_buf_size st))
    else fetch_and_exit st.

Fixpoint boot_loop (fuel : nat) (st : BootState) : option (BootState * boot_outcome) :=
  match fuel with
  | O => None
  | S fuel => match boot_round st with (st, BootAgain) => boot_loop fuel st | r => Some r end
  end.

(** [efi_main] after the null checks and the watchdog; what it hands to
    [kmain]. *)
Definition efi_main (fuel : nat) (f : F) (cpuid : Z → Z * Z * Z * Z) (locate : option (option GopMode))
    : option (BootState * (Z + BootInfo)) :=
  match boot_loop fuel (mkBootState f [] 0 0) with
  | Some (st, BootReturn status) => Some (st, inl status)
  | Some (st, BootEnter mm) =>
      Some (st, inr (mkBootInfo mm (setup_framebuffer locate) false Uefi (cpu_info cpuid) ExecutableImage_empty))
  | _ => None
  end.
End efi.
Arguments BootState : clear implicits.
