(* ===== verification/BootSafety.v ===== *)
(** * Properties of the boot path

    Iterating over the memory map, the buffer discipline of the handoff loop,
    and the alignment of the first stack. *)

From S2P Require Import Prelude X86 Pmm Vm Graphics Boot.

(** ** The memory map *)



(** A map with descriptors of size 0 is never read to its end. *)
Theorem descriptors_of_size_zero_hang fuel m mm :
  mm_descriptor_size mm = 0 → 0 < mm_size mm → descriptors fuel m mm = None.
Proof.
  intros Hd Hs. unfold descriptors, iter. rewrite Hd. set (it := mkIter _ _ _ _).
  assert (iter_all fuel it = None) as ->; [|done]. induction fuel as [|fuel IH]; [done|].
  cbn [iter_all]. unfold iter_next, it. cbn [it_size it_offset it_buffer it_descriptor_size].
  rewrite (proj2 (Z.leb_gt _ _)) by done. change (wrap64 (0 + 0)) with 0. fold it. by rewrite IH.
Qed.

(** ** The first stack *)

(** The shim calls [efi_main] with a stack pointer that is 8 more than a
    multiple of 16, whatever 16-byte aligned stack it is given; the calling
    convention of [efi_main] asks for a multiple of 16 at the call (as the
    interrupt stubs have it). *)
Theorem efi_entry_misaligned stack_top s :
  stack_top mod 16 = 0 → BOOT_STACK_BYTES ≤ stack_top < 2 ^ 64 →
  regs (efi_entry stack_top s) RSP = stack_top - 40 ∧ regs (efi_entry stack_top s) RSP mod 16 = 8.
Proof.
  intros Ha Hr. assert (regs (efi_entry stack_top s) RSP = wrap64 (wrap64 (stack_top - 8) - 0x20)) as -> by reflexivity.
  unfold BOOT_STACK_BYTES in Hr. rewrite !wrap_small by (rewrite ?wrap_small; unfold in_range; lia).
  split; [lia|]. replace (stack_top - 8 - 32) with (stack_top + 8 + (-3) * 16) by lia.
  rewrite Z.mod_add, Z.add_mod, Ha by lia. done.
Qed.

(** ** The handoff loop *)

(** The buffers that are allocated after the calls of a log, with their sizes. *)
Definition pool_step (p : gmap Z Z) (e : fw_event) : gmap Z Z :=
  match e with
  | EvAlloc size status ptr => if (status =? EFI_SUCCESS) && negb (ptr =? 0) then <[ptr := size]> p else p
  | EvFree ptr => delete ptr p
  | _ => p
  end.
Definition pool (l : list fw_event) : gmap Z Z := foldl pool_step ∅ l.

(** Every call that is given a buffer says how large the buffer is. *)
Definition declared_ok (l : list fw_event) : Prop :=
  ∀ l1 d b s n k c l2, l = l1 ++ EvGetMap d b s n k c :: l2 → b ≠ 0 → pool l1 !! b = Some d.

(** The map never outgrew the buffer between the two calls of an iteration. *)
Definition never_too_small (l : list fw_event) : Prop :=
  ∀ d b n k c, EvGetMap d b EFI_BUFFER_TOO_SMALL n k c ∈ l → b = 0.

Lemma pool_snoc l e : pool (l ++ [e]) = pool_step (pool l) e.
Proof. unfold pool. by rewrite foldl_app. Qed.

Lemma declared_ok_snoc l e :
  declared_ok l → (∀ d b s n k c, e = EvGetMap d b s n k c → b ≠ 0 → pool l !! b = Some d) → declared_ok (l ++ [e]).
Proof.
  intros Hl He l1 d b s n k c l2 E Hb. destruct l2 as [|x l2] using rev_ind.
  - apply app_inj_tail in E as [<- ->]. by eapply He.
  - rewrite app_comm_cons, app_assoc in E. apply app_inj_tail in E as [-> _]. by eapply Hl.
Qed.

Section loop.
Context `{Firmware F}.
Implicit Types (st : BootState F).

(** The loop owns at most one buffer, the one it knows of, and knows its size
    as long as the map has not outgrown it. *)
Record boot_ok st : Prop := {
  bo_pool : if decide (mmap_buf st = 0) then pool (b_log st) = ∅ else ∃ n, pool (b_log st) = {[mmap_buf st := n]};
  bo_size : never_too_small (b_log st) → mmap_buf st ≠ 0 → pool (b_log st) !! mmap_buf st = Some (mmap_buf_size st);
  bo_declared : never_too_small (b_log st) → declared_ok (b_log st);
}.

Lemma never_too_small_snoc l e : never_too_small (l ++ [e]) → never_too_small l.
Proof. intros Hn d b n k c Hin. apply (Hn d b n k c). set_solver. Qed.

Lemma ok_get_memory_map st d b :
  boot_ok st → (b ≠ 0 → never_too_small (b_log st) → pool (b_log st) !! b = Some d) →
  boot_ok (get_memory_map st d b).1 ∧
  mmap_buf (get_memory_map st d b).1 = mmap_buf st ∧ mmap_buf_size (get_memory_map st d b).1 = mmap_buf_size st ∧
  ∃ s n k c, (get_memory_map st d b).2 = (s, n, k, c) ∧ b_log (get_memory_map st d b).1 = b_log st ++ [EvGetMap d b s n k c].
Proof.
  intros [Hp Hs Hd] Hb. unfold get_memory_map. destruct (fw_get_memory_map (b_fw st) d b) as [f [[[s n] k] c]].
  cbn [fst snd logged mmap_buf mmap_buf_size b_log]. split_and!; [|done|done|by exists s, n, k, c].
  assert (pool (b_log st ++ [EvGetMap d b s n k c]) = pool (b_log st)) as E by (by rewrite pool_snoc).
  split; cbn [logged b_log mmap_buf mmap_buf_size].
  - case_decide; [by rewrite E|]. destruct Hp as [m Hm]. exists m. by rewrite E.
  - intros Hn. rewrite E. apply Hs. by eapply never_too_small_snoc.
  - intros Hn. apply declared_ok_snoc; [apply Hd; by eapply never_too_small_snoc|].
    intros d' b' s' n' k' c' [= <- <- _ _ _ _] Hb'. apply Hb; [done|]. by eapply never_too_small_snoc.
Qed.

Lemma ok_cleanup st : boot_ok st → boot_ok (cleanup_pool st) ∧ mmap_buf (cleanup_pool st) = 0 ∧ pool (b_log (cleanup_pool st)) = ∅.
Proof.
  intros Hok. pose proof Hok as [Hp Hs Hd]. unfold cleanup_pool. destruct (Z.eqb_spec (mmap_buf st) 0) as [E|Hn]; cbn [negb].
  - rewrite decide_True in Hp by done. by split_and!.
  - rewrite decide_False in Hp by done. destruct Hp as [n Hn'].
    cbn [set_buf logged b_log mmap_buf mmap_buf_size b_fw].
    assert (pool (b_log st ++ [EvFree (mmap_buf st)]) = ∅) as E.
    { rewrite pool_snoc, Hn'. cbn [pool_step]. by rewrite delete_singleton_eq. }
    split_and!; [|done|done]. split; cbn [set_buf logged b_log mmap_buf mmap_buf_size b_fw]; [by rewrite decide_True|done|].
    intros Hnt. apply declared_ok_snoc; [apply Hd; by eapply never_too_small_snoc|done].
Qed.

Lemma ok_exit st key :
  boot_ok st →
  boot_ok (exit_boot_services st key).1 ∧ mmap_buf (exit_boot_services st key).1 = mmap_buf st ∧
  b_log (exit_boot_services st key).1 = b_log st ++ [EvExit key (exit_boot_services st key).2].
Proof.
  intros [Hp Hs Hd]. unfold exit_boot_services. destruct (fw_exit_boot_services (b_fw st) key) as [f s].
  cbn [fst snd logged mmap_buf mmap_buf_size b_log]. split_and!; [|done|done].
  assert (pool (b_log st ++ [EvExit key s]) = pool (b_log st)) as E by (by rewrite pool_snoc).
  split; cbn [logged b_log mmap_buf mmap_buf_size].
  - case_decide; [by rewrite E|]. destruct Hp as [m Hm]. exists m. by rewrite E.
  - intros Hn. rewrite E. apply Hs. by eapply never_too_small_snoc.
  - intros Hn. apply declared_ok_snoc; [apply Hd; by eapply never_too_small_snoc|done].
Qed.

(** What an iteration guarantees, by its outcome. *)
Definition round_ok (r : BootState F * boot_outcome) : Prop :=
  boot_ok r.1 ∧
  match r.2 with
  | BootAgain => True
  | BootReturn s => s ≠ EFI_SUCCESS ∧ pool (b_log r.1) = ∅
  | BootEnter mm =>
      mm_buffer mm ≠ 0 ∧ mm_buffer mm = mmap_buf r.1 ∧
      ∃ l declared key, b_log r.1 = l ++ [EvGetMap declared (mm_buffer mm) EFI_SUCCESS (mm_size mm) key (mm_descriptor_size mm); EvExit key EFI_SUCCESS]
  end.

Lemma ok_fetch st : boot_ok st → mmap_buf st ≠ 0 → round_ok (fetch_and_exit st).
Proof.
  intros Hok Hbuf. unfold fetch_and_exit.
  destruct (ok_get_memory_map st (mmap_buf_size st) (mmap_buf st) Hok) as (G1 & G2 & G3 & s & n & k & c & G4 & G5).
  { intros ? ?. by apply Hok. }
  destruct (get_memory_map st (mmap_buf_size st) (mmap_buf st)) as [st1 r]. cbn [fst snd] in *. subst r.
  destruct (Z.eqb_spec s EFI_BUFFER_TOO_SMALL) as [->|Hsmall].
  { split; [|done]. pose proof G1 as [Hp Hs Hd]. assert (¬ never_too_small (b_log st1)) as Hnt.
    { rewrite G5. intros Hn. apply Hbuf. apply (Hn (mmap_buf_size st) (mmap_buf st) n k c). set_solver. }
    by split; cbn [set_buf b_log mmap_buf mmap_buf_size fst]. }
  destruct (Z.eqb_spec s EFI_SUCCESS) as [->|Hs]; cbn [negb].
  2:{ destruct (ok_cleanup st1 G1) as (C1 & C2 & C3). by split. }
  destruct (ok_exit st1 k G1) as (E1 & E2 & E3). destruct (exit_boot_services st1 k) as [st2 x]. cbn [fst snd] in *.
  destruct (Z.eqb_spec x EFI_INVALID_PARAMETER); [by split|]. destruct (Z.eqb_spec x EFI_SUCCESS) as [->|Hx]; cbn [negb].
  2:{ destruct (ok_cleanup st2 E1) as (C1 & C2 & C3). by split. }
  split; [done|]. cbn [fst snd mm_buffer mm_size mm_descriptor_size]. split_and!; [congruence|done|].
  exists (b_log st), (mmap_buf_size st), k. rewrite E3, G5, E2, G2. by rewrite <- app_assoc.
Qed.

Lemma ok_round st : boot_ok st → round_ok (boot_round st).
Proof.
  intros Hok. unfold boot_round. destruct (ok_get_memory_map st 0 0 Hok) as (G1 & G2 & G3 & s & n & k & c & G4 & G5); [done|].
  destruct (get_memory_map st 0 0) as [st1 r]. cbn [fst snd] in *. subst r.
  destruct (negb (s =? EFI_BUFFER_TOO_SMALL) && negb (s =? EFI_SUCCESS)) eqn:Est.
  { destruct (ok_cleanup st1 G1) as (C1 & C2 & C3). split; [done|]. split; [|done]. apply andb_prop in Est as [_ Est].
    intros ->. done. }
  set (alloc := saturating_add 64 n _). destruct ((mmap_buf st1 =? 0) || (mmap_buf_size st1 <? alloc)) eqn:Ealloc.
  2:{ apply ok_fetch; [done|]. apply orb_false_elim in Ealloc as [Hz _]. by apply Z.eqb_neq in Hz. }
  destruct (ok_cleanup st1 G1) as (C1 & C2 & C3). set (st2 := cleanup_pool st1) in *. clearbody st2.
  unfold allocate_pool. cbn [set_buf mmap_buf_size b_fw]. destruct (fw_allocate_pool (b_fw st2) alloc) as [f [sa p]].
  cbn [logged set_buf b_log mmap_buf mmap_buf_size b_fw].
  assert (never_too_small (b_log st2 ++ [EvAlloc alloc sa p]) → declared_ok (b_log st2 ++ [EvAlloc alloc sa p])) as Hdec.
  { intros Hn. apply declared_ok_snoc; [apply C1; by eapply never_too_small_snoc|done]. }
  destruct (Z.eqb_spec sa EFI_SUCCESS) as [->|Hsa]; cbn [negb orb].
  - destruct (Z.eqb_spec p 0) as [->|Hp].
    + rewrite C2. cbn [cleanup_pool mmap_buf Z.eqb negb]. assert (pool (b_log st2 ++ [EvAlloc alloc EFI_SUCCESS 0]) = ∅) as E by (rewrite pool_snoc; done).
      split; [|split; done]. split; cbn [fst b_log mmap_buf mmap_buf_size]; [by rewrite decide_True|done|done].
    + apply ok_fetch; [|done]. assert (pool (b_log st2 ++ [EvAlloc alloc EFI_SUCCESS p]) = {[p := alloc]}) as E.
      { rewrite pool_snoc, C3. cbn [pool_step]. rewrite (proj2 (Z.eqb_neq p 0)) by done. done. }
      split; cbn [set_buf logged b_log mmap_buf mmap_buf_size]; [rewrite decide_False by done; by eexists| |done].
      intros _ _. rewrite E. apply lookup_singleton_eq.
  - rewrite C2. cbn [cleanup_pool mmap_buf Z.eqb negb]. assert (pool (b_log st2 ++ [EvAlloc alloc sa p]) = ∅) as E.
    { rewrite pool_snoc. cbn [pool_step]. rewrite (proj2 (Z.eqb_neq sa EFI_SUCCESS)) by done. done. }
    split; [|split; done]. split; cbn [fst b_log mmap_buf mmap_buf_size]; [by rewrite decide_True|done|done].
Qed.

Lemma ok_loop fuel st r : boot_ok st → boot_loop fuel st = Some r → round_ok r ∧ r.2 ≠ BootAgain.
Proof.
  revert st. induction fuel as [|fuel IH]; intros st Hok; cbn [boot_loop]; [done|].
  pose proof (ok_round st Hok) as Hr. destruct (boot_round st) as [st' []].
  - by intros [= <-].
  - by intros [= <-].
  - intros E. apply (IH st'); [apply Hr|done].
Qed.

Lemma ok_start (f : F) : boot_ok (mkBootState f [] 0 0).
Proof.
  split; [done|done|]. intros _ l1 d b s n k c l2 E. by destruct l1.
Qed.
End loop.

(** C37. Whatever the firmware answers: if [efi_main] enters the kernel, the boot
    services have been left with the key of the memory map it last fetched, and
    the kernel is given the buffer, the size and the descriptor size of that
    fetch; if it returns to the firmware, it returns an error and has released
    every buffer; and as long as the map does not outgrow a buffer between two
    calls, every fetch is told the size its buffer was allocated with. *)
Theorem efi_main_handoff `{Firmware F} fuel f cpuid locate st r :
  efi_main fuel f cpuid locate = Some (st, r) →
  (never_too_small (b_log st) → declared_ok (b_log st)) ∧
  match r with
  | inl status => status ≠ EFI_SUCCESS ∧ pool (b_log st) = ∅
  | inr info =>
      let mm := memory_map info in
      mm_buffer mm ≠ 0 ∧ (∃ n, pool (b_log st) = {[mm_buffer mm := n]}) ∧
      ∃ l declared key, b_log st = l ++ [EvGetMap declared (mm_buffer mm) EFI_SUCCESS (mm_size mm) key (mm_descriptor_size mm); EvExit key EFI_SUCCESS]
  end.
Proof.
  unfold efi_main. destruct (boot_loop fuel (mkBootState f [] 0 0)) as [[st' o]|] eqn:E; [|done].
  destruct (ok_loop fuel _ _ (ok_start f) E) as [[Hok Ho] Hn]. cbn [fst snd] in *.
  destruct o as [s|mm|]; [| |done]; intros [= <- <-]; (split; [apply Hok|]); [done|].
  cbn [memory_map]. destruct Ho as (H1 & H2 & H3). split_and!; [done| |done].
  pose proof (bo_pool _ Hok) as Hp. rewrite <- H2 in Hp. by rewrite decide_False in Hp.
Qed.

(** A firmware whose map grows by twenty descriptors when the buffer is
    allocated, and then stays: the bytes of the map are written from the start
    of the buffer whenever the caller says that it is large enough. *)
Record DemoFw := mkDemoFw { df_size : Z; df_buffers : gmap Z Z; df_overrun : bool }.

#[export] Instance demo_firmware : Firmware DemoFw := {
  fw_get_memory_map f declared buf :=
    if declared <? df_size f then (f, (EFI_BUFFER_TOO_SMALL, df_size f, 1, 48))
    else (mkDemoFw (df_size f) (df_buffers f) (df_overrun f || (default 0 (df_buffers f !! buf) <? df_size f)),
          (EFI_SUCCESS, df_size f, 1, 48));
  fw_allocate_pool f size := (mkDemoFw (df_size f + 960) (<[0x1000 := size]> (df_buffers f)) (df_overrun f), (EFI_SUCCESS, 0x1000));
  fw_free_pool f ptr := mkDemoFw (df_size f) (delete ptr (df_buffers f)) (df_overrun f);
  fw_exit_boot_services f key := (f, EFI_SUCCESS);
}.

(** When the map does outgrow the buffer, the loop raises the size it
    declares without allocating: with a firmware whose map grows by twenty
    descriptors during the allocation, the next fetch writes past the end of the
    buffer, and the kernel is entered with that map. *)
Theorem efi_main_overruns_buffer :
  ∃ st info, efi_main 3 (mkDemoFw 4800 ∅ false) (λ _, (0, 0, 0, 0)) None = Some (st, inr info) ∧
    df_overrun (b_fw st) = true ∧ pool (b_log st) !! mm_buffer (memory_map info) = Some 5568 ∧ mm_size (memory_map info) = 5760.
Proof. do 2 eexists. split; [vm_compute; reflexivity|]. split_and!; vm_compute; reflexivity. Qed.

(** ** Witnesses *)


Lemma descriptors_of_size_zero_hang_witness : descriptors 10 ∅ (mkMemoryMap 0x1000 96 0) = None.
Proof. apply (descriptors_of_size_zero_hang 10 ∅ (mkMemoryMap 0x1000 96 0)); [reflexivity|cbn; lia]. Defined.

Lemma efi_entry_misaligned_witness :
  regs (efi_entry 0x140000 (mkMach (λ _, 0) ∅ 0x202 0x38 0x30 0x30 0x30 0 0)) RSP mod 16 = 8.
Proof.
  apply (efi_entry_misaligned 0x140000 (mkMach (λ _, 0) ∅ 0x202 0x38 0x30 0x30 0x30 0 0)); [reflexivity|unfold BOOT_STACK_BYTES; lia].
Defined.

Lemma efi_main_handoff_witness :
  ∃ st info, efi_main 3 (mkDemoFw 4800 ∅ false) (λ _, (0, 0, 0, 0)) None = Some (st, inr info) ∧ mm_buffer (memory_map info) ≠ 0.
Proof.
  destruct (efi_main 3 (mkDemoFw 4800 ∅ false) (λ _, (0, 0, 0, 0)) None) as [[st [s|info]]|] eqn:E.
  - exfalso. vm_compute in E. discriminate E.
  - exists st, info. split; [reflexivity|]. apply (efi_main_handoff 3 (mkDemoFw 4800 ∅ false) (λ _, (0, 0, 0, 0)) None st (inr info) E).
  - exfalso. vm_compute in E. discriminate E.
Defined.
