(* ===== verification/Apic.v ===== *)
(** * Interrupt controllers and timers

    [interrupts/apic.rs] and [interrupts/mod.rs]: programming of the local APIC,
    the I/O APIC, the two legacy controllers and the two timers.  The chips are
    modelled as far as the driver touches them: the initialisation sequence of
    an 8259, the index and data registers of the I/O APIC, the registers of the
    local APIC, and the counter of the 8254. *)

From S2P Require Import Prelude Descriptors.

(** ** The chips *)

(** An 8259.  [p_step] is the number of the initialisation word it expects
    next on its data port, 0 when it is running; there it takes a mask. *)
Record Pic := mkPic { p_base : Z; p_mask : Z; p_step : Z; p_icw4 : bool }.

Definition pic_command (p : Pic) (v : Z) : Pic :=
  if negb (Z.land v 0x10 =? 0) then mkPic (p_base p) 0 2 (negb (Z.land v 1 =? 0)) else p.

Definition pic_data (p : Pic) (v : Z) : Pic :=
  if p_step p =? 2 then mkPic (Z.land v 0xF8) (p_mask p) 3 (p_icw4 p)
  else if p_step p =? 3 then mkPic (p_base p) (p_mask p) (if p_icw4 p then 4 else 0) (p_icw4 p)
  else if p_step p =? 4 then mkPic (p_base p) (p_mask p) 0 (p_icw4 p)
  else mkPic (p_base p) v 0 (p_icw4 p).

(** An 8254 counter that takes its divisor low byte first. *)
Record Pit := mkPit { t_low : Z; t_divisor : Z; t_high_next : bool }.

Record Chips := mkChips {
  pic1 : Pic; pic2 : Pic;
  imcr_selected : Z; imcr : Z;
  ioapic_selected : Z; ioapic : gmap Z Z;
  lapic_base : Z; lapic : gmap Z Z;
  pit : Pit;
  eois : Z;
}.

Definition IOAPIC_BASE : Z := 0xFEC00000.

Definition set_pics (c : Chips) (a b : Pic) : Chips :=
  mkChips a b (imcr_selected c) (imcr c) (ioapic_selected c) (ioapic c) (lapic_base c) (lapic c) (pit c) (eois c).

(** [outb]; port [0x80] only takes time. *)
Definition outb (c : Chips) (port v : Z) : Chips :=
  if port =? 0x20 then set_pics c (pic_command (pic1 c) v) (pic2 c)
  else if port =? 0x21 then set_pics c (pic_data (pic1 c) v) (pic2 c)
  else if port =? 0xA0 then set_pics c (pic1 c) (pic_command (pic2 c) v)
  else if port =? 0xA1 then set_pics c (pic1 c) (pic_data (pic2 c) v)
  else if port =? 0x22 then
    mkChips (pic1 c) (pic2 c) v (imcr c) (ioapic_selected c) (ioapic c) (lapic_base c) (lapic c) (pit c) (eois c)
  else if port =? 0x23 then
    mkChips (pic1 c) (pic2 c) (imcr_selected c) (if imcr_selected c =? 0x70 then v else imcr c) (ioapic_selected c) (ioapic c)
      (lapic_base c) (lapic c) (pit c) (eois c)
  else if port =? 0x43 then
    mkChips (pic1 c) (pic2 c) (imcr_selected c) (imcr c) (ioapic_selected c) (ioapic c) (lapic_base c) (lapic c)
      (mkPit (t_low (pit c)) (t_divisor (pit c)) false) (eois c)
  else if port =? 0x40 then
    mkChips (pic1 c) (pic2 c) (imcr_selected c) (imcr c) (ioapic_selected c) (ioapic c) (lapic_base c) (lapic c)
      (if t_high_next (pit c) then mkPit (t_low (pit c)) (t_low (pit c) + 256 * v) false else mkPit v (t_divisor (pit c)) true) (eois c)
  else c.

Definition inb (c : Chips) (port : Z) : Z := if (port =? 0x23) && (imcr_selected c =? 0x70) then imcr c else 0.

(** Memory-mapped registers: the page of the local APIC, and the two registers
    of the I/O APIC.  A store to the end-of-interrupt register is counted. *)
Definition mmio_write (c : Chips) (a v : Z) : Chips :=
  if (lapic_base c <=? a) && (a <? lapic_base c + 0x1000) then
    mkChips (pic1 c) (pic2 c) (imcr_selected c) (imcr c) (ioapic_selected c) (ioapic c) (lapic_base c)
      (<[a - lapic_base c := v]> (lapic c)) (pit c) (if a - lapic_base c =? 0xB0 then eois c + 1 else eois c)
  else if a =? IOAPIC_BASE then
    mkChips (pic1 c) (pic2 c) (imcr_selected c) (imcr c) v (ioapic c) (lapic_base c) (lapic c) (pit c) (eois c)
  else if a =? IOAPIC_BASE + 0x10 then
    mkChips (pic1 c) (pic2 c) (imcr_selected c) (imcr c) (ioapic_selected c) (<[ioapic_selected c := v]> (ioapic c)) (lapic_base c) (lapic c) (pit c) (eois c)
  else c.

Definition mmio_read (c : Chips) (a : Z) : Z :=
  if (lapic_base c <=? a) && (a <? lapic_base c + 0x1000) then default 0 (lapic c !! (a - lapic_base c))
  else if a =? IOAPIC_BASE + 0x10 then default 0 (ioapic c !! ioapic_selected c)
  else 0.

(** ** [apic.rs] *)

Definition APIC_BASE : Z := 0xFEE00000.
Definition APIC_TPR : Z := 0x80.
Definition APIC_EOI : Z := 0xB0.
Definition APIC_SPURIOUS : Z := 0xF0.
Definition APIC_LVT_TIMER : Z := 0x320.
Definition APIC_TIMER_INIT : Z := 0x380.
Definition APIC_TIMER_DIV : Z := 0x3E0.
Definition APIC_SW_ENABLE : Z := 0x100.
Definition IOAPIC_IOREGSEL : Z := 0x00.
Definition IOAPIC_IOWIN : Z := 0x10.
Definition TIMER_MODE_PERIODIC : Z := 0x20000.
Definition PIC1_CMD : Z := 0x20.
Definition PIC1_DATA : Z := 0x21.
Definition PIC2_CMD : Z := 0xA0.
Definition PIC2_DATA : Z := 0xA1.
Definition ICW1_INIT : Z := 0x10.
Definition ICW1_ICW4 : Z := 0x01.
Definition ICW4_8086 : Z := 0x01.

Record Apic := mkApic {
  APIC_VIRT_BASE : Z;
  IOAPIC_VIRT_BASE : Z;
  APIC_ENABLED : bool;
  PIC_ACTIVE : bool;
  chips : Chips;
}.

Definition Apic_new (c : Chips) : Apic := mkApic APIC_BASE IOAPIC_BASE false false c.

Definition on_chips (s : Apic) (f : Chips → Chips) : Apic :=
  mkApic (APIC_VIRT_BASE s) (IOAPIC_VIRT_BASE s) (APIC_ENABLED s) (PIC_ACTIVE s) (f (chips s)).

Definition apic_read (s : Apic) (offset : Z) : Z := mmio_read (chips s) (APIC_VIRT_BASE s + offset).
Definition apic_write (s : Apic) (offset v : Z) : Apic := on_chips s (λ c, mmio_write c (APIC_VIRT_BASE s + offset) v).

Definition ioapic_write (s : Apic) (index v : Z) : Apic :=
  on_chips s (λ c, mmio_write (mmio_write c (IOAPIC_VIRT_BASE s + IOAPIC_IOREGSEL) index) (IOAPIC_VIRT_BASE s + IOAPIC_IOWIN) v).

Definition ioapic_read (s : Apic) (index : Z) : Apic * Z :=
  let s := on_chips s (λ c, mmio_write c (IOAPIC_VIRT_BASE s + IOAPIC_IOREGSEL) index) in
  (s, mmio_read (chips s) (IOAPIC_VIRT_BASE s + IOAPIC_IOWIN)).

(** Bit 9 of [edx] of [cpuid] leaf 1. *)
Definition is_apic_supported (cpuid_edx : Z) : bool := negb (Z.land cpuid_edx (Z.shiftl 1 9) =? 0).

(** The two halves that [rdmsr 0x1B] returns. *)
Definition get_apic_base (low high : Z) : Z := Z.lor (Z.shiftl high 32) low.

Definition enable_apic (s : Apic) : Apic :=
  let spurious := apic_read s APIC_SPURIOUS in
  let s := apic_write s APIC_SPURIOUS (Z.lor (Z.lor spurious APIC_SW_ENABLE) 0xFF) in
  apic_write s APIC_TPR 0.

(** [outb] on the state, each followed by [io_wait] where the code has it. *)
Definition out (s : Apic) (port v : Z) : Apic := on_chips s (λ c, outb c port v).
Definition out_wait (s : Apic) (port v : Z) : Apic := out (out s port v) 0x80 0.

(** The eight initialisation words, [base1] and [base2] the first vectors. *)
Definition pic_init_words (s : Apic) (base1 base2 : Z) : Apic :=
  let s := out_wait s PIC1_CMD (Z.lor ICW1_INIT ICW1_ICW4) in
  let s := out_wait s PIC2_CMD (Z.lor ICW1_INIT ICW1_ICW4) in
  let s := out_wait s PIC1_DATA base1 in
  let s := out_wait s PIC2_DATA base2 in
  let s := out_wait s PIC1_DATA 4 in
  let s := out_wait s PIC2_DATA 2 in
  let s := out_wait s PIC1_DATA ICW4_8086 in
  out_wait s PIC2_DATA ICW4_8086.

Definition set_pic_active (s : Apic) (b : bool) : Apic :=
  mkApic (APIC_VIRT_BASE s) (IOAPIC_VIRT_BASE s) (APIC_ENABLED s) b (chips s).

Definition disable_legacy_pic (s : Apic) : Apic :=
  let s := pic_init_words s 0x20 0x28 in
  let s := out s PIC1_DATA 0xFF in
  let s := out s PIC2_DATA 0xFF in
  set_pic_active s false.

Definition init_pic (s : Apic) (enable_timer_irq : bool) : Apic :=
  let s := pic_init_words s 32 40 in
  let mask1 := if enable_timer_irq then Z.land 0xFF (not_w 8 0x01) else 0xFF in
  let s := out s PIC1_DATA mask1 in
  let s := out s PIC2_DATA 0xFF in
  set_pic_active s true.

(** The interrupt mode configuration register: ISA interrupts to the APIC. *)
Definition route_imcr (s : Apic) : Apic :=
  let s := out_wait s 0x22 0x70 in
  let val := inb (chips s) 0x23 in
  let s := out s 0x80 0 in
  out_wait s 0x23 (Z.lor val 0x01).

Definition route_ioapic (s : Apic) : Apic :=
  let s := mkApic (APIC_VIRT_BASE s) IOAPIC_BASE (APIC_ENABLED s) (PIC_ACTIVE s) (chips s) in
  let s := ioapic_write s 0x12 KEYBOARD_INTERRUPT_VECTOR in
  let s := ioapic_write s 0x13 0 in
  let s := ioapic_write s 0x28 MOUSE_INTERRUPT_VECTOR in
  let s := ioapic_write s 0x29 0 in
  let '(s, _) := ioapic_read s 0x28 in
  let '(s, _) := ioapic_read s 0x29 in
  let s := ioapic_write s 0x14 0x00010000 in
  ioapic_write s 0x15 0.

Definition apic_init (cpuid_edx msr_low msr_high : Z) (s : Apic) : Apic :=
  if negb (is_apic_supported cpuid_edx) then init_pic s true
  else
    let apic_base := Z.land (get_apic_base msr_low msr_high) 0xFFFFFF000 in
    let s := mkApic apic_base (IOAPIC_VIRT_BASE s) (APIC_ENABLED s) (PIC_ACTIVE s) (chips s) in
    let s := enable_apic s in
    let s := mkApic (APIC_VIRT_BASE s) (IOAPIC_VIRT_BASE s) true (PIC_ACTIVE s) (chips s) in
    disable_legacy_pic (route_ioapic (route_imcr s)).

Definition send_pic_eoi (s : Apic) : Apic := out s PIC1_CMD 0x20.

Definition send_eoi (s : Apic) : Apic :=
  if APIC_ENABLED s then on_chips s (λ c, mmio_write c (APIC_VIRT_BASE s + APIC_EOI) 0)
  else if PIC_ACTIVE s then send_pic_eoi s
  else s.

Definition init_apic_timer (s : Apic) (_ : Z) : Apic :=
  let s := apic_write s APIC_TIMER_DIV 0x3 in
  let s := apic_write s APIC_LVT_TIMER (Z.lor TIMER_INTERRUPT_VECTOR TIMER_MODE_PERIODIC) in
  apic_write s APIC_TIMER_INIT 10000000.

Definition init_pit_timer (s : Apic) (frequency_hz : Z) : Apic :=
  let freq := Z.max frequency_hz 1 in
  let divisor := 1193182 / freq in
  let s := out s 0x43 0x36 in
  let s := out s 0x40 (wrap8 (Z.land divisor 0xFF)) in
  out s 0x40 (wrap8 (Z.shiftr divisor 8)).

Definition init_timer (s : Apic) (frequency_hz : Z) : Apic :=
  if APIC_ENABLED s then init_apic_timer s frequency_hz else init_pit_timer s frequency_hz.

(** ** Which vector an interrupt line raises *)

(** An unmasked, edge-triggered entry of fixed delivery to processor 0 in the
    redirection table of the I/O APIC. *)
Definition ioapic_vector (c : Chips) (irq : Z) : option Z :=
  let low := default 0x10000 (ioapic c !! (0x10 + 2 * irq)) in
  let high := default 0 (ioapic c !! (0x10 + 2 * irq + 1)) in
  if (Z.land low 0xFFFFFF00 =? 0) && (high =? 0) then Some (Z.land low 0xFF) else None.

(** The legacy controllers, the second behind line 2 of the first. *)
Definition pic_vector (c : Chips) (irq : Z) : option Z :=
  if irq <? 8 then (if Z.testbit (p_mask (pic1 c)) irq then None else Some (p_base (pic1 c) + irq))
  else if Z.testbit (p_mask (pic1 c)) 2 || Z.testbit (p_mask (pic2 c)) (irq - 8) then None
  else Some (p_base (pic2 c) + (irq - 8)).

(** ** Properties *)

Record chips_ok (c : Chips) (low high : Z) : Prop := {
  ck_base : lapic_base c = Z.land (get_apic_base low high) 0xFFFFFF000;
  ck_apart : lapic_base c + 0x1000 ≤ IOAPIC_BASE ∨ IOAPIC_BASE + 0x1000 ≤ lapic_base c;
}.

(** What a register access of the driver does to the chips. *)
Definition set_lapic (c : Chips) (o v : Z) : Chips :=
  mkChips (pic1 c) (pic2 c) (imcr_selected c) (imcr c) (ioapic_selected c) (ioapic c) (lapic_base c) (<[o := v]> (lapic c)) (pit c)
    (if o =? 0xB0 then eois c + 1 else eois c).

Definition set_ioapic (c : Chips) (sel : Z) (m : gmap Z Z) : Chips :=
  mkChips (pic1 c) (pic2 c) (imcr_selected c) (imcr c) sel m (lapic_base c) (lapic c) (pit c) (eois c).

(** The local APIC is where the driver looks for it. *)
Definition lapic_found (s : Apic) : Prop := APIC_VIRT_BASE s = lapic_base (chips s).

Lemma lapic_store s o v : lapic_found s → 0 ≤ o < 0x1000 → apic_write s o v = on_chips s (λ c, set_lapic c o v).
Proof.
  intros Hb Ho. unfold apic_write, on_chips, mmio_write, set_lapic. rewrite Hb.
  rewrite (proj2 (Z.leb_le _ _)), (proj2 (Z.ltb_lt _ _)) by lia. cbn [andb].
  by replace (lapic_base (chips s) + o - lapic_base (chips s)) with o by lia.
Qed.

Lemma lapic_load s o : lapic_found s → 0 ≤ o < 0x1000 → apic_read s o = default 0 (lapic (chips s) !! o).
Proof.
  intros Hb Ho. unfold apic_read, mmio_read. rewrite Hb.
  rewrite (proj2 (Z.leb_le _ _)), (proj2 (Z.ltb_lt _ _)) by lia. cbn [andb]. do 2 f_equal. lia.
Qed.

(** The I/O APIC is not hidden behind the local one. *)
Definition ioapic_found (s : Apic) : Prop :=
  IOAPIC_VIRT_BASE s = IOAPIC_BASE ∧
  (lapic_base (chips s) + 0x1000 ≤ IOAPIC_BASE ∨ IOAPIC_BASE + 0x1000 ≤ lapic_base (chips s)).

Lemma not_lapic b a :
  b + 0x1000 ≤ IOAPIC_BASE ∨ IOAPIC_BASE + 0x1000 ≤ b → IOAPIC_BASE ≤ a < IOAPIC_BASE + 0x1000 → (b <=? a) && (a <? b + 0x1000) = false.
Proof. intros Hb Ha. destruct (Z.leb_spec b a), (Z.ltb_spec a (b + 0x1000)); done || lia. Qed.

Lemma ioapic_select s i :
  ioapic_found s → on_chips s (λ c, mmio_write c (IOAPIC_VIRT_BASE s + IOAPIC_IOREGSEL) i) = on_chips s (λ c, set_ioapic c i (ioapic c)).
Proof.
  intros [Hb Ha]. unfold on_chips, mmio_write, IOAPIC_IOREGSEL. rewrite Hb, Z.add_0_r, not_lapic by (done || lia).
  by rewrite Z.eqb_refl.
Qed.

Lemma ioapic_store s i v : ioapic_found s → ioapic_write s i v = on_chips s (λ c, set_ioapic c i (<[i := v]> (ioapic c))).
Proof.
  intros Hf. pose proof (ioapic_select s i Hf) as Hs. destruct Hf as [Hb Ha]. unfold ioapic_write.
  unfold on_chips in *. injection Hs as ->. f_equal. unfold mmio_write at 1, IOAPIC_IOWIN. cbn [set_ioapic lapic_base]. rewrite Hb, not_lapic by (done || lia).
  by rewrite (proj2 (Z.eqb_neq (IOAPIC_BASE + 16) IOAPIC_BASE)), Z.eqb_refl by lia.
Qed.

Lemma ioapic_store_at a e p c i v :
  lapic_base c + 0x1000 ≤ IOAPIC_BASE ∨ IOAPIC_BASE + 0x1000 ≤ lapic_base c →
  ioapic_write (mkApic a IOAPIC_BASE e p c) i v = mkApic a IOAPIC_BASE e p (set_ioapic c i (<[i := v]> (ioapic c))).
Proof. intros Ha. by rewrite ioapic_store by (split; done). Qed.

Lemma ioapic_read_at a e p c i :
  lapic_base c + 0x1000 ≤ IOAPIC_BASE ∨ IOAPIC_BASE + 0x1000 ≤ lapic_base c →
  (ioapic_read (mkApic a IOAPIC_BASE e p c) i).1 = mkApic a IOAPIC_BASE e p (set_ioapic c i (ioapic c)).
Proof. intros Ha. unfold ioapic_read. cbn [fst]. by rewrite ioapic_select by (split; done). Qed.

Lemma ioapic_routed s :
  ioapic_found (mkApic (APIC_VIRT_BASE s) IOAPIC_BASE (APIC_ENABLED s) (PIC_ACTIVE s) (chips s)) →
  route_ioapic s = mkApic (APIC_VIRT_BASE s) IOAPIC_BASE (APIC_ENABLED s) (PIC_ACTIVE s)
    (set_ioapic (chips s) 0x15 (<[0x15 := 0]> (<[0x14 := 0x10000]> (<[0x29 := 0]> (<[0x28 := 44]> (<[0x13 := 0]> (<[0x12 := 33]> (ioapic (chips s)))))))))
.
Proof.
  intros [_ Ha]. cbn [chips] in Ha. unfold route_ioapic. rewrite !ioapic_store_at by exact Ha.
  match goal with |- context [ioapic_read ?x 0x28] => pose proof (ioapic_read_at _ (APIC_ENABLED s) (PIC_ACTIVE s) (chips x) 0x28 Ha : (ioapic_read x 0x28).1 = _) as R1;
    destruct (ioapic_read x 0x28) as [s1 v1] end. cbn [fst chips] in R1. subst s1.
  match goal with |- context [ioapic_read ?x 0x29] => pose proof (ioapic_read_at _ (APIC_ENABLED s) (PIC_ACTIVE s) (chips x) 0x29 Ha : (ioapic_read x 0x29).1 = _) as R2;
    destruct (ioapic_read x 0x29) as [s2 v2] end. cbn [fst chips] in R2. subst s2.
  rewrite !ioapic_store_at by exact Ha. reflexivity.
Qed.

(** The eight words leave both controllers running at their new bases. *)
Lemma pics_initialised s b1 b2 :
  pic_init_words s b1 b2 =
    on_chips s (λ c, set_pics c (mkPic (Z.land b1 0xF8) 0 0 true) (mkPic (Z.land b2 0xF8) 0 0 true)).
Proof. reflexivity. Qed.

(** The state after the local APIC has been enabled and the I/O APIC set up. *)
Lemma apic_init_state edx low high s :
  chips_ok (chips s) low high → is_apic_supported edx = true →
  let c := chips s in
  let s' := apic_init edx low high s in
  lapic_found s' ∧ APIC_ENABLED s' = true ∧
  pic1 (chips s') = mkPic 0x20 0xFF 0 true ∧ pic2 (chips s') = mkPic 0x28 0xFF 0 true ∧
  ioapic (chips s') = <[0x15 := 0]> (<[0x14 := 0x10000]> (<[0x29 := 0]> (<[0x28 := 44]> (<[0x13 := 0]> (<[0x12 := 33]> (ioapic c)))))) ∧
  lapic (chips s') = <[0x80 := 0]> (<[0xF0 := Z.lor (Z.lor (default 0 (lapic c !! 0xF0)) 0x100) 0xFF]> (lapic c)) ∧
  eois (chips s') = eois c.
Proof.
  intros [Hb Ha] Hsup c s'. unfold s', apic_init. clear s'. rewrite Hsup. cbn [negb]. rewrite <- Hb. unfold enable_apic.
  set (s0 := mkApic (lapic_base (chips s)) (IOAPIC_VIRT_BASE s) (APIC_ENABLED s) (PIC_ACTIVE s) (chips s)).
  rewrite lapic_load by (done || (unfold APIC_SPURIOUS; lia)). rewrite (lapic_store s0) by (done || (unfold APIC_SPURIOUS; lia)).
  rewrite lapic_store by (done || (unfold APIC_TPR; lia)). rewrite ioapic_routed by (split; done). unfold disable_legacy_pic. rewrite pics_initialised. split_and!; reflexivity.
Qed.

Lemma masked_all c irq :
  p_mask (pic1 c) = 0xFF → p_mask (pic2 c) = 0xFF → 0 ≤ irq < 16 → pic_vector c irq = None.
Proof.
  intros H1 H2 Hi. assert (∀ k, 0 ≤ k < 8 → Z.testbit 0xFF k = true) as T.
  { intros k Hk. change 0xFF with (Z.ones 8). by apply Z.ones_spec_low. }
  unfold pic_vector. rewrite H1, H2. destruct (Z.ltb_spec irq 8); rewrite T by lia; done.
Qed.

(** C36. On a processor with an APIC, [apic::init] leaves the keyboard and the mouse
    as the only lines the I/O APIC passes of those it sets up, on the vectors
    whose gates lead to their handlers; both legacy controllers are masked and
    away from the exception vectors; the local APIC is enabled at its lowest
    priority with a spurious vector that the catch-all handler accepts, and
    acknowledging an interrupt writes its end-of-interrupt register once. *)
Theorem apic_routes_interrupts edx low high s h :
  chips_ok (chips s) low high → is_apic_supported edx = true →
  let s' := apic_init edx low high s in
  ioapic_vector (chips s') 1 = Some KEYBOARD_INTERRUPT_VECTOR ∧ handler_of h KEYBOARD_INTERRUPT_VECTOR = keyboard_interrupt_handler h ∧
  ioapic_vector (chips s') 12 = Some MOUSE_INTERRUPT_VECTOR ∧ handler_of h MOUSE_INTERRUPT_VECTOR = mouse_interrupt_handler h ∧
  ioapic_vector (chips s') 2 = None ∧
  (∀ irq, 0 ≤ irq < 16 → pic_vector (chips s') irq = None) ∧ 32 ≤ p_base (pic1 (chips s')) ∧ 32 ≤ p_base (pic2 (chips s')) ∧
  (∃ v, lapic (chips s') !! APIC_SPURIOUS = Some v ∧ Z.testbit v 8 = true ∧ Z.land v 0xFF = 0xFF) ∧
  lapic (chips s') !! APIC_TPR = Some 0 ∧
  eois (chips (send_eoi s')) = eois (chips s') + 1.
Proof.
  intros Hc Hsup s'. destruct (apic_init_state edx low high s Hc Hsup) as (L & En & P1 & P2 & Io & La & _).
  fold s' in L, En, P1, P2, Io, La. clearbody s'.
  split; [unfold ioapic_vector; rewrite Io; change (0x10 + 2 * 1) with 0x12; change (0x12 + 1) with 0x13; by simplify_map_eq|].
  split; [reflexivity|].
  split; [unfold ioapic_vector; rewrite Io; change (0x10 + 2 * 12) with 0x28; change (0x28 + 1) with 0x29; by simplify_map_eq|].
  split; [reflexivity|].
  split; [unfold ioapic_vector; rewrite Io; change (0x10 + 2 * 2) with 0x14; change (0x14 + 1) with 0x15; by simplify_map_eq|].
  split; [intros irq Hi; apply masked_all; [by rewrite P1|by rewrite P2|done]|].
  split; [rewrite P1; cbn; lia|]. split; [rewrite P2; cbn; lia|].
  split.
  { eexists. split; [rewrite La; unfold APIC_SPURIOUS; by simplify_map_eq|]. split.
    - by rewrite !Z.lor_spec, orb_true_r.
    - bitwise i. destruct (decide (i < 8)).
      + change 0xFF with (Z.ones 8). rewrite Z.ones_spec_low by lia. by rewrite orb_true_r.
      + change 0xFF with (Z.ones 8). rewrite Z.ones_spec_high by lia. by rewrite andb_false_r. }
  split; [rewrite La; unfold APIC_TPR; by simplify_map_eq|].
  unfold send_eoi. rewrite En. change (on_chips s' _) with (apic_write s' APIC_EOI 0). rewrite lapic_store by (done || (unfold APIC_EOI; lia)). done.
Qed.

(** Without an APIC only the timer is left: the legacy controllers deliver
    line 0 on the timer's vector and mask every other line, the keyboard's and
    the mouse's included. *)
Theorem pic_fallback_masks_input edx low high s :
  is_apic_supported edx = false →
  let s' := apic_init edx low high s in
  pic_vector (chips s') 0 = Some TIMER_INTERRUPT_VECTOR ∧
  (∀ irq, 1 ≤ irq < 16 → pic_vector (chips s') irq = None) ∧ PIC_ACTIVE s' = true.
Proof.
  intros Hsup s'. assert (chips s' = set_pics (chips s) (mkPic 32 0xFE 0 true) (mkPic 40 0xFF 0 true) ∧ PIC_ACTIVE s' = true) as [-> Ha].
  { unfold s', apic_init. rewrite Hsup. cbn [negb]. unfold init_pic. rewrite pics_initialised. split; reflexivity. }
  split_and!; [reflexivity| |done]. intros irq Hi. unfold pic_vector. cbn [set_pics pic1 pic2 p_mask].
  assert (irq ∈ seqZ 1 15) as Hin by (apply elem_of_seqZ; lia). revert irq Hi Hin.
  assert (Forall (λ irq, (if irq <? 8 then if Z.testbit 254 irq then None else Some (p_base (mkPic 32 254 0 true) + irq)
    else if Z.testbit 254 2 || Z.testbit 255 (irq - 8) then None else Some (p_base (mkPic 40 255 0 true) + (irq - 8))) = None) (seqZ 1 15)) as F.
  { apply (bool_decide_unpack _). vm_compute. exact I. }
  intros irq _ Hin. exact (proj1 (Forall_forall _ _) F irq Hin).
Qed.

(** The 16-bit divisor of the 8254: from 19 Hz up the timer is programmed with
    the quotient the code computes; at 1 to 18 Hz the quotient does not fit, its
    high part is cut off and the timer runs faster than asked for. *)
Theorem pit_divisor_bounds s f :
  APIC_ENABLED s = false → 1 ≤ f < 2 ^ 32 →
  let d := t_divisor (pit (chips (init_timer s f))) in
  d = (1193182 / f) mod 2 ^ 16 ∧ (19 ≤ f → d = 1193182 / f) ∧ (f ≤ 18 → d < 1193182 / f).
Proof.
  intros En Hf d. assert (d = wrap8 (Z.land (1193182 / f) 0xFF) + 256 * wrap8 (Z.shiftr (1193182 / f) 8)) as Ed.
  { unfold d, init_timer, init_pit_timer. rewrite En, Z.max_l by lia. reflexivity. }
  assert (0 ≤ 1193182 / f) as H0 by (apply Z.div_pos; lia). set (q := 1193182 / f) in *.
  assert (d = q mod 2 ^ 16) as E.
  { rewrite Ed. change 0xFF with (Z.ones 8). rewrite Z.land_ones, Z.shiftr_div_pow2 by lia. unfold wrap. rewrite Z.mod_mod by lia.
    change (2 ^ 16) with (2 ^ 8 * 2 ^ 8). rewrite Z.rem_mul_r by lia. done. }
  split_and!; [done| |].
  - intros H19. rewrite E. apply Z.mod_small. split; [done|]. unfold q. apply Z.div_lt_upper_bound; lia.
  - intros H18. rewrite E. assert (2 ^ 16 ≤ q) by (unfold q; apply Z.div_le_lower_bound; lia).
    pose proof (Z.mod_pos_bound q (2 ^ 16)). lia.
Qed.

(** The APIC timer is programmed with the same count whatever frequency is
    asked for. *)
Theorem apic_timer_ignores_frequency s f f' :
  APIC_ENABLED s = true → init_timer s f = init_timer s f'.
Proof. intros En. unfold init_timer. by rewrite En. Qed.

Definition demo_chips : Chips := mkChips (mkPic 8 0xB8 0 true) (mkPic 0x70 0x8E 0 true) 0 0 0 ∅ 0xFEE00000 ∅ (mkPit 0 0 false) 0.

Lemma demo_chips_ok : chips_ok demo_chips 0xFEE00900 0.
Proof. split; [reflexivity|unfold IOAPIC_BASE; cbn; lia]. Qed.

Lemma apic_routes_interrupts_witness :
  ioapic_vector (chips (apic_init 0x200 0xFEE00900 0 (Apic_new demo_chips))) 12 = Some 44.
Proof.
  destruct (apic_routes_interrupts 0x200 0xFEE00900 0 (Apic_new demo_chips) demo_handlers demo_chips_ok eq_refl) as (_ & _ & H & _).
  exact H.
Defined.

Lemma pic_fallback_masks_input_witness : pic_vector (chips (apic_init 0 0 0 (Apic_new demo_chips))) 1 = None.
Proof. destruct (pic_fallback_masks_input 0 0 0 (Apic_new demo_chips) eq_refl) as (_ & H & _). apply H. lia. Defined.

Lemma pit_divisor_bounds_witness : t_divisor (pit (chips (init_timer (Apic_new demo_chips) 100))) = 11931.
Proof.
  destruct (pit_divisor_bounds (Apic_new demo_chips) 100 eq_refl) as (_ & H & _); [lia|]. rewrite H by lia. reflexivity.
Defined.

Lemma apic_timer_ignores_frequency_witness :
  let s := apic_init 0x200 0xFEE00900 0 (Apic_new demo_chips) in init_timer s 100 = init_timer s 1000.
Proof. intros s. apply (apic_timer_ignores_frequency s 100 1000). reflexivity. Defined.
