(* ===== verification/InitProcess.v ===== *)
(** * The init process and the start of scheduling

    The kernel side of [init_process.rs]: the loader that puts the first user
    program into the kernel's own page table, its stacks and its thread, the
    service threads of the boot manifest, and the end of [kernel.rs]: the idle
    thread, the launch and the jump to the first thread.  The desktop those
    service threads run is in [KDesktop.v].

    The code addresses of the idle loop and of [service_worker], and the value
    of CR3, are arguments.  No sum of addresses below wraps: a section of an
    image is shorter than 2^32 bytes. *)

From S2P Require Import Prelude Cap Thread Sched Pmm Vm AddrSpace Exec Services Kernel Syscall.
Local Open Scope Z_scope.

Definition USER_STACK_PAGES : Z := 4.
Definition USER_STACK_SIZE : Z := USER_STACK_PAGES * PAGE_SIZE.
Definition USER_STACK_TOP : Z := 0x80000000.
Definition KERNEL_STACK_PAGES : Z := 8.
Definition SERVICE_STACK_PAGES : Z := 4.

(** ** Pages of the kernel's page table *)

(** [for i in 0..pages { let _ = vm::unmap_page(virt + i * PAGE_SIZE); }] *)
Definition unmap_pages (virt pages : Z) (v : Vm) : Vm :=
  foldl (λ v i, (unmap_page v (virt + i * PAGE_SIZE)).1) v (seqZ 0 pages).

(** The mapping loops over the pages of [idxs]; [replace] is whether the page is
    unmapped first.  The first page that cannot be mapped ends the loop. *)
Fixpoint map_pages (replace : bool) (virt phys flags : Z) (idxs : list Z) (v : Vm) : Vm * result unit ExecError :=
  match idxs with
  | [] => (v, Ok tt)
  | i :: idxs =>
      let page := virt + i * PAGE_SIZE in
      let v := if replace then (unmap_page v page).1 else v in
      match map_page v page (phys + i * PAGE_SIZE) flags with
      | (v, Ok _) => map_pages replace virt phys flags idxs v
      | (v, Err _) => (v, Err ExecOutOfMemory)
      end
  end.

(** ** Loading the payload *)

(** The bytes of the payload, or the embedded image when there is none. *)
Definition init_image (m : Memory) (payload : ExecutableImage) : list Z :=
  if is_present payload then read_bytes m (img_ptr payload) (img_size payload) else build_embedded_image.

Definition load_text (v : Vm) (bytes : list Z) : Vm * result unit ExecError :=
  let text_pages := align_up (Z.max (Z.of_nat (length bytes)) 1) / PAGE_SIZE in
  match vm_alloc_pages_zeroed v text_pages with
  | (v, None) => (v, Err ExecOutOfMemory)
  | (v, Some text_phys) =>
      let v := vm_copy_bytes v text_phys bytes in
      let v := unmap_pages USER_EXEC_LOAD_BASE text_pages v in
      map_pages false USER_EXEC_LOAD_BASE text_phys TEXT_FLAGS (seqZ 0 text_pages) v
  end.

Definition load_bss (v : Vm) (base size : Z) : Vm * result unit ExecError :=
  let bss_pages := align_up (Z.max size 1) / PAGE_SIZE in
  match vm_alloc_pages_zeroed v bss_pages with
  | (v, None) => (v, Err ExecOutOfMemory)
  | (v, Some bss_phys) => map_pages true base bss_phys DATA_FLAGS (seqZ 0 bss_pages) v
  end.

(** [load_payload_into_kernel]; the data section of the image is not loaded. *)
Definition load_payload_into_kernel (v : Vm) (payload : ExecutableImage) : Vm * result LoadedExecutable ExecError :=
  match parse_image (init_image (vm_mem v) payload) with
  | Err e => (v, Err e)
  | Ok sections =>
      let text_base := USER_EXEC_LOAD_BASE in
      let text_size := align_up (Z.max (Z.of_nat (length (text sections))) 1) in
      match load_text v (text sections) with
      | (v, Err e) => (v, Err e)
      | (v, Ok _) =>
          let bss_base := align_up (text_base + text_size) in
          match load_bss v bss_base (bss_size sections) with
          | (v, Err e) => (v, Err e)
          | (v, Ok _) => (v, Ok (mkLoaded (text_base + entry_offset sections) text_base bss_base bss_base))
          end
      end
  end.

Definition map_user_stack_into_kernel (v : Vm) : Vm * result Z ExecError :=
  let virt_base := USER_STACK_TOP - USER_STACK_SIZE in
  match vm_alloc_pages_zeroed v USER_STACK_PAGES with
  | (v, None) => (v, Err ExecOutOfMemory)
  | (v, Some phys_base) =>
      match map_pages false virt_base phys_base DATA_FLAGS (seqZ 0 USER_STACK_PAGES) v with
      | (v, Err e) => (v, Err e)
      | (v, Ok _) => (v, Ok USER_STACK_TOP)
      end
  end.

(** The unused variant for an address space of its own. *)
Definition map_user_stack (m : AsManager) (pid address_space : Z) : AsManager * result Z ExecError :=
  let virt_base := USER_STACK_TOP - USER_STACK_SIZE in
  match vm_alloc_pages_zeroed (as_vm m) USER_STACK_PAGES with
  | (v, None) => (set_as_vm m v, Err ExecOutOfMemory)
  | (v, Some phys_base) =>
      match map_region (set_as_vm m v) address_space pid virt_base phys_base USER_STACK_SIZE DATA_FLAGS with
      | (m, Err e) => (m, Err (ExecAddressSpace e))
      | (m, Ok _) => (m, Ok USER_STACK_TOP)
      end
  end.

Definition allocate_kernel_stack (v : Vm) : Vm * result Z ExecError :=
  match vm_alloc_pages v KERNEL_STACK_PAGES with
  | (v, None) => (v, Err ExecOutOfMemory)
  | (v, Some phys) => (v, Ok (phys + KERNEL_STACK_PAGES * PAGE_SIZE))
  end.

(** What the image, the user stack and the kernel stack need, in this order. *)
Definition prepare_init (v : Vm) (payload : ExecutableImage)
    : Vm * result (LoadedExecutable * Z * Z) ExecError :=
  match load_payload_into_kernel v payload with
  | (v, Err e) => (v, Err e)
  | (v, Ok executable) =>
      match map_user_stack_into_kernel v with
      | (v, Err e) => (v, Err e)
      | (v, Ok user_stack_top) =>
          match allocate_kernel_stack v with
          | (v, Err e) => (v, Err e)
          | (v, Ok kernel_stack_top) => (v, Ok (executable, user_stack_top, kernel_stack_top))
          end
      end
  end.

Record InitProcess := mkInit {
  init_pid : Z;
  init_address_space : Z;
  init_entry_point : Z;
  init_user_stack_top : Z;
  init_kernel_stack_top : Z;
}.

Inductive InitError :=
| ExecutableLoadFailed (e : ExecError)
| StackAllocationFailed
| ThreadCreationFailed.

(** The thread record, built without [Thread::new]. *)
Definition init_thread (pid entry_point user_stack_top kernel_stack_top cr3 : Z) : Thread :=
  mkThread pid Ready (CpuContext_new_user entry_point user_stack_top cr3) kernel_stack_top
    (KERNEL_STACK_PAGES * PAGE_SIZE) cr3 PrioNormal "init" (CapabilityTable_new pid).

(** ** The kernel during the launch *)

Record ServiceThreadContext := mkSvcCtx { svc_name : string; svc_capabilities : list string }.

(** The kernel, the [Once] cell of the service manager and [SERVICE_THREADS]. *)
Record Launch (D : Type) := mkLaunch {
  l_kernel : Kernel D;
  l_manager : option ServiceManager;
  l_services : gmap Z ServiceThreadContext;
}.
#[global] Arguments mkLaunch {D}.
#[global] Arguments l_kernel {D} _.
#[global] Arguments l_manager {D} _.
#[global] Arguments l_services {D} _.

Section launch.
Context {D : Type}.
Implicit Types (k : Kernel D) (b : Launch D).

Definition set_l_kernel b k : Launch D := mkLaunch k (l_manager b) (l_services b).

(** [thread::add_thread] followed by [sched::mark_thread_ready]. *)
Definition enlist k (t : Thread) : Kernel D :=
  let '(s, ths) := mark_thread_ready (k_sched k) (Thread.add_thread (k_threads k) t) (th_id t) in
  set_k_sched k s ths.

Definition create_init_process k (pid : Z) (payload : ExecutableImage) (kernel_cr3 : Z)
    : Kernel D * result InitProcess ExecError :=
  match prepare_init (k_vm k) payload with
  | (v, Err e) => (set_k_vm k v, Err e)
  | (v, Ok (executable, user_stack_top, kernel_stack_top)) =>
      let t := init_thread pid (entry_point executable) user_stack_top kernel_stack_top kernel_cr3 in
      (enlist (set_k_vm k v) t, Ok (mkInit pid 0 (entry_point executable) user_stack_top kernel_stack_top))
  end.

(** [init_embedded_manifest] with its [Once] cell: the first manager stays. *)
Definition init_manager b : option (Launch D * result ServiceManager ManifestError) :=
  match init_embedded_manifest with
  | None => None
  | Some (Err e) => Some (b, Err e)
  | Some (Ok manager) =>
      let manager := default manager (l_manager b) in
      Some (mkLaunch (l_kernel b) (Some manager) (l_services b), Ok manager)
  end.

Definition spawn_service_thread (service_worker : Z) b (spec : ServiceSpec) : Launch D * result Z ExecError :=
  let k := l_kernel b in
  match vm_alloc_pages (k_vm k) SERVICE_STACK_PAGES with
  | (v, None) => (set_l_kernel b (set_k_vm k v), Err ExecOutOfMemory)
  | (v, Some stack_phys) =>
      let stack_top := stack_phys + SERVICE_STACK_PAGES * PAGE_SIZE in
      let priority := if String.eqb (spec_name spec) "ui_shell" then PrioHigh else PrioNormal in
      let '(thread, next, mem) :=
        Thread_new (k_next_tid k) (vm_mem v) service_worker stack_top (SERVICE_STACK_PAGES * PAGE_SIZE) 0
          priority "svc_worker" in
      let k := set_k_next_tid (set_k_vm k (vm_set_mem v mem)) next in
      let tid := th_id thread in
      (mkLaunch (enlist k thread) (l_manager b)
         (<[tid := mkSvcCtx (spec_name spec) (spec_capabilities spec)]> (l_services b)), Ok tid)
  end.

(** The loop over the startup plan; only [ui_shell] is launched. *)
Definition bootstrap_service (service_worker : Z) (manager : ServiceManager) b (name : string) : Launch D :=
  if negb (String.eqb name "ui_shell") then b
  else
    match sm_manifest manager !! name with
    | Some spec => (spawn_service_thread service_worker b spec).1
    | None => b
    end.

Definition bootstrap_manifest_services (service_worker : Z) b : option (Launch D) :=
  match init_manager b with
  | None => None
  | Some (b, Ok manager) => Some (foldl (bootstrap_service service_worker manager) b (sm_plan manager))
  | Some (b, Err _) => Some b
  end.

(** [launch_init]; the two functions that only log are left out. *)
Definition launch_init (service_worker : Z) b (payload : ExecutableImage) (cr3 : Z)
    : option (Launch D * result InitProcess InitError) :=
  let k := l_kernel b in
  let '(pid, next) := ThreadId_new (k_next_tid k) in
  match create_init_process (set_k_next_tid k next) pid payload cr3 with
  | (k, Err e) => Some (set_l_kernel b k, Err (ExecutableLoadFailed e))
  | (k, Ok init) =>
      '(b, _) ← init_manager (set_l_kernel b k);
      b ← bootstrap_manifest_services service_worker b;
      Some (b, Ok init)
  end.

(** ** Service threads *)

(** Where [service_worker] goes: it returns (its stack holds no return
    address), runs the desktop, serves forever, or panics. *)
Inductive worker := WorkerReturns | WorkerDesktop | WorkerServes | WorkerPanics.

Definition service_worker_body (switch_context : CpuContext → CpuContext → CpuContext) b : Launch D * worker :=
  let k := l_kernel b in
  match current (k_sched k) with
  | None => (b, WorkerReturns)
  | Some tid =>
      match l_services b !! tid with
      | Some ctx =>
          match l_manager b with
          | None => (b, WorkerPanics)
          | Some manager =>
              let b := mkLaunch k (Some (mark_ready manager (svc_name ctx)).1) (l_services b) in
              (b, if String.eqb (svc_name ctx) "ui_shell" then WorkerDesktop else WorkerServes)
          end
      | None =>
          let '(cpu, s, ths) := drive_cooperative_tick switch_context (k_cpu k) (k_sched k) (k_threads k) in
          (set_l_kernel b (set_k_cpu (set_k_sched k s ths) cpu ths), WorkerReturns)
      end
  end.

(** ** [kernel.rs] *)

(** [init_scheduler]; [None] is the [expect] on the stack. *)
Definition init_scheduler (idle_thread_entry : Z) k (cr3 : Z) : option (Kernel D) :=
  match vm_alloc_pages (k_vm k) 4 with
  | (_, None) => None
  | (v, Some idle_stack) =>
      let '(idle_thread, next, mem) :=
        Thread_new (k_next_tid k) (vm_mem v) idle_thread_entry (idle_stack + 4 * PAGE_SIZE) (4 * PAGE_SIZE) cr3
          PrioIdle "idle" in
      let '(s, ths, _) := sched_init (k_sched k) (k_threads k) idle_thread in
      Some (set_k_sched (set_k_next_tid (set_k_vm k (vm_set_mem v mem)) next) s ths)
  end.

(** How the boot processor ends up: in the context of a thread, halted, or in a panic. *)
Inductive dispatch := Jumped (tid : Z) (c : CpuContext) | Halted | Panicked.

(** [jump_to_thread]; [guard_context_or_halt] only logs, so every context is entered. *)
Definition jump_to_thread k (tid : Z) : Kernel D * dispatch :=
  match lookup_thread (k_threads k) tid with
  | None => (k, Panicked)
  | Some t =>
      let cpu := set_rsp0 (k_cpu k) (th_kernel_stack t) in
      let cpu := if Z.land (cs (th_context t)) 3 =? 3 then log_user_entry_once cpu tid else cpu in
      (set_k_cpu k cpu (k_threads k), Jumped tid (th_context t))
  end.

Definition start_scheduling k : Kernel D * dispatch :=
  let '(s, ths, first) := schedule (k_sched k) (k_threads k) in
  let k := set_k_sched k s ths in
  match first with
  | Some first =>
      let k :=
        match kernel_stack_top (k_threads k) first with
        | Some stack => set_k_cpu k (set_rsp0 (k_cpu k) stack) (k_threads k)
        | None => k
        end in
      jump_to_thread k first
  | None => (k, Halted)
  end.

(** The end of [kmain]: the launch, and the first thread or the halt. *)
Definition launch_and_start (service_worker : Z) k (payload : ExecutableImage) (cr3 : Z)
    : option (Launch D * dispatch) :=
  '(b, r) ← launch_init service_worker (mkLaunch k None ∅) payload cr3;
  match r with
  | Ok _ => let '(k, d) := start_scheduling (l_kernel b) in Some (set_l_kernel b k, d)
  | Err _ => Some (b, Halted)
  end.
End launch.
