(* ===== verification/InitSafety.v ===== *)
(** * The launch of the init process: properties

    What the kernel's page table, the thread list and the ready queues hold
    once the init process has been created, and when the launch fails. *)

From S2P Require Import Prelude Cap Thread Sched Pmm PmmSafety Vm VmSafety VmInit VmRange VmPages AddrSpace AddrSpaceSafety.
From S2P Require Import Exec ExecSafety ExecLoad Services Kernel Syscall SyscallSafety InitProcess.
Local Open Scope list_scope.
Local Open Scope Z_scope.

(** ** Pages of the active table *)

(** The active table is the well-formed one at [root]. *)
Record active (root : Z) (v : Vm) : Prop := {
  ac_ok : vm_ok v root;
  ac_root : active_pml4 v = root;
  ac_nonzero : root ≠ 0;
}.

Lemma active_evolves root v v' : active root v → evolves v v' root → active root v'.
Proof. intros [] []. split; [done|congruence|done]. Qed.

Lemma map_page_root root v virt phys flags :
  active root v → map_page v virt phys flags = map_page_in_pml4 v root virt phys flags.
Proof.
  intros [_ Hr H0]. unfold map_page, map_page_in_pml4. destruct (_ || _); [done|].
  by rewrite Hr, (proj2 (Z.eqb_neq _ _) H0).
Qed.

Lemma unmap_page_root root v virt :
  active root v →
  let v1 := (unmap_page_in_pml4 v root virt).1 in
  (unmap_page v virt).1 = v1 ∨ (unmap_page v virt).1 = invalidate_page v1 virt.
Proof.
  intros [_ Hr H0]. unfold unmap_page, unmap_page_in_pml4, walk_to_entry. destruct (negb _); [by left|].
  rewrite Hr, (proj2 (Z.eqb_neq _ _) H0). destruct (walk_to_entry_with_root_user _ _ _ _ _) as [v1 [[ea c]|e]]; [|by left].
  destruct (negb _); [by left|by right].
Qed.

Lemma evolves_invalidate root v v' virt : evolves v v' root → evolves v (invalidate_page v' virt) root.
Proof. intros [[] [] ?]. split; [by split|by split|done]. Qed.

Lemma unmap_page_gone root v virt :
  active root v → is_page_aligned virt = true →
  let v' := (unmap_page v virt).1 in
  evolves v v' root ∧
  ∀ w, mapping v' root w = if decide (leaf_indices w = leaf_indices virt) then None else mapping v root w.
Proof.
  intros Ha Hv. pose proof (unmap_page_root root v virt Ha) as Hu. destruct Ha as [Hok _ H0].
  destruct (unmap_page_in_pml4 v root virt) as [v1 r] eqn:E. cbn [fst] in Hu.
  pose proof (unmap_pml4_evolves _ _ _ _ _ Hok E) as Hev.
  apply unmap_any in E as (_ & Hm & _); [|done..]. cbv zeta.
  destruct Hu as [-> | ->]; (split; [|exact Hm]); [done|by apply evolves_invalidate].
Qed.

Lemma range_unmapped_nil root virt k v : vm_ok v root → range_unmapped root virt k 0 v v.
Proof. intros. split; [done|intros; lia|done]. Qed.

Lemma unmap_pages_range root virt n k c v :
  active root v → low_region virt n → 0 ≤ k → 0 ≤ c → k + c ≤ n →
  let v' := foldl (λ v i, (unmap_page v (virt + i * PAGE_SIZE)).1) v (seqZ k c) in
  evolves v v' root ∧ range_unmapped root virt k c v v'.
Proof.
  intros Ha Hlow Hk Hc. revert k v Ha Hk. pattern c. apply natlike_ind; [|clear c Hc; intros c Hc IH|done]; intros k v Ha Hk Hn.
  { cbn. split; [apply evolves_refl, Ha|apply range_unmapped_nil, Ha]. }
  rewrite seqZ_cons by lia. cbn [foldl]. rewrite Z.pred_succ.
  destruct (unmap_page_gone root v (virt + k * PAGE_SIZE) Ha) as [Hev Hm].
  { eapply low_page_aligned, (low_region_page virt n k); [done|lia]. }
  set (v1 := (unmap_page v (virt + k * PAGE_SIZE)).1) in *. clearbody v1.
  destruct (IH (k + 1) v1 (active_evolves _ _ _ Ha Hev)) as [Hev2 Hr]; [lia|lia|].
  split; [by eapply evolves_trans|]. rewrite <- Z.add_1_r. by eapply range_unmapped_cons.
Qed.

(** Pages [k .. k + c) of the region at [virt] have the frames [frame i] in
    [v'], whatever they had in [v]; nothing else differs. *)
Record installed (root virt : Z) (frame : Z → Z) (flags k c : Z) (v v' : Vm) : Prop := {
  is_in : ∀ i, k ≤ i < k + c → mapping v' root (page_at virt i) = Some (pte_set (frame i) flags);
  is_out : ∀ w, (∀ i, k ≤ i < k + c → leaf_indices w ≠ leaf_indices (page_at virt i)) →
    mapping v' root w = mapping v root w;
}.

Lemma installed_cons root virt frame flags n k c v v1 v2 :
  low_region virt n → 0 ≤ k → 0 ≤ c → k + 1 + c ≤ n →
  (∀ w, mapping v1 root w =
     if decide (leaf_indices w = leaf_indices (page_at virt k)) then Some (pte_set (frame k) flags)
     else mapping v root w) →
  installed root virt frame flags (k + 1) c v1 v2 → installed root virt frame flags k (c + 1) v v2.
Proof.
  intros Hlow Hk Hc Hn Hm [Hin Hout]. split.
  - intros i Hi. destruct (decide (i = k)) as [->|]; [|apply Hin; lia].
    rewrite Hout, Hm, decide_True; [done|done|]. intros j Hj E.
    apply (region_page_inj virt n) in E; [lia|done|lia..].
  - intros w Hw. rewrite Hout, Hm, decide_False; [done|apply Hw; lia|]. intros i Hi. apply Hw. lia.
Qed.

(** One page: mapped, after it was unmapped if it is to be replaced. *)
Lemma map_one root replace v virt phys flags v' :
  active root v → is_page_aligned virt = true → is_page_aligned phys = true → pte_is_present flags = true →
  let v1 := if replace : bool then (unmap_page v virt).1 else v in
  map_page v1 virt phys flags = (v', Ok tt) →
  evolves v v' root ∧ (replace = false → mapping v root virt = None) ∧
  ∀ w, mapping v' root w =
    if decide (leaf_indices w = leaf_indices virt) then Some (pte_set phys flags) else mapping v root w.
Proof.
  intros Ha Hv Hp Hf v1 E.
  assert (evolves v v1 root ∧ (replace = false → v1 = v) ∧
    ∀ w, leaf_indices w ≠ leaf_indices virt → mapping v1 root w = mapping v root w) as (Hev & Hsame & Hm1).
  { unfold v1. destruct replace; [|split; [apply evolves_refl, Ha|done]].
    destruct (unmap_page_gone root v virt Ha Hv) as [Hev Hm]. split_and!; [done|done|].
    intros w Hw. by rewrite Hm, decide_False. }
  clearbody v1. pose proof (active_evolves _ _ _ Ha Hev) as Ha1. rewrite (map_page_root root) in E by done.
  pose proof (map_pml4_evolves _ _ _ _ _ _ _ (ac_ok _ _ Ha1) E) as Hev2.
  apply map_in_pml4_internal in E; [|apply Ha|done|done].
  apply map_internal_spec in E as (_ & _ & _ & _ & Hnone & _ & Hm); [|apply Ha1].
  split_and!; [by eapply evolves_trans|intros Hr; by rewrite <- (Hsame Hr)|].
  intros w. rewrite Hm, Hf. case_decide; [done|by apply Hm1].
Qed.

Lemma map_pages_installs root replace virt start n flags k c v v' :
  active root v → low_region virt n → 0 ≤ k → 0 ≤ c → k + c ≤ n → pte_is_present flags = true →
  map_pages replace virt (start * PAGE_SIZE) flags (seqZ k c) v = (v', Ok tt) →
  evolves v v' root ∧ installed root virt (λ i, (start + i) * PAGE_SIZE) flags k c v v' ∧
  (replace = false → ∀ i, k ≤ i < k + c → mapping v root (page_at virt i) = None).
Proof.
  intros Ha Hlow Hk Hc Hn Hf. revert k v Ha Hk Hn. pattern c. apply natlike_ind; [|clear c Hc; intros c Hc IH|done]; intros k v Ha Hk Hn.
  { intros [= <-]. split; [apply evolves_refl, Ha|]. split; [split; [intros; lia|done]|intros; lia]. }
  rewrite seqZ_cons by lia. rewrite Z.pred_succ. cbn [map_pages]. cbv zeta.
  destruct (map_page _ (virt + k * PAGE_SIZE) _ flags) as [v1 [[]|e]] eqn:E; [|done]. intros E2.
  replace (start * PAGE_SIZE + k * PAGE_SIZE) with ((start + k) * PAGE_SIZE) in E by lia.
  apply (map_one root) in E as (Hev & Hwas & Hm); [|done| |apply Z.eqb_eq; by apply Z.mod_mul|done].
  2:{ eapply low_page_aligned, (low_region_page virt n k); [done|lia]. }
  apply IH in E2 as (Hev2 & Hin & Hwas2); [|by eapply active_evolves|lia|lia].
  split; [by eapply evolves_trans|]. split; [rewrite <- Z.add_1_r; eapply installed_cons; try done; lia|].
  intros Hr i Hi. destruct (decide (i = k)) as [->|]; [by apply Hwas|].
  specialize (Hwas2 Hr i ltac:(lia)). rewrite Hm, decide_False in Hwas2; [done|].
  intros E'. apply (region_page_inj virt n) in E'; [lia|done|lia..].
Qed.

(** ** Segments *)

(** What adding the segment of [n] pages at [virt] does, beside the held pages
    [Q] of a state that started as [s0]. *)
Record adds (root : Z) (s0 : Vm) (Q Q' : gset Z) (v v' : Vm) (virt n flags : Z) (bytes : list Z) : Prop := {
  ad_holds : holds root s0 v' Q';
  ad_sub : Q ⊆ Q';
  ad_in : ∃ start, seg_in root v' virt start n flags bytes ∧ list_to_set (seqZ start n) ⊆ Q';
  ad_out : ∀ w, (∀ i, 0 ≤ i < n → leaf_indices w ≠ leaf_indices (page_at virt i)) →
    mapping v' root w = mapping v root w;
  ad_keep : ∀ a, a / PAGE_SIZE ∈ Q → mem_read (vm_mem v') a = mem_read (vm_mem v) a;
  ad_active : active root v';
}.

(** A run that is allocated, filled and installed. *)
Lemma run_adds root s0 v v1 Q start n bytes v2 v3 virt flags :
  active root v → holds root s0 v Q → taken root v v1 (seqZ start n) → 0 ≤ start → start + n ≤ MAX_PAGES →
  Forall is_byte bytes → Z.of_nat (length bytes) ≤ n * PAGE_SIZE →
  let vc := vm_copy_bytes v1 (start * PAGE_SIZE) bytes in
  evolves vc v2 root → evolves v2 v3 root →
  (∀ w, (∀ i, 0 ≤ i < n → leaf_indices w ≠ leaf_indices (page_at virt i)) → mapping v2 root w = mapping vc root w) →
  installed root virt (λ i, (start + i) * PAGE_SIZE) flags 0 n v2 v3 →
  adds root s0 Q (Q ∪ list_to_set (seqZ start n)) v v3 virt n flags bytes.
Proof.
  intros Ha Hh Htk Hs Hmax Hb Hlen vc Hev Hev3 Hout [Hin Hout3].
  destruct (filled_run _ _ _ _ _ _ _ _ Hh Htk Hlen) as (Hh1 & Hst & Hdis & Hkeep). fold vc in Hh1, Hst, Hkeep.
  pose proof (evolves_trans _ _ _ _ Hev Hev3) as Hevc. destruct (holds_evolves _ _ _ _ _ Hh1 Hevc) as [Hh3 Hmem].
  split; [done|set_solver|..].
  - exists start. split; [|set_solver]. split; [apply Hin| |lia].
    intros k Hk. rewrite <- (copied_run root v v1 start n bytes Htk Hb Hlen k Hk).
    unfold byte_read. rewrite Hmem; [done|]. rewrite word_page. apply elem_of_union_r, elem_of_list_to_set, elem_of_seqZ.
    pose proof (run_page start n k Hk). lia.
  - intros w Hw. rewrite Hout3 by done. rewrite Hout by done. apply (st_mapping _ _ _ Hst).
  - intros a Hq. rewrite Hmem by set_solver. by apply Hkeep.
  - eapply active_evolves; [|exact Hevc]. split; [apply Hh1| |apply Ha].
    rewrite (st_active _ _ _ Hst). apply Ha.
Qed.

(** The pages of a section that is given one even when it is empty. *)
Definition section_pages (size : Z) : Z := pages_for (Z.max size 1).

Lemma section_pages_spec size :
  0 ≤ size < 2 ^ 32 →
  align_up (Z.max size 1) = section_pages size * PAGE_SIZE ∧ 1 ≤ section_pages size ≤ 2 ^ 20 ∧
  size ≤ section_pages size * PAGE_SIZE.
Proof.
  intros Hs. unfold section_pages. rewrite align_up_for by lia.
  pose proof (pages_for_bounds (Z.max size 1) ltac:(lia)) as [? ?].
  pose proof (pages_for_small (Z.max size 1) ltac:(lia)). unfold PAGE_SIZE in *. lia.
Qed.

Lemma run_bound root s0 v Q start n :
  holds root s0 v Q → start + n ≤ total_pages (vm_pmm v) → start + n ≤ MAX_PAGES.
Proof. intros Hh. pose proof (pw_total _ (vo_pmm _ _ (hd_ok _ _ _ _ Hh))). lia. Qed.

Lemma load_text_adds root s0 v Q bytes v' :
  active root v → holds root s0 v Q → Forall is_byte bytes → Z.of_nat (length bytes) < 2 ^ 32 →
  load_text v bytes = (v', Ok tt) →
  ∃ Q', adds root s0 Q Q' v v' USER_EXEC_LOAD_BASE (section_pages (Z.of_nat (length bytes))) TEXT_FLAGS bytes.
Proof.
  intros Ha Hh Hb Hl. unfold load_text. destruct (section_pages_spec (Z.of_nat (length bytes))) as (-> & Hn & Hfit); [lia|].
  rewrite Z.div_mul by done. set (n := section_pages _) in *. clearbody n. cbv zeta.
  destruct (vm_alloc_pages_zeroed v n) as [v1 [phys|]] eqn:E; [|done].
  apply (alloc_run _ root) in E as (start & -> & Hs & Htot & Htk); [|apply Ha|lia].
  pose proof (run_bound _ _ _ _ _ _ Hh Htot) as Hmax.
  destruct (filled_run _ _ _ _ _ _ _ _ Hh Htk Hfit) as (Hh1 & Hst & _ & _).
  assert (active root (vm_copy_bytes v1 (start * PAGE_SIZE) bytes)) as Ha1.
  { split; [apply Hh1|rewrite (st_active _ _ _ Hst); apply Ha|apply Ha]. }
  assert (low_region USER_EXEC_LOAD_BASE n) as Hlow
    by (unfold low_region, low_page, USER_EXEC_LOAD_BASE, PAGE_SIZE; repeat split; lia).
  destruct (unmap_pages_range root USER_EXEC_LOAD_BASE n 0 n _ Ha1 Hlow) as [Hev Hru]; [lia..|].
  intros E. apply (map_pages_installs root _ _ _ n) in E as (Hev3 & Hin & _); [|by eapply active_evolves|done|lia..|done].
  eexists. eapply run_adds; try done. intros w Hw. by apply (ru_out _ _ _ _ _ _ Hru).
Qed.

(** The segments that are allocated zeroed and mapped. *)
Lemma zeroed_adds root s0 v Q replace virt n flags v1 phys v' :
  active root v → holds root s0 v Q → 1 ≤ n → low_region virt n → pte_is_present flags = true →
  vm_alloc_pages_zeroed v n = (v1, Some phys) →
  map_pages replace virt phys flags (seqZ 0 n) v1 = (v', Ok tt) →
  (∃ Q', adds root s0 Q Q' v v' virt n flags []) ∧
  (replace = false → ∀ i, 0 ≤ i < n → mapping v root (page_at virt i) = None).
Proof.
  intros Ha Hh Hn Hlow Hf E1 E2. apply (alloc_run _ root) in E1 as (start & -> & Hs & Htot & Htk); [|apply Ha|lia].
  pose proof (run_bound _ _ _ _ _ _ Hh Htot) as Hmax.
  assert (active root v1) as Ha1.
  { split; [apply Htk|rewrite (st_active _ _ _ (tk_tables _ _ _ _ Htk)); apply Ha|apply Ha]. }
  apply (map_pages_installs root _ _ _ n) in E2 as (Hev3 & Hin & Hwas); [|done|done|lia..|done]. split.
  - eexists. eapply (run_adds root s0 v v1 Q start n [] v1); try done; [cbn; unfold PAGE_SIZE; lia|].
    rewrite vm_copy_nil. apply evolves_refl, Ha1.
  - intros Hr i Hi. rewrite <- (st_mapping _ _ _ (tk_tables _ _ _ _ Htk)). by apply Hwas.
Qed.

(** A segment stays when pages away from it are mapped. *)
Lemma adds_keep root s0 Q1 Q2 v1 v2 virt start n flags bytes virt' n' flags' bytes' :
  seg_in root v1 virt start n flags bytes → list_to_set (seqZ start n) ⊆ Q1 →
  adds root s0 Q1 Q2 v1 v2 virt' n' flags' bytes' →
  (∀ i j, 0 ≤ i < n → 0 ≤ j < n' → leaf_indices (page_at virt i) ≠ leaf_indices (page_at virt' j)) →
  seg_in root v2 virt start n flags bytes ∧ list_to_set (seqZ start n) ⊆ Q2.
Proof.
  intros Hin Hsub [_ Hs _ Hout Hkeep _] Hsep. split; [|set_solver]. eapply seg_in_keep; [done|..].
  - intros i Hi. apply Hout. intros j Hj. by apply Hsep.
  - intros a Ha. apply Hkeep, Hsub, elem_of_list_to_set, elem_of_seqZ. lia.
Qed.

(** ** Pages beside the tables *)

(** [v'] is [v] with some free pages allocated and written. *)
Record beside (root : Z) (v v' : Vm) : Prop := {
  be_active : active root v';
  be_tables ρ : path ρ → table_at (vm_mem v') root ρ = table_at (vm_mem v) root ρ;
  be_mapping w : mapping v' root w = mapping v root w;
  be_free : free_set (vm_pmm v') ⊆ free_set (vm_pmm v);
  be_mem a : a / PAGE_SIZE ∉ free_set (vm_pmm v) → mem_read (vm_mem v') a = mem_read (vm_mem v) a;
}.

Lemma beside_refl root v : active root v → beside root v v.
Proof. done. Qed.

Lemma beside_trans root v1 v2 v3 : beside root v1 v2 → beside root v2 v3 → beside root v1 v3.
Proof.
  intros [A1 T1 M1 F1 W1] [A2 T2 M2 F2 W2]. split; [done|intros; by rewrite T2, T1|intros; by rewrite M2, M1|by etrans|].
  intros a Ha. rewrite W2, W1; [done|done|set_solver].
Qed.

(** A run of pages is taken and written. *)
Lemma allocates_beside root v count q p' m' :
  active root v → allocates (vm_pmm v) count q p' →
  (∀ a, a / PAGE_SIZE ∉ run_set q count → mem_read m' a = mem_read (vm_mem v) a) →
  beside root v (mkVm p' m' (active_pml4 v) (mapped_pages v) (page_table_pages v) (invlpg v)).
Proof.
  intros Ha [_ Hrun _ Htot Hf Hwf] Hm. pose proof (ac_ok _ _ Ha) as Hok. set (v' := mkVm _ _ _ _ _ _).
  assert (∀ a, a / PAGE_SIZE ∉ free_set (vm_pmm v) → mem_read (vm_mem v') a = mem_read (vm_mem v) a) as Hw.
  { intros a Hn. apply Hm. set_solver. }
  assert (same_tables v v' root) as Hst by by apply tables_frame.
  split; [|apply Hst|apply Hst|cbn [v' vm_pmm]; rewrite Hf; by apply subseteq_difference_l|exact Hw].
  split; [split; [exact Hwf|]|apply Ha|apply Ha].
  eapply pt_wf_ext; [apply Hst| |apply Hok]. cbn [v' vm_pmm]. rewrite Hf. by apply subseteq_difference_l.
Qed.

(** A stack for a new thread: the pages and the canary at their bottom. *)
Lemma new_stack_beside root v count v' a :
  active root v → 1 ≤ count → vm_alloc_pages v count = (v', Some a) →
  beside root v (vm_set_mem v' (mem_write (vm_mem v') (canary_addr (a + count * PAGE_SIZE) (count * PAGE_SIZE)) STACK_CANARY)).
Proof.
  intros Ha Hc. unfold vm_alloc_pages. pose proof (ac_ok _ _ Ha) as Hok.
  destruct (alloc_pages_spec (vm_pmm v) count (vo_pmm _ _ Hok) Hc) as [[-> _]|(q & p' & -> & Hal)]; [done|].
  intros [= <- <-]. apply (allocates_beside root v count q p'); [done|done|].
  intros b Hb. apply mem_read_write_ne. intros <-. apply Hb, elem_of_run_set. unfold canary_addr.
  replace (q * PAGE_SIZE + count * PAGE_SIZE - count * PAGE_SIZE) with (q * PAGE_SIZE) by lia.
  assert (q ∈ free_set (vm_pmm v)) as Hlt%free_set_lt by (apply (al_run _ _ _ _ Hal), elem_of_run_set; lia).
  pose proof (pw_total _ (vo_pmm _ _ Hok)). unfold MAX_PAGES, PAGE_SIZE in *.
  rewrite wrap_small by (unfold in_range; lia). rewrite Z.div_mul by done. lia.
Qed.

(** Bytes of pages that are in use stay. *)
Lemma beside_byte root v v' w q flags :
  beside root v v' → 0 ≤ w → 0 ≤ q < MAX_PAGES → flags_ok flags →
  mapping v root w = Some (pte_set (q * PAGE_SIZE) flags) → q ∉ free_set (vm_pmm v) →
  virt_byte v' root w = virt_byte v root w.
Proof.
  intros [_ _ M _ W] Hw Hq Hf Hm Hn. unfold virt_byte. rewrite M, Hm.
  rewrite pte_addr_set by (done || by apply frame_ok_page). f_equal.
  unfold byte_read. rewrite W; [done|]. set (a := q * PAGE_SIZE + w mod PAGE_SIZE).
  assert ((a - a mod 8) / PAGE_SIZE = q) as ->; [|done]. unfold a, PAGE_SIZE.
  pose proof (Z.mod_pos_bound w 4096). pose proof (Z.div_mod (q * 4096 + w mod 4096) 8). pose proof (Z.mod_pos_bound (q * 4096 + w mod 4096) 8).
  symmetry. apply (Z.div_unique _ _ _ (w mod 4096 - (q * 4096 + w mod 4096) mod 8)); [|lia]. left. split; [|lia].
  replace (q * 4096 + w mod 4096) with (w mod 4096 + (q * 512) * 8) by lia. rewrite Z.mod_add by lia. pose proof (Z.mod_le (w mod 4096) 8). lia.
Qed.

Lemma kernel_stack_beside root v v' top :
  active root v → allocate_kernel_stack v = (v', Ok top) → beside root v v'.
Proof.
  intros Ha. unfold allocate_kernel_stack, vm_alloc_pages.
  destruct (alloc_pages_spec (vm_pmm v) KERNEL_STACK_PAGES (vo_pmm _ _ (ac_ok _ _ Ha)) ltac:(done)) as [[-> _]|(q & p' & -> & Hal)]; [done|].
  intros [= <- <-]. by apply (allocates_beside root v KERNEL_STACK_PAGES q p').
Qed.

(** ** The launch *)

(** [n] pages at [base] that read as [bytes], zero from there on, through pages
    that carry [flags] and whose frames were free before and are not any more. *)
Definition section_present (root : Z) (v v' : Vm) (base n flags : Z) (bytes : list Z) : Prop :=
  (∀ i, 0 ≤ i < n * PAGE_SIZE → virt_byte v' root (base + i) = Some (default 0 (bytes !! Z.to_nat i))) ∧
  (∀ i, 0 ≤ i < n → ∃ q, mapping v' root (page_at base i) = Some (pte_set (q * PAGE_SIZE) flags) ∧
    q ∈ free_set (vm_pmm v) ∧ q ∉ free_set (vm_pmm v')).

Lemma seg_present root s0 Q v v' virt start n flags bytes :
  holds root s0 v Q → seg_in root v virt start n flags bytes → list_to_set (seqZ start n) ⊆ Q →
  low_region virt n → flags_ok flags → vm_mem v' = vm_mem v → free_set (vm_pmm v') ⊆ free_set (vm_pmm v) →
  section_present root s0 v' virt n flags bytes.
Proof.
  intros Hh Hin Hsub Hlow Hf Hm Hfree.
  assert (Hmap : ∀ w, mapping v' root w = mapping v root w) by (intros w; unfold mapping; by rewrite Hm). split.
  - intros i Hi. rewrite <- (seg_in_byte _ _ _ _ _ _ _ _ Hin Hlow Hf Hi). unfold virt_byte. by rewrite Hmap, Hm.
  - intros i Hi. exists (start + i). rewrite Hmap. split; [by apply Hin|].
    assert (start + i ∈ Q) as Hq by (apply Hsub, elem_of_list_to_set, elem_of_seqZ; lia).
    pose proof (hd_own _ _ _ _ Hh). pose proof (hd_busy _ _ _ _ Hh). set_solver.
Qed.

(** The address space of the kernel once init is in it. *)
Record prepared (root : Z) (v v' : Vm) (s : ExecutableSections) (kernel_stack : Z) : Prop := {
  pr_active : active root v';
  pr_text : section_present root v v' USER_EXEC_LOAD_BASE (section_pages (Z.of_nat (length (text s)))) TEXT_FLAGS (text s);
  pr_bss : section_present root v v'
    (page_at USER_EXEC_LOAD_BASE (section_pages (Z.of_nat (length (text s))))) (section_pages (bss_size s)) DATA_FLAGS [];
  pr_stack : section_present root v v' (USER_STACK_TOP - USER_STACK_SIZE) USER_STACK_PAGES DATA_FLAGS [];
  pr_out : ∀ w,
    (∀ i, 0 ≤ i < section_pages (Z.of_nat (length (text s))) + section_pages (bss_size s) →
      leaf_indices w ≠ leaf_indices (page_at USER_EXEC_LOAD_BASE i)) →
    (∀ i, 0 ≤ i < USER_STACK_PAGES → leaf_indices w ≠ leaf_indices (page_at (USER_STACK_TOP - USER_STACK_SIZE) i)) →
    mapping v' root w = mapping v root w;
  pr_kstack : ∃ q, kernel_stack = (q + KERNEL_STACK_PAGES) * PAGE_SIZE ∧
    ∀ i, 0 ≤ i < KERNEL_STACK_PAGES → q + i ∈ free_set (vm_pmm v) ∧ q + i ∉ free_set (vm_pmm v');
}.

Lemma init_base_low n : 0 ≤ n ≤ 2 ^ 21 → low_region USER_EXEC_LOAD_BASE n.
Proof. unfold low_region, low_page, USER_EXEC_LOAD_BASE, PAGE_SIZE. repeat split; lia. Qed.

Lemma bss_low nt nb : 0 ≤ nt ≤ 2 ^ 20 → 0 ≤ nb ≤ 2 ^ 20 → low_region (page_at USER_EXEC_LOAD_BASE nt) nb.
Proof.
  unfold low_region, low_page, page_at, USER_EXEC_LOAD_BASE, PAGE_SIZE. intros. repeat split; [lia|lia| |lia|lia].
  by rewrite Z.mod_add.
Qed.

Lemma stack_low : low_region (USER_STACK_TOP - USER_STACK_SIZE) USER_STACK_PAGES.
Proof. by vm_compute. Qed.

Lemma region_byte_page virt n k :
  low_region virt n → 0 ≤ k < n * PAGE_SIZE → leaf_indices (virt + k) = leaf_indices (page_at virt (k / PAGE_SIZE)).
Proof.
  intros [[Hv Hal] _] Hk. apply Z.div_exact in Hal; [|done].
  assert ((virt + k) / PAGE_SIZE = virt / PAGE_SIZE + k / PAGE_SIZE) as Hdiv.
  { rewrite Hal at 1. rewrite Z.mul_comm, Z.div_add_l by done. done. }
  rewrite leaf_indices_page, Hdiv by lia. f_equal. unfold page_at. lia.
Qed.

(** It stays when more pages are taken. *)
Lemma section_beside root v v1 v2 base n flags bytes :
  pmm_wf (vm_pmm v) → section_present root v v1 base n flags bytes → beside root v1 v2 → low_region base n → flags_ok flags →
  section_present root v v2 base n flags bytes.
Proof.
  intros Hp [Hb Hm] Hbe Hlow Hf. split.
  - intros i Hi. rewrite <- (Hb i Hi).
    destruct (Hm (i / PAGE_SIZE)) as (q & Hq & Hin & Hn); [unfold PAGE_SIZE in *; split; [apply Z.div_pos; lia|apply Z.div_lt_upper_bound; lia]|].
    pose proof (free_set_lt _ _ Hin). pose proof (pw_total _ Hp).
    eapply (beside_byte root v1 v2 _ q flags); try done; [|lia|].
    + destruct Hlow as [[? _] _]. lia.
    + rewrite <- Hq. by apply mapping_same, (region_byte_page _ n).
  - intros i Hi. destruct (Hm i Hi) as (q & Hq & Hin & Hn). exists q.
    split; [by rewrite (be_mapping _ _ _ Hbe)|]. split; [done|]. pose proof (be_free _ _ _ Hbe). set_solver.
Qed.

(** The image, the bss and the user stack, one after the other. *)
Lemma load_payload_adds root v payload v' l :
  let image := init_image (vm_mem v) payload in
  active root v → Forall is_byte image → Z.of_nat (length image) < 2 ^ 32 →
  load_payload_into_kernel v payload = (v', Ok l) →
  let s := sections_of image in
  let nt := section_pages (Z.of_nat (length (text s))) in
  parse_image image = Ok s ∧ sections_ok s ∧ entry_point l = USER_EXEC_LOAD_BASE + entry_offset s ∧
  ∃ Q1 Q2 v1, adds root v ∅ Q1 v v1 USER_EXEC_LOAD_BASE nt TEXT_FLAGS (text s) ∧
    adds root v Q1 Q2 v1 v' (page_at USER_EXEC_LOAD_BASE nt) (section_pages (bss_size s)) DATA_FLAGS [].
Proof.
  intros image Ha Hb Hl. unfold load_payload_into_kernel. fold image.
  destruct (parse_image image) as [s|] eqn:Ep; [|done]. pose proof Ep as Ep'.
  apply parse_image_iff in Ep as (_ & _ & ->); [|done..].
  pose proof (sections_of_ok image Hb Hl) as Hsec. set (s := sections_of image) in *. clearbody s.
  pose proof Hsec as (Hbt & _ & Hlt & _ & Hbss).
  destruct (load_text v (text s)) as [v1 [[]|e]] eqn:Et; [|done].
  apply (load_text_adds root v v ∅) in Et as [Q1 H1]; [|done|apply holds_refl, Ha|done|done].
  destruct (section_pages_spec (Z.of_nat (length (text s)))) as (-> & Hnt & _); [lia|].
  set (nt := section_pages _) in *. clearbody nt.
  replace (align_up (USER_EXEC_LOAD_BASE + nt * PAGE_SIZE)) with (page_at USER_EXEC_LOAD_BASE nt).
  2:{ change USER_EXEC_LOAD_BASE with (1024 * PAGE_SIZE). unfold page_at. rewrite <- Z.mul_add_distr_r.
      rewrite align_up_pages; [done|lia|unfold PAGE_SIZE; lia]. }
  unfold load_bss. destruct (section_pages_spec (bss_size s) Hbss) as (-> & Hnb & _).
  rewrite Z.div_mul by done. set (nb := section_pages _) in *. clearbody nb. cbv zeta.
  destruct (vm_alloc_pages_zeroed v1 nb) as [v2 [phys|]] eqn:Ea; [|done].
  destruct (map_pages true _ phys _ _ v2) as [v3 [[]|e]] eqn:Em; [|done]. intros [= <- <-].
  eapply (zeroed_adds root v v1 Q1) in Em as [[Q2 H2] _]; [|apply H1|apply H1|lia|by apply bss_low; lia|done|done].
  split_and!; [done|done|done|]. by exists Q1, Q2, v1.
Qed.

Lemma page_at_at base n i : page_at (page_at base n) i = page_at base (n + i).
Proof. unfold page_at. lia. Qed.

Lemma text_bss_apart nt nb i j :
  0 ≤ nt ≤ 2 ^ 20 → 0 ≤ nb ≤ 2 ^ 20 → 0 ≤ i < nt → 0 ≤ j < nb →
  leaf_indices (page_at USER_EXEC_LOAD_BASE i) ≠ leaf_indices (page_at (page_at USER_EXEC_LOAD_BASE nt) j).
Proof.
  intros. rewrite page_at_at. intros E. apply (region_page_inj _ (nt + nb)) in E; [lia|apply init_base_low; lia|lia|lia].
Qed.

(** A page that is mapped is none of those that are not. *)
Lemma seg_apart root v virt start n flags bytes virt' n' :
  seg_in root v virt start n flags bytes → (∀ j, 0 ≤ j < n' → mapping v root (page_at virt' j) = None) →
  ∀ i j, 0 ≤ i < n → 0 ≤ j < n' → leaf_indices (page_at virt i) ≠ leaf_indices (page_at virt' j).
Proof.
  intros Hin Hnone i j Hi Hj E. specialize (Hnone j Hj). rewrite <- (mapping_same _ _ _ _ E), (sg_map _ _ _ _ _ _ _ Hin i Hi) in Hnone.
  done.
Qed.

Lemma stack_adds root s0 v Q v' top :
  active root v → holds root s0 v Q → map_user_stack_into_kernel v = (v', Ok top) →
  top = USER_STACK_TOP ∧
  (∃ Q', adds root s0 Q Q' v v' (USER_STACK_TOP - USER_STACK_SIZE) USER_STACK_PAGES DATA_FLAGS []) ∧
  ∀ i, 0 ≤ i < USER_STACK_PAGES → mapping v root (page_at (USER_STACK_TOP - USER_STACK_SIZE) i) = None.
Proof.
  intros Ha Hh. unfold map_user_stack_into_kernel. cbv zeta.
  destruct (vm_alloc_pages_zeroed v USER_STACK_PAGES) as [v1 [phys|]] eqn:Ea; [|done].
  destruct (map_pages false _ phys _ _ v1) as [v2 [[]|e]] eqn:Em; [|done]. intros [= <- <-].
  eapply (zeroed_adds root s0 v Q) in Em as [H1 H2]; [|done|done|done|apply stack_low|done|done].
  split; [done|]. split; [done|]. by apply H2.
Qed.

Lemma kernel_stack_taken root s0 v Q v' top :
  holds root s0 v Q → allocate_kernel_stack v = (v', Ok top) →
  vm_mem v' = vm_mem v ∧ free_set (vm_pmm v') ⊆ free_set (vm_pmm v) ∧
  ∃ q, top = (q + KERNEL_STACK_PAGES) * PAGE_SIZE ∧
    ∀ i, 0 ≤ i < KERNEL_STACK_PAGES → q + i ∈ free_set (vm_pmm s0) ∧ q + i ∉ free_set (vm_pmm v').
Proof.
  intros Hh. unfold allocate_kernel_stack, vm_alloc_pages.
  destruct (alloc_pages_spec (vm_pmm v) KERNEL_STACK_PAGES (vo_pmm _ _ (hd_ok _ _ _ _ Hh)) ltac:(done))
    as [[-> _]|(q & p' & -> & [_ Hrun _ _ Hf _])]; [done|].
  intros [= <- <-]. cbn [vm_mem vm_pmm]. rewrite Hf. split; [done|]. split; [set_solver|].
  exists q. split; [lia|]. intros i Hi.
  assert (q + i ∈ run_set q KERNEL_STACK_PAGES) as Hin by (apply elem_of_run_set; lia).
  pose proof (hd_free _ _ _ _ Hh). set_solver.
Qed.

Lemma prepare_init_ok root v payload v' l ustack kstack :
  let image := init_image (vm_mem v) payload in
  active root v → Forall is_byte image → Z.of_nat (length image) < 2 ^ 32 →
  prepare_init v payload = (v', Ok (l, ustack, kstack)) →
  let s := sections_of image in
  parse_image image = Ok s ∧ ustack = USER_STACK_TOP ∧ entry_point l = USER_EXEC_LOAD_BASE + entry_offset s ∧
  prepared root v v' s kstack.
Proof.
  intros image Ha Hb Hl. unfold prepare_init.
  destruct (load_payload_into_kernel v payload) as [v1 [l1|e]] eqn:E1; [|done].
  apply (load_payload_adds root) in E1 as (Hp & Hsec & He & Q1 & Q2 & v0 & Ht & Hbs); [|done..]. fold image in Hp, Hsec, He, Ht, Hbs.
  destruct (map_user_stack_into_kernel v1) as [v2 [top|e]] eqn:E2; [|done].
  apply (stack_adds root v _ Q2) in E2 as (-> & [Q3 Hst] & Hnone); [|apply Hbs..].
  destruct (allocate_kernel_stack v2) as [v3 [ks|e]] eqn:E3; [|done].
  pose proof (kernel_stack_beside root _ _ _ (ad_active _ _ _ _ _ _ _ _ _ _ Hst) E3) as Hbe.
  apply (kernel_stack_taken root v _ Q3) in E3 as (Hm & Hf & Hks); [|apply Hst].
  intros [= <- <- <- <-]. set (s := sections_of image) in *. split_and!; [done|done|done|].
  destruct Hsec as (_ & _ & Hlt & _ & Hbss). clearbody s image.
  pose proof (section_pages_spec _ (conj (Zle_0_nat (length (text s))) Hlt)) as (_ & Hnt & _).
  pose proof (section_pages_spec _ Hbss) as (_ & Hnb & _).
  set (nt := section_pages (Z.of_nat _)) in *. set (nb := section_pages (bss_size s)) in *.
  destruct (ad_in _ _ _ _ _ _ _ _ _ _ Ht) as (ts & Hts & HtQ). destruct (ad_in _ _ _ _ _ _ _ _ _ _ Hbs) as (bs & Hbs' & HbQ).
  destruct (ad_in _ _ _ _ _ _ _ _ _ _ Hst) as (us & Hus & HuQ).
  destruct (adds_keep _ _ _ _ _ _ _ _ _ _ _ _ _ _ _ Hts HtQ Hbs) as [Hts1 HtQ1].
  { intros i j Hi Hj. by apply (text_bss_apart nt nb); [lia..|]. }
  destruct (adds_keep _ _ _ _ _ _ _ _ _ _ _ _ _ _ _ Hts1 HtQ1 Hst (seg_apart _ _ _ _ _ _ _ _ _ Hts1 Hnone)) as [Hts2 HtQ2].
  destruct (adds_keep _ _ _ _ _ _ _ _ _ _ _ _ _ _ _ Hbs' HbQ Hst (seg_apart _ _ _ _ _ _ _ _ _ Hbs' Hnone)) as [Hbs2 HbQ2].
  pose proof (ad_holds _ _ _ _ _ _ _ _ _ _ Hst) as Hh3. split; [exact (be_active _ _ _ Hbe)|..].
  - by eapply seg_present; [exact Hh3|exact Hts2|exact HtQ2|apply init_base_low; lia|..].
  - by eapply seg_present; [exact Hh3|exact Hbs2|exact HbQ2|apply bss_low; lia|..].
  - by eapply seg_present; [exact Hh3|exact Hus|exact HuQ|apply stack_low|..].
  - intros w Hw1 Hw2. transitivity (mapping v2 root w); [unfold mapping; by rewrite Hm|].
    rewrite (ad_out _ _ _ _ _ _ _ _ _ _ Hst) by done. rewrite (ad_out _ _ _ _ _ _ _ _ _ _ Hbs), (ad_out _ _ _ _ _ _ _ _ _ _ Ht); [done|..].
    + intros i Hi. apply Hw1. lia.
    + intros i Hi. rewrite page_at_at. apply Hw1. lia.
  - exact Hks.
Qed.

(** It stays so beside a thread that is spawned. *)
Lemma prepared_beside root v v1 v2 s ks :
  pmm_wf (vm_pmm v) → Z.of_nat (length (text s)) < 2 ^ 32 → 0 ≤ bss_size s < 2 ^ 32 →
  prepared root v v1 s ks → beside root v1 v2 → prepared root v v2 s ks.
Proof.
  intros Hp Hlt Hbss [_ Ht Hb Hs Ho (q & Hq & Hk)] Hbe.
  pose proof (section_pages_spec _ (conj (Zle_0_nat (length (text s))) Hlt)) as (_ & Hnt & _).
  pose proof (section_pages_spec _ Hbss) as (_ & Hnb & _). split.
  - apply Hbe.
  - eapply section_beside; try done. apply init_base_low. lia.
  - eapply section_beside; try done. apply bss_low; lia.
  - eapply section_beside; try done.
  - intros w H1 H2. rewrite (be_mapping _ _ _ Hbe). by apply Ho.
  - exists q. split; [done|]. intros i Hi. destruct (Hk i Hi). pose proof (be_free _ _ _ Hbe). set_solver.
Qed.

(** ** The thread *)

Section launch.
Context {D : Type}.
Implicit Types (k : Kernel D).

(** A new thread that is ready goes to the end of the list and of the queue of
    its effective priority. *)
Lemma enlist_spec k t :
  lookup_thread (k_threads k) (th_id t) = None → th_state t = Ready →
  enlist k t =
    set_k_sched k (set_ready (k_sched k) (rq_push (ready (k_sched k)) (th_id t) (get_priority (k_sched k) (th_id t))))
      (k_threads k ++ [t]).
Proof.
  intros Hn Hr. unfold enlist, mark_thread_ready, set_thread_state. pose proof (lookup_add_thread (k_threads k) t (th_id t)) as Hl.
  rewrite Hn, decide_True in Hl by done. rewrite Hl. f_equal. apply update_first_id. intros t' Ht'.
  assert (Some t = Some t') as [= <-] by (rewrite <- Hl; exact Ht'). destruct t. cbn in Hr. by subst.
Qed.

Lemma init_image_bytes m payload : Forall is_byte (init_image m payload).
Proof.
  unfold init_image. destruct (is_present payload); [|exact embedded_bytes]. unfold read_bytes.
  apply Forall_fmap, Forall_true. intros i. unfold compose, byte_read, is_byte. change 255 with (Z.ones 8).
  rewrite Z.land_ones by lia. unfold in_range. apply Z.mod_pos_bound. lia.
Qed.




(** The text takes the place of the kernel's own view of memory: a frame that
    was in use at the physical address of a text page is no longer reachable at
    that address in the kernel's page table, which init shares. *)
Theorem load_replaces_identity root k pid payload k' ip i :
  let image := init_image (vm_mem (k_vm k)) payload in
  let page := page_at USER_EXEC_LOAD_BASE i in
  active root (k_vm k) → Z.of_nat (length image) < 2 ^ 32 → lookup_thread (k_threads k) pid = None →
  create_init_process k pid payload root = (k', Ok ip) →
  0 ≤ i < section_pages (Z.of_nat (length (text (sections_of image)))) →
  page / PAGE_SIZE ∉ free_set (vm_pmm (k_vm k)) →
  ∃ e, mapping (k_vm k') root page = Some e ∧ pte_addr e ≠ page.
Proof.
  intros image page Ha Hl Hpid. unfold create_init_process.
  destruct (prepare_init (k_vm k) payload) as [v' [[[l us] ks]|e]] eqn:E; [|done].
  apply (prepare_init_ok root) in E as (_ & _ & _ & Hpr); [|done|apply init_image_bytes|done].
  rewrite enlist_spec by done. intros [= <- <-] Hi Hfree.
  destruct (pr_text _ _ _ _ _ Hpr) as [_ Hmap]. destruct (Hmap i Hi) as (q & Hq & Hin & _).
  eexists. split; [exact Hq|]. pose proof (free_set_lt _ _ Hin) as Hlt.
  pose proof (pw_total _ (vo_pmm _ _ (ac_ok _ _ Ha))) as Htot.
  rewrite pte_addr_set; [|apply frame_ok_page; lia|done]. intros Hp. apply Hfree. rewrite <- Hp. by rewrite Z.div_mul.
Qed.

Lemma scheduler_cpu ie k root k1 : init_scheduler ie k root = Some k1 → k_cpu k1 = k_cpu k.
Proof.
  unfold init_scheduler. destruct (vm_alloc_pages (k_vm k) 4) as [v [a|]]; [|done].
  unfold Thread_new, sched_init. cbn [ThreadId_new th_id]. destruct (set_thread_state _ _ _) as [ths ok]. by intros [= <-].
Qed.

Lemma scheduler_root ie k root k1 : init_scheduler ie k root = Some k1 → active_pml4 (k_vm k1) = active_pml4 (k_vm k).
Proof.
  unfold init_scheduler, vm_alloc_pages. destruct (alloc_pages _ _) as [p [a|]]; [|done].
  unfold Thread_new, sched_init. cbn [ThreadId_new th_id]. destruct (set_thread_state _ _ _) as [ths ok]. by intros [= <-].
Qed.

Lemma scheduler_beside ie k root k1 :
  init_scheduler ie k root = Some k1 → active root (k_vm k) → beside root (k_vm k) (k_vm k1).
Proof.
  intros E Ha. revert E. unfold init_scheduler. destruct (vm_alloc_pages (k_vm k) 4) as [v [a|]] eqn:Ev; [|done].
  apply (new_stack_beside root) in Ev; [|done|lia].
  unfold Thread_new, sched_init. cbn [ThreadId_new th_id]. destruct (set_thread_state _ _ _) as [ths ok]. by intros [= <-].
Qed.

(** C32. Init cannot start where its stack is in use: if one of the four pages below
    0x80000000 is mapped - they are identity mapped on a machine with memory
    there - and the image stays below them, then the launch fails and the
    machine halts. *)
Theorem occupied_stack_halts root sw k1 payload i :
  let image := init_image (vm_mem (k_vm k1)) payload in
  let stack := USER_STACK_TOP - USER_STACK_SIZE in
  active root (k_vm k1) → Z.of_nat (length image) < 2 ^ 32 →
  0 ≤ i < USER_STACK_PAGES → is_Some (mapping (k_vm k1) root (page_at stack i)) →
  (∀ s, parse_image image = Ok s →
    page_at USER_EXEC_LOAD_BASE (section_pages (Z.of_nat (length (text s))) + section_pages (bss_size s)) ≤ stack) →
  ∃ b, launch_and_start sw k1 payload root = Some (b, Halted).
Proof.
  intros image stack Ha Hl Hi [e He] Hsmall.
  assert (Hfail : ∀ r, (prepare_init (k_vm k1) payload).2 = Ok r → False).
  { intros r. unfold prepare_init. destruct (load_payload_into_kernel _ _) as [v1 [l1|]] eqn:E1; [|done].
    apply (load_payload_adds root) in E1 as (Hp & (_ & _ & Hlt & _ & Hb) & _ & Q1 & Q2 & v0 & Ht & Hbs); [|done|apply init_image_bytes|done].
    fold image in Hp, Hlt, Hb, Ht, Hbs. specialize (Hsmall _ Hp).
    destruct (map_user_stack_into_kernel v1) as [v2 [top|]] eqn:E2; [|done].
    apply (stack_adds root (k_vm k1) _ Q2) in E2 as (_ & _ & Hnone); [|apply Hbs..].
    specialize (Hnone i Hi). fold stack in Hnone.
    pose proof (section_pages_spec _ (conj (Zle_0_nat (length (text (sections_of image)))) Hlt)) as (_ & Hnt & _).
    pose proof (section_pages_spec _ Hb) as (_ & Hnb & _).
    set (nt := section_pages (Z.of_nat _)) in *. set (nb := section_pages (bss_size _)) in *.
    assert (Hsep : ∀ j, 0 ≤ j < nt + nb → leaf_indices (page_at stack i) ≠ leaf_indices (page_at USER_EXEC_LOAD_BASE j)).
    { intros j Hj E. apply low_inj in E.
      - unfold page_at, PAGE_SIZE in *. lia.
      - eapply low_region_page; [apply stack_low|done].
      - eapply low_region_page; [apply (init_base_low (nt + nb)); lia|lia]. }
    rewrite (ad_out _ _ _ _ _ _ _ _ _ _ Hbs), (ad_out _ _ _ _ _ _ _ _ _ _ Ht) in Hnone; [by rewrite He in Hnone|..].
    - intros j Hj. apply Hsep. lia.
    - intros j Hj. rewrite page_at_at. apply Hsep. lia. }
  unfold launch_and_start, launch_init, create_init_process. cbn [mbind option_bind l_kernel k_vm set_k_next_tid ThreadId_new].
  destruct (prepare_init (k_vm k1) payload) as [v [r|e']]; [destruct (Hfail r); done|].
  eexists. reflexivity.
Qed.

(** ** The first threads *)

(** The scheduler while only the idle thread, 1, is registered with it. *)
Definition idle_sched (normal : list Z) (cur : option Z) : Scheduler :=
  mkSched [[]; []; normal; []] {[ 1 := PrioIdle ]} {[ 1 := PrioIdle ]} cur (Some 1) true.

Lemma idle_sched_priority normal cur id : id ≠ 1 → get_priority (idle_sched normal cur) id = PrioNormal.
Proof. intros H. unfold get_priority. cbn [effective_priorities idle_sched]. by rewrite lookup_singleton_ne. Qed.

Lemma init_scheduler_spec ie k root k1 :
  k_threads k = [] → k_sched k = Scheduler_new → k_next_tid k = 1 → init_scheduler ie k root = Some k1 →
  k_sched k1 = idle_sched [] (Some 1) ∧ k_next_tid k1 = 2 ∧
  ∃ t, k_threads k1 = [t] ∧ th_id t = 1.
Proof.
  intros Ht Hs Hn. unfold init_scheduler. destruct (vm_alloc_pages _ _) as [v [a|]]; [|done].
  rewrite Ht, Hs, Hn. intros [= <-]. split; [done|]. split; [done|]. eexists. split; reflexivity.
Qed.

Lemma embedded_shell :
  ∃ m spec, init_embedded_manifest = Some (Ok m) ∧ sm_plan m = ["storage_driver"; "fs_server"; "ui_shell"]%string ∧
    sm_manifest m !! "ui_shell"%string = Some spec ∧ spec_name spec = "ui_shell"%string.
Proof. eexists _, _. vm_compute. split_and!; reflexivity. Qed.

(** The tail of [launch_init]: one service thread. *)
Lemma services_launched sw (b0 : Launch D) :
  l_manager b0 = None → l_services b0 = ∅ →
  ∃ m spec, spec_name spec = "ui_shell"%string ∧
    ('(b, _) ← init_manager b0; bootstrap_manifest_services sw b) =
    Some (spawn_service_thread sw (mkLaunch (l_kernel b0) (Some m) ∅) spec).1.
Proof.
  intros Hm Hs. destruct embedded_shell as (m & spec & E & Hplan & Hspec & Hname). exists m, spec. split; [done|].
  unfold bootstrap_manifest_services, init_manager. rewrite E, Hm, Hs. cbn -[bootstrap_service].
  rewrite Hplan. cbn [foldl]. unfold bootstrap_service. cbn [String.eqb Ascii.eqb Bool.eqb negb]. by rewrite Hspec.
Qed.

(** A service thread: ready in the queue of the priority the scheduler knows,
    which is not the one in its record. *)
Lemma spawn_spec sw (b : Launch D) spec :
  let k := l_kernel b in let id := k_next_tid k in let r := spawn_service_thread sw b spec in
  lookup_thread (k_threads k) id = None →
  (k_sched (l_kernel r.1) = k_sched k ∧ k_threads (l_kernel r.1) = k_threads k ∧ l_services r.1 = l_services b ∧
    k_cpu (l_kernel r.1) = k_cpu k) ∨
  ∃ t, th_id t = id ∧ th_state t = Ready ∧
    th_priority t = (if String.eqb (spec_name spec) "ui_shell" then PrioHigh else PrioNormal) ∧
    k_threads (l_kernel r.1) = k_threads k ++ [t] ∧
    k_sched (l_kernel r.1) = set_ready (k_sched k) (rq_push (ready (k_sched k)) id (get_priority (k_sched k) id)) ∧
    l_services r.1 = <[id := mkSvcCtx (spec_name spec) (spec_capabilities spec)]> (l_services b) ∧
    k_cpu (l_kernel r.1) = k_cpu k.
Proof.
  intros k id r Hn. unfold r, spawn_service_thread. fold k. destruct (vm_alloc_pages _ _) as [v [a|]]; [|by left]. right.
  unfold Thread_new, ThreadId_new. fold id. cbn [th_id]. rewrite enlist_spec by done.
  eexists (mkThread id Ready _ _ _ _ _ _ _). split_and!; reflexivity.
Qed.

(** [launch_init] fails where the preparation fails; otherwise init is enlisted
    and one service thread is spawned. *)
Lemma launch_cases sw k payload root b r :
  launch_init sw (mkLaunch k None ∅) payload root = Some (b, r) →
  let pid := k_next_tid k in
  let k0 := set_k_next_tid k (wrap64 (pid + 1)) in
  match prepare_init (k_vm k) payload with
  | (v, Err e) => b = mkLaunch (set_k_vm k0 v) None ∅ ∧ r = Err (ExecutableLoadFailed e)
  | (v, Ok (l, us, ks)) =>
      us = USER_STACK_TOP ∧ r = Ok (mkInit pid 0 (entry_point l) us ks) ∧
      ∃ m spec, spec_name spec = "ui_shell"%string ∧
        b = (spawn_service_thread sw
          (mkLaunch (enlist (set_k_vm k0 v) (init_thread pid (entry_point l) us ks root)) (Some m) ∅) spec).1
  end.
Proof.
  intros Hl pid k0. revert Hl. unfold launch_init, ThreadId_new. cbn [l_kernel]. fold pid. fold k0.
  unfold create_init_process. cbn [k_vm k0 set_k_next_tid].
  destruct (prepare_init (k_vm k) payload) as [v [[[l us] ks]|e]] eqn:Ep; [|by intros [= <- <-]].
  assert (us = USER_STACK_TOP) as Hus.
  { revert Ep. unfold prepare_init, map_user_stack_into_kernel. cbv zeta. repeat case_match; congruence. }
  set (b0 := set_l_kernel _ _). destruct (services_launched sw b0 eq_refl eq_refl) as (m & spec & Hname & E).
  intros Hl. split; [done|]. revert Hl E. destruct (init_manager b0) as [[b1 r1]|]; [|done]. cbn [mbind option_bind].
  destruct (bootstrap_manifest_services sw b1) as [b2|]; [|done]. cbn [mbind option_bind]. intros [= <- <-] E.
  split; [done|]. exists m, spec. split; [done|]. by apply (inj Some).
Qed.

Lemma spawn_beside sw (b : Launch D) spec root :
  active root (k_vm (l_kernel b)) →
  beside root (k_vm (l_kernel b)) (k_vm (l_kernel (spawn_service_thread sw b spec).1)).
Proof.
  intros Ha. unfold spawn_service_thread. destruct (vm_alloc_pages _ _) as [v [a|]] eqn:Ev.
  - apply (new_stack_beside root) in Ev; [|done|done]. unfold Thread_new, ThreadId_new, enlist. cbv beta iota zeta.
    destruct (mark_thread_ready _ _ _) as [s ths]. exact Ev.
  - revert Ev. unfold vm_alloc_pages.
    destruct (alloc_pages_spec (vm_pmm (k_vm (l_kernel b))) SERVICE_STACK_PAGES (vo_pmm _ _ (ac_ok _ _ Ha)) ltac:(done)) as [[-> _]|(q & p' & -> & _)]; [|done].
    intros [= <-]. cbn. destruct (k_vm (l_kernel b)). by apply beside_refl.
Qed.

(** [launch_init] on the scheduler that knows only the idle thread. *)
Lemma launch_sched sw k1 payload root b ip t1 :
  k_sched k1 = idle_sched [] (Some 1) → k_next_tid k1 = 2 → k_threads k1 = [t1] → th_id t1 = 1 →
  launch_init sw (mkLaunch k1 None ∅) payload root = Some (b, Ok ip) →
  let t2 := init_thread 2 (init_entry_point ip) USER_STACK_TOP (init_kernel_stack_top ip) root in
  (k_threads (l_kernel b) = [t1; t2] ∧ k_sched (l_kernel b) = idle_sched [2] (Some 1) ∧ l_services b = ∅) ∨
  ∃ t3 c, k_threads (l_kernel b) = [t1; t2; t3] ∧ th_id t3 = 3 ∧ th_priority t3 = PrioHigh ∧
    k_sched (l_kernel b) = idle_sched [2; 3] (Some 1) ∧ l_services b = {[ 3 := c ]}.
Proof.
  intros Hs Hn Ht Ht1 Hl. apply launch_cases in Hl. rewrite Hn in Hl. change (wrap64 (2 + 1)) with 3 in Hl. cbv zeta in Hl.
  destruct (prepare_init (k_vm k1) payload) as [v [[[l us] ks]|e]]; [|by destruct Hl].
  destruct Hl as (-> & [= ->] & m & spec & Hname & ->). cbn [init_entry_point init_kernel_stack_top]. set (t2 := init_thread _ _ _ _ _).
  set (k2 := enlist _ t2). assert (k_threads k2 = [t1; t2] ∧ k_sched k2 = idle_sched [2] (Some 1) ∧ k_next_tid k2 = 3) as (Et & Es & En).
  { unfold k2. rewrite enlist_spec; [|cbn [k_threads set_k_vm set_k_next_tid]; by rewrite Ht; cbn; unfold has_id; rewrite Ht1|done].
    cbn [k_sched k_threads k_next_tid set_k_sched set_k_vm set_k_next_tid]. rewrite Hs, Ht. by rewrite idle_sched_priority. }
  clearbody k2. destruct (spawn_spec sw (mkLaunch k2 (Some m) ∅) spec)
    as [(E1 & E2 & E3 & _)|(t3 & H1 & H2 & H3 & E2 & E1 & E3 & _)]; cbn [l_kernel l_services] in *.
  - rewrite Et, En. cbn. unfold has_id. by rewrite Ht1.
  - left. by rewrite E1, E2, E3, Et, Es.
  - right. rewrite Hname in H3. rewrite E1, E2, E3, Et, Es. eexists t3, _. rewrite H1, En.
    split_and!; [done|done|exact H3| |done]. by rewrite idle_sched_priority.
Qed.

Lemma schedule_first t1 t2 rest q :
  th_id t1 = 1 → th_id t2 = 2 →
  schedule (idle_sched (2 :: q) (Some 1)) (t1 :: t2 :: rest) =
  (idle_sched (q ++ [2]) (Some 2), set_state t1 Ready :: set_state t2 Running :: rest, Some 2).
Proof.
  intros H1 H2. unfold schedule, rq_pop_next, apply_switch_with_previous, choose, set_thread_state, lookup_thread, has_id.
  cbn. rewrite H1. cbn. rewrite bool_decide_false by done. cbn. rewrite H1. cbn. rewrite H2. done.
Qed.

(** Threads 2 and 3 take turns. *)
Lemma schedule_second t1 t2 t3 rest :
  th_id t1 = 1 → th_id t2 = 2 → th_id t3 = 3 →
  schedule (idle_sched [3; 2] (Some 2)) (t1 :: t2 :: t3 :: rest) =
  (idle_sched [2; 3] (Some 3), t1 :: set_state t2 Ready :: set_state t3 Running :: rest, Some 3).
Proof.
  intros H1 H2 H3.
  unfold schedule, rq_pop_next, apply_switch_with_previous, choose, set_thread_state, lookup_thread, has_id.
  cbn. rewrite H1. cbn. rewrite H2. cbn. rewrite bool_decide_false by done. cbn. rewrite H1. cbn. rewrite H2. cbn. rewrite H3. done.
Qed.

(** The kernel in init: thread 2 is current, its kernel stack is in the task
    state segment.  The service thread launched beside it carries the record of
    a high-priority thread, but the scheduler was never told: it queues it as
    normal, behind init, and the first time init yields it gets the processor. *)
Record entered_init (b : Launch D) (ip : InitProcess) : Prop := {
  ei_current : current (k_sched (l_kernel b)) = Some 2;
  ei_rsp0 : tss_rsp0 (k_cpu (l_kernel b)) = Z.land (init_kernel_stack_top ip) (not_w 64 0xF);
  ei_services tid : is_Some (l_services b !! tid) →
    let k := l_kernel b in
    (∃ t, lookup_thread (k_threads k) tid = Some t ∧ th_priority t = PrioHigh) ∧
    get_priority (k_sched k) tid = PrioNormal ∧
    ∀ switch, current (yield_current switch (k_cpu k) (k_sched k) (k_threads k)).1.2 = Some tid;
}.

(** The end of [kmain] on a kernel that knows only the idle thread. *)
Lemma launch_enters_init sw k1 payload root b ip t1 :
  k_sched k1 = idle_sched [] (Some 1) → k_next_tid k1 = 2 → k_threads k1 = [t1] → th_id t1 = 1 →
  launch_init sw (mkLaunch k1 None ∅) payload root = Some (b, Ok ip) →
  ∃ b', launch_and_start sw k1 payload root =
      Some (b', Jumped 2 (CpuContext_new_user (init_entry_point ip) USER_STACK_TOP root)) ∧
    entered_init b' ip ∧ k_vm (l_kernel b') = k_vm (l_kernel b).
Proof.
  intros Hs1 Hn1 Ht1 Hid Hl. unfold launch_and_start. rewrite Hl. cbn [mbind option_bind].
  apply (launch_sched _ _ _ _ _ _ t1) in Hl; [|done..]. cbv zeta in Hl. set (t2 := init_thread _ _ _ _ _) in Hl.
  unfold start_scheduling.
  destruct Hl as [(Eth & Esch & Esvc)|(t3 & c & Eth & Hid3 & Hp3 & Esch & Esvc)]; rewrite Eth, Esch, schedule_first by done;
    cbn [app kernel_stack_top]; unfold kernel_stack_top, jump_to_thread, lookup_thread, has_id; cbn; do 2 (rewrite Hid; cbn);
    eexists; (split; [reflexivity|]); (split; [|reflexivity]); (split; [reflexivity|reflexivity|]).
  - intros tid. cbn [l_services set_l_kernel]. rewrite Esvc. by intros [? ?].
  - intros tid. cbn [l_services set_l_kernel]. rewrite Esvc. intros [c' Hc%lookup_singleton_Some]. destruct Hc as [<- _].
    split; [|split; [reflexivity|]].
    + exists t3. unfold lookup_thread, has_id. cbn. rewrite Hid. cbn. by rewrite Hid3.
    + intros switch. unfold yield_current. cbn -[schedule]. rewrite schedule_second by done.
      cbn. by destruct (perform_context_switch _ _ _ _ _).
Qed.
End launch.

(** ** Witnesses *)

Definition demo_kernel : Kernel unit := kernel_initial tt demo_space None.
Definition demo_payload : ExecutableImage := mkImage 0 0.

Lemma demo_active : active 0x10000 demo_space.
Proof. split; [exact (proj1 demo_space_fresh)|reflexivity|discriminate]. Qed.

Lemma demo_init : ∃ k' ip, create_init_process demo_kernel 2 demo_payload 0x10000 = (k', Ok ip) ∧
  init_entry_point ip = 0x400000.
Proof.
  assert (init_entry_point <$> (match (create_init_process demo_kernel 2 demo_payload 0x10000).2 with Ok ip => Some ip | Err _ => None end)
    = Some 0x400000) as Hr by (vm_compute; reflexivity).
  destruct (create_init_process demo_kernel 2 demo_payload 0x10000) as [k' [ip|e]]; cbn [snd] in Hr; [|discriminate].
  exists k', ip. split; [reflexivity|]. by injection Hr.
Qed.

Lemma demo_image m : init_image m demo_payload = build_embedded_image.
Proof. unfold init_image. change (is_present demo_payload) with false. reflexivity. Qed.

Lemma demo_sections : Z.of_nat (length (text (sections_of build_embedded_image))) = 4096.
Proof. vm_compute. reflexivity. Qed.


Lemma load_replaces_identity_witness :
  ∃ k' ip e, create_init_process demo_kernel 2 demo_payload 0x10000 = (k', Ok ip) ∧
    mapping (k_vm k') 0x10000 0x400000 = Some e ∧ pte_addr e ≠ 0x400000.
Proof.
  destruct demo_init as (k' & ip & E & _). exists k', ip.
  destruct (load_replaces_identity 0x10000 demo_kernel 2 demo_payload k' ip 0) as (e & Hm & Hne);
    [exact demo_active|rewrite demo_image; vm_compute; reflexivity|reflexivity|exact E| | |].
  - rewrite demo_image, demo_sections. vm_compute. split; congruence.
  - intros Hin%free_set_lt. vm_compute in Hin. destruct Hin as [_ Hin]. discriminate.
  - exists e. split; [exact E|]. split; [exact Hm|exact Hne].
Defined.

(** The demo kernel with a page where the stack of init would go. *)
Definition demo_full : Kernel unit :=
  set_k_vm demo_kernel (map_page_in_pml4 demo_space 0x10000 0x7FFFD000 0x30000 demo_flags).1.

Lemma demo_full_ok : active 0x10000 (k_vm demo_full) ∧ is_Some (mapping (k_vm demo_full) 0x10000 0x7FFFD000).
Proof.
  assert ((map_page_in_pml4 demo_space 0x10000 0x7FFFD000 0x30000 demo_flags).2 = Ok tt) as Hr by (vm_compute; reflexivity).
  unfold demo_full. cbn [k_vm set_k_vm].
  destruct (map_page_in_pml4 demo_space 0x10000 0x7FFFD000 0x30000 demo_flags) as [v r] eqn:E. cbn [fst snd] in *. subst r.
  pose proof (map_pml4_evolves _ _ _ _ _ _ _ (ac_ok _ _ demo_active) E) as Hev.
  split; [exact (active_evolves _ _ _ demo_active Hev)|].
  apply map_in_pml4_internal in E; [|discriminate|reflexivity|reflexivity].
  apply map_internal_spec in E as (_ & _ & _ & _ & _ & _ & Hm); [|exact (ac_ok _ _ demo_active)].
  rewrite Hm, decide_True by reflexivity. eexists. reflexivity.
Qed.

Lemma demo_full_stack : is_Some (mapping (k_vm demo_full) 0x10000 (page_at (USER_STACK_TOP - USER_STACK_SIZE) 1)).
Proof.
  assert (page_at (USER_STACK_TOP - USER_STACK_SIZE) 1 = 0x7FFFD000) as -> by reflexivity. exact (proj2 demo_full_ok).
Qed.

Lemma demo_length m : Z.of_nat (length (init_image m demo_payload)) < 2 ^ 32.
Proof. rewrite demo_image. vm_compute. reflexivity. Qed.

Lemma demo_small m s :
  parse_image (init_image m demo_payload) = Ok s →
  page_at USER_EXEC_LOAD_BASE (section_pages (Z.of_nat (length (text s))) + section_pages (bss_size s)) ≤
  USER_STACK_TOP - USER_STACK_SIZE.
Proof.
  intros Hs. apply parse_image_iff in Hs as (_ & _ & ->); [|apply init_image_bytes|apply demo_length].
  rewrite demo_image, demo_sections. apply Z.leb_le. vm_compute. reflexivity.
Qed.

Lemma occupied_stack_halts_witness :
  ∃ b, launch_and_start 0x200000 demo_full demo_payload 0x10000 = Some (b, Halted).
Proof.
  exact (occupied_stack_halts 0x10000 0x200000 demo_full demo_payload 1 (proj1 demo_full_ok)
    (demo_length _) ltac:(by split) demo_full_stack (demo_small _)).
Defined.
