(* ===== verification/KDesktop.v ===== *)
(** * The desktop inside the kernel

    The compositor of [init_process.rs] that the [ui_shell] service thread runs
    in kernel mode, with its event loop: windows, the cursor with the pixels
    saved under it, and the input rings.  The framebuffer is the global of
    [graphics.rs], an option; pixels are as in [Graphics.v]. *)

From S2P Require Import Prelude Input Graphics.

(** ** [graphics.rs] through its global *)

Definition on_screen (g : option Framebuffer) (f : Framebuffer → Pixels → Pixels) (px : Pixels) : Pixels :=
  match g with Some fb => f fb px | None => px end.

Definition g_clear g c := on_screen g (λ fb px, clear_screen fb px c).
Definition g_fill g x y w h c := on_screen g (λ fb px, fill_rect fb px x y w h c).
Definition g_string g x y text fg bg := on_screen g (λ fb px, draw_string fb px x y text fg bg).
Definition g_draw g x y c := on_screen g (λ fb px, draw_pixel fb px x y c).
Definition g_write g x y v := on_screen g (λ fb px, write_pixel fb px x y v).

Definition g_read (g : option Framebuffer) (px : Pixels) (x y : Z) : Z :=
  default 0 (with_framebuffer g (λ fb, read_pixel fb px x y)).

(** ** Data *)

Record Window := mkWindow {
  win_id : Z;
  win_x : Z;
  win_y : Z;
  win_width : Z;
  win_height : Z;
  win_title : list Z;
  win_lines : list (list Z);
  win_visible : bool;
}.

Record Compositor := mkCompositor {
  screen_width : Z;
  screen_height : Z;
  windows : list Window;
  next_window_id : Z;
  cursor_x : Z;
  cursor_y : Z;
  cursor_saved : list Z;
  cursor_saved_x : Z;
  cursor_saved_y : Z;
  focused_window : option Z;
}.

Definition nord0 : Color := mkColor 46 52 64.
Definition nord1 : Color := mkColor 59 66 82.
Definition nord2 : Color := mkColor 67 76 94.
Definition nord3 : Color := mkColor 76 86 106.
Definition nord6 : Color := mkColor 236 239 244.
Definition nord8 : Color := mkColor 136 192 208.
Definition nord11 : Color := mkColor 191 97 106.
Definition nord14 : Color := mkColor 163 190 140.

Definition ascii_bytes (s : string) : list Z := (λ c, Z.of_N (Ascii.N_of_ascii c)) <$> String.list_ascii_of_string s.

(** ** Windows *)

Definition Compositor_new (g : option Framebuffer) (px : Pixels) (width height : Z) : Compositor * Pixels :=
  let px := g_clear g nord0 px in
  let px := g_fill g 0 0 width 32 nord1 px in
  let px := g_string g 12 10 (ascii_bytes "Atom") nord8 nord1 px in
  let status := ascii_bytes "Microkernel v0.1" in
  let status_x := saturating_sub width (Z.of_nat (length status) * 8 + 12) in
  let px := g_string g status_x 10 status nord6 nord1 px in
  (mkCompositor width height [] 1 (to_signed 32 (width / 2)) (to_signed 32 (height / 2))
     (replicate 192 0) (width / 2) (height / 2) None, px).

Definition create_window (c : Compositor) (x y width height : Z) (title : list Z) : Compositor * Z :=
  let id := next_window_id c in
  let window := mkWindow id x y width height title [ascii_bytes "atom@kernel $ _"] true in
  (mkCompositor (screen_width c) (screen_height c) (windows c ++ [window]) (wrap32 (id + 1)) (cursor_x c) (cursor_y c)
     (cursor_saved c) (cursor_saved_x c) (cursor_saved_y c) (Some id), id).

(** The loop over the lines of a window; [line_y] moves only past the lines drawn. *)
Fixpoint render_lines (g : option Framebuffer) (w : Window) (line_y : Z) (ls : list (list Z)) (px : Pixels) : Pixels :=
  match ls with
  | [] => px
  | l :: ls =>
      if wrap32 (line_y + 8) <? wrap32 (wrap32 (win_y w + win_height w) - 8) then
        render_lines g w (wrap32 (line_y + 12)) ls (g_string g (wrap32 (win_x w + 8)) line_y l nord14 nord0 px)
      else render_lines g w line_y ls px
  end.

Definition render_window (g : option Framebuffer) (px : Pixels) (w : Window) : Pixels :=
  let title_height := 24 in
  let x := win_x w in let y := win_y w in
  let px := g_fill g (wrap32 (x + 4)) (wrap32 (y + 4)) (win_width w) (win_height w) (mkColor 30 34 42) px in
  let px := g_fill g x y (win_width w) (win_height w) nord2 px in
  let px := g_fill g x y (win_width w) title_height nord3 px in
  let px := g_string g (wrap32 (x + 8)) (wrap32 (y + 6)) (win_title w) nord6 nord3 px in
  let close_x := wrap32 (wrap32 (x + win_width w) - 20) in
  let px := g_fill g close_x (wrap32 (y + 4)) 16 16 nord11 px in
  let px := g_string g (wrap32 (close_x + 4)) (wrap32 (y + 6)) (ascii_bytes "x") nord6 nord11 px in
  let content_y := wrap32 (y + title_height) in
  let content_height := wrap32 (win_height w - title_height) in
  let px := g_fill g x content_y (win_width w) content_height nord0 px in
  render_lines g w (wrap32 (content_y + 8)) (win_lines w) px.

(** ** The cursor *)

Definition cursor_rows : Z := 12.
Definition cursor_cells : list (Z * Z) := row ← seqZ 0 cursor_rows; col ← seqZ 0 16; [(row, col)].

(** The pixel of a cell of the area at [(x, y)], when it is on the screen. *)
Definition cell_pixel (c : Compositor) (x y : Z) (rc : Z * Z) : option (Z * Z) :=
  let px := wrap32 (x + rc.2) in
  let py := wrap32 (y + rc.1) in
  if (px <? screen_width c) && (py <? screen_height c) then Some (px, py) else None.

(** [self.cursor_x.max(0) as u32] and its companion *)
Definition cursor_at (c : Compositor) : Z * Z := (Z.max (cursor_x c) 0, Z.max (cursor_y c) 0).

Definition save_cursor_area (g : option Framebuffer) (px : Pixels) (c : Compositor) : Compositor :=
  let '(x, y) := cursor_at c in
  let saved := foldl (λ saved rc,
    match cell_pixel c x y rc with
    | Some (u, w) => <[Z.to_nat (rc.1 * 16 + rc.2) := g_read g px u w]> saved
    | None => saved
    end) (cursor_saved c) cursor_cells in
  mkCompositor (screen_width c) (screen_height c) (windows c) (next_window_id c) (cursor_x c) (cursor_y c)
    saved x y (focused_window c).

Definition restore_cursor_area (g : option Framebuffer) (c : Compositor) (px : Pixels) : Pixels :=
  foldl (λ px rc,
    match cell_pixel c (cursor_saved_x c) (cursor_saved_y c) rc with
    | Some (u, w) => g_write g u w (cursor_saved c !!! Z.to_nat (rc.1 * 16 + rc.2)) px
    | None => px
    end) px cursor_cells.

Definition cursor_data : list Z :=
  [0x8000; 0xC000; 0xE000; 0xF000; 0xF800; 0xFC00; 0xFE00; 0xF800; 0xD800; 0x8C00; 0x0C00; 0x0600].

(** [bits & (0x8000 >> col) != 0] *)
Definition cursor_bit (rc : Z * Z) : bool :=
  negb (Z.land (cursor_data !!! Z.to_nat rc.1) (Z.shiftr 0x8000 rc.2) =? 0).

Definition draw_cursor (g : option Framebuffer) (c : Compositor) (px : Pixels) : Pixels :=
  let '(x, y) := cursor_at c in
  foldl (λ px rc,
    if cursor_bit rc then
      match cell_pixel c x y rc with
      | Some (u, w) => g_draw g u w nord8 px
      | None => px
      end
    else px) px cursor_cells.

Definition render_cursor (g : option Framebuffer) (c : Compositor) (px : Pixels) : Compositor * Pixels :=
  let px := restore_cursor_area g c px in
  let c := save_cursor_area g px c in
  (c, draw_cursor g c px).

Definition render_all (g : option Framebuffer) (c : Compositor) (px : Pixels) : Compositor * Pixels :=
  let px := foldl (λ px w, if win_visible w then render_window g px w else px) px (windows c) in
  let c := save_cursor_area g px c in
  (c, draw_cursor g c px).

(** ** Input *)

(** [Ord::clamp], which panics when the bounds cross. *)
Definition clamp (v lo hi : Z) : option Z := if hi <? lo then None else Some (Z.max lo (Z.min v hi)).

Definition set_position (c : Compositor) (x y : Z) : Compositor :=
  mkCompositor (screen_width c) (screen_height c) (windows c) (next_window_id c) x y
    (cursor_saved c) (cursor_saved_x c) (cursor_saved_y c) (focused_window c).

Definition handle_mouse_move (c : Compositor) (dx dy : Z) : option Compositor :=
  x ← clamp (to_signed 32 (wrap32 (cursor_x c + dx))) 0 (to_signed 32 (wrap32 (to_signed 32 (screen_width c) - 1)));
  y ← clamp (to_signed 32 (wrap32 (cursor_y c + dy))) 0 (to_signed 32 (wrap32 (to_signed 32 (screen_height c) - 1)));
  Some (set_position c x y).

Definition contains (w : Window) (cx cy : Z) : bool :=
  win_visible w && (win_x w <=? cx) && (cx <? wrap32 (win_x w + win_width w)) &&
  (win_y w <=? cy) && (cy <? wrap32 (win_y w + win_height w)).

Definition handle_mouse_click (c : Compositor) : Compositor :=
  let cx := wrap32 (cursor_x c) in
  let cy := wrap32 (cursor_y c) in
  match find_first (λ w, contains w cx cy) (reverse (windows c)) with
  | Some w =>
      mkCompositor (screen_width c) (screen_height c) (windows c) (next_window_id c) (cursor_x c) (cursor_y c)
        (cursor_saved c) (cursor_saved_x c) (cursor_saved_y c) (Some (win_id w))
  | None => c
  end.

(** ** [run_desktop_environment] *)

(** The rings of [input.rs] and the packet that is being assembled. *)
Record Inputs := mkInputs { in_keyboard : RingBuffer; in_mouse : RingBuffer; in_packet : MousePacketState }.

(** [while let Some(event) = poll_mouse_event()]: the compositor, what is left,
    and whether there was an event; [None] is a panic or the end of the fuel. *)
Fixpoint mouse_loop (fuel : nat) (c : Compositor) (buf : RingBuffer) (st : MousePacketState) (redraw : bool)
    : option (Compositor * RingBuffer * MousePacketState * bool) :=
  match fuel with
  | O => None
  | S fuel =>
      match poll_mouse_event buf st with
      | (buf, st, None) => Some (c, buf, st, redraw)
      | (buf, st, Some e) =>
          c ← handle_mouse_move c (delta_x e) (delta_y e);
          let c := if left_button e then handle_mouse_click c else c in
          mouse_loop fuel c buf st true
      end
  end.

(** The keyboard loop; [handle_key] does nothing. *)
Fixpoint key_loop (fuel : nat) (buf : RingBuffer) (redraw : bool) : option (RingBuffer * bool) :=
  match fuel with
  | O => None
  | S fuel =>
      match poll_key_event buf with
      | (buf, None) => Some (buf, redraw)
      | (buf, Some e) => key_loop fuel buf (redraw || pressed e)
      end
  end.

(** One turn of the event loop. *)
Definition desktop_round (fuel : nat) (g : option Framebuffer) (c : Compositor) (px : Pixels) (i : Inputs)
    : option (Compositor * Pixels * Inputs) :=
  '(c, mouse, packet, redraw) ← mouse_loop fuel c (in_mouse i) (in_packet i) false;
  '(keyboard, redraw) ← key_loop fuel (in_keyboard i) redraw;
  let '(c, px) := if redraw : bool then render_cursor g c px else (c, px) in
  Some (c, px, mkInputs keyboard mouse packet).

(** Up to the event loop. *)
Definition desktop_start (g : option Framebuffer) (px : Pixels) : Compositor * Pixels :=
  let '(width, height) := default (800, 600) (get_dimensions g) in
  let '(c, px) := Compositor_new g px width height in
  let '(c, _) := create_window c 50 60 400 300 (ascii_bytes "Terminal") in
  render_all g c px.
