(* ===== verification/KDesktopSafety.v ===== *)
(** * The desktop inside the kernel: properties

    The event loop of the kernel's desktop ends each turn whatever the input
    rings hold, keeps the cursor on the screen, and leaves the picture under the
    cursor as it was. *)

From S2P Require Import Prelude Input InputSafety Graphics KDesktop.

Lemma foldl_ext {A B} (f g : A → B → A) l a : (∀ a b, f a b = g a b) → foldl f a l = foldl g a l.
Proof. intros H. revert a. induction l as [|b l IH]; intros a; [done|]. cbn. by rewrite H. Qed.

(** ** Saving and restoring a patch of pixels *)

Section patch.
Context {C : Type} (ix : C → nat) (at_ : C → option Z).

Definition save_at (px : Pixels) (cs : list C) (saved : list Z) : list Z :=
  foldl (λ s c, match at_ c with Some a => <[ix c := default 0 (px !! a)]> s | None => s end) saved cs.

Definition restore_at (saved : list Z) (cs : list C) (px : Pixels) : Pixels :=
  foldl (λ p c, match at_ c with Some a => <[a := saved !!! ix c]> p | None => p end) px cs.

Lemma length_save_at px cs saved : length (save_at px cs saved) = length saved.
Proof.
  unfold save_at. apply (foldl_preserves (λ s, length s = length saved)); [done|].
  intros s c _ Hs. case_match; [by rewrite length_insert|done].
Qed.

Lemma save_at_lookup px cs saved c a :
  (∀ c c', c ∈ cs → c' ∈ cs → ix c = ix c' → c = c') → (∀ c, c ∈ cs → (ix c < length saved)%nat) →
  c ∈ cs → at_ c = Some a → save_at px cs saved !!! ix c = default 0 (px !! a).
Proof.
  intros Hinj Hlt Hc Ha. induction cs as [|d cs IH] using rev_ind; [by apply elem_of_nil in Hc|].
  unfold save_at. rewrite foldl_snoc. fold (save_at px cs saved).
  destruct (decide (ix d = ix c)) as [E|Hne].
  - apply Hinj in E as ->; [|set_solver..]. rewrite Ha. apply list_lookup_total_insert_eq.
    rewrite length_save_at. apply Hlt. set_solver.
  - assert (c ∈ cs) as Hin by (apply elem_of_app in Hc as [?| ->%list_elem_of_singleton]; [done|done]).
    assert (save_at px cs saved !!! ix c = default 0 (px !! a)) as IH'
      by (apply IH; [intros; apply Hinj; set_solver|intros; apply Hlt; set_solver|done]).
    destruct (at_ d); [by rewrite list_lookup_total_insert_ne|done].
Qed.

Lemma restore_at_lookup saved cs px a :
  (∃ c, c ∈ cs ∧ at_ c = Some a ∧ restore_at saved cs px !! a = Some (saved !!! ix c)) ∨
  ((∀ c, c ∈ cs → at_ c ≠ Some a) ∧ restore_at saved cs px !! a = px !! a).
Proof.
  induction cs as [|d cs IH] using rev_ind; [right; split; [set_solver|done]|].
  unfold restore_at. rewrite foldl_snoc. fold (restore_at saved cs px).
  destruct (decide (at_ d = Some a)) as [Hd|Hd].
  { left. exists d. rewrite Hd, lookup_insert_eq. set_solver. }
  assert (match at_ d with Some a' => <[a' := saved !!! ix d]> (restore_at saved cs px) | None => restore_at saved cs px end !! a
    = restore_at saved cs px !! a) as ->.
  { destruct (at_ d); [|done]. apply lookup_insert_ne. congruence. }
  destruct IH as [(c & Hc & Ha & E)|[Hn E]]; [left; exists c; set_solver|right; split; [|done]].
  intros c [Hc| ->%list_elem_of_singleton]%elem_of_app; [by apply Hn|done].
Qed.

(** What was drawn over the patch between the two is gone. *)
Lemma save_restore cs px px' saved :
  (∀ c c', c ∈ cs → c' ∈ cs → ix c = ix c' → c = c') → (∀ c, c ∈ cs → (ix c < length saved)%nat) →
  (∀ a, (∀ c, c ∈ cs → at_ c ≠ Some a) → px' !! a = px !! a) →
  same_picture (restore_at (save_at px cs saved) cs px') px.
Proof.
  intros Hinj Hlt Hoff a. destruct (restore_at_lookup (save_at px cs saved) cs px' a) as [(c & Hc & Ha & ->)|[Hn ->]].
  - by rewrite (save_at_lookup px cs saved c a).
  - by rewrite Hoff.
Qed.
End patch.

(** ** The cursor *)

Definition cell_ix (rc : Z * Z) : nat := Z.to_nat (rc.1 * 16 + rc.2).

Lemma elem_of_cursor_cells rc : rc ∈ cursor_cells ↔ 0 ≤ rc.1 < 12 ∧ 0 ≤ rc.2 < 16.
Proof.
  destruct rc as [r c]. unfold cursor_cells, cursor_rows. rewrite list_elem_of_bind. setoid_rewrite list_elem_of_bind.
  setoid_rewrite list_elem_of_singleton. setoid_rewrite elem_of_seqZ. cbn. split; [intros (y' & (x' & [= -> ->] & ?) & ?); lia|].
  intros [? ?]. exists r. split; [|lia]. exists c. split; [done|lia].
Qed.

Lemma cell_ix_inj rc rc' : rc ∈ cursor_cells → rc' ∈ cursor_cells → cell_ix rc = cell_ix rc' → rc = rc'.
Proof.
  destruct rc as [r c], rc' as [r' c']. rewrite !elem_of_cursor_cells. unfold cell_ix. cbn. intros ? ? E%Z2Nat.inj; [|lia..].
  f_equal; lia.
Qed.

#[local] Opaque cursor_cells.

(** A screen the compositor was made for. *)
Definition screen_of (g : option Framebuffer) (c : Compositor) : Prop :=
  match g with Some fb => fb_width fb = screen_width c ∧ fb_height fb = screen_height c | None => True end.

Record desktop_ok (g : option Framebuffer) (c : Compositor) : Prop := {
  do_screen : screen_of g c;
  do_width : 1 ≤ screen_width c < 2 ^ 31;
  do_height : 1 ≤ screen_height c < 2 ^ 31;
  do_x : 0 ≤ cursor_x c < screen_width c;
  do_y : 0 ≤ cursor_y c < screen_height c;
  do_saved : length (cursor_saved c) = 192%nat;
}.

(** The address of a cell on the screen. *)
Definition cell_addr (fb : Framebuffer) (c : Compositor) (x y : Z) (rc : Z * Z) : option Z :=
  '(u, w) ← cell_pixel c x y rc; Some (fb_address fb + pixel_offset fb u w).

Lemma cell_visible fb c x y rc u w : screen_of (Some fb) c → cell_pixel c x y rc = Some (u, w) → visible fb u w = true.
Proof.
  intros [Hw Hh]. unfold cell_pixel, visible. rewrite Hw, Hh. cbv zeta. destruct (_ && _) eqn:E; [|done]. by intros [= <- <-].
Qed.

Lemma save_cursor_saved fb px c : screen_of (Some fb) c →
  cursor_saved (save_cursor_area (Some fb) px c) =
  save_at cell_ix (cell_addr fb c (cursor_at c).1 (cursor_at c).2) px cursor_cells (cursor_saved c).
Proof.
  intros Hs. unfold save_cursor_area, save_at. destruct (cursor_at c) as [x y]. cbn [cursor_saved fst snd].
  apply foldl_ext. intros s rc. unfold cell_addr, g_read. destruct (cell_pixel c x y rc) as [[u w]|] eqn:E; [|done].
  cbn. unfold read_pixel. by rewrite (cell_visible _ _ _ _ _ _ _ Hs E).
Qed.

Lemma restore_cursor_eq fb px c : screen_of (Some fb) c →
  restore_cursor_area (Some fb) c px =
  restore_at cell_ix (cell_addr fb c (cursor_saved_x c) (cursor_saved_y c)) (cursor_saved c) cursor_cells px.
Proof.
  intros Hs. unfold restore_cursor_area, restore_at. apply foldl_ext. intros p rc. unfold cell_addr.
  destruct (cell_pixel _ _ _ rc) as [[u w]|] eqn:E; [|done]. cbn. unfold write_pixel.
  by rewrite (cell_visible _ _ _ _ _ _ _ Hs E).
Qed.

Lemma draw_cursor_off fb px c a :
  (∀ rc, rc ∈ cursor_cells → cell_addr fb c (cursor_at c).1 (cursor_at c).2 rc ≠ Some a) →
  draw_cursor (Some fb) c px !! a = px !! a.
Proof.
  intros H. unfold draw_cursor. destruct (cursor_at c) as [x y]. cbn [fst snd] in H.
  apply (foldl_preserves (λ p : Pixels, p !! a = px !! a)); [done|]. intros p rc Hrc Hp. destruct (cursor_bit rc); [|done].
  specialize (H rc Hrc). unfold cell_addr in H. destruct (cell_pixel c x y rc) as [[u w]|]; [|done]. cbn in *.
  unfold draw_pixel, write_pixel, Graphics.store. destruct (visible fb u w); [|done]. rewrite lookup_insert_ne; [done|congruence].
Qed.

(** Saving under the cursor, drawing it and restoring is seen by no one. *)
Lemma cursor_unseen g px c : desktop_ok g c →
  let c' := save_cursor_area g px c in
  same_picture (restore_cursor_area g c' (draw_cursor g c' px)) px.
Proof.
  intros Hok c'. destruct g as [fb|].
  2:{ assert (restore_cursor_area None c' (draw_cursor None c' px) = px) as ->; [|reflexivity].
      unfold restore_cursor_area, draw_cursor. destruct (cursor_at c').
      apply (foldl_preserves (λ p, p = px)); [apply (foldl_preserves (λ p, p = px)); [done|]|]; intros p rc _ ->; repeat case_match; done. }
  pose proof (do_screen _ _ Hok) as Hs. assert (screen_of (Some fb) c') as Hs' by exact Hs.
  rewrite restore_cursor_eq by done. pose proof (save_cursor_saved fb px c Hs) as Hsv. fold c' in Hsv. rewrite Hsv. clear Hsv.
  assert (cursor_saved_x c' = (cursor_at c).1 ∧ cursor_saved_y c' = (cursor_at c).2 ∧ cursor_at c' = cursor_at c) as (-> & -> & Hat)
    by (split_and!; reflexivity).
  assert (cell_addr fb c' (cursor_at c).1 (cursor_at c).2 = cell_addr fb c (cursor_at c).1 (cursor_at c).2) as He
    by reflexivity.
  rewrite He. apply save_restore; [apply cell_ix_inj| |].
  - intros rc [? ?]%elem_of_cursor_cells. rewrite (do_saved _ _ Hok). unfold cell_ix. lia.
  - intros a Ha. apply draw_cursor_off. by rewrite Hat, He.
Qed.

Lemma save_cursor_ok g px c : desktop_ok g c → desktop_ok g (save_cursor_area g px c).
Proof.
  intros [Hs Hw Hh Hx Hy Hl]. unfold save_cursor_area. destruct (cursor_at c) as [x y]. split; cbn; try done.
  apply (foldl_preserves (λ s : list Z, length s = 192%nat)); [done|]. intros s rc _ Hlen.
  repeat case_match; [by rewrite length_insert|done].
Qed.

Lemma render_cursor_spec g c c' px px' : desktop_ok g c → render_cursor g c px = (c', px') →
  desktop_ok g c' ∧ same_picture (restore_cursor_area g c' px') (restore_cursor_area g c px).
Proof.
  intros Hok. unfold render_cursor. intros [= <- <-]. split; [by apply save_cursor_ok|]. by apply cursor_unseen.
Qed.

(** ** Input *)

Lemma signed_small x : 0 ≤ x < 2 ^ 31 → to_signed 32 (wrap32 x) = x.
Proof.
  intros H. unfold to_signed, wrap. change (2 ^ (32 - 1)) with (2 ^ 31). rewrite !(Z.mod_small x) by lia. destruct (Z.leb_spec (2 ^ 31) x); lia.
Qed.

Lemma clamp_on v hi : 0 ≤ hi → ∃ r, clamp v 0 hi = Some r ∧ 0 ≤ r ≤ hi.
Proof. intros H. unfold clamp. destruct (Z.ltb_spec hi 0); [lia|]. eexists. split; [done|]. lia. Qed.

(** What the picture under the cursor depends on. *)
Definition same_patch (c c' : Compositor) : Prop :=
  screen_width c' = screen_width c ∧ screen_height c' = screen_height c ∧ cursor_saved c' = cursor_saved c ∧
  cursor_saved_x c' = cursor_saved_x c ∧ cursor_saved_y c' = cursor_saved_y c.

#[export] Instance same_patch_preorder : PreOrder same_patch.
Proof. split; [done|]. intros a b c (? & ? & ? & ? & ?) (? & ? & ? & ? & ?). repeat split; congruence. Qed.

Lemma same_patch_restore g c c' px : same_patch c c' → restore_cursor_area g c' px = restore_cursor_area g c px.
Proof.
  intros (Hw & Hh & Hs & Hx & Hy). unfold restore_cursor_area, cell_pixel. by rewrite Hw, Hh, Hs, Hx, Hy.
Qed.

Lemma mouse_move_spec g c dx dy : desktop_ok g c →
  ∃ c', handle_mouse_move c dx dy = Some c' ∧ desktop_ok g c' ∧ same_patch c c'.
Proof.
  intros [Hs Hw Hh Hx Hy Hl]. unfold handle_mouse_move.
  assert (Hd : ∀ d, 1 ≤ d < 2 ^ 31 → to_signed 32 (wrap32 (to_signed 32 d - 1)) = d - 1).
  { intros d Hd. assert (to_signed 32 d = d) as ->; [|apply signed_small; lia].
    rewrite <- (signed_small d) at 2 by lia. f_equal. symmetry. apply wrap_small. unfold in_range. lia. }
  rewrite !Hd by done.
  destruct (clamp_on (to_signed 32 (wrap32 (cursor_x c + dx))) (screen_width c - 1)) as (x & -> & Hxr); [lia|].
  cbn [mbind option_bind].
  destruct (clamp_on (to_signed 32 (wrap32 (cursor_y c + dy))) (screen_height c - 1)) as (y & -> & Hyr); [lia|].
  cbn [mbind option_bind]. eexists. split; [reflexivity|]. split; [split; cbn; try done; lia|by repeat split].
Qed.

Lemma mouse_click_spec g c : desktop_ok g c → desktop_ok g (handle_mouse_click c) ∧ same_patch c (handle_mouse_click c).
Proof. intros []. unfold handle_mouse_click. cbv zeta. case_match; [split; [by split|by repeat split]|split; [by split|done]]. Qed.

Lemma poll_mouse_shrinks buf st buf' st' e :
  ring_wf MOUSE_BUFFER_SIZE buf → poll_mouse_event buf st = (buf', st', e) →
  ring_wf MOUSE_BUFFER_SIZE buf' ∧
  (e ≠ None → (length (ring_contents MOUSE_BUFFER_SIZE buf') < length (ring_contents MOUSE_BUFFER_SIZE buf))%nat).
Proof.
  intros Hwf. unfold poll_mouse_event. destruct (drain_spec 16 buf Hwf) as (Hwf' & Hb & Hc).
  destruct (drain 16 buf) as [buf1 bytes]. cbn [fst snd] in *. destruct (Nat.eqb_spec (length bytes) 0) as [E|E].
  { intros [= <- <- <-]. done. }
  destruct (feed st bytes) as [st1 ev]. intros [= <- <- <-]. split; [done|]. intros _. rewrite Hc, length_drop.
  subst bytes. rewrite length_take in E. lia.
Qed.

Lemma mouse_loop_spec g fuel c buf st redraw :
  desktop_ok g c → ring_wf MOUSE_BUFFER_SIZE buf → (length (ring_contents MOUSE_BUFFER_SIZE buf) < fuel)%nat →
  ∃ c' buf' st' redraw', mouse_loop fuel c buf st redraw = Some (c', buf', st', redraw') ∧ desktop_ok g c' ∧
    same_patch c c' ∧ ring_wf MOUSE_BUFFER_SIZE buf'.
Proof.
  revert c buf st redraw. induction fuel as [|fuel IH]; intros c buf st redraw Hok Hwf Hf; [lia|]. cbn [mouse_loop].
  destruct (poll_mouse_event buf st) as [[buf1 st1] e] eqn:E. apply poll_mouse_shrinks in E as [Hwf1 Hlt]; [|done].
  destruct e as [e|]; [|by exists c, buf1, st1, redraw].
  specialize (Hlt ltac:(done)). destruct (mouse_move_spec g c (delta_x e) (delta_y e) Hok) as (c1 & -> & Hok1 & Hp1).
  cbn [mbind option_bind]. set (c2 := if left_button e then handle_mouse_click c1 else c1).
  assert (desktop_ok g c2 ∧ same_patch c1 c2) as [Hok2 Hp2]
    by (unfold c2; destruct (left_button e); [by apply mouse_click_spec|done]).
  destruct (IH c2 buf1 st1 true Hok2 Hwf1) as (c3 & buf3 & st3 & r3 & -> & Hok3 & Hp3 & Hwf3); [lia|].
  exists c3, buf3, st3, r3. split_and!; [done|done| |done]. by etrans; [|etrans].
Qed.

Lemma key_loop_spec fuel buf redraw :
  ring_wf KEYBOARD_BUFFER_SIZE buf → (length (ring_contents KEYBOARD_BUFFER_SIZE buf) < fuel)%nat →
  ∃ buf' redraw', key_loop fuel buf redraw = Some (buf', redraw') ∧ ring_wf KEYBOARD_BUFFER_SIZE buf' ∧
    ring_contents KEYBOARD_BUFFER_SIZE buf' = [].
Proof.
  revert buf redraw. induction fuel as [|fuel IH]; intros buf redraw Hwf Hf; [lia|]. cbn [key_loop].
  unfold poll_key_event, poll_keyboard_byte. destruct (ring_pop_spec _ buf Hwf) as [Hwf1 Hs].
  destruct (ring_contents KEYBOARD_BUFFER_SIZE buf) as [|b l] eqn:Ec.
  { rewrite Hs. by exists buf, redraw. }
  destruct Hs as [Hb Hl]. destruct (ring_pop _ buf) as [buf1 o]. cbn [fst snd] in *. subst o.
  destruct (b =? 0xF0).
  - destruct (ring_pop_spec _ buf1 Hwf1) as [Hwf2 Hs2]. rewrite Hl in Hs2. destruct l as [|b2 l].
    + rewrite Hs2. by exists buf1, redraw.
    + destruct Hs2 as [Hb2 Hl2]. destruct (ring_pop _ buf1) as [buf2 o]. cbn [fst snd] in *. subst o.
      apply IH; [done|]. rewrite Hl2. cbn in Hf. lia.
  - apply IH; [done|]. rewrite Hl. cbn in Hf. lia.
Qed.

(** ** The event loop *)

Definition inputs_wf (i : Inputs) : Prop :=
  ring_wf KEYBOARD_BUFFER_SIZE (in_keyboard i) ∧ ring_wf MOUSE_BUFFER_SIZE (in_mouse i).

Definition DESKTOP_FUEL : nat := 256.

Lemma desktop_round_spec g c px i : desktop_ok g c → inputs_wf i →
  ∃ c' px' i', desktop_round DESKTOP_FUEL g c px i = Some (c', px', i') ∧ desktop_ok g c' ∧ inputs_wf i' ∧
    ring_contents KEYBOARD_BUFFER_SIZE (in_keyboard i') = [] ∧
    same_picture (restore_cursor_area g c' px') (restore_cursor_area g c px).
Proof.
  intros Hok [Hk Hm]. unfold desktop_round.
  destruct (mouse_loop_spec g DESKTOP_FUEL c (in_mouse i) (in_packet i) false Hok Hm) as (c1 & m1 & st1 & r1 & -> & Hok1 & Hp1 & Hm1).
  { rewrite length_ring_contents. destruct (ring_len_spec _ _ Hm) as [? _]. unfold MOUSE_BUFFER_SIZE, DESKTOP_FUEL in *. lia. }
  cbn [mbind option_bind].
  destruct (key_loop_spec DESKTOP_FUEL (in_keyboard i) r1 Hk) as (k1 & r2 & -> & Hk1 & Hempty).
  { rewrite length_ring_contents. destruct (ring_len_spec _ _ Hk) as [? _]. unfold KEYBOARD_BUFFER_SIZE, DESKTOP_FUEL in *. lia. }
  cbn [mbind option_bind]. rewrite <- (same_patch_restore g c c1 px Hp1). destruct r2.
  - destruct (render_cursor g c1 px) as [c2 px2] eqn:E. apply render_cursor_spec in E as [Hok2 Hsame]; [|done].
    do 3 eexists. by split_and!; [reflexivity|..].
  - do 3 eexists. split_and!; [reflexivity|done|by split|done|reflexivity].
Qed.

(** Turns of the loop, each with what the interrupts have left in the rings. *)
Fixpoint desktop_rounds (g : option Framebuffer) (c : Compositor) (px : Pixels) (ins : list Inputs) : option (Compositor * Pixels) :=
  match ins with
  | [] => Some (c, px)
  | i :: ins => '(c, px, _) ← desktop_round DESKTOP_FUEL g c px i; desktop_rounds g c px ins
  end.

Lemma desktop_rounds_spec g c px ins : desktop_ok g c → Forall inputs_wf ins →
  ∃ c' px', desktop_rounds g c px ins = Some (c', px') ∧ desktop_ok g c' ∧
    same_picture (restore_cursor_area g c' px') (restore_cursor_area g c px).
Proof.
  intros Hok Hi. revert c px Hok. induction Hi as [|i ins Hi _ IH]; intros c px Hok; [by exists c, px|]. cbn [desktop_rounds].
  destruct (desktop_round_spec g c px i Hok Hi) as (c1 & px1 & i1 & -> & Hok1 & _ & _ & Hs). cbn [mbind option_bind].
  destruct (IH c1 px1 Hok1) as (c2 & px2 & -> & Hok2 & Hs2). exists c2, px2. split_and!; [done|done|]. by etrans.
Qed.

(** The windows as they are drawn before the cursor. *)
Definition scene (g : option Framebuffer) (px : Pixels) : Pixels :=
  let '(width, height) := default (800, 600) (get_dimensions g) in
  let '(c, px) := Compositor_new g px width height in
  let c := (create_window c 50 60 400 300 (ascii_bytes "Terminal")).1 in
  foldl (λ px w, if win_visible w then render_window g px w else px) px (windows c).

Lemma desktop_start_spec g px :
  (let '(w, h) := default (800, 600) (get_dimensions g) in 1 ≤ w < 2 ^ 31 ∧ 1 ≤ h < 2 ^ 31) →
  let '(c, px') := desktop_start g px in
  desktop_ok g c ∧ same_picture (restore_cursor_area g c px') (scene g px).
Proof.
  unfold desktop_start, scene. destruct (default (800, 600) (get_dimensions g)) as [w h] eqn:Ed. intros [Hw Hh].
  unfold Compositor_new. set (px1 := g_string g _ _ _ _ _ _). cbn [create_window fst snd]. unfold render_all.
  set (c := mkCompositor _ _ _ _ _ _ _ _ _ _). set (px2 := foldl _ _ _).
  assert (desktop_ok g c) as Hok.
  { assert (Hhalf : ∀ d, 1 ≤ d < 2 ^ 31 → 0 ≤ to_signed 32 (d / 2) < d).
    { intros d Hd. pose proof (Z.div_mod d 2 ltac:(lia)). pose proof (Z.mod_pos_bound d 2 ltac:(lia)).
      rewrite <- (wrap_small 32 (d / 2)) by (unfold in_range; lia). rewrite signed_small by lia. lia. }
    split; cbn; [|done|done|by apply Hhalf|by apply Hhalf|reflexivity].
    unfold screen_of. destruct g as [fb|]; [|done]. cbn in Ed. by injection Ed as <- <-. }
  split; [by apply save_cursor_ok|by apply cursor_unseen].
Qed.

(** C40. The desktop in the kernel keeps running: on any screen of less than 2^31
    pixels in each direction (or none), whatever bytes the interrupts leave in
    the input rings before each turn, every turn of its loop ends without a
    panic, the cursor stays on the screen, and what is seen once the cursor is
    taken away is what the windows looked like when they were drawn. *)
Theorem kernel_desktop_runs g px ins :
  (let '(w, h) := default (800, 600) (get_dimensions g) in 1 ≤ w < 2 ^ 31 ∧ 1 ≤ h < 2 ^ 31) →
  Forall inputs_wf ins →
  let '(c, px0) := desktop_start g px in
  ∃ c' px', desktop_rounds g c px0 ins = Some (c', px') ∧
    0 ≤ cursor_x c' < screen_width c' ∧ 0 ≤ cursor_y c' < screen_height c' ∧
    same_picture (restore_cursor_area g c' px') (scene g px).
Proof.
  intros Hd Hi. pose proof (desktop_start_spec g px Hd) as Hs. destruct (desktop_start g px) as [c px0].
  destruct Hs as [Hok Hs]. destruct (desktop_rounds_spec g c px0 ins Hok Hi) as (c' & px' & E & Hok' & Hs').
  exists c', px'. split; [done|]. split; [apply Hok'|]. split; [apply Hok'|]. by etrans.
Qed.

(** ** Witness *)

Definition demo_inputs : Inputs :=
  mkInputs (RingBuffer_new KEYBOARD_BUFFER_SIZE)
    (foldl (λ r b, (ring_push MOUSE_BUFFER_SIZE r b).1) (RingBuffer_new MOUSE_BUFFER_SIZE) [0x09; 0x05; 0x03])
    MousePacketState_new.

Lemma demo_inputs_wf : inputs_wf demo_inputs.
Proof. split; (split; [reflexivity|apply (bool_decide_unpack _); exact I..]). Qed.

Lemma kernel_desktop_runs_witness :
  let '(c, px0) := desktop_start (Some demo_fb) ∅ in
  ∃ c' px', desktop_rounds (Some demo_fb) c px0 [demo_inputs; demo_inputs] = Some (c', px') ∧
    0 ≤ cursor_x c' < screen_width c' ∧ 0 ≤ cursor_y c' < screen_height c' ∧
    same_picture (restore_cursor_area (Some demo_fb) c' px') (scene (Some demo_fb) ∅).
Proof.
  apply (kernel_desktop_runs (Some demo_fb) ∅ [demo_inputs; demo_inputs]).
  - cbn. split; split; lia || reflexivity.
  - repeat constructor; apply demo_inputs_wf.
Defined.
