(* ===== verification/Faults.v ===== *)
(** * Exceptions end to end

    From the faulting instruction to the page-fault handler in user space: the
    delivery and the stub of [Traps.v], [rust_exception_handler] of
    [handlers.rs], and the message of [mm/policy.rs]. *)

From S2P Require Import Prelude Cap Thread Sched Ipc Kernel SyscallSafety X86 Descriptors Traps.

(** [EXCEPTION_NAMES.len()] *)
Definition EXCEPTION_COUNT : Z := 32.

Section faults.
Context {D : Type}.
Implicit Types (k : Kernel D).

(** [rust_exception_handler]: the kernel in which it halts for good.  [cr2] is
    the register it reads on a page fault. *)
Definition rust_exception_handler k (cr2 : Z) (frame : InterruptFrame) : Kernel D :=
  if EXCEPTION_COUNT <=? exception_number frame then k
  else if exception_number frame =? 14 then page_fault_exception k cr2 (error_code frame) (f_rip frame)
  else k.

Lemma page_fault_payload_length tid a e i : length (page_fault_payload tid a e i) = 32%nat.
Proof. unfold page_fault_payload. by rewrite !length_app, !length_le_bytes. Qed.

(** C33. A page fault of a user program reaches the registered handler: whatever the
    program was doing, the gate of vector 14, its stub and the kernel's handler
    leave one more message in the handler's port, from the faulting thread, that
    holds the faulting address, the processor's error code, the address of the
    faulting instruction and the thread's identifier. *)
Theorem user_fault_reported la h tss s e k cr2 tid port p :
  handlers_ok h → mach_ok s → in_range 64 e → in_range 64 (stack_of tss 14 s) → 256 ≤ stack_of tss 14 s →
  Z.land e 4 ≠ 0 → current (k_sched k) = Some tid → k_policy k = Some port → ports (k_ipc k) !! port = Some p →
  (length (port_messages p) < MAX_QUEUE_DEPTH)%nat →
  let '(idt, idtr) := idt_init la h Idt_new in
  ∃ s1, take_interrupt idtr (idt_bytes idt) tss 14 s e = Some s1 ∧ m_rip s1 = exception_handler h 14 ∧
  let s2 := run (exception_stub 14 ++ exception_common) s1 in
  let k' := rust_exception_handler k cr2 (read_frame (mem s2) (regs s2 RCX)) in
  ∃ p' msg, ports (k_ipc k') !! port = Some p' ∧ port_messages p' = port_messages p ++ [msg] ∧
    sender msg = tid ∧ message_type msg = MSG_TYPE_PAGE_FAULT ∧
    payload msg = le_bytes 8 cr2 ++ le_bytes 8 e ++ le_bytes 8 (m_rip s) ++ le_bytes 8 tid.
Proof.
  intros Hh Hs He Hr1 Hr2 Huser Hcur Hpol Hport Hq.
  pose proof (exception_frame_correct la h tss s 14 e Hh Hs He ltac:(apply (bool_decide_unpack _); reflexivity) Hr1 Hr2) as H.
  destruct (idt_init la h Idt_new) as [idt idtr]. destruct H as (s1 & E1 & E2 & H). exists s1. split; [done|]. split; [done|].
  revert H. cbv zeta. generalize (run (exception_stub 14 ++ exception_common) s1). intros s2 (Hf & _ & _). rewrite Hf.
  unfold rust_exception_handler. cbn [exception_number error_code f_rip].
  change (EXCEPTION_COUNT <=? 14) with false. change (14 =? 14) with true. change (cpu_pushes_error 14) with true. cbv iota.
  unfold page_fault_exception. rewrite (proj2 (Z.eqb_neq _ _) Huser), Hcur. cbn [negb set_k_ipc k_ipc].
  unfold notify_page_fault. rewrite Hpol. unfold send_message. rewrite Hport. unfold validate_payload_and_size.
  cbn [shared_region payload Message_new]. rewrite page_fault_payload_length. change (MAX_MESSAGE_SIZE <? Z.of_nat 32) with false.
  change (ZERO_COPY_THRESHOLD <? Z.of_nat 32) with false. cbv iota. rewrite (proj2 (Nat.leb_gt _ _) Hq).
  cbn [fst record_trace_event set_port set_ports ports]. rewrite lookup_insert_eq. do 2 eexists. split; [reflexivity|].
  unfold port_enqueue. cbn [port_messages]. split; [reflexivity|]. unfold stamp. destruct (_ =? 0); done.
Qed.
End faults.

(** ** Witness *)

(** A kernel with one port, registered for page faults. *)
Definition demo_policy : Kernel unit := set_k_policy demo_port (Some 1).

Lemma demo_policy_port : ∃ p, ports (k_ipc demo_policy) !! 1 = Some p ∧ port_messages p = [].
Proof.
  assert (port_messages <$> ports (k_ipc demo_policy) !! 1 = Some []) as H by (vm_compute; reflexivity).
  destruct (ports (k_ipc demo_policy) !! 1) as [p|]; [|done]. exists p. split; [done|]. by injection H.
Qed.

Lemma demo_policy_current : current (k_sched demo_policy) = Some 2.
Proof. vm_compute. reflexivity. Qed.

Lemma user_fault_reported_witness :
  let '(idt, idtr) := idt_init demo_layout demo_handlers Idt_new in
  ∃ s1, take_interrupt idtr (idt_bytes idt) demo_tss 14 demo_mach 6 = Some s1 ∧
  let s2 := run (exception_stub 14 ++ exception_common) s1 in
  ∃ p' msg, ports (k_ipc (rust_exception_handler demo_policy 0x5000 (read_frame (mem s2) (regs s2 RCX)))) !! 1 = Some p' ∧
    port_messages p' = [msg] ∧ payload msg = le_bytes 8 0x5000 ++ le_bytes 8 6 ++ le_bytes 8 0x401000 ++ le_bytes 8 2.
Proof.
  destruct demo_policy_port as (p & Hp & Hq).
  pose proof (user_fault_reported demo_layout demo_handlers demo_tss demo_mach 6 demo_policy 0x5000 2 1 p demo_handlers_ok demo_mach_ok
    ltac:(unfold in_range; lia) ltac:(rewrite demo_stack by lia; unfold in_range; lia) ltac:(rewrite demo_stack; lia)
    ltac:(discriminate) demo_policy_current eq_refl Hp ltac:(rewrite Hq; unfold MAX_QUEUE_DEPTH; cbn; lia)) as H.
  destruct (idt_init demo_layout demo_handlers Idt_new) as [idt idtr]. destruct H as (s1 & H1 & _ & H2).
  exists s1. split; [exact H1|]. revert H2. cbv zeta. generalize (run (exception_stub 14 ++ exception_common) s1).
  intros s2 (p' & msg & Hp' & Hm & _ & _ & Hpay). exists p', msg. rewrite Hq in Hm. split; [exact Hp'|]. split; [exact Hm|exact Hpay].
Defined.
