(* ===== verification/KMain.v ===== *)
(** * The kernel's main function

    [kmain] of [kernel.rs]: every initialiser in the order of the source, over
    the models of the other files, up to the first thread.  Log lines are left
    out, but for the first one, which is written before anything is set up.
    Interrupts are enabled on the way; this is the run in which none arrives
    before the first thread. *)

From S2P Require Import Prelude Thread Sched Pmm Vm Exec Input Graphics Kernel Syscall SyscallSafety X86 Boot.
From S2P Require Import Heap Descriptors Entry Console Apic InitProcess.
Local Open Scope list_scope.
Local Open Scope Z_scope.

(** The memory map, as [mm::init] finds it in memory ([Boot.descriptors] on
    words; the descriptors are aligned to 8 bytes). *)
Definition descriptor_at (m : Memory) (a : Z) : EfiDescriptor :=
  mkEfi (mkDesc (wrap32 (mem_read m a)) (mem_read m (a + 8)) (mem_read m (a + 24))) (mem_read m (a + 32)).

Definition memory_map_at (fuel : nat) (m : Memory) (mm : MemoryMap) : option (list EfiDescriptor) :=
  option_map (map (descriptor_at m)) (iter_all fuel (iter mm)).

(** [mm::init]: pages, page tables, heap; [None] is the panic or the halt of one
    of them.  The initialisers of [addrspace.rs] and [policy.rs] only log. *)
Definition mm_init (m : Memory) (ds : list EfiDescriptor) : option (Vm * Heap) :=
  let v := mkVm (Pmm.init (efi_desc <$> ds)) m 0 0 0 [] in
  v ← vm_init v ds;
  '(p, heap) ← heap_init (vm_pmm v);
  Some (mkVm p (vm_mem v) (active_pml4 v) (mapped_pages v) (page_table_pages v) (invlpg v), heap).

(** The framebuffer is used if the boot information has one and it can be mapped. *)
Definition init_framebuffer (v : Vm) (info : option FramebufferInfo) : Vm * option Framebuffer :=
  match info with
  | None => (v, None)
  | Some fb =>
      let '(v, mapped) := map_framebuffer v (fi_address fb) (fi_size fb) in
      (v, if mapped then Some (Framebuffer_new fb) else None)
  end.

(** What the linker and the processor decide: addresses of code and tables, the
    stack pointer of [kmain], and the feature flags of [cpuid]. *)
Record Env := mkEnv {
  en_layout : Layout;
  en_handlers : Handlers;
  en_idle_thread_entry : Z;
  en_service_worker : Z;
  en_syscall_entry : Z;
  en_rsp : Z;
  en_cpuid_edx : Z;
}.

(** The machine when [kmain] is entered. *)
Record Before (D U : Type) := mkBefore {
  be_memory : Memory;
  be_ps2 : D;
  be_console : Console U;
  be_segments : Segments;
  be_apic : Apic;
  be_msrs : Memory;
}.
Arguments mkBefore {D U}. Arguments be_memory {D U}. Arguments be_ps2 {D U}. Arguments be_console {D U}.
Arguments be_segments {D U}. Arguments be_apic {D U}. Arguments be_msrs {D U}.

(** And when it leaves for the first thread. *)
Record Machine (D U : Type) := mkMachine {
  ma_launch : Launch D;
  ma_heap : Heap;
  ma_info : option (CpuInfo * BootMethod);
  ma_console : Console U;
  ma_segments : Segments;
  ma_idt : list IdtEntry;
  ma_idtr : TableRegister;
  ma_apic : Apic;
  ma_msrs : Memory;
}.
Arguments mkMachine {D U}. Arguments ma_launch {D U}. Arguments ma_heap {D U}. Arguments ma_info {D U}. Arguments ma_console {D U}.
Arguments ma_segments {D U}. Arguments ma_idt {D U}. Arguments ma_idtr {D U}. Arguments ma_apic {D U}. Arguments ma_msrs {D U}.

Section kmain.
Context {D U : Type} {ps2 : Ps2 D} {uart : Uart U}.

(** The first lines: a byte to the serial port, the port, the banner, the screen. *)
Definition init_console (fuel : nat) (c : Console U) : option (Console U) :=
  let c := set_uart c (Console.outb (c_uart c) COM1 75) in
  let c := set_uart c (serial_init (c_uart c) COM1) in
  c ← Console.log fuel c Info (Console.text "kernel:init") BOOT_BANNER (Console.text "kernel/src/kernel.rs") 110;
  Some (set_screen c (Console.clear_screen (c_writer c) (c_cells c))).

Definition init_log (verbose : bool) (c : Console U) : Console U :=
  let c := log_init c in
  if verbose then set_vga_output (set_level c Debug) true else c.

(** [interrupts::init], [interrupts::init_timer(100)]. *)
Definition init_interrupts (en : Env) (msrs : Memory) (a : Apic) : list IdtEntry * TableRegister * Apic :=
  let '(idt, idtr) := idt_init (en_layout en) (en_handlers en) Idt_new in
  let base := rdmsr msrs 0x1B in
  let a := apic_init (en_cpuid_edx en) (wrap32 base) (wrap32 (Z.shiftr base 32)) a in
  (idt, idtr, init_timer a 100).

(** [input::init_ps2_mouse_full]; [input::init] only logs. *)
Definition init_input (k : Kernel D) : Kernel D :=
  let '(d, buf) := init_ps2_mouse_full (k_dev k) (k_mouse k) in
  set_k_mouse (set_k_dev k d) buf.

(** The task state segment is one object: [Segments] has its bytes, the kernel its
    [rsp0], which every dispatch writes. *)
Definition store_rsp0 (s : Segments) (rsp0 : Z) : Segments :=
  mkSegments (sg_gdt s) (Descriptors.set_rsp0 (sg_tss s) rsp0) (sg_gdtr s) (sg_tr s) (sg_cs s) (sg_ds s) (sg_es s) (sg_ss s).

(** [fuel] bounds the wait for the serial port and the loop over the memory map.
    The map is read once, here: it lies in memory that it does not report as
    free.  The initialisers of [thread.rs], [cap.rs], [ipc.rs] and
    [shared_mem.rs] only log, so the kernel starts from the initial values of
    its statics. *)
Definition kmain (fuel : nat) (en : Env) (boot_info : BootInfo) (x : Before D U) : option (Machine D U * dispatch) :=
  let info := system_init None (cpu boot_info) (boot_method boot_info) in
  c ← init_console fuel (be_console x);
  ds ← memory_map_at fuel (be_memory x) (memory_map boot_info);
  '(v, heap) ← mm_init (be_memory x) ds;
  let '(v, fb) := init_framebuffer v (framebuffer boot_info) in
  let segments := gdt_init (en_layout en) (be_segments x) (en_rsp en) in
  let '(v, _) := ensure_current_stack_mapped v (en_rsp en) 64 in
  let c := init_log (verbose boot_info) c in
  let k := kernel_initial (be_ps2 x) v fb in
  let k := set_k_cpu k (Sched.set_rsp0 (k_cpu k) (en_rsp en)) (k_threads k) in
  k ← init_scheduler (en_idle_thread_entry en) k (active_pml4 v);
  let '(idt, idtr, apic) := init_interrupts en (be_msrs x) (be_apic x) in
  let c := set_irq c true in
  let k := init_input k in
  let msrs := syscall_init (en_syscall_entry en) (be_msrs x) in
  '(b, d) ← launch_and_start (en_service_worker en) k (init_payload boot_info) (active_pml4 (k_vm k));
  let segments := store_rsp0 segments (Sched.tss_rsp0 (k_cpu (l_kernel b))) in
  Some (mkMachine b heap info c segments idt idtr apic msrs, d).
End kmain.
