(* ===== verification/KMainMemory.v ===== *)
(** * The kernel's memory while it starts

    The memory [kmain] works on, from the firmware's map up to the launch of
    init: the page table of the kernel, what has been taken from the free pages,
    and what is left as the boot loader put it.  And the one map on which no
    page can ever be mapped: the one that has page 0 free. *)

From S2P Require Import Prelude Thread Sched Pmm PmmSafety Vm VmSafety VmInit VmRange VmPages AddrSpace Exec ExecSafety ExecLoad Services.
From S2P Require Import Kernel Syscall Boot Heap Graphics InitProcess InitSafety KMain.
Local Open Scope list_scope.
Local Open Scope Z_scope.

(** ** The map of the firmware *)

(** Memory below [2^47], conventional regions apart. *)
Record map_ok (ds : list EfiDescriptor) : Prop := {
  mo_efi : Forall efi_wf ds;
  mo_apart : NoDup (concat (desc_pages (init_total (efi_desc <$> ds)) <$> (efi_desc <$> ds)));
}.

Definition free_pages (ds : list EfiDescriptor) : gset Z := free_set (Pmm.init (efi_desc <$> ds)).

Lemma efi_desc_wf d : efi_wf d → desc_wf (efi_desc d).
Proof. unfold efi_wf, desc_wf, in_range, PAGE_SIZE. lia. Qed.

Lemma map_pmm_wf ds : map_ok ds → pmm_wf (Pmm.init (efi_desc <$> ds)).
Proof.
  intros [He Hn]. apply init_correct; [|done]. apply Forall_fmap. eapply Forall_impl; [exact He|]. exact efi_desc_wf.
Qed.

(** ** The invariant *)

(** The active page table maps memory one to one, its tables and everything
    allocated come from the pages [F], and the other pages are as in [m]. *)
Record booted (root : Z) (m : Memory) (F : gset Z) (v : Vm) : Prop := {
  bt_active : active root v;
  bt_identity : identity_map v root;
  bt_free : free_set (vm_pmm v) ⊆ F;
  bt_tables ρ u : path ρ → table_at (vm_mem v) root ρ = Some u → u / PAGE_SIZE ∈ F;
  bt_mem a : a / PAGE_SIZE ∉ F → mem_read (vm_mem v) a = mem_read m a;
}.

Lemma booted_evolves root m F v v' :
  booted root m F v → evolves v v' root → identity_map v' root → booted root m F v'.
Proof.
  intros [Ha _ Hf Ht Hm] Hev Hid. pose proof (active_evolves _ _ _ Ha Hev) as Ha'. destruct Hev as [_ [_ Gf Gn _ _ Gm] _].
  split; [done|done|by etrans| |].
  - intros ρ u Hρ [Hu|Hu]%Gn; [by eapply Ht|by apply Hf|done].
  - intros a Hn. rewrite <- Hm by done. apply Gm; [set_solver|]. intros ρ u Hρ Hu E. apply Hn. rewrite <- E. by eapply Ht.
Qed.

Lemma booted_beside root m F v v' : booted root m F v → beside root v v' → booted root m F v'.
Proof.
  intros [Ha Hid Hf Ht Hm] [Ba Bt Bm Bf Bw]. split; [done| |by etrans| |].
  - intros w e Hw. rewrite !Bm. by apply Hid.
  - intros ρ u Hρ. rewrite Bt by done. by apply Ht.
  - intros a Hn. rewrite Bw by set_solver. by apply Hm.
Qed.

Lemma map_internal_booted root m F v w p flags :
  booted root m F v → low_page p → flags_ok flags → (w = p ∨ w = HIGHER_HALF_BASE + p) →
  booted root m F (map_page_internal v root w p flags).1.
Proof.
  intros Hb Hp Hf Hw. pose proof (ac_ok _ _ (bt_active _ _ _ _ Hb)) as Hok.
  destruct (identity_map_step v root w p flags Hok (bt_identity _ _ _ _ Hb) Hp Hf Hw) as (Hok' & Hid & Ha).
  destruct (map_page_internal v root w p flags) as [v' r] eqn:E. cbn [fst] in *.
  eapply booted_evolves; [exact Hb| |exact Hid]. split; [exact Hok'|by eapply map_internal_grows|exact Ha].
Qed.

(** What is mapped later keeps the invariant and takes no page that is in use. *)
Definition boots_on (root : Z) (m : Memory) (F : gset Z) (v v' : Vm) : Prop :=
  booted root m F v' ∧ free_set (vm_pmm v') ⊆ free_set (vm_pmm v).

Lemma map_page_booted root m F v p flags :
  booted root m F v → low_page p → flags_ok flags → boots_on root m F v (map_page v p p flags).1.
Proof.
  intros Hb Hp Hf. rewrite (map_page_root root) by apply Hb. unfold map_page_in_pml4.
  destruct (_ || _); [done|]. destruct (root =? 0); [done|]. split; [apply map_internal_booted; auto|].
  destruct (map_page_internal v root p p flags) as [v' r] eqn:E. apply map_internal_grows in E; [|apply Hb]. apply E.
Qed.

Lemma boots_on_map root m F v0 v p flags :
  boots_on root m F v0 v → low_page p → flags_ok flags → boots_on root m F v0 (map_page v p p flags).1.
Proof. intros [Hb Hf] Hp Hfl. destruct (map_page_booted root m F v p flags Hb Hp Hfl). split; [done|]. by etrans. Qed.

Lemma map_ram_booted root m F v p flags :
  booted root m F v → low_page p → flags_ok flags → booted root m F (map_ram_page root flags v p).
Proof.
  intros Hb Hp Hf. unfold map_ram_page.
  pose proof (map_internal_booted _ _ _ v p p flags Hb Hp Hf (or_introl eq_refl)) as H1.
  destruct (map_page_internal v root p p flags) as [v1 r]. cbn [fst] in H1. case_match; [|done].
  apply map_internal_booted; auto.
Qed.

(** ** The initialisers *)

(** The tables after the root has been taken. *)
Lemma root_booted s s1 root n :
  pmm_wf (vm_pmm s) → vm_alloc_zeroed s = (s1, Some root) → root ≠ 0 →
  booted root (vm_mem s) (free_set (vm_pmm s)) (mkVm (vm_pmm s1) (vm_mem s1) root (mapped_pages s1) n (invlpg s1)).
Proof.
  intros Hp E H0. destruct (fresh_space s s1 root Hp E) as (Hroot & Hwf & Hpt & Hleaf & Htab).
  destruct (vm_alloc_zeroed_spec s Hp) as [E'|(s2 & page & E' & Hin & _ & Hfs & _ & _ & Hm & _)]; rewrite E in E'; [done|].
  injection E' as -> ->. split; cbn [vm_mem vm_pmm].
  - split; [split; [exact Hwf|exact Hpt]|done|done].
  - intros w e Hw. unfold mapping. cbn [vm_mem]. by rewrite !Hleaf by apply leaf_indices_ok.
  - rewrite Hfs. set_solver.
  - intros ρ u Hρ Hu. rewrite (Htab ρ u Hρ Hu). by rewrite Z.div_mul.
  - intros a Ha. apply Hm. intros Hr. apply Ha. assert (a / PAGE_SIZE = page) as ->; [|done].
    symmetry. apply (Z.div_unique _ _ _ (a - page * PAGE_SIZE)); unfold PAGE_SIZE in *; lia.
Qed.

Lemma vm_init_booted s ds s' :
  pmm_wf (vm_pmm s) → Forall efi_wf ds → 0 ∉ free_set (vm_pmm s) → vm_init s ds = Some s' →
  ∃ root, booted root (vm_mem s) (free_set (vm_pmm s)) s'.
Proof.
  intros Hp Hds H0. unfold vm_init. destruct (vm_alloc_zeroed s) as [s1 [root|]] eqn:E; [|done].
  assert (root ≠ 0) as Hr.
  { destruct (vm_alloc_zeroed_spec s Hp) as [E'|(s2 & page & E' & Hin & _)]; rewrite E in E'; [done|].
    injection E' as -> ->. intros Hz. apply H0. replace 0 with page; [done|]. unfold PAGE_SIZE in Hz. lia. }
  destruct (fresh_space s s1 root Hp E) as (Hlow & _).
  set (P := booted root (vm_mem s) (free_set (vm_pmm s))). pose proof (root_booted s s1 root (page_table_pages (count_table s1)) Hp E Hr : P _) as H2.
  cbn [count_table vm_pmm vm_mem mapped_pages invlpg]. set (s2 := mkVm _ _ _ _ _ _) in *.
  assert (P (foldl (map_descriptor root) s2 ds)) as H3.
  { apply foldl_preserves; [done|]. intros a d Hd Ha. unfold map_descriptor. case_match; [done|].
    apply foldl_preserves; [done|]. intros b p Hpp Hb. rewrite Forall_forall in Hds.
    apply map_ram_booted; [done|by eapply region_pages_low; [apply Hds|]|apply flags_for_descriptor_ok]. }
  pose proof (map_internal_booted _ _ _ _ root root kernel_rw H3 Hlow eq_refl (or_introl eq_refl)) as H4.
  destruct (map_page_internal _ root root root kernel_rw) as [s4 r4]. cbn [fst] in H4.
  set (s5 := foldl _ s4 device_pages). assert (P s5) as H5.
  { apply foldl_preserves; [done|]. intros a p Hpp Ha. apply map_internal_booted; [done|by apply device_pages_low|done|by left]. }
  clearbody s5. intros [= <-]. by exists root.
Qed.

(** The heap is a run of pages beside the tables. *)
Lemma mm_init_booted m ds v heap :
  map_ok ds → 0 ∉ free_pages ds → mm_init m ds = Some (v, heap) →
  ∃ root, booted root m (free_pages ds) v ∧ heap_wf heap ∧ heap_pos heap = heap_start heap ∧
    ∀ x, heap_start heap ≤ x < heap_end heap → x / PAGE_SIZE ∈ free_pages ds ∖ free_set (vm_pmm v).
Proof.
  intros Hds H0. unfold mm_init. cbv zeta. set (v0 := mkVm _ _ _ _ _ _).
  destruct (vm_init v0 ds) as [v1|] eqn:E; [|done]. cbn [mbind option_bind].
  apply vm_init_booted in E as [root Hb]; [|by apply map_pmm_wf|apply Hds|done]. cbn [v0 vm_mem vm_pmm] in Hb. fold (free_pages ds) in Hb.
  pose proof (bt_active _ _ _ _ Hb) as Ha. pose proof (vo_pmm _ _ (ac_ok _ _ Ha)) as Hp. pose proof (bt_free _ _ _ _ Hb) as Hf.
  destruct (heap_init (vm_pmm v1)) as [[p h]|] eqn:Eh; [|done]. intros [= <- <-].
  destruct (heap_init_spec (vm_pmm v1) p h Hp ltac:(set_solver) Eh) as (Hh & Hpos & _ & Hx).
  exists root. split_and!; [|done|done|intros x Hr; destruct (Hx x Hr); set_solver].
  destruct (heap_init_allocates _ _ _ Hp Eh) as (n & q & _ & Hal & _).
  eapply booted_beside; [exact Hb|]. by apply (allocates_beside root v1 n q).
Qed.

(** Pages from [start] up to [end_]. *)
Lemma page_steps_low start end_ p :
  low_page start → end_ ≤ 2 ^ 47 → p ∈ page_steps start end_ → low_page p.
Proof.
  intros [Hs Hm] He (i & -> & Hi%elem_of_seqZ)%list_elem_of_fmap. unfold low_page.
  pose proof (Z.div_mod (end_ - start + PAGE_SIZE - 1) PAGE_SIZE ltac:(done)).
  pose proof (Z.mod_pos_bound (end_ - start + PAGE_SIZE - 1) PAGE_SIZE ltac:(done)).
  split; [unfold PAGE_SIZE in *; lia|]. by rewrite Z.mod_add.
Qed.

Lemma align_down_low a : 0 ≤ a < 2 ^ 47 → low_page (align_down a).
Proof.
  intros Ha. rewrite align_down_spec by (unfold in_range; lia). unfold low_page. split; [|by apply Z.mod_mul].
  pose proof (Z.div_mod a PAGE_SIZE ltac:(done)). pose proof (Z.mod_pos_bound a PAGE_SIZE ltac:(done)). unfold PAGE_SIZE in *; lia.
Qed.

(** A framebuffer in memory below [2^47]. *)
Definition framebuffer_ok (info : option FramebufferInfo) : Prop :=
  ∀ fb, info = Some fb → 0 ≤ fi_address fb ∧ 0 < fi_size fb ∧ fi_address fb + fi_size fb ≤ 2 ^ 47.

Lemma framebuffer_booted root m F v info :
  booted root m F v → framebuffer_ok info → boots_on root m F v (init_framebuffer v info).1.
Proof.
  intros Hb Hi. unfold init_framebuffer. destruct info as [fb|]; [|done]. destruct (Hi fb eq_refl) as (Ha & Hs & Hle).
  unfold map_framebuffer. cbv zeta. set (l := page_steps _ _).
  assert (∀ p, p ∈ l → low_page p) as Hl.
  { intros p. apply page_steps_low; [apply align_down_low; lia|].
    rewrite wrap_small by (unfold in_range; lia). rewrite align_up_spec by (unfold PAGE_SIZE; lia).
    assert ((fi_address fb + fi_size fb + PAGE_SIZE - 1) / PAGE_SIZE < 2 ^ 35 + 1); [apply Z.div_lt_upper_bound|]; unfold PAGE_SIZE in *; lia. }
  match goal with |- context [foldl ?f ?a l] => pose proof (foldl_preserves (λ st, boots_on root m F v st.1) f l a) as Hp end.
  destruct (foldl _ _ l) as [v' n]. cbn [fst] in *. apply Hp; [done|]. intros [b c] p Hpl Hb'. cbn [fst] in *.
  pose proof (boots_on_map root m F v b p framebuffer_flags Hb' (Hl p Hpl) eq_refl) as H1.
  destruct (map_page b p p framebuffer_flags) as [b1 [u|[]]]; exact H1.
Qed.

Lemma translate_same root v virt : active root v → (translate v virt).1 = v.
Proof.
  intros [_ Hr H0]. unfold translate, walk_to_entry. rewrite Hr, (proj2 (Z.eqb_neq _ _) H0), walk_query.
  destruct (table_at _ _ _); [|done]. by destruct (negb _).
Qed.

Lemma stack_booted root m F v rsp :
  booted root m F v → 0 ≤ rsp < 2 ^ 47 → boots_on root m F v (ensure_current_stack_mapped v rsp 64).1.
Proof.
  intros Hb Hr. unfold ensure_current_stack_mapped. change (64 =? 0) with false. cbv iota zeta. set (l := page_steps _ _).
  assert (∀ p, p ∈ l → low_page p) as Hl.
  { destruct (align_down_low rsp Hr) as [Ht Hm]. intros p. apply page_steps_low; [|lia].
    change (wrap64 ((64 - 1) * PAGE_SIZE)) with (63 * PAGE_SIZE). unfold saturating_sub, low_page.
    destruct (Z.max_spec 0 (align_down rsp - 63 * PAGE_SIZE)) as [[? ->]|[? ->]]; split; try (unfold PAGE_SIZE in *; lia); [|done].
    replace (align_down rsp - 63 * PAGE_SIZE) with (align_down rsp + (-63) * PAGE_SIZE) by lia. by rewrite Z.mod_add. }
  apply (foldl_preserves (λ st, boots_on root m F v st.1)); [done|]. intros [b ok] p Hpl Hb'. cbn [fst] in *.
  pose proof (translate_same root b p (bt_active _ _ _ _ (proj1 Hb'))) as Hs. destruct (translate b p) as [b1 [a|]]; cbn [fst] in Hs; subst b1; [done|].
  pose proof (boots_on_map root m F v b p (with_nx kernel_rw) Hb' (Hl p Hpl) eq_refl) as H1.
  destruct (map_page b p p _) as [b1 [u|[]]]; exact H1.
Qed.

(** ** The payload *)

(** The boot loader keeps the payload in pages it does not report as free. *)
Definition payload_reserved (F : gset Z) (p : ExecutableImage) : Prop :=
  ∀ i, 0 ≤ i < img_size p → (img_ptr p + i) / PAGE_SIZE ∉ F.

Lemma init_image_booted root m F v p :
  booted root m F v → payload_reserved F p → init_image (vm_mem v) p = init_image m p.
Proof.
  intros Hb Hp. unfold init_image. destruct (is_present p); [|done]. unfold read_bytes.
  apply list_fmap_ext. intros j i Hi%list_elem_of_lookup_2%elem_of_seqZ.
  unfold byte_read. rewrite (bt_mem _ _ _ _ Hb); [done|]. rewrite word_page. apply Hp. lia.
Qed.

Lemma init_image_length m p : img_size p < 2 ^ 32 → Z.of_nat (length (init_image m p)) < 2 ^ 32.
Proof.
  intros Hp. unfold init_image. destruct (is_present p); [|vm_compute; reflexivity].
  unfold read_bytes. rewrite length_fmap, length_seqZ. lia.
Qed.

(** ** Page 0 *)

(** The root of the page table is the lowest free page, and its address 0 is
    what stands for a page table that is not there yet. *)
Lemma vm_init_zero s ds s' :
  pmm_wf (vm_pmm s) → Forall efi_wf ds → 0 ∈ free_set (vm_pmm s) → vm_init s ds = Some s' → active_pml4 s' = 0.
Proof.
  intros Hp Hds H0 E. destruct (vm_init_inv s ds s' Hp Hds E) as (s1 & root & E1 & _ & _ & ->). revert E1.
  unfold vm_alloc_zeroed, alloc_page_zeroed.
  destruct (alloc_page_spec _ Hp) as [[-> _]|(page & p' & -> & Hin & Hlow & _)]; [done|]. intros [= _ <-].
  pose proof (Hlow 0 H0). pose proof (free_set_lt _ _ Hin). unfold PAGE_SIZE. lia.
Qed.

Lemma mm_init_zero m ds v heap :
  map_ok ds → 0 ∈ free_pages ds → mm_init m ds = Some (v, heap) → active_pml4 v = 0.
Proof.
  intros Hds H0. unfold mm_init. cbv zeta. set (v0 := mkVm _ _ _ _ _ _).
  destruct (vm_init v0 ds) as [v1|] eqn:E; [|done]. cbn [mbind option_bind].
  apply vm_init_zero in E; [|by apply map_pmm_wf|apply Hds|done].
  destruct (heap_init (vm_pmm v1)) as [[p h]|]; [|done]. by intros [= <- <-].
Qed.

(** Without a page table nothing is mapped or unmapped. *)
Lemma map_page_zero v virt phys flags : active_pml4 v = 0 → ∃ e, map_page v virt phys flags = (v, Err e).
Proof. intros H. unfold map_page. rewrite H. destruct (_ || _); by eexists. Qed.

Lemma unmap_page_zero v virt : active_pml4 v = 0 → (unmap_page v virt).1 = v.
Proof. intros H. unfold unmap_page, walk_to_entry. rewrite H. by destruct (negb _). Qed.

Lemma framebuffer_zero v info : active_pml4 v = 0 → active_pml4 (init_framebuffer v info).1 = 0.
Proof.
  intros H. unfold init_framebuffer. destruct info as [fb|]; [|done]. unfold map_framebuffer. cbv zeta. set (l := page_steps _ _).
  match goal with |- context [foldl ?f ?a l] => pose proof (foldl_preserves (λ st, active_pml4 st.1 = 0) f l a) as Hp end.
  destruct (foldl _ _ l) as [v' n]. cbn [fst] in *. apply Hp; [done|]. intros [b c] p _ Hb. cbn [fst] in *.
  destruct (map_page_zero b p p framebuffer_flags Hb) as [e ->]. by destruct e.
Qed.

Lemma stack_zero v rsp n : active_pml4 v = 0 → active_pml4 (ensure_current_stack_mapped v rsp n).1 = 0.
Proof.
  intros H. unfold ensure_current_stack_mapped. destruct (n =? 0); [done|]. cbv zeta.
  apply (foldl_preserves (λ st, active_pml4 st.1 = 0)); [done|]. intros [b ok] p _ Hb. cbn [fst] in *.
  unfold translate, walk_to_entry. rewrite Hb. change (0 =? 0) with true. cbv iota.
  destruct (map_page_zero b p p (with_nx kernel_rw) Hb) as [e ->]. by destruct e.
Qed.

Lemma load_text_zero v bytes :
  active_pml4 v = 0 → Z.of_nat (length bytes) < 2 ^ 32 → ∃ v' e, load_text v bytes = (v', Err e) ∧ active_pml4 v' = 0.
Proof.
  intros H Hl. unfold load_text. destruct (section_pages_spec (Z.of_nat (length bytes))) as (-> & Hn & _); [lia|].
  rewrite Z.div_mul by done. set (n := section_pages _) in *. clearbody n. cbv zeta.
  destruct (vm_alloc_pages_zeroed v n) as [v1 r] eqn:E.
  assert (active_pml4 v1 = 0) as H1.
  { revert E. unfold vm_alloc_pages_zeroed. destruct (alloc_pages_zeroed _ _ _) as [[p m] o]. by intros [= <- _]. }
  destruct r as [phys|]; [|by eexists _, _]. set (v2 := unmap_pages _ _ _). assert (active_pml4 v2 = 0) as H2.
  { unfold v2, unmap_pages. apply (foldl_preserves (λ v, active_pml4 v = 0)).
    - unfold vm_copy_bytes. done.
    - intros a i _ Ha. by rewrite unmap_page_zero. }
  clearbody v2. rewrite seqZ_cons by lia. cbn [map_pages]. cbv zeta.
  match goal with |- context [map_page v2 ?a ?b ?c] => destruct (map_page_zero v2 a b c H2) as [e ->] end. by eexists _, _.
Qed.

Lemma prepare_init_zero v payload :
  active_pml4 v = 0 → img_size payload < 2 ^ 32 → ∃ v' e, prepare_init v payload = (v', Err e) ∧ active_pml4 v' = 0.
Proof.
  intros H Hl. unfold prepare_init, load_payload_into_kernel.
  pose proof (init_image_length (vm_mem v) payload Hl) as Hi. pose proof (init_image_bytes (vm_mem v) payload) as Hb.
  set (image := init_image _ _) in *. clearbody image.
  destruct (parse_image image) as [s|e] eqn:Ep; [|by eexists _, _].
  apply parse_image_iff in Ep as (_ & _ & ->); [|done..].
  destruct (sections_of_ok image Hb Hi) as (_ & _ & Hlt & _). set (s := sections_of image) in *. clearbody s.
  destruct (load_text_zero v (text s) H Hlt) as (v1 & e & -> & H1). by eexists _, _.
Qed.
