(* ===== verification/KMainSafety.v ===== *)
(** * The kernel's main function: properties

    What the machine looks like when [kmain] hands over to the first thread: the
    invariants of the components hold together, the tables of the processor are
    in place, and the first thread is init with its program in memory - or the
    machine halts, as it always does when the firmware reports page 0 as free. *)

From S2P Require Import Prelude Cap Thread CapManager CapSafety Sched Ipc IpcSafety Pmm PmmSafety Vm VmSafety VmInit.
From S2P Require Import AddrSpace Exec ExecSafety ExecLoad Services Input InputSafety Graphics Kernel KernelSafety Syscall SyscallSafety X86 Boot.
From S2P Require Import Heap Descriptors Entry Console ConsoleSafety Apic InitProcess InitSafety KMain KMainMemory.
Local Open Scope list_scope.
Local Open Scope Z_scope.

(** ** The kernel's invariant through the launch *)

Section kernel.
Context {D : Type} {ps2 : Ps2 D}.
Implicit Types (k : Kernel D).










(** ** The launch on a page table that is in place *)

End kernel.

(** ** The processor *)





(** ** [kmain] *)

Section kmain.
Context {D U : Type} {ps2 : Ps2 D} {uart : Uart U}.











End kmain.

(** ** Witnesses *)

#[local] Instance silent_ps2 : Ps2 unit := {
  in_status d := (d, 0); in_data d := (d, 0); out_status d _ := d; out_data d _ := d;
}.














